(* ===== verification/_CoqProject ===== *)
-Q . S2P
Prelude.v
Fips180.v
Sha256.v
Fips202.v
Xkcp.v
XkcpWords.v
XkcpRounds.v
XkcpState.v
XkcpShake.v
Haraka.v
Types.v
HashApi.v
Params.v
Winternitz.v
Spec.v
LmOts.v
LmOtsCorrect.v
Tree.v
Lms.v
LmsCorrect.v
VerifyCorrect.v
Scheme.v
Security.v
OtsTheorems.v
LmsTheorems.v
KeyFormat.v
Hss.v
HssCorrect.v
HssRefresh.v
HssVerify.v
HssSign.v
HssTheorems.v
Subtree.v
SubtreeCorrect.v
SubtreeTriples.v
SubtreeBuild.v
SubtreeCache.v
SubtreeKeygen.v
SubtreeFault.v
SubtreeConfig.v
SubtreeHeap.v
SubtreeInit.v
SubtreeTheorems.v
Coprocess.v
CoprocessCorrect.v
MmioRegs.v
Mmio.v
Accel.v
MmioPack.v
MmioCorrect.v
MmioDemo.v
MmioBackends.v
MmioTheorems.v
SecState.v
SecStateCorrect.v
SecBoot.v
SecTheorems.v
MmioSec.v
RndDet.v
RndStub.v
RndTrng.v
FwPool.v
FwCrc.v
FwStatics.v
FwSerial.v
FwLine.v
FwDemo.v
FwNvm.v
FwBackends.v
FwTree.v
FwHandlers.v
FwServe.v
FwMain.v
FwWire.v
FwSecure.v
SocRuntime.v
