(* ===== verification/Prelude.v ===== *)
(** * SecLMS: hash-based signatures (LMS, LM-OTS, HSS) verified

    The program is a C library of stateful hash-based signatures (RFC 8554 with
    SHA-256, SHAKE256 and Haraka parameter sets) whose hot paths can be handed to an
    accelerator through function pointers.  This development translates the
    library's C code into executable definitions and proves them correct against a
    reference that is written from RFC 8554, FIPS 180-4 ([Fips180]) and FIPS 202 ([Fips202.Ref]).

    ** The parts of the program and the files that model them

    - hashs/sha256.c: [Sha256]; hashs/fips202.c: [Fips202]; hashs/haraka.c: [Haraka].
      Each holds the code's functions and the proof that they agree with a reference: for
      SHA-256 and Keccak the standard written without the code; for Haraka, which has no
      standard, a sponge over the code's own permutation, so that only the absorbing, the padding and
      the squeezing are checked against something else.
    - hashs/xkcp (KeccakP-1600-inplace32BI.c, SnP-Relaned.h, load-store.h, xkcp_shake.c), the
      SHAKE256 of a 32-bit build: [Xkcp].
    - src/hash_api.c, include/hash_api.h: [HashApi]; the class [HashApi] is what the
      signature layers need of the hash functions (total, 32 bytes, bytes), and
      [lms_hash_api] the instance made of the code, for every build configuration, the one
      with [Xkcp] included.
    - include/lms.h, src/lms_internal.h: [Types].  The library's file-local statics are
      the record [world]: two parameter caches, the chain statistics, the registered
      backends, the device behind them.
    - src/lms_params.c: [Params] (accessors, parameter tables and their caches,
      Winternitz coefficients and checksum, hashing of parts) and [Winternitz].
    - src/lm_ots.c: [LmOts]; src/lms_tree.c, src/lms_sign.c, src/lms_verify.c: [Tree];
      src/lms.c: [Lms].
    - src/hss.c, include/hss.h: [Hss].
    - src/lms_subtree.c, src/lms_subtree.h: [Subtree] (the configurator, the memory of a
      context, building of subtrees, the cache and its authentication-path backend).
    - src/lms_coprocess.c, src/lms_coprocess.h: [Coprocess], the full tree kept by the host.
    - src/lms_mmio.h: [MmioRegs], the register map and the command set; src/lms_mmio.c:
      [Mmio], the driver of the accelerator.  The class [Mmio] is what it runs on: the
      client structures, the bus behind its function pointers, the alignment of buffers.
    - fw/lms_sec_state.c, fw/lms_sec_state.h: [SecState], the security state domain of the
      firmware; the class [SecHw] is its interface to the accelerator's driver, the random
      source and the build flags.  [MmioSec] fills it with the driver.
    - fw/lms_rnd_det.c, fw/lms_rnd_stub.c, fw/lms_rnd_trng.c: [RndDet], [RndStub], [RndTrng],
      the random sources a build chooses from; [RndTrng] also holds the reader of the
      peripheral in fw/lms_soc_smoke.c.
    - fw/lms_soc_smoke.c, the firmware: [FwPool], the memory pool behind its trees; [FwCrc],
      its check sums; [FwStatics], its statics; [FwSerial], the serial line and the
      commands on registers; [FwNvm], the mirror of the state record; [FwBackends], the
      callbacks it gives the library; [FwTree], the cached trees; [FwHandlers], the commands
      that sign, verify and generate keys; [FwServe], the commands of the security domain;
      [FwMain], the dispatcher, its response frame and the start.
    - fw/lms_soc_runtime.c, the C runtime of the firmware: [SocRuntime], over a memory of bytes.

    ** How the code is represented

    An unsigned integer of width w is a [Z] below 2^w, with the wrap written out
    ([u8], [u16], [u32], [u64]); a buffer is the list of its bytes ([rd], [slice], [from],
    [splice], [upd]).  A function that returns a status is a computation in the
    state-and-error monad [M] of this file: [C] over [world]; [SM] over [smem], the
    memory of a signing call (the caller's buffer, [priv->q], [*written]); [HM] over
    [hmem], a computation on one [hss_private_key_t]; [HSM] over [hsmem], the memory of
    [hss_sign]; [TM] over [tmem], one [lms_tree_ctx_t] with the world and the trace of
    the calls to its allocator; [CM] over [cpmem], one [lms_coprocess_tree_t] with the world; [FM] over [fmem], the statics of lms_sec_state.c, the
    state of its hardware and the memory at the caller's response pointer; [DM] over [world]
    with the status of the driver; [F] over [world] for the firmware, whose statics [fw_t] lie
    behind the device ([FwMem]), where its callbacks find them.  [or_return e] is [if (f(..) != LMS_OK) return e;], [guard_err] an early
    return, [loopM] a [for] loop.  Pointers the code only passes on or compares with
    [NULL] are numbers.

    What lies outside src/ is a parameter: the class [Platform] (width of [size_t],
    [malloc], the device state and what the heap and the backends keep true of it
    ([dev_ok]), the contents of uninitialised locals, the size of [hss_private_key_t]).  Backends are arbitrary functions on the device; the contracts
    the library relies on (a backend that returns [LMS_OK] wrote what the software
    would have computed, for the arguments the library passes: identifiers, chain segments,
    digits in range) are [backends_sound] in [Spec]; [MmioBackends] proves them of the
    backends of src/lms_mmio.c.  Theorems carry a proposition
    [F] that every registered backend and every possible heap failure implies: a run
    returns the reference value, or fails and then [F] holds.  With [F := False] (no
    backends, a heap that suffices) the functions return.

    ** The reference and the proofs

    - [XkcpWords], [XkcpRounds]: a lane as two words ([woven]) and the places of the lanes between
      the in-place rounds ([interleaved]); the permutation is that of FIPS 202 for any number of
      rounds.  [XkcpState]: the 50 words refine an array of 200 bytes ([bytes_of], [acts]), for every
      sequence of writes, permutations and reads.  [XkcpShake]: [xkcp_shake256] is [shake256].
      [HashApi] puts the three hashes together: [lms_hash] is its reference in every build.
    - [Spec] is RFC 8554 as pure functions: chains, one-time keys and signatures, tree
      nodes, authentication paths, the verifier as a decision ([rfc_accepts]).  It shares with the
      code the readers of a coefficient and of the checksum ([lms_lmots_coef],
      [lms_lmots_checksum]), which [Winternitz] pins down on their own: a coefficient is a field of the
      hash read as one big-endian number ([coef_field]), and the checksum is the sum of what the
      coefficients lack of the largest, shifted ([lmots_checksum_eq]).
      [LmOtsCorrect], [LmsCorrect], [VerifyCorrect] relate the code to it with the
      triples [hoare] (on [world]) and their versions on signing memories; [Scheme]
      proves the reference correct (the verifier accepts what the signer writes).
    - [OtsTheorems], [LmsTheorems], [KeyFormat]: functional refinement of key
      generation, signing, verification and serialisation on every branch; the index
      discipline of a key over arbitrary histories; refusals; round trips; what a
      failing path backend leaves behind.
    - [Security]: from an accepted forgery, either a collision of the hash or a chain
      value below the one the honest signature released can be extracted.
    - [HssCorrect], [HssRefresh], [HssVerify], [HssSign], [HssTheorems]: the invariant
      [hss_ok] of a hierarchy (every level holds the tree its generation determines,
      every level above the last has signed the public key below), its preservation
      by each step, the relation [progress] between the keys before and after the
      cascade, the reference verifier [hss_accepts], and on top the properties:
      initialisation, signing on every outcome, the round trip, and that over any
      history the signatures of the calls that succeed never use a one-time key for two messages.  The
      calls that fail are in that history: unless a backend or the heap fails behind them, they leave the
      caller's buffer as it was (if one fails, they may leave a signature in it).
    - [SubtreeCorrect], [SubtreeTriples]: one subtree as an array of nodes in heap order, its
      invariants while leaves are added ([filled], [merging]), the shape of a whole context
      ([ctx_ok]) and the triples [builds] over the parts a computation may change.
      [SubtreeBuild], [SubtreeCache], [SubtreeKeygen]: recursive building, the cache invariant
      [cache_ok] (a subtree that claims leaves of the tree holds their nodes), key
      generation in one pass.  [SubtreeConfig]: the configurator.  [SubtreeHeap],
      [SubtreeInit]: every operation leaves the trace of allocations balanced up to what
      the context owns.  [SubtreeFault]: what a failed rebuild does to the cache.
      [SubtreeTheorems]: the properties, for every configuration and any sequence of calls.
    - [CoprocessCorrect]: the tree of the host is the reference tree.
    - [SecStateCorrect], with the runs [wp] and the frames [preserves] of this file: the
      record codec, what each operation leaves alone ([core]), the lower bound of the
      counter that every operation keeps ([sec_inv]), power losses.  [SecBoot]: under the
      contract of the tag ([tag_contract]), recovery restores the last commit.
      [SecTheorems]: between two erasures by [sec_keygen_new] no index is released
      twice, unless the history holds one of the two commands of a host that break the discipline
      (an NVM_LOAD, a COMMIT of the largest index as reserved); the outcomes of the
      signing transaction, of recovery and of a new key; the response buffer; and, run on
      a concrete accelerator, what those two commands do, and a retired key that signs again.

    - [Accel]: the accelerator as the driver sees it (registers, task RAM, the phase of the
      command, what a write does, what a read may return, what a finished command has
      computed), and the contract [bus_contract] of a bus with it behind.  [MmioPack]: the
      packed coefficients.  [MmioCorrect]: with the triples [drives], each transfer and each
      command of the backends.  [MmioBackends]: the backends and the calls that register and
      remove them, with the invariant [in_service] of a client.  [MmioDemo]: an accelerator
      that computes and keeps the contract.  [MmioTheorems], [MmioSec]: the properties;
      registering in any order keeps the library's contract, coefficients and buffers
      survive their transfers, and the fall-back to software after a failed probe follows a
      null pointer.

    - [RndDet], [RndStub], [RndTrng], [FwPool] hold their theorems themselves: the derived
      generator never hashes an input twice, the peripheral's reader ends and fails closed,
      blocks of the pool never overlap as long as the sizes asked for are neither 0 nor so large that
      the 32-bit sum wraps, and what happens for the sizes left out.
    - [FwLine]: a serial line as a contract of the device and runs of the firmware on it;
      [FwDemo], a board that keeps it, with an accelerator and a state domain that compute.
      [FwCrc], [FwNvm]: what the host pushes into the mirror comes back, and an altered half is
      refused.  [FwWire]: with the output side of the contract ([sends]), every answer is one
      response frame, and a body follows exactly when it announces one, for answers whose lengths lie within
      their buffers.  [FwSecure]: the command SEC_SIGN over
      the line, on top of the transaction of [SecTheorems]: an index leaves the board only behind
      its commit, and the mirror holds the record that says so.  The other command that signs in the
      secure domain, SEC_LMS_SIGN, commits but never refreshes the mirror, as a run shows.
    - [SocRuntime] proves its functions itself: the word paths of [memcpy], [memmove], [memset] and
      [memcmp] do what the byte loops do, [strstr] finds the first occurrence, and [strncpy]
      pads a string that fits and, with 32-bit pointers that wrap, zeroes the address space but for one byte
      for one that does not.

    ** Recursion and fuel

    [lms_tree_node_rec] recurses on [LMS_MAX_HEIGHT + 1] units of fuel; every call doubles
    the node number, so a node number of at least 1 exhausts a tree of height 25 first,
    and [tree_node_refines] shows the value is returned.  The [while] loops of the hash
    functions take the length of their input as fuel and each turn consumes at least
    one byte; their equality with the reference holds for all inputs.  The HSS cascade
    is structurally recursive on the level.  [merge_loop] of [Subtree] has one unit of
    fuel more than the height of the subtree, which each turn climbs by one;
    [subtree_build_at] is structural on the layer; [depth_loop] has 32 turns for a 32-bit
    number, of which each halves it; the polling loop of the driver has the turns
    [timeout_polls] gives it.  The unbounded polls of the random generator take fuel and run
    out of it in the error [POLLING]; on a generator that answers within it they end.  The polls
    of the firmware take [poll_fuel] of the build and run out of it in [FW_POLLING].  The loop of the
    32-bit Keccak has seven turns for at most 24 rounds, four in each but the first.  The loops of
    [SocRuntime] count down, except those that stop at a NUL: these take fuel, for which the length
    of the string is enough.

    ** Not modelled

    - The contents of output structures and buffers after a failure, except where a
      property is about them (signing buffers): every caller drops them.  A backend
      that fails is assumed to leave the library's memory alone.
    - fw/lms_main.c, fw/lms_bench.c and the start-up code: a demo, a benchmark of
      third-party cryptography, an assembly file.  The accelerator itself
      (rtl/): it is the contract of [Accel], which leaves the commands open that no backend
      issues (hashing, the security domain).  The cycle counters of the profiling builds of
      lms_sec_state.c, lms_mmio.c and lms_soc_smoke.c.  A backend gets the device and not the library's statics,
      so the driver runs on a fresh copy of them ([on_statics]): it only reads the
      parameter caches, which never change a lookup.
    - The branches of hashs/xkcp for a big-endian host: no platform of the project compiles them.
    - rtl, scripts, tests, bench: not the C library.
    - Timing: the comparison of roots is modelled for its value only. *)

From stdpp Require Export base numbers list.
From Stdlib Require Export ZArith Lia.
From coqutil Require Export Datatypes.RecordSetters.
Export DoubleBraceUpdate.

(** Field updates [s {{ f := v }}] compute under [simpl] and [cbn]. *)
#[global] Arguments constant {E} newValue _ /.

#[global] Open Scope Z_scope.
#[global] Set Default Goal Selector "!".

(** * C integers

    A [w]-bit unsigned integer is a [Z] in [0, 2^w); the four casts below are
    the wrap-around of C's unsigned arithmetic, as a mask. *)

Definition u8 (x : Z) : Z := Z.land x 0xff.
Definition u16 (x : Z) : Z := Z.land x 0xffff.
Definition u32 (x : Z) : Z := Z.land x 0xffffffff.
Definition u64 (x : Z) : Z := Z.land x 0xffffffffffffffff.

Definition UINT8_MAX : Z := 255.
Definition UINT16_MAX : Z := 65535.
Definition UINT_MAX : Z := 4294967295.

(** Bitwise complement of a 32-bit and of a 64-bit word. *)
Definition not32 (x : Z) : Z := Z.lxor x 0xffffffff.
Definition not64 (x : Z) : Z := Z.lxor x 0xffffffffffffffff.

Declare Scope c_scope.
Delimit Scope c_scope with c.
Infix "^^" := Z.lxor (at level 50, left associativity) : c_scope.
Infix ".&" := Z.land (at level 40, left associativity) : c_scope.
Infix ".|" := Z.lor (at level 50, left associativity) : c_scope.
Infix ".<<" := Z.shiftl (at level 34, left associativity) : c_scope.
Infix ".>>" := Z.shiftr (at level 34, left associativity) : c_scope.
#[global] Open Scope c_scope.

(** * Byte buffers

    A C buffer is the list of its bytes.  [rd] is [buf[i]]; [slice off n] is
    the [n] bytes at [buf + off]; [splice off src] is
    [memcpy(buf + off, src, |src|)].  None of them extends a buffer. *)

Abbreviation bytes := (list Z).

Definition is_byte (b : Z) : Prop := 0 <= b < 256.

Definition rd (buf : bytes) (i : Z) : Z := nth (Z.to_nat i) buf 0.

Definition len (buf : bytes) : Z := Z.of_nat (length buf).

Definition slice (off n : Z) (buf : bytes) : bytes :=
  take (Z.to_nat n) (drop (Z.to_nat off) buf).

Definition from (off : Z) (buf : bytes) : bytes := drop (Z.to_nat off) buf.

Definition splice (off : Z) (src buf : bytes) : bytes :=
  let o := Z.to_nat off in
  take o buf ++ take (length buf - o) src ++ drop (o + length src) buf.

(** [buf[i] = v] *)
Definition upd {A} (i : Z) (v : A) (buf : list A) : list A := <[Z.to_nat i := v]> buf.

(** [memset(p, c, n)]: a fresh region of [n] bytes. *)
Definition fill (c : Z) (n : Z) : bytes := replicate (Z.to_nat n) c.

(** [for (i = i0; i < i0 + n; i++) a = f(i, a);] *)
Fixpoint for_z {A} (n : nat) (i : Z) (f : Z -> A -> A) (a : A) : A :=
  match n with O => a | S n' => for_z n' (i + 1) f (f i a) end.

(** * Results and the state-and-error monad

    A C function that returns a status and writes its result through an output
    pointer is a computation [M S E A]: it reads and updates the program state
    [S] and returns the value the output holds on success, or the error code. *)

Inductive result (E A : Type) : Type :=
| Ok (a : A)
| Err (e : E).
Arguments Ok {E A} a.
Arguments Err {E A} e.

Definition M (S E A : Type) : Type := S -> result E A * S.

#[export] Instance M_ret {S E} : MRet (M S E) := fun A a s => (Ok a, s).
#[export] Instance M_bind {S E} : MBind (M S E) := fun A B f m s =>
  match m s with
  | (Ok a, s') => f a s'
  | (Err e, s') => (Err e, s')
  end.

Section Monad.
Context {S E : Type}.

Definition fail {A} (e : E) : M S E A := fun s => (Err e, s).
Definition get : M S E S := fun s => (Ok s, s).
Definition modify (f : S -> S) : M S E unit := fun s => (Ok tt, f s).

(** The caller looks at the status instead of returning it. *)
Definition attempt {A} (m : M S E A) : M S E (result E A) :=
  fun s => let '(r, s') := m s in (Ok r, s').

(** [if (m(...) != OK) return e;] *)
Definition or_return {A} (e : E) (m : M S E A) : M S E A :=
  fun s => match m s with
           | (Ok a, s') => (Ok a, s')
           | (Err _, s') => (Err e, s')
           end.

(** [if (c) return e;] *)
Definition guard_err (c : bool) (e : E) : M S E unit :=
  if c then fail e else mret tt.

(** [for (i = i0; i < i0 + n; i++) acc = body(i, acc);] with [return] inside
    the body as an error. *)
Fixpoint loopM {A} (n : nat) (i : Z) (body : Z -> A -> M S E A) (acc : A)
  : M S E A :=
  match n with
  | O => mret acc
  | Datatypes.S n' => acc' ← body i acc; loopM n' (i + 1) body acc'
  end.
End Monad.

(** * Triples

    [hoare I F m P]: from every state of the invariant [I], [m] ends in a state
    of [I], and either returns a value of [P] or fails, which it may only do
    when [F] holds.  With [F := False] the triple says that [m] succeeds. *)

Section Hoare.
Context {S E : Type} (I : S -> Prop) (F : Prop).

Definition hoare {A} (m : M S E A) (P : A -> Prop) : Prop :=
  forall s, I s ->
    match m s with
    | (Ok a, s') => P a /\ I s'
    | (Err _, s') => F /\ I s'
    end.

Lemma hoare_ret {A} (a : A) (P : A -> Prop) : P a -> hoare (mret a) P.
Proof. intros HP s HI. split; assumption. Qed.

Lemma hoare_bind {A B} (m : M S E A) (f : A -> M S E B) (P : A -> Prop)
    (Q : B -> Prop) :
  hoare m P -> (forall a, P a -> hoare (f a) Q) -> hoare (m ≫= f) Q.
Proof.
  intros Hm Hf s HI. unfold mbind, M_bind. specialize (Hm s HI).
  destruct (m s) as [[a | e] s']; [| exact Hm].
  destruct Hm as [Ha HI']. exact (Hf a Ha s' HI').
Qed.

Lemma hoare_conseq {A} (m : M S E A) (P Q : A -> Prop) :
  hoare m P -> (forall a, P a -> Q a) -> hoare m Q.
Proof.
  intros Hm HPQ s HI. specialize (Hm s HI).
  destruct (m s) as [[a | e] s']; intuition auto.
Qed.

Lemma hoare_fail {A} (e : E) (P : A -> Prop) : F -> hoare (fail e) P.
Proof. intros HF s HI. split; assumption. Qed.

Lemma hoare_get (P : S -> Prop) : (forall s, I s -> P s) -> hoare get P.
Proof. intros HP s HI. split; [exact (HP s HI) | exact HI]. Qed.

Lemma hoare_modify (f : S -> S) (P : unit -> Prop) :
  (forall s, I s -> I (f s)) -> P tt -> hoare (modify f) P.
Proof. intros Hf HP s HI. split; [exact HP | exact (Hf s HI)]. Qed.

Lemma hoare_or_return {A} (e : E) (m : M S E A) (P : A -> Prop) :
  hoare m P -> hoare (or_return e m) P.
Proof.
  intros Hm s HI. unfold or_return. specialize (Hm s HI).
  destruct (m s) as [[a | e'] s']; exact Hm.
Qed.

Lemma hoare_attempt {A} (m : M S E A) (P : A -> Prop) :
  hoare m P ->
  hoare (attempt m) (fun r => match r with Ok a => P a | Err _ => F end).
Proof.
  intros Hm s HI. unfold attempt. specialize (Hm s HI).
  destruct (m s) as [[a | e'] s']; exact Hm.
Qed.

Lemma hoare_guard (c : bool) (e : E) (P : unit -> Prop) :
  (c = true -> F) -> P tt -> hoare (guard_err c e) P.
Proof.
  intros Hc HP. destruct c; [apply hoare_fail; auto | apply hoare_ret; auto].
Qed.

(** Loop rule: [P k] describes the accumulator before iteration [k]. *)
Lemma hoare_loop {A} (n : nat) (i : Z) (body : Z -> A -> M S E A)
    (P : Z -> A -> Prop) (acc : A) :
  P i acc ->
  (forall k a, i <= k < i + Z.of_nat n -> P k a -> hoare (body k a) (P (k + 1))) ->
  hoare (loopM n i body acc) (P (i + Z.of_nat n)).
Proof.
  revert i acc. induction n as [| n IH]; intros i acc H0 Hstep.
  - apply hoare_ret. replace (i + Z.of_nat 0) with i by lia. exact H0.
  - simpl. apply hoare_bind with (P := P (i + 1)).
    + apply Hstep; [lia | exact H0].
    + intros a Ha. replace (i + Z.of_nat (Datatypes.S n))
        with (i + 1 + Z.of_nat n) by lia.
      apply IH; [exact Ha |]. intros k b Hk. apply Hstep. lia.
Qed.
End Hoare.

(** [vtriple I view v G m Q]: from the invariant and the view [v] of the state, [m]
    returns a value of [Q] and the new view, or fails with a view of [G]. *)

Section ViewTriples.
Context {S E V : Type} (I : S -> Prop) (view : S -> V).

Definition vtriple {A} (v : V) (G : V -> Prop) (m : M S E A) (Q : A -> V -> Prop) : Prop :=
  forall s, I s -> view s = v ->
    match m s with
    | (Ok a, s') => Q a (view s') /\ I s'
    | (Err _, s') => G (view s') /\ I s'
    end.

Lemma vtriple_ret {A} v G (a : A) (Q : A -> V -> Prop) : Q a v -> vtriple v G (mret a) Q.
Proof. intros HQ s HI <-. split; assumption. Qed.

Lemma vtriple_fail {A} v (G : V -> Prop) e (Q : A -> V -> Prop) : G v -> vtriple v G (fail e) Q.
Proof. intros HG s HI <-. split; assumption. Qed.

Lemma vtriple_bind {A A'} v G (m : M S E A) (f : A -> M S E A') Q R :
  vtriple v G m Q -> (forall a v', Q a v' -> vtriple v' G (f a) R) -> vtriple v G (m ≫= f) R.
Proof.
  intros Hm Hf s HI Hs. specialize (Hm s HI Hs). unfold mbind, M_bind.
  destruct (m s) as [[a | e] s']; [| exact Hm]. destruct Hm as [HQ HI'].
  exact (Hf a _ HQ s' HI' eq_refl).
Qed.

Lemma vtriple_conseq {A} v (G G' : V -> Prop) (m : M S E A) (Q R : A -> V -> Prop) :
  vtriple v G m Q -> (forall v', G v' -> G' v') -> (forall a v', Q a v' -> R a v') -> vtriple v G' m R.
Proof.
  intros Hm HG HQ s HI Hs. specialize (Hm s HI Hs). destruct (m s) as [[a | e] s']; intuition auto.
Qed.

Lemma vtriple_post {A} v G (m : M S E A) (Q R : A -> V -> Prop) :
  vtriple v G m Q -> (forall a v', Q a v' -> R a v') -> vtriple v G m R.
Proof. intros Hm HQ. apply (vtriple_conseq v G G m Q R Hm); auto. Qed.

Lemma vtriple_or_return {A} v G e (m : M S E A) Q : vtriple v G m Q -> vtriple v G (or_return e m) Q.
Proof.
  intros Hm s HI Hs. specialize (Hm s HI Hs). unfold or_return. destruct (m s) as [[a | e'] s']; exact Hm.
Qed.

Lemma vtriple_attempt {A} v G G' (m : M S E A) Q :
  vtriple v G m Q ->
  vtriple v G' (attempt m) (fun r v' => match r with Ok a => Q a v' | Err _ => G v' end).
Proof.
  intros Hm s HI Hs. specialize (Hm s HI Hs). unfold attempt. destruct (m s) as [[a | e'] s']; exact Hm.
Qed.

Lemma vtriple_guard v (G : V -> Prop) c e :
  (c = true -> G v) -> vtriple v G (guard_err c e) (fun _ v' => v' = v /\ c = false).
Proof. intros Hc. destruct c; [apply vtriple_fail; auto | apply vtriple_ret; auto]. Qed.

Lemma vtriple_loop {A} G n i (body : Z -> A -> M S E A) (Q : Z -> A -> V -> Prop) a v :
  Q i a v ->
  (forall k a v, i <= k < i + Z.of_nat n -> Q k a v -> vtriple v G (body k a) (Q (k + 1))) ->
  vtriple v G (loopM n i body a) (Q (i + Z.of_nat n)).
Proof.
  revert i a v. induction n as [| n IH]; intros i a v H0 Hb.
  - apply vtriple_ret. replace (i + Z.of_nat 0) with i by lia. exact H0.
  - cbn [loopM]. eapply vtriple_bind; [apply Hb; [lia | exact H0] |].
    intros a' v' HQ. replace (i + Z.of_nat (Datatypes.S n)) with (i + 1 + Z.of_nat n) by lia.
    apply IH; [exact HQ |]. intros k a'' v'' Hk. apply Hb. lia.
Qed.
End ViewTriples.

Lemma hoare_weaken {S E A} (I : S -> Prop) (F F' : Prop) (m : M S E A) (P : A -> Prop) :
  hoare I F m P -> (F -> F') -> hoare I F' m P.
Proof.
  intros Hm HF s HI. specialize (Hm s HI). destruct (m s) as [[a | e] s']; intuition auto.
Qed.

(** ** One run

    [wp m Q R s]: the run of [m] from [s] ends in [Q] if it returns and in [R] if it fails. *)

Section Wp.
Context {S E : Type}.

Definition wp {A} (m : M S E A) (Q : A -> S -> Prop) (R : E -> S -> Prop) (s : S) : Prop :=
  match m s with (Ok a, s') => Q a s' | (Err e, s') => R e s' end.

Lemma wp_ret {A} (a : A) (Q : A -> S -> Prop) R s : Q a s -> wp (mret a) Q R s.
Proof. exact (fun HQ => HQ). Qed.

Lemma wp_fail {A} e (Q : A -> S -> Prop) (R : E -> S -> Prop) s : R e s -> wp (fail e) Q R s.
Proof. exact (fun HR => HR). Qed.

Lemma wp_bind {A B} (m : M S E A) (f : A -> M S E B) Q R s :
  wp m (fun a => wp (f a) Q R) R s -> wp (m ≫= f) Q R s.
Proof. unfold wp, mbind, M_bind. destruct (m s) as [[a | e] s']; exact (fun Hw => Hw). Qed.

Lemma wp_conseq {A} (m : M S E A) (Q Q' : A -> S -> Prop) (R R' : E -> S -> Prop) s :
  wp m Q R s -> (forall a s', Q a s' -> Q' a s') -> (forall e s', R e s' -> R' e s') -> wp m Q' R' s.
Proof. unfold wp. intros Hm HQ HR. destruct (m s) as [[a | e] s']; auto. Qed.

Lemma wp_attempt {A} (m : M S E A) (Q : result E A -> S -> Prop) R s :
  wp m (fun a => Q (Ok a)) (fun e => Q (Err e)) s -> wp (attempt m) Q R s.
Proof. unfold wp, attempt. destruct (m s) as [[a | e] s']; exact (fun Hw => Hw). Qed.

Lemma wp_or_return {A} e (m : M S E A) (Q : A -> S -> Prop) R s :
  wp m Q (fun _ => R e) s -> wp (or_return e m) Q R s.
Proof. unfold wp, or_return. destruct (m s) as [[a | e'] s']; exact (fun Hw => Hw). Qed.

Lemma wp_guard c e (Q : unit -> S -> Prop) (R : E -> S -> Prop) s :
  (c = true -> R e s) -> (c = false -> Q tt s) -> wp (guard_err c e) Q R s.
Proof. destruct c; intros HR HQ; [apply HR | apply HQ]; reflexivity. Qed.

(** A failure that is turned into a value, or passed on, can be split off. *)
Lemma wp_run {A} (m : M S E A) Q R s r s' : m s = (r, s') -> wp m Q R s ->
  match r with Ok a => Q a s' | Err e => R e s' end.
Proof. unfold wp. intros ->. exact (fun Hw => Hw). Qed.
End Wp.

(** ** What a computation leaves alone

    [preserves g m]: no run of [m] changes [g] of the state. *)

Section Preserves.
Context {S E X : Type} (g : S -> X).

Definition preserves {A} (m : M S E A) : Prop := forall s, g (snd (m s)) = g s.

Lemma preserves_ret {A} (a : A) : preserves (mret a).
Proof. intros s. reflexivity. Qed.

Lemma preserves_fail {A} e : preserves (fail e : M S E A).
Proof. intros s. reflexivity. Qed.

Lemma preserves_bind {A B} (m : M S E A) (f : A -> M S E B) :
  preserves m -> (forall a, preserves (f a)) -> preserves (m ≫= f).
Proof.
  intros Hm Hf s. specialize (Hm s). unfold mbind, M_bind. destruct (m s) as [[a | e] s']; [| exact Hm].
  rewrite (Hf a s'). exact Hm.
Qed.

Lemma preserves_attempt {A} (m : M S E A) : preserves m -> preserves (attempt m).
Proof. intros Hm s. specialize (Hm s). unfold attempt. destruct (m s) as [r s']. exact Hm. Qed.

Lemma preserves_or_return {A} e (m : M S E A) : preserves m -> preserves (or_return e m).
Proof. intros Hm s. specialize (Hm s). unfold or_return. destruct (m s) as [[a | e'] s']; exact Hm. Qed.

Lemma preserves_guard c e : preserves (guard_err c e).
Proof. destruct c; [apply preserves_fail | apply preserves_ret]. Qed.
End Preserves.

Create HintDb preserves_db.
#[export] Hint Resolve preserves_ret preserves_fail preserves_attempt preserves_or_return preserves_guard : preserves_db.

(** ** Runs of a sequence *)

Lemma bind_ok {S E A B} (m : M S E A) (f : A -> M S E B) s a s1 : m s = (Ok a, s1) -> (m ≫= f) s = f a s1.
Proof. intros Hm. unfold mbind, M_bind. rewrite Hm. reflexivity. Qed.

Lemma bind_err {S E A B} (m : M S E A) (f : A -> M S E B) s e s1 : m s = (Err e, s1) -> (m ≫= f) s = (Err e, s1).
Proof. intros Hm. unfold mbind, M_bind. rewrite Hm. reflexivity. Qed.

(** * Generic facts *)

Create HintDb c_db.

Lemma u8_mod x : u8 x = x mod 256.
Proof. exact (Z.land_ones x 8 ltac:(lia)). Qed.

Lemma u16_mod x : u16 x = x mod 65536.
Proof. exact (Z.land_ones x 16 ltac:(lia)). Qed.

Lemma u32_mod x : u32 x = x mod 2 ^ 32.
Proof. exact (Z.land_ones x 32 ltac:(lia)). Qed.

Lemma u64_mod x : u64 x = x mod 2 ^ 64.
Proof. exact (Z.land_ones x 64 ltac:(lia)). Qed.

Lemma u8_byte x : is_byte (u8 x).
Proof. rewrite u8_mod. apply Z.mod_pos_bound. lia. Qed.

Lemma u8_small x : is_byte x -> u8 x = x.
Proof. rewrite u8_mod. apply Z.mod_small. Qed.

Lemma u16_small x : 0 <= x < 65536 -> u16 x = x.
Proof. rewrite u16_mod. apply Z.mod_small. Qed.

Lemma u32_range x : 0 <= u32 x < 2 ^ 32.
Proof. rewrite u32_mod. apply Z.mod_pos_bound. lia. Qed.

Lemma u32_small x : 0 <= x < 2 ^ 32 -> u32 x = x.
Proof. rewrite u32_mod. apply Z.mod_small. Qed.

Lemma u64_range x : 0 <= u64 x < 2 ^ 64.
Proof. rewrite u64_mod. apply Z.mod_pos_bound. lia. Qed.

Lemma u64_small x : 0 <= x < 2 ^ 64 -> u64 x = x.
Proof. rewrite u64_mod. apply Z.mod_small. Qed.

Lemma len_nonneg b : 0 <= len b.
Proof. unfold len. lia. Qed.

Lemma len_app a b : len (a ++ b) = len a + len b.
Proof. unfold len. rewrite length_app. lia. Qed.

Lemma len_nil : len [] = 0.
Proof. reflexivity. Qed.

Lemma len_cons x b : len (x :: b) = 1 + len b.
Proof. unfold len. simpl. lia. Qed.

Lemma len_fill c n : 0 <= n -> len (fill c n) = n.
Proof. unfold len, fill. rewrite length_replicate. lia. Qed.

Lemma fill_bytes n c : is_byte c -> Forall is_byte (fill c n).
Proof. intros Hc. apply Forall_replicate, Hc. Qed.

Lemma len_to_nat b : Z.to_nat (len b) = length b.
Proof. unfold len. lia. Qed.

Create Rewrite HintDb len_db.
#[export] Hint Rewrite len_app len_nil len_cons : len_db.

(** Lengths of concrete concatenations. *)
Ltac len_simpl := autorewrite with len_db in *.
Ltac len_solve :=
  unfold len in *;
  rewrite ?length_app, ?length_take, ?length_drop, ?length_replicate in *;
  cbn [length] in *; lia.

Lemma take_app_len {A} (a b : list A) n : n = length a -> take n (a ++ b) = a.
Proof. intros ->. apply take_app_length. Qed.

Lemma drop_app_len {A} (a b : list A) n : n = length a -> drop n (a ++ b) = b.
Proof. intros ->. apply drop_app_length. Qed.

Lemma slice_app_l off n a b :
  0 <= off -> 0 <= n -> off + n <= len a -> slice off n (a ++ b) = slice off n a.
Proof.
  intros. unfold slice, len in *. rewrite drop_app_le by lia.
  rewrite take_app_le; [reflexivity | rewrite length_drop; lia].
Qed.

Lemma slice_app_r off n a b :
  len a <= off -> slice off n (a ++ b) = slice (off - len a) n b.
Proof.
  intros. unfold slice, len in *. rewrite drop_app_ge by lia.
  f_equal. f_equal. lia.
Qed.

Lemma slice_all n a : n = len a -> slice 0 n a = a.
Proof. intros ->. unfold slice. rewrite drop_0. apply take_ge. unfold len. lia. Qed.

Lemma slice_exact off n a b c :
  off = len a -> n = len b -> slice off n (a ++ b ++ c) = b.
Proof.
  intros -> ->. unfold slice. rewrite drop_app_len by apply len_to_nat.
  apply take_app_len, len_to_nat.
Qed.

Lemma from_exact off a b : off = len a -> from off (a ++ b) = b.
Proof. intros ->. unfold from. apply drop_app_len, len_to_nat. Qed.

Lemma len_slice off n b :
  0 <= off -> 0 <= n -> off + n <= len b -> len (slice off n b) = n.
Proof.
  intros. unfold slice, len in *. rewrite length_take, length_drop. lia.
Qed.

Lemma len_splice off src buf : 0 <= off -> off + len src <= len buf ->
  len (splice off src buf) = len buf.
Proof.
  intros. unfold splice, len in *.
  rewrite !length_app, !length_take, length_drop. lia.
Qed.

(** Writing [src] over the middle of a buffer cut in three. *)
Lemma splice_exact off src a b c :
  off = len a -> length b = length src ->
  splice off src (a ++ b ++ c) = a ++ src ++ c.
Proof.
  intros -> Hb. unfold splice. rewrite len_to_nat, take_app_length.
  f_equal. rewrite take_ge by (rewrite !length_app; lia).
  f_equal. rewrite <- drop_drop, drop_app_length. apply drop_app_len. lia.
Qed.

(** Loop rule. *)
Lemma for_z_inv {A} (f : Z -> A -> A) (Q : Z -> A -> Prop) n : forall i a,
  Q i a -> (forall k a, i <= k < i + Z.of_nat n -> Q k a -> Q (k + 1) (f k a)) -> Q (i + Z.of_nat n) (for_z n i f a).
Proof.
  induction n as [| n IH]; intros i a H0 Hf.
  - replace (i + Z.of_nat 0) with i by lia. exact H0.
  - cbn [for_z]. replace (i + Z.of_nat (S n)) with (i + 1 + Z.of_nat n) by lia.
    apply IH; [apply Hf; [lia | exact H0] |]. intros k b Hk. apply Hf. lia.
Qed.

(** A loop that appends is a concatenation. *)
Lemma for_z_concat {A} n i (g : Z -> list A) acc :
  for_z n i (fun i out => out ++ g i) acc = acc ++ concat (map g (seqZ i (Z.of_nat n))).
Proof.
  revert i acc. induction n as [| n IH]; intros i acc; cbn [for_z].
  - rewrite app_nil_r. reflexivity.
  - rewrite IH, (seqZ_cons i) by lia. cbn [map concat]. rewrite <- app_assoc.
    do 5 f_equal; lia.
Qed.

Lemma map_rd_seqZ b n i :
  0 <= i -> (Z.to_nat i + n <= length b)%nat ->
  map (rd b) (seqZ i (Z.of_nat n)) = take n (from i b).
Proof.
  intros Hi. revert i Hi. induction n as [| n IH]; intros i Hi Hn; [reflexivity |].
  rewrite seqZ_cons by lia. cbn [map].
  replace (Z.pred (Z.of_nat (S n))) with (Z.of_nat n) by lia.
  rewrite IH by lia. unfold from, rd.
  rewrite (drop_S b (nth (Z.to_nat i) b 0) (Z.to_nat i))
    by (destruct (nth_lookup_or_length b (Z.to_nat i) 0); [assumption | lia]).
  cbn [firstn]. do 3 f_equal. lia.
Qed.

(** The entries a loop of in-place updates has passed are updated, the others are not. *)
Lemma for_upd_lookup (g : Z -> Z -> Z) n i s k :
  0 <= i ->
  for_z n i (fun i s => upd i (g i (rd s i)) s) s !! k
  = if decide (i <= Z.of_nat k < i + Z.of_nat n)
    then g (Z.of_nat k) <$> s !! k else s !! k.
Proof.
  revert i s. induction n as [| n IH]; intros i s Hi; cbn [for_z].
  - rewrite decide_False by lia. reflexivity.
  - rewrite IH by lia. unfold upd at 1 2.
    destruct (decide (Z.of_nat k = i)) as [Hk | Hk].
    + rewrite decide_False, decide_True by lia.
      replace (Z.to_nat i) with k by lia. destruct (s !! k) as [x |] eqn:Ex.
      * rewrite list_lookup_insert_eq by (eapply lookup_lt_Some; exact Ex).
        simpl. unfold rd. rewrite (nth_lookup_Some _ (Z.to_nat i) 0 x)
          by (replace (Z.to_nat i) with k by lia; exact Ex).
        rewrite Hk. reflexivity.
      * rewrite lookup_ge_None_2; [reflexivity |].
        rewrite length_insert. apply lookup_ge_None_1. exact Ex.
    + rewrite !list_lookup_insert_ne by lia.
      destruct (decide (i + 1 <= Z.of_nat k < i + 1 + Z.of_nat n));
        [rewrite decide_True by lia | rewrite decide_False by lia]; reflexivity.
Qed.

Lemma slice_slice_0 r off n b :
  0 <= off -> 0 <= n -> off + n <= r -> slice off n (slice 0 r b) = slice off n b.
Proof.
  intros. unfold slice. rewrite drop_0, skipn_firstn_comm, firstn_firstn.
  f_equal. lia.
Qed.

Lemma from_from a b l : 0 <= a -> 0 <= b -> from a (from b l) = from (b + a) l.
Proof. intros. unfold from. rewrite drop_drop. f_equal. lia. Qed.

Lemma slice_from a n b l : 0 <= a -> 0 <= b -> slice a n (from b l) = slice (b + a) n l.
Proof. intros. unfold slice, from. rewrite drop_drop. do 2 f_equal. lia. Qed.

Lemma from_slice a r l : 0 <= a -> from a (slice 0 r l) = slice a (r - a) l.
Proof.
  intros. unfold slice, from. rewrite drop_0, skipn_firstn_comm. f_equal. lia.
Qed.

Lemma Forall_slice (P : Z -> Prop) off n b : Forall P b -> Forall P (slice off n b).
Proof. intros. apply Forall_take, Forall_drop. assumption. Qed.

Lemma Forall_from (P : Z -> Prop) off b : Forall P b -> Forall P (from off b).
Proof. intros. apply Forall_drop. assumption. Qed.

Lemma rd_byte b i : Forall is_byte b -> is_byte (rd b i).
Proof.
  intros Hb. unfold rd. rewrite nth_lookup. destruct (b !! Z.to_nat i) eqn:E; simpl.
  - exact (proj1 (Forall_lookup _ _) Hb _ _ E).
  - unfold is_byte. lia.
Qed.

Lemma len_from off b : 0 <= off -> off <= len b -> len (from off b) = len b - off.
Proof. intros. unfold from, len in *. rewrite length_drop. lia. Qed.

Lemma upd_app_r {A} (a b : list A) i v :
  Z.of_nat (length a) <= i -> upd i v (a ++ b) = a ++ upd (i - Z.of_nat (length a)) v b.
Proof.
  intros. unfold upd. rewrite insert_app_r_alt by lia. do 2 f_equal. lia.
Qed.

Lemma fill_split c a n : 0 <= a <= n -> fill c n = fill c a ++ fill c (n - a).
Proof.
  intros. unfold fill. rewrite <- replicate_add. f_equal. lia.
Qed.

Lemma upd_fill c n v : 1 <= n -> upd 0 v (fill c n) = [v] ++ fill c (n - 1).
Proof.
  intros. unfold fill. replace (Z.to_nat n) with (S (Z.to_nat (n - 1))) by lia. reflexivity.
Qed.

Lemma forallb_seqZ (f : Z -> bool) n i :
  forallb f (seqZ 0 n) = true -> 0 <= i < n -> f i = true.
Proof.
  intros H Hi. rewrite forallb_forall in H. apply H, list_elem_of_In, elem_of_seqZ. lia.
Qed.

Lemma Forall_byte_app a b :
  Forall is_byte a -> Forall is_byte b -> Forall is_byte (a ++ b).
Proof. intros. apply Forall_app. split; assumption. Qed.

#[export] Hint Resolve u8_byte Forall_byte_app len_nonneg : c_db.

(** ** Bits *)

Lemma testbit_above w x i : 0 <= w -> 0 <= x < 2 ^ w -> w <= i -> Z.testbit x i = false.
Proof.
  intros Hw Hx Hi. destruct (Z.eq_dec x 0) as [-> | Hne]; [apply Z.bits_0 |].
  apply Z.bits_above_log2; [lia |]. apply Z.log2_lt_pow2; [lia |].
  pose proof (Z.pow_le_mono_r 2 w i ltac:(lia) Hi). lia.
Qed.

Lemma testbit_mask w x i : 0 <= w -> Z.testbit (x .& Z.ones w) i = Z.testbit x i && (i <? w).
Proof.
  intros Hw. destruct (Z.ltb_spec i 0); [rewrite !Z.testbit_neg_r by lia; reflexivity |].
  rewrite Z.land_spec. f_equal. destruct (Z.ltb_spec i w); [apply Z.ones_spec_low | apply Z.ones_spec_high]; lia.
Qed.

Lemma testbit_u8 x i : Z.testbit (u8 x) i = Z.testbit x i && (i <? 8).
Proof. exact (testbit_mask 8 x i ltac:(lia)). Qed.

Lemma testbit_u32 x i : Z.testbit (u32 x) i = Z.testbit x i && (i <? 32).
Proof. exact (testbit_mask 32 x i ltac:(lia)). Qed.

Lemma testbit_u64 x i : Z.testbit (u64 x) i = Z.testbit x i && (i <? 64).
Proof. exact (testbit_mask 64 x i ltac:(lia)). Qed.

Lemma lor_shiftl_add a k b : 0 <= k -> 0 <= b < 2 ^ k -> (a .<< k) .| b = a * 2 ^ k + b.
Proof.
  intros Hk Hb. rewrite <- Z.shiftl_mul_pow2 by exact Hk.
  assert (Hz : (a .<< k) .& b = 0).
  { apply Z.bits_inj'. intros i Hi. rewrite Z.land_spec, Z.bits_0.
    destruct (Z.ltb_spec i k) as [Hlt | Hge].
    - rewrite Z.shiftl_spec_low by exact Hlt. reflexivity.
    - replace b with (b mod 2 ^ k) by (apply Z.mod_small; exact Hb).
      rewrite Z.mod_pow2_bits_high by lia. apply andb_false_r. }
  rewrite Z.add_nocarry_lxor, Z.lxor_lor by exact Hz. reflexivity.
Qed.

Lemma testbit_b2z b i : Z.testbit (Z.b2z b) i = b && (i =? 0).
Proof.
  destruct (Z.eqb_spec i 0) as [-> | Hi].
  - rewrite Z.b2z_bit0, andb_true_r. reflexivity.
  - rewrite andb_false_r. destruct (Z.ltb_spec i 0); [apply Z.testbit_neg_r; assumption |].
    apply (testbit_above 1); [lia | destruct b; cbn; lia | lia].
Qed.

Lemma bits_below w x : 0 <= w -> (forall i, w <= i -> Z.testbit x i = false) -> 0 <= x -> x < 2 ^ w.
Proof.
  intros Hw Hb Hx. destruct (Z.eq_dec x 0) as [-> | Hne]; [apply Z.pow_pos_nonneg; lia |].
  apply Z.log2_lt_pow2; [lia |]. destruct (Z.lt_ge_cases (Z.log2 x) w) as [H | H]; [exact H |].
  pose proof (Z.bit_log2 x ltac:(lia)) as H1. rewrite Hb in H1 by exact H. discriminate.
Qed.

Lemma lxor_range w x y : 0 <= w -> 0 <= x < 2 ^ w -> 0 <= y < 2 ^ w -> 0 <= x ^^ y < 2 ^ w.
Proof.
  intros Hw Hx Hy. assert (H0 : 0 <= x ^^ y) by (apply Z.lxor_nonneg; lia).
  split; [exact H0 |]. apply bits_below; [exact Hw | | exact H0].
  intros i Hi. rewrite Z.lxor_spec, !(testbit_above w) by assumption. reflexivity.
Qed.

Lemma byte_xor x y : is_byte x -> is_byte y -> is_byte (x ^^ y).
Proof. exact (lxor_range 8 x y ltac:(lia)). Qed.

(** ** Reading a buffer *)

Lemma rd_app_l a b i : 0 <= i < len a -> rd (a ++ b) i = rd a i.
Proof. intros. unfold rd. apply app_nth1. unfold len in *. lia. Qed.

Lemma rd_app_r a b i : len a <= i -> rd (a ++ b) i = rd b (i - len a).
Proof. intros. unfold rd. rewrite app_nth2 by (unfold len in *; lia). f_equal. unfold len. lia. Qed.

Lemma rd_fill z i : rd (fill 0 z) i = 0.
Proof.
  unfold rd, fill. generalize (Z.to_nat z) (Z.to_nat i). intros n.
  induction n as [| n IH]; intros [| k]; simpl; auto.
Qed.

Lemma rd_upd i v l j : 0 <= i -> 0 <= j -> (Z.to_nat i < length l)%nat -> rd (upd i v l) j = if j =? i then v else rd l j.
Proof.
  intros Hi Hj Hl. unfold rd, upd. rewrite !nth_lookup. destruct (Z.eqb_spec j i) as [-> | Hne].
  - rewrite list_lookup_insert_eq by exact Hl. reflexivity.
  - rewrite list_lookup_insert_ne by lia. reflexivity.
Qed.

Lemma rd_from off x k : 0 <= off -> 0 <= k -> rd (from off x) k = rd x (off + k).
Proof.
  intros Ho Hk. unfold rd, from. rewrite !nth_lookup, lookup_drop. do 2 f_equal. lia.
Qed.

Lemma rd_slice off n b k : 0 <= off -> 0 <= k < n -> rd (slice off n b) k = rd b (off + k).
Proof.
  intros Ho Hk. unfold rd, slice. rewrite !nth_lookup, lookup_take_lt, lookup_drop by lia. do 2 f_equal. lia.
Qed.

Lemma rd_splice off src buf k : 0 <= off -> off + len src <= len buf -> 0 <= k ->
  rd (splice off src buf) k = if (off <=? k) && (k <? off + len src) then rd src (k - off) else rd buf k.
Proof.
  intros Ho Hl Hk. unfold splice, rd, len in *. rewrite !nth_lookup.
  rewrite (take_ge src) by lia.
  destruct (Z.leb_spec off k); cbn [andb].
  - rewrite lookup_app_r by (rewrite length_take; lia). rewrite length_take, Nat.min_l by lia.
    destruct (Z.ltb_spec k (off + Z.of_nat (length src))).
    + rewrite lookup_app_l by lia. do 2 f_equal. lia.
    + rewrite lookup_app_r, lookup_drop by lia. do 2 f_equal. lia.
  - rewrite lookup_app_l by (rewrite length_take; lia). rewrite lookup_take_lt by lia. reflexivity.
Qed.

Lemma slice_split off n m b : 0 <= off -> 0 <= n -> 0 <= m -> slice off (n + m) b = slice off n b ++ slice (off + n) m b.
Proof.
  intros Ho Hn Hm. unfold slice. rewrite !Z2Nat.inj_add by lia. rewrite <- take_take_drop, drop_drop. reflexivity.
Qed.

Lemma slice_none off b : slice off 0 b = [].
Proof. reflexivity. Qed.
