(* ===== verification/Fips180.v ===== *)
(** SHA-256 as FIPS 180-4 defines it, written without the code: the reference that [Sha256]
    is compared with.

    Words are numbers below 2^32; the functions of section 4.1.2 are given by the arithmetic
    of the standard, the constants of sections 4.2.2 and 5.3.3 by what they are: the first 32 bits of
    the fractional parts of the cube roots of the first 64 primes and of the square roots of the
    first 8. *)

From S2P Require Import Prelude.

Module Ref.

(** * The constants *)

Definition is_prime (n : Z) : bool := (2 <=? n) && forallb (fun d => negb (n mod d =? 0)) (seqZ 2 (n - 2)).
Definition primes (n : nat) : list Z := take n (filter (fun p => is_prime p = true) (seqZ 2 400)).

(** The largest [r + s] with [s < 2 ^ bits] and [(r + s) ^ k <= x], from the top bit down. *)
Fixpoint root (k : Z) (bits : nat) (x r : Z) : Z :=
  match bits with
  | O => r
  | S bits => let r' := r + 2 ^ Z.of_nat bits in root k bits x (if r' ^ k <=? x then r' else r)
  end.

(** [2 ^ 32] times the [k]-th root of [p], rounded down. *)
Definition scaled_root (k p : Z) : Z := root k 40 (p * 2 ^ (32 * k)) 0.
Definition fraction (k p : Z) : Z := scaled_root k p mod 2 ^ 32.

Definition K : list Z := map (fraction 3) (primes 64).
Definition H : list Z := map (fraction 2) (primes 8).

(** The roots are exact to the last bit, and 40 bits hold them. *)
Lemma roots_exact :
  forallb (fun p => (scaled_root 3 p ^ 3 <=? p * 2 ^ 96) && (p * 2 ^ 96 <? (scaled_root 3 p + 1) ^ 3)) (primes 64) = true /\
  forallb (fun p => (scaled_root 2 p ^ 2 <=? p * 2 ^ 64) && (p * 2 ^ 64 <? (scaled_root 2 p + 1) ^ 2)) (primes 8) = true /\
  length (primes 64) = 64%nat /\ primes 8 = [2; 3; 5; 7; 11; 13; 17; 19].
Proof. vm_compute. auto. Qed.

(** * Functions on words *)

Definition word (x : Z) : Z := x mod 2 ^ 32.
Definition ROTR (n x : Z) : Z := x / 2 ^ n + (x mod 2 ^ n) * 2 ^ (32 - n).
Definition SHR (n x : Z) : Z := x / 2 ^ n.

(** Bit by bit: [y] where [x] is 1 and [z] where it is 0; what two of the three have. *)
Definition Ch (x y z : Z) : Z := (x .& y) .| (Z.ldiff z x).
Definition Maj (x y z : Z) : Z := (x .& y) .| (x .& z) .| (y .& z).

Definition Sigma0 (x : Z) : Z := ROTR 2 x ^^ ROTR 13 x ^^ ROTR 22 x.
Definition Sigma1 (x : Z) : Z := ROTR 6 x ^^ ROTR 11 x ^^ ROTR 25 x.
Definition sigma0 (x : Z) : Z := ROTR 7 x ^^ ROTR 18 x ^^ SHR 3 x.
Definition sigma1 (x : Z) : Z := ROTR 17 x ^^ ROTR 19 x ^^ SHR 10 x.

(** * Blocks *)

(** Bytes as a big-endian number, and back. *)
Definition number (b : bytes) : Z := fold_left (fun x d => 256 * x + d) b 0.
Fixpoint digits (n : nat) (x : Z) : bytes :=
  match n with
  | O => []
  | S n => digits n (x / 256) ++ [x mod 256]
  end.

(** The words of a block. *)
Definition message_words (block : bytes) : list Z := map (fun t => number (take 4 (drop (4 * t) block))) (seq 0 16).

(** The message schedule: [W_t] behind the words before it. *)
Fixpoint expand (n : nat) (W : list Z) : list Z :=
  match n with
  | O => W
  | S n =>
      let w k := nth (length W - k) W 0 in
      expand n (W ++ [word (sigma1 (w 2%nat) + w 7%nat + sigma0 (w 15%nat) + w 16%nat)])
  end.

Definition step (W : list Z) (t : Z) '(a, b, c, d, e, f, g, h) :=
  let T1 := h + Sigma1 e + Ch e f g + nth (Z.to_nat t) K 0 + nth (Z.to_nat t) W 0 in
  let T2 := Sigma0 a + Maj a b c in
  (word (T1 + T2), a, b, c, word (d + T1), e, f, g).

Definition compress (h : list Z) (block : bytes) : list Z :=
  let h k := nth k h 0 in
  let '(a, b, c, d, e, f, g, x) :=
    fold_left (fun v t => step (expand 48 (message_words block)) t v) (seqZ 0 64)
      (h 0%nat, h 1%nat, h 2%nat, h 3%nat, h 4%nat, h 5%nat, h 6%nat, h 7%nat) in
  map word [h 0%nat + a; h 1%nat + b; h 2%nat + c; h 3%nat + d; h 4%nat + e; h 5%nat + f; h 6%nat + g; h 7%nat + x].

(** * The hash *)

(** A bit 1 and the fewest zeros to 448 modulo 512 bits, then the length in 64 bits. *)
Definition pad (msg : bytes) : bytes :=
  let l := 8 * len msg in
  msg ++ [0x80] ++ fill 0 ((448 - (l + 8)) mod 512 / 8) ++ digits 8 l.

Fixpoint blocks (n : nat) (h : list Z) (data : bytes) : list Z :=
  match n with
  | O => h
  | S n => blocks n (compress h (take 64 data)) (drop 64 data)
  end.

Definition sha256 (msg : bytes) : bytes :=
  concat (map (digits 4) (blocks (length (pad msg) / 64) H (pad msg))).
End Ref.
