(* ===== verification/Sha256.v ===== *)
(** SHA-256 (hashs/sha256.c): the streaming interface [SHA256_Init],
    [SHA256_Update], [SHA256_Final] over a context record, and its refinement
    to the one-shot padded hash of FIPS 180-4.

    The memory behind [const void *input, unsigned int input_len] is one list of
    bytes.  A context on the stack is not initialised before [SHA256_Init]; the
    model takes it as an argument, and [sha256_digest_spec] shows that the digest does not
    depend on it. *)

From S2P Require Import Prelude Fips180.

Definition SHA256_BLOCK_LEN : Z := 64.
Definition SHA256_LEN : Z := 32.

Record SHA256_CTX := mkSHA256_CTX {
  sha_state : list Z;          (* uint32_t state[8] *)
  bit_len : Z;             (* uint64_t *)
  buffer : bytes;          (* uint8_t buffer[64] *)
  buffer_len : Z           (* size_t *)
}.

Definition rotr32 (x n : Z) : Z := x .>> n .| u32 (x .<< (32 - n)).

Definition load_be32 (b : bytes) : Z :=
  rd b 0 .<< 24 .| rd b 1 .<< 16 .| rd b 2 .<< 8 .| rd b 3.

Definition store_be32 (value : Z) : bytes :=
  [u8 (value .>> 24); u8 (value .>> 16); u8 (value .>> 8); u8 value].

Definition store_be64 (value : Z) : bytes :=
  [u8 (value .>> 56); u8 (value .>> 48); u8 (value .>> 40); u8 (value .>> 32);
   u8 (value .>> 24); u8 (value .>> 16); u8 (value .>> 8); u8 value].

(** The round constants [k[64]], in decimal. *)
Definition sha256_k : list Z := [
    1116352408; 1899447441; 3049323471; 3921009573;
    961987163; 1508970993; 2453635748; 2870763221;
    3624381080; 310598401; 607225278; 1426881987;
    1925078388; 2162078206; 2614888103; 3248222580;
    3835390401; 4022224774; 264347078; 604807628;
    770255983; 1249150122; 1555081692; 1996064986;
    2554220882; 2821834349; 2952996808; 3210313671;
    3336571891; 3584528711; 113926993; 338241895;
    666307205; 773529912; 1294757372; 1396182291;
    1695183700; 1986661051; 2177026350; 2456956037;
    2730485921; 2820302411; 3259730800; 3345764771;
    3516065817; 3600352804; 4094571909; 275423344;
    430227734; 506948616; 659060556; 883997877;
    958139571; 1322822218; 1537002063; 1747873779;
    1955562222; 2024104815; 2227730452; 2361852424;
    2428436474; 2756734187; 3204031479; 3329325298].

(** [w[16..63]]: one pass of the schedule loop. *)
Definition sched_step (i : Z) (w : list Z) : list Z :=
  let s0 := rotr32 (rd w (i - 15)) 7 ^^ rotr32 (rd w (i - 15)) 18
            ^^ (rd w (i - 15) .>> 3) in
  let s1 := rotr32 (rd w (i - 2)) 17 ^^ rotr32 (rd w (i - 2)) 19
            ^^ (rd w (i - 2) .>> 10) in
  w ++ [u32 (rd w (i - 16) + s0 + rd w (i - 7) + s1)].

Definition schedule (block : bytes) : list Z :=
  let w16 := for_z 16 0 (fun i w => w ++ [load_be32 (from (i * 4) block)]) [] in
  for_z 48 16 sched_step w16.

(** The eight working variables [a..h]. *)
Record vars := mkVars { va : Z; vb : Z; vc : Z; vd : Z; ve : Z; vf : Z; vg : Z; vh : Z }.

Definition sha256_round (w : list Z) (i : Z) (v : vars) : vars :=
  let s1 := rotr32 (ve v) 6 ^^ rotr32 (ve v) 11 ^^ rotr32 (ve v) 25 in
  let ch := (ve v .& vf v) ^^ (not32 (ve v) .& vg v) in
  let temp1 := u32 (vh v + s1 + ch + rd sha256_k i + rd w i) in
  let s0 := rotr32 (va v) 2 ^^ rotr32 (va v) 13 ^^ rotr32 (va v) 22 in
  let maj := (va v .& vb v) ^^ (va v .& vc v) ^^ (vb v .& vc v) in
  let temp2 := u32 (s0 + maj) in
  mkVars (u32 (temp1 + temp2)) (va v) (vb v) (vc v)
         (u32 (vd v + temp1)) (ve v) (vf v) (vg v).

Definition sha256_compress (ctx : SHA256_CTX) (block : bytes) : SHA256_CTX :=
  let w := schedule block in
  let s := sha_state ctx in
  let v := for_z 64 0 (sha256_round w)
             (mkVars (rd s 0) (rd s 1) (rd s 2) (rd s 3)
                     (rd s 4) (rd s 5) (rd s 6) (rd s 7)) in
  ctx {{ sha_state := [u32 (rd s 0 + va v); u32 (rd s 1 + vb v); u32 (rd s 2 + vc v);
                   u32 (rd s 3 + vd v); u32 (rd s 4 + ve v); u32 (rd s 5 + vf v);
                   u32 (rd s 6 + vg v); u32 (rd s 7 + vh v)] }}.

Definition H0 : list Z :=
  [0x6a09e667; 0xbb67ae85; 0x3c6ef372; 0xa54ff53a;
   0x510e527f; 0x9b05688c; 0x1f83d9ab; 0x5be0cd19].

(** [SHA256_Init] writes every field but [buffer]. *)
Definition SHA256_Init (ctx : SHA256_CTX) : SHA256_CTX :=
  ctx {{ sha_state := H0; bit_len := 0; buffer_len := 0 }}.

(** One iteration of [while (input_len)] on the chunk it takes. *)
Definition update_chunk (ctx : SHA256_CTX) (chunk : bytes) : SHA256_CTX :=
  let ctx := ctx {{ buffer := splice (buffer_len ctx) chunk (buffer ctx);
                    buffer_len := buffer_len ctx + len chunk }} in
  if buffer_len ctx =? SHA256_BLOCK_LEN then
    let ctx := sha256_compress ctx (buffer ctx) in
    ctx {{ bit_len := u64 (bit_len ctx + SHA256_BLOCK_LEN * 8); buffer_len := 0 }}
  else ctx.

Fixpoint update_loop (fuel : nat) (ctx : SHA256_CTX) (data : bytes) : SHA256_CTX :=
  match fuel with
  | O => ctx
  | S fuel' =>
      if len data =? 0 then ctx
      else
        let take_ := Z.min (SHA256_BLOCK_LEN - buffer_len ctx) (len data) in
        update_loop fuel' (update_chunk ctx (slice 0 take_ data)) (from take_ data)
  end.

(** Every iteration consumes at least one byte, so [length data] rounds suffice. *)
Definition SHA256_Update (ctx : SHA256_CTX) (input : bytes) : SHA256_CTX :=
  update_loop (length input) ctx input.

(** [while (ctx->buffer_len < target) ctx->buffer[ctx->buffer_len++] = 0;] *)
Fixpoint zero_loop (fuel : nat) (target : Z) (ctx : SHA256_CTX) : SHA256_CTX :=
  match fuel with
  | O => ctx
  | S fuel' =>
      if buffer_len ctx <? target then
        zero_loop fuel' target
          (ctx {{ buffer := splice (buffer_len ctx) [0] (buffer ctx);
                  buffer_len := buffer_len ctx + 1 }})
      else ctx
  end.

Definition SHA256_Final (ctx : SHA256_CTX) : bytes :=
  let total_bits := u64 (bit_len ctx + buffer_len ctx * 8) in
  let ctx := ctx {{ buffer := splice (buffer_len ctx) [0x80] (buffer ctx);
                    buffer_len := buffer_len ctx + 1 }} in
  let ctx :=
    if 56 <? buffer_len ctx then
      let ctx := zero_loop 64 SHA256_BLOCK_LEN ctx in
      (sha256_compress ctx (buffer ctx)) {{ buffer_len := 0 }}
    else ctx in
  let ctx := zero_loop 64 56 ctx in
  let ctx := ctx {{ buffer := splice 56 (store_be64 total_bits) (buffer ctx) }} in
  let ctx := sha256_compress ctx (buffer ctx) in
  concat (map store_be32 (sha_state ctx)).

(** The context a caller has on its stack before [SHA256_Init]. *)
Definition zero_ctx : SHA256_CTX := mkSHA256_CTX (fill 0 8) 0 (fill 0 64) 0.

Definition sha256 (input : bytes) : bytes :=
  SHA256_Final (SHA256_Update (SHA256_Init zero_ctx) input).

(** * FIPS 180-4 reference: one-shot padding, then one compression per block *)

(** The state after compressing [block] from the state [st]. *)
Definition compress (st : list Z) (block : bytes) : list Z :=
  sha_state (sha256_compress (mkSHA256_CTX st 0 [] 0) block).

(** The state after the first [n] 64-byte blocks of [data]. *)
Fixpoint compress_blocks (n : nat) (st : list Z) (data : bytes) : list Z :=
  match n with
  | O => st
  | S n' => compress_blocks n' (compress st (take 64 data)) (drop 64 data)
  end.

(** [0x80], the fewest zeros that leave room for the length, the bit length. *)
Definition sha256_padding (msg_len : Z) : bytes :=
  [0x80] ++ fill 0 ((55 - msg_len) mod 64) ++ store_be64 (8 * msg_len).

Definition sha256_spec (msg : bytes) : bytes :=
  let padded := msg ++ sha256_padding (len msg) in
  concat (map store_be32 (compress_blocks (length padded / 64) H0 padded)).

Definition ascii_abc : bytes := [0x61; 0x62; 0x63].

Example sha256_abc : sha256 ascii_abc =
  [0xba; 0x78; 0x16; 0xbf; 0x8f; 0x01; 0xcf; 0xea; 0x41; 0x41; 0x40; 0xde; 0x5d; 0xae; 0x22; 0x23;
   0xb0; 0x03; 0x61; 0xa3; 0x96; 0x17; 0x7a; 0x9c; 0xb4; 0x10; 0xff; 0x61; 0xf2; 0x00; 0x15; 0xad].
Proof. vm_compute. reflexivity. Qed.

(** * The reference is FIPS 180-4

    [sha256_spec] pads at once and compresses with the code's own functions; it is the hash
    of Fips180.v, whose constants, rounds, schedule and padding come from the standard. *)

Definition is_word (x : Z) : Prop := 0 <= x < 2 ^ 32.

Lemma K_of_primes : Ref.K = sha256_k.
Proof. vm_compute. reflexivity. Qed.

Lemma H_of_primes : Ref.H = H0.
Proof. vm_compute. reflexivity. Qed.

Lemma rotr_ref x n : is_word x -> 0 < n < 32 -> rotr32 x n = Ref.ROTR n x.
Proof.
  unfold is_word. intros Hx Hn. unfold rotr32, Ref.ROTR.
  assert (E : u32 (x .<< (32 - n)) = (x mod 2 ^ n) .<< (32 - n)).
  { rewrite u32_mod, !Z.shiftl_mul_pow2 by lia. replace (2 ^ 32) with (2 ^ n * 2 ^ (32 - n)).
    - apply Z.mul_mod_distr_r; apply Z.pow_nonzero; lia.
    - rewrite <- Z.pow_add_r by lia. f_equal. lia. }
  rewrite E, Z.lor_comm, Z.shiftr_div_pow2, lor_shiftl_add; [lia | lia | | lia].
  split; [apply Z.div_pos; lia |]. apply Z.div_lt_upper_bound; [lia |].
  rewrite <- Z.pow_add_r by lia. replace (n + (32 - n)) with 32 by lia. apply Hx.
Qed.

Lemma ch_ref x y z : is_word z -> (x .& y) ^^ (not32 x .& z) = Ref.Ch x y z.
Proof.
  intros Hz. apply Z.bits_inj'. intros i Hi. unfold Ref.Ch, not32. change 0xffffffff with (Z.ones 32).
  rewrite Z.lxor_spec, Z.lor_spec, !Z.land_spec, Z.ldiff_spec, Z.lxor_spec.
  destruct (Z.ltb_spec i 32).
  - rewrite Z.ones_spec_low by lia. destruct (Z.testbit x i), (Z.testbit y i), (Z.testbit z i); reflexivity.
  - rewrite (testbit_above 32 z) by (exact Hz || lia). rewrite andb_false_r, xorb_false_r. cbn. rewrite orb_false_r. reflexivity.
Qed.

Lemma maj_ref x y z : (x .& y) ^^ (x .& z) ^^ (y .& z) = Ref.Maj x y z.
Proof.
  apply Z.bits_inj'. intros i Hi. unfold Ref.Maj. rewrite !Z.lxor_spec, !Z.lor_spec, !Z.land_spec.
  destruct (Z.testbit x i), (Z.testbit y i), (Z.testbit z i); reflexivity.
Qed.

(** ** The schedule *)

Lemma nth_word w k : Forall is_word w -> is_word (nth k w 0).
Proof.
  intros Hw. destruct (Nat.lt_ge_cases k (length w)).
  - rewrite Forall_forall in Hw. apply Hw, list_elem_of_In, nth_In. assumption.
  - rewrite nth_overflow by assumption. unfold is_word. lia.
Qed.

Lemma rd_back w k : 0 <= k <= len w -> rd w (len w - k) = nth (length w - Z.to_nat k) w 0.
Proof. intros Hk. unfold rd, len in *. f_equal. lia. Qed.

Lemma sched_ref n : forall w, 16 <= len w -> Forall is_word w ->
  for_z n (len w) sched_step w = Ref.expand n w /\ Forall is_word (Ref.expand n w).
Proof.
  induction n as [| n IH]; intros w Hl Hw; [split; [reflexivity | exact Hw] |]. cbn [for_z Ref.expand].
  assert (E : sched_step (len w) w = w ++ [Ref.word (Ref.sigma1 (nth (length w - 2) w 0) + nth (length w - 7) w 0
             + Ref.sigma0 (nth (length w - 15) w 0) + nth (length w - 16) w 0)]).
  { unfold sched_step. do 2 f_equal. rewrite !rd_back by lia.
    rewrite !rotr_ref by (apply nth_word, Hw || lia). rewrite !Z.shiftr_div_pow2, u32_mod by lia.
    unfold Ref.word, Ref.sigma0, Ref.sigma1, Ref.SHR. f_equal.
    change (Z.to_nat 2) with 2%nat. change (Z.to_nat 7) with 7%nat. change (Z.to_nat 15) with 15%nat.
    change (Z.to_nat 16) with 16%nat. lia. }
  rewrite E. set (x := Ref.word _). assert (Hx : is_word x) by (unfold x, Ref.word; apply Z.mod_pos_bound; lia).
  replace (len w + 1) with (len (w ++ [x])) by (rewrite len_app; reflexivity).
  apply IH; [rewrite len_app; change (len [x]) with 1; lia |]. apply Forall_app. auto.
Qed.

Lemma load_number b : Forall is_byte b -> 4 <= len b -> load_be32 b = Ref.number (take 4 b) /\ is_word (load_be32 b).
Proof.
  intros Hb Hl. do 4 (destruct b as [| ? b]; [unfold len in Hl; cbn in Hl; lia |]).
  do 4 (apply Forall_cons in Hb as [? Hb]). unfold is_byte, is_word in *. unfold load_be32, rd, Ref.number. cbn [nth firstn fold_left].
  change (2 ^ 32) with 4294967296.
  assert (E : forall a b c d, 0 <= b < 256 -> 0 <= c < 256 -> 0 <= d < 256 ->
    (a .<< 24) .| (b .<< 16) .| (c .<< 8) .| d = a * 16777216 + b * 65536 + c * 256 + d).
  { intros a' b' c' d' Hb' Hc' Hd'. rewrite <- !Z.lor_assoc.
    rewrite (lor_shiftl_add c' 8) by lia. rewrite (lor_shiftl_add b' 16) by (change (2 ^ 16) with 65536; change (2 ^ 8) with 256; lia).
    rewrite lor_shiftl_add by (change (2 ^ 24) with 16777216; change (2 ^ 16) with 65536; change (2 ^ 8) with 256; lia).
    change (2 ^ 24) with 16777216. change (2 ^ 16) with 65536. change (2 ^ 8) with 256. lia. }
  change (Z.to_nat 0) with 0%nat. change (Z.to_nat 1) with 1%nat. change (Z.to_nat 2) with 2%nat. change (Z.to_nat 3) with 3%nat.
  cbn [nth]. rewrite E by assumption. rewrite take_0. cbn [fold_left]. lia.
Qed.

Lemma schedule_ref block : Forall is_byte block -> len block = 64 ->
  schedule block = Ref.expand 48 (Ref.message_words block) /\ Forall is_word (schedule block).
Proof.
  intros Hb Hl. unfold schedule. cbv zeta.
  assert (Hw : for_z 16 0 (fun i w => w ++ [load_be32 (from (i * 4) block)]) [] = Ref.message_words block
               /\ Forall is_word (Ref.message_words block)).
  { rewrite for_z_concat. unfold Ref.message_words.
    change (seqZ 0 (Z.of_nat 16)) with (map Z.of_nat (seq 0 16)). rewrite map_map, app_nil_l.
    assert (H : forall l, (forall t, In t l -> (t < 16)%nat) ->
      concat (map (fun t => [load_be32 (from (Z.of_nat t * 4) block)]) l) = map (fun t => Ref.number (take 4 (drop (4 * t) block))) l
      /\ Forall is_word (map (fun t => Ref.number (take 4 (drop (4 * t) block))) l)).
    { induction l as [| t l IH]; intros Ht; [split; constructor |]. cbn [map concat app].
      destruct IH as [-> IH]; [intros k Hk; apply Ht; right; exact Hk |].
      specialize (Ht t (or_introl eq_refl)). pose proof (len_from (Z.of_nat t * 4) block ltac:(lia)) as Hlf.
      destruct (load_number (from (Z.of_nat t * 4) block)) as [-> Hx].
      - unfold from. apply Forall_drop, Hb.
      - lia.
      - unfold from in *. replace (Z.to_nat (Z.of_nat t * 4)) with (4 * t)%nat in * by lia. split; [reflexivity |].
        constructor; [| exact IH]. exact Hx. }
    apply H. intros t Ht. apply in_seq in Ht. lia. }
  destruct Hw as [-> Hw].
  change (for_z 48 16 sched_step (Ref.message_words block))
    with (for_z 48 (len (Ref.message_words block)) sched_step (Ref.message_words block)).
  destruct (sched_ref 48 (Ref.message_words block)) as [-> H]; [change (len (Ref.message_words block)) with 16; lia | exact Hw |].
  split; [reflexivity | exact H].
Qed.

(** ** The rounds *)

Definition tuple_of (v : vars) := (va v, vb v, vc v, vd v, ve v, vf v, vg v, vh v).
Definition words_of (v : vars) : Prop :=
  is_word (va v) /\ is_word (vb v) /\ is_word (vc v) /\ is_word (ve v) /\ is_word (vf v) /\ is_word (vg v).

Lemma u32_word x : is_word (u32 x).
Proof. apply u32_range. Qed.

Lemma round_ref w t v : words_of v ->
  tuple_of (sha256_round w t v) = Ref.step w t (tuple_of v) /\ words_of (sha256_round w t v).
Proof.
  intros (Ha & Hb & Hc & He & Hf & Hg). split.
  - unfold tuple_of, sha256_round, Ref.step. cbn [va vb vc vd ve vf vg vh]. rewrite !rotr_ref, ch_ref, maj_ref by (assumption || lia).
    fold (Ref.Sigma0 (va v)) (Ref.Sigma1 (ve v)). rewrite !u32_mod, K_of_primes. unfold Ref.word.
    change (rd sha256_k t) with (nth (Z.to_nat t) sha256_k 0). change (rd w t) with (nth (Z.to_nat t) w 0).
    rewrite <- !Zplus_mod, Zplus_mod_idemp_r. reflexivity.
  - unfold words_of, sha256_round. cbn [va vb vc ve vf vg]. auto 10 using u32_word.
Qed.

Lemma rounds_ref w n : forall i v, words_of v ->
  tuple_of (for_z n i (sha256_round w) v) = fold_left (fun v t => Ref.step w t v) (seqZ i (Z.of_nat n)) (tuple_of v).
Proof.
  induction n as [| n IH]; intros i v Hv; [reflexivity |]. rewrite seqZ_cons by lia. cbn [for_z fold_left].
  destruct (round_ref w i v Hv) as [<- Hv']. replace (Z.pred (Z.of_nat (S n))) with (Z.of_nat n) by lia. apply IH, Hv'.
Qed.

Lemma compress_ref st block : Forall is_word st -> Forall is_byte block -> len block = 64 ->
  compress st block = Ref.compress st block /\ Forall is_word (compress st block).
Proof.
  intros Hs Hb Hl. split; [| unfold compress, sha256_compress; cbn [sha_state]; repeat constructor; apply u32_range].
  destruct (schedule_ref block Hb Hl) as [Esched _]. unfold compress, Ref.compress, sha256_compress. cbv zeta. cbn [sha_state].
  rewrite Esched. set (W := Ref.expand 48 _).
  set (v0 := mkVars _ _ _ _ _ _ _ _).
  pose proof (rounds_ref W 64 0 v0) as Hr. unfold tuple_of at 2 in Hr. cbn [v0 va vb vc vd ve vf vg vh] in Hr.
  change (Z.of_nat 64) with 64 in Hr. unfold rd in Hr.
  change (Z.to_nat 0) with 0%nat in Hr. change (Z.to_nat 1) with 1%nat in Hr. change (Z.to_nat 2) with 2%nat in Hr.
  change (Z.to_nat 3) with 3%nat in Hr. change (Z.to_nat 4) with 4%nat in Hr. change (Z.to_nat 5) with 5%nat in Hr.
  change (Z.to_nat 6) with 6%nat in Hr. change (Z.to_nat 7) with 7%nat in Hr.
  rewrite <- Hr by (refine (conj _ (conj _ (conj _ (conj _ (conj _ _))))); apply nth_word, Hs). unfold tuple_of. rewrite !u32_mod. reflexivity.
Qed.

Lemma blocks_ref n : forall st data, Forall is_word st -> Forall is_byte data -> len data = 64 * Z.of_nat n ->
  compress_blocks n st data = Ref.blocks n st data.
Proof.
  induction n as [| n IH]; intros st data Hs Hb Hl; [reflexivity |]. cbn [compress_blocks Ref.blocks].
  assert (Ht : len (take 64 data) = 64) by (unfold len in *; rewrite length_take; lia).
  destruct (compress_ref st (take 64 data) Hs) as [<- Hs']; [apply Forall_take, Hb | exact Ht |].
  apply IH; [exact Hs' | apply Forall_drop, Hb | unfold len in *; rewrite length_drop; lia].
Qed.

(** ** Padding and output *)

Lemma digits_be32 x : store_be32 x = Ref.digits 4 x.
Proof.
  unfold store_be32. cbn [Ref.digits app]. rewrite !u8_mod, !Z.shiftr_div_pow2, !Z.div_div by lia. reflexivity.
Qed.

Lemma digits_be64 x : store_be64 x = Ref.digits 8 x.
Proof.
  unfold store_be64. cbn [Ref.digits app]. rewrite !u8_mod, !Z.shiftr_div_pow2, !Z.div_div by lia. reflexivity.
Qed.

Lemma pad_ref msg : msg ++ sha256_padding (len msg) = Ref.pad msg.
Proof.
  unfold sha256_padding, Ref.pad. cbv zeta. rewrite digits_be64. do 3 f_equal. f_equal. f_equal.
  pose proof (len_nonneg msg). Z.to_euclidean_division_equations. lia.
Qed.

Lemma padded_length msg : exists n, length (msg ++ sha256_padding (len msg)) = (64 * n)%nat.
Proof.
  pose proof (len_nonneg msg). exists (Z.to_nat ((len msg + 72) / 64)). unfold sha256_padding.
  rewrite !length_app. change (length (store_be64 _)) with 8%nat. unfold fill. rewrite length_replicate. unfold len in *. cbn [length].
  Z.to_euclidean_division_equations. lia.
Qed.

Lemma padding_bytes n : Forall is_byte (sha256_padding n).
Proof.
  unfold sha256_padding. repeat (apply Forall_app; split); [repeat constructor; discriminate | |].
  - apply Forall_replicate. split; [discriminate | reflexivity].
  - unfold store_be64. repeat constructor; apply u8_byte.
Qed.

(** The reference of this file is the standard's hash. *)
Lemma sha256_spec_fips msg : Forall is_byte msg -> sha256_spec msg = Ref.sha256 msg.
Proof.
  intros Hb. unfold sha256_spec, Ref.sha256. cbv zeta. rewrite <- pad_ref, H_of_primes.
  destruct (padded_length msg) as [n Hn].
  rewrite Hn, Nat.mul_comm, Nat.div_mul by discriminate. rewrite blocks_ref.
  - f_equal. apply map_ext. exact digits_be32.
  - repeat constructor; discriminate.
  - apply Forall_app. split; [exact Hb | apply padding_bytes].
  - unfold len at 1. rewrite Hn. lia.
Qed.

(** * Streaming = one-shot *)

Lemma compress_blocks_app n m st data :
  compress_blocks (n + m) st data =
  compress_blocks m (compress_blocks n st data) (drop (64 * n) data).
Proof.
  revert st data. induction n as [| n IH]; intros st data; [reflexivity |].
  simpl compress_blocks. rewrite IH, drop_drop. do 2 f_equal. lia.
Qed.

Lemma compress_blocks_prefix n st data ext :
  (64 * n <= length data)%nat ->
  compress_blocks n st (data ++ ext) = compress_blocks n st data.
Proof.
  revert st data. induction n as [| n IH]; intros st data Hlen; [reflexivity |].
  simpl. rewrite take_app_le, drop_app_le by lia.
  apply IH. rewrite length_drop. lia.
Qed.

(** One more whole block at the end. *)
Lemma compress_blocks_snoc n st data block :
  length data = (64 * n)%nat -> length block = 64%nat ->
  compress_blocks (S n) st (data ++ block) = compress (compress_blocks n st data) block.
Proof.
  intros Hd Hb. replace (S n) with (n + 1)%nat by lia.
  rewrite compress_blocks_app, compress_blocks_prefix by lia.
  rewrite drop_app_len by lia. simpl. rewrite take_ge by lia. reflexivity.
Qed.

(** The bytes hashed so far and where they are in the context: whole blocks in
    the state, the rest at the front of the buffer. *)
Record ctx_inv (ctx : SHA256_CTX) (msg : bytes) : Prop := {
  inv_whole : exists n whole rest tail,
    msg = whole ++ rest /\ buffer ctx = rest ++ tail /\
    length whole = (64 * n)%nat /\
    sha_state ctx = compress_blocks n H0 whole /\
    bit_len ctx = u64 (8 * len whole) /\ buffer_len ctx = len rest /\
    len rest < 64;
  inv_buffer : length (buffer ctx) = 64%nat
}.

Lemma SHA256_Init_inv ctx :
  length (buffer ctx) = 64%nat -> ctx_inv (SHA256_Init ctx) [].
Proof.
  intros Hb. split; [| exact Hb].
  exists 0%nat, [], [], (buffer ctx). repeat split; reflexivity.
Qed.

Lemma sha256_compress_state ctx block :
  sha_state (sha256_compress ctx block) = compress (sha_state ctx) block.
Proof. destruct ctx. reflexivity. Qed.

Lemma update_chunk_inv ctx msg chunk :
  ctx_inv ctx msg -> len chunk <= 64 - buffer_len ctx ->
  ctx_inv (update_chunk ctx chunk) (msg ++ chunk).
Proof.
  destruct ctx as [st bits buf bl].
  intros [(n & whole & rest & tail & -> & Hbuf & Hw & Hst & Hbits & Hbl & Hr) Hlen] Hc.
  cbn [sha_state bit_len buffer buffer_len] in *. subst buf bl.
  rewrite length_app in Hlen.
  assert (Hspl : splice (len rest) chunk (rest ++ tail)
                 = (rest ++ chunk) ++ drop (length chunk) tail).
  { rewrite <- (take_drop (length chunk) tail) at 1.
    rewrite splice_exact; [rewrite app_assoc; reflexivity | reflexivity |].
    rewrite length_take. unfold len in *. lia. }
  unfold update_chunk. cbn -[sha256_compress Z.add Z.eqb Z.mul]. rewrite Hspl.
  destruct (Z.eqb_spec (len rest + len chunk) SHA256_BLOCK_LEN) as [He | He];
    unfold SHA256_BLOCK_LEN in He.
  - assert (drop (length chunk) tail = []) as ->.
    { apply nil_length_inv. rewrite length_drop. unfold len in *. lia. }
    rewrite app_nil_r.
    assert (Hblk : length (rest ++ chunk) = 64%nat)
      by (rewrite length_app; unfold len in *; lia).
    split; [| exact Hblk].
    exists (S n), (whole ++ rest ++ chunk), [], (rest ++ chunk).
    rewrite app_nil_r. repeat split.
    + rewrite <- app_assoc. reflexivity.
    + rewrite !length_app in *. lia.
    + cbn [sha_state]. etransitivity; [apply sha256_compress_state |].
      rewrite compress_blocks_snoc by lia. cbn [sha_state]. rewrite Hst. reflexivity.
    + unfold sha256_compress. cbn. rewrite Hbits, !u64_mod, Zplus_mod_idemp_l.
      f_equal. rewrite !len_app. unfold SHA256_BLOCK_LEN. lia.
  - split.
    + exists n, whole, (rest ++ chunk), (drop (length chunk) tail).
      cbn [sha_state bit_len buffer buffer_len]. rewrite len_app.
      repeat split; try assumption; [apply eq_sym, app_assoc | lia].
    + cbn. rewrite !length_app, length_drop. unfold len in *. lia.
Qed.

Lemma update_loop_inv fuel ctx msg data :
  (length data <= fuel)%nat -> ctx_inv ctx msg ->
  ctx_inv (update_loop fuel ctx data) (msg ++ data).
Proof.
  revert ctx msg data. induction fuel as [| fuel IH]; intros ctx msg data Hf Hinv.
  - assert (data = []) as -> by (apply nil_length_inv; lia).
    rewrite app_nil_r. exact Hinv.
  - simpl. destruct (Z.eqb_spec (len data) 0) as [H0' | Hne].
    { assert (data = []) as -> by (apply nil_length_inv; unfold len in *; lia).
      rewrite app_nil_r. exact Hinv. }
    assert (Hbl : 0 <= buffer_len ctx < 64).
    { destruct (inv_whole _ _ Hinv) as (? & ? & r & ? & _ & _ & _ & _ & _ & -> & ?).
      pose proof (len_nonneg r). lia. }
    set (t := Z.min (SHA256_BLOCK_LEN - buffer_len ctx) (len data)) in *.
    assert (Ht : 0 < t <= len data /\ t <= 64 - buffer_len ctx)
      by (unfold t, SHA256_BLOCK_LEN, len in *; lia).
    replace (msg ++ data) with ((msg ++ take (Z.to_nat t) data) ++ from t data)
      by (unfold from; rewrite <- app_assoc, take_drop; reflexivity).
    apply IH.
    + unfold from. rewrite length_drop. lia.
    + unfold slice at 1. rewrite drop_0. apply update_chunk_inv; [exact Hinv |].
      unfold len. rewrite length_take. lia.
Qed.

Lemma SHA256_Update_inv ctx msg data :
  ctx_inv ctx msg -> ctx_inv (SHA256_Update ctx data) (msg ++ data).
Proof. apply update_loop_inv. reflexivity. Qed.

Lemma zero_loop_spec fuel target ctx a b :
  buffer ctx = a ++ b -> buffer_len ctx = len a -> target - len a <= Z.of_nat fuel ->
  target <= len (a ++ b) ->
  buffer (zero_loop fuel target ctx)
    = a ++ fill 0 (target - len a) ++ drop (Z.to_nat (target - len a)) b /\
  buffer_len (zero_loop fuel target ctx) = Z.max target (len a) /\
  sha_state (zero_loop fuel target ctx) = sha_state ctx.
Proof.
  revert ctx a b. induction fuel as [| fuel IH]; intros [st bits bf bl] a b Hb Hl Hf Ht;
    cbn [buffer buffer_len] in Hb, Hl; subst bf bl.
  - simpl. unfold fill. replace (Z.to_nat (target - len a)) with 0%nat by lia.
    simpl. repeat split; lia.
  - simpl. destruct (Z.ltb_spec (len a) target) as [Hlt | Hge].
    + destruct b as [| x b]; [rewrite len_app, len_nil in Ht; lia |].
      assert (Hs : splice (len a) [0] (a ++ x :: b) = (a ++ [0]) ++ b).
      { rewrite <- app_assoc. exact (splice_exact _ [0] a [x] b eq_refl eq_refl). }
      assert (Ha1 : len (a ++ [0]) = len a + 1) by apply len_app.
      rewrite Hs. rewrite len_app, len_cons in Ht.
      edestruct (IH (mkSHA256_CTX st bits ((a ++ [0]) ++ b) (len a + 1)) (a ++ [0]) b)
        as (I1 & I2 & I3); [reflexivity | symmetry; exact Ha1 | lia | rewrite len_app; lia |].
      rewrite I1, I2, I3, Ha1.
      repeat split; [| lia].
      rewrite <- app_assoc. f_equal. unfold fill.
      replace (Z.to_nat (target - len a)) with (S (Z.to_nat (target - (len a + 1)))) by lia.
      reflexivity.
    + simpl. unfold fill. replace (Z.to_nat (target - len a)) with 0%nat by lia.
      simpl. repeat split; lia.
Qed.

(** The padded message, cut where [SHA256_Final] cuts it. *)
Lemma sha256_spec_blocks msg n whole tailp :
  msg ++ sha256_padding (len msg) = whole ++ tailp ->
  length whole = (64 * n)%nat -> length tailp = 64%nat ->
  sha256_spec msg
  = concat (map store_be32 (compress (compress_blocks n H0 whole) tailp)).
Proof.
  intros Heq Hw Ht. unfold sha256_spec. rewrite Heq. do 2 f_equal.
  replace (length (whole ++ tailp) / 64)%nat with (S n).
  - apply compress_blocks_snoc; assumption.
  - rewrite length_app, Hw, Ht. replace (64 * n + 64)%nat with (S n * 64)%nat by lia.
    symmetry. apply Nat.div_mul. lia.
Qed.

Lemma u8_shiftr_u64 k x : 0 <= k <= 56 -> u8 (u64 x .>> k) = u8 (x .>> k).
Proof.
  intros Hk. rewrite !u8_mod, u64_mod. change 256 with (2 ^ 8).
  apply Z.bits_inj'. intros i Hi. rewrite !Z.testbit_mod_pow2 by lia.
  destruct (Z.ltb_spec i 8) as [Hi8 | Hi8]; [| reflexivity].
  rewrite !Z.shiftr_spec, Z.testbit_mod_pow2 by lia.
  replace (i + k <? 64) with true by (symmetry; apply Z.ltb_lt; lia). reflexivity.
Qed.

(** The 64-bit length field wraps as [store_be64] cuts it off. *)
Lemma store_be64_u64 x : store_be64 (u64 x) = store_be64 x.
Proof.
  unfold store_be64. rewrite !u8_shiftr_u64 by lia.
  pose proof (u8_shiftr_u64 0 x ltac:(lia)) as H. rewrite !Z.shiftr_0_r in H.
  rewrite H. reflexivity.
Qed.

Lemma zero_loop_done ctx fuel target a b :
  buffer ctx = a ++ b -> buffer_len ctx = len a -> len a <= target ->
  target - len a <= Z.of_nat fuel -> len (a ++ b) = 64 -> target <= 64 ->
  exists tail, buffer (zero_loop fuel target ctx) = a ++ fill 0 (target - len a) ++ tail /\
    len tail = 64 - target /\
    buffer_len (zero_loop fuel target ctx) = target /\
    sha_state (zero_loop fuel target ctx) = sha_state ctx.
Proof.
  intros Hb Hl Hle Hf H64 Ht.
  destruct (zero_loop_spec fuel target ctx a b Hb Hl Hf ltac:(lia)) as (I1 & I2 & I3).
  eexists. split; [exact I1 |]. rewrite I2, I3. repeat split; [| lia].
  unfold len in *. rewrite length_drop. rewrite length_app in H64. lia.
Qed.

(** The common end of [SHA256_Final]: zeros to byte 56, the length, one block. *)
Definition finish_block (L : bytes) (ctx : SHA256_CTX) : list Z :=
  let ctx1 := zero_loop 64 56 ctx in
  let ctx2 := ctx1 {{ buffer := splice 56 L (buffer ctx1) }} in
  sha_state (sha256_compress ctx2 (buffer ctx2)).

Lemma final_block ctx L a b :
  buffer ctx = a ++ b -> buffer_len ctx = len a -> len a <= 56 ->
  len (a ++ b) = 64 -> len L = 8 ->
  finish_block L ctx = compress (sha_state ctx) (a ++ fill 0 (56 - len a) ++ L).
Proof.
  intros Hb Hl Hle H64 HL. unfold finish_block.
  set (ctx1 := zero_loop 64 56 ctx). cbv zeta. set (ctx2 := ctx1 {{ buffer := _ }}).
  pose proof (len_nonneg a) as Ha.
  destruct (zero_loop_done ctx 64 56 a b Hb Hl Hle ltac:(lia) H64 ltac:(lia))
    as (tl & I1 & I2 & _ & I4).
  fold ctx1 in I1, I4. rewrite sha256_compress_state, <- I4.
  subst ctx2. clearbody ctx1. destruct ctx1 as [st bits bf bl].
  cbn [buffer] in I1. subst bf. cbn -[splice compress fill Z.sub].
  f_equal.
  rewrite app_assoc, <- (app_nil_r tl), splice_exact, app_nil_r, app_assoc;
    [reflexivity | | unfold len in *; lia].
  rewrite len_app, len_fill; lia.
Qed.

#[local] Opaque sha256_compress zero_loop compress_blocks compress store_be64.

(** The reference on whole blocks and a rest: the padding fits into the last block, or takes another. *)
Section Ends.
Context (n : nat) (whole rest : bytes) (Hw : length whole = (64 * n)%nat) (Hr : len rest <= 63).

Let L : bytes := store_be64 (8 * len (whole ++ rest)).

Lemma padding_of_rest : sha256_padding (len (whole ++ rest)) = [0x80] ++ fill 0 ((55 - len rest) mod 64) ++ L.
Proof.
  unfold sha256_padding. fold L. do 3 f_equal. rewrite len_app. replace (len whole) with (64 * Z.of_nat n) by (unfold len; lia).
  replace (55 - (64 * Z.of_nat n + len rest)) with (55 - len rest + (- Z.of_nat n) * 64) by lia. apply Z.mod_add. lia.
Qed.

Lemma spec_one_block : len rest <= 55 ->
  sha256_spec (whole ++ rest)
  = concat (map store_be32 (compress (compress_blocks n H0 whole) ((rest ++ [0x80]) ++ fill 0 (55 - len rest) ++ L))).
Proof.
  intros H. pose proof (len_nonneg rest) as Hr0. apply sha256_spec_blocks; [| exact Hw |].
  - rewrite padding_of_rest, Z.mod_small by lia. rewrite <- !app_assoc. reflexivity.
  - rewrite !length_app. change (length L) with 8%nat. unfold fill. rewrite length_replicate. len_solve.
Qed.

Lemma spec_two_blocks : 55 < len rest ->
  sha256_spec (whole ++ rest)
  = concat (map store_be32 (compress (compress (compress_blocks n H0 whole) (rest ++ [0x80] ++ fill 0 (63 - len rest))) (fill 0 56 ++ L))).
Proof.
  intros H. set (first := rest ++ [0x80] ++ fill 0 (63 - len rest)).
  assert (Hfl : length first = 64%nat)
    by (unfold first, fill; rewrite !length_app, length_replicate; len_solve).
  rewrite (sha256_spec_blocks _ (S n) (whole ++ first) (fill 0 56 ++ L)).
  - rewrite compress_blocks_snoc by assumption. reflexivity.
  - rewrite padding_of_rest. unfold first.
    replace ((55 - len rest) mod 64) with ((63 - len rest) + 56)
      by (replace (55 - len rest) with ((63 - len rest + 56) + (-1) * 64) by lia;
          rewrite Z.mod_add, Z.mod_small by lia; lia).
    unfold fill at 1. rewrite Z2Nat.inj_add, replicate_add by lia.
    rewrite <- !app_assoc. reflexivity.
  - rewrite length_app. lia.
  - reflexivity.
Qed.
End Ends.

(** The digest of a context is the padded hash of the bytes it has absorbed. *)
Lemma SHA256_Final_inv ctx msg : ctx_inv ctx msg -> SHA256_Final ctx = sha256_spec msg.
Proof.
  destruct ctx as [st bits buf bl].
  intros [(n & whole & rest & tail & Hmsg & Hbuf & Hw & Hst & Hbits & Hbl & Hr) Hlen].
  cbn [sha_state bit_len buffer buffer_len] in *. subst.
  assert (Hbl : store_be64 (u64 (u64 (8 * len whole) + len rest * 8)) = store_be64 (8 * len (whole ++ rest))).
  { rewrite !u64_mod, Zplus_mod_idemp_l, <- u64_mod, store_be64_u64, len_app. f_equal. lia. }
  pose proof (len_nonneg rest) as Hr0.
  destruct tail as [| x tail]; [rewrite app_nil_r in Hlen; unfold len in Hr; lia |].
  assert (Hs : splice (len rest) [0x80] (rest ++ x :: tail) = (rest ++ [0x80]) ++ tail)
    by (rewrite <- app_assoc; exact (splice_exact _ [0x80] rest [x] tail eq_refl eq_refl)).
  assert (H64 : len ((rest ++ [0x80]) ++ tail) = 64) by (clear Hs; len_solve).
  assert (Hl1 : len (rest ++ [0x80]) = len rest + 1) by apply len_app.
  set (c1 := mkSHA256_CTX (compress_blocks n H0 whole) (u64 (8 * len whole)) ((rest ++ [0x80]) ++ tail) (len rest + 1)).
  set (c2 := zero_loop 64 64 c1).
  transitivity (concat (map store_be32 (finish_block (store_be64 (8 * len (whole ++ rest)))
    (if 56 <? len rest + 1 then (sha256_compress c2 (buffer c2)) {{ buffer_len := 0 }} else c1)))).
  { unfold c2, c1. rewrite <- Hs, <- Hbl. reflexivity. }
  destruct (Z.ltb_spec 56 (len rest + 1)) as [Hbig | Hsmall].
  - destruct (zero_loop_done c1 64 64 (rest ++ [0x80]) tail eq_refl (eq_sym Hl1)) as (tl & I1 & I2 & _ & I4); try lia.
    fold c2 in I1, I4. assert (tl = []) as -> by (apply nil_length_inv; unfold len in I2; lia).
    assert (Hf : buffer c2 = rest ++ [0x80] ++ fill 0 (63 - len rest)).
    { rewrite I1, app_nil_r, Hl1, <- app_assoc. do 3 f_equal. lia. }
    rewrite (spec_two_blocks n) by (assumption || lia).
    rewrite (final_block _ _ [] (buffer c2)) by (reflexivity || discriminate || (rewrite app_nil_l, Hf, !len_app, len_fill by lia; change (len [0x80]) with 1; lia)).
    do 2 f_equal. change (sha_state ((sha256_compress c2 (buffer c2)) {{ buffer_len := 0 }})) with (sha_state (sha256_compress c2 (buffer c2))).
    rewrite sha256_compress_state, I4, Hf. reflexivity.
  - rewrite (spec_one_block n), (final_block c1 _ _ tail eq_refl (eq_sym Hl1)) by (assumption || reflexivity || lia).
    rewrite Hl1. replace (56 - (len rest + 1)) with (55 - len rest) by lia. reflexivity.
Qed.

(** [SHA256_Init], then one [SHA256_Update] per piece. *)
Definition absorb_all (ctx : SHA256_CTX) (pieces : list bytes) : SHA256_CTX :=
  fold_left SHA256_Update pieces (SHA256_Init ctx).

Lemma absorb_all_inv ctx pieces :
  length (buffer ctx) = 64%nat -> ctx_inv (absorb_all ctx pieces) (concat pieces).
Proof.
  intros Hb. unfold absorb_all.
  rewrite <- (app_nil_l (concat pieces)). generalize (SHA256_Init_inv ctx Hb).
  generalize (SHA256_Init ctx) ([] : bytes).
  induction pieces as [| p ps IH]; intros c m Hc; simpl.
  - rewrite app_nil_r. exact Hc.
  - rewrite app_assoc. apply IH, SHA256_Update_inv, Hc.
Qed.

(** C37: however a message is cut into [SHA256_Update] calls, and whatever the
    context held before [SHA256_Init], [SHA256_Final] returns the digest of the
    padded message; in particular no block boundary, no
    partial buffer and no spilled length block is mishandled.  For a message of bytes that digest is
    the SHA-256 of FIPS 180-4, whose constants (roots of primes), schedule, rounds and padding
    [Fips180] gives without the code. *)
Theorem sha256_digest_spec (ctx : SHA256_CTX) (pieces : list bytes) :
  length (buffer ctx) = 64%nat ->
  SHA256_Final (absorb_all ctx pieces) = sha256_spec (concat pieces) /\
  (Forall is_byte (concat pieces) ->
   SHA256_Final (absorb_all ctx pieces) = Fips180.Ref.sha256 (concat pieces)).
Proof.
  intros Hb. pose proof (SHA256_Final_inv _ _ (absorb_all_inv ctx pieces Hb)) as ->.
  split; [reflexivity | apply sha256_spec_fips].
Qed.

Lemma sha256_digest_spec_witness :
  SHA256_Final (absorb_all (mkSHA256_CTX [] 9 (fill 7 64) 3)
                           [fill 1 60; []; [2; 3]; fill 4 130])
  = Fips180.Ref.sha256 (fill 1 60 ++ [2; 3] ++ fill 4 130).
Proof.
  apply (sha256_digest_spec (mkSHA256_CTX [] 9 (fill 7 64) 3)
           [fill 1 60; []; [2; 3]; fill 4 130]); [reflexivity |].
  apply Forall_byte_app; [| apply Forall_byte_app; [| apply Forall_byte_app; [| apply Forall_byte_app; [| constructor]]]];
    first [apply Forall_replicate | repeat constructor]; try split; try discriminate; reflexivity.
Defined.

(** * What the clients of the hash use *)

#[local] Transparent sha256_compress compress_blocks compress store_be64.

Lemma sha256_eq_spec msg : sha256 msg = sha256_spec msg.
Proof.
  unfold sha256. apply SHA256_Final_inv.
  exact (SHA256_Update_inv _ [] msg (SHA256_Init_inv zero_ctx eq_refl)).
Qed.

Lemma compress_length st block : length (compress st block) = 8%nat.
Proof. reflexivity. Qed.

Lemma compress_blocks_length n st data :
  length st = 8%nat -> length (compress_blocks n st data) = 8%nat.
Proof. revert st data. induction n as [| n IH]; intros st data H; [exact H | apply IH; reflexivity]. Qed.

Lemma concat_store_be32_bytes ws : Forall is_byte (concat (map store_be32 ws)).
Proof.
  induction ws as [| w ws IH]; [constructor |].
  apply Forall_byte_app; [unfold store_be32; repeat constructor; apply u8_byte | exact IH].
Qed.

Lemma concat_store_be32_len ws : length (concat (map store_be32 ws)) = (4 * length ws)%nat.
Proof. induction ws as [| w ws IH]; [reflexivity |]. simpl in *. lia. Qed.

Lemma sha256_length msg : len (sha256 msg) = 32.
Proof.
  rewrite sha256_eq_spec. unfold len, sha256_spec.
  rewrite concat_store_be32_len, compress_blocks_length by reflexivity. reflexivity.
Qed.

Lemma sha256_bytes msg : Forall is_byte (sha256 msg).
Proof. rewrite sha256_eq_spec. apply concat_store_be32_bytes. Qed.

#[export] Hint Resolve sha256_length sha256_bytes : c_db.
