(* ===== verification/Fips202.v ===== *)
(** Keccak-f[1600] and the SHAKE256 sponge (hashs/fips202.c), with its
    refinement to FIPS 202: the unrolled double round is two rounds of the five step
    mappings, the constants are those of the LFSR, and the block-wise absorb and
    squeeze are the sponge on the padded message. *)

From S2P Require Import Prelude.

Definition NROUNDS : Z := 24.
Definition SHAKE128_RATE : Z := 168.
Definition SHAKE256_RATE : Z := 136.
Definition SHA3_256_RATE : Z := 136.
Definition SHA3_512_RATE : Z := 72.

Definition ROL (a offset : Z) : Z := u64 (a .<< offset) ^^ (a .>> (64 - offset)).

Definition load64 (x : bytes) : Z :=
  for_z 8 0 (fun i r => r .| u64 (rd x i .<< (8 * i))) 0.

Definition store64 (u : Z) : bytes :=
  for_z 8 0 (fun i x => x ++ [u8 (u .>> (8 * i))]) [].

Definition KeccakF_RoundConstants : list Z :=
  [0x0000000000000001; 0x0000000000008082; 0x800000000000808a;
   0x8000000080008000; 0x000000000000808b; 0x0000000080000001;
   0x8000000080008081; 0x8000000000008009; 0x000000000000008a;
   0x0000000000000088; 0x0000000080008009; 0x000000008000000a;
   0x000000008000808b; 0x800000000000008b; 0x8000000000008089;
   0x8000000000008003; 0x8000000000008002; 0x8000000000000080;
   0x000000000000800a; 0x800000008000000a; 0x8000000080008081;
   0x8000000000008080; 0x0000000080000001; 0x8000000080008008].

(** The first half of the loop body: round [round], from the lanes [A] to [E]. *)
Definition thetaRhoPiChiIota_A_E (round : Z) (s : list Z) : list Z :=
  match s with
  | [Aba; Abe; Abi; Abo; Abu;
   Aga; Age; Agi; Ago; Agu;
   Aka; Ake; Aki; Ako; Aku;
   Ama; Ame; Ami; Amo; Amu;
   Asa; Ase; Asi; Aso; Asu] =>
      let BCa := Aba ^^ Aga ^^ Aka ^^ Ama ^^ Asa in
      let BCe := Abe ^^ Age ^^ Ake ^^ Ame ^^ Ase in
      let BCi := Abi ^^ Agi ^^ Aki ^^ Ami ^^ Asi in
      let BCo := Abo ^^ Ago ^^ Ako ^^ Amo ^^ Aso in
      let BCu := Abu ^^ Agu ^^ Aku ^^ Amu ^^ Asu in let Da := BCu ^^ ROL BCe 1 in
      let De := BCa ^^ ROL BCi 1 in let Di := BCe ^^ ROL BCo 1 in
      let Do := BCi ^^ ROL BCu 1 in let Du := BCo ^^ ROL BCa 1 in let Aba := Aba ^^ Da in
      let BCa := Aba in let Age := Age ^^ De in let BCe := ROL Age 44 in
      let Aki := Aki ^^ Di in let BCi := ROL Aki 43 in let Amo := Amo ^^ Do in
      let BCo := ROL Amo 21 in let Asu := Asu ^^ Du in let BCu := ROL Asu 14 in
      let Eba := BCa ^^ (not64 BCe .& BCi) in
      let Eba := Eba ^^ rd KeccakF_RoundConstants round in
      let Ebe := BCe ^^ (not64 BCi .& BCo) in let Ebi := BCi ^^ (not64 BCo .& BCu) in
      let Ebo := BCo ^^ (not64 BCu .& BCa) in let Ebu := BCu ^^ (not64 BCa .& BCe) in
      let Abo := Abo ^^ Do in let BCa := ROL Abo 28 in let Agu := Agu ^^ Du in
      let BCe := ROL Agu 20 in let Aka := Aka ^^ Da in let BCi := ROL Aka 3 in
      let Ame := Ame ^^ De in let BCo := ROL Ame 45 in let Asi := Asi ^^ Di in
      let BCu := ROL Asi 61 in let Ega := BCa ^^ (not64 BCe .& BCi) in
      let Ege := BCe ^^ (not64 BCi .& BCo) in let Egi := BCi ^^ (not64 BCo .& BCu) in
      let Ego := BCo ^^ (not64 BCu .& BCa) in let Egu := BCu ^^ (not64 BCa .& BCe) in
      let Abe := Abe ^^ De in let BCa := ROL Abe 1 in let Agi := Agi ^^ Di in
      let BCe := ROL Agi 6 in let Ako := Ako ^^ Do in let BCi := ROL Ako 25 in
      let Amu := Amu ^^ Du in let BCo := ROL Amu 8 in let Asa := Asa ^^ Da in
      let BCu := ROL Asa 18 in let Eka := BCa ^^ (not64 BCe .& BCi) in
      let Eke := BCe ^^ (not64 BCi .& BCo) in let Eki := BCi ^^ (not64 BCo .& BCu) in
      let Eko := BCo ^^ (not64 BCu .& BCa) in let Eku := BCu ^^ (not64 BCa .& BCe) in
      let Abu := Abu ^^ Du in let BCa := ROL Abu 27 in let Aga := Aga ^^ Da in
      let BCe := ROL Aga 36 in let Ake := Ake ^^ De in let BCi := ROL Ake 10 in
      let Ami := Ami ^^ Di in let BCo := ROL Ami 15 in let Aso := Aso ^^ Do in
      let BCu := ROL Aso 56 in let Ema := BCa ^^ (not64 BCe .& BCi) in
      let Eme := BCe ^^ (not64 BCi .& BCo) in let Emi := BCi ^^ (not64 BCo .& BCu) in
      let Emo := BCo ^^ (not64 BCu .& BCa) in let Emu := BCu ^^ (not64 BCa .& BCe) in
      let Abi := Abi ^^ Di in let BCa := ROL Abi 62 in let Ago := Ago ^^ Do in
      let BCe := ROL Ago 55 in let Aku := Aku ^^ Du in let BCi := ROL Aku 39 in
      let Ama := Ama ^^ Da in let BCo := ROL Ama 41 in let Ase := Ase ^^ De in
      let BCu := ROL Ase 2 in let Esa := BCa ^^ (not64 BCe .& BCi) in
      let Ese := BCe ^^ (not64 BCi .& BCo) in let Esi := BCi ^^ (not64 BCo .& BCu) in
      let Eso := BCo ^^ (not64 BCu .& BCa) in let Esu := BCu ^^ (not64 BCa .& BCe) in
      [Eba; Ebe; Ebi; Ebo; Ebu;
   Ega; Ege; Egi; Ego; Egu;
   Eka; Eke; Eki; Eko; Eku;
   Ema; Eme; Emi; Emo; Emu;
   Esa; Ese; Esi; Eso; Esu]
  | _ => s
  end.

(** The second half: round [round + 1], from [E] back to [A]. *)
Definition thetaRhoPiChiIota_E_A (round : Z) (s : list Z) : list Z :=
  match s with
  | [Eba; Ebe; Ebi; Ebo; Ebu;
   Ega; Ege; Egi; Ego; Egu;
   Eka; Eke; Eki; Eko; Eku;
   Ema; Eme; Emi; Emo; Emu;
   Esa; Ese; Esi; Eso; Esu] =>
      let BCa := Eba ^^ Ega ^^ Eka ^^ Ema ^^ Esa in
      let BCe := Ebe ^^ Ege ^^ Eke ^^ Eme ^^ Ese in
      let BCi := Ebi ^^ Egi ^^ Eki ^^ Emi ^^ Esi in
      let BCo := Ebo ^^ Ego ^^ Eko ^^ Emo ^^ Eso in
      let BCu := Ebu ^^ Egu ^^ Eku ^^ Emu ^^ Esu in let Da := BCu ^^ ROL BCe 1 in
      let De := BCa ^^ ROL BCi 1 in let Di := BCe ^^ ROL BCo 1 in
      let Do := BCi ^^ ROL BCu 1 in let Du := BCo ^^ ROL BCa 1 in let Eba := Eba ^^ Da in
      let BCa := Eba in let Ege := Ege ^^ De in let BCe := ROL Ege 44 in
      let Eki := Eki ^^ Di in let BCi := ROL Eki 43 in let Emo := Emo ^^ Do in
      let BCo := ROL Emo 21 in let Esu := Esu ^^ Du in let BCu := ROL Esu 14 in
      let Aba := BCa ^^ (not64 BCe .& BCi) in
      let Aba := Aba ^^ rd KeccakF_RoundConstants (round + 1) in
      let Abe := BCe ^^ (not64 BCi .& BCo) in let Abi := BCi ^^ (not64 BCo .& BCu) in
      let Abo := BCo ^^ (not64 BCu .& BCa) in let Abu := BCu ^^ (not64 BCa .& BCe) in
      let Ebo := Ebo ^^ Do in let BCa := ROL Ebo 28 in let Egu := Egu ^^ Du in
      let BCe := ROL Egu 20 in let Eka := Eka ^^ Da in let BCi := ROL Eka 3 in
      let Eme := Eme ^^ De in let BCo := ROL Eme 45 in let Esi := Esi ^^ Di in
      let BCu := ROL Esi 61 in let Aga := BCa ^^ (not64 BCe .& BCi) in
      let Age := BCe ^^ (not64 BCi .& BCo) in let Agi := BCi ^^ (not64 BCo .& BCu) in
      let Ago := BCo ^^ (not64 BCu .& BCa) in let Agu := BCu ^^ (not64 BCa .& BCe) in
      let Ebe := Ebe ^^ De in let BCa := ROL Ebe 1 in let Egi := Egi ^^ Di in
      let BCe := ROL Egi 6 in let Eko := Eko ^^ Do in let BCi := ROL Eko 25 in
      let Emu := Emu ^^ Du in let BCo := ROL Emu 8 in let Esa := Esa ^^ Da in
      let BCu := ROL Esa 18 in let Aka := BCa ^^ (not64 BCe .& BCi) in
      let Ake := BCe ^^ (not64 BCi .& BCo) in let Aki := BCi ^^ (not64 BCo .& BCu) in
      let Ako := BCo ^^ (not64 BCu .& BCa) in let Aku := BCu ^^ (not64 BCa .& BCe) in
      let Ebu := Ebu ^^ Du in let BCa := ROL Ebu 27 in let Ega := Ega ^^ Da in
      let BCe := ROL Ega 36 in let Eke := Eke ^^ De in let BCi := ROL Eke 10 in
      let Emi := Emi ^^ Di in let BCo := ROL Emi 15 in let Eso := Eso ^^ Do in
      let BCu := ROL Eso 56 in let Ama := BCa ^^ (not64 BCe .& BCi) in
      let Ame := BCe ^^ (not64 BCi .& BCo) in let Ami := BCi ^^ (not64 BCo .& BCu) in
      let Amo := BCo ^^ (not64 BCu .& BCa) in let Amu := BCu ^^ (not64 BCa .& BCe) in
      let Ebi := Ebi ^^ Di in let BCa := ROL Ebi 62 in let Ego := Ego ^^ Do in
      let BCe := ROL Ego 55 in let Eku := Eku ^^ Du in let BCi := ROL Eku 39 in
      let Ema := Ema ^^ Da in let BCo := ROL Ema 41 in let Ese := Ese ^^ De in
      let BCu := ROL Ese 2 in let Asa := BCa ^^ (not64 BCe .& BCi) in
      let Ase := BCe ^^ (not64 BCi .& BCo) in let Asi := BCi ^^ (not64 BCo .& BCu) in
      let Aso := BCo ^^ (not64 BCu .& BCa) in let Asu := BCu ^^ (not64 BCa .& BCe) in
      [Aba; Abe; Abi; Abo; Abu;
   Aga; Age; Agi; Ago; Agu;
   Aka; Ake; Aki; Ako; Aku;
   Ama; Ame; Ami; Amo; Amu;
   Asa; Ase; Asi; Aso; Asu]
  | _ => s
  end.

(** [for (round = 0; round < NROUNDS; round += 2)] *)
Definition KeccakF1600_StatePermute (state : list Z) : list Z :=
  for_z 12 0 (fun k s => thetaRhoPiChiIota_E_A (2 * k) (thetaRhoPiChiIota_A_E (2 * k) s)) state.

(** [for (i = 0; i < r / 8; i++) s[i] ^= load64(m + 8 * i);] *)
Definition xor_lanes (r : Z) (m : bytes) (s : list Z) : list Z :=
  for_z (Z.to_nat (r / 8)) 0 (fun i s => upd i (rd s i ^^ load64 (from (8 * i) m)) s) s.

(** [while (mlen >= r)]: the state and the bytes left. *)
Fixpoint absorb_loop (fuel : nat) (r : Z) (s : list Z) (m : bytes) : list Z * bytes :=
  match fuel with
  | O => (s, m)
  | S fuel' =>
      if r <=? len m then
        absorb_loop fuel' r (KeccakF1600_StatePermute (xor_lanes r m s)) (from r m)
      else (s, m)
  end.

Definition keccak_absorb (r : Z) (m : bytes) (p : Z) : list Z :=
  let t := fill 0 200 in
  let s := fill 0 25 in
  let '(s, m) := absorb_loop (length m) r s m in
  let t := splice 0 m t in
  let t := upd (len m) p t in
  let t := upd (r - 1) (rd t (r - 1) .| 128) t in
  xor_lanes r t s.

(** Returns what is written at [out] and the new state. *)
Fixpoint keccak_squeezeblocks (nblocks : nat) (s : list Z) (r : Z) : bytes * list Z :=
  match nblocks with
  | O => ([], s)
  | S nblocks' =>
      let s := KeccakF1600_StatePermute s in
      let block := for_z (Z.to_nat (r / 8)) 0 (fun i out => out ++ store64 (rd s i)) [] in
      let '(out, s') := keccak_squeezeblocks nblocks' s r in
      (block ++ out, s')
  end.

Definition shake128_absorb (in_ : bytes) : list Z := keccak_absorb SHAKE128_RATE in_ 0x1F.
Definition shake128_squeezeblocks (nblocks : nat) (s : list Z) : bytes * list Z :=
  keccak_squeezeblocks nblocks s SHAKE128_RATE.
Definition shake256_absorb (in_ : bytes) : list Z := keccak_absorb SHAKE256_RATE in_ 0x1F.
Definition shake256_squeezeblocks (nblocks : nat) (s : list Z) : bytes * list Z :=
  keccak_squeezeblocks nblocks s SHAKE256_RATE.

Definition shake128 (outlen : Z) (in_ : bytes) : bytes :=
  let nblocks := outlen / SHAKE128_RATE in
  let state := shake128_absorb in_ in
  let '(out, state) := shake128_squeezeblocks (Z.to_nat nblocks) state in
  let outlen := outlen - nblocks * SHAKE128_RATE in
  if outlen =? 0 then out
  else let '(t, _) := shake128_squeezeblocks 1 state in out ++ slice 0 outlen t.

Definition shake256 (outlen : Z) (in_ : bytes) : bytes :=
  let nblocks := outlen / SHAKE256_RATE in
  let state := shake256_absorb in_ in
  let '(out, state) := shake256_squeezeblocks (Z.to_nat nblocks) state in
  let outlen := outlen - nblocks * SHAKE256_RATE in
  if outlen =? 0 then out
  else let '(t, _) := shake256_squeezeblocks 1 state in out ++ slice 0 outlen t.

Definition sha3_256 (in_ : bytes) : bytes :=
  let s := keccak_absorb SHA3_256_RATE in_ 0x06 in
  let '(t, _) := keccak_squeezeblocks 1 s SHA3_256_RATE in
  slice 0 32 t.

Definition sha3_512 (in_ : bytes) : bytes :=
  let s := keccak_absorb SHA3_512_RATE in_ 0x06 in
  let '(t, _) := keccak_squeezeblocks 1 s SHA3_512_RATE in
  slice 0 64 t.

Example shake256_empty : shake256 32 [] =
  [0x46; 0xb9; 0xdd; 0x2b; 0x0b; 0xa8; 0x8d; 0x13; 0x23; 0x3b; 0x3f; 0xeb; 0x74; 0x3e; 0xeb; 0x24;
   0x3f; 0xcd; 0x52; 0xea; 0x62; 0xb8; 0x1b; 0x82; 0xb5; 0x0c; 0x27; 0x64; 0x6e; 0xd5; 0x76; 0x2f].
Proof. vm_compute. reflexivity. Qed.

(** * FIPS 202 reference *)

Module Ref.
(** Lane (x, y) of a state array; coordinates are modulo 5. *)
Definition lane (s : list Z) (x y : Z) : Z := rd s ((x mod 5) + 5 * (y mod 5)).

(** The state whose lane (x, y) is [f x y]. *)
Definition tabulate (f : Z -> Z -> Z) : list Z :=
  concat (map (fun y => map (fun x => f x y) [0; 1; 2; 3; 4]) [0; 1; 2; 3; 4]).

Definition column (s : list Z) (x : Z) : Z :=
  lane s x 0 ^^ lane s x 1 ^^ lane s x 2 ^^ lane s x 3 ^^ lane s x 4.

Definition rotl (a n : Z) : Z := if n =? 0 then a else ROL a n.

Definition theta (s : list Z) : list Z :=
  tabulate (fun x y => lane s x y ^^ (column s (x - 1) ^^ rotl (column s (x + 1)) 1)).

(** The rotation offsets of Section 3.2.2: walking (x, y) -> (y, 2x + 3y) from (1, 0), step
    [t] rotates by (t + 1)(t + 2) / 2. *)
Fixpoint offset_walk (n : nat) (t x y : Z) (x' y' : Z) : Z :=
  match n with
  | O => 0
  | S n' =>
      if (x =? x') && (y =? y') then ((t + 1) * (t + 2) / 2) mod 64
      else offset_walk n' (t + 1) y ((2 * x + 3 * y) mod 5) x' y'
  end.
Definition offset (x y : Z) : Z :=
  if (x =? 0) && (y =? 0) then 0 else offset_walk 24 0 1 0 x y.

Definition rho (s : list Z) : list Z :=
  tabulate (fun x y => rotl (lane s x y) (offset x y)).
Definition pi (s : list Z) : list Z :=
  tabulate (fun x y => lane s (x + 3 * y) x).
Definition chi (s : list Z) : list Z :=
  tabulate (fun x y => lane s x y ^^ (not64 (lane s (x + 1) y) .& lane s (x + 2) y)).

(** The LFSR of Algorithm 5 and the constants it generates. *)
Definition lfsr_step (r : Z) : Z :=
  let r := r .<< 1 in if Z.testbit r 8 then r ^^ 0x171 else r.
Definition rc (t : Z) : bool :=
  Z.testbit (for_z (Z.to_nat (t mod 255)) 0 (fun _ r => lfsr_step r) 1) 0.
Definition RC (ir : Z) : Z :=
  for_z 7 0 (fun j acc => if rc (j + 7 * ir) then acc .| (1 .<< (2 ^ j - 1)) else acc) 0.
Definition iota (ir : Z) (s : list Z) : list Z :=
  tabulate (fun x y => if (x =? 0) && (y =? 0) then lane s x y ^^ RC ir else lane s x y).

Definition round (s : list Z) (ir : Z) : list Z := iota ir (chi (pi (rho (theta s)))).
Definition keccak_f (s : list Z) : list Z :=
  for_z 24 0 (fun ir s => round s ir) s.

(** pad10*1 after the domain byte [p], as bytes. *)
Definition pad (r p mlen : Z) : bytes :=
  let q := r - mlen mod r in
  if q =? 1 then [p .| 0x80] else [p] ++ fill 0 (q - 2) ++ [0x80].

Definition xor_block (r : Z) (block : bytes) (s : list Z) : list Z :=
  imap (fun i a => if Z.of_nat i <? r / 8 then a ^^ load64 (slice (8 * Z.of_nat i) 8 block) else a) s.

Fixpoint absorb (n : nat) (r : Z) (padded : bytes) (s : list Z) : list Z :=
  match n with
  | O => s
  | S n' => absorb n' r (from r padded) (keccak_f (xor_block r (slice 0 r padded) s))
  end.

Fixpoint squeeze (n : nat) (r : Z) (s : list Z) : bytes :=
  match n with
  | O => []
  | S n' => concat (map store64 (take (Z.to_nat (r / 8)) s)) ++ squeeze n' r (keccak_f s)
  end.

Definition sponge (r p : Z) (m : bytes) (outlen : Z) : bytes :=
  let padded := m ++ pad r p (len m) in
  let s := absorb (Z.to_nat (len padded / r)) r padded (fill 0 25) in
  slice 0 outlen (squeeze (Z.to_nat (outlen / r) + 1) r s).
End Ref.

Lemma round_constants_lfsr : map Ref.RC (seqZ 0 24) = KeccakF_RoundConstants.
Proof. vm_compute. reflexivity. Qed.

Lemma RC_table k : 0 <= k < 24 -> Ref.RC k = rd KeccakF_RoundConstants k.
Proof.
  intros Hk.
  assert (H : forallb (fun k => Ref.RC k =? rd KeccakF_RoundConstants k) (seqZ 0 24) = true)
    by (vm_compute; reflexivity).
  rewrite forallb_forall in H. apply Z.eqb_eq, H.
  apply list_elem_of_In, elem_of_seqZ. lia.
Qed.

(** * The unrolled permutation *)

(** A list of 25 lanes, taken apart. *)
Ltac lanes s Hs := do 25 (destruct s as [| ? s]; [discriminate Hs |]); destruct s; [| discriminate Hs].

Lemma half_A_E k s : 0 <= k < 24 -> length s = 25%nat ->
  thetaRhoPiChiIota_A_E k s = Ref.round s k.
Proof.
  intros Hk Hs. pose proof (RC_table k Hk) as Hrc.
  unfold thetaRhoPiChiIota_A_E. rewrite <- Hrc. unfold Ref.round, Ref.iota.
  generalize (Ref.RC k). intros c. clear Hrc. lanes s Hs.
  cbv -[Z.lxor Z.land ROL not64]. reflexivity.
Qed.

Lemma half_E_A k s : 0 <= k + 1 < 24 -> length s = 25%nat ->
  thetaRhoPiChiIota_E_A k s = Ref.round s (k + 1).
Proof.
  intros Hk Hs. pose proof (RC_table (k + 1) Hk) as Hrc.
  unfold thetaRhoPiChiIota_E_A. rewrite <- Hrc. unfold Ref.round, Ref.iota.
  generalize (Ref.RC (k + 1)). intros c. clear Hrc. lanes s Hs.
  cbv -[Z.lxor Z.land ROL not64]. reflexivity.
Qed.

Lemma round_length s k : length (Ref.round s k) = 25%nat.
Proof. reflexivity. Qed.

Lemma permute_prefix n k s :
  0 <= k -> k + Z.of_nat n <= 12 -> length s = 25%nat ->
  for_z n k (fun k s => thetaRhoPiChiIota_E_A (2 * k) (thetaRhoPiChiIota_A_E (2 * k) s)) s
  = for_z (2 * n) (2 * k) (fun ir s => Ref.round s ir) s.
Proof.
  revert k s. induction n as [| n IH]; intros k s H0 Hn Hs; [reflexivity |].
  replace (2 * S n)%nat with (S (S (2 * n))) by lia. cbn [for_z].
  rewrite half_A_E by (assumption || lia).
  rewrite half_E_A by (apply round_length || lia).
  rewrite IH by (apply round_length || lia).
  f_equal. lia.
Qed.

(** The permutation the code runs, twelve unrolled double rounds over
    renamed registers with in-place theta, equals 24 rounds of the five FIPS 202
    step mappings (theta, rho with its computed offsets, pi, chi, iota with the
    LFSR's constants). *)
Theorem keccak_permute_refines (s : list Z) :
  length s = 25%nat -> KeccakF1600_StatePermute s = Ref.keccak_f s.
Proof. intros Hs. exact (permute_prefix 12 0 s ltac:(lia) ltac:(lia) Hs). Qed.

Lemma keccak_permute_refines_witness :
  KeccakF1600_StatePermute (seqZ 1 25) = Ref.keccak_f (seqZ 1 25).
Proof. apply (keccak_permute_refines (seqZ 1 25)). reflexivity. Defined.

(** * The sponge *)

Lemma permute_ref s : length s = 25%nat -> KeccakF1600_StatePermute s = Ref.keccak_f s.
Proof. intros Hs. exact (permute_prefix 12 0 s ltac:(lia) ltac:(lia) Hs). Qed.

Lemma for_round_length n k s :
  length s = 25%nat -> length (for_z n k (fun ir s => Ref.round s ir) s) = 25%nat.
Proof. revert k s. induction n as [| n IH]; intros k s Hs; [exact Hs | apply IH, round_length]. Qed.

Lemma keccak_f_length s : length s = 25%nat -> length (Ref.keccak_f s) = 25%nat.
Proof. apply for_round_length. Qed.

#[local] Opaque Ref.keccak_f KeccakF1600_StatePermute.

Lemma length_xor_block r b s : length (Ref.xor_block r b s) = length s.
Proof. apply length_imap. Qed.

Lemma load64_slice off b : load64 (slice off 8 b) = load64 (from off b).
Proof.
  unfold load64, slice, from. set (d := drop (Z.to_nat off) b). clearbody d.
  do 8 (destruct d as [| ? d]; [reflexivity |]). reflexivity.
Qed.

Lemma xor_lanes_block r m s : 0 <= r -> xor_lanes r m s = Ref.xor_block r m s.
Proof.
  intros Hr. apply list_eq. intros k. unfold xor_lanes.
  rewrite (for_upd_lookup (fun i a => a ^^ load64 (from (8 * i) m))) by lia.
  unfold Ref.xor_block. rewrite list_lookup_imap.
  rewrite load64_slice. pose proof (Z.div_pos r 8 Hr ltac:(lia)) as Hq.
  destruct (Z.ltb_spec (Z.of_nat k) (r / 8)).
  - rewrite decide_True by lia. reflexivity.
  - rewrite decide_False by lia. destruct (s !! k); reflexivity.
Qed.

(** Only the first [r] bytes of the block matter. *)
Lemma xor_block_prefix r b tl s :
  8 * (r / 8) = r -> len b = r -> Ref.xor_block r (b ++ tl) s = Ref.xor_block r b s.
Proof.
  intros Hr Hb. apply imap_ext. intros k a _.
  destruct (Z.ltb_spec (Z.of_nat k) (r / 8)); [| reflexivity].
  rewrite slice_app_l by lia. reflexivity.
Qed.

Lemma xor_block_slice r b s :
  8 * (r / 8) = r -> Ref.xor_block r (slice 0 r b) s = Ref.xor_block r b s.
Proof.
  intros Hr. apply imap_ext. intros k a _.
  destruct (Z.ltb_spec (Z.of_nat k) (r / 8)); [| reflexivity].
  rewrite slice_slice_0 by lia. reflexivity.
Qed.

Lemma absorb_length n r padded s :
  length s = 25%nat -> length (Ref.absorb n r padded s) = 25%nat.
Proof.
  revert padded s. induction n as [| n IH]; intros padded s Hs; [exact Hs |].
  apply IH, keccak_f_length. rewrite length_xor_block. exact Hs.
Qed.

Lemma absorb_loop_ref r n : 0 < r -> 8 * (r / 8) = r ->
  forall fuel m s, length s = 25%nat -> Z.of_nat n * r <= len m < (Z.of_nat n + 1) * r ->
  (n <= fuel)%nat ->
  absorb_loop fuel r s m = (Ref.absorb n r m s, from (Z.of_nat n * r) m).
Proof.
  intros Hr H8. induction n as [| n IH]; intros fuel m s Hs Hm Hf.
  - simpl. destruct fuel as [| fuel]; [reflexivity |]. simpl.
    destruct (Z.leb_spec r (len m)); [lia | reflexivity].
  - destruct fuel as [| fuel]; [lia |]. cbn [absorb_loop].
    destruct (Z.leb_spec r (len m)); [| lia].
    rewrite xor_lanes_block, permute_ref by (rewrite ?length_xor_block; lia || exact Hs).
    rewrite IH.
    + rewrite from_from by lia. cbn [Ref.absorb]. rewrite xor_block_slice by exact H8.
      f_equal. f_equal. lia.
    + apply keccak_f_length. rewrite length_xor_block. exact Hs.
    + rewrite len_from by lia. lia.
    + lia.
Qed.

Lemma absorb_snoc r n : 0 < r ->
  forall m x s, len x = r -> len m = Z.of_nat n * r + (len m - Z.of_nat n * r) ->
  Z.of_nat n * r <= len m -> forall pd, from (Z.of_nat n * r) m ++ pd = x ->
  Ref.absorb (S n) r (m ++ pd) s
  = Ref.keccak_f (Ref.xor_block r x (Ref.absorb n r m s)).
Proof.
  intros Hr. induction n as [| n IH]; intros m x s Hx _ Hm pd Hpd.
  - unfold from in Hpd. rewrite Z.mul_0_l, drop_0 in Hpd. rewrite Hpd.
    cbn [Ref.absorb]. rewrite slice_all by (symmetry; exact Hx). reflexivity.
  - change (Ref.absorb (S (S n)) r (m ++ pd) s) with
      (Ref.absorb (S n) r (from r (m ++ pd))
         (Ref.keccak_f (Ref.xor_block r (slice 0 r (m ++ pd)) s))).
    rewrite slice_app_l by lia.
    replace (from r (m ++ pd)) with (from r m ++ pd)
      by (unfold from; rewrite drop_app_le by (unfold len in *; lia); reflexivity).
    rewrite (IH (from r m) x); [reflexivity | exact Hx | lia | rewrite len_from; lia |].
    rewrite <- Hpd, from_from by lia. do 2 f_equal. lia.
Qed.

(** The last block the code builds in [t[200]] is the padded rest. *)
Lemma last_block r p m :
  0 <= len m < r -> r <= 200 ->
  let t := upd (len m) p (splice 0 m (fill 0 200)) in
  exists tl, upd (r - 1) (rd t (r - 1) .| 128) t = (m ++ Ref.pad r p (len m)) ++ tl /\
             len (m ++ Ref.pad r p (len m)) = r.
Proof.
  intros Hm Hr t.
  assert (Ht : t = m ++ [p] ++ fill 0 (199 - len m)).
  { unfold t. rewrite (fill_split 0 (len m) 200) by lia.
    assert (Hsp : splice 0 m (fill 0 (len m) ++ fill 0 (200 - len m)) = m ++ fill 0 (200 - len m)).
    { apply (splice_exact 0 m [] (fill 0 (len m))); [reflexivity |].
      unfold fill. rewrite length_replicate. apply len_to_nat. }
    rewrite Hsp. rewrite upd_app_r by (unfold len; lia). unfold len. rewrite Z.sub_diag.
    rewrite upd_fill by (unfold len in *; lia). do 2 f_equal. f_equal. lia. }
  unfold Ref.pad. rewrite Z.mod_small by lia. rewrite Ht.
  destruct (Z.eqb_spec (r - len m) 1) as [Hq | Hq].
  - exists (fill 0 (199 - len m)).
    unfold rd. rewrite app_nth2 by (unfold len in *; lia).
    replace (Z.to_nat (r - 1) - length m)%nat with 0%nat by (unfold len in *; lia).
    rewrite upd_app_r by (unfold len in *; lia).
    replace (r - 1 - Z.of_nat (length m)) with 0 by (unfold len in *; lia).
    split; [rewrite <- app_assoc; reflexivity | rewrite len_app, len_cons, len_nil; lia].
  - exists (fill 0 (200 - r)).
    replace (fill 0 (199 - len m)) with (fill 0 (r - len m - 2) ++ [0] ++ fill 0 (200 - r)).
    2: { rewrite (fill_split 0 (r - len m - 2) (199 - len m)) by lia. f_equal.
         rewrite (fill_split 0 1 (199 - len m - _)) by lia. f_equal. f_equal. lia. }
    rewrite !(app_assoc m), !(app_assoc (m ++ [p])).
    assert (Hl : Z.of_nat (length ((m ++ [p]) ++ fill 0 (r - len m - 2))) = r - 1).
    { unfold fill. rewrite !length_app, length_replicate. unfold len in *. simpl. lia. }
    unfold rd. rewrite app_nth2 by lia.
    replace (Z.to_nat (r - 1) - _)%nat with 0%nat by lia.
    rewrite upd_app_r by lia. rewrite Hl, Z.sub_diag.
    split; [rewrite <- !app_assoc; reflexivity |].
    rewrite !len_app, len_fill, !len_cons, len_nil by lia. lia.
Qed.

Lemma pad_mod r p n : 0 < r -> Ref.pad r p (n mod r) = Ref.pad r p n.
Proof. intros. unfold Ref.pad. rewrite Z.mod_mod by lia. reflexivity. Qed.

Lemma keccak_absorb_ref r p m :
  0 < r <= 200 -> 8 * (r / 8) = r ->
  length (keccak_absorb r m p) = 25%nat /\
  Ref.keccak_f (keccak_absorb r m p)
  = let padded := m ++ Ref.pad r p (len m) in
    Ref.absorb (Z.to_nat (len padded / r)) r padded (fill 0 25).
Proof.
  intros Hr H8. unfold keccak_absorb.
  pose proof (len_nonneg m) as H0. pose proof (Z.div_mod (len m) r ltac:(lia)) as Hdm.
  pose proof (Z.mod_pos_bound (len m) r ltac:(lia)) as Hmod.
  pose proof (Z.div_pos (len m) r H0 ltac:(lia)) as Hq0.
  set (n := Z.to_nat (len m / r)).
  assert (Hn : Z.of_nat n = len m / r) by lia.
  rewrite (absorb_loop_ref r n ltac:(lia) H8 (length m) m (fill 0 25) eq_refl).
  2: { rewrite Hn. lia. }
  2: { unfold len in *. assert (Z.of_nat (length m) / r <= Z.of_nat (length m)) by (apply Z.div_le_upper_bound; nia). lia. }
  set (rest := from (Z.of_nat n * r) m).
  assert (Hrest : len rest = len m mod r).
  { unfold rest. rewrite len_from; rewrite Hn; lia. }
  destruct (last_block r p rest ltac:(lia) ltac:(lia)) as (tl & -> & Hlen).
  rewrite Hrest, pad_mod in * by lia.
  rewrite xor_lanes_block, xor_block_prefix by lia || assumption.
  split; [rewrite length_xor_block; apply absorb_length; reflexivity |].
  cbv zeta. replace (Z.to_nat (len (m ++ Ref.pad r p (len m)) / r)) with (S n).
  - symmetry. apply absorb_snoc; try lia; try exact Hlen. reflexivity.
  - rewrite len_app in *. rewrite Hrest in Hlen.
    replace (len m + len (Ref.pad r p (len m))) with ((len m / r + 1) * r) by lia.
    rewrite Z.div_mul by lia. lia.
Qed.

Lemma store64_eq x : exists b0 b1 b2 b3 b4 b5 b6 b7, store64 x = [b0; b1; b2; b3; b4; b5; b6; b7].
Proof. do 8 eexists. reflexivity. Qed.

Lemma store64_bytes x : Forall is_byte (store64 x).
Proof. unfold store64. cbn. repeat constructor; apply u8_byte. Qed.

Lemma concat_store64_len l : len (concat (map store64 l)) = 8 * len l.
Proof.
  induction l as [| x l IH]; [reflexivity |]. cbn [map concat].
  rewrite len_app, IH, len_cons. change (len (store64 x)) with 8. lia.
Qed.

Fixpoint iterate {A} (f : A -> A) (n : nat) (a : A) : A :=
  match n with O => a | S n' => iterate f n' (f a) end.

Lemma iterate_comm {A} (f : A -> A) n a : iterate f n (f a) = f (iterate f n a).
Proof. revert a. induction n as [| n IH]; intros a; [reflexivity | apply IH]. Qed.

Abbreviation iter_f := (iterate Ref.keccak_f).

Lemma iter_f_length n s : length s = 25%nat -> length (iter_f n s) = 25%nat.
Proof. revert s. induction n as [| n IH]; intros s Hs; [exact Hs | apply IH, keccak_f_length, Hs]. Qed.

Lemma squeezeblocks_ref n s r :
  0 <= r <= 200 -> length s = 25%nat ->
  keccak_squeezeblocks n s r = (Ref.squeeze n r (Ref.keccak_f s), iter_f n s).
Proof.
  intros Hr. assert (Hq : 0 <= r / 8 <= 25) by (split; [apply Z.div_pos | apply Z.div_le_upper_bound]; lia).
  revert s. induction n as [| n IH]; intros s Hs; [reflexivity |].
  cbn [keccak_squeezeblocks]. rewrite permute_ref by exact Hs.
  pose proof (keccak_f_length s Hs) as Hf.
  rewrite (for_z_concat _ 0 (fun i => store64 (rd (Ref.keccak_f s) i))).
  rewrite IH by exact Hf. cbn [Ref.squeeze iter_f app]. f_equal. f_equal. f_equal.
  rewrite <- (map_map (rd (Ref.keccak_f s)) store64), map_rd_seqZ
    by (rewrite ?Hf; cbn; lia). reflexivity.
Qed.

Lemma squeeze_app n m r s :
  Ref.squeeze (n + m) r s = Ref.squeeze n r s ++ Ref.squeeze m r (iter_f n s).
Proof.
  revert s. induction n as [| n IH]; intros s; [reflexivity |].
  cbn [Ref.squeeze Nat.add iterate]. rewrite IH, app_assoc. reflexivity.
Qed.

Lemma squeeze_len n r s :
  0 <= r <= 200 -> 8 * (r / 8) = r -> length s = 25%nat ->
  len (Ref.squeeze n r s) = Z.of_nat n * r.
Proof.
  intros Hr H8. revert s. induction n as [| n IH]; intros s Hs; [reflexivity |].
  cbn [Ref.squeeze]. rewrite len_app, IH, concat_store64_len by (apply keccak_f_length, Hs).
  unfold len. rewrite length_take. lia.
Qed.

(** Squeezing whole blocks, then the rest of one more, is a prefix of the stream. *)
Lemma squeeze_rest r outlen s :
  0 < r <= 200 -> 8 * (r / 8) = r -> length s = 25%nat -> 0 <= outlen ->
  (let '(out, s') := keccak_squeezeblocks (Z.to_nat (outlen / r)) s r in
   let outlen' := outlen - outlen / r * r in
   if outlen' =? 0 then out
   else let '(t, _) := keccak_squeezeblocks 1 s' r in out ++ slice 0 outlen' t)
  = slice 0 outlen (Ref.squeeze (Z.to_nat (outlen / r) + 1) r (Ref.keccak_f s)).
Proof.
  intros Hr H8 Hs Ho. rewrite !squeezeblocks_ref by (lia || assumption).
  cbv zeta. rewrite squeezeblocks_ref by (lia || apply iter_f_length, Hs).
  pose proof (Z.div_mod outlen r ltac:(lia)) as Hdm.
  pose proof (Z.mod_pos_bound outlen r ltac:(lia)) as Hm.
  pose proof (Z.div_pos outlen r Ho ltac:(lia)) as Hq.
  set (n := Z.to_nat (outlen / r)). set (s1 := Ref.keccak_f s).
  assert (Hl : len (Ref.squeeze n r s1) = outlen / r * r).
  { rewrite squeeze_len; [unfold n; lia | lia | exact H8 | apply keccak_f_length, Hs]. }
  rewrite squeeze_app. unfold slice at 2. rewrite drop_0.
  assert (Ht : Z.to_nat outlen
               = (length (Ref.squeeze n r s1) + Z.to_nat (outlen - outlen / r * r))%nat)
    by (unfold len in Hl; lia).
  rewrite Ht, firstn_app_2.
  destruct (Z.eqb_spec (outlen - outlen / r * r) 0) as [H0 | H0].
  - rewrite H0. rewrite app_nil_r. reflexivity.
  - f_equal. unfold slice. rewrite drop_0. f_equal. f_equal. unfold s1. symmetry. apply iterate_comm.
Qed.

Lemma fixed_ref r p m n :
  0 < r <= 200 -> 8 * (r / 8) = r -> 0 <= n < r ->
  slice 0 n (fst (keccak_squeezeblocks 1 (keccak_absorb r m p) r)) = Ref.sponge r p m n.
Proof.
  intros Hr H8 Hn. destruct (keccak_absorb_ref r p m Hr H8) as [Hl Ha].
  rewrite squeezeblocks_ref by (lia || exact Hl). cbn [fst]. rewrite Ha.
  unfold Ref.sponge. rewrite (Z.div_small n r) by lia. reflexivity.
Qed.

Lemma xof_ref r p m outlen :
  0 < r <= 200 -> 8 * (r / 8) = r -> 0 <= outlen ->
  (let '(out, s') := keccak_squeezeblocks (Z.to_nat (outlen / r)) (keccak_absorb r m p) r in
   let outlen' := outlen - outlen / r * r in
   if outlen' =? 0 then out
   else let '(t, _) := keccak_squeezeblocks 1 s' r in out ++ slice 0 outlen' t)
  = Ref.sponge r p m outlen.
Proof.
  intros Hr H8 Ho. destruct (keccak_absorb_ref r p m Hr H8) as [Hl Ha].
  rewrite squeeze_rest by assumption. rewrite Ha. reflexivity.
Qed.

(** C39: the four hash functions of the file are the sponges of FIPS 202 on the
    padded message, for every message and output length: rate, domain byte,
    the one-byte padding case and the partial last output block included. *)
Theorem fips202_sponges (m : bytes) (outlen : Z) :
  0 <= outlen ->
  shake256 outlen m = Ref.sponge 136 0x1F m outlen /\
  shake128 outlen m = Ref.sponge 168 0x1F m outlen /\
  sha3_256 m = Ref.sponge 136 0x06 m 32 /\
  sha3_512 m = Ref.sponge 72 0x06 m 64.
Proof.
  intros Ho. split; [| split; [| split]].
  - exact (xof_ref 136 0x1F m outlen ltac:(lia) eq_refl Ho).
  - exact (xof_ref 168 0x1F m outlen ltac:(lia) eq_refl Ho).
  - rewrite <- fixed_ref by (lia || reflexivity). reflexivity.
  - rewrite <- fixed_ref by (lia || reflexivity). reflexivity.
Qed.

Lemma fips202_sponges_witness :
  shake256 32 [1; 2; 3] = Ref.sponge 136 0x1F [1; 2; 3] 32 /\
  shake128 32 [1; 2; 3] = Ref.sponge 168 0x1F [1; 2; 3] 32 /\
  sha3_256 [1; 2; 3] = Ref.sponge 136 0x06 [1; 2; 3] 32 /\
  sha3_512 [1; 2; 3] = Ref.sponge 72 0x06 [1; 2; 3] 64.
Proof. apply (fips202_sponges [1; 2; 3] 32). lia. Defined.

(** * What the clients use *)

Lemma squeeze_bytes n r s : Forall is_byte (Ref.squeeze n r s).
Proof.
  revert s. induction n as [| n IH]; intros s; [constructor |].
  apply Forall_byte_app; [| apply IH].
  generalize (take (Z.to_nat (r / 8)) s). intros l.
  induction l as [| x l IHl]; [constructor |]. apply Forall_byte_app; [apply store64_bytes | exact IHl].
Qed.

Lemma shake256_sponge outlen m :
  0 <= outlen -> shake256 outlen m = Ref.sponge 136 0x1F m outlen.
Proof. intros Ho. exact (xof_ref 136 0x1F m outlen ltac:(lia) eq_refl Ho). Qed.

Lemma shake256_bytes outlen m : 0 <= outlen -> Forall is_byte (shake256 outlen m).
Proof.
  intros Ho. rewrite shake256_sponge by exact Ho.
  apply Forall_take, Forall_drop, squeeze_bytes.
Qed.

Lemma shake256_length outlen m : 0 <= outlen -> len (shake256 outlen m) = outlen.
Proof.
  intros Ho. rewrite shake256_sponge by exact Ho. unfold Ref.sponge.
  pose proof (Z.div_mod outlen 136 ltac:(lia)). pose proof (Z.mod_pos_bound outlen 136 ltac:(lia)).
  pose proof (Z.div_pos outlen 136 Ho ltac:(lia)).
  apply len_slice; [lia | lia |].
  rewrite squeeze_len; [lia | lia | reflexivity |]. apply absorb_length. reflexivity.
Qed.
