(* ===== verification/Xkcp.v ===== *)
(** The 32-bit Keccak of hashs/xkcp (KeccakP-1600-inplace32BI.c and its adapter xkcp_shake.c),
    which hash_api.c uses for SHAKE256 in a build with LMS_HASH_XKCP_32BI.

    A lane is two words, its even and its odd bits ([toBitInterleaving]); a state is the list of
    its 50 words.  The rounds work in place: the places of the lanes change from round to
    round and are back after four.  The code for big-endian hosts is left out. *)

From S2P Require Import Prelude.

Definition ROL32 (a offset : Z) : Z := u32 (a .<< offset) ^^ (a .>> (32 - offset)).

Definition XKCP_load32 (x : bytes) (i : Z) : Z :=
  rd x i .| (rd x (i + 1) .<< 8) .| (rd x (i + 2) .<< 16) .| (rd x (i + 3) .<< 24).
Definition XKCP_store32 (u : Z) : bytes := [u8 u; u8 (u .>> 8); u8 (u .>> 16); u8 (u .>> 24)].

(** * Bit interleaving *)

(** [temp = (x ^ (x >> n)) & m;  x = x ^ temp ^ (temp << n);] *)
Definition delta_swap (n m x : Z) : Z :=
  let temp := (x ^^ (x .>> n)) .& m in x ^^ temp ^^ u32 (temp .<< n).

(** What happens to one of the two words. *)
Definition prepareToBitInterleaving (x : Z) : Z :=
  let x := delta_swap 1 0x22222222 x in
  let x := delta_swap 2 0x0C0C0C0C x in
  let x := delta_swap 4 0x00F000F0 x in
  delta_swap 8 0x0000FF00 x.

(** The even and the odd word. *)
Definition toBitInterleaving (low high : Z) : Z * Z :=
  let temp0 := prepareToBitInterleaving low in
  let temp1 := prepareToBitInterleaving high in
  ((temp0 .& 0x0000FFFF) .| u32 (temp1 .<< 16), (temp0 .>> 16) .| (temp1 .& 0xFFFF0000)).

(** [even] and [odd] are words 2i and 2i + 1. *)
Definition toBitInterleavingAndXOR (low high i : Z) (A : list Z) : list Z :=
  let '(even, odd) := toBitInterleaving low high in
  let A := upd (2 * i) (rd A (2 * i) ^^ even) A in
  upd (2 * i + 1) (rd A (2 * i + 1) ^^ odd) A.
Definition toBitInterleavingAndAND (low high i : Z) (A : list Z) : list Z :=
  let '(even, odd) := toBitInterleaving low high in
  let A := upd (2 * i) (rd A (2 * i) .& even) A in
  upd (2 * i + 1) (rd A (2 * i + 1) .& odd) A.
Definition toBitInterleavingAndSet (low high i : Z) (A : list Z) : list Z :=
  let '(even, odd) := toBitInterleaving low high in
  upd (2 * i + 1) odd (upd (2 * i) even A).

Definition prepareFromBitInterleaving (x : Z) : Z :=
  let x := delta_swap 8 0x0000FF00 x in
  let x := delta_swap 4 0x00F000F0 x in
  let x := delta_swap 2 0x0C0C0C0C x in
  delta_swap 1 0x22222222 x.

(** [low] and [high]. *)
Definition fromBitInterleaving (even odd : Z) : Z * Z :=
  let temp0 := (even .& 0x0000FFFF) .| u32 (odd .<< 16) in
  let temp1 := (even .>> 16) .| (odd .& 0xFFFF0000) in
  (prepareFromBitInterleaving temp0, prepareFromBitInterleaving temp1).

(** * Bytes in and out of the state *)

Definition lane_bytes : Z := 8.

Definition KeccakP1600_SetBytesInLaneToZero (lanePosition offset length : Z) (A : list Z) : list Z :=
  let laneAsBytes := fill 0xFF offset ++ fill 0x00 length ++ fill 0xFF (8 - offset - length) in
  toBitInterleavingAndAND (XKCP_load32 laneAsBytes 0) (XKCP_load32 laneAsBytes 4) lanePosition A.

Definition KeccakP1600_Initialize : list Z := fill 0 50.

Definition KeccakP1600_AddByte (byte offset : Z) (A : list Z) : list Z :=
  let lanePosition := offset / 8 in
  let offsetInLane := offset mod 8 in
  let '(low, high) :=
    if offsetInLane <? 4 then (u32 (byte .<< (offsetInLane * 8)), 0) else (0, u32 (byte .<< ((offsetInLane - 4) * 8))) in
  toBitInterleavingAndXOR low high lanePosition A.

Definition KeccakP1600_AddBytesInLane (lanePosition : Z) (data : bytes) (offset length : Z) (A : list Z) : list Z :=
  let laneAsBytes := splice offset (slice 0 length data) (fill 0 8) in
  toBitInterleavingAndXOR (XKCP_load32 laneAsBytes 0) (XKCP_load32 laneAsBytes 4) lanePosition A.

Definition KeccakP1600_AddLanes (data : bytes) (laneCount : Z) (A : list Z) : list Z :=
  for_z (Z.to_nat laneCount) 0 (fun i A =>
    toBitInterleavingAndXOR (XKCP_load32 data (8 * i)) (XKCP_load32 data (8 * i + 4)) i A) A.

Definition KeccakP1600_OverwriteBytesInLane (lanePosition : Z) (data : bytes) (offset length : Z) (A : list Z) : list Z :=
  KeccakP1600_AddBytesInLane lanePosition data offset length (KeccakP1600_SetBytesInLaneToZero lanePosition offset length A).

Definition KeccakP1600_OverwriteLanes (data : bytes) (laneCount : Z) (A : list Z) : list Z :=
  for_z (Z.to_nat laneCount) 0 (fun i A =>
    toBitInterleavingAndSet (XKCP_load32 data (8 * i)) (XKCP_load32 data (8 * i + 4)) i A) A.

(** The bytes of a lane, as words 2i and 2i + 1 hold it. *)
Definition laneAsBytes (lanePosition : Z) (A : list Z) : bytes :=
  let '(low, high) := fromBitInterleaving (rd A (lanePosition * 2)) (rd A (lanePosition * 2 + 1)) in
  XKCP_store32 low ++ XKCP_store32 high.

Definition KeccakP1600_ExtractBytesInLane (lanePosition offset length : Z) (A : list Z) : bytes :=
  slice offset length (laneAsBytes lanePosition A).

Definition KeccakP1600_ExtractLanes (laneCount : Z) (A : list Z) : bytes :=
  for_z (Z.to_nat laneCount) 0 (fun i out => out ++ laneAsBytes i A) [].

Definition KeccakP1600_ExtractAndAddBytesInLane (lanePosition : Z) (input : bytes) (offset length : Z) (A : list Z) : bytes :=
  for_z (Z.to_nat length) 0 (fun i output => output ++ [rd input i ^^ rd (laneAsBytes lanePosition A) (offset + i)]) [].

Definition KeccakP1600_ExtractAndAddLanes (input : bytes) (laneCount : Z) (A : list Z) : bytes :=
  for_z (Z.to_nat laneCount) 0 (fun i output =>
    let '(low, high) := fromBitInterleaving (rd A (2 * i)) (rd A (2 * i + 1)) in
    output ++ XKCP_store32 (XKCP_load32 input (8 * i) ^^ low) ++ XKCP_store32 (XKCP_load32 input (8 * i + 4) ^^ high)) [].

(** ** SnP-Relaned.h

    The loop of the four macros over the lanes a piece of [sizeLeft] bytes touches; [step] is given
    the lane, the bytes consumed so far, the offset in the lane and the bytes in it. *)
Fixpoint snp_loop {S} (fuel : nat) (step : Z -> Z -> Z -> Z -> S -> S) (sizeLeft lanePosition offsetInLane cur : Z) (s : S) : S :=
  match fuel with
  | O => s
  | S fuel =>
      if sizeLeft =? 0 then s
      else
        let bytesInLane := 8 - offsetInLane in
        let bytesInLane := if sizeLeft <? bytesInLane then sizeLeft else bytesInLane in
        snp_loop fuel step (sizeLeft - bytesInLane) (lanePosition + 1) 0 (cur + bytesInLane)
          (step lanePosition cur offsetInLane bytesInLane s)
  end.

(** SnP_AddBytes, SnP_OverwriteBytes: a turn of the loop takes a byte at least. *)
Definition SnP_write (lanes : bytes -> Z -> list Z -> list Z) (in_lane : Z -> bytes -> Z -> Z -> list Z -> list Z)
    (data : bytes) (offset length : Z) (A : list Z) : list Z :=
  if offset =? 0 then
    let A := lanes data (length / 8) A in
    if 0 <? length mod 8 then in_lane (length / 8) (from (length / 8 * 8) data) 0 (length mod 8) A else A
  else
    snp_loop (Z.to_nat length) (fun lane cur offsetInLane n A => in_lane lane (from cur data) offsetInLane n A)
      length (offset / 8) (offset mod 8) 0 A.

(** SnP_ExtractBytes, SnP_ExtractAndAddBytes: the bytes written. *)
Definition SnP_read (lanes : Z -> bytes) (in_lane : Z -> Z -> Z -> Z -> bytes) (offset length : Z) : bytes :=
  if offset =? 0 then
    let out := lanes (length / 8) in
    if 0 <? length mod 8 then out ++ in_lane (length / 8) (length / 8 * 8) 0 (length mod 8) else out
  else
    snp_loop (Z.to_nat length) (fun lane cur offsetInLane n out => out ++ in_lane lane cur offsetInLane n)
      length (offset / 8) (offset mod 8) 0 [].

Definition KeccakP1600_AddBytes : bytes -> Z -> Z -> list Z -> list Z := SnP_write KeccakP1600_AddLanes KeccakP1600_AddBytesInLane.
Definition KeccakP1600_OverwriteBytes : bytes -> Z -> Z -> list Z -> list Z :=
  SnP_write KeccakP1600_OverwriteLanes KeccakP1600_OverwriteBytesInLane.

Definition KeccakP1600_OverwriteWithZeroes (byteCount : Z) (A : list Z) : list Z :=
  let A := for_z (Z.to_nat (byteCount / 8)) 0 (fun i A => upd (i * 2 + 1) 0 (upd (i * 2) 0 A)) A in
  if negb (byteCount mod 8 =? 0) then KeccakP1600_SetBytesInLaneToZero (byteCount / 8) 0 (byteCount mod 8) A else A.

Definition KeccakP1600_ExtractBytes (offset length : Z) (A : list Z) : bytes :=
  SnP_read (fun n => KeccakP1600_ExtractLanes n A) (fun lane _ off n => KeccakP1600_ExtractBytesInLane lane off n A) offset length.

Definition KeccakP1600_ExtractAndAddBytes (input : bytes) (offset length : Z) (A : list Z) : bytes :=
  SnP_read (fun n => KeccakP1600_ExtractAndAddLanes input n A)
    (fun lane cur off n => KeccakP1600_ExtractAndAddBytesInLane lane (from cur input) off n A) offset length.

(** * The permutation *)

Definition KeccakF1600RoundConstants_int2 : list Z :=
  [0x00000001; 0x00000000; 0x00000000; 0x00000089; 0x00000000; 0x8000008b; 0x00000000; 0x80008080;
   0x00000001; 0x0000008b; 0x00000001; 0x00008000; 0x00000001; 0x80008088; 0x00000001; 0x80000082;
   0x00000000; 0x0000000b; 0x00000000; 0x0000000a; 0x00000001; 0x00008082; 0x00000000; 0x00008003;
   0x00000001; 0x0000808b; 0x00000001; 0x8000000b; 0x00000001; 0x8000008a; 0x00000001; 0x80000081;
   0x00000000; 0x80000081; 0x00000000; 0x80000008; 0x00000000; 0x00000083; 0x00000000; 0x80008003;
   0x00000001; 0x80008088; 0x00000000; 0x80000088; 0x00000001; 0x00008000; 0x00000000; 0x80008082; 0x000000FF].

(** One round each; [pRC] is the index behind [pRoundConstants]. *)

Definition KeccakRound0 (pRC : Z) (A : list Z) : list Z :=
  match A with
  | [Aba0; Aba1; Abe0; Abe1; Abi0; Abi1; Abo0; Abo1; Abu0; Abu1;
     Aga0; Aga1; Age0; Age1; Agi0; Agi1; Ago0; Ago1; Agu0; Agu1;
     Aka0; Aka1; Ake0; Ake1; Aki0; Aki1; Ako0; Ako1; Aku0; Aku1;
     Ama0; Ama1; Ame0; Ame1; Ami0; Ami1; Amo0; Amo1; Amu0; Amu1;
     Asa0; Asa1; Ase0; Ase1; Asi0; Asi1; Aso0; Aso1; Asu0; Asu1] =>
      let Cx := Abu0 ^^ Agu0 ^^ Aku0 ^^ Amu0 ^^ Asu0 in let Du1 := Abe1 ^^ Age1 ^^ Ake1 ^^ Ame1 ^^ Ase1 in
      let Da0 := Cx ^^ ROL32 Du1 1 in let Cz := Abu1 ^^ Agu1 ^^ Aku1 ^^ Amu1 ^^ Asu1 in
      let Du0 := Abe0 ^^ Age0 ^^ Ake0 ^^ Ame0 ^^ Ase0 in let Da1 := Cz ^^ Du0 in
      let Cw := Abi0 ^^ Agi0 ^^ Aki0 ^^ Ami0 ^^ Asi0 in let Do0 := Cw ^^ ROL32 Cz 1 in
      let Cy := Abi1 ^^ Agi1 ^^ Aki1 ^^ Ami1 ^^ Asi1 in let Do1 := Cy ^^ Cx in
      let Cx := Aba0 ^^ Aga0 ^^ Aka0 ^^ Ama0 ^^ Asa0 in let De0 := Cx ^^ ROL32 Cy 1 in
      let Cz := Aba1 ^^ Aga1 ^^ Aka1 ^^ Ama1 ^^ Asa1 in let De1 := Cz ^^ Cw in
      let Cy := Abo1 ^^ Ago1 ^^ Ako1 ^^ Amo1 ^^ Aso1 in let Di0 := Du0 ^^ ROL32 Cy 1 in
      let Cw := Abo0 ^^ Ago0 ^^ Ako0 ^^ Amo0 ^^ Aso0 in let Di1 := Du1 ^^ Cw in let Du0 := Cw ^^ ROL32 Cz 1 in
      let Du1 := Cy ^^ Cx in let Ba := Aba0 ^^ Da0 in let Be := ROL32 (Age0 ^^ De0) 22 in
      let Bi := ROL32 (Aki1 ^^ Di1) 22 in let Bo := ROL32 (Amo1 ^^ Do1) 11 in let Bu := ROL32 (Asu0 ^^ Du0) 7 in
      let Aba0 := Ba ^^ (not32 Be .& Bi) in let Aba0 := Aba0 ^^ rd KeccakF1600RoundConstants_int2 pRC in
      let Age0 := Be ^^ (not32 Bi .& Bo) in let Aki1 := Bi ^^ (not32 Bo .& Bu) in
      let Amo1 := Bo ^^ (not32 Bu .& Ba) in let Asu0 := Bu ^^ (not32 Ba .& Be) in let Ba := Aba1 ^^ Da1 in
      let Be := ROL32 (Age1 ^^ De1) 22 in let Bi := ROL32 (Aki0 ^^ Di0) 21 in let Bo := ROL32 (Amo0 ^^ Do0) 10 in
      let Bu := ROL32 (Asu1 ^^ Du1) 7 in let Aba1 := Ba ^^ (not32 Be .& Bi) in
      let Aba1 := Aba1 ^^ rd KeccakF1600RoundConstants_int2 (pRC + 1) in let Age1 := Be ^^ (not32 Bi .& Bo) in
      let Aki0 := Bi ^^ (not32 Bo .& Bu) in let Amo0 := Bo ^^ (not32 Bu .& Ba) in
      let Asu1 := Bu ^^ (not32 Ba .& Be) in let Bi := ROL32 (Aka1 ^^ Da1) 2 in let Bo := ROL32 (Ame1 ^^ De1) 23 in
      let Bu := ROL32 (Asi1 ^^ Di1) 31 in let Ba := ROL32 (Abo0 ^^ Do0) 14 in let Be := ROL32 (Agu0 ^^ Du0) 10 in
      let Aka1 := Ba ^^ (not32 Be .& Bi) in let Ame1 := Be ^^ (not32 Bi .& Bo) in
      let Asi1 := Bi ^^ (not32 Bo .& Bu) in let Abo0 := Bo ^^ (not32 Bu .& Ba) in
      let Agu0 := Bu ^^ (not32 Ba .& Be) in let Bi := ROL32 (Aka0 ^^ Da0) 1 in let Bo := ROL32 (Ame0 ^^ De0) 22 in
      let Bu := ROL32 (Asi0 ^^ Di0) 30 in let Ba := ROL32 (Abo1 ^^ Do1) 14 in let Be := ROL32 (Agu1 ^^ Du1) 10 in
      let Aka0 := Ba ^^ (not32 Be .& Bi) in let Ame0 := Be ^^ (not32 Bi .& Bo) in
      let Asi0 := Bi ^^ (not32 Bo .& Bu) in let Abo1 := Bo ^^ (not32 Bu .& Ba) in
      let Agu1 := Bu ^^ (not32 Ba .& Be) in let Bu := ROL32 (Asa0 ^^ Da0) 9 in let Ba := ROL32 (Abe1 ^^ De1) 1 in
      let Be := ROL32 (Agi0 ^^ Di0) 3 in let Bi := ROL32 (Ako1 ^^ Do1) 13 in let Bo := ROL32 (Amu0 ^^ Du0) 4 in
      let Asa0 := Ba ^^ (not32 Be .& Bi) in let Abe1 := Be ^^ (not32 Bi .& Bo) in
      let Agi0 := Bi ^^ (not32 Bo .& Bu) in let Ako1 := Bo ^^ (not32 Bu .& Ba) in
      let Amu0 := Bu ^^ (not32 Ba .& Be) in let Bu := ROL32 (Asa1 ^^ Da1) 9 in let Ba := Abe0 ^^ De0 in
      let Be := ROL32 (Agi1 ^^ Di1) 3 in let Bi := ROL32 (Ako0 ^^ Do0) 12 in let Bo := ROL32 (Amu1 ^^ Du1) 4 in
      let Asa1 := Ba ^^ (not32 Be .& Bi) in let Abe0 := Be ^^ (not32 Bi .& Bo) in
      let Agi1 := Bi ^^ (not32 Bo .& Bu) in let Ako0 := Bo ^^ (not32 Bu .& Ba) in
      let Amu1 := Bu ^^ (not32 Ba .& Be) in let Be := ROL32 (Aga0 ^^ Da0) 18 in let Bi := ROL32 (Ake0 ^^ De0) 5 in
      let Bo := ROL32 (Ami1 ^^ Di1) 8 in let Bu := ROL32 (Aso0 ^^ Do0) 28 in let Ba := ROL32 (Abu1 ^^ Du1) 14 in
      let Aga0 := Ba ^^ (not32 Be .& Bi) in let Ake0 := Be ^^ (not32 Bi .& Bo) in
      let Ami1 := Bi ^^ (not32 Bo .& Bu) in let Aso0 := Bo ^^ (not32 Bu .& Ba) in
      let Abu1 := Bu ^^ (not32 Ba .& Be) in let Be := ROL32 (Aga1 ^^ Da1) 18 in let Bi := ROL32 (Ake1 ^^ De1) 5 in
      let Bo := ROL32 (Ami0 ^^ Di0) 7 in let Bu := ROL32 (Aso1 ^^ Do1) 28 in let Ba := ROL32 (Abu0 ^^ Du0) 13 in
      let Aga1 := Ba ^^ (not32 Be .& Bi) in let Ake1 := Be ^^ (not32 Bi .& Bo) in
      let Ami0 := Bi ^^ (not32 Bo .& Bu) in let Aso1 := Bo ^^ (not32 Bu .& Ba) in
      let Abu0 := Bu ^^ (not32 Ba .& Be) in let Bo := ROL32 (Ama1 ^^ Da1) 21 in let Bu := ROL32 (Ase0 ^^ De0) 1 in
      let Ba := ROL32 (Abi0 ^^ Di0) 31 in let Be := ROL32 (Ago1 ^^ Do1) 28 in let Bi := ROL32 (Aku1 ^^ Du1) 20 in
      let Ama1 := Ba ^^ (not32 Be .& Bi) in let Ase0 := Be ^^ (not32 Bi .& Bo) in
      let Abi0 := Bi ^^ (not32 Bo .& Bu) in let Ago1 := Bo ^^ (not32 Bu .& Ba) in
      let Aku1 := Bu ^^ (not32 Ba .& Be) in let Bo := ROL32 (Ama0 ^^ Da0) 20 in let Bu := ROL32 (Ase1 ^^ De1) 1 in
      let Ba := ROL32 (Abi1 ^^ Di1) 31 in let Be := ROL32 (Ago0 ^^ Do0) 27 in let Bi := ROL32 (Aku0 ^^ Du0) 19 in
      let Ama0 := Ba ^^ (not32 Be .& Bi) in let Ase1 := Be ^^ (not32 Bi .& Bo) in
      let Abi1 := Bi ^^ (not32 Bo .& Bu) in let Ago0 := Bo ^^ (not32 Bu .& Ba) in
      let Aku0 := Bu ^^ (not32 Ba .& Be) in
      [Aba0; Aba1; Abe0; Abe1; Abi0; Abi1; Abo0; Abo1; Abu0; Abu1;
     Aga0; Aga1; Age0; Age1; Agi0; Agi1; Ago0; Ago1; Agu0; Agu1;
     Aka0; Aka1; Ake0; Ake1; Aki0; Aki1; Ako0; Ako1; Aku0; Aku1;
     Ama0; Ama1; Ame0; Ame1; Ami0; Ami1; Amo0; Amo1; Amu0; Amu1;
     Asa0; Asa1; Ase0; Ase1; Asi0; Asi1; Aso0; Aso1; Asu0; Asu1]
  | _ => A
  end.

Definition KeccakRound1 (pRC : Z) (A : list Z) : list Z :=
  match A with
  | [Aba0; Aba1; Abe0; Abe1; Abi0; Abi1; Abo0; Abo1; Abu0; Abu1;
     Aga0; Aga1; Age0; Age1; Agi0; Agi1; Ago0; Ago1; Agu0; Agu1;
     Aka0; Aka1; Ake0; Ake1; Aki0; Aki1; Ako0; Ako1; Aku0; Aku1;
     Ama0; Ama1; Ame0; Ame1; Ami0; Ami1; Amo0; Amo1; Amu0; Amu1;
     Asa0; Asa1; Ase0; Ase1; Asi0; Asi1; Aso0; Aso1; Asu0; Asu1] =>
      let Cx := Asu0 ^^ Agu0 ^^ Amu0 ^^ Abu1 ^^ Aku1 in let Du1 := Age1 ^^ Ame0 ^^ Abe0 ^^ Ake1 ^^ Ase1 in
      let Da0 := Cx ^^ ROL32 Du1 1 in let Cz := Asu1 ^^ Agu1 ^^ Amu1 ^^ Abu0 ^^ Aku0 in
      let Du0 := Age0 ^^ Ame1 ^^ Abe1 ^^ Ake0 ^^ Ase0 in let Da1 := Cz ^^ Du0 in
      let Cw := Aki1 ^^ Asi1 ^^ Agi0 ^^ Ami1 ^^ Abi0 in let Do0 := Cw ^^ ROL32 Cz 1 in
      let Cy := Aki0 ^^ Asi0 ^^ Agi1 ^^ Ami0 ^^ Abi1 in let Do1 := Cy ^^ Cx in
      let Cx := Aba0 ^^ Aka1 ^^ Asa0 ^^ Aga0 ^^ Ama1 in let De0 := Cx ^^ ROL32 Cy 1 in
      let Cz := Aba1 ^^ Aka0 ^^ Asa1 ^^ Aga1 ^^ Ama0 in let De1 := Cz ^^ Cw in
      let Cy := Amo0 ^^ Abo1 ^^ Ako0 ^^ Aso1 ^^ Ago0 in let Di0 := Du0 ^^ ROL32 Cy 1 in
      let Cw := Amo1 ^^ Abo0 ^^ Ako1 ^^ Aso0 ^^ Ago1 in let Di1 := Du1 ^^ Cw in let Du0 := Cw ^^ ROL32 Cz 1 in
      let Du1 := Cy ^^ Cx in let Ba := Aba0 ^^ Da0 in let Be := ROL32 (Ame1 ^^ De0) 22 in
      let Bi := ROL32 (Agi1 ^^ Di1) 22 in let Bo := ROL32 (Aso1 ^^ Do1) 11 in let Bu := ROL32 (Aku1 ^^ Du0) 7 in
      let Aba0 := Ba ^^ (not32 Be .& Bi) in let Aba0 := Aba0 ^^ rd KeccakF1600RoundConstants_int2 pRC in
      let Ame1 := Be ^^ (not32 Bi .& Bo) in let Agi1 := Bi ^^ (not32 Bo .& Bu) in
      let Aso1 := Bo ^^ (not32 Bu .& Ba) in let Aku1 := Bu ^^ (not32 Ba .& Be) in let Ba := Aba1 ^^ Da1 in
      let Be := ROL32 (Ame0 ^^ De1) 22 in let Bi := ROL32 (Agi0 ^^ Di0) 21 in let Bo := ROL32 (Aso0 ^^ Do0) 10 in
      let Bu := ROL32 (Aku0 ^^ Du1) 7 in let Aba1 := Ba ^^ (not32 Be .& Bi) in
      let Aba1 := Aba1 ^^ rd KeccakF1600RoundConstants_int2 (pRC + 1) in let Ame0 := Be ^^ (not32 Bi .& Bo) in
      let Agi0 := Bi ^^ (not32 Bo .& Bu) in let Aso0 := Bo ^^ (not32 Bu .& Ba) in
      let Aku0 := Bu ^^ (not32 Ba .& Be) in let Bi := ROL32 (Asa1 ^^ Da1) 2 in let Bo := ROL32 (Ake1 ^^ De1) 23 in
      let Bu := ROL32 (Abi1 ^^ Di1) 31 in let Ba := ROL32 (Amo1 ^^ Do0) 14 in let Be := ROL32 (Agu0 ^^ Du0) 10 in
      let Asa1 := Ba ^^ (not32 Be .& Bi) in let Ake1 := Be ^^ (not32 Bi .& Bo) in
      let Abi1 := Bi ^^ (not32 Bo .& Bu) in let Amo1 := Bo ^^ (not32 Bu .& Ba) in
      let Agu0 := Bu ^^ (not32 Ba .& Be) in let Bi := ROL32 (Asa0 ^^ Da0) 1 in let Bo := ROL32 (Ake0 ^^ De0) 22 in
      let Bu := ROL32 (Abi0 ^^ Di0) 30 in let Ba := ROL32 (Amo0 ^^ Do1) 14 in let Be := ROL32 (Agu1 ^^ Du1) 10 in
      let Asa0 := Ba ^^ (not32 Be .& Bi) in let Ake0 := Be ^^ (not32 Bi .& Bo) in
      let Abi0 := Bi ^^ (not32 Bo .& Bu) in let Amo0 := Bo ^^ (not32 Bu .& Ba) in
      let Agu1 := Bu ^^ (not32 Ba .& Be) in let Bu := ROL32 (Ama1 ^^ Da0) 9 in let Ba := ROL32 (Age1 ^^ De1) 1 in
      let Be := ROL32 (Asi1 ^^ Di0) 3 in let Bi := ROL32 (Ako0 ^^ Do1) 13 in let Bo := ROL32 (Abu1 ^^ Du0) 4 in
      let Ama1 := Ba ^^ (not32 Be .& Bi) in let Age1 := Be ^^ (not32 Bi .& Bo) in
      let Asi1 := Bi ^^ (not32 Bo .& Bu) in let Ako0 := Bo ^^ (not32 Bu .& Ba) in
      let Abu1 := Bu ^^ (not32 Ba .& Be) in let Bu := ROL32 (Ama0 ^^ Da1) 9 in let Ba := Age0 ^^ De0 in
      let Be := ROL32 (Asi0 ^^ Di1) 3 in let Bi := ROL32 (Ako1 ^^ Do0) 12 in let Bo := ROL32 (Abu0 ^^ Du1) 4 in
      let Ama0 := Ba ^^ (not32 Be .& Bi) in let Age0 := Be ^^ (not32 Bi .& Bo) in
      let Asi0 := Bi ^^ (not32 Bo .& Bu) in let Ako1 := Bo ^^ (not32 Bu .& Ba) in
      let Abu0 := Bu ^^ (not32 Ba .& Be) in let Be := ROL32 (Aka1 ^^ Da0) 18 in let Bi := ROL32 (Abe1 ^^ De0) 5 in
      let Bo := ROL32 (Ami0 ^^ Di1) 8 in let Bu := ROL32 (Ago1 ^^ Do0) 28 in let Ba := ROL32 (Asu1 ^^ Du1) 14 in
      let Aka1 := Ba ^^ (not32 Be .& Bi) in let Abe1 := Be ^^ (not32 Bi .& Bo) in
      let Ami0 := Bi ^^ (not32 Bo .& Bu) in let Ago1 := Bo ^^ (not32 Bu .& Ba) in
      let Asu1 := Bu ^^ (not32 Ba .& Be) in let Be := ROL32 (Aka0 ^^ Da1) 18 in let Bi := ROL32 (Abe0 ^^ De1) 5 in
      let Bo := ROL32 (Ami1 ^^ Di0) 7 in let Bu := ROL32 (Ago0 ^^ Do1) 28 in let Ba := ROL32 (Asu0 ^^ Du0) 13 in
      let Aka0 := Ba ^^ (not32 Be .& Bi) in let Abe0 := Be ^^ (not32 Bi .& Bo) in
      let Ami1 := Bi ^^ (not32 Bo .& Bu) in let Ago0 := Bo ^^ (not32 Bu .& Ba) in
      let Asu0 := Bu ^^ (not32 Ba .& Be) in let Bo := ROL32 (Aga1 ^^ Da1) 21 in let Bu := ROL32 (Ase0 ^^ De0) 1 in
      let Ba := ROL32 (Aki1 ^^ Di0) 31 in let Be := ROL32 (Abo1 ^^ Do1) 28 in let Bi := ROL32 (Amu1 ^^ Du1) 20 in
      let Aga1 := Ba ^^ (not32 Be .& Bi) in let Ase0 := Be ^^ (not32 Bi .& Bo) in
      let Aki1 := Bi ^^ (not32 Bo .& Bu) in let Abo1 := Bo ^^ (not32 Bu .& Ba) in
      let Amu1 := Bu ^^ (not32 Ba .& Be) in let Bo := ROL32 (Aga0 ^^ Da0) 20 in let Bu := ROL32 (Ase1 ^^ De1) 1 in
      let Ba := ROL32 (Aki0 ^^ Di1) 31 in let Be := ROL32 (Abo0 ^^ Do0) 27 in let Bi := ROL32 (Amu0 ^^ Du0) 19 in
      let Aga0 := Ba ^^ (not32 Be .& Bi) in let Ase1 := Be ^^ (not32 Bi .& Bo) in
      let Aki0 := Bi ^^ (not32 Bo .& Bu) in let Abo0 := Bo ^^ (not32 Bu .& Ba) in
      let Amu0 := Bu ^^ (not32 Ba .& Be) in
      [Aba0; Aba1; Abe0; Abe1; Abi0; Abi1; Abo0; Abo1; Abu0; Abu1;
     Aga0; Aga1; Age0; Age1; Agi0; Agi1; Ago0; Ago1; Agu0; Agu1;
     Aka0; Aka1; Ake0; Ake1; Aki0; Aki1; Ako0; Ako1; Aku0; Aku1;
     Ama0; Ama1; Ame0; Ame1; Ami0; Ami1; Amo0; Amo1; Amu0; Amu1;
     Asa0; Asa1; Ase0; Ase1; Asi0; Asi1; Aso0; Aso1; Asu0; Asu1]
  | _ => A
  end.

Definition KeccakRound2 (pRC : Z) (A : list Z) : list Z :=
  match A with
  | [Aba0; Aba1; Abe0; Abe1; Abi0; Abi1; Abo0; Abo1; Abu0; Abu1;
     Aga0; Aga1; Age0; Age1; Agi0; Agi1; Ago0; Ago1; Agu0; Agu1;
     Aka0; Aka1; Ake0; Ake1; Aki0; Aki1; Ako0; Ako1; Aku0; Aku1;
     Ama0; Ama1; Ame0; Ame1; Ami0; Ami1; Amo0; Amo1; Amu0; Amu1;
     Asa0; Asa1; Ase0; Ase1; Asi0; Asi1; Aso0; Aso1; Asu0; Asu1] =>
      let Cx := Aku1 ^^ Agu0 ^^ Abu1 ^^ Asu1 ^^ Amu1 in let Du1 := Ame0 ^^ Ake0 ^^ Age0 ^^ Abe0 ^^ Ase1 in
      let Da0 := Cx ^^ ROL32 Du1 1 in let Cz := Aku0 ^^ Agu1 ^^ Abu0 ^^ Asu0 ^^ Amu0 in
      let Du0 := Ame1 ^^ Ake1 ^^ Age1 ^^ Abe1 ^^ Ase0 in let Da1 := Cz ^^ Du0 in
      let Cw := Agi1 ^^ Abi1 ^^ Asi1 ^^ Ami0 ^^ Aki1 in let Do0 := Cw ^^ ROL32 Cz 1 in
      let Cy := Agi0 ^^ Abi0 ^^ Asi0 ^^ Ami1 ^^ Aki0 in let Do1 := Cy ^^ Cx in
      let Cx := Aba0 ^^ Asa1 ^^ Ama1 ^^ Aka1 ^^ Aga1 in let De0 := Cx ^^ ROL32 Cy 1 in
      let Cz := Aba1 ^^ Asa0 ^^ Ama0 ^^ Aka0 ^^ Aga0 in let De1 := Cz ^^ Cw in
      let Cy := Aso0 ^^ Amo0 ^^ Ako1 ^^ Ago0 ^^ Abo0 in let Di0 := Du0 ^^ ROL32 Cy 1 in
      let Cw := Aso1 ^^ Amo1 ^^ Ako0 ^^ Ago1 ^^ Abo1 in let Di1 := Du1 ^^ Cw in let Du0 := Cw ^^ ROL32 Cz 1 in
      let Du1 := Cy ^^ Cx in let Ba := Aba0 ^^ Da0 in let Be := ROL32 (Ake1 ^^ De0) 22 in
      let Bi := ROL32 (Asi0 ^^ Di1) 22 in let Bo := ROL32 (Ago0 ^^ Do1) 11 in let Bu := ROL32 (Amu1 ^^ Du0) 7 in
      let Aba0 := Ba ^^ (not32 Be .& Bi) in let Aba0 := Aba0 ^^ rd KeccakF1600RoundConstants_int2 pRC in
      let Ake1 := Be ^^ (not32 Bi .& Bo) in let Asi0 := Bi ^^ (not32 Bo .& Bu) in
      let Ago0 := Bo ^^ (not32 Bu .& Ba) in let Amu1 := Bu ^^ (not32 Ba .& Be) in let Ba := Aba1 ^^ Da1 in
      let Be := ROL32 (Ake0 ^^ De1) 22 in let Bi := ROL32 (Asi1 ^^ Di0) 21 in let Bo := ROL32 (Ago1 ^^ Do0) 10 in
      let Bu := ROL32 (Amu0 ^^ Du1) 7 in let Aba1 := Ba ^^ (not32 Be .& Bi) in
      let Aba1 := Aba1 ^^ rd KeccakF1600RoundConstants_int2 (pRC + 1) in let Ake0 := Be ^^ (not32 Bi .& Bo) in
      let Asi1 := Bi ^^ (not32 Bo .& Bu) in let Ago1 := Bo ^^ (not32 Bu .& Ba) in
      let Amu0 := Bu ^^ (not32 Ba .& Be) in let Bi := ROL32 (Ama0 ^^ Da1) 2 in let Bo := ROL32 (Abe0 ^^ De1) 23 in
      let Bu := ROL32 (Aki0 ^^ Di1) 31 in let Ba := ROL32 (Aso1 ^^ Do0) 14 in let Be := ROL32 (Agu0 ^^ Du0) 10 in
      let Ama0 := Ba ^^ (not32 Be .& Bi) in let Abe0 := Be ^^ (not32 Bi .& Bo) in
      let Aki0 := Bi ^^ (not32 Bo .& Bu) in let Aso1 := Bo ^^ (not32 Bu .& Ba) in
      let Agu0 := Bu ^^ (not32 Ba .& Be) in let Bi := ROL32 (Ama1 ^^ Da0) 1 in let Bo := ROL32 (Abe1 ^^ De0) 22 in
      let Bu := ROL32 (Aki1 ^^ Di0) 30 in let Ba := ROL32 (Aso0 ^^ Do1) 14 in let Be := ROL32 (Agu1 ^^ Du1) 10 in
      let Ama1 := Ba ^^ (not32 Be .& Bi) in let Abe1 := Be ^^ (not32 Bi .& Bo) in
      let Aki1 := Bi ^^ (not32 Bo .& Bu) in let Aso0 := Bo ^^ (not32 Bu .& Ba) in
      let Agu1 := Bu ^^ (not32 Ba .& Be) in let Bu := ROL32 (Aga1 ^^ Da0) 9 in let Ba := ROL32 (Ame0 ^^ De1) 1 in
      let Be := ROL32 (Abi1 ^^ Di0) 3 in let Bi := ROL32 (Ako1 ^^ Do1) 13 in let Bo := ROL32 (Asu1 ^^ Du0) 4 in
      let Aga1 := Ba ^^ (not32 Be .& Bi) in let Ame0 := Be ^^ (not32 Bi .& Bo) in
      let Abi1 := Bi ^^ (not32 Bo .& Bu) in let Ako1 := Bo ^^ (not32 Bu .& Ba) in
      let Asu1 := Bu ^^ (not32 Ba .& Be) in let Bu := ROL32 (Aga0 ^^ Da1) 9 in let Ba := Ame1 ^^ De0 in
      let Be := ROL32 (Abi0 ^^ Di1) 3 in let Bi := ROL32 (Ako0 ^^ Do0) 12 in let Bo := ROL32 (Asu0 ^^ Du1) 4 in
      let Aga0 := Ba ^^ (not32 Be .& Bi) in let Ame1 := Be ^^ (not32 Bi .& Bo) in
      let Abi0 := Bi ^^ (not32 Bo .& Bu) in let Ako0 := Bo ^^ (not32 Bu .& Ba) in
      let Asu0 := Bu ^^ (not32 Ba .& Be) in let Be := ROL32 (Asa1 ^^ Da0) 18 in let Bi := ROL32 (Age1 ^^ De0) 5 in
      let Bo := ROL32 (Ami1 ^^ Di1) 8 in let Bu := ROL32 (Abo1 ^^ Do0) 28 in let Ba := ROL32 (Aku0 ^^ Du1) 14 in
      let Asa1 := Ba ^^ (not32 Be .& Bi) in let Age1 := Be ^^ (not32 Bi .& Bo) in
      let Ami1 := Bi ^^ (not32 Bo .& Bu) in let Abo1 := Bo ^^ (not32 Bu .& Ba) in
      let Aku0 := Bu ^^ (not32 Ba .& Be) in let Be := ROL32 (Asa0 ^^ Da1) 18 in let Bi := ROL32 (Age0 ^^ De1) 5 in
      let Bo := ROL32 (Ami0 ^^ Di0) 7 in let Bu := ROL32 (Abo0 ^^ Do1) 28 in let Ba := ROL32 (Aku1 ^^ Du0) 13 in
      let Asa0 := Ba ^^ (not32 Be .& Bi) in let Age0 := Be ^^ (not32 Bi .& Bo) in
      let Ami0 := Bi ^^ (not32 Bo .& Bu) in let Abo0 := Bo ^^ (not32 Bu .& Ba) in
      let Aku1 := Bu ^^ (not32 Ba .& Be) in let Bo := ROL32 (Aka0 ^^ Da1) 21 in let Bu := ROL32 (Ase0 ^^ De0) 1 in
      let Ba := ROL32 (Agi1 ^^ Di0) 31 in let Be := ROL32 (Amo0 ^^ Do1) 28 in let Bi := ROL32 (Abu0 ^^ Du1) 20 in
      let Aka0 := Ba ^^ (not32 Be .& Bi) in let Ase0 := Be ^^ (not32 Bi .& Bo) in
      let Agi1 := Bi ^^ (not32 Bo .& Bu) in let Amo0 := Bo ^^ (not32 Bu .& Ba) in
      let Abu0 := Bu ^^ (not32 Ba .& Be) in let Bo := ROL32 (Aka1 ^^ Da0) 20 in let Bu := ROL32 (Ase1 ^^ De1) 1 in
      let Ba := ROL32 (Agi0 ^^ Di1) 31 in let Be := ROL32 (Amo1 ^^ Do0) 27 in let Bi := ROL32 (Abu1 ^^ Du0) 19 in
      let Aka1 := Ba ^^ (not32 Be .& Bi) in let Ase1 := Be ^^ (not32 Bi .& Bo) in
      let Agi0 := Bi ^^ (not32 Bo .& Bu) in let Amo1 := Bo ^^ (not32 Bu .& Ba) in
      let Abu1 := Bu ^^ (not32 Ba .& Be) in
      [Aba0; Aba1; Abe0; Abe1; Abi0; Abi1; Abo0; Abo1; Abu0; Abu1;
     Aga0; Aga1; Age0; Age1; Agi0; Agi1; Ago0; Ago1; Agu0; Agu1;
     Aka0; Aka1; Ake0; Ake1; Aki0; Aki1; Ako0; Ako1; Aku0; Aku1;
     Ama0; Ama1; Ame0; Ame1; Ami0; Ami1; Amo0; Amo1; Amu0; Amu1;
     Asa0; Asa1; Ase0; Ase1; Asi0; Asi1; Aso0; Aso1; Asu0; Asu1]
  | _ => A
  end.

Definition KeccakRound3 (pRC : Z) (A : list Z) : list Z :=
  match A with
  | [Aba0; Aba1; Abe0; Abe1; Abi0; Abi1; Abo0; Abo1; Abu0; Abu1;
     Aga0; Aga1; Age0; Age1; Agi0; Agi1; Ago0; Ago1; Agu0; Agu1;
     Aka0; Aka1; Ake0; Ake1; Aki0; Aki1; Ako0; Ako1; Aku0; Aku1;
     Ama0; Ama1; Ame0; Ame1; Ami0; Ami1; Amo0; Amo1; Amu0; Amu1;
     Asa0; Asa1; Ase0; Ase1; Asi0; Asi1; Aso0; Aso1; Asu0; Asu1] =>
      let Cx := Amu1 ^^ Agu0 ^^ Asu1 ^^ Aku0 ^^ Abu0 in let Du1 := Ake0 ^^ Abe1 ^^ Ame1 ^^ Age0 ^^ Ase1 in
      let Da0 := Cx ^^ ROL32 Du1 1 in let Cz := Amu0 ^^ Agu1 ^^ Asu0 ^^ Aku1 ^^ Abu1 in
      let Du0 := Ake1 ^^ Abe0 ^^ Ame0 ^^ Age1 ^^ Ase0 in let Da1 := Cz ^^ Du0 in
      let Cw := Asi0 ^^ Aki0 ^^ Abi1 ^^ Ami1 ^^ Agi1 in let Do0 := Cw ^^ ROL32 Cz 1 in
      let Cy := Asi1 ^^ Aki1 ^^ Abi0 ^^ Ami0 ^^ Agi0 in let Do1 := Cy ^^ Cx in
      let Cx := Aba0 ^^ Ama0 ^^ Aga1 ^^ Asa1 ^^ Aka0 in let De0 := Cx ^^ ROL32 Cy 1 in
      let Cz := Aba1 ^^ Ama1 ^^ Aga0 ^^ Asa0 ^^ Aka1 in let De1 := Cz ^^ Cw in
      let Cy := Ago1 ^^ Aso0 ^^ Ako0 ^^ Abo0 ^^ Amo1 in let Di0 := Du0 ^^ ROL32 Cy 1 in
      let Cw := Ago0 ^^ Aso1 ^^ Ako1 ^^ Abo1 ^^ Amo0 in let Di1 := Du1 ^^ Cw in let Du0 := Cw ^^ ROL32 Cz 1 in
      let Du1 := Cy ^^ Cx in let Ba := Aba0 ^^ Da0 in let Be := ROL32 (Abe0 ^^ De0) 22 in
      let Bi := ROL32 (Abi0 ^^ Di1) 22 in let Bo := ROL32 (Abo0 ^^ Do1) 11 in let Bu := ROL32 (Abu0 ^^ Du0) 7 in
      let Aba0 := Ba ^^ (not32 Be .& Bi) in let Aba0 := Aba0 ^^ rd KeccakF1600RoundConstants_int2 pRC in
      let Abe0 := Be ^^ (not32 Bi .& Bo) in let Abi0 := Bi ^^ (not32 Bo .& Bu) in
      let Abo0 := Bo ^^ (not32 Bu .& Ba) in let Abu0 := Bu ^^ (not32 Ba .& Be) in let Ba := Aba1 ^^ Da1 in
      let Be := ROL32 (Abe1 ^^ De1) 22 in let Bi := ROL32 (Abi1 ^^ Di0) 21 in let Bo := ROL32 (Abo1 ^^ Do0) 10 in
      let Bu := ROL32 (Abu1 ^^ Du1) 7 in let Aba1 := Ba ^^ (not32 Be .& Bi) in
      let Aba1 := Aba1 ^^ rd KeccakF1600RoundConstants_int2 (pRC + 1) in let Abe1 := Be ^^ (not32 Bi .& Bo) in
      let Abi1 := Bi ^^ (not32 Bo .& Bu) in let Abo1 := Bo ^^ (not32 Bu .& Ba) in
      let Abu1 := Bu ^^ (not32 Ba .& Be) in let Bi := ROL32 (Aga0 ^^ Da1) 2 in let Bo := ROL32 (Age0 ^^ De1) 23 in
      let Bu := ROL32 (Agi0 ^^ Di1) 31 in let Ba := ROL32 (Ago0 ^^ Do0) 14 in let Be := ROL32 (Agu0 ^^ Du0) 10 in
      let Aga0 := Ba ^^ (not32 Be .& Bi) in let Age0 := Be ^^ (not32 Bi .& Bo) in
      let Agi0 := Bi ^^ (not32 Bo .& Bu) in let Ago0 := Bo ^^ (not32 Bu .& Ba) in
      let Agu0 := Bu ^^ (not32 Ba .& Be) in let Bi := ROL32 (Aga1 ^^ Da0) 1 in let Bo := ROL32 (Age1 ^^ De0) 22 in
      let Bu := ROL32 (Agi1 ^^ Di0) 30 in let Ba := ROL32 (Ago1 ^^ Do1) 14 in let Be := ROL32 (Agu1 ^^ Du1) 10 in
      let Aga1 := Ba ^^ (not32 Be .& Bi) in let Age1 := Be ^^ (not32 Bi .& Bo) in
      let Agi1 := Bi ^^ (not32 Bo .& Bu) in let Ago1 := Bo ^^ (not32 Bu .& Ba) in
      let Agu1 := Bu ^^ (not32 Ba .& Be) in let Bu := ROL32 (Aka0 ^^ Da0) 9 in let Ba := ROL32 (Ake0 ^^ De1) 1 in
      let Be := ROL32 (Aki0 ^^ Di0) 3 in let Bi := ROL32 (Ako0 ^^ Do1) 13 in let Bo := ROL32 (Aku0 ^^ Du0) 4 in
      let Aka0 := Ba ^^ (not32 Be .& Bi) in let Ake0 := Be ^^ (not32 Bi .& Bo) in
      let Aki0 := Bi ^^ (not32 Bo .& Bu) in let Ako0 := Bo ^^ (not32 Bu .& Ba) in
      let Aku0 := Bu ^^ (not32 Ba .& Be) in let Bu := ROL32 (Aka1 ^^ Da1) 9 in let Ba := Ake1 ^^ De0 in
      let Be := ROL32 (Aki1 ^^ Di1) 3 in let Bi := ROL32 (Ako1 ^^ Do0) 12 in let Bo := ROL32 (Aku1 ^^ Du1) 4 in
      let Aka1 := Ba ^^ (not32 Be .& Bi) in let Ake1 := Be ^^ (not32 Bi .& Bo) in
      let Aki1 := Bi ^^ (not32 Bo .& Bu) in let Ako1 := Bo ^^ (not32 Bu .& Ba) in
      let Aku1 := Bu ^^ (not32 Ba .& Be) in let Be := ROL32 (Ama0 ^^ Da0) 18 in let Bi := ROL32 (Ame0 ^^ De0) 5 in
      let Bo := ROL32 (Ami0 ^^ Di1) 8 in let Bu := ROL32 (Amo0 ^^ Do0) 28 in let Ba := ROL32 (Amu0 ^^ Du1) 14 in
      let Ama0 := Ba ^^ (not32 Be .& Bi) in let Ame0 := Be ^^ (not32 Bi .& Bo) in
      let Ami0 := Bi ^^ (not32 Bo .& Bu) in let Amo0 := Bo ^^ (not32 Bu .& Ba) in
      let Amu0 := Bu ^^ (not32 Ba .& Be) in let Be := ROL32 (Ama1 ^^ Da1) 18 in let Bi := ROL32 (Ame1 ^^ De1) 5 in
      let Bo := ROL32 (Ami1 ^^ Di0) 7 in let Bu := ROL32 (Amo1 ^^ Do1) 28 in let Ba := ROL32 (Amu1 ^^ Du0) 13 in
      let Ama1 := Ba ^^ (not32 Be .& Bi) in let Ame1 := Be ^^ (not32 Bi .& Bo) in
      let Ami1 := Bi ^^ (not32 Bo .& Bu) in let Amo1 := Bo ^^ (not32 Bu .& Ba) in
      let Amu1 := Bu ^^ (not32 Ba .& Be) in let Bo := ROL32 (Asa0 ^^ Da1) 21 in let Bu := ROL32 (Ase0 ^^ De0) 1 in
      let Ba := ROL32 (Asi0 ^^ Di0) 31 in let Be := ROL32 (Aso0 ^^ Do1) 28 in let Bi := ROL32 (Asu0 ^^ Du1) 20 in
      let Asa0 := Ba ^^ (not32 Be .& Bi) in let Ase0 := Be ^^ (not32 Bi .& Bo) in
      let Asi0 := Bi ^^ (not32 Bo .& Bu) in let Aso0 := Bo ^^ (not32 Bu .& Ba) in
      let Asu0 := Bu ^^ (not32 Ba .& Be) in let Bo := ROL32 (Asa1 ^^ Da0) 20 in let Bu := ROL32 (Ase1 ^^ De1) 1 in
      let Ba := ROL32 (Asi1 ^^ Di1) 31 in let Be := ROL32 (Aso1 ^^ Do0) 27 in let Bi := ROL32 (Asu1 ^^ Du0) 19 in
      let Asa1 := Ba ^^ (not32 Be .& Bi) in let Ase1 := Be ^^ (not32 Bi .& Bo) in
      let Asi1 := Bi ^^ (not32 Bo .& Bu) in let Aso1 := Bo ^^ (not32 Bu .& Ba) in
      let Asu1 := Bu ^^ (not32 Ba .& Be) in
      [Aba0; Aba1; Abe0; Abe1; Abi0; Abi1; Abo0; Abo1; Abu0; Abu1;
     Aga0; Aga1; Age0; Age1; Agi0; Agi1; Ago0; Ago1; Agu0; Agu1;
     Aka0; Aka1; Ake0; Ake1; Aki0; Aki1; Ako0; Ako1; Aku0; Aku1;
     Ama0; Ama1; Ame0; Ame1; Ami0; Ami1; Amo0; Amo1; Amu0; Amu1;
     Asa0; Asa1; Ase0; Ase1; Asi0; Asi1; Aso0; Aso1; Asu0; Asu1]
  | _ => A
  end.

(** The macros of the preparation; an address is an index. *)
Definition SwapPI13 (in0 in1 in2 in3 eo0 eo1 eo2 eo3 : Z) (A : list Z) : list Z :=
  let I0 := rd A in0 in let I1 := rd A (in0 + 1) in
  let T0 := rd A in1 in let T1 := rd A (in1 + 1) in
  let A := upd (in0 + (eo0 ^^ 1)) T1 (upd (in0 + eo0) T0 A) in
  let T0 := rd A in2 in let T1 := rd A (in2 + 1) in
  let A := upd (in1 + (eo1 ^^ 1)) T1 (upd (in1 + eo1) T0 A) in
  let T0 := rd A in3 in let T1 := rd A (in3 + 1) in
  let A := upd (in2 + (eo2 ^^ 1)) T1 (upd (in2 + eo2) T0 A) in
  upd (in3 + (eo3 ^^ 1)) I1 (upd (in3 + eo3) I0 A).

Definition SwapPI2 (in0 in1 in2 in3 : Z) (A : list Z) : list Z :=
  let I0 := rd A in0 in let I1 := rd A (in0 + 1) in
  let T0 := rd A in1 in let T1 := rd A (in1 + 1) in
  let A := upd in0 T1 (upd (in0 + 1) T0 A) in
  let A := upd in1 I1 (upd (in1 + 1) I0 A) in
  let I0 := rd A in2 in let I1 := rd A (in2 + 1) in
  let T0 := rd A in3 in let T1 := rd A (in3 + 1) in
  let A := upd in2 T1 (upd (in2 + 1) T0 A) in
  upd in3 I1 (upd (in3 + 1) I0 A).

Definition SwapEO (even odd : Z) (A : list Z) : list Z :=
  let T0 := rd A even in
  let A := upd even (rd A odd) A in
  upd odd T0 A.

(** The lanes where a first turn of fewer than four rounds expects them. *)
Definition enter_rounds (nRounds : Z) (A : list Z) : list Z :=
  if nRounds =? 1 then
    let A := SwapPI13 10 20 40 30 1 0 1 0 A in
    let A := SwapPI13 2 12 32 22 0 1 0 1 A in
    let A := SwapPI13 4 24 14 44 1 0 1 0 A in
    let A := SwapEO 34 35 A in
    let A := SwapPI13 6 36 46 16 1 0 1 0 A in
    let A := SwapEO 26 27 A in
    let A := SwapPI13 8 48 28 38 0 1 0 1 A in
    A
  else if nRounds =? 2 then
    let A := SwapPI2 10 40 20 30 A in
    let A := SwapPI2 2 32 12 22 A in
    let A := SwapPI2 4 14 24 44 A in
    let A := SwapPI2 6 46 16 36 A in
    let A := SwapPI2 8 28 38 48 A in
    A
  else if nRounds =? 3 then
    let A := SwapPI13 10 30 40 20 0 1 0 1 A in
    let A := SwapPI13 2 22 32 12 1 0 1 0 A in
    let A := SwapPI13 4 44 14 24 0 1 0 1 A in
    let A := SwapEO 34 35 A in
    let A := SwapPI13 6 16 46 36 0 1 0 1 A in
    let A := SwapEO 26 27 A in
    let A := SwapPI13 8 38 28 48 1 0 1 0 A in
    A
  else A.

(** [switch (nRounds)] of the loop, which falls through: the index after it and the state. *)
Definition round_turn (nRounds pRC : Z) (A : list Z) : Z * list Z :=
  let '(pRC, A) := if nRounds =? 0 then (pRC + 2, KeccakRound0 pRC A) else (pRC, A) in
  let '(pRC, A) := if (nRounds =? 0) || (nRounds =? 3) then (pRC + 2, KeccakRound1 pRC A) else (pRC, A) in
  let '(pRC, A) := if negb (nRounds =? 1) then (pRC + 2, KeccakRound2 pRC A) else (pRC, A) in
  (pRC + 2, KeccakRound3 pRC A).

(** The [do] loop, to the end mark of the table. *)
Fixpoint round_loop (fuel : nat) (nRounds pRC : Z) (A : list Z) : option (list Z) :=
  match fuel with
  | O => None
  | S fuel =>
      let '(pRC, A) := round_turn nRounds pRC A in
      if rd KeccakF1600RoundConstants_int2 pRC =? 0xFF then Some A else round_loop fuel 0 pRC A
  end.

Definition KeccakP1600_Permute_Nrounds (nRounds : Z) (A : list Z) : option (list Z) :=
  let pRC := (24 - nRounds) * 2 in
  let nRounds := nRounds .& 3 in
  round_loop 7 nRounds pRC (enter_rounds nRounds A).

Definition KeccakP1600_Permute_12rounds : list Z -> option (list Z) := KeccakP1600_Permute_Nrounds 12.
Definition KeccakP1600_Permute_24rounds : list Z -> option (list Z) := KeccakP1600_Permute_Nrounds 24.

(** * SHAKE256 *)

Definition XKCP_SHAKE256_RATE : Z := 136.

(** The full blocks of the input. *)
Fixpoint xkcp_absorb (n : nat) (i : Z) (in_ : bytes) (st : list Z) : option (list Z) :=
  match n with
  | O => Some st
  | S n =>
      match KeccakP1600_Permute_24rounds (KeccakP1600_AddBytes (from (i * XKCP_SHAKE256_RATE) in_) 0 XKCP_SHAKE256_RATE st) with
      | Some st => xkcp_absorb n (i + 1) in_ st
      | None => None
      end
  end.

(** The bytes written at [out]. *)
Fixpoint xkcp_squeeze (fuel : nat) (outlen : Z) (st : list Z) : option bytes :=
  match fuel with
  | O => None
  | S fuel =>
      if XKCP_SHAKE256_RATE <? outlen then
        match KeccakP1600_Permute_24rounds st with
        | Some st' =>
            match xkcp_squeeze fuel (outlen - XKCP_SHAKE256_RATE) st' with
            | Some rest => Some (KeccakP1600_ExtractBytes 0 XKCP_SHAKE256_RATE st ++ rest)
            | None => None
            end
        | None => None
        end
      else Some (KeccakP1600_ExtractBytes 0 outlen st)
  end.

Definition xkcp_shake256 (outlen : Z) (in_ : bytes) : option bytes :=
  let full := len in_ / XKCP_SHAKE256_RATE in
  let rem := len in_ mod XKCP_SHAKE256_RATE in
  match xkcp_absorb (Z.to_nat full) 0 in_ KeccakP1600_Initialize with
  | None => None
  | Some st =>
      let st := if negb (rem =? 0) then KeccakP1600_AddBytes (from (full * XKCP_SHAKE256_RATE) in_) 0 rem st else st in
      let st := KeccakP1600_AddByte 0x1F rem st in
      let st := KeccakP1600_AddByte 0x80 (XKCP_SHAKE256_RATE - 1) st in
      match KeccakP1600_Permute_24rounds st with
      | None => None
      | Some st => xkcp_squeeze (Z.to_nat (outlen / XKCP_SHAKE256_RATE + 1)) outlen st
      end
  end.

(** SHAKE256 of the empty string. *)
Example xkcp_empty : xkcp_shake256 32 [] =
  Some [0x46; 0xb9; 0xdd; 0x2b; 0x0b; 0xa8; 0x8d; 0x13; 0x23; 0x3b; 0x3f; 0xeb; 0x74; 0x3e; 0xeb; 0x24;
        0x3f; 0xcd; 0x52; 0xea; 0x62; 0xb8; 0x1b; 0x82; 0xb5; 0x0c; 0x27; 0x64; 0x6e; 0xd5; 0x76; 0x2f].
Proof. vm_compute. reflexivity. Qed.
