(* ===== verification/XkcpWords.v ===== *)
(** The words of hashs/xkcp: a 64-bit lane as its even and its odd 32 bits ([woven]), what the
    operations of a round do on such words, and the conversion between the halves of a lane and
    its interleaved words. *)

From S2P Require Import Prelude Fips202 Xkcp.

(** * Words *)

Definition word (x : Z) : Prop := 0 <= x < 2 ^ 32.

Lemma word_high x i : word x -> 32 <= i -> Z.testbit x i = false.
Proof. intros Hx. apply testbit_above; [lia | exact Hx]. Qed.

Lemma word_bits x : 0 <= x -> (forall i, 32 <= i -> Z.testbit x i = false) -> word x.
Proof. intros Hx Hb. split; [exact Hx | apply bits_below; [lia | exact Hb | exact Hx]]. Qed.

Lemma word_u32 x : word (u32 x).
Proof. apply u32_range. Qed.

Lemma word_lxor x y : word x -> word y -> word (x ^^ y).
Proof. exact (lxor_range 32 x y ltac:(lia)). Qed.

Lemma word_land_l x y : word x -> word (x .& y).
Proof.
  intros Hx. apply word_bits; [apply Z.land_nonneg; left; apply Hx |].
  intros i Hi. rewrite Z.land_spec, word_high by assumption. reflexivity.
Qed.

Lemma word_land_r x y : word y -> word (x .& y).
Proof. rewrite Z.land_comm. apply word_land_l. Qed.

Lemma word_lor x y : word x -> word y -> word (x .| y).
Proof.
  intros Hx Hy. apply word_bits; [apply Z.lor_nonneg; split; [apply Hx | apply Hy] |].
  intros i Hi. rewrite Z.lor_spec, !word_high by assumption. reflexivity.
Qed.

Lemma word_shiftr x n : word x -> 0 <= n -> word (x .>> n).
Proof.
  intros Hx Hn. apply word_bits; [apply Z.shiftr_nonneg, Hx |].
  intros i Hi. rewrite Z.shiftr_spec by lia. apply word_high; [exact Hx | lia].
Qed.

Lemma word_rol x n : word x -> 0 <= n <= 32 -> word (ROL32 x n).
Proof. intros Hx Hn. apply word_lxor; [apply word_u32 | apply word_shiftr; [exact Hx | lia]]. Qed.

(** The bits of a rotation. *)
Lemma rol32_bit x n i : word x -> 0 < n < 32 -> 0 <= i < 32 -> Z.testbit (ROL32 x n) i = Z.testbit x ((i - n) mod 32).
Proof.
  intros Hx Hn Hi. unfold ROL32. rewrite Z.lxor_spec, testbit_u32, Z.shiftl_spec, Z.shiftr_spec by lia.
  rewrite (proj2 (Z.ltb_lt i 32)), andb_true_r by lia. destruct (Z.lt_ge_cases i n).
  - rewrite Z.testbit_neg_r by lia. rewrite xorb_false_l. f_equal.
    rewrite <- (Z.mod_add (i - n) 1 32), Z.mod_small by lia. lia.
  - rewrite (word_high x (i + (32 - n)) Hx) by lia. rewrite xorb_false_r, Z.mod_small by lia. reflexivity.
Qed.

Lemma rol64_bit x n i : 0 <= x < 2 ^ 64 -> 0 < n < 64 -> 0 <= i < 64 -> Z.testbit (ROL x n) i = Z.testbit x ((i - n) mod 64).
Proof.
  intros Hx Hn Hi. unfold ROL. rewrite Z.lxor_spec, testbit_u64, Z.shiftl_spec, Z.shiftr_spec by lia.
  rewrite (proj2 (Z.ltb_lt i 64)), andb_true_r by lia. destruct (Z.lt_ge_cases i n).
  - rewrite Z.testbit_neg_r by lia. rewrite xorb_false_l. f_equal.
    rewrite <- (Z.mod_add (i - n) 1 64), Z.mod_small by lia. lia.
  - rewrite (testbit_above 64 x (i + (64 - n))) by lia. rewrite xorb_false_r, Z.mod_small by lia. reflexivity.
Qed.

Lemma rol64_high x n i : 0 <= x < 2 ^ 64 -> 0 < n < 64 -> 64 <= i -> Z.testbit (ROL x n) i = false.
Proof.
  intros Hx Hn Hi. unfold ROL. rewrite Z.lxor_spec, testbit_u64, Z.shiftr_spec by lia.
  rewrite (proj2 (Z.ltb_ge i 64)), andb_false_r by lia. apply (testbit_above 64); lia.
Qed.

(** * A lane as two words *)

(** The lane with even bits [e] and odd bits [o]. *)
Definition weave (e o : Z) : Z :=
  for_z 32 0 (fun k acc => acc .| (Z.b2z (Z.testbit e k) .<< (2 * k)) .| (Z.b2z (Z.testbit o k) .<< (2 * k + 1))) 0.

Lemma weave_bit e o i : 0 <= i -> Z.testbit (weave e o) i = (i <? 64) && Z.testbit (if Z.even i then e else o) (i / 2).
Proof.
  intros Hi. unfold weave.
  refine (for_z_inv _ (fun k acc => Z.testbit acc i = (i <? 2 * k) && Z.testbit (if Z.even i then e else o) (i / 2)) 32 0 0 _ _).
  - rewrite Z.bits_0, (proj2 (Z.ltb_ge i (2 * 0))) by lia. reflexivity.
  - intros k acc Hk IH. rewrite !Z.lor_spec, !Z.shiftl_spec, !testbit_b2z, IH by lia.
    pose proof (Zmod_even i) as Hm. destruct (Z.even i).
    + destruct (Z.ltb_spec i (2 * k)), (Z.ltb_spec i (2 * (k + 1))), (Z.eqb_spec (i - 2 * k) 0), (Z.eqb_spec (i - (2 * k + 1)) 0);
        try (exfalso; Z.to_euclidean_division_equations; lia);
        rewrite ?andb_false_r, ?andb_true_r, ?orb_false_r; cbn [andb orb]; try reflexivity.
      f_equal. Z.to_euclidean_division_equations; lia.
    + destruct (Z.ltb_spec i (2 * k)), (Z.ltb_spec i (2 * (k + 1))), (Z.eqb_spec (i - 2 * k) 0), (Z.eqb_spec (i - (2 * k + 1)) 0);
        try (exfalso; Z.to_euclidean_division_equations; lia);
        rewrite ?andb_false_r, ?andb_true_r, ?orb_false_r; cbn [andb orb]; try reflexivity.
      f_equal. Z.to_euclidean_division_equations; lia.
Qed.

Lemma weave_nonneg e o : 0 <= weave e o.
Proof.
  refine (for_z_inv _ (fun _ acc => 0 <= acc) 32 0 0 _ _); [lia |]. intros k acc Hk IH.
  assert (Hb : forall b m, 0 <= m -> 0 <= Z.b2z b .<< m) by (intros [] m Hm; apply Z.shiftl_nonneg; cbn; lia).
  apply Z.lor_nonneg. split; [apply Z.lor_nonneg; split; [exact IH |] |]; apply Hb; lia.
Qed.

Lemma weave_range e o : 0 <= weave e o < 2 ^ 64.
Proof.
  split; [apply weave_nonneg |]. apply bits_below; [lia | | apply weave_nonneg].
  intros i Hi. rewrite weave_bit, (proj2 (Z.ltb_ge i 64)) by lia. reflexivity.
Qed.

(** [x] is the lane of the words [e] and [o]. *)
Definition woven (x e o : Z) : Prop := x = weave e o /\ word e /\ word o.

Lemma woven_intro e o : word e -> word o -> woven (weave e o) e o.
Proof. intros He Ho. split; [reflexivity | split; assumption]. Qed.

(** An operation on lanes bit by bit. *)
Lemma weave_ext x e o : 0 <= x ->
  (forall i, 0 <= i -> Z.testbit x i = (i <? 64) && Z.testbit (if Z.even i then e else o) (i / 2)) -> x = weave e o.
Proof. intros Hx H. apply Z.bits_inj'. intros i Hi. rewrite weave_bit by exact Hi. apply H, Hi. Qed.

Lemma woven_xor x e o y e' o' : woven x e o -> woven y e' o' -> woven (x ^^ y) (e ^^ e') (o ^^ o').
Proof.
  intros (-> & He & Ho) (-> & He' & Ho'). split; [| split; apply word_lxor; assumption].
  apply weave_ext; [apply Z.lxor_nonneg; pose proof (weave_nonneg e o); pose proof (weave_nonneg e' o'); tauto |].
  intros i Hi. rewrite Z.lxor_spec, !weave_bit by exact Hi. destruct (i <? 64), (Z.even i); rewrite ?Z.lxor_spec; reflexivity.
Qed.

Lemma woven_andnot x e o y e' o' : woven x e o -> woven y e' o' -> woven (not64 x .& y) (not32 e .& e') (not32 o .& o').
Proof.
  intros (-> & He & Ho) (-> & He' & Ho'). split; [| split; apply word_land_r; assumption].
  apply weave_ext; [apply Z.land_nonneg; right; apply weave_nonneg |].
  intros i Hi. unfold not64, not32. rewrite Z.land_spec, Z.lxor_spec, !weave_bit by exact Hi.
  destruct (Z.ltb_spec i 64); [| rewrite !andb_false_l, andb_false_r; reflexivity].
  change 0xffffffffffffffff with (Z.ones 64). change 0xffffffff with (Z.ones 32). rewrite Z.ones_spec_low by lia.
  destruct (Z.even i); rewrite Z.land_spec, Z.lxor_spec, Z.ones_spec_low; try reflexivity;
    (split; [apply Z.div_pos | apply Z.div_lt_upper_bound]; lia).
Qed.

Lemma woven_and x e o y e' o' : woven x e o -> woven y e' o' -> woven (x .& y) (e .& e') (o .& o').
Proof.
  intros (-> & He & Ho) (-> & He' & Ho'). split; [| split; apply word_land_r; assumption].
  apply weave_ext; [apply Z.land_nonneg; right; apply weave_nonneg |].
  intros i Hi. rewrite Z.land_spec, !weave_bit by exact Hi. destruct (i <? 64), (Z.even i); rewrite ?Z.land_spec; reflexivity.
Qed.

(** Rotating by an even number rotates the words, by an odd number swaps them too. *)
Lemma woven_rol_even n x e o : 0 < n < 32 -> woven x e o -> woven (ROL x (2 * n)) (ROL32 e n) (ROL32 o n).
Proof.
  intros Hn (-> & He & Ho). pose proof (weave_range e o) as Hr.
  split; [| split; apply word_rol; (assumption || lia)]. apply weave_ext.
  - apply Z.lxor_nonneg. split; intros _; [apply Z.shiftr_nonneg; lia | apply u64_range].
  - intros i Hi. destruct (Z.ltb_spec i 64); [| apply rol64_high; lia].
    rewrite rol64_bit, weave_bit by (try apply Z.mod_pos_bound; lia).
    pose proof (Z.mod_pos_bound (i - 2 * n) 64 ltac:(lia)) as Hm. rewrite (proj2 (Z.ltb_lt _ _)) by lia.
    replace (Z.even ((i - 2 * n) mod 64)) with (Z.even i)
      by (rewrite !Zeven_mod; f_equal; Z.to_euclidean_division_equations; lia).
    destruct (Z.even i) eqn:Ev; rewrite rol32_bit by (assumption || (Z.to_euclidean_division_equations; lia)); cbn [andb]; f_equal;
      rewrite Zeven_mod in Ev; Z.to_euclidean_division_equations; lia.
Qed.

Lemma woven_rol_odd n x e o : 0 < n < 31 -> woven x e o -> woven (ROL x (2 * n + 1)) (ROL32 o (n + 1)) (ROL32 e n).
Proof.
  intros Hn (-> & He & Ho). pose proof (weave_range e o) as Hr.
  split; [| split; apply word_rol; (assumption || lia)]. apply weave_ext.
  - apply Z.lxor_nonneg. split; intros _; [apply Z.shiftr_nonneg; lia | apply u64_range].
  - intros i Hi. destruct (Z.ltb_spec i 64); [| apply rol64_high; lia].
    rewrite rol64_bit, weave_bit by (try apply Z.mod_pos_bound; lia).
    pose proof (Z.mod_pos_bound (i - (2 * n + 1)) 64 ltac:(lia)) as Hm. rewrite (proj2 (Z.ltb_lt _ _)) by lia.
    replace (Z.even ((i - (2 * n + 1)) mod 64)) with (negb (Z.even i)).
    2: { rewrite !Zeven_mod. destruct (Z.eqb_spec (i mod 2) 0), (Z.eqb_spec (((i - (2 * n + 1)) mod 64) mod 2) 0);
         try reflexivity; exfalso; Z.to_euclidean_division_equations; lia. }
    destruct (Z.even i) eqn:Ev; cbn [negb]; rewrite rol32_bit by (assumption || (Z.to_euclidean_division_equations; lia)); cbn [andb]; f_equal;
      rewrite Zeven_mod in Ev; Z.to_euclidean_division_equations; lia.
Qed.

Lemma woven_rol_1 x e o : woven x e o -> woven (ROL x 1) (ROL32 o 1) e.
Proof.
  intros (-> & He & Ho). pose proof (weave_range e o) as Hr.
  split; [| split; [apply word_rol; (assumption || lia) | exact He]]. apply weave_ext.
  - apply Z.lxor_nonneg. split; intros _; [apply Z.shiftr_nonneg; lia | apply u64_range].
  - intros i Hi. destruct (Z.ltb_spec i 64); [| apply rol64_high; lia].
    rewrite rol64_bit, weave_bit by (try apply Z.mod_pos_bound; lia).
    pose proof (Z.mod_pos_bound (i - 1) 64 ltac:(lia)) as Hm. rewrite (proj2 (Z.ltb_lt _ _)) by lia.
    replace (Z.even ((i - 1) mod 64)) with (negb (Z.even i)).
    2: { rewrite !Zeven_mod. destruct (Z.eqb_spec (i mod 2) 0), (Z.eqb_spec (((i - 1) mod 64) mod 2) 0);
         try reflexivity; exfalso; Z.to_euclidean_division_equations; lia. }
    destruct (Z.even i) eqn:Ev; cbn [negb andb]; rewrite Zeven_mod in Ev.
    + rewrite rol32_bit by (assumption || (Z.to_euclidean_division_equations; lia)). f_equal. Z.to_euclidean_division_equations; lia.
    + f_equal. Z.to_euclidean_division_equations; lia.
Qed.

(** * Interleaving *)

(** Where bit [i] comes from. *)
Definition delta_src (n m i : Z) : Z := if Z.testbit m i then i + n else if Z.testbit m (i - n) then i - n else i.

(** The two ends of an exchange are different bits of the word. *)
Definition delta_mask (n m : Z) : bool :=
  forallb (fun i => negb (Z.testbit m i && Z.testbit m (i - n)) && (negb (Z.testbit m i) || (i + n <? 32))) (seqZ 0 32).

Lemma delta_bit n m x i : word x -> 0 < n -> word m -> delta_mask n m = true -> 0 <= i < 32 ->
  Z.testbit (delta_swap n m x) i = Z.testbit x (delta_src n m i).
Proof.
  intros Hx Hn Hm Hc Hi. pose proof (forallb_seqZ _ 32 i Hc Hi) as Hci. cbn beta in Hci.
  unfold delta_swap, delta_src. rewrite !Z.lxor_spec, testbit_u32, Z.shiftl_spec by lia.
  rewrite !Z.land_spec, !Z.lxor_spec, Z.shiftr_spec by lia. rewrite (proj2 (Z.ltb_lt i 32)), andb_true_r by lia.
  destruct (Z.ltb_spec (i - n) 0).
  - rewrite !(Z.testbit_neg_r _ (i - n)) by lia. rewrite andb_false_r, xorb_false_r.
    destruct (Z.testbit m i); [rewrite andb_true_r | rewrite andb_false_r, xorb_false_r; reflexivity].
    destruct (Z.testbit x i), (Z.testbit x (i + n)); reflexivity.
  - rewrite Z.shiftr_spec by lia. replace (i - n + n) with i by lia.
    destruct (Z.testbit m i), (Z.testbit m (i - n)); try discriminate Hci;
      destruct (Z.testbit x i), (Z.testbit x (i + n)), (Z.testbit x (i - n)); reflexivity.
Qed.

Lemma delta_word n m x : word x -> 0 <= n -> word (delta_swap n m x).
Proof.
  intros Hx Hn. apply word_lxor; [apply word_lxor; [exact Hx |] | apply word_u32].
  apply word_land_l, word_lxor; [exact Hx | apply word_shiftr; assumption].
Qed.

Lemma delta_src_range n m i : delta_mask n m = true -> 0 < n -> 0 <= i < 32 -> 0 <= delta_src n m i < 32.
Proof.
  intros Hc Hn Hi. pose proof (forallb_seqZ _ 32 i Hc Hi) as Hci. cbn beta in Hci.
  apply andb_true_iff in Hci as [_ Hci]. unfold delta_src. destruct (Z.testbit m i).
  - apply Z.ltb_lt in Hci. lia.
  - destruct (Z.testbit m (i - n)) eqn:E; [| exact Hi].
    destruct (Z.ltb_spec (i - n) 0); [rewrite Z.testbit_neg_r in E by lia; discriminate | lia].
Qed.

Definition to_src (i : Z) : Z := if i <? 16 then 2 * i else 2 * (i - 16) + 1.
Definition from_src (i : Z) : Z := if Z.even i then i / 2 else i / 2 + 16.

Ltac delta_bits := rewrite !delta_bit by
  (repeat apply delta_word; repeat (apply delta_src_range; [reflexivity | lia |]); try assumption; try (split; [lia | reflexivity]); try reflexivity; try lia).

Lemma prepare_to_bit x i : word x -> 0 <= i < 32 -> Z.testbit (prepareToBitInterleaving x) i = Z.testbit x (to_src i).
Proof.
  intros Hx Hi. unfold prepareToBitInterleaving. delta_bits. f_equal.
  assert (H : forallb (fun i => delta_src 1 0x22222222 (delta_src 2 0x0C0C0C0C (delta_src 4 0x00F000F0 (delta_src 8 0x0000FF00 i)))
     =? to_src i) (seqZ 0 32) = true) by (vm_compute; reflexivity).
  apply Z.eqb_eq. exact (forallb_seqZ _ 32 i H Hi).
Qed.

Lemma prepare_from_bit x i : word x -> 0 <= i < 32 -> Z.testbit (prepareFromBitInterleaving x) i = Z.testbit x (from_src i).
Proof.
  intros Hx Hi. unfold prepareFromBitInterleaving. delta_bits. f_equal.
  assert (H : forallb (fun i => delta_src 8 0x0000FF00 (delta_src 4 0x00F000F0 (delta_src 2 0x0C0C0C0C (delta_src 1 0x22222222 i)))
     =? from_src i) (seqZ 0 32) = true) by (vm_compute; reflexivity).
  apply Z.eqb_eq. exact (forallb_seqZ _ 32 i H Hi).
Qed.

Lemma prepare_to_word x : word x -> word (prepareToBitInterleaving x).
Proof. intros Hx. unfold prepareToBitInterleaving. repeat (apply delta_word; [| lia]). exact Hx. Qed.
Lemma prepare_from_word x : word x -> word (prepareFromBitInterleaving x).
Proof. intros Hx. unfold prepareFromBitInterleaving. repeat (apply delta_word; [| lia]). exact Hx. Qed.

(** The halves of two words exchanged. *)
Definition low_halves (x y : Z) : Z := (x .& 0x0000FFFF) .| u32 (y .<< 16).
Definition high_halves (x y : Z) : Z := (x .>> 16) .| (y .& 0xFFFF0000).

Lemma low_halves_bit x y i : word x -> word y -> 0 <= i < 32 ->
  Z.testbit (low_halves x y) i = if i <? 16 then Z.testbit x i else Z.testbit y (i - 16).
Proof.
  intros Hx Hy Hi. unfold low_halves. rewrite Z.lor_spec, Z.land_spec, testbit_u32, Z.shiftl_spec by lia.
  change 0xFFFF with (Z.ones 16). rewrite (proj2 (Z.ltb_lt i 32)), andb_true_r by lia. destruct (Z.ltb_spec i 16).
  - rewrite Z.ones_spec_low, andb_true_r, (Z.testbit_neg_r y), orb_false_r by lia. reflexivity.
  - rewrite Z.ones_spec_high, andb_false_r by lia. reflexivity.
Qed.

Lemma high_halves_bit x y i : word x -> word y -> 0 <= i < 32 ->
  Z.testbit (high_halves x y) i = if i <? 16 then Z.testbit x (i + 16) else Z.testbit y i.
Proof.
  intros Hx Hy Hi. unfold high_halves. rewrite Z.lor_spec, Z.land_spec, Z.shiftr_spec by lia.
  change 0xFFFF0000 with (Z.ones 16 .<< 16). rewrite Z.shiftl_spec by lia. destruct (Z.ltb_spec i 16).
  - rewrite (Z.testbit_neg_r (Z.ones 16)), andb_false_r, orb_false_r by lia. reflexivity.
  - rewrite (word_high x) by (assumption || lia). rewrite Z.ones_spec_low, andb_true_r by lia. reflexivity.
Qed.

Lemma halves_word x y : word x -> word y -> word (low_halves x y) /\ word (high_halves x y).
Proof.
  intros Hx Hy. split; apply word_lor.
  - apply word_land_l, Hx.
  - apply word_u32.
  - apply word_shiftr; [exact Hx | lia].
  - apply word_land_l, Hy.
Qed.

(** A lane of two 32-bit halves. *)
Definition lane_of (low high : Z) : Z := low .| (high .<< 32).

Lemma lane_of_bit low high i : word low -> word high -> 0 <= i < 64 ->
  Z.testbit (lane_of low high) i = if i <? 32 then Z.testbit low i else Z.testbit high (i - 32).
Proof.
  intros Hl Hh Hi. unfold lane_of. rewrite Z.lor_spec, Z.shiftl_spec by lia. destruct (Z.ltb_spec i 32).
  - rewrite (Z.testbit_neg_r high), orb_false_r by lia. reflexivity.
  - rewrite (word_high low) by (assumption || lia). reflexivity.
Qed.

Lemma lane_of_range low high : word low -> word high -> 0 <= lane_of low high < 2 ^ 64.
Proof.
  intros Hl Hh. assert (H0 : 0 <= lane_of low high).
  { apply Z.lor_nonneg. split; [apply Hl | apply Z.shiftl_nonneg, Hh]. }
  split; [exact H0 |]. apply bits_below; [lia | | exact H0]. intros i Hi. unfold lane_of.
  rewrite Z.lor_spec, Z.shiftl_spec, !word_high by (assumption || lia). reflexivity.
Qed.

Lemma to_interleaving low high : word low -> word high ->
  let '(e, o) := toBitInterleaving low high in woven (lane_of low high) e o.
Proof.
  intros Hl Hh. pose proof (prepare_to_word _ Hl) as H0. pose proof (prepare_to_word _ Hh) as H1.
  change (woven (lane_of low high) (low_halves (prepareToBitInterleaving low) (prepareToBitInterleaving high))
            (high_halves (prepareToBitInterleaving low) (prepareToBitInterleaving high))).
  split; [| apply halves_word; assumption]. pose proof (lane_of_range _ _ Hl Hh) as Hr. apply weave_ext; [lia |].
  intros i Hi. destruct (Z.ltb_spec i 64); [| apply (testbit_above 64); lia]. rewrite lane_of_bit by (assumption || lia). cbn [andb].
  assert (Hd : 0 <= i / 2 < 32) by (Z.to_euclidean_division_equations; lia).
  destruct (Z.even i) eqn:Ev; rewrite Zeven_mod in Ev; [rewrite low_halves_bit by assumption | rewrite high_halves_bit by assumption];
    destruct (Z.ltb_spec i 32), (Z.ltb_spec (i / 2) 16); try (exfalso; Z.to_euclidean_division_equations; lia);
    rewrite prepare_to_bit by (assumption || lia); unfold to_src;
    match goal with |- context [?a <? ?b] => destruct (Z.ltb_spec a b) end; try (exfalso; Z.to_euclidean_division_equations; lia);
    f_equal; Z.to_euclidean_division_equations; lia.
Qed.

Lemma from_interleaving e o : word e -> word o ->
  let '(low, high) := fromBitInterleaving e o in lane_of low high = weave e o /\ word low /\ word high.
Proof.
  intros He Ho. destruct (halves_word _ _ He Ho) as [H0 H1].
  change (lane_of (prepareFromBitInterleaving (low_halves e o)) (prepareFromBitInterleaving (high_halves e o)) = weave e o /\
          word (prepareFromBitInterleaving (low_halves e o)) /\ word (prepareFromBitInterleaving (high_halves e o))).
  pose proof (prepare_from_word _ H0) as H2. pose proof (prepare_from_word _ H1) as H3.
  split; [| split; assumption]. pose proof (lane_of_range _ _ H2 H3) as Hr. apply weave_ext; [lia |].
  intros i Hi. destruct (Z.ltb_spec i 64); [| apply (testbit_above 64); lia]. rewrite lane_of_bit by (assumption || lia). cbn [andb].
  assert (Hd : 0 <= i / 2 < 32) by (Z.to_euclidean_division_equations; lia).
  assert (Hs : forall j, 0 <= j < 32 -> 0 <= from_src j < 32)
    by (intros j Hj; unfold from_src; destruct (Z.even j); Z.to_euclidean_division_equations; lia).
  destruct (Z.ltb_spec i 32); rewrite prepare_from_bit by (assumption || lia);
    [rewrite low_halves_bit by (apply Hs || assumption; lia) | rewrite high_halves_bit by (apply Hs || assumption; lia)];
    unfold from_src; rewrite ?Z.even_sub; destruct (Z.even i) eqn:Ev; rewrite Zeven_mod in Ev; cbn [Bool.eqb Z.even];
    match goal with |- context [?a <? ?b] => destruct (Z.ltb_spec a b) end; try (exfalso; Z.to_euclidean_division_equations; lia);
    f_equal; Z.to_euclidean_division_equations; lia.
Qed.
