(* ===== verification/XkcpRounds.v ===== *)
(** The rounds of hashs/xkcp/KeccakP-1600-inplace32BI.c are rounds of FIPS 202: each of the four
    takes the lanes from the places the one before left them in, and the permutation of [n] rounds,
    whatever [n] leaves for the first turn of its loop, is the last [n] of the 24. *)

From S2P Require Import Prelude Fips202 Xkcp XkcpWords.

(** * The rounds *)

(** Where the even and the odd word of the lanes are before round [k] of four. *)
Definition places_1 : list (Z * Z) :=
  [(0, 1); (12, 13); (25, 24); (37, 36); (48, 49); (21, 20); (33, 32); (45, 44); (6, 7); (18, 19); (40, 41); (3, 2); (14, 15);
   (27, 26); (38, 39); (10, 11); (22, 23); (35, 34); (46, 47); (9, 8); (31, 30); (42, 43); (4, 5); (17, 16); (29, 28)].
Definition places_2 : list (Z * Z) :=
  [(0, 1); (33, 32); (15, 14); (47, 46); (29, 28); (41, 40); (23, 22); (5, 4); (37, 36); (18, 19); (31, 30); (13, 12); (45, 44);
   (26, 27); (9, 8); (21, 20); (3, 2); (34, 35); (17, 16); (49, 48); (11, 10); (42, 43); (25, 24); (7, 6); (39, 38)].
Definition places_3 : list (Z * Z) :=
  [(0, 1); (23, 22); (44, 45); (16, 17); (39, 38); (30, 31); (2, 3); (24, 25); (47, 46); (18, 19); (11, 10); (32, 33); (5, 4);
   (27, 26); (49, 48); (41, 40); (13, 12); (35, 34); (7, 6); (28, 29); (20, 21); (42, 43); (15, 14); (36, 37); (8, 9)].
Definition places (k : Z) : list (Z * Z) :=
  if k =? 1 then places_1 else if k =? 2 then places_2 else if k =? 3 then places_3
  else map (fun i => (2 * i, 2 * i + 1)) (seqZ 0 25).

(** The words [A] hold the lanes [s], at the places of round [k]. *)
Definition interleaved (k : Z) (A s : list Z) : Prop :=
  length A = 50%nat /\ Forall2 (fun x '(e, o) => woven x (rd A e) (rd A o)) s (places k).

(** The words of a round constant. *)
Definition constant_at (pRC k : Z) : Prop :=
  woven (Ref.RC k) (rd KeccakF1600RoundConstants_int2 pRC) (rd KeccakF1600RoundConstants_int2 (pRC + 1)).

Lemma woven_eq x e o e' o' : woven x e o -> e = e' -> o = o' -> woven x e' o'.
Proof. intros H <- <-. exact H. Qed.

Ltac xor_ac := first [reflexivity | solve [apply Z.bits_inj'; intros ? ?; rewrite !Z.lxor_spec;
  repeat match goal with |- context [Z.testbit ?x ?i] => destruct (Z.testbit x i) end; reflexivity]].

Ltac woven_step :=
  match goal with
  | H : woven ?x _ _ |- woven ?x _ _ => exact H
  | |- woven (?a ^^ ?b ^^ ?c ^^ ?d ^^ ?e) _ _ =>
      eapply woven_eq; [do 4 (eapply woven_xor; [| eassumption]); eassumption | xor_ac | xor_ac]
  | |- woven (_ ^^ _) _ _ => apply woven_xor
  | |- woven (not64 _ .& _) _ _ => apply woven_andnot
  | |- woven (ROL _ 1) _ _ => apply woven_rol_1
  | |- woven (ROL _ ?n) _ _ =>
      let k := eval compute in (n / 2) in
      lazymatch eval compute in (Z.even n) with
      | true => apply (woven_rol_even k); [lia |]
      | false => apply (woven_rol_odd k); [lia |]
      end
  end.

(** A round on 50 words and 25 lanes. *)
Ltac round_holds :=
  lazymatch goal with Hc : constant_at ?pRC ?k, H : interleaved _ ?A ?s |- _ =>
    unfold constant_at in Hc; unfold Ref.round, Ref.iota; revert Hc;
    generalize (Ref.RC k) (rd KeccakF1600RoundConstants_int2 pRC) (rd KeccakF1600RoundConstants_int2 (pRC + 1));
    intros ? ? ? Hc; destruct H as [Hl Hf];
    do 50 (destruct A as [| ? A]; [discriminate Hl |]); destruct A; [| discriminate Hl]; clear Hl;
    cbv -[woven] in Hf;
    do 25 (apply Forall2_cons_inv_r in Hf as (? & ? & ? & Hf & ->)); apply Forall2_nil_inv_r in Hf; subst
  end;
  split; [reflexivity |];
  cbv -[Z.lxor Z.land ROL ROL32 not32 not64 woven];
  repeat (apply Forall2_cons; split); [.. | apply Forall2_nil_2];
  repeat woven_step.

Lemma round0_holds pRC k A s : constant_at pRC k -> interleaved 0 A s -> interleaved 1 (KeccakRound0 pRC A) (Ref.round s k).
Proof. unfold KeccakRound0. intros Hc H. round_holds. Qed.
Lemma round1_holds pRC k A s : constant_at pRC k -> interleaved 1 A s -> interleaved 2 (KeccakRound1 pRC A) (Ref.round s k).
Proof. unfold KeccakRound1. intros Hc H. round_holds. Qed.
Lemma round2_holds pRC k A s : constant_at pRC k -> interleaved 2 A s -> interleaved 3 (KeccakRound2 pRC A) (Ref.round s k).
Proof. unfold KeccakRound2. intros Hc H. round_holds. Qed.
Lemma round3_holds pRC k A s : constant_at pRC k -> interleaved 3 A s -> interleaved 0 (KeccakRound3 pRC A) (Ref.round s k).
Proof. unfold KeccakRound3. intros Hc H. round_holds. Qed.

(** The table of the code is the LFSR's, interleaved. *)
Lemma constants_woven k : 0 <= k < 24 -> constant_at (2 * k) k.
Proof.
  intros Hk.
  assert (H : forallb (fun k => (Ref.RC k =? weave (rd KeccakF1600RoundConstants_int2 (2 * k)) (rd KeccakF1600RoundConstants_int2 (2 * k + 1)))
     && (0 <=? rd KeccakF1600RoundConstants_int2 (2 * k)) && (rd KeccakF1600RoundConstants_int2 (2 * k) <? 2 ^ 32)
     && (0 <=? rd KeccakF1600RoundConstants_int2 (2 * k + 1)) && (rd KeccakF1600RoundConstants_int2 (2 * k + 1) <? 2 ^ 32)) (seqZ 0 24) = true)
    by (vm_compute; reflexivity).
  pose proof (forallb_seqZ _ 24 k H Hk) as H1. cbn beta in H1. rewrite !andb_true_iff, Z.eqb_eq, !Z.leb_le, !Z.ltb_lt in H1.
  unfold constant_at, woven, word. tauto.
Qed.

(** The end mark is behind the last constant and nowhere before. *)
Lemma end_mark k : 0 <= k <= 24 -> (rd KeccakF1600RoundConstants_int2 (2 * k) =? 0xFF) = (k =? 24).
Proof.
  intros Hk.
  assert (H : forallb (fun k => eqb (rd KeccakF1600RoundConstants_int2 (2 * k) =? 0xFF) (k =? 24)) (seqZ 0 25) = true)
    by (vm_compute; reflexivity).
  apply eqb_prop. exact (forallb_seqZ _ 25 k H ltac:(lia)).
Qed.

(** The preparation puts the lanes where the first turn expects them. *)
Lemma enter_holds r A s : 0 <= r < 4 -> interleaved 0 A s -> interleaved ((4 - r) mod 4) (enter_rounds r A) s.
Proof.
  intros Hr [Hl Hf].
  do 50 (destruct A as [| ? A]; [discriminate Hl |]); destruct A; [| discriminate Hl]; clear Hl. cbv -[woven] in Hf.
  do 25 (apply Forall2_cons_inv_r in Hf as (? & ? & ? & Hf & ->)); apply Forall2_nil_inv_r in Hf; subst.
  assert (Hc : r = 0 \/ r = 1 \/ r = 2 \/ r = 3) by lia.
  destruct Hc as [-> | [-> | [-> | ->]]]; (split; [reflexivity |]); cbv -[woven];
    repeat first [apply Forall2_nil_2 | apply Forall2_cons; split]; assumption.
Qed.

(** [n] rounds from round [k] on. *)
Definition rounds (n : nat) (k : Z) (s : list Z) : list Z := for_z n k (fun ir s => Ref.round s ir) s.

Lemma rounds_add n m k s : rounds (n + m) k s = rounds m (k + Z.of_nat n) (rounds n k s).
Proof.
  unfold rounds. revert k s. induction n as [| n IH]; intros k s; cbn [for_z Nat.add].
  - rewrite Z.add_0_r. reflexivity.
  - rewrite IH. f_equal. lia.
Qed.

(** A turn of the loop: four rounds, or fewer in the first one. *)
Lemma turn_holds r k A s : 0 <= r < 4 -> 0 <= k -> k + (if r =? 0 then 4 else r) <= 24 -> interleaved ((4 - r) mod 4) A s ->
  let n := if r =? 0 then 4 else r in
  exists A', round_turn r (2 * k) A = (2 * (k + n), A') /\ interleaved 0 A' (rounds (Z.to_nat n) k s).
Proof.
  intros Hr Hk Hn H.
  assert (Hc : forall p j, p = 2 * j -> 0 <= j < 24 -> constant_at p j) by (intros p j ->; apply constants_woven).
  assert (H4 : r = 0 \/ r = 1 \/ r = 2 \/ r = 3) by lia.
  destruct H4 as [-> | [-> | [-> | ->]]]; cbn [Z.eqb] in *; (eexists; split; [cbv [round_turn]; cbn [Z.eqb Pos.eqb orb negb]; f_equal; lia |]).
  - change (rounds (Z.to_nat 4) k s) with (Ref.round (Ref.round (Ref.round (Ref.round s k) (k + 1)) (k + 1 + 1)) (k + 1 + 1 + 1)).
    apply round3_holds; [apply Hc; lia |]. apply round2_holds; [apply Hc; lia |].
    apply round1_holds; [apply Hc; lia |]. apply round0_holds; [apply Hc; lia | exact H].
  - change (rounds (Z.to_nat 1) k s) with (Ref.round s k). apply round3_holds; [apply Hc; lia | exact H].
  - change (rounds (Z.to_nat 2) k s) with (Ref.round (Ref.round s k) (k + 1)).
    apply round3_holds; [apply Hc; lia |]. apply round2_holds; [apply Hc; lia | exact H].
  - change (rounds (Z.to_nat 3) k s) with (Ref.round (Ref.round (Ref.round s k) (k + 1)) (k + 1 + 1)).
    apply round3_holds; [apply Hc; lia |]. apply round2_holds; [apply Hc; lia |]. apply round1_holds; [apply Hc; lia | exact H].
Qed.

(** From a multiple of four rounds on, the loop ends at the end mark. *)
Lemma loop_holds t : forall fuel A s, (0 < t <= 6)%nat -> (t <= fuel)%nat -> interleaved 0 A s ->
  exists A', round_loop fuel 0 (2 * (24 - 4 * Z.of_nat t)) A = Some A' /\ interleaved 0 A' (rounds (4 * t) (24 - 4 * Z.of_nat t) s).
Proof.
  induction t as [| t IH]; intros fuel A s Ht Hf H; [lia |]. destruct fuel as [| fuel]; [lia |]. cbn [round_loop].
  destruct (turn_holds 0 (24 - 4 * Z.of_nat (S t)) A s) as (A1 & -> & H1); [lia | lia | cbn [Z.eqb]; lia | exact H |].
  cbn [Z.eqb] in *. rewrite end_mark by lia. destruct (Z.eqb_spec (24 - 4 * Z.of_nat (S t) + 4) 24) as [E | E].
  - exists A1. assert (t = 0%nat) as -> by lia. split; [reflexivity | exact H1].
  - destruct (IH fuel A1 _ ltac:(lia) ltac:(lia) H1) as (A' & E' & H'). exists A'.
    replace (24 - 4 * Z.of_nat (S t) + 4) with (24 - 4 * Z.of_nat t) by lia. split; [exact E' |].
    replace (4 * S t)%nat with (4 + 4 * t)%nat by lia. rewrite rounds_add.
    replace (24 - 4 * Z.of_nat (S t) + Z.of_nat 4) with (24 - 4 * Z.of_nat t) by lia. exact H'.
Qed.

Lemma permute_holds n A s : 0 < n <= 24 -> interleaved 0 A s ->
  exists A', KeccakP1600_Permute_Nrounds n A = Some A' /\ interleaved 0 A' (rounds (Z.to_nat n) (24 - n) s).
Proof.
  intros Hn H. unfold KeccakP1600_Permute_Nrounds. change 3 with (Z.ones 2). rewrite Z.land_ones by lia. change (2 ^ 2) with 4.
  pose proof (Z.mod_pos_bound n 4 ltac:(lia)) as Hr. pose proof (Z.div_mod n 4 ltac:(lia)) as Hd.
  set (r := n mod 4) in *. cbn [round_loop]. rewrite (Z.mul_comm (24 - n) 2).
  pose proof (enter_holds r A s Hr H) as H1. set (m := if r =? 0 then 4 else r).
  assert (Hm : 0 < m <= 4 /\ m <= n /\ (n - m) mod 4 = 0).
  { unfold m. destruct (Z.eqb_spec r 0); Z.to_euclidean_division_equations; lia. }
  destruct (turn_holds r (24 - n) _ s Hr ltac:(lia) ltac:(fold m; lia) H1) as (A1 & -> & H2). fold m in H2 |- *.
  rewrite end_mark by lia. destruct (Z.eqb_spec (24 - n + m) 24) as [E | E].
  - exists A1. split; [reflexivity |]. replace n with m by lia. replace (24 - m) with (24 - n) by lia. exact H2.
  - assert (Ht : exists t, n - m = 4 * Z.of_nat t /\ (0 < t <= 6)%nat).
    { exists (Z.to_nat ((n - m) / 4)). Z.to_euclidean_division_equations; lia. }
    destruct Ht as (t & Ht & Hb). destruct (loop_holds t 6 A1 _ Hb ltac:(lia) H2) as (A' & E' & H'). exists A'.
    replace (24 - n + m) with (24 - 4 * Z.of_nat t) by lia. split; [exact E' |].
    replace (Z.to_nat n) with (Z.to_nat m + 4 * t)%nat by lia. rewrite rounds_add.
    replace (24 - n + Z.of_nat (Z.to_nat m)) with (24 - 4 * Z.of_nat t) by lia. exact H'.
Qed.

(** * The permutation *)

(** The lanes of 50 words. *)
Definition lanes_of (A : list Z) : list Z := map (fun '(e, o) => weave (rd A e) (rd A o)) (places 0).

Lemma places_0_lookup j : 0 <= j < 25 -> places 0 !! Z.to_nat j = Some (2 * j, 2 * j + 1).
Proof.
  intros Hj. change (places 0) with (map (fun i => (2 * i, 2 * i + 1)) (seqZ 0 25)).
  rewrite list_lookup_fmap, lookup_seqZ_lt by lia. cbn. do 2 f_equal; lia.
Qed.

Lemma interleaved_lanes A s : interleaved 0 A s <-> length A = 50%nat /\ Forall word A /\ s = lanes_of A.
Proof.
  unfold interleaved, lanes_of. split.
  - intros [HA Hf]. split; [exact HA | split].
    + apply Forall_lookup. intros k x Hx. pose proof (lookup_lt_Some _ _ _ Hx) as Hk.
      set (j := Z.of_nat k / 2). assert (Hj : 0 <= j < 25) by (unfold j; Z.to_euclidean_division_equations; lia).
      pose proof (Forall2_lookup_r _ _ _ _ _ Hf (places_0_lookup j Hj)) as (y & _ & _ & H0 & H1).
      assert (E : Z.of_nat k = 2 * j \/ Z.of_nat k = 2 * j + 1) by (unfold j; Z.to_euclidean_division_equations; lia).
      unfold rd in H0, H1. rewrite !nth_lookup in H0, H1.
      destruct E as [E | E]; [rewrite <- E, Nat2Z.id, Hx in H0; exact H0 | rewrite <- E, Nat2Z.id, Hx in H1; exact H1].
    + clear HA. induction Hf as [| x [e o] s' l (-> & _) _ IH]; [reflexivity |]. cbn [map]. rewrite <- IH. reflexivity.
  - intros (HA & Hw & ->). split; [exact HA |]. apply Forall2_fmap_l, Forall2_same_length_lookup_2; [reflexivity |].
    intros k [e o] y H1 H2. rewrite H1 in H2. injection H2 as <-. 
    assert (Hrd : forall i, word (rd A i)).
    { intros i. unfold rd. rewrite nth_lookup. destruct (A !! Z.to_nat i) eqn:E; [exact (Forall_lookup_1 _ _ _ _ Hw E) | split; [cbn; lia | reflexivity]]. }
    apply woven_intro; apply Hrd.
Qed.
