(* ===== verification/XkcpState.v ===== *)
(** The interleaved state of hashs/xkcp is an array of 200 bytes: what each of the SnP functions does
    to its 50 words is, on the bytes, the write, the read or the permutation its name promises, over
    any sequence of calls. *)

From S2P Require Import Prelude Fips202 Xkcp XkcpWords XkcpRounds.


(** The lane of the bytes [b (8j) .. b (8j + 7)]. *)
Definition lane_at (b : Z -> Z) (j : Z) : Z := load64 (map (fun k => b (8 * j + k)) (seqZ 0 8)).

Lemma load64_nonneg x : 0 <= load64 x.
Proof.
  refine (for_z_inv _ (fun _ r => 0 <= r) 8 0 0 _ _); [lia |]. intros k r _ Hr.
  apply Z.lor_nonneg. split; [exact Hr | apply u64_range].
Qed.

Lemma load64_bit x i : Forall is_byte x -> 0 <= i ->
  Z.testbit (load64 x) i = (i <? 64) && Z.testbit (rd x (i / 8)) (i mod 8).
Proof.
  intros Hb Hi.
  assert (H : Z.testbit (load64 x) i = (i <? 8 * 8) && (i <? 64) && Z.testbit (rd x (i / 8)) (i mod 8)).
  2: { rewrite H. change (8 * 8) with 64. destruct (i <? 64); reflexivity. }
  refine (for_z_inv _ (fun k r => Z.testbit r i = (i <? 8 * k) && (i <? 64) && Z.testbit (rd x (i / 8)) (i mod 8)) 8 0 0 _ _).
  - rewrite Z.bits_0, (proj2 (Z.ltb_ge i (8 * 0))) by lia. reflexivity.
  - intros k r Hk IH. rewrite Z.lor_spec, IH, testbit_u64, Z.shiftl_spec by exact Hi.
    destruct (Z.ltb_spec i 64); [| rewrite !andb_false_r; reflexivity]. rewrite !andb_true_r.
    destruct (Z.ltb_spec i (8 * k)), (Z.ltb_spec i (8 * (k + 1))); try (exfalso; lia); cbn [andb orb].
    + destruct (Z.testbit (rd x (i / 8)) (i mod 8)); [reflexivity |]. apply Z.testbit_neg_r. lia.
    + f_equal; [f_equal |]; Z.to_euclidean_division_equations; lia.
    + apply (testbit_above 8); [lia | apply (rd_byte x k Hb) | lia].
Qed.

Lemma rd_lane (f : Z -> Z) d : 0 <= d < 8 -> rd (map f (seqZ 0 8)) d = f d.
Proof.
  intros Hd. assert (H8 : d = 0 \/ d = 1 \/ d = 2 \/ d = 3 \/ d = 4 \/ d = 5 \/ d = 6 \/ d = 7) by lia.
  repeat destruct H8 as [-> | H8]; subst; reflexivity.
Qed.

Lemma load64_ext x y : (forall k, 0 <= k < 8 -> rd x k = rd y k) -> load64 x = load64 y.
Proof. intros H. unfold load64. cbn [for_z]. rewrite !H by lia. reflexivity. Qed.

Definition byte_fun (b : Z -> Z) : Prop := forall k, is_byte (b k).

Lemma lane_bytes_ok b j : byte_fun b -> Forall is_byte (map (fun k => b (8 * j + k)) (seqZ 0 8)).
Proof. intros Hb. apply Forall_map, Forall_forall. intros k _. apply Hb. Qed.

Lemma lane_at_bit b j i : byte_fun b -> 0 <= i ->
  Z.testbit (lane_at b j) i = (i <? 64) && Z.testbit (b (8 * j + i / 8)) (i mod 8).
Proof.
  intros Hb Hi. unfold lane_at. rewrite load64_bit by (apply lane_bytes_ok || assumption; assumption).
  destruct (Z.ltb_spec i 64); [| reflexivity]. do 2 f_equal.
  assert (Hd : 0 <= i / 8 < 8) by (Z.to_euclidean_division_equations; lia).
  rewrite rd_lane by exact Hd. reflexivity.
Qed.

Lemma lane_at_ext b b' j : (forall k, 8 * j <= k < 8 * j + 8 -> b k = b' k) -> lane_at b j = lane_at b' j.
Proof.
  intros H. unfold lane_at. f_equal. apply map_ext_in. intros k Hk.
  apply H. apply list_elem_of_In, elem_of_seqZ in Hk. lia.
Qed.

(** The bytes of a buffer, zeros behind it. *)
Lemma lane_at_from x j : 0 <= j -> lane_at (rd x) j = load64 (from (8 * j) x).
Proof.
  intros Hj. apply load64_ext. intros k Hk. rewrite rd_lane, rd_from by lia. reflexivity.
Qed.

(** The two words a lane is loaded as. *)
Lemma load32_word x i : Forall is_byte x -> word (XKCP_load32 x i).
Proof.
  intros Hb. assert (Hs : forall k n, 0 <= n <= 24 -> word (rd x k .<< n)).
  { intros k n Hn. pose proof (rd_byte x k Hb) as Hk. apply word_bits; [apply Z.shiftl_nonneg, Hk |].
    intros m Hm. rewrite Z.shiftl_spec by lia. apply (testbit_above 8); [lia | exact Hk | lia]. }
  unfold XKCP_load32. rewrite <- (Z.shiftl_0_r (rd x i)). repeat apply word_lor; apply Hs; lia.
Qed.

Lemma load32_lane x j : Forall is_byte x -> 0 <= j -> lane_of (XKCP_load32 x (8 * j)) (XKCP_load32 x (8 * j + 4)) = lane_at (rd x) j.
Proof.
  intros Hb Hj. unfold lane_of, XKCP_load32, lane_at, load64. cbn [for_z].
  assert (Hs : forall k n, 0 <= n <= 56 -> u64 (rd x k .<< n) = rd x k .<< n).
  { intros k n Hn. apply u64_small. pose proof (rd_byte x k Hb) as Hk. rewrite Z.shiftl_mul_pow2 by lia.
    pose proof (Z.pow_le_mono_r 2 n 56 ltac:(lia) ltac:(lia)). unfold is_byte in Hk. nia. }
  rewrite !rd_lane, !Hs by lia. rewrite Z.add_0_r. rewrite !Z.shiftl_lor, !Z.shiftl_shiftl by lia. rewrite Z.shiftl_0_r, Z.lor_0_l, !Z.lor_assoc.
  replace (8 * j + 4 + 1) with (8 * j + 5) by lia. replace (8 * j + 4 + 2) with (8 * j + 6) by lia.
  replace (8 * j + 4 + 3) with (8 * j + 7) by lia. reflexivity.
Qed.


(** * Bytes xored into the state *)

(** * The bytes of a lane *)

Definition byte_of (x m : Z) : Z := u8 (x .>> (8 * m)).

Lemma byte_of_bit x m i : 0 <= m -> 0 <= i -> Z.testbit (byte_of x m) i = Z.testbit x (i + 8 * m) && (i <? 8).
Proof. intros Hm Hi. unfold byte_of. rewrite testbit_u8, Z.shiftr_spec by exact Hi. reflexivity. Qed.

Lemma byte_of_xor x y m : 0 <= m -> byte_of (x ^^ y) m = byte_of x m ^^ byte_of y m.
Proof.
  intros Hm. apply Z.bits_inj'. intros i Hi. rewrite Z.lxor_spec, !byte_of_bit, Z.lxor_spec by assumption.
  destruct (i <? 8); rewrite ?andb_true_r, ?andb_false_r; reflexivity.
Qed.

Lemma byte_of_and x y m : 0 <= m -> byte_of (x .& y) m = byte_of x m .& byte_of y m.
Proof.
  intros Hm. apply Z.bits_inj'. intros i Hi. rewrite Z.land_spec, !byte_of_bit, Z.land_spec by assumption.
  destruct (i <? 8); rewrite ?andb_true_r, ?andb_false_r; reflexivity.
Qed.

Lemma byte_of_lane_at b j m : byte_fun b -> 0 <= m < 8 -> byte_of (lane_at b j) m = b (8 * j + m).
Proof.
  intros Hb Hm. apply Z.bits_inj'. intros i Hi. rewrite byte_of_bit, lane_at_bit by (assumption || lia).
  destruct (Z.ltb_spec i 8).
  - rewrite (proj2 (Z.ltb_lt _ _)), andb_true_r by lia. cbn [andb].
    f_equal; [f_equal |]; Z.to_euclidean_division_equations; lia.
  - rewrite andb_false_r. symmetry. apply (testbit_above 8); [lia | apply Hb | exact H].
Qed.

Lemma byte_of_gathered x j m : Forall is_byte x -> 0 <= j -> 0 <= m < 8 ->
  byte_of (lane_of (XKCP_load32 x (8 * j)) (XKCP_load32 x (8 * j + 4))) m = rd x (8 * j + m).
Proof. intros Hx Hj Hm. rewrite load32_lane by assumption. apply byte_of_lane_at; [intros k; apply rd_byte, Hx | exact Hm]. Qed.

(** A lane is its bytes. *)
Lemma lane_ext x y : 0 <= x < 2 ^ 64 -> 0 <= y < 2 ^ 64 -> (forall m, 0 <= m < 8 -> byte_of x m = byte_of y m) -> x = y.
Proof.
  intros Hx Hy H. apply Z.bits_inj'. intros i Hi. destruct (Z.lt_ge_cases i 64); [| rewrite !(testbit_above 64) by lia; reflexivity].
  pose proof (H (i / 8) ltac:(Z.to_euclidean_division_equations; lia)) as Hb.
  apply (f_equal (fun z => Z.testbit z (i mod 8))) in Hb.
  rewrite !byte_of_bit, (proj2 (Z.ltb_lt (i mod 8) 8)), !andb_true_r in Hb by (Z.to_euclidean_division_equations; lia).
  replace (i mod 8 + 8 * (i / 8)) with i in Hb by (Z.to_euclidean_division_equations; lia). exact Hb.
Qed.

(** * The bytes of the state *)

Definition good (A : list Z) : Prop := length A = 50%nat /\ Forall word A.

Definition state_bytes (s : list Z) : bytes := concat (map store64 s).
Definition bytes_of (A : list Z) : bytes := state_bytes (lanes_of A).

Lemma good_word A i : good A -> word (rd A i).
Proof.
  intros [_ Hw]. unfold rd. rewrite nth_lookup. destruct (A !! Z.to_nat i) eqn:E; [exact (Forall_lookup_1 _ _ _ _ Hw E) |].
  split; [cbn; lia | reflexivity].
Qed.

Lemma good_upd A i v : good A -> word v -> good (upd i v A).
Proof.
  intros [Hl Hw] Hv. split; [unfold upd; rewrite length_insert; exact Hl |]. apply Forall_insert; assumption.
Qed.

Lemma rd_lanes_of A j : 0 <= j < 25 -> rd (lanes_of A) j = weave (rd A (2 * j)) (rd A (2 * j + 1)).
Proof. intros Hj. unfold rd at 1, lanes_of. rewrite nth_lookup, list_lookup_fmap, places_0_lookup by exact Hj. reflexivity. Qed.

Lemma state_bytes_lane s j : 0 <= j < Z.of_nat (length s) -> slice (8 * j) 8 (state_bytes s) = store64 (rd s j).
Proof.
  intros Hj. unfold state_bytes.
  destruct (lookup_lt_is_Some_2 s (Z.to_nat j) ltac:(lia)) as [x Hx].
  rewrite <- (take_drop_middle s (Z.to_nat j) x Hx) at 1. rewrite map_app, concat_app. cbn [map concat].
  rewrite slice_exact; [unfold rd; rewrite nth_lookup, Hx; reflexivity | | reflexivity].
  rewrite concat_store64_len. unfold len. rewrite length_take. lia.
Qed.

Lemma rd_store64 x m : 0 <= m < 8 -> rd (store64 x) m = byte_of x m.
Proof.
  intros Hm. assert (H8 : m = 0 \/ m = 1 \/ m = 2 \/ m = 3 \/ m = 4 \/ m = 5 \/ m = 6 \/ m = 7) by lia.
  repeat destruct H8 as [-> | H8]; subst; reflexivity.
Qed.

Lemma rd_state_bytes s j m : 0 <= j < Z.of_nat (length s) -> 0 <= m < 8 -> rd (state_bytes s) (8 * j + m) = byte_of (rd s j) m.
Proof. intros Hj Hm. rewrite <- (rd_store64 (rd s j) m Hm), <- state_bytes_lane, rd_slice by lia. reflexivity. Qed.

Lemma length_lanes_of A : length (lanes_of A) = 25%nat.
Proof. reflexivity. Qed.

Lemma bytes_of_len A : len (bytes_of A) = 200.
Proof. unfold bytes_of, state_bytes. rewrite concat_store64_len. unfold len. rewrite length_lanes_of. reflexivity. Qed.

Lemma rd_bytes_of A j m : 0 <= j < 25 -> 0 <= m < 8 -> rd (bytes_of A) (8 * j + m) = byte_of (rd (lanes_of A) j) m.
Proof. intros Hj Hm. apply rd_state_bytes; [rewrite length_lanes_of; lia | exact Hm]. Qed.

Lemma bytes_of_bytes A : Forall is_byte (bytes_of A).
Proof.
  unfold bytes_of, state_bytes. induction (lanes_of A) as [| x l IH]; [apply Forall_nil_2 |].
  cbn [map concat]. apply Forall_byte_app; [apply store64_bytes | exact IH].
Qed.

(** * What a write does to the bytes *)

(** [f k y] is what byte [k] becomes. *)
Definition acts (f : Z -> Z -> Z) (A A' : list Z) : Prop :=
  good A -> good A' /\ forall k, 0 <= k < 200 -> rd (bytes_of A') k = f k (rd (bytes_of A) k).

Lemma acts_ext f f' A A' : (forall k y, 0 <= k < 200 -> is_byte y -> f k y = f' k y) -> acts f A A' -> acts f' A A'.
Proof.
  intros He H HA. destruct (H HA) as [HA' Hk]. split; [exact HA' |]. intros k Hk'. rewrite Hk by exact Hk'.
  apply He; [exact Hk' | apply rd_byte, bytes_of_bytes].
Qed.

Lemma acts_then f g A A1 A' : acts f A A1 -> acts g A1 A' -> acts (fun k y => g k (f k y)) A A'.
Proof.
  intros Hf Hg HA. destruct (Hf HA) as [HA1 H1]. destruct (Hg HA1) as [HA' H2]. split; [exact HA' |].
  intros k Hk. rewrite H2, H1 by exact Hk. reflexivity.
Qed.

Lemma acts_none A : acts (fun _ y => y) A A.
Proof. intros HA. split; [exact HA | reflexivity]. Qed.

(** New words for one lane. *)
Lemma acts_lane f i A A' : 0 <= i < 25 -> (forall k y, 0 <= k < 200 -> k / 8 <> i -> f k y = y) ->
  (good A -> exists x e o, woven x e o /\ A' = upd (2 * i + 1) o (upd (2 * i) e A) /\
     forall m, 0 <= m < 8 -> byte_of x m = f (8 * i + m) (byte_of (rd (lanes_of A) i) m)) ->
  acts f A A'.
Proof.
  intros Hi Ho H HA. destruct (H HA) as (x & e & o & (-> & He & Hod) & -> & Hm). split.
  - apply good_upd; [apply good_upd; assumption | exact Hod].
  - destruct HA as [HA _]. intros k Hk.
    pose proof (Z.div_mod k 8 ltac:(lia)) as Hdm. pose proof (Z.mod_pos_bound k 8 ltac:(lia)) as Hkm.
    set (j := k / 8) in *. set (m := k mod 8) in *. clearbody j m. subst k.
    rewrite !rd_bytes_of, !rd_lanes_of by lia. rewrite !rd_upd by (unfold upd; rewrite ?length_insert; lia).
    destruct (Z.eq_dec j i) as [-> | Hne].
    + destruct (Z.eqb_spec (2 * i) (2 * i + 1)); [lia |]. destruct (Z.eqb_spec (2 * i) (2 * i)); [| lia].
      destruct (Z.eqb_spec (2 * i + 1) (2 * i + 1)); [| lia]. rewrite Hm, rd_lanes_of by lia. reflexivity.
    + destruct (Z.eqb_spec (2 * j) (2 * i + 1)); [lia |]. destruct (Z.eqb_spec (2 * j) (2 * i)); [lia |].
      destruct (Z.eqb_spec (2 * j + 1) (2 * i + 1)); [lia |]. destruct (Z.eqb_spec (2 * j + 1) (2 * i)); [lia |].
      rewrite Ho; [reflexivity | lia | Z.to_euclidean_division_equations; lia].
Qed.

(** The three ways a gathered lane goes into the state. *)
Definition on_lane (op : Z -> Z -> Z) (i x k y : Z) : Z := if k / 8 =? i then op y (byte_of x (k mod 8)) else y.

Lemma on_lane_other op i x k y : k / 8 <> i -> on_lane op i x k y = y.
Proof. intros H. unfold on_lane. rewrite (proj2 (Z.eqb_neq _ _)) by exact H. reflexivity. Qed.

Lemma on_lane_here op i x m y : 0 <= m < 8 -> on_lane op i x (8 * i + m) y = op y (byte_of x m).
Proof.
  intros Hm. unfold on_lane. replace ((8 * i + m) / 8) with i by (Z.to_euclidean_division_equations; lia).
  rewrite Z.eqb_refl. do 2 f_equal. Z.to_euclidean_division_equations; lia.
Qed.

Lemma lane_now A i : good A -> 0 <= i < 25 -> woven (rd (lanes_of A) i) (rd A (2 * i)) (rd A (2 * i + 1)).
Proof. intros HA Hi. rewrite rd_lanes_of by exact Hi. apply woven_intro; apply good_word, HA. Qed.

Lemma AndXOR_acts low high i A : word low -> word high -> 0 <= i < 25 ->
  acts (on_lane Z.lxor i (lane_of low high)) A (toBitInterleavingAndXOR low high i A).
Proof.
  intros Hl Hh Hi. apply (acts_lane _ i); [exact Hi | intros k y _; apply on_lane_other |]. intros HA.
  pose proof (to_interleaving low high Hl Hh) as Ht. unfold toBitInterleavingAndXOR.
  destruct (toBitInterleaving low high) as [e o].
  exists (rd (lanes_of A) i ^^ lane_of low high), (rd A (2 * i) ^^ e), (rd A (2 * i + 1) ^^ o).
  split; [apply woven_xor; [apply lane_now; assumption | exact Ht] |]. split.
  - rewrite rd_upd by (destruct HA; lia). rewrite (proj2 (Z.eqb_neq _ _)) by lia. reflexivity.
  - intros m Hm. rewrite on_lane_here, byte_of_xor by lia. reflexivity.
Qed.

Lemma AndAND_acts low high i A : word low -> word high -> 0 <= i < 25 ->
  acts (on_lane Z.land i (lane_of low high)) A (toBitInterleavingAndAND low high i A).
Proof.
  intros Hl Hh Hi. apply (acts_lane _ i); [exact Hi | intros k y _; apply on_lane_other |]. intros HA.
  pose proof (to_interleaving low high Hl Hh) as Ht. unfold toBitInterleavingAndAND.
  destruct (toBitInterleaving low high) as [e o].
  exists (rd (lanes_of A) i .& lane_of low high), (rd A (2 * i) .& e), (rd A (2 * i + 1) .& o).
  split; [apply woven_and; [apply lane_now; assumption | exact Ht] |]. split.
  - rewrite rd_upd by (destruct HA; lia). rewrite (proj2 (Z.eqb_neq _ _)) by lia. reflexivity.
  - intros m Hm. rewrite on_lane_here, byte_of_and by lia. reflexivity.
Qed.

Lemma AndSet_acts low high i A : word low -> word high -> 0 <= i < 25 ->
  acts (on_lane (fun _ d => d) i (lane_of low high)) A (toBitInterleavingAndSet low high i A).
Proof.
  intros Hl Hh Hi. apply (acts_lane _ i); [exact Hi | intros k y _; apply on_lane_other |]. intros HA.
  pose proof (to_interleaving low high Hl Hh) as Ht. unfold toBitInterleavingAndSet.
  destruct (toBitInterleaving low high) as [e o].
  exists (lane_of low high), e, o. split; [exact Ht |]. split; [reflexivity |].
  intros m Hm. rewrite on_lane_here by exact Hm. reflexivity.
Qed.

(** * Writing bytes *)

(** The bytes [b] written with [op] from [lo] up to [hi]. *)
Definition written (op : Z -> Z -> Z) (lo hi : Z) (b : Z -> Z) (k y : Z) : Z := if (lo <=? k) && (k <? hi) then op y (b k) else y.

Lemma written_in op lo hi b k y : lo <= k < hi -> written op lo hi b k y = op y (b k).
Proof. intros Hk. unfold written. rewrite (proj2 (Z.leb_le _ _)), (proj2 (Z.ltb_lt _ _)) by lia. reflexivity. Qed.

Lemma written_out op lo hi b k y : k < lo \/ hi <= k -> written op lo hi b k y = y.
Proof. intros Hk. unfold written. destruct (Z.leb_spec lo k), (Z.ltb_spec k hi); reflexivity || lia. Qed.

Lemma written_ext op lo hi b b' k y : (lo <= k < hi -> b k = b' k) -> written op lo hi b k y = written op lo hi b' k y.
Proof.
  intros H. unfold written. destruct (Z.leb_spec lo k), (Z.ltb_spec k hi); cbn [andb]; try reflexivity. rewrite H by lia. reflexivity.
Qed.

Lemma acts_written_nil op lo b A : acts (written op lo lo b) A A.
Proof. refine (acts_ext _ _ _ _ _ (acts_none A)). intros k y _ _. symmetry. apply written_out. lia. Qed.

Lemma acts_join op lo mid hi b A A1 A' : lo <= mid <= hi ->
  acts (written op lo mid b) A A1 -> acts (written op mid hi b) A1 A' -> acts (written op lo hi b) A A'.
Proof.
  intros H H1 H2. refine (acts_ext _ _ _ _ _ (acts_then _ _ _ _ _ H1 H2)). intros k y _ _.
  destruct (Z.lt_ge_cases k mid) as [Hk | Hk].
  - rewrite (written_out op mid) by lia. destruct (Z.lt_ge_cases k lo); [rewrite !written_out by lia | rewrite !written_in by lia]; reflexivity.
  - rewrite (written_out op lo mid) by lia. destruct (Z.lt_ge_cases k hi); [rewrite !written_in by lia | rewrite !written_out by lia]; reflexivity.
Qed.

(** A whole lane of the bytes of a buffer. *)
Lemma gathered_acts op x i k y : Forall is_byte x -> 0 <= i -> 0 <= k ->
  on_lane op i (lane_of (XKCP_load32 x (8 * i)) (XKCP_load32 x (8 * i + 4))) k y = written op (8 * i) (8 * (i + 1)) (rd x) k y.
Proof.
  intros Hx Hi Hk. pose proof (Z.div_mod k 8 ltac:(lia)) as Hdm. pose proof (Z.mod_pos_bound k 8 ltac:(lia)) as Hm.
  unfold on_lane. destruct (Z.eqb_spec (k / 8) i) as [<- | Hne].
  - rewrite byte_of_gathered, written_in by (assumption || lia). rewrite <- Hdm. reflexivity.
  - rewrite written_out by lia. reflexivity.
Qed.

(** Bytes for a part of a lane, gathered in a buffer of eight: [z] is what [op] has no effect with. *)
Lemma gathered_part_acts op z x i off n b k y : Forall is_byte x -> 0 <= i -> 0 <= k -> (is_byte y -> op y z = y) -> is_byte y ->
  0 <= off -> 0 <= n -> off + n <= 8 ->
  (forall m, 0 <= m < 8 -> rd x m = if (off <=? m) && (m <? off + n) then b (8 * i + m) else z) ->
  on_lane op i (lane_of (XKCP_load32 x 0) (XKCP_load32 x 4)) k y = written op (8 * i + off) (8 * i + off + n) b k y.
Proof.
  intros Hx Hi Hk Hz Hy Ho Hn H8 Hr. pose proof (Z.div_mod k 8 ltac:(lia)) as Hdm. pose proof (Z.mod_pos_bound k 8 ltac:(lia)) as Hm.
  pose proof (byte_of_gathered x 0 (k mod 8) Hx ltac:(lia) Hm) as Hg. change (8 * 0 + 4) with 4 in Hg. change (8 * 0) with 0 in Hg.
  unfold on_lane. destruct (Z.eqb_spec (k / 8) i) as [<- | Hne]; [| rewrite written_out by lia; reflexivity].
  rewrite Hg, Z.add_0_l, Hr by exact Hm.
  destruct (Z.leb_spec off (k mod 8)), (Z.ltb_spec (k mod 8) (off + n)); cbn [andb].
  - rewrite written_in by lia. rewrite <- Hdm. reflexivity.
  - rewrite written_out by lia. auto.
  - rewrite written_out by lia. auto.
  - lia.
Qed.

Lemma spliced_bytes off src : Forall is_byte src -> Forall is_byte (splice off src (fill 0 8)).
Proof.
  intros Hs. unfold splice. rewrite !Forall_app. split; [apply Forall_take, fill_bytes; split; lia | split].
  - apply Forall_take, Hs.
  - apply Forall_drop, fill_bytes. split; lia.
Qed.

Section Writing.
Context (data : bytes) (Hdata : Forall is_byte data).

Lemma AddBytesInLane_acts lane cur off n A : 0 <= lane < 25 -> 0 <= cur -> 0 <= off -> 0 <= n -> off + n <= 8 -> cur + n <= len data ->
  acts (written Z.lxor (8 * lane + off) (8 * lane + off + n) (fun k => rd data (k - (8 * lane + off) + cur))) A
    (KeccakP1600_AddBytesInLane lane (from cur data) off n A).
Proof.
  intros Hl Hc Ho Hn H8 Hd. unfold KeccakP1600_AddBytesInLane.
  assert (Hs : len (slice 0 n (from cur data)) = n) by (apply len_slice; [lia | lia | rewrite len_from; lia]).
  assert (Hx : Forall is_byte (splice off (slice 0 n (from cur data)) (fill 0 8))) by (apply spliced_bytes, Forall_slice, Forall_from, Hdata).
  refine (acts_ext _ _ _ _ _ (AndXOR_acts _ _ lane A (load32_word _ _ Hx) (load32_word _ _ Hx) Hl)).
  intros k y Hk Hy. apply (gathered_part_acts _ 0); try assumption; try lia; [intros _; apply Z.lxor_0_r |].
  intros m Hm. rewrite rd_splice by (rewrite ?Hs, ?len_fill by lia; lia). rewrite Hs.
  destruct (Z.leb_spec off m), (Z.ltb_spec m (off + n)); cbn [andb]; [| apply rd_fill ..].
  rewrite rd_slice, rd_from by lia. f_equal. lia.
Qed.

Lemma rd_mask off n m : 0 <= off -> 0 <= n -> off + n <= 8 -> 0 <= m < 8 ->
  rd (fill 0xFF off ++ fill 0x00 n ++ fill 0xFF (8 - off - n)) m = if (off <=? m) && (m <? off + n) then 0 else 0xFF.
Proof.
  assert (Hf : forall c z i, 0 <= i < z -> rd (fill c z) i = c).
  { intros c z i Hi. unfold rd, fill. rewrite nth_lookup, lookup_replicate_2 by lia. reflexivity. }
  intros Ho Hn H8 Hm. destruct (Z.leb_spec off m); cbn [andb].
  - rewrite rd_app_r, len_fill by (rewrite ?len_fill; lia). destruct (Z.ltb_spec m (off + n)).
    + rewrite rd_app_l, Hf by (rewrite ?len_fill; lia). reflexivity.
    + rewrite rd_app_r, len_fill, Hf by (rewrite ?len_fill; lia). reflexivity.
  - rewrite rd_app_l, Hf by (rewrite ?len_fill; lia). reflexivity.
Qed.

Lemma SetBytesInLaneToZero_acts lane off n A : 0 <= lane < 25 -> 0 <= off -> 0 <= n -> off + n <= 8 ->
  acts (written (fun _ d => d) (8 * lane + off) (8 * lane + off + n) (fun _ => 0)) A (KeccakP1600_SetBytesInLaneToZero lane off n A).
Proof.
  intros Hl Ho Hn H8. unfold KeccakP1600_SetBytesInLaneToZero.
  set (x := fill 0xFF off ++ _).
  assert (Hx : Forall is_byte x) by (repeat apply Forall_byte_app; apply fill_bytes; split; lia).
  refine (acts_ext _ _ _ _ _ (AndAND_acts _ _ lane A (load32_word _ _ Hx) (load32_word _ _ Hx) Hl)).
  intros k y Hk Hy. transitivity (written Z.land (8 * lane + off) (8 * lane + off + n) (fun _ => 0) k y).
  - apply (gathered_part_acts _ 0xFF); try assumption; try lia; [intros _; exact (u8_small y Hy) |].
    intros m Hm. apply rd_mask; assumption.
  - unfold written. destruct (_ && _); [apply Z.land_0_r | reflexivity].
Qed.

Lemma OverwriteBytesInLane_acts lane cur off n A : 0 <= lane < 25 -> 0 <= cur -> 0 <= off -> 0 <= n -> off + n <= 8 -> cur + n <= len data ->
  acts (written (fun _ d => d) (8 * lane + off) (8 * lane + off + n) (fun k => rd data (k - (8 * lane + off) + cur))) A
    (KeccakP1600_OverwriteBytesInLane lane (from cur data) off n A).
Proof.
  intros Hl Hc Ho Hn H8 Hd. unfold KeccakP1600_OverwriteBytesInLane.
  refine (acts_ext _ _ _ _ _ (acts_then _ _ _ _ _ (SetBytesInLaneToZero_acts lane off n A Hl Ho Hn H8) (AddBytesInLane_acts lane cur off n _ Hl Hc Ho Hn H8 Hd))).
  intros k y _ _. unfold written. destruct (_ && _); [apply Z.lxor_0_l | reflexivity].
Qed.

(** A loop over whole lanes. *)
Lemma lanes_acts op b (step : Z -> list Z -> list Z) n A : 0 <= n <= 25 ->
  (forall i A, 0 <= i < 25 -> acts (written op (8 * i) (8 * (i + 1)) b) A (step i A)) ->
  acts (written op 0 (8 * n) b) A (for_z (Z.to_nat n) 0 step A).
Proof.
  intros Hn Hs. replace (8 * n) with (8 * (0 + Z.of_nat (Z.to_nat n))) by lia.
  apply (for_z_inv _ (fun i A' => acts (written op 0 (8 * i) b) A A')); [apply acts_written_nil |].
  intros i A1 Hi H1. refine (acts_join _ 0 (8 * i) _ _ _ A1 _ _ H1 (Hs i A1 _)); lia.
Qed.

Lemma AddLanes_acts n A : 0 <= n <= 25 -> acts (written Z.lxor 0 (8 * n) (rd data)) A (KeccakP1600_AddLanes data n A).
Proof.
  intros Hn. apply lanes_acts; [exact Hn |]. intros i A1 Hi.
  refine (acts_ext _ _ _ _ _ (AndXOR_acts _ _ i A1 (load32_word _ _ Hdata) (load32_word _ _ Hdata) Hi)).
  intros k y Hk _. apply gathered_acts; [exact Hdata | lia | lia].
Qed.

Lemma OverwriteLanes_acts n A : 0 <= n <= 25 -> acts (written (fun _ d => d) 0 (8 * n) (rd data)) A (KeccakP1600_OverwriteLanes data n A).
Proof.
  intros Hn. apply lanes_acts; [exact Hn |]. intros i A1 Hi.
  refine (acts_ext _ _ _ _ _ (AndSet_acts _ _ i A1 (load32_word _ _ Hdata) (load32_word _ _ Hdata) Hi)).
  intros k y Hk _. apply gathered_acts; [exact Hdata | lia | lia].
Qed.

(** The byte-oriented form of a write, from the lane-oriented one. *)
Section Relaned.
Context (op : Z -> Z -> Z) (lanes : bytes -> Z -> list Z -> list Z) (in_lane : Z -> bytes -> Z -> Z -> list Z -> list Z).
Hypothesis Hlanes : forall n A, 0 <= n <= 25 -> acts (written op 0 (8 * n) (rd data)) A (lanes data n A).
Hypothesis Hin : forall lane cur off n A, 0 <= lane < 25 -> 0 <= cur -> 0 <= off -> 0 <= n -> off + n <= 8 -> cur + n <= len data ->
  acts (written op (8 * lane + off) (8 * lane + off + n) (fun k => rd data (k - (8 * lane + off) + cur))) A (in_lane lane (from cur data) off n A).

Lemma relaned_loop offset fuel : forall sizeLeft lane off cur A,
  0 <= sizeLeft <= Z.of_nat fuel -> 0 <= lane -> 0 <= off < 8 -> 0 <= cur -> 8 * lane + off = offset + cur ->
  offset + cur + sizeLeft <= 200 -> cur + sizeLeft <= len data ->
  acts (written op (offset + cur) (offset + cur + sizeLeft) (fun k => rd data (k - offset))) A
    (snp_loop fuel (fun lane cur off n A => in_lane lane (from cur data) off n A) sizeLeft lane off cur A).
Proof.
  induction fuel as [| fuel IH]; intros sizeLeft lane off cur A Hf Hl Ho Hc He Hp Hd; cbn [snp_loop].
  { replace sizeLeft with 0 by lia. rewrite Z.add_0_r. apply acts_written_nil. }
  destruct (Z.eqb_spec sizeLeft 0) as [-> | Hne]; [rewrite Z.add_0_r; apply acts_written_nil |].
  set (n := if sizeLeft <? 8 - off then sizeLeft else 8 - off).
  assert (Hn : 0 < n <= sizeLeft /\ off + n <= 8 /\ (n < sizeLeft -> off + n = 8)) by (unfold n; destruct (Z.ltb_spec sizeLeft (8 - off)); lia).
  clearbody n. refine (acts_join op _ (offset + cur + n) _ _ _ (in_lane lane (from cur data) off n A) _ _ _ _); [lia | |].
  - refine (acts_ext _ _ _ _ _ (Hin lane cur off n A _ _ _ _ _ _)); try lia. intros k y _ _. rewrite He.
    apply written_ext. intros _. f_equal. lia.
  - destruct (Z.eq_dec n sizeLeft) as [-> | Hlt].
    { rewrite Z.sub_diag. destruct fuel; apply acts_written_nil. }
    replace (offset + cur + sizeLeft) with (offset + (cur + n) + (sizeLeft - n)) by lia.
    replace (offset + cur + n) with (offset + (cur + n)) by lia. apply IH; lia.
Qed.

Lemma relaned_acts offset length A : 0 <= offset -> 0 <= length -> offset + length <= 200 -> length <= len data ->
  acts (written op offset (offset + length) (fun k => rd data (k - offset))) A (SnP_write lanes in_lane data offset length A).
Proof.
  intros Ho Hl Hp Hd. unfold SnP_write. destruct (Z.eqb_spec offset 0) as [-> | Hne].
  - pose proof (Z.div_mod length 8 ltac:(lia)) as Hdm. pose proof (Z.mod_pos_bound length 8 ltac:(lia)) as Hm.
    pose proof (Hlanes (length / 8) A ltac:(lia)) as H1.
    assert (He : forall A', acts (written op 0 length (rd data)) A A' -> acts (written op 0 (0 + length) (fun k => rd data (k - 0))) A A').
    { intros A'. apply acts_ext. intros k y _ _. rewrite Z.add_0_l. apply written_ext. intros _. rewrite Z.sub_0_r. reflexivity. }
    apply He. destruct (Z.ltb_spec 0 (length mod 8)).
    + refine (acts_join op _ (8 * (length / 8)) _ _ _ _ _ _ H1 _); [lia |].
      refine (acts_ext _ _ _ _ _ (Hin (length / 8) (length / 8 * 8) 0 (length mod 8) _ _ _ _ _ _ _)); try lia.
      intros k y _ _. rewrite Z.add_0_r, <- Hdm. apply written_ext. intros _. f_equal. lia.
    + replace length with (8 * (length / 8)) at 1 by lia. exact H1.
  - pose proof (Z.div_mod offset 8 ltac:(lia)) as Hdm. pose proof (Z.mod_pos_bound offset 8 ltac:(lia)) as Hm.
    pose proof (relaned_loop offset (Z.to_nat length) length (offset / 8) (offset mod 8) 0 A) as H. rewrite Z.add_0_r in H. apply H; lia.
Qed.
End Relaned.

Lemma AddBytes_acts offset length A : 0 <= offset -> 0 <= length -> offset + length <= 200 -> length <= len data ->
  acts (written Z.lxor offset (offset + length) (fun k => rd data (k - offset))) A (KeccakP1600_AddBytes data offset length A).
Proof. exact (relaned_acts _ _ _ AddLanes_acts AddBytesInLane_acts offset length A). Qed.

Lemma OverwriteBytes_acts offset length A : 0 <= offset -> 0 <= length -> offset + length <= 200 -> length <= len data ->
  acts (written (fun _ d => d) offset (offset + length) (fun k => rd data (k - offset))) A (KeccakP1600_OverwriteBytes data offset length A).
Proof. exact (relaned_acts _ _ _ OverwriteLanes_acts OverwriteBytesInLane_acts offset length A). Qed.
End Writing.

Lemma byte_of_shifted c m byte : is_byte byte -> 0 <= c -> 0 <= m -> byte_of (byte .<< (8 * c)) m = if m =? c then byte else 0.
Proof.
  intros Hb Hc Hm. apply Z.bits_inj'. intros i Hi. rewrite byte_of_bit, Z.shiftl_spec by lia.
  destruct (Z.eqb_spec m c) as [-> | Hne].
  - replace (i + 8 * c - 8 * c) with i by lia. destruct (Z.ltb_spec i 8); [apply andb_true_r |].
    rewrite andb_false_r. symmetry. apply (testbit_above 8); [lia | exact Hb | lia].
  - rewrite Z.bits_0. destruct (Z.ltb_spec i 8); [| apply andb_false_r]. rewrite andb_true_r.
    destruct (Z.lt_ge_cases m c); [apply Z.testbit_neg_r; lia | apply (testbit_above 8); [lia | exact Hb | lia]].
Qed.

Lemma AddByte_acts byte offset A : is_byte byte -> 0 <= offset < 200 ->
  acts (written Z.lxor offset (offset + 1) (fun _ => byte)) A (KeccakP1600_AddByte byte offset A).
Proof.
  intros Hb Ho. unfold KeccakP1600_AddByte.
  pose proof (Z.div_mod offset 8 ltac:(lia)) as Hdm. pose proof (Z.mod_pos_bound offset 8 ltac:(lia)) as Hm.
  set (lane := offset / 8) in *. set (off := offset mod 8) in *. clearbody lane off.
  assert (Hsh : forall n, 0 <= n <= 24 -> word (byte .<< n) /\ u32 (byte .<< n) = byte .<< n).
  { intros n Hn. assert (Hw : word (byte .<< n)); [| split; [exact Hw | apply u32_small, Hw]].
    apply word_bits; [apply Z.shiftl_nonneg, Hb |].
    intros k Hk. rewrite Z.shiftl_spec by lia. apply (testbit_above 8); [lia | exact Hb | lia]. }
  assert (H0 : word 0) by (split; [lia | reflexivity]).
  assert (He : forall low high, word low -> word high -> lane_of low high = byte .<< (8 * off) ->
    acts (written Z.lxor offset (offset + 1) (fun _ => byte)) A (toBitInterleavingAndXOR low high lane A)).
  { intros low high Hl Hh E. refine (acts_ext _ _ _ _ _ (AndXOR_acts low high lane A Hl Hh ltac:(lia))).
    intros k y Hk _. unfold on_lane. rewrite E. pose proof (Z.div_mod k 8 ltac:(lia)) as Hdk.
    pose proof (Z.mod_pos_bound k 8 ltac:(lia)) as Hmk. destruct (Z.eqb_spec (k / 8) lane).
    - rewrite byte_of_shifted by (exact Hb || lia). destruct (Z.eqb_spec (k mod 8) off).
      + rewrite written_in by lia. reflexivity.
      + rewrite written_out, Z.lxor_0_r by lia. reflexivity.
    - rewrite written_out by lia. reflexivity. }
  destruct (Z.ltb_spec off 4).
  - destruct (Hsh (off * 8) ltac:(lia)) as [Hw ->]. apply He; [exact Hw | exact H0 |].
    unfold lane_of. rewrite Z.shiftl_0_l, Z.lor_0_r. f_equal. lia.
  - destruct (Hsh ((off - 4) * 8) ltac:(lia)) as [Hw ->]. apply He; [exact H0 | exact Hw |].
    unfold lane_of. rewrite Z.lor_0_l, Z.shiftl_shiftl by lia. f_equal. lia.
Qed.

Lemma OverwriteWithZeroes_acts n A : 0 <= n <= 200 ->
  acts (written (fun _ d => d) 0 n (fun _ => 0)) A (KeccakP1600_OverwriteWithZeroes n A).
Proof.
  intros Hn. unfold KeccakP1600_OverwriteWithZeroes.
  pose proof (Z.div_mod n 8 ltac:(lia)) as Hdm. pose proof (Z.mod_pos_bound n 8 ltac:(lia)) as Hm.
  assert (H1 : acts (written (fun _ d => d) 0 (8 * (n / 8)) (fun _ => 0)) A
    (for_z (Z.to_nat (n / 8)) 0 (fun i A => upd (i * 2 + 1) 0 (upd (i * 2) 0 A)) A)).
  { apply lanes_acts; [lia |]. intros i A1 Hi. rewrite (Z.mul_comm i 2). apply (acts_lane _ i); [exact Hi | |].
    - intros k y Hk Hne. apply written_out. Z.to_euclidean_division_equations; lia.
    - intros _. exists 0, 0, 0. split; [split; [vm_compute; reflexivity | split; split; lia || reflexivity] |]. split; [reflexivity |].
      intros m Hm'. rewrite written_in by lia. unfold byte_of. rewrite Z.shiftr_0_l. reflexivity. }
  destruct (Z.eqb_spec (n mod 8) 0); cbn [negb].
  - replace n with (8 * (n / 8)) at 1 by lia. exact H1.
  - refine (acts_join _ 0 (8 * (n / 8)) _ _ _ _ _ _ H1 _); [lia |].
    refine (acts_ext _ _ _ _ _ (SetBytesInLaneToZero_acts (n / 8) 0 (n mod 8) _ _ _ _ _)); try lia.
    intros k y _ _. rewrite Z.add_0_r, <- Hdm. reflexivity.
Qed.

(** * Reading bytes *)

Lemma seqZ_shift {B} (f : Z -> B) cur n : map f (seqZ cur n) = map (fun k => f (cur + k)) (seqZ 0 n).
Proof. rewrite <- (Z.add_0_r cur) at 1. rewrite <- fmap_add_seqZ. apply map_map. Qed.

Lemma slice_map off n b : 0 <= off -> 0 <= n -> off + n <= len b -> slice off n b = map (fun k => rd b (off + k)) (seqZ 0 n).
Proof.
  intros Ho Hn Hl. apply list_eq. intros k. unfold slice, rd, len in *. rewrite list_lookup_fmap.
  destruct (Nat.lt_ge_cases k (Z.to_nat n)).
  - rewrite lookup_take_lt, lookup_drop, lookup_seqZ_lt by lia. cbn. rewrite nth_lookup.
    replace (Z.to_nat (off + (0 + Z.of_nat k))) with (Z.to_nat off + k)%nat by lia.
    destruct (lookup_lt_is_Some_2 b (Z.to_nat off + k) ltac:(lia)) as [x ->]. reflexivity.
  - rewrite lookup_take_ge, lookup_seqZ_ge by lia. reflexivity.
Qed.

Section Relaned_read.
Context (f : Z -> Z) (offset : Z) (lanes : Z -> bytes) (in_lane : Z -> Z -> Z -> Z -> bytes).
Hypothesis Hlanes : offset = 0 -> forall n, 0 <= n <= 25 -> lanes n = map f (seqZ 0 (8 * n)).
Hypothesis Hin : forall lane cur off n, 0 <= lane < 25 -> 0 <= cur -> 0 <= off -> 0 <= n -> off + n <= 8 -> 8 * lane + off = offset + cur ->
  in_lane lane cur off n = map f (seqZ cur n).

Lemma relaned_read_loop fuel : forall sizeLeft lane off cur out,
  0 <= sizeLeft <= Z.of_nat fuel -> 0 <= lane -> 0 <= off < 8 -> 0 <= cur -> 8 * lane + off = offset + cur -> offset + cur + sizeLeft <= 200 ->
  snp_loop fuel (fun lane cur off n out => out ++ in_lane lane cur off n) sizeLeft lane off cur out = out ++ map f (seqZ cur sizeLeft).
Proof.
  induction fuel as [| fuel IH]; intros sizeLeft lane off cur out Hf Hl Ho Hc He Hp; cbn [snp_loop].
  { replace sizeLeft with 0 by lia. rewrite app_nil_r. reflexivity. }
  destruct (Z.eqb_spec sizeLeft 0) as [-> | Hne]; [rewrite app_nil_r; reflexivity |].
  set (n := if sizeLeft <? 8 - off then sizeLeft else 8 - off).
  assert (Hn : 0 < n <= sizeLeft /\ off + n <= 8 /\ (n < sizeLeft -> off + n = 8)) by (unfold n; destruct (Z.ltb_spec sizeLeft (8 - off)); lia).
  clearbody n. rewrite Hin by lia. destruct (Z.eq_dec n sizeLeft) as [-> | Hlt].
  - rewrite Z.sub_diag. destruct fuel; reflexivity.
  - rewrite IH, <- app_assoc by lia. f_equal. rewrite <- map_app, <- seqZ_app by lia. do 2 f_equal. lia.
Qed.

Lemma relaned_read length : 0 <= offset -> 0 <= length -> offset + length <= 200 ->
  SnP_read lanes in_lane offset length = map f (seqZ 0 length).
Proof.
  intros Ho Hl Hp. unfold SnP_read. destruct (Z.eqb_spec offset 0) as [E | Hne].
  - pose proof (Z.div_mod length 8 ltac:(lia)) as Hdm. pose proof (Z.mod_pos_bound length 8 ltac:(lia)) as Hm.
    rewrite Hlanes by lia. destruct (Z.ltb_spec 0 (length mod 8)).
    + rewrite Hin by lia. rewrite <- map_app. replace (length / 8 * 8) with (0 + 8 * (length / 8)) by lia.
      rewrite <- seqZ_app by lia. do 2 f_equal. lia.
    + do 2 f_equal. lia.
  - pose proof (Z.div_mod offset 8 ltac:(lia)) as Hdm. pose proof (Z.mod_pos_bound offset 8 ltac:(lia)) as Hm.
    rewrite relaned_read_loop by lia. reflexivity.
Qed.
End Relaned_read.

Lemma lane_of_xor a b low high : word a -> word b -> word low -> word high ->
  lane_of (a ^^ low) (b ^^ high) = lane_of a b ^^ lane_of low high.
Proof.
  intros Ha Hb Hl Hh. apply Z.bits_inj'. intros i Hi. rewrite Z.lxor_spec.
  destruct (Z.lt_ge_cases i 64).
  - rewrite !lane_of_bit by (try apply word_lxor; assumption || lia). destruct (i <? 32); apply Z.lxor_spec.
  - rewrite !(testbit_above 64) by (lia || (apply lane_of_range; try apply word_lxor; assumption)). reflexivity.
Qed.

Lemma lane_of_byte low high k : word low -> word high -> 0 <= k < 8 ->
  u8 (lane_of low high .>> (8 * k)) = if k <? 4 then u8 (low .>> (8 * k)) else u8 (high .>> (8 * (k - 4))).
Proof.
  intros Hl Hh Hk. apply Z.bits_inj'. intros i Hi.
  assert (E : Z.testbit (u8 (lane_of low high .>> (8 * k))) i
    = (if k <? 4 then Z.testbit low (i + 8 * k) else Z.testbit high (i + 8 * (k - 4))) && (i <? 8)).
  { rewrite testbit_u8, Z.shiftr_spec by exact Hi. destruct (Z.ltb_spec i 8); [| rewrite !andb_false_r; reflexivity].
    rewrite !andb_true_r, lane_of_bit by (assumption || lia).
    destruct (Z.ltb_spec (i + 8 * k) 32), (Z.ltb_spec k 4); try lia; f_equal; lia. }
  rewrite E. destruct (k <? 4); rewrite testbit_u8, Z.shiftr_spec by exact Hi; reflexivity.
Qed.

Lemma store32_lane low high : word low -> word high -> XKCP_store32 low ++ XKCP_store32 high = store64 (lane_of low high).
Proof.
  intros Hl Hh. unfold store64. cbn [for_z app]. rewrite !lane_of_byte by (assumption || lia).
  cbn. rewrite !Z.shiftr_0_r. reflexivity.
Qed.

Lemma store64_map x : store64 x = map (byte_of x) (seqZ 0 8).
Proof. reflexivity. Qed.

Section Reading.
Context (A : list Z) (HA : good A).

(** The words of a lane taken back to halves. *)
Lemma halves_of j : 0 <= j < 25 ->
  let '(low, high) := fromBitInterleaving (rd A (2 * j)) (rd A (2 * j + 1)) in
  lane_of low high = rd (lanes_of A) j /\ word low /\ word high.
Proof. intros Hj. rewrite rd_lanes_of by exact Hj. apply from_interleaving; apply good_word, HA. Qed.

Lemma laneAsBytes_store j : 0 <= j < 25 -> laneAsBytes j A = store64 (rd (lanes_of A) j).
Proof.
  intros Hj. unfold laneAsBytes. rewrite (Z.mul_comm j 2). pose proof (halves_of j Hj) as H.
  destruct (fromBitInterleaving _ _) as [low high]. destruct H as (<- & Hl & Hh). apply store32_lane; assumption.
Qed.

Lemma laneAsBytes_rd j m : 0 <= j < 25 -> 0 <= m < 8 -> rd (laneAsBytes j A) m = rd (bytes_of A) (8 * j + m).
Proof. intros Hj Hm. rewrite laneAsBytes_store, rd_store64, rd_bytes_of by assumption. reflexivity. Qed.

Lemma ExtractBytes_map offset length : 0 <= offset -> 0 <= length -> offset + length <= 200 ->
  KeccakP1600_ExtractBytes offset length A = map (fun k => rd (bytes_of A) (offset + k)) (seqZ 0 length).
Proof.
  apply relaned_read.
  - intros -> n Hn. unfold KeccakP1600_ExtractLanes. replace (8 * n) with (8 * (0 + Z.of_nat (Z.to_nat n))) by lia.
    apply (for_z_inv _ (fun i out => out = map (fun k => rd (bytes_of A) (0 + k)) (seqZ 0 (8 * i)))); [reflexivity |]. intros i out Hi ->.
    replace (8 * (i + 1)) with (8 * i + 8) by lia. rewrite seqZ_app, map_app, (seqZ_shift _ (0 + 8 * i)) by lia. f_equal.
    rewrite laneAsBytes_store, store64_map by lia. apply map_ext_in. intros k Hk. apply list_elem_of_In, elem_of_seqZ in Hk.
    rewrite <- rd_bytes_of by lia. reflexivity.
  - intros lane cur off n Hl Hc Ho Hn H8 He. unfold KeccakP1600_ExtractBytesInLane.
    rewrite slice_map, (seqZ_shift _ cur); [| exact Ho | exact Hn | rewrite laneAsBytes_store by exact Hl; exact H8].
    apply map_ext_in. intros k Hk. apply list_elem_of_In, elem_of_seqZ in Hk. rewrite laneAsBytes_rd by lia. f_equal. lia.
Qed.

Lemma ExtractBytes_slice offset length : 0 <= offset -> 0 <= length -> offset + length <= 200 ->
  KeccakP1600_ExtractBytes offset length A = slice offset length (bytes_of A).
Proof. intros Ho Hl Hp. rewrite ExtractBytes_map, slice_map by (rewrite ?bytes_of_len; lia). reflexivity. Qed.

Lemma ExtractAndAddBytes_map input offset length : Forall is_byte input -> 0 <= offset -> 0 <= length -> offset + length <= 200 ->
  KeccakP1600_ExtractAndAddBytes input offset length A = map (fun k => rd input k ^^ rd (bytes_of A) (offset + k)) (seqZ 0 length).
Proof.
  intros Hi. apply relaned_read.
  - intros -> n Hn. unfold KeccakP1600_ExtractAndAddLanes. replace (8 * n) with (8 * (0 + Z.of_nat (Z.to_nat n))) by lia.
    apply (for_z_inv _ (fun i out => out = map (fun k => rd input k ^^ rd (bytes_of A) (0 + k)) (seqZ 0 (8 * i)))); [reflexivity |].
    intros i out Hb ->. replace (8 * (i + 1)) with (8 * i + 8) by lia. rewrite seqZ_app, map_app, (seqZ_shift _ (0 + 8 * i)) by lia.
    pose proof (halves_of i ltac:(lia)) as H. destruct (fromBitInterleaving _ _) as [low high]. destruct H as (E & Hl & Hh). f_equal.
    pose proof (load32_word input (8 * i) Hi) as Hw0. pose proof (load32_word input (8 * i + 4) Hi) as Hw1.
    rewrite store32_lane, lane_of_xor, E, store64_map by (try apply word_lxor; assumption).
    apply map_ext_in. intros k Hk. apply list_elem_of_In, elem_of_seqZ in Hk.
    rewrite byte_of_xor, byte_of_gathered, <- rd_bytes_of by (assumption || lia). do 2 f_equal; lia.
  - intros lane cur off n Hl Hc Ho Hn H8 He. unfold KeccakP1600_ExtractAndAddBytesInLane.
    replace n with (0 + Z.of_nat (Z.to_nat n)) at 2 by lia.
    apply (for_z_inv _ (fun i out => out = map (fun k => rd input k ^^ rd (bytes_of A) (offset + k)) (seqZ cur i))); [reflexivity |].
    intros i out Hb ->. rewrite seqZ_app, map_app by lia. f_equal.
    transitivity [rd input (cur + i) ^^ rd (bytes_of A) (offset + (cur + i))]; [| reflexivity].
    rewrite laneAsBytes_rd, rd_from by lia. do 3 f_equal. lia.
Qed.
End Reading.

(** * The state as a machine *)

Lemma lane64_lanes_of A j : 0 <= j < 25 -> 0 <= rd (lanes_of A) j < 2 ^ 64.
Proof. intros Hj. rewrite rd_lanes_of by exact Hj. apply weave_range. Qed.

Lemma lane_at_range b j : byte_fun b -> 0 <= lane_at b j < 2 ^ 64.
Proof.
  intros Hb. split; [apply load64_nonneg |]. apply bits_below; [lia | | apply load64_nonneg].
  intros i Hi. rewrite lane_at_bit, (proj2 (Z.ltb_ge i 64)) by (assumption || lia). reflexivity.
Qed.

(** Lanes with given bytes. *)
Lemma lanes_ext s b : length s = 25%nat -> byte_fun b -> (forall j, 0 <= j < 25 -> 0 <= rd s j < 2 ^ 64) ->
  (forall j m, 0 <= j < 25 -> 0 <= m < 8 -> byte_of (rd s j) m = b (8 * j + m)) -> s = map (lane_at b) (seqZ 0 25).
Proof.
  intros Hs Hb Hr He. apply list_eq. intros k. rewrite list_lookup_fmap. destruct (Nat.lt_ge_cases k 25).
  - rewrite lookup_seqZ_lt by lia. destruct (lookup_lt_is_Some_2 s k ltac:(lia)) as [x Hx]. rewrite Hx.
    change (Some x = Some (lane_at b (0 + Z.of_nat k))). rewrite Z.add_0_l. f_equal.
    assert (E : rd s (Z.of_nat k) = x) by (unfold rd; rewrite Nat2Z.id, nth_lookup, Hx; reflexivity). rewrite <- E.
    apply lane_ext; [apply Hr; lia | apply lane_at_range, Hb |].
    intros m Hm. rewrite byte_of_lane_at by assumption. apply He; lia.
  - rewrite lookup_seqZ_ge, lookup_ge_None_2 by lia. reflexivity.
Qed.

Lemma lanes_of_bytes A : lanes_of A = map (lane_at (rd (bytes_of A))) (seqZ 0 25).
Proof.
  apply lanes_ext; [reflexivity | intros k; apply rd_byte, bytes_of_bytes | apply lane64_lanes_of |].
  intros j m Hj Hm. symmetry. apply rd_bytes_of; assumption.
Qed.

Lemma bytes_eq a b : len a = len b -> (forall k, 0 <= k < len a -> rd a k = rd b k) -> a = b.
Proof.
  intros Hl H. apply list_eq_same_length with (length b); [reflexivity | unfold len in Hl; lia |].
  intros i x y Hi Hx Hy. specialize (H (Z.of_nat i) ltac:(unfold len in *; lia)).
  unfold rd in H. rewrite Nat2Z.id, !nth_lookup, Hx, Hy in H. exact H.
Qed.

(** The calls a client makes that change the state. *)
Inductive snp_op :=
| Initialize
| AddByte (byte offset : Z)
| AddBytes (data : bytes) (offset length : Z)
| OverwriteBytes (data : bytes) (offset length : Z)
| OverwriteWithZeroes (byteCount : Z)
| Permute_Nrounds (nRounds : Z).

Definition snp_do (o : snp_op) (A : list Z) : option (list Z) :=
  match o with
  | Initialize => Some KeccakP1600_Initialize
  | AddByte byte offset => Some (KeccakP1600_AddByte byte offset A)
  | AddBytes data offset length => Some (KeccakP1600_AddBytes data offset length A)
  | OverwriteBytes data offset length => Some (KeccakP1600_OverwriteBytes data offset length A)
  | OverwriteWithZeroes byteCount => Some (KeccakP1600_OverwriteWithZeroes byteCount A)
  | Permute_Nrounds nRounds => KeccakP1600_Permute_Nrounds nRounds A
  end.

(** What they mean for 200 bytes. *)
Definition snp_spec (o : snp_op) (B : bytes) : bytes :=
  match o with
  | Initialize => fill 0 200
  | AddByte byte offset => upd offset (rd B offset ^^ byte) B
  | AddBytes data offset length => splice offset (map (fun k => rd B (offset + k) ^^ rd data k) (seqZ 0 length)) B
  | OverwriteBytes data offset length => splice offset (slice 0 length data) B
  | OverwriteWithZeroes byteCount => splice 0 (fill 0 byteCount) B
  | Permute_Nrounds nRounds => state_bytes (rounds (Z.to_nat nRounds) (24 - nRounds) (map (lane_at (rd B)) (seqZ 0 25)))
  end.

(** The calls that stay in the state and in their data. *)
Definition snp_ok (o : snp_op) : Prop :=
  match o with
  | Initialize => True
  | AddByte byte offset => is_byte byte /\ 0 <= offset < 200
  | AddBytes data offset length | OverwriteBytes data offset length =>
      Forall is_byte data /\ 0 <= offset /\ 0 <= length <= len data /\ offset + length <= 200
  | OverwriteWithZeroes byteCount => 0 <= byteCount <= 200
  | Permute_Nrounds nRounds => 0 < nRounds <= 24
  end.

Fixpoint snp_run (l : list snp_op) (A : list Z) : option (list Z) :=
  match l with
  | [] => Some A
  | o :: l => match snp_do o A with Some A => snp_run l A | None => None end
  end.

Lemma acts_spec f A A' B : acts f A A' -> good A -> len B = 200 -> (forall k, 0 <= k < 200 -> f k (rd (bytes_of A) k) = rd B k) ->
  good A' /\ bytes_of A' = B.
Proof.
  intros H HA HB Hk. destruct (H HA) as [HA' H']. split; [exact HA' |].
  apply bytes_eq; rewrite bytes_of_len; [symmetry; exact HB |]. intros k Hk'. rewrite H', Hk by exact Hk'. reflexivity.
Qed.

(** A write of a buffer is a splice. *)
Lemma written_splice op data offset length B src k : 0 <= offset -> 0 <= length -> offset + length <= 200 -> len B = 200 -> 0 <= k < 200 ->
  len src = length -> (forall i, 0 <= i < length -> rd src i = op (rd B (offset + i)) (rd data i)) ->
  written op offset (offset + length) (fun k => rd data (k - offset)) k (rd B k) = rd (splice offset src B) k.
Proof.
  intros Ho Hl Hp HB Hk Hs Hr. rewrite rd_splice by lia. rewrite Hs. unfold written.
  destruct (Z.leb_spec offset k), (Z.ltb_spec k (offset + length)); cbn [andb]; try reflexivity.
  rewrite Hr by lia. do 2 f_equal. lia.
Qed.

Lemma len_map_seqZ (f : Z -> Z) n : 0 <= n -> len (map f (seqZ 0 n)) = n.
Proof. intros Hn. unfold len. rewrite length_fmap, length_seqZ. lia. Qed.

Lemma rd_map_seqZ (f : Z -> Z) n i : 0 <= i < n -> rd (map f (seqZ 0 n)) i = f i.
Proof. intros Hi. unfold rd. rewrite nth_lookup, list_lookup_fmap, lookup_seqZ_lt by lia. cbn. f_equal. lia. Qed.

Lemma initial_good : good KeccakP1600_Initialize.
Proof. split; [reflexivity |]. apply Forall_replicate. split; [lia | reflexivity]. Qed.

Lemma snp_step o A : good A -> snp_ok o ->
  exists A', snp_do o A = Some A' /\ good A' /\ bytes_of A' = snp_spec o (bytes_of A).
Proof.
  intros HA Ho. pose proof (bytes_of_len A) as HB. destruct o as [| byte offset | data offset length | data offset length | n | n]; cbn [snp_do snp_spec snp_ok] in *.
  - eexists. split; [reflexivity |]. split; [exact initial_good | vm_compute; reflexivity].
  - destruct Ho as [Hb Ho]. eexists. split; [reflexivity |]. apply (acts_spec _ A _ _ (AddByte_acts byte offset A Hb Ho) HA).
    + unfold upd, len. rewrite length_insert. exact HB.
    + intros k Hk. rewrite rd_upd by (unfold len in HB; lia). unfold written.
      destruct (Z.leb_spec offset k), (Z.ltb_spec k (offset + 1)), (Z.eqb_spec k offset); try lia; try reflexivity. subst. reflexivity.
  - destruct Ho as (Hd & Ho & Hl & Hp). eexists. split; [reflexivity |].
    apply (acts_spec _ A _ _ (AddBytes_acts data Hd offset length A Ho ltac:(lia) Hp ltac:(lia)) HA).
    + rewrite len_splice; rewrite ?len_map_seqZ; lia.
    + intros k Hk. apply written_splice; try lia; [apply len_map_seqZ; lia |].
      intros i Hi. rewrite rd_map_seqZ by exact Hi. reflexivity.
  - destruct Ho as (Hd & Ho & Hl & Hp). eexists. split; [reflexivity |].
    assert (Hs : len (slice 0 length data) = length) by (apply len_slice; lia).
    apply (acts_spec _ A _ _ (OverwriteBytes_acts data Hd offset length A Ho ltac:(lia) Hp ltac:(lia)) HA).
    + rewrite len_splice; lia.
    + intros k Hk. apply written_splice; try lia. intros i Hi. rewrite rd_slice by lia. reflexivity.
  - eexists. split; [reflexivity |].
    apply (acts_spec _ A _ _ (OverwriteWithZeroes_acts n A Ho) HA).
    + rewrite len_splice; rewrite ?len_fill; lia.
    + intros k Hk. rewrite rd_splice, len_fill, rd_fill by (rewrite ?len_fill; lia). reflexivity.
  - destruct HA as [HA Hw]. pose proof (proj2 (interleaved_lanes A _) (conj HA (conj Hw eq_refl))) as H.
    destruct (permute_holds n A _ Ho H) as (A' & E & H'). apply interleaved_lanes in H' as (HA' & Hw' & El).
    exists A'. split; [exact E |]. split; [split; assumption |]. unfold bytes_of. rewrite <- El. 
    f_equal. f_equal. apply lanes_of_bytes.
Qed.

(** C38: over any sequence of calls that stay in bounds, the 50 interleaved words of the 32-bit Keccak
    behave as an array of 200 bytes: xoring, overwriting and zeroing change exactly the bytes named,
    at any alignment and across lanes; the in-place permutation of 1 to 24 rounds ends and is the last
    [nRounds] rounds of FIPS 202 on the lanes of the bytes; and what can be read afterwards, plainly or
    xored to an input, is the array. *)
Theorem snp_refines (l : list snp_op) (A : list Z) :
  good A -> Forall snp_ok l ->
  exists A', snp_run l A = Some A' /\ good A' /\ bytes_of A' = fold_left (fun B o => snp_spec o B) l (bytes_of A) /\
    forall offset length, 0 <= offset -> 0 <= length -> offset + length <= 200 ->
      KeccakP1600_ExtractBytes offset length A' = slice offset length (bytes_of A') /\
      forall input, Forall is_byte input ->
        KeccakP1600_ExtractAndAddBytes input offset length A'
        = map (fun k => rd input k ^^ rd (bytes_of A') (offset + k)) (seqZ 0 length).
Proof.
  intros HA Hl. revert A HA. induction Hl as [| o l Ho _ IH]; intros A HA; cbn [snp_run fold_left].
  - exists A. split; [reflexivity |]. split; [exact HA |]. split; [reflexivity |]. intros offset length H0 H1 H2.
    split; [apply ExtractBytes_slice; assumption |]. intros input Hi. apply ExtractAndAddBytes_map; assumption.
  - destruct (snp_step o A HA Ho) as (A1 & -> & HA1 & <-). apply IH, HA1.
Qed.

(** Four calls, the last a permutation of 22 rounds. *)
Definition demo_calls : list snp_op :=
  [AddBytes [1; 2; 3; 4; 5] 6 5; OverwriteBytes [9; 8; 7] 7 2; AddByte 0x80 135; Permute_Nrounds 22].

Lemma snp_refines_witness :
  exists A', snp_run demo_calls KeccakP1600_Initialize = Some A' /\ good A' /\
    bytes_of A' = fold_left (fun B o => snp_spec o B) demo_calls (bytes_of KeccakP1600_Initialize) /\
    forall offset length, 0 <= offset -> 0 <= length -> offset + length <= 200 ->
      KeccakP1600_ExtractBytes offset length A' = slice offset length (bytes_of A') /\
      forall input, Forall is_byte input ->
        KeccakP1600_ExtractAndAddBytes input offset length A'
        = map (fun k => rd input k ^^ rd (bytes_of A') (offset + k)) (seqZ 0 length).
Proof.
  apply (snp_refines demo_calls KeccakP1600_Initialize); [exact initial_good |].
  assert (Hb : Forall is_byte [1; 2; 3; 4; 5] /\ Forall is_byte [9; 8; 7]).
  { split; repeat (apply Forall_cons; split; [split; [discriminate | reflexivity] |]); apply Forall_nil_2. }
  destruct Hb as [H1 H2]. repeat (apply Forall_cons; split); [.. | apply Forall_nil_2]; cbn [snp_ok]; unfold is_byte, len; cbn [length]; repeat split; try assumption; try lia.
Defined.
