(* ===== verification/XkcpShake.v ===== *)
(** The sponge of hashs/xkcp/xkcp_shake.c is the SHAKE256 of hashs/fips202.c: absorbing, padding and
    squeezing, on the byte array of [XkcpState]. *)

From S2P Require Import Prelude Fips202 Xkcp XkcpWords XkcpRounds XkcpState.

(** * Bytes xored into the lanes *)

Definition xor_state (b : Z -> Z) (s : list Z) : list Z := imap (fun i a => a ^^ lane_at b (Z.of_nat i)) s.

Lemma rd_xor_state b s j : length s = 25%nat -> 0 <= j < 25 -> rd (xor_state b s) j = rd s j ^^ lane_at b j.
Proof.
  intros Hs Hj. unfold rd, xor_state. rewrite !nth_lookup, list_lookup_imap.
  destruct (lookup_lt_is_Some_2 s (Z.to_nat j) ltac:(lia)) as [x ->]. rewrite Z2Nat.id by lia. reflexivity.
Qed.

Lemma xored b A A' s : byte_fun b -> acts (fun k y => y ^^ b k) A A' -> interleaved 0 A s -> interleaved 0 A' (xor_state b s).
Proof.
  intros Hb H Hs. apply interleaved_lanes in Hs as (HA & Hw & ->). destruct (H (conj HA Hw)) as [[HA' Hw'] Hk].
  apply interleaved_lanes. split; [exact HA' |]. split; [exact Hw' |]. rewrite (lanes_of_bytes A').
  apply lanes_ext; [apply length_imap | intros k; apply rd_byte, bytes_of_bytes | |].
  - intros j Hj. rewrite rd_xor_state by (reflexivity || exact Hj).
    apply lxor_range; [lia | apply lane64_lanes_of, Hj | apply lane_at_range, Hb].
  - intros j m Hj Hm. rewrite rd_xor_state, byte_of_xor, byte_of_lane_at by (reflexivity || lia || exact Hb).
    rewrite Hk, rd_bytes_of by lia. reflexivity.
Qed.

(** The bytes [b] from [lo] up to [hi]. *)
Definition piece (lo hi : Z) (b : Z -> Z) (k : Z) : Z := if (lo <=? k) && (k <? hi) then b k else 0.

Lemma piece_in lo hi b k : lo <= k < hi -> piece lo hi b k = b k.
Proof. intros Hk. unfold piece. rewrite (proj2 (Z.leb_le _ _)), (proj2 (Z.ltb_lt _ _)) by lia. reflexivity. Qed.

Lemma piece_out lo hi b k : k < lo \/ hi <= k -> piece lo hi b k = 0.
Proof. intros Hk. unfold piece. destruct (Z.leb_spec lo k), (Z.ltb_spec k hi); reflexivity || lia. Qed.

Lemma piece_bytes lo hi b : (forall k, is_byte (b k)) -> byte_fun (piece lo hi b).
Proof. intros Hb k. unfold piece. destruct (_ && _); [apply Hb | split; lia]. Qed.

Lemma written_piece lo hi b A A' : acts (written Z.lxor lo hi b) A A' -> acts (fun k y => y ^^ piece lo hi b k) A A'.
Proof.
  apply acts_ext. intros k y _ _. unfold written, piece. destruct (_ && _); [reflexivity | symmetry; apply Z.lxor_0_r].
Qed.

(** * The sponge *)

Lemma interleaved_length A s : interleaved 0 A s -> length s = 25%nat.
Proof. intros H. apply interleaved_lanes in H as (_ & _ & ->). reflexivity. Qed.

Lemma permute_24 A s : interleaved 0 A s -> exists A', KeccakP1600_Permute_24rounds A = Some A' /\ interleaved 0 A' (Ref.keccak_f s).
Proof. exact (permute_holds 24 A s ltac:(lia)). Qed.

(** A full block. *)
Lemma xor_state_block data s : Forall is_byte data -> length s = 25%nat ->
  xor_state (piece 0 136 (rd data)) s = Ref.xor_block 136 data s.
Proof.
  intros Hd Hs. apply imap_ext. intros i x Hx. apply lookup_lt_Some in Hx. change (136 / 8) with 17.
  rewrite load64_slice, <- lane_at_from by lia. destruct (Z.ltb_spec (Z.of_nat i) 17).
  - f_equal. apply lane_at_ext. intros k Hk. apply piece_in. lia.
  - rewrite (lane_at_ext _ (fun _ => 0)); [apply Z.lxor_0_r |]. intros k Hk. apply piece_out. lia.
Qed.

Lemma block_holds data A s : Forall is_byte data -> 136 <= len data -> interleaved 0 A s ->
  exists A', KeccakP1600_Permute_24rounds (KeccakP1600_AddBytes data 0 136 A) = Some A' /\
             interleaved 0 A' (Ref.keccak_f (Ref.xor_block 136 data s)).
Proof.
  intros Hd Hl H. apply permute_24. rewrite <- xor_state_block; [| exact Hd | exact (interleaved_length A s H)].
  apply (xored _ A); [apply piece_bytes; intros k; apply rd_byte, Hd | | exact H]. apply written_piece.
  refine (acts_ext _ _ _ _ _ (AddBytes_acts data Hd 0 136 A _ _ _ _)); try lia.
  intros k y _ _. apply written_ext. intros _. rewrite Z.sub_0_r. reflexivity.
Qed.

Lemma absorb_holds n : forall i in_ A s, Forall is_byte in_ -> 0 <= i -> (i + Z.of_nat n) * 136 <= len in_ -> interleaved 0 A s ->
  exists A', xkcp_absorb n i in_ A = Some A' /\ interleaved 0 A' (Ref.absorb n 136 (from (i * 136) in_) s).
Proof.
  induction n as [| n IH]; intros i in_ A s Hb Hi Hl H; cbn [xkcp_absorb Ref.absorb]; [eauto |].
  change XKCP_SHAKE256_RATE with 136.
  destruct (block_holds (from (i * 136) in_) A s (Forall_from _ _ _ Hb) ltac:(rewrite len_from; lia) H) as (A1 & -> & H1).
  destruct (IH (i + 1) in_ A1 _ Hb ltac:(lia) ltac:(lia) H1) as (A' & E & H'). exists A'. split; [exact E |].
  rewrite from_from, xor_block_slice by (lia || reflexivity). replace (i * 136 + 136) with ((i + 1) * 136) by lia. exact H'.
Qed.

(** The rest of the message with its padding: three writes into the state are one block. *)
Lemma padded_bytes m k : Forall is_byte m -> len m < 136 -> 0 <= k < 136 ->
  rd (m ++ Ref.pad 136 0x1F (len m)) k
  = (piece 0 (len m) (rd m) k ^^ piece (len m) (len m + 1) (fun _ => 0x1F) k) ^^ piece 135 136 (fun _ => 0x80) k.
Proof.
  intros Hb Hl Hk. pose proof (len_nonneg m) as H0. unfold Ref.pad. rewrite Z.mod_small by lia.
  destruct (Z.lt_ge_cases k (len m)) as [Hk1 | Hk1].
  { rewrite rd_app_l, piece_in, !piece_out, !Z.lxor_0_r by lia. reflexivity. }
  rewrite rd_app_r, (piece_out 0), Z.lxor_0_l by lia.
  destruct (Z.eqb_spec (136 - len m) 1) as [Hq | Hq].
  { replace k with (len m) by lia. rewrite Z.sub_diag, !piece_in by lia. reflexivity. }
  destruct (Z.eq_dec k (len m)) as [-> | Hne].
  { rewrite Z.sub_diag, piece_in, piece_out, Z.lxor_0_r by lia. reflexivity. }
  rewrite (piece_out (len m)), Z.lxor_0_l, rd_app_r by (rewrite ?len_cons, ?len_nil; lia).
  rewrite len_cons, len_nil. destruct (Z.eq_dec k 135) as [-> | Hne'].
  - rewrite rd_app_r, len_fill, piece_in by (rewrite ?len_fill; lia).
    replace (135 - len m - (1 + 0) - (136 - len m - 2)) with 0 by lia. reflexivity.
  - rewrite rd_app_l, rd_fill, piece_out by (rewrite ?len_fill; lia). reflexivity.
Qed.

Lemma padded_bytes_ok m : Forall is_byte m -> Forall is_byte (m ++ Ref.pad 136 0x1F (len m)).
Proof.
  intros Hb. apply Forall_byte_app; [exact Hb |].
  assert (H1 : forall x, 0 <= x < 256 -> Forall is_byte [x]) by (intros x Hx; apply Forall_singleton; exact Hx).
  unfold Ref.pad. destruct (_ =? 1).
  - apply H1. change (0x1F .| 0x80) with 0x9F. lia.
  - apply Forall_byte_app; [apply H1; lia |]. apply Forall_byte_app; [apply fill_bytes; split; lia | apply H1; lia].
Qed.

Lemma last_holds m A s : Forall is_byte m -> len m < 136 -> interleaved 0 A s ->
  let A := if negb (len m =? 0) then KeccakP1600_AddBytes m 0 (len m) A else A in
  interleaved 0 (KeccakP1600_AddByte 0x80 135 (KeccakP1600_AddByte 0x1F (len m) A))
    (Ref.xor_block 136 (m ++ Ref.pad 136 0x1F (len m)) s).
Proof.
  intros Hb Hl H. cbv zeta. pose proof (len_nonneg m) as H0.
  set (A1 := if negb (len m =? 0) then _ else A).
  assert (H1 : acts (written Z.lxor 0 (len m) (rd m)) A A1).
  { unfold A1. destruct (Z.eqb_spec (len m) 0) as [-> | Hne]; cbn [negb]; [apply acts_written_nil |].
    refine (acts_ext _ _ _ _ _ (AddBytes_acts m Hb 0 (len m) A _ _ _ _)); try lia.
    intros k y _ _. apply written_ext. intros _. rewrite Z.sub_0_r. reflexivity. }
  assert (H1F : is_byte 0x1F) by (split; lia). assert (H80 : is_byte 0x80) by (split; lia).
  pose proof (AddByte_acts 0x1F (len m) A1 H1F ltac:(lia)) as H2.
  pose proof (AddByte_acts 0x80 135 (KeccakP1600_AddByte 0x1F (len m) A1) H80 ltac:(lia)) as H3.
  apply written_piece in H1, H2, H3.
  pose proof (padded_bytes_ok m Hb) as Hp.
  rewrite <- xor_state_block; [| exact Hp | exact (interleaved_length A s H)].
  apply (xored _ A); [apply piece_bytes; intros k; apply rd_byte, Hp | | exact H].
  refine (acts_ext _ _ _ _ _ (acts_then _ _ _ _ _ (acts_then _ _ _ _ _ H1 H2) H3)).
  intros k y Hk _. rewrite Z.lxor_assoc, Z.lxor_assoc. f_equal. rewrite <- Z.lxor_assoc. destruct (Z.lt_ge_cases k 136) as [Hk1 | Hk1].
  - rewrite (piece_in 0 136) by lia. symmetry. apply padded_bytes; [exact Hb | exact Hl | lia].
  - rewrite !piece_out by lia. reflexivity.
Qed.

Lemma squeeze_holds fuel : forall outlen A s, (0 < fuel)%nat -> 0 <= outlen <= 136 * Z.of_nat fuel -> interleaved 0 A s ->
  xkcp_squeeze fuel outlen A = Some (slice 0 outlen (Ref.squeeze fuel 136 s)).
Proof.
  induction fuel as [| fuel IH]; intros outlen A s Hf Ho H; [lia |]. cbn [xkcp_squeeze Ref.squeeze].
  change XKCP_SHAKE256_RATE with 136. change (Z.to_nat (136 / 8)) with 17%nat.
  pose proof (interleaved_length A s H) as Hs. pose proof H as HA. apply interleaved_lanes in HA as (HA & Hw & E).
  assert (Hp : forall n, 0 <= n <= 136 -> KeccakP1600_ExtractBytes 0 n A = slice 0 n (concat (map store64 (take 17 s)))).
  { intros n Hn. rewrite (ExtractBytes_slice A (conj HA Hw)) by lia. unfold bytes_of, state_bytes. rewrite <- E.
    rewrite <- (take_drop 17 s) at 1. rewrite map_app, concat_app. apply slice_app_l; [lia | lia |].
    rewrite concat_store64_len. unfold len. rewrite length_take. lia. }
  assert (Hl : len (concat (map store64 (take 17 s))) = 136).
  { rewrite concat_store64_len. unfold len. rewrite length_take. lia. }
  destruct (Z.ltb_spec 136 outlen).
  - destruct (permute_24 A s H) as (A' & -> & H'). rewrite (IH (outlen - 136) A' _ ltac:(lia) ltac:(lia) H'). f_equal.
    rewrite Hp, (slice_all 136) by lia. replace outlen with (136 + (outlen - 136)) at 2 by lia.
    rewrite slice_split by lia. rewrite (slice_app_l 0 136), (slice_all 136), slice_app_r by lia. do 2 f_equal. lia.
  - rewrite Hp, slice_app_l by lia. reflexivity.
Qed.

Lemma initial_holds : interleaved 0 KeccakP1600_Initialize (fill 0 25).
Proof.
  apply interleaved_lanes. destruct initial_good as [Hl Hw]. split; [exact Hl |]. split; [exact Hw | vm_compute; reflexivity].
Qed.

(** On bytes, the SHAKE256 of hashs/fips202.c. *)
Lemma xkcp_shake256_ref (outlen : Z) (in_ : bytes) : 0 <= outlen -> Forall is_byte in_ ->
  xkcp_shake256 outlen in_ = Some (shake256 outlen in_).
Proof.
  intros Ho Hb. rewrite shake256_sponge by exact Ho. unfold xkcp_shake256, Ref.sponge. change XKCP_SHAKE256_RATE with 136.
  pose proof (len_nonneg in_) as H0. pose proof (Z.div_mod (len in_) 136 ltac:(lia)) as Hdm.
  pose proof (Z.mod_pos_bound (len in_) 136 ltac:(lia)) as Hm. pose proof (Z.div_pos (len in_) 136 H0 ltac:(lia)) as Hq.
  set (n := Z.to_nat (len in_ / 136)). assert (Hn : Z.of_nat n = len in_ / 136) by lia.
  destruct (absorb_holds n 0 in_ KeccakP1600_Initialize (fill 0 25) Hb ltac:(lia) ltac:(lia) initial_holds) as (A1 & -> & H1).
  set (rest := from (len in_ / 136 * 136) in_).
  assert (Hr : len rest = len in_ mod 136) by (unfold rest; rewrite len_from; lia).
  pose proof (last_holds rest A1 _ (Forall_from _ _ _ Hb) ltac:(lia) H1) as H2. cbv zeta in H2. rewrite Hr in H2.
  change (136 - 1) with 135. destruct (permute_24 _ _ H2) as (A2 & -> & H3).
  pose proof (Z.div_pos outlen 136 Ho ltac:(lia)) as Hoq. pose proof (Z.mod_pos_bound outlen 136 ltac:(lia)) as Hom.
  pose proof (Z.div_mod outlen 136 ltac:(lia)) as Hod.
  rewrite (squeeze_holds (Z.to_nat (outlen / 136 + 1)) outlen A2 _ ltac:(lia) ltac:(lia) H3).
  rewrite Z2Nat.inj_add by lia. do 3 f_equal.
  rewrite pad_mod by lia.
  assert (Hpl : len (rest ++ Ref.pad 136 0x1F (len in_)) = 136).
  { destruct (last_block 136 0x1F rest ltac:(lia) ltac:(lia)) as (_ & _ & E). rewrite Hr, pad_mod in E by lia. exact E. }
  replace (Z.to_nat (len (in_ ++ Ref.pad 136 0x1F (len in_)) / 136)) with (S n).
  - symmetry. change (from (0 * 136) in_) with in_. apply absorb_snoc; try lia.
    unfold rest. rewrite <- Hn. reflexivity.
  - rewrite len_app in *. replace (len in_ + len (Ref.pad 136 0x1F (len in_))) with ((len in_ / 136 + 1) * 136) by lia.
    rewrite Z.div_mul by lia. lia.
Qed.

(** * Whatever the input *)

Lemma loop_total t : forall fuel A, (0 < t <= 6)%nat -> (t <= fuel)%nat ->
  is_Some (round_loop fuel 0 (2 * (24 - 4 * Z.of_nat t)) A).
Proof.
  induction t as [| t IH]; intros fuel A Ht Hf; [lia |]. destruct fuel as [| fuel]; [lia |]. cbn [round_loop].
  cbv [round_turn]. cbn [Z.eqb orb negb].
  match goal with |- context [rd KeccakF1600RoundConstants_int2 ?p] => replace p with (2 * (24 - 4 * Z.of_nat t)) by lia end.
  rewrite end_mark by lia. destruct (Z.eqb_spec (24 - 4 * Z.of_nat t) 24) as [E | E]; [eexists; reflexivity |].
  apply IH; lia.
Qed.

Lemma permute_total A : is_Some (KeccakP1600_Permute_24rounds A).
Proof. exact (loop_total 6 7 _ ltac:(lia) ltac:(lia)). Qed.

Lemma laneAsBytes_ok j A : len (laneAsBytes j A) = 8 /\ Forall is_byte (laneAsBytes j A).
Proof.
  unfold laneAsBytes. destruct (fromBitInterleaving _ _) as [low high]. split; [reflexivity |].
  apply Forall_byte_app; repeat (apply Forall_cons; split; [apply u8_byte |]); apply Forall_nil_2.
Qed.

Lemma extract_ok n A : 0 <= n -> len (KeccakP1600_ExtractBytes 0 n A) = n /\ Forall is_byte (KeccakP1600_ExtractBytes 0 n A).
Proof.
  intros Hn. unfold KeccakP1600_ExtractBytes, SnP_read, KeccakP1600_ExtractLanes, KeccakP1600_ExtractBytesInLane. cbn [Z.eqb].
  pose proof (Z.div_mod n 8 ltac:(lia)) as Hdm. pose proof (Z.mod_pos_bound n 8 ltac:(lia)) as Hm.
  pose proof (Z.div_pos n 8 Hn ltac:(lia)) as Hq.
  set (out := for_z _ _ _ _).
  assert (Ho : len out = 8 * (n / 8) /\ Forall is_byte out).
  { unfold out. replace (n / 8) with (0 + Z.of_nat (Z.to_nat (n / 8))) at 2 by lia.
    apply (for_z_inv _ (fun i out => len out = 8 * i /\ Forall is_byte out)); [split; [reflexivity | apply Forall_nil_2] |].
    intros i o _ [Hl Hb]. destruct (laneAsBytes_ok i A) as [Hl' Hb']. rewrite len_app. split; [lia | apply Forall_byte_app; assumption]. }
  destruct Ho as [Hl Hb]. destruct (laneAsBytes_ok (n / 8) A) as [Hl' Hb'].
  destruct (Z.ltb_spec 0 (n mod 8)); [| split; [lia | exact Hb]].
  rewrite len_app, len_slice by lia. split; [lia | apply Forall_byte_app; [exact Hb | apply Forall_slice, Hb']].
Qed.

Lemma absorb_total n : forall i in_ A, is_Some (xkcp_absorb n i in_ A).
Proof.
  induction n as [| n IH]; intros i in_ A; cbn [xkcp_absorb]; [eexists; reflexivity |].
  destruct (permute_total (KeccakP1600_AddBytes (from (i * XKCP_SHAKE256_RATE) in_) 0 XKCP_SHAKE256_RATE A)) as [A' ->]. apply IH.
Qed.

Lemma squeeze_total fuel : forall outlen A, (0 < fuel)%nat -> 0 <= outlen <= 136 * Z.of_nat fuel ->
  exists y, xkcp_squeeze fuel outlen A = Some y /\ len y = outlen /\ Forall is_byte y.
Proof.
  induction fuel as [| fuel IH]; intros outlen A Hf Ho; [lia |]. cbn [xkcp_squeeze]. change XKCP_SHAKE256_RATE with 136.
  destruct (Z.ltb_spec 136 outlen).
  - destruct (permute_total A) as [A' ->]. destruct (IH (outlen - 136) A' ltac:(lia) ltac:(lia)) as (y & -> & Hl & Hb).
    destruct (extract_ok 136 A ltac:(lia)) as [Hl' Hb']. eexists. split; [reflexivity |].
    rewrite len_app. split; [lia | apply Forall_byte_app; assumption].
  - eexists. split; [reflexivity | apply extract_ok; lia].
Qed.

Lemma xkcp_shake256_total outlen in_ : 0 <= outlen ->
  exists y, xkcp_shake256 outlen in_ = Some y /\ len y = outlen /\ Forall is_byte y.
Proof.
  intros Ho. unfold xkcp_shake256. destruct (absorb_total (Z.to_nat (len in_ / XKCP_SHAKE256_RATE)) 0 in_ KeccakP1600_Initialize) as [A ->].
  match goal with |- context [KeccakP1600_Permute_24rounds ?A] => destruct (permute_total A) as [A' ->] end.
  change XKCP_SHAKE256_RATE with 136.
  pose proof (Z.div_pos outlen 136 Ho ltac:(lia)) as Hoq. pose proof (Z.mod_pos_bound outlen 136 ltac:(lia)) as Hom.
  pose proof (Z.div_mod outlen 136 ltac:(lia)) as Hod.
  apply squeeze_total; lia.
Qed.
