(* ===== verification/Haraka.v ===== *)
(** Haraka v2 sponge (hashs/haraka.c): the bit-sliced permutation
    [haraka512_perm], the one-shot and incremental sponges over it, the tweaked
    constants, and the fixed-input functions [haraka512], [haraka256].

    A bit-sliced state is eight words; word [q[i]] holds bit [i] of every byte.
    C macros and in-place array updates are functions from list to list. *)

From S2P Require Import Prelude.

Definition HARAKAS_RATE : Z := 32.

Definition haraka512_rc64 : list (list Z) :=
  [[0x24cf0ab9086f628b; 0xbdd6eeecc83b8382; 0xd96fb0306cdad0a7; 0xaace082ac8f95f89;
    0x449d8e8870d7041f; 0x49bb2f80b2b3e2f8; 0x0569ae98d93bb258; 0x23dc9691e7d6a4b1];
   [0xd8ba10ede0fe5b6e; 0x7ecf7dbe424c7b8e; 0x6ea9949c6df62a31; 0xbf3f3c97ec9c313e;
    0x241d03a196a1861e; 0xead3a51116e5a2ea; 0x77d479fcad9574e3; 0x18657a1af894b7a0];
   [0x10671e1a7f595522; 0xd9a00ff675d28c7b; 0x2f1edf0d2b9ba661; 0xb8ff58b8e3de45f9;
    0xee29261da9865c02; 0xd1532aa4b50bdf43; 0x8bf858159b231bb1; 0xdf17439d22d4f599];
   [0xdd4b2f0870b918c0; 0x757a81f3b39b1bb6; 0x7a5c556898952e3f; 0x7dd70a16d915d87a;
    0x3ae61971982b8301; 0xc3ab319e030412be; 0x17c0033ac094a8cb; 0x5a0630fc1a8dc4ef];
   [0x17708988c1632f73; 0xf92ddae090b44f4f; 0x11ac0285c43aa314; 0x509059941936b8ba;
    0xd03e152fa2ce9b69; 0x3fbcbcb63a32998b; 0x6204696d692254f7; 0x915542ed93ec59b4];
   [0xf4ed94aa8879236e; 0xff6cb41cd38e03c0; 0x069b38602368aeab; 0x669495b820f0ddba;
    0xf42013b1b8bf9e3d; 0xcf935efe6439734d; 0xbc1dcf42ca29e3f8; 0x7e6d3ed29f78ad67];
   [0xf3b0f6837ffcddaa; 0x3a76faef934ddf41; 0xcec7ae583a9c8e35; 0xe4dd18c68f0260af;
    0x2c0e5df1ad398eaa; 0x478df5236ae22e8c; 0xfb944c46fe865f39; 0xaa48f82f028132ba];
   [0x231b9ae2b76aca77; 0x292a76a712db0b40; 0x5850625dc8134491; 0x73137dd469810fb5;
    0x8a12a6a202a474fd; 0xd36fd9daa78bdb80; 0xb34c5e733505706f; 0xbaf1cdca818d9d96];
   [0x2e99781335e8c641; 0xbddfe5cce47d560e; 0xf74e9bf32e5e040c; 0x1d7a709d65996be9;
    0x670df36a9cf66cdd; 0xd05ef84a176a2875; 0x0f888e828cb1c44e; 0x1a79e9c9727b052c];
   [0x83497348628d84de; 0x2e9387d51f22a754; 0xb000068da2f852d6; 0x378c9e1190fd6fe5;
    0x870027c316de7293; 0xe51a9d4462e047bb; 0x90ecf7f8c6251195; 0x655953bfbed90a9c]].

Definition br_dec32le (src : bytes) : Z :=
  rd src 0 .| (rd src 1 .<< 8) .| (rd src 2 .<< 16) .| (rd src 3 .<< 24).

Definition br_range_dec32le (num : nat) (src : bytes) : list Z :=
  for_z num 0 (fun i v => v ++ [br_dec32le (from (4 * i) src)]) [].

Definition br_enc32le (x : Z) : bytes :=
  [u8 x; u8 (x .>> 8); u8 (x .>> 16); u8 (x .>> 24)].

Definition br_range_enc32le (v : list Z) : bytes := concat (map br_enc32le v).

(** The Boyar-Peralta circuit, the common body of the 64-bit and the 32-bit
    function; [neg] is the complement at the slice width, [x0] is [q[7]], ..., [x7] is [q[0]]. *)
Definition bitslice_Sbox (neg : Z -> Z) (q : list Z) : list Z :=
  match q with
  | [x7; x6; x5; x4; x3; x2; x1; x0] =>
      let y14 := x3 ^^ x5 in let y13 := x0 ^^ x6 in let y9 := x0 ^^ x3 in
      let y8 := x0 ^^ x5 in let t0 := x1 ^^ x2 in let y1 := t0 ^^ x7 in
      let y4 := y1 ^^ x3 in let y12 := y13 ^^ y14 in let y2 := y1 ^^ x0 in
      let y5 := y1 ^^ x6 in let y3 := y5 ^^ y8 in let t1 := x4 ^^ y12 in
      let y15 := t1 ^^ x5 in let y20 := t1 ^^ x1 in let y6 := y15 ^^ x7 in
      let y10 := y15 ^^ t0 in let y11 := y20 ^^ y9 in let y7 := x7 ^^ y11 in
      let y17 := y10 ^^ y11 in let y19 := y10 ^^ y8 in let y16 := t0 ^^ y11 in
      let y21 := y13 ^^ y16 in let y18 := x0 ^^ y16 in let t2 := y12 .& y15 in
      let t3 := y3 .& y6 in let t4 := t3 ^^ t2 in let t5 := y4 .& x7 in
      let t6 := t5 ^^ t2 in let t7 := y13 .& y16 in let t8 := y5 .& y1 in
      let t9 := t8 ^^ t7 in let t10 := y2 .& y7 in let t11 := t10 ^^ t7 in
      let t12 := y9 .& y11 in let t13 := y14 .& y17 in let t14 := t13 ^^ t12 in
      let t15 := y8 .& y10 in let t16 := t15 ^^ t12 in let t17 := t4 ^^ t14 in
      let t18 := t6 ^^ t16 in let t19 := t9 ^^ t14 in let t20 := t11 ^^ t16 in
      let t21 := t17 ^^ y20 in let t22 := t18 ^^ y19 in let t23 := t19 ^^ y21 in
      let t24 := t20 ^^ y18 in let t25 := t21 ^^ t22 in let t26 := t21 .& t23 in
      let t27 := t24 ^^ t26 in let t28 := t25 .& t27 in let t29 := t28 ^^ t22 in
      let t30 := t23 ^^ t24 in let t31 := t22 ^^ t26 in let t32 := t31 .& t30 in
      let t33 := t32 ^^ t24 in let t34 := t23 ^^ t33 in let t35 := t27 ^^ t33 in
      let t36 := t24 .& t35 in let t37 := t36 ^^ t34 in let t38 := t27 ^^ t36 in
      let t39 := t29 .& t38 in let t40 := t25 ^^ t39 in let t41 := t40 ^^ t37 in
      let t42 := t29 ^^ t33 in let t43 := t29 ^^ t40 in let t44 := t33 ^^ t37 in
      let t45 := t42 ^^ t41 in let z0 := t44 .& y15 in let z1 := t37 .& y6 in
      let z2 := t33 .& x7 in let z3 := t43 .& y16 in let z4 := t40 .& y1 in
      let z5 := t29 .& y7 in let z6 := t42 .& y11 in let z7 := t45 .& y17 in
      let z8 := t41 .& y10 in let z9 := t44 .& y12 in let z10 := t37 .& y3 in
      let z11 := t33 .& y4 in let z12 := t43 .& y13 in let z13 := t40 .& y5 in
      let z14 := t29 .& y2 in let z15 := t42 .& y9 in let z16 := t45 .& y14 in
      let z17 := t41 .& y8 in let t46 := z15 ^^ z16 in let t47 := z10 ^^ z11 in
      let t48 := z5 ^^ z13 in let t49 := z9 ^^ z10 in let t50 := z2 ^^ z12 in
      let t51 := z2 ^^ z5 in let t52 := z7 ^^ z8 in let t53 := z0 ^^ z3 in
      let t54 := z6 ^^ z7 in let t55 := z16 ^^ z17 in let t56 := z12 ^^ t48 in
      let t57 := t50 ^^ t53 in let t58 := z4 ^^ t46 in let t59 := z3 ^^ t54 in
      let t60 := t46 ^^ t57 in let t61 := z14 ^^ t57 in let t62 := t52 ^^ t58 in
      let t63 := t49 ^^ t58 in let t64 := z4 ^^ t59 in let t65 := t61 ^^ t62 in
      let t66 := z1 ^^ t63 in let s0 := t59 ^^ t63 in let s6 := t56 ^^ neg t62 in
      let s7 := t48 ^^ neg t60 in let t67 := t64 ^^ t65 in let s3 := t53 ^^ t66 in
      let s4 := t51 ^^ t66 in let s5 := t47 ^^ t65 in let s1 := t64 ^^ neg s3 in
      let s2 := t55 ^^ neg t67 in
      [s7; s6; s5; s4; s3; s2; s1; s0]
  | _ => q
  end.

Definition br_aes_ct64_bitslice_Sbox : list Z -> list Z := bitslice_Sbox not64.
Definition br_aes_ct_bitslice_Sbox : list Z -> list Z := bitslice_Sbox not32.

(** [SWAPN_32]/[SWAPN] on the words [i] and [j]. *)
Definition SWAPN_32 (cl ch s : Z) (i j : Z) (q : list Z) : list Z :=
  let a := rd q i in let b := rd q j in
  upd j (((a .& ch) .>> s) .| (b .& ch))
    (upd i ((a .& cl) .| u32 ((b .& cl) .<< s)) q).

Definition SWAP2_32 := SWAPN_32 0x55555555 0xAAAAAAAA 1.
Definition SWAP4_32 := SWAPN_32 0x33333333 0xCCCCCCCC 2.
Definition SWAP8_32 := SWAPN_32 0x0F0F0F0F 0xF0F0F0F0 4.

Definition br_aes_ct_ortho (q : list Z) : list Z :=
  let q := SWAP2_32 0 1 q in let q := SWAP2_32 2 3 q in
  let q := SWAP2_32 4 5 q in let q := SWAP2_32 6 7 q in
  let q := SWAP4_32 0 2 q in let q := SWAP4_32 1 3 q in
  let q := SWAP4_32 4 6 q in let q := SWAP4_32 5 7 q in
  let q := SWAP8_32 0 4 q in let q := SWAP8_32 1 5 q in
  let q := SWAP8_32 2 6 q in SWAP8_32 3 7 q.

Definition add_round_key32 (q sk : list Z) : list Z :=
  for_z 8 0 (fun i q => upd i (rd q i ^^ rd sk i) q) q.

Definition shift_rows32 (q : list Z) : list Z :=
  for_z 8 0 (fun i q =>
    let x := rd q i in
    upd i ((x .& 0x000000FF)
           .| ((x .& 0x0000FC00) .>> 2) .| u32 ((x .& 0x00000300) .<< 6)
           .| ((x .& 0x00F00000) .>> 4) .| u32 ((x .& 0x000F0000) .<< 4)
           .| ((x .& 0xC0000000) .>> 6) .| u32 ((x .& 0x3F000000) .<< 2)) q) q.

Definition rotr16 (x : Z) : Z := u32 (x .<< 16) .| (x .>> 16).

Definition mix_columns32 (q : list Z) : list Z :=
  let '(q0, q1, q2, q3) := (rd q 0, rd q 1, rd q 2, rd q 3) in
  let '(q4, q5, q6, q7) := (rd q 4, rd q 5, rd q 6, rd q 7) in
  let r x := (x .>> 8) .| u32 (x .<< 24) in
  let '(r0, r1, r2, r3) := (r q0, r q1, r q2, r q3) in
  let '(r4, r5, r6, r7) := (r q4, r q5, r q6, r q7) in
  [q7 ^^ r7 ^^ r0 ^^ rotr16 (q0 ^^ r0);
   q0 ^^ r0 ^^ q7 ^^ r7 ^^ r1 ^^ rotr16 (q1 ^^ r1);
   q1 ^^ r1 ^^ r2 ^^ rotr16 (q2 ^^ r2);
   q2 ^^ r2 ^^ q7 ^^ r7 ^^ r3 ^^ rotr16 (q3 ^^ r3);
   q3 ^^ r3 ^^ q7 ^^ r7 ^^ r4 ^^ rotr16 (q4 ^^ r4);
   q4 ^^ r4 ^^ r5 ^^ rotr16 (q5 ^^ r5);
   q5 ^^ r5 ^^ r6 ^^ rotr16 (q6 ^^ r6);
   q6 ^^ r6 ^^ r7 ^^ rotr16 (q7 ^^ r7)].

Definition SWAPN (cl ch s : Z) (i j : Z) (q : list Z) : list Z :=
  let a := rd q i in let b := rd q j in
  upd j (((a .& ch) .>> s) .| (b .& ch))
    (upd i ((a .& cl) .| u64 ((b .& cl) .<< s)) q).

Definition SWAP2 := SWAPN 0x5555555555555555 0xAAAAAAAAAAAAAAAA 1.
Definition SWAP4 := SWAPN 0x3333333333333333 0xCCCCCCCCCCCCCCCC 2.
Definition SWAP8 := SWAPN 0x0F0F0F0F0F0F0F0F 0xF0F0F0F0F0F0F0F0 4.

Definition br_aes_ct64_ortho (q : list Z) : list Z :=
  let q := SWAP2 0 1 q in let q := SWAP2 2 3 q in
  let q := SWAP2 4 5 q in let q := SWAP2 6 7 q in
  let q := SWAP4 0 2 q in let q := SWAP4 1 3 q in
  let q := SWAP4 4 6 q in let q := SWAP4 5 7 q in
  let q := SWAP8 0 4 q in let q := SWAP8 1 5 q in
  let q := SWAP8 2 6 q in SWAP8 3 7 q.

(** The spreading each of [x0..x3] goes through, and [*q0], [*q1]. *)
Definition interleave_spread (x : Z) : Z :=
  let x := x .| (x .<< 16) in
  let x := x .& 0x0000FFFF0000FFFF in
  let x := x .| (x .<< 8) in
  x .& 0x00FF00FF00FF00FF.

Definition br_aes_ct64_interleave_in (w : list Z) : Z * Z :=
  let x0 := interleave_spread (rd w 0) in let x1 := interleave_spread (rd w 1) in
  let x2 := interleave_spread (rd w 2) in let x3 := interleave_spread (rd w 3) in
  (x0 .| (x2 .<< 8), x1 .| (x3 .<< 8)).

Definition interleave_gather (x : Z) : Z :=
  let x := x .| (x .>> 8) in
  let x := x .& 0x0000FFFF0000FFFF in
  u32 x .| u32 (x .>> 16).

Definition br_aes_ct64_interleave_out (q0 q1 : Z) : list Z :=
  let x0 := q0 .& 0x00FF00FF00FF00FF in
  let x1 := q1 .& 0x00FF00FF00FF00FF in
  let x2 := (q0 .>> 8) .& 0x00FF00FF00FF00FF in
  let x3 := (q1 .>> 8) .& 0x00FF00FF00FF00FF in
  [interleave_gather x0; interleave_gather x1; interleave_gather x2; interleave_gather x3].

Definition add_round_key (q sk : list Z) : list Z :=
  for_z 8 0 (fun i q => upd i (rd q i ^^ rd sk i) q) q.

Definition shift_rows (q : list Z) : list Z :=
  for_z 8 0 (fun i q =>
    let x := rd q i in
    upd i ((x .& 0x000000000000FFFF)
           .| ((x .& 0x00000000FFF00000) .>> 4)
           .| u64 ((x .& 0x00000000000F0000) .<< 12)
           .| ((x .& 0x0000FF0000000000) .>> 8)
           .| u64 ((x .& 0x000000FF00000000) .<< 8)
           .| ((x .& 0xF000000000000000) .>> 12)
           .| u64 ((x .& 0x0FFF000000000000) .<< 4)) q) q.

(** [rotr32] of the 64-bit slices. *)
Definition rotr32_64 (x : Z) : Z := u64 (x .<< 32) .| (x .>> 32).

Definition mix_columns (q : list Z) : list Z :=
  let '(q0, q1, q2, q3) := (rd q 0, rd q 1, rd q 2, rd q 3) in
  let '(q4, q5, q6, q7) := (rd q 4, rd q 5, rd q 6, rd q 7) in
  let r x := (x .>> 16) .| u64 (x .<< 48) in
  let '(r0, r1, r2, r3) := (r q0, r q1, r q2, r q3) in
  let '(r4, r5, r6, r7) := (r q4, r q5, r q6, r q7) in
  [q7 ^^ r7 ^^ r0 ^^ rotr32_64 (q0 ^^ r0);
   q0 ^^ r0 ^^ q7 ^^ r7 ^^ r1 ^^ rotr32_64 (q1 ^^ r1);
   q1 ^^ r1 ^^ r2 ^^ rotr32_64 (q2 ^^ r2);
   q2 ^^ r2 ^^ q7 ^^ r7 ^^ r3 ^^ rotr32_64 (q3 ^^ r3);
   q3 ^^ r3 ^^ q7 ^^ r7 ^^ r4 ^^ rotr32_64 (q4 ^^ r4);
   q4 ^^ r4 ^^ r5 ^^ rotr32_64 (q5 ^^ r5);
   q5 ^^ r5 ^^ r6 ^^ rotr32_64 (q6 ^^ r6);
   q6 ^^ r6 ^^ r7 ^^ rotr32_64 (q7 ^^ r7)].

(** The loop [br_aes_ct64_interleave_in(&q[i], &q[i + 4], w + (i << 2))]. *)
Definition interleave_all (w : list Z) : list Z :=
  for_z 4 0 (fun i q =>
    let '(a, b) := br_aes_ct64_interleave_in (from (i .<< 2) w) in
    upd (i + 4) b (upd i a q)) (fill 0 8).

Definition interleave_constant (in_ : bytes) : list Z :=
  br_aes_ct64_ortho (interleave_all (br_range_dec32le 16 in_)).

Definition interleave_constant32 (in_ : bytes) : list Z :=
  br_aes_ct_ortho (for_z 4 0 (fun i out =>
    out ++ [br_dec32le (from (4 * i) in_); br_dec32le (from (4 * i + 16) in_)]) []).

(** The linear step between AES round pairs on one 64-bit slice. *)
Definition mix_states (tmp_q : Z) : Z :=
  u64 ((tmp_q .& 0x0001000100010001) .<< 5)
  .| u64 ((tmp_q .& 0x0002000200020002) .<< 12)
  .| ((tmp_q .& 0x0004000400040004) .>> 1)
  .| u64 ((tmp_q .& 0x0008000800080008) .<< 6)
  .| u64 ((tmp_q .& 0x0020002000200020) .<< 9)
  .| ((tmp_q .& 0x0040004000400040) .>> 4)
  .| u64 ((tmp_q .& 0x0080008000800080) .<< 3)
  .| ((tmp_q .& 0x2100210021002100) .>> 5)
  .| u64 ((tmp_q .& 0x0210021002100210) .<< 2)
  .| u64 ((tmp_q .& 0x0800080008000800) .<< 4)
  .| ((tmp_q .& 0x1000100010001000) .>> 12)
  .| ((tmp_q .& 0x4000400040004000) .>> 10)
  .| ((tmp_q .& 0x8400840084008400) .>> 3).

(** One iteration of the round loop under the constants [rc]. *)
Definition haraka512_round (rc : list (list Z)) (i : Z) (q : list Z) : list Z :=
  let q := for_z 2 0 (fun j q =>
    add_round_key (mix_columns (shift_rows (br_aes_ct64_bitslice_Sbox q)))
      (nth (Z.to_nat (2 * i + j)) rc [])) q in
  map mix_states q.

(** [rc] is the static [tweaked512_rc64] at the time of the call. *)
Definition haraka512_perm (rc : list (list Z)) (in_ : bytes) : bytes :=
  let w := br_range_dec32le 16 in_ in
  let q := br_aes_ct64_ortho (interleave_all w) in
  let q := for_z 5 0 (haraka512_round rc) q in
  let q := br_aes_ct64_ortho q in
  let w := for_z 4 0 (fun i w => w ++ br_aes_ct64_interleave_out (rd q i) (rd q (i + 4))) [] in
  br_range_enc32le w.

(** ** The sponge *)

Definition xor_bytes (n : Z) (m s : bytes) : bytes :=
  for_z (Z.to_nat n) 0 (fun i s => upd i (rd s i ^^ rd m i) s) s.

Fixpoint haraka_absorb_loop (fuel : nat) (rc : list (list Z)) (s : bytes) (r : Z) (m : bytes)
  : bytes * bytes :=
  match fuel with
  | O => (s, m)
  | S fuel' =>
      if r <=? len m then
        haraka_absorb_loop fuel' rc (haraka512_perm rc (xor_bytes r m s)) r (from r m)
      else (s, m)
  end.

Definition haraka_S_absorb (rc : list (list Z)) (s : bytes) (r : Z) (m : bytes) (p : Z) : bytes :=
  let '(s, m) := haraka_absorb_loop (length m) rc s r m in
  let t := fill 0 HARAKAS_RATE in
  let t := splice 0 m t in
  let t := upd (len m) p t in
  let t := upd (r - 1) (rd t (r - 1) .| 128) t in
  xor_bytes r t s.

(** What is written at [h], and the state. *)
Fixpoint haraka_S_squeezeblocks (rc : list (list Z)) (nblocks : nat) (s : bytes) : bytes * bytes :=
  match nblocks with
  | O => ([], s)
  | S nblocks' =>
      let s := haraka512_perm rc s in
      let '(h, s') := haraka_S_squeezeblocks rc nblocks' s in
      (slice 0 HARAKAS_RATE s ++ h, s')
  end.

Definition haraka_S (rc : list (list Z)) (outlen : Z) (in_ : bytes) : bytes :=
  let s := fill 0 64 in
  let s := haraka_S_absorb rc s 32 in_ 0x1F in
  let '(out, s) := haraka_S_squeezeblocks rc (Z.to_nat (outlen / 32)) s in
  if outlen mod 32 =? 0 then out
  else
    let '(d, _) := haraka_S_squeezeblocks rc 1 s in
    out ++ slice 0 (outlen mod 32) d.

(** The statics [tweaked512_rc64], [tweaked256_rc32], [tweaked256_rc32_sseed]. *)
Record haraka_constants := mkHarakaConstants {
  tweaked512_rc64 : list (list Z);
  tweaked256_rc32 : list (list Z);
  tweaked256_rc32_sseed : list (list Z)
}.

(** [sk_seed = None] is the NULL pointer; [rc] holds the statics before the call. *)
Definition tweak_constants (rc : haraka_constants) (pk_seed : bytes) (sk_seed : option bytes)
  : haraka_constants :=
  let rc := rc {{ tweaked512_rc64 := haraka512_rc64 }} in
  let rc :=
    match sk_seed with
    | Some sk_seed =>
        let buf := haraka_S (tweaked512_rc64 rc) (40 * 16) sk_seed in
        rc {{ tweaked256_rc32_sseed :=
                map (fun i => interleave_constant32 (from (32 * i) buf)) (seqZ 0 10) }}
    | None => rc
    end in
  let buf := haraka_S (tweaked512_rc64 rc) (40 * 16) pk_seed in
  rc {{ tweaked256_rc32 := map (fun i => interleave_constant32 (from (32 * i) buf)) (seqZ 0 10);
        tweaked512_rc64 := map (fun i => interleave_constant (from (64 * i) buf)) (seqZ 0 10) }}.

(** ** The incremental sponge: the state and the count [s_inc[64]] *)

Record haraka_inc := mkInc { inc_s : bytes; inc_n : Z }.

Definition haraka_S_inc_init : haraka_inc := mkInc (fill 0 64) 0.

(** [s_inc[off + i] ^= m[i]] for [i < n]. *)
Definition xor_at (off n : Z) (m s : bytes) : bytes :=
  for_z (Z.to_nat n) 0 (fun i s => upd (off + i) (rd s (off + i) ^^ rd m i) s) s.

Fixpoint inc_absorb_loop (fuel : nat) (rc : list (list Z)) (st : haraka_inc) (m : bytes)
  : haraka_inc * bytes :=
  match fuel with
  | O => (st, m)
  | S fuel' =>
      if HARAKAS_RATE <=? len m + inc_n st then
        let n := HARAKAS_RATE - inc_n st in
        inc_absorb_loop fuel' rc
          (mkInc (haraka512_perm rc (xor_at (inc_n st) n m (inc_s st))) 0) (from n m)
      else (st, m)
  end.

Definition haraka_S_inc_absorb (rc : list (list Z)) (st : haraka_inc) (m : bytes) : haraka_inc :=
  let '(st, m) := inc_absorb_loop (S (length m)) rc st m in
  mkInc (xor_at (inc_n st) (len m) m (inc_s st)) (u8 (inc_n st + len m)).

Definition haraka_S_inc_finalize (st : haraka_inc) : haraka_inc :=
  let s := upd (inc_n st) (rd (inc_s st) (inc_n st) ^^ 0x1F) (inc_s st) in
  let s := upd (HARAKAS_RATE - 1) (rd s (HARAKAS_RATE - 1) ^^ 128) s in
  mkInc s 0.

(** The squeezing loop [while (outlen > 0)]. *)
Fixpoint inc_squeeze_loop (fuel : nat) (rc : list (list Z)) (outlen : Z) (st : haraka_inc)
  : bytes * haraka_inc :=
  match fuel with
  | O => ([], st)
  | S fuel' =>
      if 0 <? outlen then
        let s := haraka512_perm rc (inc_s st) in
        let i := Z.min outlen HARAKAS_RATE in
        let '(out, st') := inc_squeeze_loop fuel' rc (outlen - i) (mkInc s (HARAKAS_RATE - i)) in
        (slice 0 i s ++ out, st')
      else ([], st)
  end.

Definition haraka_S_inc_squeeze (rc : list (list Z)) (outlen : Z) (st : haraka_inc)
  : bytes * haraka_inc :=
  let i := Z.min outlen (inc_n st) in
  let first := slice (HARAKAS_RATE - inc_n st) i (inc_s st) in
  let '(out, st) := inc_squeeze_loop (Z.to_nat outlen) rc (outlen - i)
                      (mkInc (inc_s st) (inc_n st - i)) in
  (first ++ out, st).

(** ** The fixed-input functions *)

Definition haraka512 (rc : list (list Z)) (in_ : bytes) : bytes :=
  let buf := haraka512_perm rc in_ in
  let buf := xor_bytes 64 in_ buf in
  slice 8 8 buf ++ slice 24 8 buf ++ slice 32 8 buf ++ slice 48 8 buf.

Definition mix_states32 (tmp_q : Z) : Z :=
  (tmp_q .& 0x81818181)
  .| u32 ((tmp_q .& 0x02020202) .<< 1)
  .| u32 ((tmp_q .& 0x04040404) .<< 2)
  .| u32 ((tmp_q .& 0x08080808) .<< 3)
  .| ((tmp_q .& 0x10101010) .>> 3)
  .| ((tmp_q .& 0x20202020) .>> 2)
  .| ((tmp_q .& 0x40404040) .>> 1).

(** [haraka256] and [haraka256_sk] differ in the constants they read. *)
Definition haraka256_with (rc : list (list Z)) (in_ : bytes) : bytes :=
  let q := for_z 4 0 (fun i q =>
    q ++ [br_dec32le (from (4 * i) in_); br_dec32le (from (4 * i + 16) in_)]) [] in
  let q := br_aes_ct_ortho q in
  let q := for_z 5 0 (fun i q =>
    let q := for_z 2 0 (fun j q =>
      add_round_key32 (mix_columns32 (shift_rows32 (br_aes_ct_bitslice_Sbox q)))
        (nth (Z.to_nat (2 * i + j)) rc [])) q in
    map mix_states32 q) q in
  let q := br_aes_ct_ortho q in
  let out := concat (map (fun i => br_enc32le (rd q (2 * i))) (seqZ 0 4))
             ++ concat (map (fun i => br_enc32le (rd q (2 * i + 1))) (seqZ 0 4)) in
  xor_bytes 32 in_ out.

Definition haraka256 (rc : haraka_constants) : bytes -> bytes :=
  haraka256_with (tweaked256_rc32 rc).
Definition haraka256_sk (rc : haraka_constants) : bytes -> bytes :=
  haraka256_with (tweaked256_rc32_sseed rc).

(** * The S-box circuit *)

(** The AES S-box of FIPS 197: inversion in GF(2^8), then the affine map. *)
Definition gf_xtime (a : Z) : Z :=
  let a := a .<< 1 in if Z.testbit a 8 then a ^^ 0x11b else a.

Definition gf_mul (a b : Z) : Z :=
  snd (for_z 8 0 (fun i '(p, acc) =>
         (gf_xtime p, if Z.testbit b i then acc ^^ p else acc)) (a, 0)).

Definition gf_inv (a : Z) : Z := for_z 253 0 (fun _ acc => gf_mul acc a) a.

Definition rotl8 (b n : Z) : Z := u8 (b .<< n) .| (b .>> (8 - n)).

Definition aes_sbox (a : Z) : Z :=
  let b := gf_inv a in
  b ^^ rotl8 b 1 ^^ rotl8 b 2 ^^ rotl8 b 3 ^^ rotl8 b 4 ^^ 0x63.

(** Bit [k] of every slice: the byte at position [k] of the bit-sliced state. *)
Definition bit_of (k x : Z) : Z := Z.b2z (Z.testbit x k).

Definition byte_at (k : Z) (q : list Z) : Z :=
  fold_right (fun x acc => bit_of k x + 2 * acc) 0 q.

(** [x] has bit [b] at position [k]. *)
Definition bit_rel (k x b : Z) : Prop := bit_of k x = b.

Definition neg1 (b : Z) : Z := b ^^ 1.

Lemma bit_rel_xor k x y a b : bit_rel k x a -> bit_rel k y b -> bit_rel k (x ^^ y) (a ^^ b).
Proof.
  unfold bit_rel, bit_of. intros <- <-. rewrite Z.lxor_spec.
  destruct (Z.testbit x k), (Z.testbit y k); reflexivity.
Qed.

Lemma bit_rel_and k x y a b : bit_rel k x a -> bit_rel k y b -> bit_rel k (x .& y) (a .& b).
Proof.
  unfold bit_rel, bit_of. intros <- <-. rewrite Z.land_spec.
  destruct (Z.testbit x k), (Z.testbit y k); reflexivity.
Qed.

(** A complement that flips bit [k]. *)
Definition flips (k : Z) (neg : Z -> Z) : Prop :=
  forall x b, bit_rel k x b -> bit_rel k (neg x) (neg1 b).

Lemma flips_ones k w : 0 <= k < w -> flips k (fun x => x ^^ Z.ones w).
Proof.
  intros Hk x b. unfold bit_rel, bit_of, neg1. intros <-.
  rewrite Z.lxor_spec, Z.ones_spec_low by lia. destruct (Z.testbit x k); reflexivity.
Qed.

Lemma flips_not64 k : 0 <= k < 64 -> flips k not64.
Proof. exact (flips_ones k 64). Qed.

Lemma flips_not32 k : 0 <= k < 32 -> flips k not32.
Proof. exact (flips_ones k 32). Qed.

(** One gate of the circuit, on both sides. *)
Lemma let_rel {A} (R : A -> A -> Prop) (r : Z -> Z -> Prop) (a b : Z) (f g : Z -> A) :
  r a b -> (forall x y, r x y -> R (f x) (g y)) -> R (let x := a in f x) (let y := b in g y).
Proof. intros Hr Hf. exact (Hf a b Hr). Qed.

Create HintDb bits.
#[local] Hint Resolve bit_rel_xor bit_rel_and : bits.

(** The circuit acts on each bit position separately. *)
Lemma bitslice_rel k neg q q1 :
  flips k neg -> Forall2 (bit_rel k) q q1 ->
  Forall2 (bit_rel k) (bitslice_Sbox neg q) (bitslice_Sbox neg1 q1).
Proof.
  intros Hneg Hq.
  destruct Hq as [| x7 b7 ? ? H7 Hq]; [constructor |].
  do 7 (destruct Hq as [| ? ? ? ? ? Hq]; [repeat (constructor; try assumption) |]).
  destruct Hq as [| ? ? ? ? ? Hq]; [| repeat (constructor; try assumption)].
  cbv beta iota delta [bitslice_Sbox]. unfold flips in Hneg.
  repeat lazymatch goal with
  | |- ?R (let x := ?a in @?f x) (let y := ?b in @?g y) =>
      refine (let_rel R (bit_rel k) a b f g _ _);
      [solve [eauto 6 with bits] | cbv beta; intros ? ? ?]
  end.
  repeat (constructor; [assumption |]). constructor.
Qed.

(** The circuit on single bits, for all 256 bytes. *)
Definition bits_of_byte (b : Z) : list Z := map (fun i => bit_of i b) (seqZ 0 8).

Lemma sbox_table :
  forallb (fun b => byte_at 0 (bitslice_Sbox neg1 (bits_of_byte b)) =? aes_sbox b) (seqZ 0 256) = true.
Proof. vm_compute. reflexivity. Qed.

Lemma bit_of_idem k x : bit_of 0 (bit_of k x) = bit_of k x.
Proof. unfold bit_of. destruct (Z.testbit x k); reflexivity. Qed.

Lemma byte_at_rel k q q1 : Forall2 (bit_rel k) q q1 -> byte_at k q = byte_at 0 q1.
Proof.
  induction 1 as [| x b q q1 Hx _ IH]; [reflexivity |].
  cbn [byte_at fold_right]. fold (byte_at k q) (byte_at 0 q1). rewrite IH.
  unfold bit_rel in Hx. rewrite <- Hx, bit_of_idem. reflexivity.
Qed.

Lemma bits_rel k q : Forall2 (bit_rel k) q (map (bit_of k) q).
Proof. induction q; constructor; [reflexivity | assumption]. Qed.

Lemma bits_byte k q :
  length q = 8%nat -> map (bit_of k) q = bits_of_byte (byte_at k q) /\ is_byte (byte_at k q).
Proof.
  intros Hq. do 8 (destruct q as [| ? q]; [discriminate Hq |]). destruct q; [| discriminate Hq].
  cbn [map byte_at fold_right]. unfold bit_of.
  repeat match goal with |- context [Z.testbit ?x k] => destruct (Z.testbit x k) end;
    (split; [reflexivity | unfold is_byte; cbn; lia]).
Qed.

Lemma bitslice_sbox k neg q :
  length q = 8%nat -> flips k neg -> byte_at k (bitslice_Sbox neg q) = aes_sbox (byte_at k q).
Proof.
  intros Hq Hneg. destruct (bits_byte k q Hq) as [Hb Hr].
  rewrite (byte_at_rel k _ _ (bitslice_rel k neg q _ Hneg (bits_rel k q))), Hb.
  pose proof sbox_table as Ht. rewrite forallb_forall in Ht.
  apply Z.eqb_eq, Ht, list_elem_of_In, elem_of_seqZ. unfold is_byte in Hr. lia.
Qed.

(** The bit-sliced substitution layers apply the AES S-box (inversion in
    GF(2^8) and the affine map, computed, not tabulated) to the byte held at
    every bit position of the state, for any state: 64 bytes in the 64-bit
    version, 32 in the 32-bit version. *)
Theorem haraka_sbox_is_aes (q : list Z) (k : Z) :
  length q = 8%nat ->
  (0 <= k < 64 -> byte_at k (br_aes_ct64_bitslice_Sbox q) = aes_sbox (byte_at k q)) /\
  (0 <= k < 32 -> byte_at k (br_aes_ct_bitslice_Sbox q) = aes_sbox (byte_at k q)).
Proof.
  intros Hq. split; intros Hk; apply bitslice_sbox; auto using flips_not64, flips_not32.
Qed.

Lemma haraka_sbox_is_aes_witness :
  byte_at 9 (br_aes_ct64_bitslice_Sbox (seqZ 500 8)) = aes_sbox (byte_at 9 (seqZ 500 8)).
Proof. apply (haraka_sbox_is_aes (seqZ 500 8) 9); [reflexivity | lia]. Defined.

(** * The sponge *)

Lemma concat_br_enc32le_len ws : length (br_range_enc32le ws) = (4 * length ws)%nat.
Proof. unfold br_range_enc32le. induction ws as [| w ws IH]; [reflexivity |]. simpl in *. lia. Qed.

Lemma br_range_enc32le_bytes ws : Forall is_byte (br_range_enc32le ws).
Proof.
  unfold br_range_enc32le. induction ws as [| w ws IH]; [constructor |].
  apply Forall_byte_app; [unfold br_enc32le; repeat constructor; apply u8_byte | exact IH].
Qed.

Lemma haraka512_perm_length rc s : length (haraka512_perm rc s) = 64%nat.
Proof. unfold haraka512_perm. rewrite concat_br_enc32le_len. reflexivity. Qed.

Lemma haraka512_perm_bytes rc s : Forall is_byte (haraka512_perm rc s).
Proof. apply br_range_enc32le_bytes. Qed.

#[local] Opaque haraka512_perm.

Lemma xor_bytes_lookup n m s k :
  0 <= n ->
  xor_bytes n m s !! k
  = if decide (Z.of_nat k < n) then (fun x => x ^^ rd m (Z.of_nat k)) <$> s !! k else s !! k.
Proof.
  intros Hn. unfold xor_bytes.
  rewrite (for_upd_lookup (fun i x => x ^^ rd m i)) by lia.
  destruct (decide (Z.of_nat k < n)); [rewrite decide_True by lia | rewrite decide_False by lia];
    reflexivity.
Qed.

Lemma xor_bytes_length n m s : 0 <= n -> length (xor_bytes n m s) = length s.
Proof.
  unfold xor_bytes. generalize 0 at 2. intros i Hn. clear Hn. revert i s.
  induction (Z.to_nat n) as [| n' IH]; intros i s; [reflexivity |].
  cbn [for_z]. rewrite IH. apply length_insert.
Qed.

(** Only the first [n] bytes of [m] matter. *)
Lemma xor_bytes_slice n m s : 0 <= n -> xor_bytes n (slice 0 n m) s = xor_bytes n m s.
Proof.
  intros Hn. apply list_eq. intros k. rewrite !xor_bytes_lookup by lia.
  destruct (decide (Z.of_nat k < n)); [| reflexivity].
  destruct (s !! k); [| reflexivity]. simpl. do 2 f_equal.
  unfold rd, slice. rewrite drop_0, Nat2Z.id, !nth_lookup.
  rewrite lookup_take_lt by lia. reflexivity.
Qed.

Lemma xor_bytes_app n m tl s : 0 <= n <= len m -> xor_bytes n (m ++ tl) s = xor_bytes n m s.
Proof.
  intros Hn. rewrite <- xor_bytes_slice, slice_app_l, xor_bytes_slice by lia. reflexivity.
Qed.

(** The state after the first [n] whole blocks of [data]. *)
Fixpoint haraka_blocks (rc : list (list Z)) (n : nat) (s data : bytes) : bytes :=
  match n with
  | O => s
  | S n' => haraka_blocks rc n' (haraka512_perm rc (xor_bytes 32 (slice 0 32 data) s)) (from 32 data)
  end.

(** Domain byte and final bit around the rest of the message. *)
Definition haraka_last (rest : bytes) : bytes :=
  if len rest =? 31 then rest ++ [0x9F] else rest ++ [0x1F] ++ fill 0 (30 - len rest) ++ [0x80].

(** The state to squeeze from, after the whole message. *)
Definition haraka_absorbed (rc : list (list Z)) (m : bytes) : bytes :=
  let n := Z.to_nat (len m / 32) in
  xor_bytes 32 (haraka_last (from (32 * (len m / 32)) m)) (haraka_blocks rc n (fill 0 64) m).

Lemma haraka_blocks_length rc n s data :
  length s = 64%nat -> length (haraka_blocks rc n s data) = 64%nat.
Proof.
  revert s data. induction n as [| n IH]; intros s data Hs; [exact Hs |].
  apply IH, haraka512_perm_length.
Qed.

Lemma haraka_blocks_snoc rc n s data b tl :
  len data = 32 * Z.of_nat n -> len b = 32 ->
  haraka_blocks rc (S n) s (data ++ b ++ tl)
  = haraka512_perm rc (xor_bytes 32 b (haraka_blocks rc n s data)).
Proof.
  revert s data. induction n as [| n IH]; intros s data Hd Hb.
  - assert (data = []) as -> by (apply nil_length_inv; unfold len in *; lia).
    cbn [haraka_blocks app]. rewrite (slice_app_l 0 32 b) by lia.
    rewrite slice_all by lia. reflexivity.
  - change (haraka_blocks rc (S (S n)) s (data ++ b ++ tl))
      with (haraka_blocks rc (S n)
              (haraka512_perm rc (xor_bytes 32 (slice 0 32 (data ++ b ++ tl)) s))
              (from 32 (data ++ b ++ tl))).
    rewrite slice_app_l by lia.
    replace (from 32 (data ++ b ++ tl)) with (from 32 data ++ b ++ tl)
      by (unfold from; rewrite drop_app_le by (unfold len in *; lia); reflexivity).
    rewrite IH; [reflexivity | rewrite len_from; lia | exact Hb].
Qed.

Lemma haraka_absorb_loop_blocks rc n : forall fuel m s,
  32 * Z.of_nat n <= len m < 32 * Z.of_nat n + 32 -> (n <= fuel)%nat ->
  haraka_absorb_loop fuel rc s 32 m = (haraka_blocks rc n s m, from (32 * Z.of_nat n) m).
Proof.
  induction n as [| n IH]; intros fuel m s Hm Hf.
  - destruct fuel as [| fuel]; [reflexivity |]. cbn [haraka_absorb_loop].
    destruct (Z.leb_spec 32 (len m)); [lia | reflexivity].
  - destruct fuel as [| fuel]; [lia |]. cbn [haraka_absorb_loop].
    destruct (Z.leb_spec 32 (len m)); [| lia].
    rewrite IH by (rewrite ?len_from; lia).
    cbn [haraka_blocks]. rewrite xor_bytes_slice, from_from by lia.
    f_equal. f_equal. lia.
Qed.

Lemma haraka_S_absorb_spec rc m :
  haraka_S_absorb rc (fill 0 64) 32 m 0x1F = haraka_absorbed rc m.
Proof.
  pose proof (len_nonneg m). pose proof (Z.div_mod (len m) 32 ltac:(lia)) as Hdm.
  pose proof (Z.mod_pos_bound (len m) 32 ltac:(lia)). pose proof (Z.div_pos (len m) 32 ltac:(lia) ltac:(lia)).
  unfold haraka_S_absorb, haraka_absorbed.
  rewrite (haraka_absorb_loop_blocks rc (Z.to_nat (len m / 32)))
    by (unfold len in *; lia).
  rewrite Z2Nat.id by lia. set (rest := from _ m).
  assert (Hr : 0 <= len rest < 32) by (unfold rest; rewrite len_from; lia).
  f_equal. unfold haraka_last.
  assert (Hsp : splice 0 rest (fill 0 HARAKAS_RATE) = rest ++ fill 0 (32 - len rest)).
  { rewrite (fill_split 0 (len rest) HARAKAS_RATE) by (unfold HARAKAS_RATE; lia).
    apply (splice_exact 0 rest [] (fill 0 (len rest))); [reflexivity |].
    unfold fill. rewrite length_replicate. apply len_to_nat. }
  rewrite Hsp, upd_app_r by (unfold len; lia).
  replace (len rest - Z.of_nat (length rest)) with 0 by (unfold len; lia).
  rewrite upd_fill by lia.
  destruct (Z.eqb_spec (len rest) 31) as [H31 | H31].
  - rewrite H31. unfold rd. rewrite app_nth2 by (unfold len in *; lia).
    replace (Z.to_nat (32 - 1) - length rest)%nat with 0%nat by (unfold len in *; lia).
    rewrite upd_app_r by (unfold len in *; lia).
    replace (32 - 1 - Z.of_nat (length rest)) with 0 by (unfold len in *; lia). reflexivity.
  - rewrite (fill_split 0 (30 - len rest) (32 - len rest - 1)) by lia.
    replace (32 - len rest - 1 - (30 - len rest)) with 1 by lia.
    rewrite !(app_assoc rest), !(app_assoc (rest ++ [0x1F])).
    assert (Hl : Z.of_nat (length ((rest ++ [0x1F]) ++ fill 0 (30 - len rest))) = 31).
    { unfold fill. rewrite !length_app, length_replicate. unfold len in *. simpl. lia. }
    unfold rd. rewrite app_nth2 by lia.
    replace (Z.to_nat (32 - 1) - _)%nat with 0%nat by lia.
    rewrite upd_app_r by lia. rewrite Hl. reflexivity.
Qed.

(** ** Incremental = one-shot *)

Lemma for_z_ext {A} n i (f g : Z -> A -> A) a :
  (forall i a, f i a = g i a) -> for_z n i f a = for_z n i g a.
Proof.
  intros Hfg. revert i a. induction n as [| n IH]; intros i a; [reflexivity |].
  cbn [for_z]. rewrite Hfg. apply IH.
Qed.

Lemma for_z_shift {A} n off i (f : Z -> A -> A) a :
  for_z n i (fun j => f (off + j)) a = for_z n (off + i) f a.
Proof.
  revert i a. induction n as [| n IH]; intros i a; [reflexivity |].
  cbn [for_z]. rewrite IH, Z.add_assoc. reflexivity.
Qed.

Lemma xor_at_lookup off n m s k :
  0 <= off -> 0 <= n ->
  xor_at off n m s !! k
  = if decide (off <= Z.of_nat k < off + n)
    then (fun x => x ^^ rd m (Z.of_nat k - off)) <$> s !! k else s !! k.
Proof.
  intros Ho Hn. unfold xor_at.
  transitivity (for_z (Z.to_nat n) 0
    (fun i => (fun j s => upd j (rd s j ^^ rd m (j - off)) s) (off + i)) s !! k).
  - f_equal. apply for_z_ext. intros i a. rewrite Z.add_simpl_l. reflexivity.
  - rewrite (for_z_shift _ off 0 (fun j s => upd j (rd s j ^^ rd m (j - off)) s)).
    rewrite (for_upd_lookup (fun j x => x ^^ rd m (j - off))) by lia.
    destruct (decide (off <= Z.of_nat k < off + n));
      [rewrite decide_True by lia | rewrite decide_False by lia]; reflexivity.
Qed.

(** Xoring two adjacent pieces is xoring their concatenation. *)
Lemma xor_at_app a m n s :
  0 <= n <= len m ->
  xor_at (len a) n m (xor_bytes (len a) a s) = xor_bytes (len a + n) (a ++ m) s.
Proof.
  intros Hn. pose proof (len_nonneg a). apply list_eq. intros k.
  rewrite xor_at_lookup, !xor_bytes_lookup by lia.
  destruct (decide (Z.of_nat k < len a)).
  - rewrite decide_False, decide_True by lia. rewrite rd_app_l by lia. reflexivity.
  - destruct (decide (Z.of_nat k < len a + n)).
    + rewrite decide_True by lia. rewrite rd_app_r by lia. reflexivity.
    + rewrite decide_False by lia. reflexivity.
Qed.

Lemma xor_bytes_zeros a z s :
  0 <= z -> xor_bytes (len a + z) (a ++ fill 0 z) s = xor_bytes (len a) a s.
Proof.
  intros Hz. pose proof (len_nonneg a). apply list_eq. intros k. rewrite !xor_bytes_lookup by lia.
  destruct (decide (Z.of_nat k < len a)).
  - rewrite decide_True by lia. rewrite rd_app_l by lia. reflexivity.
  - destruct (decide (Z.of_nat k < len a + z)); [| reflexivity].
    rewrite rd_app_r by lia. rewrite rd_fill.
    destruct (s !! k); [| reflexivity]. simpl. rewrite Z.lxor_0_r. reflexivity.
Qed.

(** The bytes absorbed so far. *)
Definition inc_inv (rc : list (list Z)) (st : haraka_inc) (msg : bytes) : Prop :=
  exists n whole rest,
    msg = whole ++ rest /\ len whole = 32 * Z.of_nat n /\ len rest < 32 /\
    inc_n st = len rest /\
    inc_s st = xor_bytes (len rest) rest (haraka_blocks rc n (fill 0 64) whole).

Lemma inc_init_inv rc : inc_inv rc haraka_S_inc_init [].
Proof. exists 0%nat, [], []. repeat split. Qed.

Lemma inc_absorb_piece rc st msg m :
  inc_inv rc st msg -> len m + inc_n st < 32 ->
  inc_inv rc (mkInc (xor_at (inc_n st) (len m) m (inc_s st)) (u8 (inc_n st + len m))) (msg ++ m).
Proof.
  intros (n & whole & rest & -> & Hw & Hr & Hn & Hs) Hm. pose proof (len_nonneg m).
  pose proof (len_nonneg rest).
  exists n, whole, (rest ++ m). cbn [inc_n inc_s]. rewrite len_app, Hn, Hs.
  rewrite u8_small by (unfold is_byte; lia).
  repeat split; [apply eq_sym, app_assoc | exact Hw | lia | apply xor_at_app; lia].
Qed.

Lemma inc_absorb_block rc st msg m :
  inc_inv rc st msg -> 32 <= len m + inc_n st ->
  let n := 32 - inc_n st in
  inc_inv rc (mkInc (haraka512_perm rc (xor_at (inc_n st) n m (inc_s st))) 0) (msg ++ slice 0 n m).
Proof.
  intros (n & whole & rest & -> & Hw & Hr & Hn & Hs) Hm. cbv zeta. pose proof (len_nonneg rest).
  rewrite Hn in *.
  assert (Hb : len (rest ++ slice 0 (32 - len rest) m) = 32)
    by (rewrite len_app, len_slice; lia).
  exists (S n), (whole ++ rest ++ slice 0 (32 - len rest) m), []. cbn [inc_n inc_s].
  rewrite app_nil_r, <- app_assoc. repeat split.
  - rewrite !len_app, len_slice by lia. lia.
  - rewrite <- (app_nil_r (rest ++ _)), haraka_blocks_snoc by assumption.
    change (xor_bytes (len []) [] ?s) with s. f_equal. rewrite Hs.
    rewrite <- (xor_bytes_app 32 _ (from (32 - len rest) m)) by lia.
    rewrite <- app_assoc.
    replace (slice 0 (32 - len rest) m ++ from (32 - len rest) m) with m
      by (unfold slice, from; rewrite drop_0, take_drop; reflexivity).
    rewrite xor_at_app by lia. f_equal. lia.
Qed.

Lemma inc_absorb_loop_inv rc fuel : forall st msg m st' m',
  inc_inv rc st msg -> (length m < fuel)%nat ->
  inc_absorb_loop fuel rc st m = (st', m') ->
  exists done, m = done ++ m' /\ inc_inv rc st' (msg ++ done) /\ len m' + inc_n st' < 32.
Proof.
  induction fuel as [| fuel IH]; intros st msg m st' m' Hinv Hf He; [lia |].
  cbn [inc_absorb_loop] in He. unfold HARAKAS_RATE in He.
  destruct (Z.leb_spec 32 (len m + inc_n st)) as [Hle | Hgt].
  - assert (Hn : 0 <= inc_n st < 32).
    { destruct Hinv as (? & ? & rest & _ & _ & ? & -> & _). pose proof (len_nonneg rest). lia. }
    pose proof (inc_absorb_block rc st msg m Hinv Hle) as Hb. cbv zeta in Hb.
    assert (Hf' : (length (from (32 - inc_n st) m) < fuel)%nat)
      by (unfold from; rewrite length_drop; unfold len in Hle; lia).
    destruct (IH _ _ _ st' m' Hb Hf' He) as (done & Hd & Hi & Hlt).
    exists (slice 0 (32 - inc_n st) m ++ done). rewrite <- app_assoc, <- Hd.
    split; [unfold slice, from; rewrite drop_0, take_drop; reflexivity |].
    rewrite app_assoc. split; assumption.
  - injection He as <- <-. exists []. rewrite app_nil_r. repeat split; [exact Hinv | lia].
Qed.

Lemma haraka_S_inc_absorb_inv rc st msg m :
  inc_inv rc st msg -> inc_inv rc (haraka_S_inc_absorb rc st m) (msg ++ m).
Proof.
  intros Hinv. unfold haraka_S_inc_absorb.
  destruct (inc_absorb_loop (S (length m)) rc st m) as [st' m'] eqn:He.
  destruct (inc_absorb_loop_inv rc _ st msg m st' m' Hinv (Nat.lt_succ_diag_r _) He) as (done & Hd & Hi & Hlt).
  subst m. rewrite app_assoc. apply inc_absorb_piece; assumption.
Qed.

Lemma upd_xor_at off v s : upd off (rd s off ^^ v) s = xor_at off 1 [v] s.
Proof. unfold xor_at. change (Z.to_nat 1) with 1%nat. cbn [for_z]. rewrite Z.add_0_r. reflexivity. Qed.

Lemma haraka_S_inc_finalize_inv rc st msg :
  inc_inv rc st msg -> haraka_S_inc_finalize st = mkInc (haraka_absorbed rc msg) 0.
Proof.
  intros (n & whole & rest & -> & Hw & Hr & Hn & Hs). unfold haraka_S_inc_finalize. f_equal.
  pose proof (len_nonneg rest).
  assert (Hq : len (whole ++ rest) / 32 = Z.of_nat n).
  { rewrite len_app, Hw, Z.mul_comm, Z.div_add_l by lia. rewrite (Z.div_small (len rest)); lia. }
  unfold haraka_absorbed. rewrite Hq, Nat2Z.id, from_exact by lia.
  assert (Hbl : haraka_blocks rc n (fill 0 64) (whole ++ rest)
                = haraka_blocks rc n (fill 0 64) whole).
  { clear - Hw. revert Hw. generalize (fill 0 64). revert whole.
    induction n as [| n IH]; intros whole s Hw; [reflexivity |]. cbn [haraka_blocks].
    rewrite slice_app_l by lia.
    replace (from 32 (whole ++ rest)) with (from 32 whole ++ rest)
      by (unfold from; rewrite drop_app_le by (unfold len in *; lia); reflexivity).
    apply IH. rewrite len_from; lia. }
  rewrite Hbl, Hn, Hs. set (S0 := haraka_blocks _ _ _ _).
  rewrite !upd_xor_at. unfold HARAKAS_RATE, haraka_last.
  rewrite (xor_at_app rest [0x1F] 1) by (unfold len; simpl; lia).
  destruct (Z.eqb_spec (len rest) 31) as [H31 | H31].
  - rewrite H31. apply list_eq. intros k.
    rewrite xor_at_lookup, !xor_bytes_lookup by lia.
    destruct (decide (Z.of_nat k < 31)).
    + rewrite decide_False, !decide_True by lia. rewrite !rd_app_l by lia. reflexivity.
    + destruct (decide (Z.of_nat k < 32)).
      * rewrite !decide_True by lia. rewrite !rd_app_r by lia.
        replace (Z.of_nat k - len rest) with 0 by lia.
        replace (Z.of_nat k - (32 - 1)) with 0 by lia.
        destruct (S0 !! k); [| reflexivity]. simpl. rewrite Z.lxor_assoc. reflexivity.
      * rewrite !decide_False by lia. reflexivity.
  - assert (H1 : len (rest ++ [0x1F]) = len rest + 1) by apply len_app.
    rewrite <- H1, <- (xor_bytes_zeros (rest ++ [0x1F]) (30 - len rest)) by lia.
    assert (H2 : len ((rest ++ [0x1F]) ++ fill 0 (30 - len rest)) = 31)
      by (rewrite len_app, len_fill; lia).
    replace (len (rest ++ [0x1F]) + (30 - len rest)) with 31 by lia.
    pose proof (xor_at_app _ [128] 1 S0 ltac:(unfold len; simpl; lia)
      : xor_at (len ((rest ++ [0x1F]) ++ fill 0 (30 - len rest))) 1 [128] _ = _) as Ha.
    rewrite H2 in Ha. etransitivity; [exact Ha |]. rewrite <- !app_assoc. reflexivity.
Qed.

Lemma squeezeblocks_app rc n m s :
  haraka_S_squeezeblocks rc (n + m) s
  = let '(a, s1) := haraka_S_squeezeblocks rc n s in
    let '(b, s2) := haraka_S_squeezeblocks rc m s1 in (a ++ b, s2).
Proof.
  revert s. induction n as [| n IH]; intros s.
  - simpl. destruct (haraka_S_squeezeblocks rc m s). reflexivity.
  - cbn [Nat.add haraka_S_squeezeblocks]. rewrite IH.
    destruct (haraka_S_squeezeblocks rc n _) as [a s1].
    destruct (haraka_S_squeezeblocks rc m s1) as [b s2]. rewrite app_assoc. reflexivity.
Qed.

Lemma squeezeblocks_len rc n s : len (fst (haraka_S_squeezeblocks rc n s)) = 32 * Z.of_nat n.
Proof.
  revert s. induction n as [| n IH]; intros s; [reflexivity |].
  cbn [haraka_S_squeezeblocks]. specialize (IH (haraka512_perm rc s)).
  destruct (haraka_S_squeezeblocks rc n _) as [a s1]. cbn [fst] in *.
  rewrite len_app, len_slice, IH by (unfold len, HARAKAS_RATE; rewrite ?haraka512_perm_length; lia).
  unfold HARAKAS_RATE. lia.
Qed.

(** The first [outlen] bytes of the output stream of the state [s]. *)
Definition haraka_stream (rc : list (list Z)) (outlen : Z) (s : bytes) : bytes :=
  slice 0 outlen (fst (haraka_S_squeezeblocks rc (Z.to_nat (outlen / 32) + 1) s)).

Lemma inc_squeeze_loop_stream rc fuel : forall outlen st,
  0 <= outlen <= Z.of_nat fuel ->
  fst (inc_squeeze_loop fuel rc outlen st) = haraka_stream rc outlen (inc_s st).
Proof.
  induction fuel as [| fuel IH]; intros outlen st Ho.
  - assert (outlen = 0) as -> by lia. reflexivity.
  - cbn [inc_squeeze_loop]. destruct (Z.ltb_spec 0 outlen) as [Hpos | Hz].
    2: { assert (outlen = 0) as -> by lia. reflexivity. }
    unfold HARAKAS_RATE. set (s := haraka512_perm rc (inc_s st)).
    assert (Hls : len s = 64) by (unfold len, s; rewrite haraka512_perm_length; reflexivity).
    specialize (IH (outlen - Z.min outlen 32) (mkInc s (32 - Z.min outlen 32)) ltac:(lia)).
    destruct (inc_squeeze_loop fuel rc _ _) as [out st'] eqn:Eq. cbn [fst inc_s] in *. subst out.
    unfold haraka_stream.
    destruct (Z.le_gt_cases 32 outlen) as [Hbig | Hsmall].
    + rewrite Z.min_r by lia.
      assert (Hd : outlen / 32 = (outlen - 32) / 32 + 1)
        by (replace outlen with (outlen - 32 + 1 * 32) at 1 by lia; apply Z.div_add; lia).
      pose proof (Z.div_pos (outlen - 32) 32 ltac:(lia) ltac:(lia)).
      replace (Z.to_nat (outlen / 32) + 1)%nat with (S (Z.to_nat ((outlen - 32) / 32) + 1)) by lia.
      cbn [haraka_S_squeezeblocks]. fold s.
      destruct (haraka_S_squeezeblocks rc _ s) as [h s'']. cbn [fst]. unfold HARAKAS_RATE.
      unfold slice. rewrite !drop_0, (take_app (take _ s)).
      rewrite length_take. replace (Z.to_nat 32 `min` length s)%nat with 32%nat by (unfold len in *; lia).
      rewrite firstn_firstn. f_equal; [f_equal; lia | f_equal; lia].
    + rewrite Z.min_l, Z.sub_diag, (Z.div_small outlen 32) by lia.
      change (Z.to_nat 0 + 1)%nat with 1%nat. cbn [haraka_S_squeezeblocks fst]. fold s.
      rewrite app_nil_r. unfold slice at 2. change (Z.to_nat 0) with 0%nat. cbn [firstn].
      rewrite app_nil_r. symmetry. exact (slice_slice_0 HARAKAS_RATE 0 outlen s ltac:(lia) ltac:(lia) ltac:(unfold HARAKAS_RATE; lia)).
Qed.

Lemma haraka_S_stream rc outlen m :
  0 <= outlen -> haraka_S rc outlen m = haraka_stream rc outlen (haraka_absorbed rc m).
Proof.
  intros Ho. unfold haraka_S. rewrite haraka_S_absorb_spec. set (s := haraka_absorbed rc m).
  unfold haraka_stream. rewrite squeezeblocks_app.
  pose proof (squeezeblocks_len rc (Z.to_nat (outlen / 32)) s) as Hl.
  destruct (haraka_S_squeezeblocks rc (Z.to_nat (outlen / 32)) s) as [a s1]. cbn [fst] in Hl.
  destruct (haraka_S_squeezeblocks rc 1 s1) as [b s2]. cbn [fst].
  pose proof (Z.div_mod outlen 32 ltac:(lia)). pose proof (Z.mod_pos_bound outlen 32 ltac:(lia)).
  pose proof (Z.div_pos outlen 32 Ho ltac:(lia)).
  assert (Hol : Z.to_nat outlen = (length a + Z.to_nat (outlen mod 32))%nat)
    by (unfold len in *; lia).
  unfold slice at 2. rewrite drop_0, Hol, firstn_app_2.
  destruct (Z.eqb_spec (outlen mod 32) 0) as [-> | Hne].
  - rewrite app_nil_r. reflexivity.
  - f_equal.
Qed.

Lemma inc_squeeze_stream rc outlen s :
  0 <= outlen -> fst (haraka_S_inc_squeeze rc outlen (mkInc s 0)) = haraka_stream rc outlen s.
Proof.
  intros Ho. unfold haraka_S_inc_squeeze. cbn [inc_n inc_s].
  rewrite Z.min_r, Z.sub_0_r by lia.
  etransitivity;
    [| exact (inc_squeeze_loop_stream rc (Z.to_nat outlen) outlen (mkInc s (0 - 0)) ltac:(lia))].
  destruct (inc_squeeze_loop _ rc outlen _) as [out st]. reflexivity.
Qed.

(** Absorbing a message in pieces with the incremental interface,
    finalising, and squeezing gives what the one-shot [haraka_S] gives on the
    concatenation, for every cut of the message, every output length and every
    set of round constants. *)
Theorem haraka_incremental_is_oneshot (rc : list (list Z)) (pieces : list bytes) (outlen : Z) :
  0 <= outlen ->
  fst (haraka_S_inc_squeeze rc outlen
         (haraka_S_inc_finalize (fold_left (haraka_S_inc_absorb rc) pieces haraka_S_inc_init)))
  = haraka_S rc outlen (concat pieces).
Proof.
  intros Ho. rewrite haraka_S_stream by exact Ho.
  assert (Hinv : inc_inv rc (fold_left (haraka_S_inc_absorb rc) pieces haraka_S_inc_init)
                   (concat pieces)).
  { rewrite <- (app_nil_l (concat pieces)). generalize (inc_init_inv rc).
    generalize haraka_S_inc_init ([] : bytes).
    induction pieces as [| p ps IH]; intros st msg Hst; simpl.
    - rewrite app_nil_r. exact Hst.
    - rewrite app_assoc. apply IH, haraka_S_inc_absorb_inv, Hst. }
  rewrite (haraka_S_inc_finalize_inv rc _ _ Hinv).
  apply inc_squeeze_stream, Ho.
Qed.

Lemma haraka_incremental_is_oneshot_witness :
  fst (haraka_S_inc_squeeze haraka512_rc64 40
         (haraka_S_inc_finalize
            (fold_left (haraka_S_inc_absorb haraka512_rc64) [fill 1 31; [2; 3]; fill 4 70]
               haraka_S_inc_init)))
  = haraka_S haraka512_rc64 40 (concat [fill 1 31; [2; 3]; fill 4 70]).
Proof.
  exact (haraka_incremental_is_oneshot haraka512_rc64 [fill 1 31; [2; 3]; fill 4 70] 40
           ltac:(discriminate)).
Defined.

(** * What the clients use *)

Lemma haraka_S_length rc outlen m : 0 <= outlen -> len (haraka_S rc outlen m) = outlen.
Proof.
  intros Ho. rewrite haraka_S_stream by exact Ho. unfold haraka_stream.
  pose proof (Z.div_mod outlen 32 ltac:(lia)). pose proof (Z.mod_pos_bound outlen 32 ltac:(lia)).
  pose proof (Z.div_pos outlen 32 Ho ltac:(lia)).
  apply len_slice; [lia | lia |]. rewrite squeezeblocks_len. lia.
Qed.

Lemma squeezeblocks_bytes rc n s : Forall is_byte (fst (haraka_S_squeezeblocks rc n s)).
Proof.
  revert s. induction n as [| n IH]; intros s; [constructor |].
  cbn [haraka_S_squeezeblocks]. specialize (IH (haraka512_perm rc s)).
  destruct (haraka_S_squeezeblocks rc n _) as [a s1]. cbn [fst] in *.
  apply Forall_byte_app; [apply Forall_take, Forall_drop, haraka512_perm_bytes | exact IH].
Qed.

Lemma haraka_S_bytes rc outlen m : 0 <= outlen -> Forall is_byte (haraka_S rc outlen m).
Proof.
  intros Ho. rewrite haraka_S_stream by exact Ho.
  apply Forall_take, Forall_drop, squeezeblocks_bytes.
Qed.
