(* ===== verification/Types.v ===== *)
(** The public data types (include/lms.h, include/hash_api.h, src/lms_internal.h)
    and the program state that src/*.c keeps in file-local statics: parameter
    caches, chain statistics and the registered hardware backends.

    A [uint32_t] is a [Z]; a fixed-size byte array is a list of bytes whose
    length the well-formedness predicates [wf_priv] and [wf_pub] state. *)

From S2P Require Import Prelude.

Definition LMS_N : Z := 32.
Definition LMS_I_LEN : Z := 16.
Definition LMS_SEED_LEN : Z := 32.
Definition LMS_MAX_HEIGHT : Z := 25.
Definition LMS_MAX_OTS_P : Z := 265.
Definition LMS_MAX_SIGNATURE_LEN : Z :=
  4 + 4 + LMS_N + LMS_MAX_OTS_P * LMS_N + 4 + LMS_MAX_HEIGHT * LMS_N.
Definition LMS_PUBLIC_KEY_LEN : Z := 4 + 4 + LMS_I_LEN + LMS_N.
Definition LMS_PRIVATE_KEY_LEN : Z := 4 + 4 + LMS_I_LEN + LMS_SEED_LEN + 4.

(** [lms_status_t]; [OUT_OF_FUEL] is not a status of the code: it is what a
    fuelled recursion of the model returns when its fuel runs out, and the
    totality theorems show that it is never returned.  Neither is [UNDEFINED]: a null
    pointer was followed. *)
Inductive lms_status_t :=
| LMS_OK
| LMS_ERR_INVALID
| LMS_ERR_BUFFER_TOO_SMALL
| LMS_ERR_EXHAUSTED
| LMS_ERR_VERIFY
| OUT_OF_FUEL
| UNDEFINED.

Definition LMS_SHA256_N32_H5 : Z := 0x05.
Definition LMS_SHA256_N32_H10 : Z := 0x06.
Definition LMS_SHA256_N32_H15 : Z := 0x07.
Definition LMS_SHA256_N32_H20 : Z := 0x08.
Definition LMS_SHA256_N32_H25 : Z := 0x09.
Definition LMS_SHAKE256_N32_H5 : Z := 0x15.
Definition LMS_SHAKE256_N32_H10 : Z := 0x16.
Definition LMS_SHAKE256_N32_H15 : Z := 0x17.
Definition LMS_SHAKE256_N32_H20 : Z := 0x18.
Definition LMS_SHAKE256_N32_H25 : Z := 0x19.
Definition LMS_HARAKA_N32_H5 : Z := 0x25.
Definition LMS_HARAKA_N32_H10 : Z := 0x26.
Definition LMS_HARAKA_N32_H15 : Z := 0x27.
Definition LMS_HARAKA_N32_H20 : Z := 0x28.
Definition LMS_HARAKA_N32_H25 : Z := 0x29.

Definition LMOTS_SHA256_N32_W1 : Z := 0x01.
Definition LMOTS_SHA256_N32_W2 : Z := 0x02.
Definition LMOTS_SHA256_N32_W4 : Z := 0x03.
Definition LMOTS_SHA256_N32_W8 : Z := 0x04.
Definition LMOTS_SHAKE256_N32_W1 : Z := 0x11.
Definition LMOTS_SHAKE256_N32_W2 : Z := 0x12.
Definition LMOTS_SHAKE256_N32_W4 : Z := 0x13.
Definition LMOTS_SHAKE256_N32_W8 : Z := 0x14.
Definition LMOTS_HARAKA_N32_W1 : Z := 0x21.
Definition LMOTS_HARAKA_N32_W2 : Z := 0x22.
Definition LMOTS_HARAKA_N32_W4 : Z := 0x23.
Definition LMOTS_HARAKA_N32_W8 : Z := 0x24.

Definition D_MESG : Z := 0x8181.
Definition D_PBLC : Z := 0x8080.
Definition D_LEAF : Z := 0x8282.
Definition D_INTR : Z := 0x8383.
Definition LMOTS_C_PRG_DOMAIN : Z := 0x8585.

Inductive lms_hash_alg_t := LMS_HASH_SHA256 | LMS_HASH_SHAKE256 | LMS_HASH_HARAKA.

#[export] Instance lms_hash_alg_eq_dec : EqDecision lms_hash_alg_t.
Proof. solve_decision. Defined.

#[export] Instance lms_status_eq_dec : EqDecision lms_status_t.
Proof. solve_decision. Defined.

Record lms_public_key_t := mkPub {
  pub_lms_type : Z;
  pub_lmots_type : Z;
  pub_I : bytes;
  pub_root : bytes
}.

Record lms_private_key_t := mkPriv {
  priv_lms_type : Z;
  priv_lmots_type : Z;
  priv_I : bytes;
  priv_seed : bytes;
  priv_q : Z
}.

Record lms_param_t := mkLmsParam {
  lms_p_type : Z;
  lms_p_hash_alg : lms_hash_alg_t;
  lms_p_height : Z;
  lms_p_n : Z
}.

Record lmots_param_t := mkLmotsParam {
  ots_p_type : Z;
  ots_p_hash_alg : lms_hash_alg_t;
  ots_p_n : Z;
  ots_p_w : Z;
  ots_p_p : Z;
  ots_p_ls : Z
}.

Record lmots_chain_stats_t := mkStats { calls : Z; steps : Z }.

(** ** Pointers

    A [void *] the model only passes on is a number, 0 is [NULL]. *)
Definition ptr := Z.
Definition NULL : ptr := 0.

(** A [(const uint8_t *p, size_t n)] argument: [NullBuf n] when [p] is [NULL]. *)
Inductive cbuf := NullBuf (n : Z) | Buf (data : bytes).

Definition cbuf_null (b : cbuf) : bool :=
  match b with NullBuf _ => true | Buf _ => false end.
Definition cbuf_len (b : cbuf) : Z :=
  match b with NullBuf n => n | Buf d => len d end.
Definition cbuf_data (b : cbuf) : bytes :=
  match b with NullBuf _ => [] | Buf d => d end.

(** ** The platform

    What the code takes from outside src/: the width of [size_t], the heap, the
    state behind the function pointers and their contexts ([dev], with what the
    callbacks keep true of it, [dev_ok]), and the contents of an uninitialised local
    array. *)
Class Platform := {
  SIZE_MAX : Z;
  SIZE_MAX_ge : UINT_MAX <= SIZE_MAX;
  dev : Type;
  dev_ok : dev -> Prop;
  malloc : Z -> dev -> bool * dev;
  malloc_dev_ok : forall n d, dev_ok d -> dev_ok (snd (malloc n d));
  (** [sizeof(hss_private_key_t)], padding included *)
  sizeof_hss_private_key : Z;
  (** [sizeof(lms_sublevel_t)] *)
  sizeof_lms_sublevel : Z;
  indet : Z -> bytes;
  indet_len : forall n, 0 <= n -> len (indet n) = n
}.

(** ** Backends (function pointer and context, src/lms_internal.h)

    A backend runs on the device state; [Ok] carries what it wrote through its
    output pointers. *)
Section World.
Context `{P : Platform}.

Definition backend (A : Type) : Type := dev -> result lms_status_t A * dev.

(** I, hash_alg, q, i, start, steps, value *)
Definition lmots_chain_backend_fn : Type :=
  ptr -> bytes -> lms_hash_alg_t -> Z -> Z -> Z -> Z -> bytes -> backend bytes.
(** I, hash_alg, q, i, start, steps *)
Definition lmots_derive_chain_backend_fn : Type :=
  ptr -> bytes -> lms_hash_alg_t -> Z -> Z -> Z -> Z -> backend bytes.
(** I, hash_alg, q *)
Definition lmots_randomizer_backend_fn : Type :=
  ptr -> bytes -> lms_hash_alg_t -> Z -> backend bytes.
(** I, hash_alg, q, lmots_type *)
Definition lmots_keygen_backend_fn : Type :=
  ptr -> bytes -> lms_hash_alg_t -> Z -> Z -> backend bytes.
(** I, hash_alg, q, lmots_type, coefficients; writes the p chain values *)
Definition lmots_sign_backend_fn : Type :=
  ptr -> bytes -> lms_hash_alg_t -> Z -> Z -> bytes -> backend bytes.
(** I, hash_alg, q, lmots_type, coefficients, inputs *)
Definition lmots_verify_backend_fn : Type :=
  ptr -> bytes -> lms_hash_alg_t -> Z -> Z -> bytes -> bytes -> backend bytes.
(** I, hash_alg, q, lmots_type, coefficients, inputs, node_num *)
Definition lmots_verify_leaf_backend_fn : Type :=
  ptr -> bytes -> lms_hash_alg_t -> Z -> Z -> bytes -> bytes -> Z -> backend bytes.
(** I, hash_alg, node_num, left, right *)
Definition lms_intr_backend_fn : Type :=
  ptr -> bytes -> lms_hash_alg_t -> Z -> bytes -> bytes -> backend bytes.
(** I, hash_alg, node_num, leaf, path, height *)
Definition lms_verify_authpath_backend_fn : Type :=
  ptr -> bytes -> lms_hash_alg_t -> Z -> bytes -> bytes -> Z -> backend bytes.
(** I, hash_alg, q, C, message; what it writes at [Q] *)
Definition lmots_message_hash_backend_fn : Type :=
  ptr -> bytes -> lms_hash_alg_t -> Z -> bytes -> cbuf -> backend bytes.
(** I, hash_alg, q, C, message, lmots_type; what it writes at [Q] and at
    [coefficients] *)
Definition lmots_coef_backend_fn : Type :=
  ptr -> bytes -> lms_hash_alg_t -> Z -> bytes -> cbuf -> Z -> backend (bytes * bytes).
(** priv, q; writes the path *)
Definition lms_auth_path_backend_fn : Type :=
  ptr -> lms_private_key_t -> Z -> backend bytes.

(** [static fn backend; static void *backend_context;] *)
Record slot (fn : Type) := mkSlot { slot_fn : option fn; slot_context : ptr }.
Arguments mkSlot {fn}.
Arguments slot_fn {fn}.
Arguments slot_context {fn}.

(** The body every [*_backend_set] has. *)
Definition slot_set {fn} (b : option fn) (context : ptr) : slot fn :=
  mkSlot b (match b with Some _ => context | None => NULL end).

Definition empty_slot {fn} : slot fn := mkSlot None NULL.

(** The registered backends: the file-local function pointers of
src/lm_ots.c, src/lms_sign.c and src/lms_verify.c with their contexts. *)
Record backends := mkBackends {
  keygen_chain_backend : slot lmots_chain_backend_fn;
  verify_chain_backend : slot lmots_chain_backend_fn;
  sign_chain_backend : slot lmots_chain_backend_fn;
  keygen_derive_backend : slot lmots_derive_chain_backend_fn;
  keygen_backend : slot lmots_keygen_backend_fn;
  sign_backend : slot lmots_sign_backend_fn;
  verify_backend : slot lmots_verify_backend_fn;
  verify_leaf_backend : slot lmots_verify_leaf_backend_fn;
  sign_derive_backend : slot lmots_derive_chain_backend_fn;
  sign_randomizer_backend : slot lmots_randomizer_backend_fn;
  intr_backend : slot lms_intr_backend_fn;
  message_hash_backend : slot lmots_message_hash_backend_fn;
  coef_backend : slot lmots_coef_backend_fn;
  auth_path_backend : slot lms_auth_path_backend_fn;
  verify_authpath_backend : slot lms_verify_authpath_backend_fn
}.

Definition no_backends : backends :=
  mkBackends empty_slot empty_slot empty_slot empty_slot empty_slot empty_slot empty_slot
    empty_slot empty_slot empty_slot empty_slot empty_slot empty_slot empty_slot empty_slot.

(** The statics of the library, and the device state. *)
Record world := mkWorld {
  s_lms_cache : option (Z * lms_param_t);       (* None: s_lms_cache_valid == 0 *)
  s_lmots_cache : option (Z * lmots_param_t);
  chain_stats : lmots_chain_stats_t;
  bk : backends;
  device : dev
}.

(** A C function with a status result. *)
Definition C (A : Type) : Type := M world lms_status_t A.

(** [if (backend) r = backend(context, ...); else otherwise] *)
Definition call_backend {fn A} (sel : backends -> slot fn) (call : fn -> ptr -> backend A)
    (otherwise : C A) : C A :=
  fun w =>
    let s := sel (bk w) in
    match slot_fn s with
    | None => otherwise w
    | Some f =>
        let '(r, d) := call f (slot_context s) (device w) in
        (r, w {{ device := d }})
    end.

(** [backend != NULL] *)
Definition registered {fn} (sel : backends -> slot fn) : C bool :=
  fun w => (Ok (match slot_fn (sel (bk w)) with Some _ => true | None => false end), w).

Definition malloc_ok (size : Z) : C bool :=
  fun w => let '(b, d) := malloc size (device w) in (Ok b, w {{ device := d }}).

(** Statics at program start. *)
Definition initial_world (d : dev) : world := mkWorld None None (mkStats 0 0) no_backends d.

Definition set_backends (f : backends -> backends) : C unit :=
  modify (fun w => w {{ bk := f (bk w) }}).
End World.

Arguments mkSlot {fn}.
Arguments slot_fn {fn}.
Arguments slot_context {fn}.

(** ** Well-formed keys: the field widths of the C structs *)

Definition is_u32 (x : Z) : Prop := 0 <= x < 2 ^ 32.

Record wf_priv (k : lms_private_key_t) : Prop := {
  wf_priv_lms : is_u32 (priv_lms_type k);
  wf_priv_lmots : is_u32 (priv_lmots_type k);
  wf_priv_I : len (priv_I k) = LMS_I_LEN;
  wf_priv_I_byte : Forall is_byte (priv_I k);
  wf_priv_seed : len (priv_seed k) = LMS_SEED_LEN;
  wf_priv_seed_byte : Forall is_byte (priv_seed k);
  wf_priv_q : is_u32 (priv_q k)
}.

Record wf_pub (k : lms_public_key_t) : Prop := {
  wf_pub_lms : is_u32 (pub_lms_type k);
  wf_pub_lmots : is_u32 (pub_lmots_type k);
  wf_pub_I : len (pub_I k) = LMS_I_LEN;
  wf_pub_I_byte : Forall is_byte (pub_I k);
  wf_pub_root : len (pub_root k) = LMS_N;
  wf_pub_root_byte : Forall is_byte (pub_root k)
}.
