(* ===== verification/HashApi.v ===== *)
(** The unified hash interface (src/hash_api.c) over SHA-256, SHAKE256 and
    Haraka, and the interface class [HashApi] against which the signature scheme
    is verified: a keyed family of total functions to 32 bytes, in which
    SHA-256 is the one of hashs/sha256.c.

    [lms_hash_api] is the implementation's instance, for every build
    configuration; [toy_hash_api] replaces SHAKE256 by a cheap mixing function so
    that examples over whole trees can be evaluated. *)

From S2P Require Import Prelude Fips180 Sha256 Fips202 Haraka Xkcp XkcpShake Types.

(** The preprocessor flags that change src/hash_api.c and src/lms_params.c. *)
Class BuildConfig := {
  LMS_SHA256_ONLY : bool;
  LMS_NO_HARAKA : bool;
  LMS_HASH_XKCP_32BI : bool
}.

(** [while (length > 0) { chunk = min(length, UINT_MAX); SHA256_Update(...) }] *)
Fixpoint sha256_update_size_loop (fuel : nat) (ctx : SHA256_CTX) (data : bytes) : SHA256_CTX :=
  match fuel with
  | O => ctx
  | S fuel' =>
      if 0 <? len data then
        let chunk := if UINT_MAX <? len data then UINT_MAX else len data in
        sha256_update_size_loop fuel' (SHA256_Update ctx (slice 0 chunk data)) (from chunk data)
      else ctx
  end.

Definition sha256_update_size (ctx : SHA256_CTX) (data : bytes) : SHA256_CTX :=
  sha256_update_size_loop (Z.to_nat (len data / UINT_MAX) + 1) ctx data.

(** [None] is the return value -1. *)
Definition hash_sha256 (input : bytes) (output_len : Z) : option bytes :=
  if SHA256_LEN <? output_len then None
  else
    let ctx := SHA256_Init zero_ctx in
    let ctx := sha256_update_size ctx input in
    Some (slice 0 output_len (SHA256_Final ctx)).

Definition hash_shake256 `{B : BuildConfig} (input : bytes) (output_len : Z) : option bytes :=
  if LMS_HASH_XKCP_32BI then xkcp_shake256 output_len input else Some (shake256 output_len input).

(** The Haraka statics before their first use, and [ensure_haraka_initialized]
    with its [initialized] flag. *)
Definition haraka_statics : haraka_constants := mkHarakaConstants [] [] [].

Definition ensure_haraka_initialized (st : bool * haraka_constants) : bool * haraka_constants :=
  if fst st then st
  else (true, tweak_constants (snd st) (fill 0 32) (Some (fill 0 32))).

(** The constants every call sees after [ensure_haraka_initialized]. *)
Definition haraka_rc : haraka_constants := snd (ensure_haraka_initialized (false, haraka_statics)).

Definition hash_haraka (input : bytes) (output_len : Z) : option bytes :=
  if negb (output_len =? 32) then None
  else Some (haraka_S (tweaked512_rc64 haraka_rc) output_len input).

(** [output] is only compared with [NULL]; its new contents are the result. *)
Definition lms_hash `{B : BuildConfig} (alg : lms_hash_alg_t) (input : cbuf)
    (output : ptr) (output_len : Z) : option bytes :=
  if (output =? NULL) || (cbuf_null input && negb (cbuf_len input =? 0)) then None
  else
    let input := cbuf_data input in
    match alg with
    | LMS_HASH_SHAKE256 => if LMS_SHA256_ONLY then None else hash_shake256 input output_len
    | LMS_HASH_SHA256 => hash_sha256 input output_len
    | LMS_HASH_HARAKA =>
        if LMS_SHA256_ONLY || LMS_NO_HARAKA then None else hash_haraka input output_len
    end.

(** * Correctness of the implementation *)

Lemma update_size_loop_inv fuel : forall ctx msg data,
  len data <= Z.of_nat fuel * UINT_MAX -> ctx_inv ctx msg ->
  ctx_inv (sha256_update_size_loop fuel ctx data) (msg ++ data).
Proof.
  induction fuel as [| fuel IH]; intros ctx msg data Hf Hinv.
  - assert (data = []) as -> by (apply nil_length_inv; unfold len in *; lia).
    rewrite app_nil_r. exact Hinv.
  - cbn [sha256_update_size_loop]. destruct (Z.ltb_spec 0 (len data)) as [Hpos | Hz].
    2: { assert (data = []) as -> by (apply nil_length_inv; unfold len in *; lia).
         rewrite app_nil_r. exact Hinv. }
    set (chunk := if UINT_MAX <? len data then UINT_MAX else len data).
    assert (Hc : 0 < chunk <= len data /\ (len data - chunk <= Z.of_nat fuel * UINT_MAX)).
    { unfold chunk, UINT_MAX in *. destruct (Z.ltb_spec 4294967295 (len data)); lia. }
    replace (msg ++ data) with ((msg ++ slice 0 chunk data) ++ from chunk data)
      by (unfold from, slice; rewrite drop_0, <- app_assoc, take_drop; reflexivity).
    apply IH; [rewrite len_from; lia | apply SHA256_Update_inv, Hinv].
Qed.

Lemma sha256_update_size_inv ctx msg data :
  ctx_inv ctx msg -> ctx_inv (sha256_update_size ctx data) (msg ++ data).
Proof.
  apply update_size_loop_inv. pose proof (len_nonneg data).
  pose proof (Z.div_mod (len data) UINT_MAX ltac:(discriminate)).
  pose proof (Z.mod_pos_bound (len data) UINT_MAX ltac:(reflexivity)).
  pose proof (Z.div_pos (len data) UINT_MAX ltac:(lia) ltac:(reflexivity)).
  rewrite Nat2Z.inj_add, Z2Nat.id by lia. unfold UINT_MAX in *. lia.
Qed.

Lemma hash_sha256_spec input n :
  0 <= n <= 32 -> hash_sha256 input n = Some (slice 0 n (sha256_spec input)).
Proof.
  intros Hn. unfold hash_sha256, SHA256_LEN. destruct (Z.ltb_spec 32 n); [lia |].
  do 2 f_equal. apply SHA256_Final_inv.
  exact (sha256_update_size_inv _ [] input (SHA256_Init_inv zero_ctx eq_refl)).
Qed.

(** Both builds of SHAKE256 compute 32 bytes from any input. *)
Lemma hash_shake256_ok `{B : BuildConfig} input :
  exists y, hash_shake256 input 32 = Some y /\ len y = 32 /\ Forall is_byte y.
Proof.
  unfold hash_shake256. destruct LMS_HASH_XKCP_32BI; [apply xkcp_shake256_total; lia |].
  eexists. split; [reflexivity |]. split; [apply shake256_length | apply shake256_bytes]; lia.
Qed.

(** C35: [lms_hash] asked for 32 bytes of a readable input returns, in every build, the
    digest of FIPS 180-4 for SHA-256 and the SHAKE256 sponge of FIPS 202 for SHAKE256 (both references
    written without the code), whether the build
    uses the 64-bit lanes of hashs/fips202.c or the interleaved 32-bit words of hashs/xkcp; for Haraka
    the sponge (the input padded and absorbed block by block, the output squeezed) over the
    code's own permutation and constants, which no standard is compared with; and it
    fails exactly when the algorithm is compiled out.  The [UINT_MAX] chunking never shows. *)
Theorem lms_hash_functional `{B : BuildConfig} (alg : lms_hash_alg_t) (input : bytes) (output : ptr) :
  output <> NULL -> Forall is_byte input ->
  lms_hash alg (Buf input) output 32
  = match alg with
    | LMS_HASH_SHA256 => Some (Fips180.Ref.sha256 input)
    | LMS_HASH_SHAKE256 =>
        if LMS_SHA256_ONLY then None else Some (Fips202.Ref.sponge 136 0x1F input 32)
    | LMS_HASH_HARAKA =>
        if LMS_SHA256_ONLY || LMS_NO_HARAKA then None
        else Some (haraka_stream (tweaked512_rc64 haraka_rc) 32
                     (haraka_absorbed (tweaked512_rc64 haraka_rc) input))
    end.
Proof.
  intros Ho Hb. unfold lms_hash. destruct (Z.eqb_spec output NULL) as [He | _]; [contradiction |].
  cbn [orb cbuf_null andb cbuf_data]. destruct alg.
  - rewrite hash_sha256_spec by lia. rewrite slice_all; [rewrite sha256_spec_fips by exact Hb; reflexivity |].
    rewrite <- sha256_eq_spec, sha256_length. reflexivity.
  - destruct LMS_SHA256_ONLY; [reflexivity |]. unfold hash_shake256.
    rewrite xkcp_shake256_ref, shake256_sponge by (lia || exact Hb). destruct LMS_HASH_XKCP_32BI; reflexivity.
  - destruct (LMS_SHA256_ONLY || LMS_NO_HARAKA); [reflexivity |]. unfold hash_haraka.
    rewrite haraka_S_stream by lia. reflexivity.
Qed.

Lemma lms_hash_functional_witness :
  @lms_hash {| LMS_SHA256_ONLY := false; LMS_NO_HARAKA := true; LMS_HASH_XKCP_32BI := true |}
    LMS_HASH_SHAKE256 (Buf [1; 2]) 1 32 = Some (Fips202.Ref.sponge 136 0x1F [1; 2] 32).
Proof.
  apply (@lms_hash_functional {| LMS_SHA256_ONLY := false; LMS_NO_HARAKA := true; LMS_HASH_XKCP_32BI := true |}
           LMS_HASH_SHAKE256 [1; 2] 1); [discriminate |].
  repeat (apply Forall_cons; split; [split; [discriminate | reflexivity] |]). apply Forall_nil_2.
Defined.

(** * The interface *)

Class HashApi := {
  (** [lms_hash(alg, input, len, out, LMS_N)] with readable input. *)
  hash : lms_hash_alg_t -> bytes -> option bytes;
  hash_len : forall a x y, hash a x = Some y -> len y = LMS_N;
  hash_bytes : forall a x y, hash a x = Some y -> Forall is_byte y;
  hash_total : forall a x x', is_Some (hash a x) -> is_Some (hash a x');
  (** src/lms_params.c calls hashs/sha256.c directly for this algorithm. *)
  hash_sha : forall x, hash LMS_HASH_SHA256 x = Some (sha256 x);
  sha256_only : bool;
  sha256_only_none : forall a x, sha256_only = true -> a <> LMS_HASH_SHA256 -> hash a x = None
}.

Lemma lms_hash_32 `{B : BuildConfig} alg input :
  lms_hash alg (Buf input) 1 32
  = match alg with
    | LMS_HASH_SHA256 => Some (sha256 input)
    | LMS_HASH_SHAKE256 => if LMS_SHA256_ONLY then None else hash_shake256 input 32
    | LMS_HASH_HARAKA =>
        if LMS_SHA256_ONLY || LMS_NO_HARAKA then None
        else Some (haraka_S (tweaked512_rc64 haraka_rc) 32 input)
    end.
Proof.
  unfold lms_hash. cbn [Z.eqb orb cbuf_null andb cbuf_data NULL].
  destruct alg; try reflexivity.
  rewrite hash_sha256_spec by lia. rewrite <- sha256_eq_spec, slice_all; [reflexivity |].
  symmetry. apply sha256_length.
Qed.

#[local] Obligation Tactic := idtac.

(** The implementation discharges the interface. *)
#[export] Program Instance lms_hash_api `{B : BuildConfig} : HashApi := {|
  hash alg input := lms_hash alg (Buf input) 1 32;
  sha256_only := LMS_SHA256_ONLY
|}.
Next Obligation.
  intros B a x y. cbv beta zeta. rewrite lms_hash_32. intros H.
  destruct a; [| destruct LMS_SHA256_ONLY | destruct (_ || _)]; try discriminate;
    try (injection H as <-).
  - apply sha256_length.
  - destruct (hash_shake256_ok x) as (y' & E & Hl & _). rewrite E in H. injection H as <-. exact Hl.
  - apply haraka_S_length. discriminate.
Qed.
Next Obligation.
  intros B a x y. cbv beta zeta. rewrite lms_hash_32. intros H.
  destruct a; [| destruct LMS_SHA256_ONLY | destruct (_ || _)]; try discriminate;
    try (injection H as <-).
  - apply sha256_bytes.
  - destruct (hash_shake256_ok x) as (y' & E & _ & Hb). rewrite E in H. injection H as <-. exact Hb.
  - apply haraka_S_bytes. discriminate.
Qed.
Next Obligation.
  intros B a x x'. cbv beta zeta. rewrite !lms_hash_32.
  destruct a; [| destruct LMS_SHA256_ONLY | destruct (_ || _)]; intros [? H]; try discriminate;
    try (eexists; reflexivity).
  destruct (hash_shake256_ok x') as (y' & -> & _). eexists. reflexivity.
Qed.
Next Obligation. intros B x. apply lms_hash_32. Qed.
Next Obligation.
  intros B a x H Ha. cbv beta zeta in *. rewrite lms_hash_32, H. destruct a; [contradiction | reflexivity | reflexivity].
Qed.

(** A cheap stand-in for SHAKE256, for evaluating whole trees in examples. *)
Definition toy_mix (x : bytes) : bytes :=
  let v := fold_left (fun acc b => (acc * 3 + b + 1) .& 0xffffff) x 7 in
  map (fun i => u8 (v .>> (i .& 15))) (seqZ 0 32).

#[export] Program Instance toy_hash_api : HashApi := {|
  hash alg x := match alg with
                | LMS_HASH_SHA256 => Some (sha256 x)
                | LMS_HASH_SHAKE256 => Some (toy_mix x)
                | LMS_HASH_HARAKA => None
                end;
  sha256_only := false
|}.
Next Obligation.
  intros [] x y H; try discriminate; injection H as <-; [apply sha256_length | reflexivity].
Qed.
Next Obligation.
  intros [] x y H; try discriminate; injection H as <-; [apply sha256_bytes |].
  unfold toy_mix. apply Forall_map, Forall_forall. intros i _. apply u8_byte.
Qed.
Next Obligation.
  intros [] x x' [? H]; try discriminate; eexists; reflexivity.
Qed.
Next Obligation. reflexivity. Qed.
Next Obligation. discriminate. Qed.
