(* ===== verification/Params.v ===== *)
(** src/lms_params.c: big-endian accessors, the parameter tables behind their
    one-entry caches, Winternitz coefficients and checksum, and hashing of
    concatenated parts. *)

From S2P Require Import Prelude Sha256 Types HashApi.

Definition lms_store_u16 (value : Z) : bytes := [u8 (value .>> 8); u8 value].

Definition lms_store_u32 (value : Z) : bytes :=
  [u8 (value .>> 24); u8 (value .>> 16); u8 (value .>> 8); u8 value].

Definition lms_load_u32 (in_ : bytes) : Z :=
  (rd in_ 0 .<< 24) .| (rd in_ 1 .<< 16) .| (rd in_ 2 .<< 8) .| rd in_ 3.

(** The [switch] of [lms_get_lms_param]: hash and height. *)
Definition lms_type_switch (type : Z) : option (lms_hash_alg_t * Z) :=
  if type =? LMS_SHAKE256_N32_H5 then Some (LMS_HASH_SHAKE256, 5)
  else if type =? LMS_SHAKE256_N32_H10 then Some (LMS_HASH_SHAKE256, 10)
  else if type =? LMS_SHAKE256_N32_H15 then Some (LMS_HASH_SHAKE256, 15)
  else if type =? LMS_SHAKE256_N32_H20 then Some (LMS_HASH_SHAKE256, 20)
  else if type =? LMS_SHAKE256_N32_H25 then Some (LMS_HASH_SHAKE256, 25)
  else if type =? LMS_SHA256_N32_H5 then Some (LMS_HASH_SHA256, 5)
  else if type =? LMS_SHA256_N32_H10 then Some (LMS_HASH_SHA256, 10)
  else if type =? LMS_SHA256_N32_H15 then Some (LMS_HASH_SHA256, 15)
  else if type =? LMS_SHA256_N32_H20 then Some (LMS_HASH_SHA256, 20)
  else if type =? LMS_SHA256_N32_H25 then Some (LMS_HASH_SHA256, 25)
  else if type =? LMS_HARAKA_N32_H5 then Some (LMS_HASH_HARAKA, 5)
  else if type =? LMS_HARAKA_N32_H10 then Some (LMS_HASH_HARAKA, 10)
  else if type =? LMS_HARAKA_N32_H15 then Some (LMS_HASH_HARAKA, 15)
  else if type =? LMS_HARAKA_N32_H20 then Some (LMS_HASH_HARAKA, 20)
  else if type =? LMS_HARAKA_N32_H25 then Some (LMS_HASH_HARAKA, 25)
  else None.

(** The [switch] of [lms_get_lmots_param]: hash, w, p, ls. *)
Definition lmots_type_switch (type : Z) : option (lms_hash_alg_t * Z * Z * Z) :=
  if type =? LMOTS_SHA256_N32_W1 then Some (LMS_HASH_SHA256, 1, 265, 7)
  else if type =? LMOTS_SHA256_N32_W2 then Some (LMS_HASH_SHA256, 2, 133, 6)
  else if type =? LMOTS_SHA256_N32_W4 then Some (LMS_HASH_SHA256, 4, 67, 4)
  else if type =? LMOTS_SHA256_N32_W8 then Some (LMS_HASH_SHA256, 8, 34, 0)
  else if type =? LMOTS_SHAKE256_N32_W1 then Some (LMS_HASH_SHAKE256, 1, 265, 7)
  else if type =? LMOTS_SHAKE256_N32_W2 then Some (LMS_HASH_SHAKE256, 2, 133, 6)
  else if type =? LMOTS_SHAKE256_N32_W4 then Some (LMS_HASH_SHAKE256, 4, 67, 4)
  else if type =? LMOTS_SHAKE256_N32_W8 then Some (LMS_HASH_SHAKE256, 8, 34, 0)
  else if type =? LMOTS_HARAKA_N32_W1 then Some (LMS_HASH_HARAKA, 1, 265, 7)
  else if type =? LMOTS_HARAKA_N32_W2 then Some (LMS_HASH_HARAKA, 2, 133, 6)
  else if type =? LMOTS_HARAKA_N32_W4 then Some (LMS_HASH_HARAKA, 4, 67, 4)
  else if type =? LMOTS_HARAKA_N32_W8 then Some (LMS_HASH_HARAKA, 8, 34, 0)
  else None.

(** [(uint8_t)] reads of bit fields. *)
Definition lms_lmots_coef (data : bytes) (i w : Z) : Z :=
  let index := u32 (i * w) / 8 in
  let digits_per_byte := 8 / w in
  let shift := u32 (w * (not32 i .& (digits_per_byte - 1))) in
  let mask := u32 (1 .<< w) - 1 in
  (rd data index .>> shift) .& mask.

Definition lms_lmots_checksum (Q : bytes) (Q_len w ls : Z) : Z :=
  let u := u32 (8 * Q_len) / w in
  let max_digit := u32 (1 .<< w) - 1 in
  let sum := for_z (Z.to_nat u) 0
               (fun i sum => u32 (sum + (max_digit - lms_lmots_coef Q i w))) 0 in
  u32 (sum .<< ls).

Section Params.
Context `{P : Platform} `{Hh : HashApi}.

Definition cache_hit {A} (cache : option (Z * A)) (type : Z) : option A :=
  match cache with
  | Some (t, p) => if t =? type then Some p else None
  | None => None
  end.

Definition lms_get_lms_param (type : Z) : C lms_param_t :=
  fun w =>
    match cache_hit (s_lms_cache w) type with
    | Some p => (Ok p, w)
    | None =>
        match lms_type_switch type with
        | None => (Err LMS_ERR_INVALID, w)
        | Some (hash_alg, height) =>
            let result := mkLmsParam type hash_alg height LMS_N in
            (Ok result, w {{ s_lms_cache := Some (type, result) }})
        end
    end.

Definition lms_get_lmots_param (type : Z) : C lmots_param_t :=
  fun w =>
    match cache_hit (s_lmots_cache w) type with
    | Some p => (Ok p, w)
    | None =>
        match lmots_type_switch type with
        | None => (Err LMS_ERR_INVALID, w)
        | Some (hash_alg, w', p, ls) =>
            let result := mkLmotsParam type hash_alg LMS_N w' p ls in
            (Ok result, w {{ s_lmots_cache := Some (type, result) }})
        end
    end.

(** The condition [lms_get_lms_param(..) != LMS_OK || lms_get_lmots_param(..) != LMS_OK ||
lms_param.hash_alg != ots_param.hash_alg] that seven functions return
[LMS_ERR_INVALID] on; the second lookup only runs when the first succeeds. *)
Definition get_matching_params (lms_type lmots_type : Z) : C (lms_param_t * lmots_param_t) :=
  lms_param ← or_return LMS_ERR_INVALID (lms_get_lms_param lms_type);
  ots_param ← or_return LMS_ERR_INVALID (lms_get_lmots_param lmots_type);
  guard_err (negb (bool_decide (lms_p_hash_alg lms_param = ots_p_hash_alg ots_param)))
            LMS_ERR_INVALID ;;
  mret (lms_param, ots_param).

Definition lms_get_private_hash_alg (priv : lms_private_key_t) : C lms_hash_alg_t :=
  '(lms_param, _) ← get_matching_params (priv_lms_type priv) (priv_lmots_type priv);
  mret (lms_p_hash_alg lms_param).

Definition lms_get_public_hash_alg (pub : lms_public_key_t) : C lms_hash_alg_t :=
  '(lms_param, _) ← get_matching_params (pub_lms_type pub) (pub_lmots_type pub);
  mret (lms_p_hash_alg lms_param).

(** Returns 0, not an error, on a type it does not know. *)
Definition lms_signature_len (lms_type lmots_type : Z) : C Z :=
  r ← attempt (get_matching_params lms_type lmots_type);
  match r with
  | Err _ => mret 0
  | Ok (lms_param, ots_param) =>
      mret (u32 (4 + 4 + ots_p_n ots_param + ots_p_p ots_param * ots_p_n ots_param
                 + 4 + lms_p_height lms_param * lms_p_n lms_param))
  end.

(** [sizeof(stack_buf)] *)
Definition stack_buf_len : Z := 4 + LMS_I_LEN + LMS_N * 2 + LMS_MAX_OTS_P * LMS_N.

Definition lms_hash_parts (a b c d : bytes) (hash_alg : lms_hash_alg_t) : C bytes :=
  guard_err ((SIZE_MAX - len b <? len a)
             || (SIZE_MAX - len c <? len a + len b)
             || (SIZE_MAX - len d <? len a + len b + len c)) LMS_ERR_INVALID ;;
  let total_len := len a + len b + len c + len d in
  if bool_decide (hash_alg = LMS_HASH_SHA256) then
    let ctx := SHA256_Init zero_ctx in
    let ctx := sha256_update_size ctx a in
    let ctx := sha256_update_size ctx b in
    let ctx := sha256_update_size ctx c in
    let ctx := sha256_update_size ctx d in
    mret (SHA256_Final ctx)
  else if sha256_only then fail LMS_ERR_INVALID
  else
    ok ← (if stack_buf_len <? total_len then malloc_ok total_len else mret true);
    guard_err (negb ok) LMS_ERR_INVALID ;;
    match hash hash_alg (a ++ b ++ c ++ d) with
    | Some out => mret out
    | None => fail LMS_ERR_INVALID
    end.
End Params.

(** * Big-endian accessors *)

Lemma lms_load_u32_value b0 b1 b2 b3 rest :
  is_byte b0 -> is_byte b1 -> is_byte b2 -> is_byte b3 ->
  lms_load_u32 (b0 :: b1 :: b2 :: b3 :: rest) = ((b0 * 256 + b1) * 256 + b2) * 256 + b3.
Proof.
  unfold is_byte. intros. unfold lms_load_u32, rd. simpl nth.
  rewrite <- !Z.lor_assoc.
  rewrite (lor_shiftl_add b2 8 b3) by lia. rewrite (lor_shiftl_add b1 16) by lia.
  rewrite (lor_shiftl_add b0 24) by lia. lia.
Qed.

Lemma lms_store_u32_len x : len (lms_store_u32 x) = 4.
Proof. reflexivity. Qed.

Lemma lms_store_u32_bytes x : Forall is_byte (lms_store_u32 x).
Proof. repeat constructor; apply u8_byte. Qed.

Lemma lms_store_u16_bytes x : Forall is_byte (lms_store_u16 x).
Proof. repeat constructor; apply u8_byte. Qed.

Lemma u8_shiftr x k : 0 <= k -> u8 (x .>> k) = x / 2 ^ k mod 256.
Proof. intros Hk. rewrite u8_mod, Z.shiftr_div_pow2 by exact Hk. reflexivity. Qed.

Lemma lms_load_store_u32 x rest : is_u32 x -> lms_load_u32 (lms_store_u32 x ++ rest) = x.
Proof.
  intros Hx. unfold is_u32 in Hx. unfold lms_store_u32. cbn [app].
  rewrite lms_load_u32_value by apply u8_byte.
  rewrite !u8_shiftr, u8_mod by lia. change (2 ^ 24) with 16777216. change (2 ^ 16) with 65536.
  change (2 ^ 8) with 256. change (2 ^ 32) with 4294967296 in Hx.
  Z.to_euclidean_division_equations. lia.
Qed.

Lemma lms_load_u32_range b : Forall is_byte b -> 4 <= len b -> is_u32 (lms_load_u32 b).
Proof.
  intros Hb Hl. do 4 (destruct b as [| ? b]; [unfold len in Hl; simpl in Hl; lia |]).
  repeat match goal with H : Forall _ (_ :: _) |- _ => apply Forall_cons in H; destruct H end.
  rewrite lms_load_u32_value by assumption. unfold is_u32, is_byte in *. lia.
Qed.

Lemma lms_store_load_u32 b :
  Forall is_byte b -> len b = 4 -> lms_store_u32 (lms_load_u32 b) = b.
Proof.
  intros Hb Hl. do 4 (destruct b as [| ? b]; [unfold len in Hl; simpl in Hl; lia |]).
  destruct b; [| unfold len in Hl; simpl in Hl; lia].
  repeat match goal with H : Forall _ (_ :: _) |- _ => apply Forall_cons in H; destruct H end.
  rewrite lms_load_u32_value by assumption. unfold is_byte in *. unfold lms_store_u32.
  rewrite !u8_shiftr, u8_mod by lia. change (2 ^ 24) with 16777216. change (2 ^ 16) with 65536.
  change (2 ^ 8) with 256.
  repeat f_equal; Z.to_euclidean_division_equations; lia.
Qed.

(** [lms_load_u32] only looks at four bytes. *)
Lemma lms_load_u32_slice off b : lms_load_u32 (slice off 4 b) = lms_load_u32 (from off b).
Proof.
  unfold slice, from, lms_load_u32, rd. set (d := drop _ b). clearbody d.
  do 4 (destruct d as [| ? d]; [reflexivity |]). reflexivity.
Qed.

(** * Parameter lookup *)

Definition lms_params_of (type : Z) : option lms_param_t :=
  '(a, h) ← lms_type_switch type; Some (mkLmsParam type a h LMS_N).

Definition lmots_params_of (type : Z) : option lmots_param_t :=
  '(a, w, p, ls) ← lmots_type_switch type; Some (mkLmotsParam type a LMS_N w p ls).

(** Both types known, and for the same hash. *)
Definition matching_params (lms_type lmots_type : Z) : option (lms_param_t * lmots_param_t) :=
  match lms_params_of lms_type, lmots_params_of lmots_type with
  | Some lp, Some op => if decide (lms_p_hash_alg lp = ots_p_hash_alg op) then Some (lp, op) else None
  | _, _ => None
  end.

(** The possible shapes of a parameter set. *)
Record wf_lms_param (p : lms_param_t) : Prop := {
  wf_lms_height : lms_p_height p = 5 \/ lms_p_height p = 10 \/ lms_p_height p = 15 \/
                  lms_p_height p = 20 \/ lms_p_height p = 25;
  wf_lms_n : lms_p_n p = LMS_N
}.

Record wf_lmots_param (p : lmots_param_t) : Prop := {
  wf_ots_n : ots_p_n p = LMS_N;
  wf_ots_w : (ots_p_w p, ots_p_p p, ots_p_ls p)
             ∈ [(1, 265, 7); (2, 133, 6); (4, 67, 4); (8, 34, 0)]
}.

Lemma lms_params_of_wf type p : lms_params_of type = Some p -> wf_lms_param p /\ lms_p_type p = type.
Proof.
  unfold lms_params_of, lms_type_switch. intros H.
  repeat match type of H with context [if ?c then _ else _] => destruct c end;
    simpl in H; try discriminate; injection H as <-;
    (split; [split; [simpl; lia | reflexivity] | reflexivity]).
Qed.

Lemma lmots_params_of_wf type p :
  lmots_params_of type = Some p -> wf_lmots_param p /\ ots_p_type p = type.
Proof.
  unfold lmots_params_of, lmots_type_switch. intros H.
  repeat match type of H with context [if ?c then _ else _] => destruct c end;
    simpl in H; try discriminate; injection H as <-;
    (split; [split; [reflexivity | cbn [ots_p_w ots_p_p ots_p_ls]; rewrite !elem_of_cons; tauto] | reflexivity]).
Qed.

Section ParamsSpec.
Context `{P : Platform} `{Hh : HashApi}.

(** A cached entry is the table's entry. *)
Record caches_ok (w : world) : Prop := {
  lms_cache_ok : forall t p, s_lms_cache w = Some (t, p) -> lms_params_of t = Some p;
  lmots_cache_ok : forall t p, s_lmots_cache w = Some (t, p) -> lmots_params_of t = Some p
}.

(** The invariant of the library state: sound caches, a device in order, and the
    backends [B]. *)
Definition inv (B : backends) (w : world) : Prop := (caches_ok w /\ dev_ok (device w)) /\ bk w = B.

Lemma cache_hit_Some {A} (c : option (Z * A)) t p : cache_hit c t = Some p -> c = Some (t, p).
Proof.
  destruct c as [[t' p'] |]; [| discriminate]. simpl.
  destruct (Z.eqb_spec t' t) as [-> |]; [| discriminate]. intros [= ->]. reflexivity.
Qed.

Lemma lms_get_lms_param_run w type :
  caches_ok w ->
  match lms_params_of type with
  | Some p => exists c, lms_get_lms_param type w = (Ok p, w {{ s_lms_cache := c }}) /\
                        caches_ok (w {{ s_lms_cache := c }})
  | None => lms_get_lms_param type w = (Err LMS_ERR_INVALID, w)
  end.
Proof.
  intros [H1 H2]. destruct w as [c1 c2 st b d]. cbn in H1, H2.
  unfold lms_get_lms_param. cbn [s_lms_cache].
  destruct (cache_hit c1 type) as [p |] eqn:Hc.
  - apply cache_hit_Some in Hc. subst c1. rewrite (H1 _ _ eq_refl).
    exists (Some (type, p)). split; [reflexivity | split; assumption].
  - unfold lms_params_of. destruct (lms_type_switch type) as [[a h] |] eqn:Hs; simpl; [| reflexivity].
    eexists. split; [reflexivity |]. split; [| exact H2].
    cbn. intros t p [= <- <-]. unfold lms_params_of. rewrite Hs. reflexivity.
Qed.

Lemma lms_get_lmots_param_run w type :
  caches_ok w ->
  match lmots_params_of type with
  | Some p => exists c, lms_get_lmots_param type w = (Ok p, w {{ s_lmots_cache := c }}) /\
                        caches_ok (w {{ s_lmots_cache := c }})
  | None => lms_get_lmots_param type w = (Err LMS_ERR_INVALID, w)
  end.
Proof.
  intros [H1 H2]. destruct w as [c1 c2 st b d]. cbn in H1, H2.
  unfold lms_get_lmots_param. cbn [s_lmots_cache].
  destruct (cache_hit c2 type) as [p |] eqn:Hc.
  - apply cache_hit_Some in Hc. subst c2. rewrite (H2 _ _ eq_refl).
    exists (Some (type, p)). split; [reflexivity | split; assumption].
  - unfold lmots_params_of. destruct (lmots_type_switch type) as [[[[a w'] p] ls] |] eqn:Hs;
      simpl; [| reflexivity].
    eexists. split; [reflexivity |]. split; [exact H1 |].
    cbn. intros t q [= <- <-]. unfold lmots_params_of. rewrite Hs. reflexivity.
Qed.

(** A run that neither fails nor leaves the invariant; a run that fails with [e]. *)
Definition returns {A} (B : backends) (m : C A) (a : A) : Prop :=
  forall w, inv B w -> exists w', m w = (Ok a, w') /\ inv B w'.

Definition raises {A} (B : backends) (m : C A) (e : lms_status_t) : Prop :=
  forall w, inv B w -> exists w', m w = (Err e, w') /\ inv B w'.

Lemma returns_ret {A} B (a : A) : returns B (mret a) a.
Proof. intros w Hw. exists w. split; [reflexivity | exact Hw]. Qed.

Lemma returns_bind {A A'} B (m : C A) (f : A -> C A') a a' :
  returns B m a -> returns B (f a) a' -> returns B (m ≫= f) a'.
Proof.
  intros Hm Hf w Hw. destruct (Hm w Hw) as (w1 & E1 & Hw1).
  destruct (Hf w1 Hw1) as (w2 & E2 & Hw2). exists w2.
  unfold mbind, M_bind. rewrite E1. split; assumption.
Qed.

Lemma raises_bind {A A'} B (m : C A) (f : A -> C A') e :
  raises B m e -> raises B (m ≫= f) e.
Proof.
  intros Hm w Hw. destruct (Hm w Hw) as (w1 & E1 & Hw1). exists w1.
  unfold mbind, M_bind. rewrite E1. split; [reflexivity | assumption].
Qed.

Lemma raises_bind_r {A A'} B (m : C A) (f : A -> C A') a e :
  returns B m a -> raises B (f a) e -> raises B (m ≫= f) e.
Proof.
  intros Hm Hf w Hw. destruct (Hm w Hw) as (w1 & E1 & Hw1).
  destruct (Hf w1 Hw1) as (w2 & E2 & Hw2). exists w2.
  unfold mbind, M_bind. rewrite E1. split; assumption.
Qed.

Lemma raises_fail {A} B e : raises B (fail (A := A) e) e.
Proof. intros w Hw. exists w. split; [reflexivity | exact Hw]. Qed.

Lemma returns_or_return {A} B e (m : C A) a : returns B m a -> returns B (or_return e m) a.
Proof.
  intros Hm w Hw. destruct (Hm w Hw) as (w1 & E1 & Hw1). exists w1.
  unfold or_return. rewrite E1. split; [reflexivity | assumption].
Qed.

Lemma raises_or_return {A} B e e' (m : C A) : raises B m e' -> raises B (or_return e m) e.
Proof.
  intros Hm w Hw. destruct (Hm w Hw) as (w1 & E1 & Hw1). exists w1.
  unfold or_return. rewrite E1. split; [reflexivity | assumption].
Qed.

Lemma returns_attempt_ok {A} B (m : C A) a : returns B m a -> returns B (attempt m) (Ok a).
Proof.
  intros Hm w Hw. destruct (Hm w Hw) as (w1 & E1 & Hw1). exists w1.
  unfold attempt. rewrite E1. split; [reflexivity | assumption].
Qed.

Lemma returns_attempt_err {A} B (m : C A) e : raises B m e -> returns B (attempt m) (Err e).
Proof.
  intros Hm w Hw. destruct (Hm w Hw) as (w1 & E1 & Hw1). exists w1.
  unfold attempt. rewrite E1. split; [reflexivity | assumption].
Qed.

(** A computation that always returns [a] meets any triple [a] satisfies. *)
Lemma returns_hoare {A} B F (m : C A) a (Q : A -> Prop) :
  returns B m a -> Q a -> hoare (inv B) F m Q.
Proof.
  intros Hm HQ w Hw. destruct (Hm w Hw) as (w1 & -> & Hw1). split; assumption.
Qed.

(** A triple that cannot fail and pins the value is a [returns]. *)
Lemma hoare_returns {A} B (m : C A) a :
  hoare (inv B) False m (fun x => x = a) -> returns B m a.
Proof.
  intros Hm w Hw. specialize (Hm w Hw). destruct (m w) as [[x | e] w'].
  - destruct Hm as [-> Hw']. exists w'. split; [reflexivity | exact Hw'].
  - destruct Hm as [[] _].
Qed.

Lemma get_lms_param_returns B type p :
  lms_params_of type = Some p -> returns B (lms_get_lms_param type) p.
Proof.
  intros Hp w [[Hc Hd] Hb]. pose proof (lms_get_lms_param_run w type Hc) as H. rewrite Hp in H.
  destruct H as (c & E & Hc'). eexists. split; [exact E |]. split; [split; [exact Hc' | exact Hd] | exact Hb].
Qed.

Lemma get_lms_param_caches type p w :
  lms_params_of type = Some p -> caches_ok w -> exists w', lms_get_lms_param type w = (Ok p, w') /\ caches_ok w'.
Proof.
  intros Hp Hc. pose proof (lms_get_lms_param_run w type Hc) as H. rewrite Hp in H. destruct H as (c & E & Hc'). eauto.
Qed.

Lemma get_lms_param_raises B type :
  lms_params_of type = None -> raises B (lms_get_lms_param type) LMS_ERR_INVALID.
Proof.
  intros Hp w [[Hc Hd] Hb]. pose proof (lms_get_lms_param_run w type Hc) as H. rewrite Hp in H.
  exists w. split; [exact H | split; [split |]; assumption].
Qed.

Lemma get_lmots_param_returns B type p :
  lmots_params_of type = Some p -> returns B (lms_get_lmots_param type) p.
Proof.
  intros Hp w [[Hc Hd] Hb]. pose proof (lms_get_lmots_param_run w type Hc) as H. rewrite Hp in H.
  destruct H as (c & E & Hc'). eexists. split; [exact E |]. split; [split; [exact Hc' | exact Hd] | exact Hb].
Qed.

Lemma get_lmots_param_raises B type :
  lmots_params_of type = None -> raises B (lms_get_lmots_param type) LMS_ERR_INVALID.
Proof.
  intros Hp w [[Hc Hd] Hb]. pose proof (lms_get_lmots_param_run w type Hc) as H. rewrite Hp in H.
  exists w. split; [exact H | split; [split |]; assumption].
Qed.

Lemma get_matching_returns B t1 t2 pp :
  matching_params t1 t2 = Some pp -> returns B (get_matching_params t1 t2) pp.
Proof.
  unfold matching_params. intros H.
  destruct (lms_params_of t1) as [lp |] eqn:E1; [| discriminate].
  destruct (lmots_params_of t2) as [op |] eqn:E2; [| discriminate].
  destruct (decide _) as [Ha |]; [| discriminate]. injection H as <-.
  unfold get_matching_params.
  eapply returns_bind; [apply returns_or_return, get_lms_param_returns, E1 |].
  eapply returns_bind; [apply returns_or_return, get_lmots_param_returns, E2 |].
  rewrite bool_decide_true by exact Ha. eapply returns_bind; apply returns_ret.
Qed.

Lemma get_matching_raises B t1 t2 :
  matching_params t1 t2 = None -> raises B (get_matching_params t1 t2) LMS_ERR_INVALID.
Proof.
  unfold matching_params. intros H. unfold get_matching_params.
  destruct (lms_params_of t1) as [lp |] eqn:E1.
  2: { apply raises_bind. eapply raises_or_return, get_lms_param_raises, E1. }
  eapply raises_bind_r; [apply returns_or_return, get_lms_param_returns, E1 |].
  destruct (lmots_params_of t2) as [op |] eqn:E2.
  2: { apply raises_bind. eapply raises_or_return, get_lmots_param_raises, E2. }
  eapply raises_bind_r; [apply returns_or_return, get_lmots_param_returns, E2 |].
  destruct (decide _) as [| Ha]; [discriminate |].
  rewrite bool_decide_false by exact Ha. apply raises_bind, raises_fail.
Qed.

Definition signature_len_spec (t1 t2 : Z) : Z :=
  match matching_params t1 t2 with
  | Some (lp, op) => 12 + LMS_N * (1 + ots_p_p op + lms_p_height lp)
  | None => 0
  end.

Lemma matching_params_wf t1 t2 lp op :
  matching_params t1 t2 = Some (lp, op) ->
  wf_lms_param lp /\ wf_lmots_param op /\
  lms_params_of t1 = Some lp /\ lmots_params_of t2 = Some op /\
  lms_p_hash_alg lp = ots_p_hash_alg op.
Proof.
  unfold matching_params. intros H.
  destruct (lms_params_of t1) as [lp' |] eqn:E1; [| discriminate].
  destruct (lmots_params_of t2) as [op' |] eqn:E2; [| discriminate].
  destruct (decide _) as [Ha |]; [| discriminate]. injection H as <- <-.
  repeat split; try apply (lms_params_of_wf t1 _ E1); try apply (lmots_params_of_wf t2 _ E2); exact Ha.
Qed.

Lemma wf_ots_cases op : wf_lmots_param op ->
  (ots_p_w op = 1 /\ ots_p_p op = 265 /\ ots_p_ls op = 7) \/
  (ots_p_w op = 2 /\ ots_p_p op = 133 /\ ots_p_ls op = 6) \/
  (ots_p_w op = 4 /\ ots_p_p op = 67 /\ ots_p_ls op = 4) \/
  (ots_p_w op = 8 /\ ots_p_p op = 34 /\ ots_p_ls op = 0).
Proof.
  intros [_ H]. rewrite !elem_of_cons in H.
  destruct H as [H | [H | [H | [H | H]]]]; [..| inversion H]; injection H as -> -> ->; tauto.
Qed.

Lemma signature_len_returns B t1 t2 :
  returns B (lms_signature_len t1 t2) (signature_len_spec t1 t2).
Proof.
  unfold lms_signature_len, signature_len_spec.
  destruct (matching_params t1 t2) as [[lp op] |] eqn:E.
  - eapply returns_bind; [apply returns_attempt_ok, get_matching_returns, E |].
    destruct (matching_params_wf _ _ _ _ E) as ([Hh1 Hn] & Hop & _).
    rewrite Hn, (wf_ots_n op Hop).
    replace (u32 _) with (12 + LMS_N * (1 + ots_p_p op + lms_p_height lp)); [apply returns_ret |].
    symmetry. unfold LMS_N. rewrite u32_small; [lia |].
    destruct (wf_ots_cases op Hop) as [(_ & -> & _) | [(_ & -> & _) | [(_ & -> & _) | (_ & -> & _)]]]; lia.
  - eapply returns_bind; [apply returns_attempt_err, get_matching_raises, E |]. apply returns_ret.
Qed.

Lemma private_hash_alg_returns B priv lp op :
  matching_params (priv_lms_type priv) (priv_lmots_type priv) = Some (lp, op) ->
  returns B (lms_get_private_hash_alg priv) (lms_p_hash_alg lp).
Proof.
  intros E. eapply returns_bind; [apply get_matching_returns, E | apply returns_ret].
Qed.

Lemma public_hash_alg_returns B pub lp op :
  matching_params (pub_lms_type pub) (pub_lmots_type pub) = Some (lp, op) ->
  returns B (lms_get_public_hash_alg pub) (lms_p_hash_alg lp).
Proof.
  intros E. eapply returns_bind; [apply get_matching_returns, E | apply returns_ret].
Qed.
End ParamsSpec.

(** * Hashing of parts *)

Section HashParts.
Context `{P : Platform} `{Hh : HashApi}.

(** The hash of algorithm [a] as a total function, for an algorithm that is available. *)
Definition hash_of (a : lms_hash_alg_t) (x : bytes) : bytes := default [] (hash a x).

Definition available (a : lms_hash_alg_t) : Prop := is_Some (hash a []).

Lemma available_hash a x : available a -> hash a x = Some (hash_of a x).
Proof.
  intros Ha. destruct (hash_total a [] x Ha) as [y Hy]. unfold hash_of. rewrite Hy. reflexivity.
Qed.

Lemma hash_of_len a x : available a -> len (hash_of a x) = LMS_N.
Proof. intros Ha. exact (hash_len a x _ (available_hash a x Ha)). Qed.

Lemma hash_of_bytes a x : available a -> Forall is_byte (hash_of a x).
Proof. intros Ha. exact (hash_bytes a x _ (available_hash a x Ha)). Qed.

Lemma available_not_only a :
  available a -> a <> LMS_HASH_SHA256 -> sha256_only = false.
Proof.
  intros [y Hy] Ha. destruct sha256_only eqn:E; [| reflexivity].
  rewrite (sha256_only_none a [] E Ha) in Hy. discriminate.
Qed.

(** Four streaming updates are the hash of the concatenation. *)
Lemma sha256_four a b c d :
  SHA256_Final (sha256_update_size (sha256_update_size (sha256_update_size
    (sha256_update_size (SHA256_Init zero_ctx) a) b) c) d) = sha256 (a ++ b ++ c ++ d).
Proof.
  rewrite sha256_eq_spec. apply SHA256_Final_inv. rewrite !app_assoc.
  do 3 apply sha256_update_size_inv.
  exact (sha256_update_size_inv _ [] a (SHA256_Init_inv zero_ctx eq_refl)).
Qed.

(** May the heap refuse this many bytes? *)
Definition malloc_may_fail (n : Z) : Prop := exists d, fst (malloc n d) = false.

Lemma malloc_ok_run n w :
  malloc_ok n w = (Ok (fst (malloc n (device w))), w {{ device := snd (malloc n (device w)) }}).
Proof. unfold malloc_ok. destruct (malloc n (device w)) as [b d]. reflexivity. Qed.

Lemma inv_device B w d : dev_ok d -> inv B w -> inv B (w {{ device := d }}).
Proof. intros Hd [[[H1 H2] _] H3]. destruct w. split; [split; [split |] |]; assumption. Qed.

Lemma inv_dev_ok B w : inv B w -> dev_ok (device w).
Proof. intros [[_ Hd] _]. exact Hd. Qed.

(** A step of the device that keeps the invariant [I]. *)
Definition keeps (I : world -> Prop) (g : dev -> dev) : Prop := forall w, I w -> I (w {{ device := g (device w) }}).

Lemma inv_keeps B g : (forall d, dev_ok d -> dev_ok (g d)) -> keeps (inv B) g.
Proof. intros Hg w Hw. apply inv_device; [apply Hg, (inv_dev_ok _ _ Hw) | exact Hw]. Qed.

Lemma caches_keeps g : keeps caches_ok g.
Proof. intros [] [H1 H2]. split; assumption. Qed.

Lemma inv_malloc B w n : inv B w -> inv B (w {{ device := snd (malloc n (device w)) }}).
Proof. intros Hw. apply inv_device; [apply malloc_dev_ok, (inv_dev_ok _ _ Hw) | exact Hw]. Qed.

Lemma hash_parts_hoare (B : backends) (F : Prop) a b c d alg :
  available alg -> len (a ++ b ++ c ++ d) <= SIZE_MAX ->
  (stack_buf_len < len (a ++ b ++ c ++ d) -> malloc_may_fail (len (a ++ b ++ c ++ d)) -> F) ->
  hoare (inv B) F (lms_hash_parts a b c d alg) (fun y => y = hash_of alg (a ++ b ++ c ++ d)).
Proof.
  intros Ha Hs HF. rewrite !len_app in Hs, HF.
  pose proof (len_nonneg a). pose proof (len_nonneg b). pose proof (len_nonneg c). pose proof (len_nonneg d).
  unfold lms_hash_parts.
  apply hoare_bind with (P := fun _ => True).
  { apply hoare_guard; [| exact I]. intros Hc. exfalso.
    repeat (apply orb_prop in Hc; destruct Hc as [Hc | Hc]); apply Z.ltb_lt in Hc; lia. }
  intros _ _. destruct (bool_decide_reflect (alg = LMS_HASH_SHA256)) as [-> | Hne].
  - apply hoare_ret. rewrite sha256_four. unfold hash_of. rewrite hash_sha. reflexivity.
  - rewrite (available_not_only alg Ha Hne).
    apply hoare_bind with (P := fun ok => ok = false -> F).
    + destruct (Z.ltb_spec stack_buf_len (len a + len b + len c + len d)) as [Hbig | Hsmall].
      * intros w Hw. rewrite malloc_ok_run. split; [| apply inv_malloc, Hw].
        intros Hf. apply HF; [lia |]. exists (device w).
        replace (len a + (len b + (len c + len d))) with (len a + len b + len c + len d) by lia.
        exact Hf.
      * apply hoare_ret. discriminate.
    + intros ok Hok. apply hoare_bind with (P := fun _ => True).
      { apply hoare_guard; [| exact I]. destruct ok; [discriminate | intros _; auto]. }
      intros _ _. rewrite (available_hash alg (a ++ b ++ c ++ d) Ha). apply hoare_ret. reflexivity.
Qed.

Lemma hash_parts_returns B a b c d alg :
  available alg -> len (a ++ b ++ c ++ d) <= stack_buf_len ->
  returns B (lms_hash_parts a b c d alg) (hash_of alg (a ++ b ++ c ++ d)).
Proof.
  intros Ha Hs. apply hoare_returns. apply hash_parts_hoare; [exact Ha | | lia].
  pose proof SIZE_MAX_ge. unfold stack_buf_len, UINT_MAX, LMS_I_LEN, LMS_N, LMS_MAX_OTS_P in *. lia.
Qed.

(** Whatever was looked up before, both parameter lookups return the table's
    entry or [LMS_ERR_INVALID] for a type the table does not list; a hit on a
    stale or failed entry never happens, since a state with sound caches
    (the initial state is one) only leads to states with sound caches. *)
Theorem param_caches_transparent (w : world) (type : Z) :
  caches_ok w ->
  fst (lms_get_lms_param type w)
    = match lms_params_of type with Some p => Ok p | None => Err LMS_ERR_INVALID end /\
  fst (lms_get_lmots_param type w)
    = match lmots_params_of type with Some p => Ok p | None => Err LMS_ERR_INVALID end /\
  caches_ok (snd (lms_get_lms_param type w)) /\
  caches_ok (snd (lms_get_lmots_param type w)) /\
  forall d, caches_ok (initial_world d).
Proof.
  intros Hw.
  pose proof (lms_get_lms_param_run w type Hw) as H1.
  pose proof (lms_get_lmots_param_run w type Hw) as H2.
  assert (H3 : forall d, caches_ok (initial_world d)) by (split; discriminate).
  destruct (lms_params_of type); destruct (lmots_params_of type);
    repeat match goal with H : exists _, _ |- _ => destruct H as (? & -> & ?)
                         | H : _ = (Err _, _) |- _ => rewrite H; clear H end; auto.
Qed.

(** [lms_hash_parts] returns the hash of the concatenation of its parts on
    every branch, the direct SHA-256 stream, the stack buffer and the heap
    buffer alike; it can fail only for a concatenation beyond the stack buffer
    that the heap refuses, and a total beyond [SIZE_MAX] is always refused. *)
Theorem hash_parts_functional (B : backends) (a b c d : bytes) (alg : lms_hash_alg_t) :
  available alg ->
  let all := a ++ b ++ c ++ d in
  (len all <= SIZE_MAX ->
   hoare (inv B) (stack_buf_len < len all /\ malloc_may_fail (len all))
     (lms_hash_parts a b c d alg) (fun y => y = hash_of alg all)) /\
  (SIZE_MAX < len all -> raises B (lms_hash_parts a b c d alg) LMS_ERR_INVALID).
Proof.
  intros Ha all. split.
  - intros Hs. apply hash_parts_hoare; auto.
  - unfold all. rewrite !len_app. intros Hs. unfold lms_hash_parts. apply raises_bind.
    replace (_ || _) with true; [apply raises_fail |].
    symmetry. destruct (Z.ltb_spec (SIZE_MAX - len b) (len a)); [reflexivity |].
    destruct (Z.ltb_spec (SIZE_MAX - len c) (len a + len b)); [reflexivity |].
    apply Z.ltb_lt. lia.
Qed.
End HashParts.

(** A platform for the examples: 32-bit [size_t], a device state that counts
    allocations and whose heap refuses more than 128 KiB. *)
#[export] Instance test_platform : Platform := {|
  SIZE_MAX := UINT_MAX;
  SIZE_MAX_ge := Z.le_refl UINT_MAX;
  dev := Z;
  dev_ok _ := True;
  malloc_dev_ok _ _ _ := I;
  malloc n d := (n <=? 16384 * 8, d + 1);
  sizeof_hss_private_key := 66572;
  sizeof_lms_sublevel := 104;
  indet n := fill 0xA5 n;
  indet_len n Hn := len_fill 0xA5 n Hn
|}.

Definition test_world : world := initial_world (P := test_platform) 0.

Lemma param_caches_transparent_witness :
  fst (lms_get_lms_param 6 (snd (lms_get_lms_param 5 test_world)))
  = Ok (mkLmsParam 6 LMS_HASH_SHA256 10 32).
Proof.
  apply (param_caches_transparent (snd (lms_get_lms_param 5 test_world)) 6).
  split; vm_compute; [intros t p [= <- <-]; reflexivity | discriminate].
Defined.

Lemma hash_parts_functional_witness :
  hoare (inv no_backends) (stack_buf_len < 3 /\ malloc_may_fail 3)
    (lms_hash_parts [1] [2] [] [3] LMS_HASH_SHAKE256)
    (fun y => y = hash_of LMS_HASH_SHAKE256 [1; 2; 3]).
Proof.
  apply (hash_parts_functional no_backends [1] [2] [] [3] LMS_HASH_SHAKE256);
    [eexists; reflexivity | discriminate].
Defined.
