(* ===== verification/Winternitz.v ===== *)
(** The Winternitz encoding of src/lms_params.c ([lms_lmots_coef],
    [lms_lmots_checksum]): bounds, that the digits determine the message hash,
    and that the checksum makes encodings incomparable, which is what a one-time
    signature's unforgeability rests on. *)

From S2P Require Import Prelude Fips180 Types HashApi Params.

(** The digit string signed for the message hash [Q]: src/lm_ots.c appends the
    16-bit checksum to [Q] and reads [p] digits. *)
Definition Q_with_checksum (op : lmots_param_t) (Q : bytes) : bytes :=
  Q ++ lms_store_u16 (u16 (lms_lmots_checksum Q (ots_p_n op) (ots_p_w op) (ots_p_ls op))).

Definition digit (op : lmots_param_t) (Q : bytes) (i : Z) : Z :=
  lms_lmots_coef (Q_with_checksum op Q) i (ots_p_w op).

(** Number of digits of a 32-byte hash. *)
Definition msg_digits (w : Z) : Z := 256 / w.

Definition valid_w (w : Z) : Prop := w = 1 \/ w = 2 \/ w = 4 \/ w = 8.

Lemma wf_valid_w op : wf_lmots_param op -> valid_w (ots_p_w op).
Proof.
  intros H. unfold valid_w.
  destruct (wf_ots_cases op H) as [(-> & _) | [(-> & _) | [(-> & _) | (-> & _)]]]; tauto.
Qed.

(** * A digit as a field of a byte *)

Lemma coef_table :
  forallb (fun w => forallb (fun i =>
    (u32 (w * (not32 i .& (8 / w - 1))) =? w * (8 / w - 1 - i mod (8 / w)))
    && (u32 (i * w) / 8 =? i / (8 / w))) (seqZ 0 265)) [1; 2; 4; 8] = true.
Proof. vm_compute. reflexivity. Qed.

Lemma coef_eq data i w :
  valid_w w -> 0 <= i < 265 ->
  lms_lmots_coef data i w
  = (rd data (i / (8 / w)) .>> (w * (8 / w - 1 - i mod (8 / w)))) .& (2 ^ w - 1).
Proof.
  intros Hw Hi. pose proof coef_table as Ht. cbn [forallb] in Ht.
  repeat (apply andb_prop in Ht as [?Ht1 Ht]).
  assert (H : u32 (w * (not32 i .& (8 / w - 1))) = w * (8 / w - 1 - i mod (8 / w))
              /\ u32 (i * w) / 8 = i / (8 / w)).
  { destruct Hw as [-> | [-> | [-> | ->]]];
      match goal with
      | |- u32 (?w * _) = _ /\ _ =>
          match goal with
          | H : context [u32 (w * _)] |- _ =>
              pose proof (forallb_seqZ _ _ i H Hi) as E; cbv beta in E;
              apply andb_prop in E as [E1 E2]; apply Z.eqb_eq in E1, E2; split; assumption
          end
      end. }
  destruct H as [H1 H2]. unfold lms_lmots_coef. rewrite H1, H2. f_equal.
  destruct Hw as [-> | [-> | [-> | ->]]]; reflexivity.
Qed.

Lemma coef_range data i w : valid_w w -> 0 <= i < 265 -> 0 <= lms_lmots_coef data i w <= 2 ^ w - 1.
Proof.
  intros Hw Hi. rewrite coef_eq by assumption.
  assert (Hw0 : 0 <= w) by (unfold valid_w in Hw; lia).
  replace (2 ^ w - 1) with (Z.ones w) by (rewrite Z.ones_equiv; lia).
  rewrite Z.land_ones, Z.ones_equiv by exact Hw0.
  pose proof (Z.pow_pos_nonneg 2 w ltac:(lia) Hw0).
  match goal with |- context [?a mod 2 ^ w] => pose proof (Z.mod_pos_bound a (2 ^ w) ltac:(lia)) end.
  lia.
Qed.

(** Position of digit [i] inside its byte. *)
Lemma digit_pos w i :
  valid_w w -> 0 <= i < 265 ->
  0 < 8 / w /\ 0 <= i mod (8 / w) < 8 / w /\ i = 8 / w * (i / (8 / w)) + i mod (8 / w) /\
  0 <= i / (8 / w).
Proof.
  intros Hw Hi. assert (0 < 8 / w) by (destruct Hw as [-> | [-> | [-> | ->]]]; reflexivity).
  split; [assumption |]. split; [apply Z.mod_pos_bound; assumption |].
  split; [apply Z.div_mod; lia | apply Z.div_pos; lia].
Qed.

Lemma coef_byte data i w :
  valid_w w -> 0 <= i < 265 ->
  lms_lmots_coef data i w = lms_lmots_coef [rd data (i / (8 / w))] (i mod (8 / w)) w.
Proof.
  intros Hw Hi. destruct (digit_pos w i Hw Hi) as (Hd & Hm & _ & _).
  assert (Hd8 : 8 / w <= 8) by (destruct Hw as [-> | [-> | [-> | ->]]]; vm_compute; discriminate).
  rewrite !coef_eq by (assumption || lia).
  rewrite (Z.div_small (i mod (8 / w))), Z.mod_mod by lia. reflexivity.
Qed.

Lemma coef_app_l Q t i w :
  valid_w w -> 0 <= i < 265 -> i < len Q * (8 / w) ->
  lms_lmots_coef (Q ++ t) i w = lms_lmots_coef Q i w.
Proof.
  intros Hw Hi Hl. destruct (digit_pos w i Hw Hi) as (Hd & Hm & He & Hp).
  rewrite (coef_byte (Q ++ t)), (coef_byte Q) by assumption.
  replace (rd (Q ++ t) (i / (8 / w))) with (rd Q (i / (8 / w))); [reflexivity |].
  symmetry. unfold rd. apply app_nth1.
  assert (i / (8 / w) < len Q) by (apply Z.div_lt_upper_bound; nia). unfold len in *. lia.
Qed.

Lemma coef_app_r Q t j w :
  valid_w w -> 0 <= j -> 0 <= len Q * (8 / w) + j < 265 ->
  lms_lmots_coef (Q ++ t) (len Q * (8 / w) + j) w = lms_lmots_coef t j w.
Proof.
  intros Hw Hj Hi. pose proof (len_nonneg Q).
  destruct (digit_pos w _ Hw Hi) as (Hd & _ & _ & _).
  rewrite (coef_byte (Q ++ t)), (coef_byte t) by (assumption || nia).
  rewrite Z.div_add_l by lia. rewrite (Z.add_comm (len Q * (8 / w))), Z.mod_add by lia.
  pose proof (Z.div_pos j (8 / w) Hj Hd) as Hp.
  replace (rd (Q ++ t) (len Q + j / (8 / w))) with (rd t (j / (8 / w))); [reflexivity |].
  unfold rd. rewrite app_nth2 by (unfold len; lia). f_equal. unfold len. lia.
Qed.

(** ** A digit as RFC 8554 says it: a field of the string of bits

    Section 3.1.3 numbers the fields of [w] bits of a string from its start.  The string read as one
    big-endian number, field [i] is what is left of it above its last [8 * len - w * (i + 1)] bits,
    modulo [2 ^ w]. *)

Lemma number_acc b : forall acc,
  fold_left (fun x d => 256 * x + d) b acc = acc * 2 ^ (8 * len b) + Fips180.Ref.number b.
Proof.
  unfold Fips180.Ref.number. induction b as [| d b IH]; intros acc; cbn [fold_left]; [change (2 ^ (8 * len [])) with 1; lia |].
  rewrite (IH (256 * acc + d)), (IH (256 * 0 + d)), len_cons. pose proof (len_nonneg b).
  replace (2 ^ (8 * (1 + len b))) with (256 * 2 ^ (8 * len b)); [lia |].
  rewrite Z.mul_add_distr_l, Z.pow_add_r by lia. reflexivity.
Qed.

Lemma number_app a b : Fips180.Ref.number (a ++ b) = Fips180.Ref.number a * 2 ^ (8 * len b) + Fips180.Ref.number b.
Proof. unfold Fips180.Ref.number at 1. rewrite fold_left_app. apply number_acc. Qed.

Lemma number_range b : Forall is_byte b -> 0 <= Fips180.Ref.number b < 2 ^ (8 * len b).
Proof.
  induction 1 as [| d b Hd Hb IH]; [split; [discriminate | reflexivity] |]. change (d :: b) with ([d] ++ b). rewrite number_app, len_app.
  change (Fips180.Ref.number [d]) with d. change (len [d]) with 1. pose proof (len_nonneg b).
  replace (8 * (1 + len b)) with (8 + 8 * len b) by lia. rewrite Z.pow_add_r by lia. change (2 ^ 8) with 256.
  unfold is_byte in Hd. nia.
Qed.

(** The bits [s] to [s + w - 1] of a byte, with bytes above and [t] bits below it. *)
Lemma field_of_byte A d c s t w :
  0 <= s -> 0 <= w -> s + w <= 8 -> 0 <= t -> 0 <= c < 2 ^ t ->
  ((A * 256 + d) * 2 ^ t + c) / 2 ^ (t + s) mod 2 ^ w = (d .>> s) .& (2 ^ w - 1).
Proof.
  intros Hs Hw Hsw Ht Hc. rewrite Z.pow_add_r, <- Z.div_div by (lia || apply Z.pow_pos_nonneg; lia).
  rewrite Z.div_add_l, (Z.div_small c), Z.add_0_r by lia.
  replace (2 ^ w - 1) with (Z.ones w) by (rewrite Z.ones_equiv; lia). rewrite Z.land_ones, Z.shiftr_div_pow2 by lia.
  assert (E : A * 256 = A * 2 ^ (8 - s - w) * 2 ^ w * 2 ^ s).
  { rewrite <- !Z.mul_assoc, <- !Z.pow_add_r by lia. replace (8 - s - w + (w + s)) with 8 by lia. reflexivity. }
  rewrite E, Z.div_add_l by lia. rewrite Z.add_comm. apply Z.mod_add. lia.
Qed.

Lemma coef_field data i w :
  valid_w w -> Forall is_byte data -> 0 <= i < 265 -> i < len data * (8 / w) ->
  lms_lmots_coef data i w = Fips180.Ref.number data / 2 ^ (8 * len data - w * (i + 1)) mod 2 ^ w.
Proof.
  intros Hw Hb Hi Hl. destruct (digit_pos w i Hw Hi) as (Hd & Hm & He & Hp). rewrite coef_eq by assumption.
  assert (H8 : w * (8 / w) = 8 /\ 0 < w) by (destruct Hw as [-> | [-> | [-> | ->]]]; split; reflexivity).
  destruct H8 as [H8 Hw0]. set (k := i / (8 / w)) in *. set (m := i mod (8 / w)) in *.
  assert (Hk : k < len data) by nia.
  set (c := drop (S (Z.to_nat k)) data).
  assert (E : data = take (Z.to_nat k) data ++ [rd data k] ++ c).
  { rewrite <- (take_drop (Z.to_nat k) data) at 1. f_equal. unfold rd, c. apply drop_S.
    destruct (nth_lookup_or_length data (Z.to_nat k) 0); [assumption | unfold len in Hk; lia]. }
  assert (Hc : len data = k + 1 + len c) by (unfold c, len in *; rewrite length_drop; lia).
  assert (Hcb : Forall is_byte c) by (apply Forall_drop, Hb).
  replace (8 * len data - w * (i + 1)) with (8 * len c + w * (8 / w - 1 - m)) by (rewrite Hc, He; fold k m; nia).
  rewrite E at 2. rewrite !number_app, len_app. change (Fips180.Ref.number [rd data k]) with (rd data k).
  change (len [rd data k]) with 1. pose proof (len_nonneg c).
  replace (8 * (1 + len c)) with (8 + 8 * len c) by lia. rewrite Z.pow_add_r by lia. change (2 ^ 8) with 256.
  rewrite <- (field_of_byte (Fips180.Ref.number (take (Z.to_nat k) data)) (rd data k) (Fips180.Ref.number c) _ (8 * len c)).
  - do 2 f_equal. lia.
  - nia.
  - lia.
  - nia.
  - lia.
  - apply number_range, Hcb.
Qed.

(** * Digits determine the bytes *)

(** The value of [n] digits of [data], most significant first. *)
Definition digits_value (data : bytes) (w : Z) (n : nat) : Z :=
  for_z n 0 (fun j acc => acc * 2 ^ w + lms_lmots_coef data j w) 0.

Lemma byte_table :
  forallb (fun w => forallb (fun b => digits_value [b] w (Z.to_nat (8 / w)) =? b) (seqZ 0 256))
    [1; 2; 4; 8] = true.
Proof. vm_compute. reflexivity. Qed.

Lemma byte_digits b w : valid_w w -> is_byte b -> digits_value [b] w (Z.to_nat (8 / w)) = b.
Proof.
  intros Hw Hb. pose proof byte_table as Ht. rewrite forallb_forall in Ht.
  assert (Hin : In w [1; 2; 4; 8]) by (destruct Hw as [-> | [-> | [-> | ->]]]; simpl; tauto).
  specialize (Ht w Hin). apply Z.eqb_eq. exact (forallb_seqZ _ _ b Ht Hb).
Qed.

(** Pointwise smaller digits have a smaller value; equal digits the same. *)
Lemma for_value_mono n i w f g a b :
  0 <= w -> (forall j, i <= j < i + Z.of_nat n -> f j <= g j) -> a <= b ->
  for_z n i (fun j acc => acc * 2 ^ w + f j) a <= for_z n i (fun j acc => acc * 2 ^ w + g j) b.
Proof.
  intros Hw. revert i a b. induction n as [| n IH]; intros i a b Hfg Hab; [exact Hab |].
  cbn [for_z]. apply IH; [intros j Hj; apply Hfg; lia |].
  pose proof (Hfg i ltac:(lia)). pose proof (Z.pow_pos_nonneg 2 w ltac:(lia) Hw). nia.
Qed.

Lemma digits_value_mono t t' w n :
  valid_w w -> (forall j, 0 <= j < Z.of_nat n -> lms_lmots_coef t j w <= lms_lmots_coef t' j w) ->
  digits_value t w n <= digits_value t' w n.
Proof.
  intros Hw H. apply for_value_mono; [destruct Hw as [-> | [-> | [-> | ->]]]; lia | exact H | lia].
Qed.

Lemma same_digits_same_bytes w Q Q' :
  valid_w w -> len Q = 32 -> len Q' = 32 -> Forall is_byte Q -> Forall is_byte Q' ->
  (forall i, 0 <= i < msg_digits w -> lms_lmots_coef Q i w = lms_lmots_coef Q' i w) ->
  Q = Q'.
Proof.
  intros Hw HQ HQ' Hb Hb' Hd.
  assert (H8 : msg_digits w = 32 * (8 / w) /\ msg_digits w <= 256 /\ 0 < 8 / w <= 8)
    by (destruct Hw as [-> | [-> | [-> | ->]]]; vm_compute; repeat split; discriminate || reflexivity).
  assert (Hrd : forall k, 0 <= k < 32 -> rd Q k = rd Q' k).
  { intros k Hk.
    assert (HB : forall R, len R = 32 -> Forall is_byte R -> is_byte (rd R k)).
    { intros R HR HRb. rewrite Forall_forall in HRb. apply HRb. unfold rd.
      apply list_elem_of_In, nth_In. unfold len in HR. lia. }
    rewrite <- (byte_digits (rd Q k) w Hw (HB Q HQ Hb)).
    rewrite <- (byte_digits (rd Q' k) w Hw (HB Q' HQ' Hb')).
    assert (Hj : forall R j, 0 <= j < 8 / w ->
              lms_lmots_coef [rd R k] j w = lms_lmots_coef R (k * (8 / w) + j) w).
    { intros R j Hj. rewrite (coef_byte R) by (assumption || nia).
      rewrite Z.div_add_l, (Z.div_small j), Z.add_0_r by lia.
      rewrite (Z.add_comm (k * (8 / w))), Z.mod_add, Z.mod_small by lia. reflexivity. }
    apply Z.le_antisymm; apply digits_value_mono; try exact Hw; intros j Hjr;
      rewrite !Hj by lia; rewrite Hd by nia; lia. }
  apply list_eq_same_length with (n := 32%nat); [unfold len in *; lia | unfold len in *; lia |].
  intros i x y Hi Hx Hy. specialize (Hrd (Z.of_nat i) ltac:(lia)). unfold rd in Hrd.
  rewrite Nat2Z.id, (nth_lookup_Some _ _ _ _ Hx), (nth_lookup_Some _ _ _ _ Hy) in Hrd. exact Hrd.
Qed.

(** * The checksum *)

(** Sum over [n] digits from digit [i] of [max - digit]. *)
Fixpoint gap_sum (Q : bytes) (w : Z) (n : nat) (i : Z) : Z :=
  match n with
  | O => 0
  | S n' => (2 ^ w - 1 - lms_lmots_coef Q i w) + gap_sum Q w n' (i + 1)
  end.

Lemma gap_sum_range Q w n i :
  valid_w w -> 0 <= i -> i + Z.of_nat n <= 265 ->
  0 <= gap_sum Q w n i <= Z.of_nat n * (2 ^ w - 1).
Proof.
  intros Hw. revert i. induction n as [| n IH]; intros i Hi Hn; [simpl; lia |].
  cbn [gap_sum]. specialize (IH (i + 1) ltac:(lia) ltac:(lia)).
  pose proof (coef_range Q i w Hw ltac:(lia)). lia.
Qed.

Lemma checksum_loop Q w n i acc :
  valid_w w -> 0 <= i -> i + Z.of_nat n <= 256 -> 0 <= acc <= i * (2 ^ w - 1) ->
  for_z n i (fun i sum => u32 (sum + (2 ^ w - 1 - lms_lmots_coef Q i w))) acc
  = acc + gap_sum Q w n i.
Proof.
  intros Hw. assert (Hp : 0 <= 2 ^ w - 1 <= 255)
    by (destruct Hw as [-> | [-> | [-> | ->]]]; vm_compute; split; discriminate).
  revert i acc. induction n as [| n IH]; intros i acc Hi Hn Ha; cbn [for_z gap_sum]; [lia |].
  pose proof (coef_range Q i w Hw ltac:(lia)).
  assert (Hi255 : i * (2 ^ w - 1) <= 256 * 255) by nia.
  rewrite u32_small by lia. rewrite IH by (lia || nia). lia.
Qed.

Definition total_gap (w : Z) (Q : bytes) : Z := gap_sum Q w (Z.to_nat (msg_digits w)) 0.

Definition max_gap (w : Z) : Z := msg_digits w * (2 ^ w - 1).

Lemma total_gap_range w Q : valid_w w -> 0 <= total_gap w Q <= max_gap w.
Proof.
  intros Hw. unfold total_gap, max_gap.
  assert (0 <= msg_digits w <= 256)
    by (destruct Hw as [-> | [-> | [-> | ->]]]; vm_compute; split; discriminate).
  pose proof (gap_sum_range Q w (Z.to_nat (msg_digits w)) 0 Hw ltac:(lia) ltac:(lia)).
  rewrite Z2Nat.id in * by lia. lia.
Qed.

(** The four shapes of a parameter set. *)
Definition wots_shapes : list (Z * Z * Z) := [(1, 265, 7); (2, 133, 6); (4, 67, 4); (8, 34, 0)].

(** The checksum digits spell the gap sum, for every value it can have. *)
Lemma checksum_table :
  forallb (fun '(w, p, ls) => forallb (fun s =>
    (digits_value (lms_store_u16 (u16 (u32 (s .<< ls)))) w (Z.to_nat (p - msg_digits w)) =? s)
    && (u32 (s .<< ls) <=? UINT16_MAX)) (seqZ 0 (max_gap w + 1))) wots_shapes = true.
Proof. vm_compute. reflexivity. Qed.

Lemma lmots_checksum_eq op Q :
  wf_lmots_param op ->
  lms_lmots_checksum Q (ots_p_n op) (ots_p_w op) (ots_p_ls op)
  = u32 (total_gap (ots_p_w op) Q .<< ots_p_ls op).
Proof.
  intros Hop. pose proof (wf_valid_w op Hop) as Hw. unfold lms_lmots_checksum.
  rewrite (wf_ots_n op Hop).
  replace (u32 (1 .<< ots_p_w op)) with (2 ^ ots_p_w op)
    by (destruct Hw as [-> | [-> | [-> | ->]]]; reflexivity).
  change (u32 (8 * LMS_N)) with 256. fold (msg_digits (ots_p_w op)).
  rewrite checksum_loop; [reflexivity | exact Hw | lia | | lia].
  destruct Hw as [-> | [-> | [-> | ->]]]; vm_compute; discriminate.
Qed.

Lemma checksum_digits op Q :
  wf_lmots_param op ->
  let cks := lms_lmots_checksum Q (ots_p_n op) (ots_p_w op) (ots_p_ls op) in
  digits_value (lms_store_u16 (u16 cks)) (ots_p_w op)
    (Z.to_nat (ots_p_p op - msg_digits (ots_p_w op))) = total_gap (ots_p_w op) Q /\
  0 <= cks <= UINT16_MAX.
Proof.
  intros Hop cks. unfold cks. rewrite lmots_checksum_eq by exact Hop.
  pose proof (wf_valid_w op Hop) as Hw.
  pose proof (total_gap_range (ots_p_w op) Q Hw) as Hr.
  pose proof checksum_table as Ht. rewrite forallb_forall in Ht.
  assert (Hin : In (ots_p_w op, ots_p_p op, ots_p_ls op) wots_shapes)
    by (apply list_elem_of_In; exact (wf_ots_w op Hop)).
  specialize (Ht _ Hin). cbv beta iota in Ht.
  pose proof (forallb_seqZ _ _ (total_gap (ots_p_w op) Q) Ht ltac:(lia)) as E. cbv beta in E.
  apply andb_prop in E as [E1 E2]. apply Z.eqb_eq in E1. apply Z.leb_le in E2.
  split; [exact E1 | split; [apply u32_range | exact E2]].
Qed.

Lemma msg_digits_props op :
  wf_lmots_param op ->
  msg_digits (ots_p_w op) = 32 * (8 / ots_p_w op) /\
  msg_digits (ots_p_w op) < ots_p_p op <= 265 /\ 0 < msg_digits (ots_p_w op) <= 256.
Proof.
  intros Hop. destruct (wf_ots_cases op Hop) as [(-> & -> & _) | [(-> & -> & _) | [(-> & -> & _) | (-> & -> & _)]]];
    vm_compute; repeat split; discriminate || reflexivity.
Qed.

Lemma gap_sum_ext Q Q' w n i :
  (forall j, i <= j < i + Z.of_nat n -> lms_lmots_coef Q j w = lms_lmots_coef Q' j w) ->
  gap_sum Q w n i = gap_sum Q' w n i.
Proof.
  revert i. induction n as [| n IH]; intros i H; [reflexivity |].
  cbn [gap_sum]. rewrite H by lia. rewrite IH; [reflexivity |]. intros j Hj. apply H. lia.
Qed.

(** The checksum reads the hash only, not what follows it in the buffer. *)
Lemma checksum_app op Q t :
  wf_lmots_param op -> len Q = 32 ->
  lms_lmots_checksum (Q ++ t) (ots_p_n op) (ots_p_w op) (ots_p_ls op)
  = lms_lmots_checksum Q (ots_p_n op) (ots_p_w op) (ots_p_ls op).
Proof.
  intros Hop HQ. rewrite !lmots_checksum_eq by exact Hop. do 2 f_equal.
  destruct (msg_digits_props op Hop) as (H1 & H2 & H3).
  apply gap_sum_ext. intros j Hj. apply coef_app_l; [apply wf_valid_w, Hop | lia | lia].
Qed.

Lemma gap_sum_mono Q Q' w n i :
  (forall j, i <= j < i + Z.of_nat n -> lms_lmots_coef Q j w <= lms_lmots_coef Q' j w) ->
  gap_sum Q' w n i <= gap_sum Q w n i /\
  (gap_sum Q' w n i = gap_sum Q w n i ->
   forall j, i <= j < i + Z.of_nat n -> lms_lmots_coef Q j w = lms_lmots_coef Q' j w).
Proof.
  revert i. induction n as [| n IH]; intros i Hle; [simpl; split; [lia | intros; lia] |].
  cbn [gap_sum]. destruct (IH (i + 1)) as [I1 I2]; [intros j Hj; apply Hle; lia |].
  pose proof (Hle i ltac:(lia)). split; [lia |]. intros He j Hj.
  destruct (Z.eq_dec j i) as [-> | Hne]; [lia | apply I2; lia].
Qed.

(** Message digits, then checksum digits. *)
Lemma digit_msg op Q i :
  wf_lmots_param op -> len Q = 32 -> 0 <= i < msg_digits (ots_p_w op) ->
  digit op Q i = lms_lmots_coef Q i (ots_p_w op).
Proof.
  intros Hop HQ Hi. destruct (msg_digits_props op Hop) as (H1 & H2 & H3).
  apply coef_app_l; [apply wf_valid_w, Hop | lia | lia].
Qed.

Lemma digit_checksum op Q j :
  wf_lmots_param op -> len Q = 32 -> 0 <= j < ots_p_p op - msg_digits (ots_p_w op) ->
  digit op Q (msg_digits (ots_p_w op) + j)
  = lms_lmots_coef (lms_store_u16 (u16 (lms_lmots_checksum Q (ots_p_n op) (ots_p_w op) (ots_p_ls op))))
      j (ots_p_w op).
Proof.
  intros Hop HQ Hj. destruct (msg_digits_props op Hop) as (H1 & H2 & H3).
  unfold digit, Q_with_checksum. rewrite H1, <- HQ.
  apply coef_app_r; [apply wf_valid_w, Hop | lia | lia].
Qed.

Lemma digit_range op Q i :
  wf_lmots_param op -> 0 <= i < ots_p_p op -> 0 <= digit op Q i <= 2 ^ ots_p_w op - 1.
Proof.
  intros Hop Hi. destruct (msg_digits_props op Hop) as (_ & H2 & _).
  apply coef_range; [apply wf_valid_w, Hop | lia].
Qed.

Lemma w_pow_range op : wf_lmots_param op -> 1 <= 2 ^ ots_p_w op - 1 <= UINT8_MAX.
Proof.
  intros Hop. destruct (wf_valid_w op Hop) as [-> | [-> | [-> | ->]]];
    vm_compute; split; discriminate.
Qed.

(** A hash whose digits are all at most another's is that other. *)
Lemma digits_incomparable (op : lmots_param_t) (Q Q' : bytes) :
  wf_lmots_param op ->
  len Q = LMS_N -> len Q' = LMS_N -> Forall is_byte Q -> Forall is_byte Q' ->
  (forall i, 0 <= i < ots_p_p op -> digit op Q i <= digit op Q' i) ->
  Q = Q'.
Proof.
  intros Hop HQ HQ' Hb Hb' Hle. unfold LMS_N in *.
  destruct (msg_digits_props op Hop) as (H1 & H2 & H3). pose proof (wf_valid_w op Hop) as Hw.
  assert (Hmsg : forall j, 0 <= j < 0 + Z.of_nat (Z.to_nat (msg_digits (ots_p_w op))) ->
            lms_lmots_coef Q j (ots_p_w op) <= lms_lmots_coef Q' j (ots_p_w op)).
  { intros j Hj. rewrite <- (digit_msg op Q), <- (digit_msg op Q') by (assumption || lia).
    apply Hle. lia. }
  destruct (gap_sum_mono Q Q' _ _ 0 Hmsg) as [Hgap Heq].
  destruct (checksum_digits op Q Hop) as [HcQ _].
  destruct (checksum_digits op Q' Hop) as [HcQ' _].
  apply (same_digits_same_bytes (ots_p_w op)); try assumption. intros i Hi.
  apply Heq; [| lia]. apply Z.le_antisymm; [exact Hgap |].
  fold (total_gap (ots_p_w op) Q) (total_gap (ots_p_w op) Q'). rewrite <- HcQ, <- HcQ'.
  apply digits_value_mono; [exact Hw |]. intros j Hj.
  rewrite <- !digit_checksum by (assumption || lia). apply Hle. lia.
Qed.

(** For every parameter set and every message hash, the checksum fits the
    16 bits it is stored in (the [(uint16_t)] cast loses nothing), every digit
    fits [w] bits and so a [uint8_t], and every digit is read inside the 34-byte
    buffer [Q]. *)
Theorem winternitz_bounds (type : Z) (op : lmots_param_t) (Q : bytes) (i : Z) :
  lmots_params_of type = Some op -> len Q = LMS_N -> 0 <= i < ots_p_p op ->
  0 <= lms_lmots_checksum Q (ots_p_n op) (ots_p_w op) (ots_p_ls op) <= UINT16_MAX /\
  0 <= digit op Q i <= 2 ^ ots_p_w op - 1 /\
  digit op Q i <= UINT8_MAX /\
  0 <= u32 (i * ots_p_w op) / 8 < LMS_N + 2.
Proof.
  intros Hop HQ Hi. apply lmots_params_of_wf in Hop as [Hop _].
  split; [apply checksum_digits, Hop |].
  pose proof (digit_range op Q i Hop Hi). pose proof (w_pow_range op Hop).
  split; [assumption |]. split; [lia |].
  destruct (wf_ots_cases op Hop) as [(-> & Hp & _) | [(-> & Hp & _) | [(-> & Hp & _) | (-> & Hp & _)]]];
    rewrite Hp in Hi; rewrite u32_small by lia; unfold LMS_N;
    (split; [apply Z.div_pos; lia | apply Z.div_lt_upper_bound; lia]).
Qed.

Lemma winternitz_bounds_witness :
  0 <= lms_lmots_checksum (fill 0 32) 32 1 7 <= UINT16_MAX /\
  0 <= digit (mkLmotsParam 1 LMS_HASH_SHA256 32 1 265 7) (fill 0 32) 264 <= 1 /\
  digit (mkLmotsParam 1 LMS_HASH_SHA256 32 1 265 7) (fill 0 32) 264 <= 255 /\
  0 <= u32 (264 * 1) / 8 < 34.
Proof.
  apply (winternitz_bounds 1 (mkLmotsParam 1 LMS_HASH_SHA256 32 1 265 7) (fill 0 32) 264);
    [reflexivity | reflexivity | split; [discriminate | reflexivity]].
Defined.

(** C31: no message hash's digit string dominates another's: if every digit of
    [Q] is at most the digit of [Q'] at the same place, then the two hashes are
    equal.  Signing [Q] therefore reveals, for any other hash, at least one
    chain value that lies beyond what the signature gives away. *)
Theorem winternitz_incomparable (type : Z) (op : lmots_param_t) (Q Q' : bytes) :
  lmots_params_of type = Some op ->
  len Q = LMS_N -> len Q' = LMS_N -> Forall is_byte Q -> Forall is_byte Q' ->
  (forall i, 0 <= i < ots_p_p op -> digit op Q i <= digit op Q' i) ->
  Q = Q'.
Proof.
  intros Hop. apply digits_incomparable, (lmots_params_of_wf type op Hop).
Qed.

Lemma winternitz_incomparable_witness : fill 3 32 = fill 3 32.
Proof.
  apply (winternitz_incomparable 4 (mkLmotsParam 4 LMS_HASH_SHA256 32 8 34 0)
           (fill 3 32) (fill 3 32)); try reflexivity;
    try (apply Forall_replicate; unfold is_byte; lia).
Defined.
