(* ===== verification/Spec.v ===== *)
(** The reference the library is verified against: RFC 8554's one-time and Merkle
    signatures as pure functions over the hash of a parameter set, and what a
    registered hardware backend promises ([backends_sound]).

    Nothing here models code; the definitions are what the theorems of
    LmOts.v, Tree.v and Lms.v relate the code to. *)

From S2P Require Import Prelude Types HashApi Params Winternitz.

Section Rfc.
Context `{Hh : HashApi}.
Variable alg : lms_hash_alg_t.
Variable op : lmots_param_t.
Variable height : Z.
Variable I_ : bytes.

Abbreviation H := (hash_of alg).

(** I || u32str(q) *)
Definition id_q (q : Z) : bytes := I_ ++ lms_store_u32 q.

Definition max_digit : Z := 2 ^ ots_p_w op - 1.

(** [steps] applications of the chain function from position [start]. *)
Definition chain_spec (q i start steps : Z) (v : bytes) : bytes :=
  for_z (Z.to_nat steps) start
    (fun j v => H (id_q q ++ lms_store_u16 (u16 i) ++ [u8 j] ++ v)) v.

Definition private_value_spec (seed : bytes) (q i : Z) : bytes :=
  H (id_q q ++ lms_store_u16 (u16 i) ++ [0xff] ++ seed).

Definition randomizer_spec (seed : bytes) (q : Z) : bytes :=
  H (id_q q ++ lms_store_u16 LMOTS_C_PRG_DOMAIN ++ seed).

Definition message_hash_spec (q : Z) (C msg : bytes) : bytes :=
  H (id_q q ++ lms_store_u16 D_MESG ++ C ++ msg).

(** The public key of the chain ends [zs]. *)
Definition ots_public_spec (q : Z) (zs : bytes) : bytes :=
  H (id_q q ++ lms_store_u16 D_PBLC ++ zs).

(** Concatenation of one value per chain. *)
Definition per_chain (f : Z -> bytes) : bytes := concat (map f (seqZ 0 (ots_p_p op))).

Definition ots_pub (seed : bytes) (q : Z) : bytes :=
  ots_public_spec q (per_chain (fun i => chain_spec q i 0 max_digit (private_value_spec seed q i))).

(** The chain values that sign the digits [a]. *)
Definition ots_sign_values (seed : bytes) (q : Z) (a : Z -> Z) : bytes :=
  per_chain (fun i => chain_spec q i 0 (a i) (private_value_spec seed q i)).

(** The public key candidate of a signature's chain values [y]. *)
Definition ots_candidate (q : Z) (a : Z -> Z) (y : bytes) : bytes :=
  ots_public_spec q
    (per_chain (fun i => chain_spec q i (a i) (max_digit - a i) (slice (i * LMS_N) LMS_N y))).

(** The digits of a message under the randomizer [C]. *)
Definition message_digits (q : Z) (C msg : bytes) : Z -> Z :=
  digit op (message_hash_spec q C msg).

(** type || C || y *)
Definition ots_signature (type : Z) (seed : bytes) (q : Z) (C msg : bytes) : bytes :=
  lms_store_u32 type ++ C ++ ots_sign_values seed q (message_digits q C msg).

(** ** The Merkle tree: node 1 is the root, leaf [q] is node 2^height + q *)

Definition leaf_spec (node_num : Z) (ots_pub : bytes) : bytes :=
  H (id_q node_num ++ lms_store_u16 D_LEAF ++ ots_pub).

Definition intr_spec (node_num : Z) (left right : bytes) : bytes :=
  H (id_q node_num ++ lms_store_u16 D_INTR ++ left ++ right).

(** The value of node [r], [k] levels above the leaves. *)
Fixpoint tree_spec (seed : bytes) (k : nat) (r : Z) : bytes :=
  match k with
  | O => leaf_spec r (ots_pub seed (r - 2 ^ height))
  | S k' => intr_spec r (tree_spec seed k' (2 * r)) (tree_spec seed k' (2 * r + 1))
  end.

Definition root_spec (seed : bytes) : bytes := tree_spec seed (Z.to_nat height) 1.

(** The sibling of the ancestor of leaf [q] at level [i]. *)
Definition sibling_num (q i : Z) : Z := Z.lxor ((2 ^ height + q) / 2 ^ i) 1.

Definition auth_path_spec (seed : bytes) (q : Z) : bytes :=
  concat (map (fun i => tree_spec seed (Z.to_nat i) (sibling_num q i)) (seqZ 0 height)).

(** One level of the root recomputation. *)
Definition climb (node_num : Z) (node sibling : bytes) : bytes :=
  if Z.even node_num then intr_spec (node_num / 2) node sibling
  else intr_spec (node_num / 2) sibling node.

(** The root recomputed from [node] with the siblings in [path]. *)
Fixpoint climb_path (n : nat) (node_num : Z) (node path : bytes) : bytes :=
  match n with
  | O => node
  | S n' => climb_path n' (node_num / 2) (climb node_num node (slice 0 LMS_N path)) (from LMS_N path)
  end.

(** The root recomputed from a signature: its fields are [C], [y] and the path. *)
Definition verify_root_spec (q : Z) (msg sg : bytes) : bytes :=
  let ots_len := ots_p_p op * LMS_N in
  let C := slice 8 LMS_N sg in
  let y := slice (8 + LMS_N) ots_len sg in
  let path := from (12 + LMS_N + ots_len) sg in
  climb_path (Z.to_nat height) (2 ^ height + q)
    (leaf_spec (2 ^ height + q) (ots_candidate q (message_digits q C msg) y)) path.

(** q || ots signature || type || path *)
Definition lms_signature (lms_type lmots_type : Z) (seed : bytes) (q : Z) (C msg : bytes) : bytes :=
  lms_store_u32 q ++ ots_signature lmots_type seed q C msg
  ++ lms_store_u32 lms_type ++ auth_path_spec seed q.
End Rfc.

(** The fields of a signature that verification checks before it hashes. *)
Definition sig_shape_ok (pub : lms_public_key_t) (lp : lms_param_t) (op : lmots_param_t)
    (sg : bytes) : bool :=
  (len sg =? 12 + LMS_N * (1 + ots_p_p op + lms_p_height lp))
  && (lms_load_u32 sg <? 2 ^ lms_p_height lp)
  && (lms_load_u32 (from 4 sg) =? pub_lmots_type pub)
  && (lms_load_u32 (from (8 + LMS_N + ots_p_p op * LMS_N) sg) =? pub_lms_type pub).

(** The verifier of RFC 8554 (algorithms 4b, 6 and 6a) as a decision. *)
Definition rfc_accepts `{Hh : HashApi} (pub : lms_public_key_t) (msg sg : bytes) : bool :=
  match matching_params (pub_lms_type pub) (pub_lmots_type pub) with
  | None => false
  | Some (lp, op) =>
      sig_shape_ok pub lp op sg
      && bool_decide (verify_root_spec (ots_p_hash_alg op) op (lms_p_height lp) (pub_I pub)
                        (lms_load_u32 sg) msg sg = pub_root pub)
  end.

(** ** Backend contracts

    A backend that returns [LMS_OK] wrote what the software would have
    computed; the ones that derive chains from the key's seed promise it for the
    key [(I, seed)] they hold.  [F] records whether any run may fail: it is
    implied by the presence of any backend. *)
Section Contracts.
Context `{P : Platform} `{Hh : HashApi}.
Variable F : Prop.
Variable I_ seed : bytes.

(** [o] is the outcome of a backend call: it may fail, or return a value of [Q], and
    leaves the device in order. *)
Definition sound_outcome {A} (o : result lms_status_t A * dev) (Q : A -> Prop) : Prop :=
  match fst o with Ok a => Q a | Err _ => True end /\ dev_ok (snd o).

Lemma sound_outcome_conseq {A} (o : result lms_status_t A * dev) (Q Q' : A -> Prop) :
  sound_outcome o Q -> (forall a, Q a -> Q' a) -> sound_outcome o Q'.
Proof. unfold sound_outcome. intros [Ho Hd] HQ. split; [destruct (fst o); auto | exact Hd]. Qed.

Definition slot_sound {fn} (s : slot fn) (Q : fn -> ptr -> Prop) : Prop :=
  forall f, slot_fn s = Some f -> F /\ Q f (slot_context s).

(** The arguments the library passes: an identifier [I], a value of a chain, a segment of
    chain [i], digits, and the chain values of a signature. *)
Definition ident (I : bytes) : Prop := len I = LMS_I_LEN /\ Forall is_byte I.
Definition chain_value (v : bytes) : Prop := len v = LMS_N /\ Forall is_byte v.
Definition chain_segment (i start steps : Z) : Prop :=
  0 <= i <= UINT16_MAX /\ 0 <= start /\ 0 <= steps /\ start + steps <= UINT8_MAX.
Definition digits_ok (op : lmots_param_t) (coefs : bytes) : Prop :=
  forall i, 0 <= i < ots_p_p op -> 0 <= rd coefs i <= max_digit op.
Definition chain_values (op : lmots_param_t) (y : bytes) : Prop :=
  len y = ots_p_p op * LMS_N /\ Forall is_byte y.

Definition chain_backend_sound (f : lmots_chain_backend_fn) (c : ptr) : Prop :=
  forall I alg q i start steps v d, available alg -> dev_ok d ->
    ident I -> chain_segment i start steps -> chain_value v ->
    sound_outcome (f c I alg q i start steps v d)
      (fun out => out = chain_spec alg I q i start steps v).

Definition derive_backend_sound (f : lmots_derive_chain_backend_fn) (c : ptr) : Prop :=
  forall alg q i start steps d, available alg -> dev_ok d -> chain_segment i start steps ->
    sound_outcome (f c I_ alg q i start steps d)
      (fun out => out = chain_spec alg I_ q i start steps (private_value_spec alg I_ seed q i)).

Definition keygen_backend_sound (f : lmots_keygen_backend_fn) (c : ptr) : Prop :=
  forall alg op q d, available alg -> dev_ok d -> lmots_params_of (ots_p_type op) = Some op ->
    sound_outcome (f c I_ alg q (ots_p_type op) d) (fun out => out = ots_pub alg op I_ seed q).

(** Any randomizer of the right length will do. *)
Definition randomizer_backend_sound (f : lmots_randomizer_backend_fn) (c : ptr) : Prop :=
  forall alg q d, available alg -> dev_ok d ->
    sound_outcome (f c I_ alg q d) (fun out => len out = LMS_N /\ Forall is_byte out).

Definition sign_backend_sound (f : lmots_sign_backend_fn) (c : ptr) : Prop :=
  forall alg op q coefs d, available alg -> dev_ok d -> lmots_params_of (ots_p_type op) = Some op ->
    digits_ok op coefs ->
    sound_outcome (f c I_ alg q (ots_p_type op) coefs d)
      (fun out => out = ots_sign_values alg op I_ seed q (rd coefs)).

Definition verify_backend_sound (f : lmots_verify_backend_fn) (c : ptr) : Prop :=
  forall I alg op q coefs y d, available alg -> dev_ok d -> lmots_params_of (ots_p_type op) = Some op ->
    ident I -> digits_ok op coefs -> chain_values op y ->
    sound_outcome (f c I alg q (ots_p_type op) coefs y d)
      (fun out => out = ots_candidate alg op I q (rd coefs) y).

Definition verify_leaf_backend_sound (f : lmots_verify_leaf_backend_fn) (c : ptr) : Prop :=
  forall I alg op q coefs y node d, available alg -> dev_ok d -> lmots_params_of (ots_p_type op) = Some op ->
    ident I -> digits_ok op coefs -> chain_values op y ->
    sound_outcome (f c I alg q (ots_p_type op) coefs y node d)
      (fun out => out = leaf_spec alg I node (ots_candidate alg op I q (rd coefs) y)).

Definition message_hash_backend_sound (f : lmots_message_hash_backend_fn) (c : ptr) : Prop :=
  forall I alg q C msg d, available alg -> dev_ok d -> ident I -> chain_value C -> Forall is_byte (cbuf_data msg) ->
    sound_outcome (f c I alg q C msg d)
      (fun out => out = message_hash_spec alg I q C (cbuf_data msg)).

(** The interface fills [LMS_N] bytes of [Q] and the coefficients. *)
Definition coef_backend_sound (f : lmots_coef_backend_fn) (c : ptr) : Prop :=
  forall I alg op q C msg d, available alg -> dev_ok d -> lmots_params_of (ots_p_type op) = Some op ->
    ident I -> chain_value C -> Forall is_byte (cbuf_data msg) ->
    sound_outcome (f c I alg q C msg (ots_p_type op) d)
      (fun '(Q, coefs) => Q = message_hash_spec alg I q C (cbuf_data msg) /\
         coefs = map (message_digits alg op I q C (cbuf_data msg)) (seqZ 0 (ots_p_p op))).

Definition intr_backend_sound (f : lms_intr_backend_fn) (c : ptr) : Prop :=
  forall I alg node left right d, available alg -> dev_ok d -> ident I -> chain_value left -> chain_value right ->
    sound_outcome (f c I alg node left right d) (fun out => out = intr_spec alg I node left right).

Definition verify_authpath_backend_sound (f : lms_verify_authpath_backend_fn) (c : ptr) : Prop :=
  forall I alg node leaf path height d, available alg -> dev_ok d ->
    ident I -> chain_value leaf -> 0 <= height <= LMS_MAX_HEIGHT -> height * LMS_N <= len path -> Forall is_byte path ->
    sound_outcome (f c I alg node leaf path height d)
      (fun out => out = climb_path alg I (Z.to_nat height) node leaf path).

Definition auth_path_backend_sound (f : lms_auth_path_backend_fn) (c : ptr) : Prop :=
  forall priv q lp op d,
    matching_params (priv_lms_type priv) (priv_lmots_type priv) = Some (lp, op) ->
    priv_I priv = I_ -> priv_seed priv = seed -> available (lms_p_hash_alg lp) -> dev_ok d ->
    sound_outcome (f c priv q d)
      (fun out => out = auth_path_spec (lms_p_hash_alg lp) op (lms_p_height lp) I_ seed q).

(** The backends of src/lm_ots.c. *)
Record ots_backends_sound (B : backends) : Prop := {
  sound_keygen_chain : slot_sound (keygen_chain_backend B) chain_backend_sound;
  sound_verify_chain : slot_sound (verify_chain_backend B) chain_backend_sound;
  sound_sign_chain : slot_sound (sign_chain_backend B) chain_backend_sound;
  sound_keygen_derive : slot_sound (keygen_derive_backend B) derive_backend_sound;
  sound_sign_derive : slot_sound (sign_derive_backend B) derive_backend_sound;
  sound_keygen : slot_sound (keygen_backend B) keygen_backend_sound;
  sound_sign : slot_sound (sign_backend B) sign_backend_sound;
  sound_verify : slot_sound (verify_backend B) verify_backend_sound;
  sound_verify_leaf : slot_sound (verify_leaf_backend B) verify_leaf_backend_sound;
  sound_randomizer : slot_sound (sign_randomizer_backend B) randomizer_backend_sound;
  sound_message_hash : slot_sound (message_hash_backend B) message_hash_backend_sound;
  sound_coef : slot_sound (coef_backend B) coef_backend_sound;
  (** The chain loops read their digits from all 34 bytes of [Q], of which the
      coefficient backend's interface fills 32: it is only usable together with the
      backends that take the coefficients instead. *)
  coef_needs_sign : forall f, slot_fn (coef_backend B) = Some f ->
    slot_fn (sign_backend B) <> None;
  coef_needs_verify : forall f, slot_fn (coef_backend B) = Some f ->
    slot_fn (verify_backend B) <> None
}.

(** Together with those of the Merkle layer. *)
Record backends_sound (B : backends) : Prop := {
  sound_ots :> ots_backends_sound B;
  sound_intr : slot_sound (intr_backend B) intr_backend_sound;
  sound_auth_path : slot_sound (auth_path_backend B) auth_path_backend_sound;
  sound_verify_authpath : slot_sound (verify_authpath_backend B) verify_authpath_backend_sound
}.

(** No backend at all: the pure software library. *)
Lemma no_backends_sound : backends_sound no_backends.
Proof. split; [split |..]; discriminate. Qed.
End Contracts.
