(* ===== verification/LmOts.v ===== *)
(** LM-OTS (src/lm_ots.c): backend registration, chains, key generation,
    signing, public-key recovery, and the prepare functions of the UART bridge.

    Functions that return a status and write through an output pointer are
    computations in [C]; [lmots_sign], whose partial writes the caller can
    see, works on the memory [smem] of a signing call. *)

From S2P Require Import Prelude Types HashApi Params.

(** The address of a local array, where a function compares with [NULL]. *)
Definition local_ptr : ptr := 1.

Section LmOts.
Context `{P : Platform} `{Hh : HashApi}.

(** ** Registration *)

Definition lms_intr_backend_set backend context : C unit :=
  set_backends (fun b => b {{ intr_backend := slot_set backend context }}).
Definition lmots_keygen_chain_backend_set backend context : C unit :=
  set_backends (fun b => b {{ keygen_chain_backend := slot_set backend context }}).
Definition lmots_verify_chain_backend_set backend context : C unit :=
  set_backends (fun b => b {{ verify_chain_backend := slot_set backend context }}).
Definition lmots_sign_chain_backend_set backend context : C unit :=
  set_backends (fun b => b {{ sign_chain_backend := slot_set backend context }}).
Definition lmots_keygen_derive_backend_set backend context : C unit :=
  set_backends (fun b => b {{ keygen_derive_backend := slot_set backend context }}).
Definition lmots_keygen_backend_set backend context : C unit :=
  set_backends (fun b => b {{ keygen_backend := slot_set backend context }}).
Definition lmots_sign_backend_set backend context : C unit :=
  set_backends (fun b => b {{ sign_backend := slot_set backend context }}).
Definition lmots_verify_backend_set backend context : C unit :=
  set_backends (fun b => b {{ verify_backend := slot_set backend context }}).
Definition lmots_verify_leaf_backend_set backend context : C unit :=
  set_backends (fun b => b {{ verify_leaf_backend := slot_set backend context }}).
Definition lmots_sign_derive_backend_set backend context : C unit :=
  set_backends (fun b => b {{ sign_derive_backend := slot_set backend context }}).
Definition lmots_sign_randomizer_backend_set backend context : C unit :=
  set_backends (fun b => b {{ sign_randomizer_backend := slot_set backend context }}).
Definition lmots_message_hash_backend_set backend context : C unit :=
  set_backends (fun b => b {{ message_hash_backend := slot_set backend context }}).
Definition lmots_coef_backend_set backend context : C unit :=
  set_backends (fun b => b {{ coef_backend := slot_set backend context }}).

Definition lms_intr_backend_available : C bool := registered intr_backend.

Definition lms_intr_backend_run (I_ : bytes) (hash_alg : lms_hash_alg_t) (node_num : Z)
    (left right : bytes) : C bytes :=
  call_backend intr_backend (fun f c => f c I_ hash_alg node_num left right)
    (fail LMS_ERR_INVALID).

(** ** Statistics (64-bit counters) *)

Definition stats_call : C unit :=
  modify (fun w => w {{ chain_stats :=
    mkStats (u64 (calls (chain_stats w) + 1)) (steps (chain_stats w)) }}).

Definition stats_steps (n : Z) : C unit :=
  modify (fun w => w {{ chain_stats :=
    mkStats (calls (chain_stats w)) (u64 (steps (chain_stats w) + n)) }}).

Definition lmots_chain_stats_reset : C unit :=
  modify (fun w => w {{ chain_stats := mkStats 0 0 }}).

Definition lmots_chain_stats_get : C lmots_chain_stats_t :=
  w ← get; mret (chain_stats w).

(** [lms_hash(alg, buf, len, out, LMS_N) == 0 ? LMS_OK : LMS_ERR_INVALID] *)
Definition hash_or_invalid (hash_alg : lms_hash_alg_t) (buf : bytes) : C bytes :=
  match hash hash_alg buf with
  | Some out => mret out
  | None => fail LMS_ERR_INVALID
  end.

(** ** Secret values *)

Definition lmots_private_value (priv : option lms_private_key_t) (q i : Z) (out : ptr) : C bytes :=
  match priv with
  | None => fail LMS_ERR_INVALID
  | Some priv =>
      guard_err ((out =? NULL) || (UINT16_MAX <? i)) LMS_ERR_INVALID ;;
      hash_alg ← or_return LMS_ERR_INVALID (lms_get_private_hash_alg priv);
      let prefix := priv_I priv ++ lms_store_u32 q ++ lms_store_u16 (u16 i) ++ [0xff]
                    ++ priv_seed priv in
      hash_or_invalid hash_alg prefix
  end.

Definition lmots_randomizer (priv : lms_private_key_t) (q : Z) : C bytes :=
  hash_alg ← or_return LMS_ERR_INVALID (lms_get_private_hash_alg priv);
  call_backend sign_randomizer_backend (fun f c => f c (priv_I priv) hash_alg q)
    (let prefix := priv_I priv ++ lms_store_u32 q ++ lms_store_u16 LMOTS_C_PRG_DOMAIN
                   ++ priv_seed priv in
     hash_or_invalid hash_alg prefix).

(** ** Chains *)

Definition lmots_chain_compute (I_ : option bytes) (hash_alg : lms_hash_alg_t)
    (q i start steps : Z) (value : option bytes) : C bytes :=
  match I_, value with
  | Some I_, Some value =>
      guard_err ((UINT16_MAX <? i) || (UINT8_MAX <? start) || (UINT8_MAX <? steps)
                 || (UINT8_MAX <? u32 (start + steps))) LMS_ERR_INVALID ;;
      let buf := I_ ++ lms_store_u32 q ++ lms_store_u16 (u16 i) in
      stats_call ;;
      loopM (Z.to_nat steps) start (fun j value =>
        value ← hash_or_invalid hash_alg (buf ++ [u8 j] ++ value);
        stats_steps 1 ;;
        mret value) value
  | _, _ => fail LMS_ERR_INVALID
  end.

(** The common body of the three [lmots_*_chain_compute]. *)
Definition chain_compute_via (sel : backends -> slot lmots_chain_backend_fn) (I_ : bytes)
    (hash_alg : lms_hash_alg_t) (q i start steps : Z) (value : bytes) : C bytes :=
  present ← registered sel;
  if negb present then lmots_chain_compute (Some I_) hash_alg q i start steps (Some value)
  else
    stats_call ;;
    value ← call_backend sel (fun f c => f c I_ hash_alg q i start steps value)
              (fail LMS_ERR_INVALID);
    stats_steps steps ;;
    mret value.

Definition lmots_keygen_chain_compute := chain_compute_via keygen_chain_backend.
Definition lmots_verify_chain_compute := chain_compute_via verify_chain_backend.
Definition lmots_sign_chain_compute := chain_compute_via sign_chain_backend.

(** ** Message hash, checksum, coefficients *)

(** Returns what is written at [Q]. *)
Definition lmots_message_hash (I_ : bytes) (hash_alg : lms_hash_alg_t) (q : Z) (c : bytes)
    (message : cbuf) : C bytes :=
  call_backend message_hash_backend (fun f ctx => f ctx I_ hash_alg q c message)
    (guard_err (cbuf_null message && negb (cbuf_len message =? 0)) LMS_ERR_INVALID ;;
     let prefix := I_ ++ lms_store_u32 q ++ lms_store_u16 D_MESG ++ c in
     or_return LMS_ERR_INVALID (lms_hash_parts prefix (cbuf_data message) [] [] hash_alg)).

(** [coef_backend && coef_backend(...) == LMS_OK]: the arrays it filled. *)
Definition coef_attempt (I_ : bytes) (hash_alg : lms_hash_alg_t) (q : Z) (c : bytes)
    (message : cbuf) (type : Z) (Q coefficients : bytes) : C (option (bytes * bytes)) :=
  present ← registered coef_backend;
  if negb present then mret None
  else
    r ← attempt (call_backend coef_backend (fun f ctx => f ctx I_ hash_alg q c message type)
                   (fail LMS_ERR_INVALID));
    match r with
    | Ok (q_bytes, coefs) => mret (Some (splice 0 q_bytes Q, splice 0 coefs coefficients))
    | Err _ => mret None
    end.

(** The software fallback: [Q] with the stored checksum. *)
Definition software_Q (I_ : bytes) (hash_alg : lms_hash_alg_t) (q : Z) (c : bytes)
    (message : cbuf) (param : lmots_param_t) (Q : bytes) : C bytes :=
  digest ← or_return LMS_ERR_INVALID (lmots_message_hash I_ hash_alg q c message);
  let Q := splice 0 digest Q in
  let checksum := lms_lmots_checksum Q (ots_p_n param) (ots_p_w param) (ots_p_ls param) in
  mret (splice (ots_p_n param) (lms_store_u16 (u16 checksum)) Q).

(** [for (i = 0; i < param.p; i++) coefficients[i] = (uint8_t)coef(Q, i, w);] *)
Definition fill_coefficients (param : lmots_param_t) (Q coefficients : bytes) : bytes :=
  for_z (Z.to_nat (ots_p_p param)) 0
    (fun i cs => upd i (u8 (lms_lmots_coef Q i (ots_p_w param))) cs) coefficients.

(** The block that ends with [Q] and, when [want] asks for them or the hardware gave
    them, the coefficients. *)
Definition coef_block (I_ : bytes) (hash_alg : lms_hash_alg_t) (q : Z) (c : bytes)
    (message : cbuf) (type : Z) (param : lmots_param_t) (want : C bool) : C (bytes * bytes) :=
  let Q := indet (LMS_N + 2) in
  let coefficients := indet LMS_MAX_OTS_P in
  coef_ok ← coef_attempt I_ hash_alg q c message type Q coefficients;
  match coef_ok with
  | Some qc => mret qc
  | None =>
      Q ← software_Q I_ hash_alg q c message param Q;
      w ← want;
      mret (Q, if w : bool then fill_coefficients param Q coefficients else coefficients)
  end.

(** ** Public key from a signature *)

(** The checks the two verification entry points share. *)
Definition ots_signature_checks (hash_alg : lms_hash_alg_t) (expected_type : Z) (signature : cbuf)
    : C lmots_param_t :=
  param ← or_return LMS_ERR_INVALID (lms_get_lmots_param expected_type);
  guard_err (cbuf_null signature
             || negb (cbuf_len signature
                      =? u32 (4 + ots_p_n param + ots_p_p param * ots_p_n param)))
            LMS_ERR_INVALID ;;
  guard_err (negb (lms_load_u32 (cbuf_data signature) =? expected_type)) LMS_ERR_VERIFY ;;
  guard_err (negb (bool_decide (ots_p_hash_alg param = hash_alg))) LMS_ERR_INVALID ;;
  mret param.

Definition lmots_public_from_signature (I_ : bytes) (hash_alg : lms_hash_alg_t) (q : Z)
    (expected_type : Z) (message signature : cbuf) : C bytes :=
  param ← ots_signature_checks hash_alg expected_type signature;
  let c := slice 4 (ots_p_n param) (cbuf_data signature) in
  let y := from (4 + ots_p_n param) (cbuf_data signature) in
  '(Q, coefficients) ← coef_block I_ hash_alg q c message expected_type param
                         (registered verify_backend);
  call_backend verify_backend
    (fun f ctx => f ctx I_ hash_alg q expected_type coefficients y)
    (pub_buf ← loopM (Z.to_nat (ots_p_p param)) 0 (fun i pub_buf =>
        let a := lms_lmots_coef Q i (ots_p_w param) in
        let chain_value := slice (i * ots_p_n param) (ots_p_n param) y in
        chain_value ← or_return LMS_ERR_INVALID
          (lmots_verify_chain_compute I_ hash_alg q i a (u32 (1 .<< ots_p_w param) - 1 - a)
             chain_value);
        mret (pub_buf ++ chain_value)) [];
     let prefix := I_ ++ lms_store_u32 q ++ lms_store_u16 D_PBLC in
     lms_hash_parts prefix pub_buf [] [] hash_alg).

Definition lmots_verify_leaf (I_ : bytes) (hash_alg : lms_hash_alg_t) (q : Z)
    (expected_type node_num : Z) (message signature : cbuf) : C bytes :=
  param ← ots_signature_checks hash_alg expected_type signature;
  let c := slice 4 (ots_p_n param) (cbuf_data signature) in
  let y := from (4 + ots_p_n param) (cbuf_data signature) in
  '(_, coefficients) ← coef_block I_ hash_alg q c message expected_type param (mret true);
  call_backend verify_leaf_backend
    (fun f ctx => f ctx I_ hash_alg q expected_type coefficients y node_num)
    (pub ← or_return LMS_ERR_VERIFY
       (lmots_public_from_signature I_ hash_alg q expected_type message signature);
     let prefix := I_ ++ lms_store_u32 node_num ++ lms_store_u16 D_LEAF in
     lms_hash_parts prefix pub [] [] hash_alg).

(** ** Key generation *)

(** One iteration of a chain loop that derives [x_i] and walks [steps]. *)
Definition derive_and_chain (derive : backends -> slot lmots_derive_chain_backend_fn)
    (chain : bytes -> lms_hash_alg_t -> Z -> Z -> Z -> Z -> bytes -> C bytes)
    (priv : lms_private_key_t) (hash_alg : lms_hash_alg_t) (q i steps : Z) : C bytes :=
  present ← registered derive;
  if present : bool then
    stats_call ;;
    chain_value ← or_return LMS_ERR_INVALID
      (call_backend derive (fun f c => f c (priv_I priv) hash_alg q i 0 steps)
         (fail LMS_ERR_INVALID));
    stats_steps steps ;;
    mret chain_value
  else
    chain_value ← or_return LMS_ERR_INVALID (lmots_private_value (Some priv) q i local_ptr);
    or_return LMS_ERR_INVALID (chain (priv_I priv) hash_alg q i 0 steps chain_value).

Definition lmots_public_from_private (priv : lms_private_key_t) (q : Z) : C bytes :=
  param ← or_return LMS_ERR_INVALID (lms_get_lmots_param (priv_lmots_type priv));
  hash_alg ← or_return LMS_ERR_INVALID (lms_get_private_hash_alg priv);
  call_backend keygen_backend
    (fun f ctx => f ctx (priv_I priv) hash_alg q (priv_lmots_type priv))
    (pub_buf ← loopM (Z.to_nat (ots_p_p param)) 0 (fun i pub_buf =>
        chain_value ← derive_and_chain keygen_derive_backend lmots_keygen_chain_compute
                        priv hash_alg q i (u32 (1 .<< ots_p_w param) - 1);
        mret (pub_buf ++ chain_value)) [];
     let prefix := priv_I priv ++ lms_store_u32 q ++ lms_store_u16 D_PBLC in
     lms_hash_parts prefix pub_buf [] [] hash_alg).

(** ** Signing *)

(** The memory a signing call works on: the library state, the caller's
    signature buffer, the private key and [*written]. *)
Record smem := mkSmem {
  wld : world;
  sig : bytes;
  key : lms_private_key_t;
  sig_written : option Z
}.

Definition SM (A : Type) : Type := M smem lms_status_t A.

Definition on_world {A} (m : C A) : SM A :=
  fun s => let '(r, w) := m (wld s) in (r, s {{ wld := w }}).

(** [memcpy(signature + off, src, |src|)] *)
Definition write (off : Z) (src : bytes) : SM unit :=
  modify (fun s => s {{ sig := splice off src (sig s) }}).

Definition read (off n : Z) : SM bytes :=
  fun s => (Ok (slice off n (sig s)), s).

(** The destination is [sig + base]; [signature] is only compared with [NULL]. *)
Definition lmots_sign (priv : lms_private_key_t) (q : Z) (message : cbuf)
    (signature : ptr) (base signature_len : Z) : SM unit :=
  param ← on_world (or_return LMS_ERR_INVALID (lms_get_lmots_param (priv_lmots_type priv)));
  hash_alg ← on_world (or_return LMS_ERR_INVALID (lms_get_private_hash_alg priv));
  guard_err (negb (bool_decide (ots_p_hash_alg param = hash_alg))) LMS_ERR_INVALID ;;
  guard_err ((signature =? NULL)
             || (signature_len <? u32 (4 + ots_p_n param + ots_p_p param * ots_p_n param)))
            LMS_ERR_BUFFER_TOO_SMALL ;;
  write base (lms_store_u32 (priv_lmots_type priv)) ;;
  c ← on_world (or_return LMS_ERR_INVALID (lmots_randomizer priv q));
  write (base + 4) c ;;
  c ← read (base + 4) LMS_N;
  '(Q, coefficients) ← on_world (coef_block (priv_I priv) hash_alg q c message
                                   (priv_lmots_type priv) param (registered sign_backend));
  present ← on_world (registered sign_backend);
  if present : bool then
    outputs ← on_world (call_backend sign_backend
      (fun f ctx => f ctx (priv_I priv) hash_alg q (priv_lmots_type priv) coefficients)
      (fail LMS_ERR_INVALID));
    write (base + 4 + ots_p_n param) outputs
  else
    loopM (Z.to_nat (ots_p_p param)) 0 (fun i _ =>
      let a := lms_lmots_coef Q i (ots_p_w param) in
      chain_value ← on_world (derive_and_chain sign_derive_backend lmots_sign_chain_compute
                                priv hash_alg q i a);
      write (base + 4 + ots_p_n param + i * ots_p_n param) chain_value) tt.

(** ** The UART bridge *)

(** Returns [C] and the coefficients. *)
Definition lmots_sign_prepare (priv : lms_private_key_t) (q : Z) (message : cbuf)
    : C (bytes * bytes) :=
  param ← or_return LMS_ERR_INVALID (lms_get_lmots_param (priv_lmots_type priv));
  hash_alg ← or_return LMS_ERR_INVALID (lms_get_private_hash_alg priv);
  guard_err (negb (bool_decide (ots_p_hash_alg param = hash_alg))) LMS_ERR_INVALID ;;
  c ← or_return LMS_ERR_INVALID (lmots_randomizer priv q);
  '(_, coefficients) ← coef_block (priv_I priv) hash_alg q c message
                         (priv_lmots_type priv) param (mret true);
  mret (c, coefficients).

Definition lmots_public_from_signature_prepare (I_ : bytes) (hash_alg : lms_hash_alg_t) (q : Z)
    (expected_type : Z) (message : cbuf) (c : bytes) : C bytes :=
  param ← or_return LMS_ERR_INVALID (lms_get_lmots_param expected_type);
  guard_err (negb (bool_decide (ots_p_hash_alg param = hash_alg))) LMS_ERR_INVALID ;;
  '(_, coefficients) ← coef_block I_ hash_alg q c message expected_type param (mret true);
  mret coefficients.
End LmOts.
