(* ===== verification/LmOtsCorrect.v ===== *)
(** The one-time signature code refines RFC 8554 (Spec.v), with any sound set of
    backends: each function returns the reference value or, only where a backend or
    the heap is involved, an error. *)

From S2P Require Import Prelude Types HashApi Params Winternitz Spec LmOts.

Lemma for_z_snoc {A} n i (f : Z -> A -> A) a :
  for_z (S n) i f a = f (i + Z.of_nat n) (for_z n i f a).
Proof.
  revert i a. induction n as [| n IH]; intros i a.
  - cbn. rewrite Z.add_0_r. reflexivity.
  - change (for_z (S (S n)) i f a) with (for_z (S n) (i + 1) f (f i a)).
    rewrite IH. cbn [for_z]. f_equal. lia.
Qed.

Section Ots.
Context `{P : Platform} `{Hh : HashApi}.
Variable F : Prop.
Variable I_ seed : bytes.
Variable B : backends.
Hypothesis HB : ots_backends_sound F I_ seed B.

(** Succeeds with a value of [Q], unless [F]. *)
Abbreviation ok := (hoare (inv B) F).

(** ** Effects that keep the invariant *)

Lemma ok_stats_call (Q : unit -> Prop) : Q tt -> ok stats_call Q.
Proof.
  apply hoare_modify. intros w [[[H1 H2] Hd] H3]. destruct w. split; [split; [split |] |]; assumption.
Qed.

Lemma ok_stats_steps n (Q : unit -> Prop) : Q tt -> ok (stats_steps n) Q.
Proof.
  apply hoare_modify. intros w [[[H1 H2] Hd] H3]. destruct w. split; [split; [split |] |]; assumption.
Qed.

Lemma ok_returns {A} (m : C A) a : returns B m a -> ok m (fun x => x = a).
Proof. intros H. apply (returns_hoare B F m a); [exact H | reflexivity]. Qed.

Lemma registered_returns {fn} (sel : backends -> slot fn) :
  returns B (registered sel) (match slot_fn (sel B) with Some _ => true | None => false end).
Proof. intros w [Hc Hb]. exists w. unfold registered. rewrite Hb. split; [reflexivity | split; assumption]. Qed.

(** Calling a sound backend, or the software behind it. *)
Lemma ok_call_backend {fn A} (sel : backends -> slot fn) (call : fn -> ptr -> backend A)
    (otherwise : C A) (Qs : fn -> ptr -> Prop) (Q : A -> Prop) :
  slot_sound F (sel B) Qs ->
  (forall f c d, slot_fn (sel B) = Some f -> Qs f c -> dev_ok d -> sound_outcome (call f c d) Q) ->
  (slot_fn (sel B) = None -> ok otherwise Q) ->
  ok (call_backend sel call otherwise) Q.
Proof.
  intros Hs Hc Ho w Hw. unfold call_backend. destruct Hw as [Hw Hb]. rewrite Hb.
  destruct (slot_fn (sel B)) as [f |] eqn:Ef.
  - destruct (Hs f Ef) as [HF HQ]. specialize (Hc f (slot_context (sel B)) (device w) eq_refl HQ (proj2 Hw)).
    unfold sound_outcome in Hc. destruct (call f _ (device w)) as [[a | e] d]; cbn [fst snd] in Hc; destruct Hc as [Ha Hd];
      (split; [assumption | apply inv_device; [exact Hd | split; assumption]]).
  - apply Ho; [reflexivity | split; assumption].
Qed.

Lemma ok_hash alg buf (Q : bytes -> Prop) :
  available alg -> Q (hash_of alg buf) -> ok (hash_or_invalid alg buf) Q.
Proof.
  intros Ha HQ. unfold hash_or_invalid. rewrite (available_hash alg buf Ha).
  apply hoare_ret. exact HQ.
Qed.

(** A loop that appends one value per chain. *)
Lemma ok_append_loop n (body : Z -> C bytes) (f : Z -> bytes) :
  0 <= n -> (forall i, 0 <= i < n -> ok (body i) (fun v => v = f i)) ->
  ok (loopM (Z.to_nat n) 0 (fun i acc => v ← body i; mret (acc ++ v)) [])
     (fun out => out = concat (map f (seqZ 0 n))).
Proof.
  intros Hn Hb.
  apply hoare_conseq with (P := fun out => out = concat (map f (seqZ 0 (0 + Z.of_nat (Z.to_nat n))))).
  - apply (hoare_loop (inv B) F (Z.to_nat n) 0 _
             (fun k acc => acc = concat (map f (seqZ 0 k)))); [reflexivity |].
    intros k acc Hk ->. eapply hoare_bind; [apply Hb; lia |].
    intros v ->. apply hoare_ret.
    rewrite (seqZ_app 0 k 1) by lia. rewrite map_app, concat_app. simpl.
    rewrite app_nil_r. reflexivity.
  - intros out ->. do 3 f_equal. lia.
Qed.

Lemma per_chain_ext op (f g : Z -> bytes) :
  (forall i, 0 <= i < ots_p_p op -> f i = g i) -> per_chain op f = per_chain op g.
Proof.
  intros H. unfold per_chain. f_equal. apply map_ext_in. intros i Hi.
  apply H. apply list_elem_of_In, elem_of_seqZ in Hi. lia.
Qed.

(** ** Chains *)

Lemma chain_spec_step alg q i start n v :
  0 <= n ->
  chain_spec alg I_ q i start (n + 1) v
  = hash_of alg (id_q I_ q ++ lms_store_u16 (u16 i) ++ [u8 (start + n)] ++ chain_spec alg I_ q i start n v).
Proof.
  intros Hn. unfold chain_spec. replace (Z.to_nat (n + 1)) with (S (Z.to_nat n)) by lia.
  rewrite for_z_snoc. rewrite Z2Nat.id by lia. reflexivity.
Qed.

End Ots.

Section OtsChains.
Context `{P : Platform} `{Hh : HashApi}.
Variable F : Prop.
Variable B : backends.

Lemma chain_compute_ok alg I_ q i start steps v :
  available alg -> 0 <= i <= UINT16_MAX -> 0 <= start -> 0 <= steps -> start + steps <= UINT8_MAX ->
  hoare (inv B) F (lmots_chain_compute (Some I_) alg q i start steps (Some v))
    (fun out => out = chain_spec alg I_ q i start steps v).
Proof.
  intros Ha Hi Hs Hn Hle. unfold lmots_chain_compute, UINT16_MAX, UINT8_MAX in *.
  eapply hoare_bind with (P := fun _ => True); [apply hoare_guard; [| exact I] |].
  { intros Hc. exfalso. rewrite u32_small in Hc by lia.
    repeat (apply orb_prop in Hc; destruct Hc as [Hc | Hc]); apply Z.ltb_lt in Hc; lia. }
  intros _ _. eapply hoare_bind with (P := fun _ => True); [apply ok_stats_call; exact I |].
  intros _ _.
  apply hoare_conseq with (P := fun out => out =
    chain_spec alg I_ q i start (start + Z.of_nat (Z.to_nat steps) - start) v).
  2: { intros out ->. f_equal. lia. }
  apply (hoare_loop (inv B) F (Z.to_nat steps) start _
           (fun k out => out = chain_spec alg I_ q i start (k - start) v)).
  - rewrite Z.sub_diag. reflexivity.
  - intros k out Hk ->. eapply hoare_bind; [apply ok_hash; [exact Ha |] |].
    { instantiate (1 := fun out => out = chain_spec alg I_ q i start (k + 1 - start) v).
      replace (k + 1 - start) with (k - start + 1) by lia.
      rewrite (chain_spec_step I_ alg q i start (k - start) v) by lia. unfold id_q. rewrite <- !app_assoc.
      replace (start + (k - start)) with k by lia. reflexivity. }
    intros out ->. eapply hoare_bind with (P := fun _ => True); [apply ok_stats_steps; exact I |].
    intros _ _. apply hoare_ret. reflexivity.
Qed.

Lemma chain_via_ok alg sel I_ q i start steps v :
  slot_sound F (sel B) chain_backend_sound ->
  available alg -> ident I_ -> chain_value v ->
  0 <= i <= UINT16_MAX -> 0 <= start -> 0 <= steps -> start + steps <= UINT8_MAX ->
  hoare (inv B) F (chain_compute_via sel I_ alg q i start steps v)
    (fun out => out = chain_spec alg I_ q i start steps v).
Proof.
  intros Hsnd Ha HI Hv Hi Hs Hn Hle. unfold chain_compute_via.
  eapply hoare_bind; [apply ok_returns, registered_returns |].
  intros present ->. destruct (slot_fn (sel B)) as [f |] eqn:Ef; cbn [negb].
  - eapply hoare_bind with (P := fun _ => True); [apply ok_stats_call; exact I |].
    intros _ _. eapply hoare_bind.
    + apply (ok_call_backend F B sel _ _ chain_backend_sound
               (fun out => out = chain_spec alg I_ q i start steps v) Hsnd).
      * intros f' c d _ Hf Hd. apply (Hf I_ alg q i start steps v d Ha Hd HI); [repeat split; lia | exact Hv].
      * rewrite Ef. discriminate.
    + intros out ->. eapply hoare_bind with (P := fun _ => True); [apply ok_stats_steps; exact I |].
      intros _ _. apply hoare_ret. reflexivity.
  - apply chain_compute_ok; assumption.
Qed.
End OtsChains.

(** ** Message hash and coefficients *)

(** A message the code can hash: bytes, readable, within [size_t], and not refused by
    the heap unless failure is allowed. *)
Record msg_ok `{P : Platform} (F : Prop) (m : cbuf) : Prop := {
  msg_readable : cbuf_null m && negb (cbuf_len m =? 0) = false;
  msg_fits : 54 + len (cbuf_data m) <= SIZE_MAX;
  msg_heap : stack_buf_len < 54 + len (cbuf_data m) ->
             malloc_may_fail (54 + len (cbuf_data m)) -> F;
  msg_bytes : Forall is_byte (cbuf_data m)
}.

Section OtsVerify.
Context `{P : Platform} `{Hh : HashApi}.
Variable F : Prop.
Variable I0 seed : bytes.
Variable B : backends.
Hypothesis HB : ots_backends_sound F I0 seed B.
Variable I_ : bytes.
Hypothesis HI : len I_ = LMS_I_LEN.
Variable type : Z.
Variable op : lmots_param_t.
Hypothesis Hop : lmots_params_of type = Some op.
Abbreviation alg := (ots_p_hash_alg op).
Hypothesis Ha : available alg.
Hypothesis HIb : Forall is_byte I_.
Abbreviation ok := (hoare (inv B) F).

Lemma op_wf : wf_lmots_param op.
Proof. apply (lmots_params_of_wf type op Hop). Qed.

Lemma op_type : ots_p_type op = type.
Proof. apply (lmots_params_of_wf type op Hop). Qed.

Lemma op_type_params : lmots_params_of (ots_p_type op) = Some op.
Proof. rewrite op_type. exact Hop. Qed.

Lemma op_n : ots_p_n op = 32.
Proof. apply op_wf. Qed.

Lemma op_p_range : 34 <= ots_p_p op <= 265.
Proof. destruct (wf_ots_cases op op_wf) as [(_ & -> & _) | [(_ & -> & _) | [(_ & -> & _) | (_ & -> & _)]]]; lia. Qed.

Lemma max_digit_range : 1 <= max_digit op <= UINT8_MAX.
Proof. exact (w_pow_range op op_wf). Qed.

Lemma u32_shl_w : u32 (1 .<< ots_p_w op) - 1 = max_digit op.
Proof. unfold max_digit. destruct (wf_valid_w op op_wf) as [-> | [-> | [-> | ->]]]; reflexivity. Qed.

Lemma message_hash_len q C msg : len (message_hash_spec alg I_ q C msg) = 32.
Proof. apply hash_of_len, Ha. Qed.

Lemma message_hash_ok q C m :
  chain_value C -> msg_ok F m ->
  ok (lmots_message_hash I_ alg q C m) (fun out => out = message_hash_spec alg I_ q C (cbuf_data m)).
Proof.
  intros HCv [Hr Hf Hm Hb]. pose proof (proj1 HCv) as HC. unfold lmots_message_hash.
  apply (ok_call_backend F B message_hash_backend _ _ message_hash_backend_sound
           _ (sound_message_hash _ _ _ _ HB)).
  - intros f c d _ Hs Hd. exact (Hs I_ alg q C m d Ha Hd (conj HI HIb) HCv Hb).
  - intros _. rewrite Hr. eapply hoare_bind with (P := fun _ => True); [apply hoare_ret; exact I |].
    intros _ _. apply hoare_or_return.
    assert (Hl : len ((I_ ++ lms_store_u32 q ++ lms_store_u16 D_MESG ++ C) ++ cbuf_data m ++ [] ++ [])
                 = 54 + len (cbuf_data m)).
    { rewrite !len_app, HI, HC, len_nil. change (len (lms_store_u32 q)) with 4.
      change (len (lms_store_u16 D_MESG)) with 2. unfold LMS_I_LEN, LMS_N. lia. }
    eapply hoare_conseq; [apply hash_parts_hoare; [exact Ha | rewrite Hl; exact Hf | rewrite Hl; exact Hm] |].
    intros out ->. unfold message_hash_spec, id_q. rewrite !app_nil_r, <- !app_assoc. reflexivity.
Qed.

(** What the fallback leaves in [Q] is the hash followed by its checksum. *)
Lemma software_Q_ok q C m :
  chain_value C -> msg_ok F m ->
  ok (software_Q I_ alg q C m op (indet (LMS_N + 2)))
     (fun Q => Q = Q_with_checksum op (message_hash_spec alg I_ q C (cbuf_data m))).
Proof.
  intros HC Hm. unfold software_Q.
  eapply hoare_bind; [apply hoare_or_return, (message_hash_ok q C m HC Hm) |].
  intros digest ->. apply hoare_ret.
  set (D := message_hash_spec _ _ _ _ _). assert (HD : len D = 32) by apply message_hash_len.
  pose proof (indet_len (LMS_N + 2) ltac:(discriminate)) as Hi. unfold LMS_N in Hi at 2.
  rewrite <- (take_drop 32 (indet (LMS_N + 2))).
  set (a := take 32 (indet (LMS_N + 2))). set (b := drop 32 (indet (LMS_N + 2))).
  assert (Hla : length a = 32%nat) by (unfold a; rewrite length_take; unfold len in Hi; lia).
  assert (Hlb : length b = 2%nat) by (unfold b; rewrite length_drop; unfold len in Hi; lia).
  assert (E1 : splice 0 D (a ++ b) = D ++ b)
    by (apply (splice_exact 0 D [] a b); [reflexivity | unfold len in HD; lia]).
  rewrite E1, checksum_app by (exact op_wf || exact HD).
  rewrite op_n. set (ck := lms_store_u16 _).
  pose proof (splice_exact 32 ck D b [] ltac:(symmetry; exact HD) ltac:(exact Hlb)) as E2.
  rewrite !app_nil_r in E2. rewrite E2. unfold ck, Q_with_checksum. rewrite op_n. reflexivity.
Qed.

Lemma fill_coefficients_rd Q cs i :
  len cs = LMS_MAX_OTS_P -> 0 <= i < ots_p_p op ->
  rd (fill_coefficients op Q cs) i = u8 (lms_lmots_coef Q i (ots_p_w op)).
Proof.
  intros Hl Hi. pose proof op_p_range. unfold fill_coefficients, rd. rewrite nth_lookup.
  rewrite (for_upd_lookup (fun i _ => u8 (lms_lmots_coef Q i (ots_p_w op)))) by lia.
  rewrite decide_True by lia. unfold LMS_MAX_OTS_P, len in Hl.
  destruct (lookup_lt_is_Some_2 cs (Z.to_nat i) ltac:(lia)) as [x ->]. simpl.
  rewrite Z2Nat.id by lia. reflexivity.
Qed.

Lemma digit_u8 Q i : 0 <= i < ots_p_p op -> u8 (digit op Q i) = digit op Q i.
Proof.
  intros Hi. apply u8_small. unfold is_byte. pose proof (digit_range op Q i op_wf Hi).
  pose proof max_digit_range. unfold max_digit, UINT8_MAX in *. lia.
Qed.

(** The digits as the hardware writes them. *)
Lemma splice_digits f cs i :
  0 <= i < ots_p_p op -> rd (splice 0 (map f (seqZ 0 (ots_p_p op))) cs) i = f i \/ len cs < ots_p_p op.
Proof.
  intros Hi. pose proof op_p_range. destruct (Z.lt_ge_cases (len cs) (ots_p_p op)) as [| Hge];
    [right; assumption | left].
  set (src := map f _). assert (Hls : length src = Z.to_nat (ots_p_p op))
    by (unfold src; rewrite length_map, length_seqZ; reflexivity).
  rewrite <- (take_drop (length src) cs).
  assert (E : splice 0 src (take (length src) cs ++ drop (length src) cs) = src ++ drop (length src) cs).
  { apply (splice_exact 0 src [] (take (length src) cs)); [reflexivity |].
    rewrite length_take. unfold len in Hge. lia. }
  rewrite E. unfold rd. rewrite app_nth1 by lia. rewrite nth_lookup. unfold src.
  rewrite list_lookup_fmap, lookup_seqZ_lt by lia. simpl. f_equal. lia.
Qed.

Lemma coef_block_ok q C m want wb :
  chain_value C -> msg_ok F m -> returns B want wb ->
  ok (coef_block I_ alg q C m type op want)
     (fun '(Q, cs) =>
        (slot_fn (coef_backend B) = None ->
           Q = Q_with_checksum op (message_hash_spec alg I_ q C (cbuf_data m))) /\
        (wb = true -> forall i, 0 <= i < ots_p_p op ->
           rd cs i = message_digits alg op I_ q C (cbuf_data m) i)).
Proof.
  intros HC Hm Hw. unfold coef_block.
  pose proof (indet_len LMS_MAX_OTS_P ltac:(discriminate)) as Hil.
  pose proof op_p_range as Hp.
  eapply hoare_bind with (P := fun r => match r with
    | None => True
    | Some (_, cs) => slot_fn (coef_backend B) <> None /\
        forall i, 0 <= i < ots_p_p op -> rd cs i = message_digits alg op I_ q C (cbuf_data m) i
    end).
  - unfold coef_attempt. eapply hoare_bind; [apply ok_returns, registered_returns |].
    intros present ->. destruct (slot_fn (coef_backend B)) as [f |] eqn:Ef; cbn [negb];
      [| apply hoare_ret; exact I].
    eapply hoare_bind.
    + apply hoare_attempt, (ok_call_backend F B coef_backend _ _ coef_backend_sound
        _ (sound_coef _ _ _ _ HB)).
      * intros f' c d _ Hs Hd. pose proof (Hs I_ alg op q C m d Ha Hd op_type_params (conj HI HIb) HC (msg_bytes _ _ Hm)) as Hs'.
        rewrite op_type in Hs'. exact Hs'.
      * rewrite Ef. discriminate.
    + intros [[Qb cb] | e] Hr; apply hoare_ret; [| exact I].
      cbv beta iota in Hr. destruct Hr as [_ ->].
      split; [discriminate |]. intros i Hi.
      destruct (splice_digits (message_digits alg op I_ q C (cbuf_data m)) (indet LMS_MAX_OTS_P) i Hi)
        as [H | H]; [exact H | unfold LMS_MAX_OTS_P in Hil; unfold LMS_MAX_OTS_P in H; lia].
  - intros [[Q cs] |] Hr.
    + apply hoare_ret. destruct Hr as [Hne Hd]. split; [contradiction | intros _; exact Hd].
    + eapply hoare_bind; [apply (software_Q_ok q C m HC Hm) |]. intros Q ->.
      eapply hoare_bind; [apply ok_returns, Hw |]. intros b ->. apply hoare_ret.
      split; [reflexivity |]. intros ->. intros i Hi.
      rewrite fill_coefficients_rd by assumption. apply digit_u8, Hi.
Qed.

(** ** Recovering the public key from a signature *)

Lemma registered_hoare {fn} (sel : backends -> slot fn) :
  returns B (registered sel) (match slot_fn (sel B) with Some _ => true | None => false end).
Proof. exact (registered_returns B sel). Qed.

(** A signature of the right length whose type field is the expected one. *)
Definition well_formed_ots (s : bytes) : Prop :=
  len s = 4 + LMS_N + ots_p_p op * LMS_N /\ lms_load_u32 s = type.

Lemma ots_signature_checks_ok s :
  well_formed_ots s -> returns B (ots_signature_checks alg type (Buf s)) op.
Proof.
  intros [Hl Ht]. unfold ots_signature_checks.
  eapply returns_bind; [apply returns_or_return, get_lmots_param_returns, Hop |].
  pose proof op_p_range. rewrite op_n. rewrite u32_small by lia. cbn [cbuf_null cbuf_len cbuf_data].
  unfold LMS_N in Hl. rewrite Hl, Ht, Z.eqb_refl, Z.eqb_refl, bool_decide_true by reflexivity.
  do 3 (eapply returns_bind; [apply returns_ret |]). apply returns_ret.
Qed.

Lemma message_digits_range q C msg i :
  0 <= i < ots_p_p op -> 0 <= message_digits alg op I_ q C msg i <= max_digit op.
Proof. apply digit_range, op_wf. Qed.

Lemma ots_candidate_ext q a a' y :
  (forall i, 0 <= i < ots_p_p op -> a i = a' i) ->
  ots_candidate alg op I_ q a y = ots_candidate alg op I_ q a' y.
Proof.
  intros H. unfold ots_candidate. f_equal. apply per_chain_ext. intros i Hi. rewrite H by exact Hi. reflexivity.
Qed.

Lemma chain_spec_len i q start n v : len v = LMS_N -> 0 <= n -> len (chain_spec alg I_ q i start n v) = LMS_N.
Proof.
  intros Hv Hn. destruct (Z.eq_dec n 0) as [-> | Hne]; [exact Hv |].
  replace n with (n - 1 + 1) by lia. rewrite chain_spec_step by lia. apply hash_of_len, Ha.
Qed.

Lemma concat_len (f : Z -> bytes) n i :
  0 <= n -> (forall j, i <= j < i + n -> len (f j) = LMS_N) -> len (concat (map f (seqZ i n))) = n * LMS_N.
Proof.
  intros Hn. replace n with (Z.of_nat (Z.to_nat n)) by lia.
  revert i. induction (Z.to_nat n) as [| k IH]; intros i H; [reflexivity |].
  rewrite seqZ_cons by lia. cbn [map concat]. rewrite len_app, H by lia.
  replace (Z.pred (Z.of_nat (S k))) with (Z.of_nat k) by lia.
  rewrite IH by (intros j Hj; apply H; lia). lia.
Qed.

(** The final hash of [p] chain values. *)
Lemma ots_public_hash_ok q zs :
  len zs = ots_p_p op * LMS_N ->
  returns B (lms_hash_parts (I_ ++ lms_store_u32 q ++ lms_store_u16 D_PBLC) zs [] [] alg)
    (ots_public_spec alg I_ q zs).
Proof.
  intros Hz. pose proof op_p_range.
  replace (ots_public_spec alg I_ q zs) with
    (hash_of alg ((I_ ++ lms_store_u32 q ++ lms_store_u16 D_PBLC) ++ zs ++ [] ++ [])).
  - apply hash_parts_returns; [exact Ha |].
    rewrite !len_app, HI, Hz, len_nil. change (len (lms_store_u32 q)) with 4.
    change (len (lms_store_u16 D_PBLC)) with 2.
    unfold stack_buf_len, LMS_I_LEN, LMS_N, LMS_MAX_OTS_P. lia.
  - unfold ots_public_spec, id_q. rewrite !app_nil_r, <- !app_assoc. reflexivity.
Qed.

Lemma public_from_signature_ok q m s :
  well_formed_ots s -> Forall is_byte s -> msg_ok F m ->
  ok (lmots_public_from_signature I_ alg q type m (Buf s))
     (fun pub => pub = ots_candidate alg op I_ q
        (message_digits alg op I_ q (slice 4 LMS_N s) (cbuf_data m)) (from (4 + LMS_N) s)).
Proof.
  intros Hs Hsb Hm. unfold lmots_public_from_signature. pose proof op_p_range as Hp.
  eapply hoare_bind; [apply ok_returns, ots_signature_checks_ok, Hs |].
  intros ? ->. cbn [cbuf_data]. rewrite op_n. fold LMS_N. destruct Hs as [Hl Ht].
  assert (HC : chain_value (slice 4 LMS_N s))
    by (split; [apply len_slice; unfold LMS_N in *; lia | apply Forall_slice, Hsb]).
  set (C := slice 4 LMS_N s) in *. set (y := from (4 + LMS_N) s).
  assert (Hyb : Forall is_byte y) by (apply Forall_drop, Hsb).
  assert (Hy : len y = ots_p_p op * LMS_N) by (unfold y; rewrite len_from; unfold LMS_N in *; lia).
  eapply hoare_bind; [apply (coef_block_ok q C m _ _ HC Hm (registered_hoare verify_backend)) |].
  intros [Q cs] [HQ Hcs].
  apply (ok_call_backend F B verify_backend _ _ verify_backend_sound _ (sound_verify _ _ _ _ HB)).
  - intros f c d Hf Hsnd Hd. rewrite Hf in Hcs.
    pose proof (Hsnd I_ alg op q cs y d Ha Hd op_type_params (conj HI HIb)
      (fun i Hi => eq_ind_r (fun x => 0 <= x <= _) (message_digits_range q C (cbuf_data m) i Hi) (Hcs eq_refl i Hi)) (conj Hy Hyb)) as H. rewrite op_type in H.
    apply (sound_outcome_conseq _ _ _ H). intros out ->. apply ots_candidate_ext. exact (Hcs eq_refl).
  - intros Hnone.
    assert (Hnc : slot_fn (coef_backend B) = None).
    { destruct (slot_fn (coef_backend B)) eqn:E; [| reflexivity].
      destruct (coef_needs_verify _ _ _ _ HB _ E Hnone). }
    rewrite (HQ Hnc). clear HQ Hcs cs. set (D := message_hash_spec _ _ _ _ _).
    eapply hoare_bind.
    + apply (ok_append_loop F B (ots_p_p op) _
        (fun i => chain_spec alg I_ q i (digit op D i) (max_digit op - digit op D i)
                    (slice (i * LMS_N) LMS_N y))); [lia |].
      intros i Hi. apply hoare_or_return.
      rewrite u32_shl_w. unfold LMS_N at 2 4. 
      change (lms_lmots_coef (Q_with_checksum op D) i (ots_p_w op)) with (digit op D i).
      pose proof (digit_range op D i op_wf Hi). fold (max_digit op) in *. pose proof max_digit_range.
      apply (chain_via_ok F B); try (unfold UINT16_MAX; lia);
        [exact (sound_verify_chain _ _ _ _ HB) | exact Ha | exact (conj HI HIb) |].
      split; [apply len_slice; unfold LMS_N in *; lia | apply Forall_slice, Hyb].
    + intros zs ->. apply ok_returns, ots_public_hash_ok.
      apply concat_len; [lia |]. intros i Hi. pose proof (digit_range op D i op_wf ltac:(lia)).
      apply chain_spec_len; [apply len_slice; unfold LMS_N in *; lia | unfold max_digit; lia].
Qed.

(** The leaf: the candidate key under [D_LEAF]. *)
Lemma leaf_hash_ok node pub :
  len pub = LMS_N ->
  returns B (lms_hash_parts (I_ ++ lms_store_u32 node ++ lms_store_u16 D_LEAF) pub [] [] alg)
    (leaf_spec alg I_ node pub).
Proof.
  intros Hz.
  replace (leaf_spec alg I_ node pub) with
    (hash_of alg ((I_ ++ lms_store_u32 node ++ lms_store_u16 D_LEAF) ++ pub ++ [] ++ [])).
  - apply hash_parts_returns; [exact Ha |].
    rewrite !len_app, HI, Hz, len_nil. change (len (lms_store_u32 node)) with 4.
    change (len (lms_store_u16 D_LEAF)) with 2.
    unfold stack_buf_len, LMS_I_LEN, LMS_N, LMS_MAX_OTS_P. lia.
  - unfold leaf_spec, id_q. rewrite !app_nil_r, <- !app_assoc. reflexivity.
Qed.

Lemma verify_leaf_ok q node m s :
  well_formed_ots s -> Forall is_byte s -> msg_ok F m ->
  ok (lmots_verify_leaf I_ alg q type node m (Buf s))
     (fun leaf => leaf = leaf_spec alg I_ node (ots_candidate alg op I_ q
        (message_digits alg op I_ q (slice 4 LMS_N s) (cbuf_data m)) (from (4 + LMS_N) s))).
Proof.
  intros Hs Hsb Hm. unfold lmots_verify_leaf. pose proof op_p_range as Hp.
  eapply hoare_bind; [apply ok_returns, ots_signature_checks_ok, Hs |].
  intros ? ->. cbn [cbuf_data]. rewrite op_n. fold LMS_N. destruct Hs as [Hl Ht].
  assert (HC : chain_value (slice 4 LMS_N s))
    by (split; [apply len_slice; unfold LMS_N in *; lia | apply Forall_slice, Hsb]).
  eapply hoare_bind; [apply (coef_block_ok q _ m _ true HC Hm (returns_ret B true)) |].
  intros [Q cs] [_ Hcs].
  apply (ok_call_backend F B verify_leaf_backend _ _ verify_leaf_backend_sound _
           (sound_verify_leaf _ _ _ _ HB)).
  - intros f c d _ Hsnd Hd.
    assert (Hd' : digits_ok op cs)
      by (intros i Hi; rewrite (Hcs eq_refl i Hi); apply message_digits_range, Hi).
    assert (Hy : chain_values op (from (4 + LMS_N) s))
      by (split; [rewrite len_from by (unfold LMS_N in *; lia); unfold LMS_N in *; lia | apply Forall_from, Hsb]).
    pose proof (Hsnd I_ alg op q cs (from (4 + LMS_N) s) node d Ha Hd op_type_params (conj HI HIb) Hd' Hy) as H.
    rewrite op_type in H. apply (sound_outcome_conseq _ _ _ H). intros out ->. f_equal. apply ots_candidate_ext. exact (Hcs eq_refl).
  - intros _. eapply hoare_bind.
    + apply hoare_or_return, public_from_signature_ok; [split; assumption | exact Hsb | exact Hm].
    + intros pub ->. apply ok_returns, leaf_hash_ok. apply hash_of_len, Ha.
Qed.

Lemma prepare_verify_ok q C m :
  chain_value C -> msg_ok F m ->
  ok (lmots_public_from_signature_prepare I_ alg q type m C)
     (fun cs => forall i, 0 <= i < ots_p_p op ->
        rd cs i = message_digits alg op I_ q C (cbuf_data m) i).
Proof.
  intros HC Hm. unfold lmots_public_from_signature_prepare.
  eapply hoare_bind; [apply ok_returns, returns_or_return, get_lmots_param_returns, Hop |].
  intros ? ->. rewrite bool_decide_true by reflexivity.
  eapply hoare_bind with (P := fun _ => True); [apply hoare_ret; exact I |]. intros _ _.
  eapply hoare_bind; [apply (coef_block_ok q C m _ true HC Hm (returns_ret B true)) |].
  intros [Q cs] [_ Hcs]. apply hoare_ret. exact (Hcs eq_refl).
Qed.
End OtsVerify.

(** ** Key generation and signing *)

(** The key of a signing call: [op] and [lp] are its parameters. *)
Record key_ok `{Hh : HashApi} (priv : lms_private_key_t) (lp : lms_param_t) (op : lmots_param_t)
  : Prop := {
  key_wf : wf_priv priv;
  key_params : matching_params (priv_lms_type priv) (priv_lmots_type priv) = Some (lp, op);
  key_alg : available (ots_p_hash_alg op)
}.

(** A key over the cheap hash, for the examples: height 5, w = 1. *)
Definition demo_priv : lms_private_key_t :=
  mkPriv LMS_SHAKE256_N32_H5 LMOTS_SHAKE256_N32_W1 (fill 0x61 16) (fill 0x5e 32) 3.
Definition demo_lp : lms_param_t := mkLmsParam LMS_SHAKE256_N32_H5 LMS_HASH_SHAKE256 5 32.
Definition demo_op : lmots_param_t :=
  mkLmotsParam LMOTS_SHAKE256_N32_W1 LMS_HASH_SHAKE256 32 1 265 7.
Definition demo_msg : cbuf := Buf [1; 2; 3].

Lemma demo_key_ok : key_ok (Hh := toy_hash_api) demo_priv demo_lp demo_op.
Proof.
  split; [| reflexivity | eexists; reflexivity].
  split; try reflexivity; try (split; [discriminate | reflexivity]);
    apply Forall_replicate; unfold is_byte; lia.
Qed.

Lemma demo_msg_ok : msg_ok (P := test_platform) False demo_msg.
Proof. split; [reflexivity | discriminate | discriminate | repeat constructor; discriminate]. Qed.

Section OtsSign.
Context `{P : Platform} `{Hh : HashApi}.
Variable F : Prop.
Variable priv : lms_private_key_t.
Variable B : backends.
Hypothesis HB : ots_backends_sound F (priv_I priv) (priv_seed priv) B.
Variable lp : lms_param_t.
Variable op : lmots_param_t.
Hypothesis Hk : key_ok priv lp op.
Abbreviation I_ := (priv_I priv).
Abbreviation seed := (priv_seed priv).
Abbreviation alg := (ots_p_hash_alg op).
Abbreviation ok := (hoare (inv B) F).

Lemma key_lms : lms_params_of (priv_lms_type priv) = Some lp.
Proof. apply (matching_params_wf _ _ _ _ (key_params _ _ _ Hk)). Qed.

Lemma key_ots : lmots_params_of (priv_lmots_type priv) = Some op.
Proof. apply (matching_params_wf _ _ _ _ (key_params _ _ _ Hk)). Qed.

Lemma key_same_alg : lms_p_hash_alg lp = alg.
Proof. apply (matching_params_wf _ _ _ _ (key_params _ _ _ Hk)). Qed.

Lemma key_I_len : len I_ = LMS_I_LEN.
Proof. apply (key_wf _ _ _ Hk). Qed.

Lemma key_ident : ident I_.
Proof. split; apply (key_wf _ _ _ Hk). Qed.

Lemma hash_alg_returns : returns B (lms_get_private_hash_alg priv) alg.
Proof. rewrite <- key_same_alg. eapply private_hash_alg_returns, (key_params _ _ _ Hk). Qed.

Lemma private_value_ok q i :
  0 <= i <= UINT16_MAX ->
  ok (lmots_private_value (Some priv) q i local_ptr)
     (fun v => v = private_value_spec alg I_ seed q i).
Proof.
  intros Hi. unfold lmots_private_value. change (local_ptr =? NULL) with false. cbn [orb].
  destruct (Z.ltb_spec UINT16_MAX i); [lia |].
  eapply hoare_bind with (P := fun _ => True); [apply hoare_ret; exact I |]. intros _ _.
  eapply hoare_bind; [apply ok_returns, returns_or_return, hash_alg_returns |]. intros ? ->.
  apply ok_hash; [exact (key_alg _ _ _ Hk) |].
  unfold private_value_spec, id_q. rewrite <- !app_assoc. reflexivity.
Qed.

(** With a randomizer backend any 32 bytes, otherwise the derived randomizer. *)
Definition randomizer_of (q : Z) (C : bytes) : Prop :=
  len C = LMS_N /\ Forall is_byte C /\
  (slot_fn (sign_randomizer_backend B) = None -> C = randomizer_spec alg I_ seed q).

Lemma randomizer_ok q : ok (lmots_randomizer priv q) (randomizer_of q).
Proof.
  unfold lmots_randomizer.
  eapply hoare_bind; [apply ok_returns, returns_or_return, hash_alg_returns |]. intros ? ->.
  pose proof (key_alg _ _ _ Hk) as Ha.
  apply (ok_call_backend F B sign_randomizer_backend _ _ (randomizer_backend_sound (priv_I priv))
           _ (sound_randomizer _ _ _ _ HB)).
  - intros f c d Hf Hs Hd. apply (sound_outcome_conseq _ _ _ (Hs alg q d Ha Hd)). intros out [H1 H2].
    split; [exact H1 |]. split; [exact H2 |]. rewrite Hf. discriminate.
  - intros _. apply ok_hash; [exact Ha |].
    replace (I_ ++ _) with (id_q I_ q ++ lms_store_u16 LMOTS_C_PRG_DOMAIN ++ seed)
      by (unfold id_q; rewrite <- !app_assoc; reflexivity).
    split; [apply hash_of_len, Ha |]. split; [apply hash_of_bytes, Ha | reflexivity].
Qed.

Lemma derive_and_chain_ok derive chain q i steps :
  slot_sound F (derive B) (derive_backend_sound I_ seed) ->
  slot_sound F (chain B) chain_backend_sound ->
  0 <= i <= UINT16_MAX -> 0 <= steps <= UINT8_MAX ->
  ok (derive_and_chain derive (chain_compute_via chain) priv alg q i steps)
     (fun v => v = chain_spec alg I_ q i 0 steps (private_value_spec alg I_ seed q i)).
Proof.
  intros Hd Hc Hi Hst. unfold derive_and_chain. pose proof (key_alg _ _ _ Hk) as Ha.
  eapply hoare_bind; [apply ok_returns, registered_returns |]. intros present ->.
  destruct (slot_fn (derive B)) as [f |] eqn:Ef.
  - eapply hoare_bind with (P := fun _ => True); [apply ok_stats_call; exact I |]. intros _ _.
    eapply hoare_bind.
    + apply hoare_or_return, (ok_call_backend F B derive _ _ (derive_backend_sound I_ seed)
        (fun v => v = chain_spec alg I_ q i 0 steps (private_value_spec alg I_ seed q i)) Hd).
      * intros f' c d _ Hs Hdev. apply (Hs alg q i 0 steps d Ha Hdev). repeat split; lia.
      * rewrite Ef. discriminate.
    + intros v ->. eapply hoare_bind with (P := fun _ => True); [apply ok_stats_steps; exact I |].
      intros _ _. apply hoare_ret. reflexivity.
  - eapply hoare_bind; [apply hoare_or_return, private_value_ok, Hi |]. intros v ->.
    apply hoare_or_return, (chain_via_ok F B); try lia; try assumption; [exact key_ident |].
    split; [apply hash_of_len, Ha | apply hash_of_bytes, Ha].
Qed.

Lemma public_from_private_ok q :
  ok (lmots_public_from_private priv q) (fun pub => pub = ots_pub alg op I_ seed q).
Proof.
  pose proof (op_p_range _ _ key_ots) as Hp. pose proof (key_alg _ _ _ Hk) as Ha.
  unfold lmots_public_from_private.
  eapply hoare_bind; [apply ok_returns, returns_or_return, get_lmots_param_returns, key_ots |].
  intros ? ->.
  eapply hoare_bind; [apply ok_returns, returns_or_return, hash_alg_returns |]. intros ? ->.
  apply (ok_call_backend F B keygen_backend _ _ (keygen_backend_sound I_ seed) _
           (sound_keygen _ _ _ _ HB)).
  - intros f c d _ Hs Hd. pose proof (Hs alg op q d Ha Hd (op_type_params _ _ key_ots)) as H.
    rewrite (op_type _ _ key_ots) in H. exact H.
  - intros _. rewrite (u32_shl_w _ _ key_ots). pose proof (max_digit_range _ _ key_ots) as Hmd.
    eapply hoare_bind.
    + apply (ok_append_loop F B (ots_p_p op) _
        (fun i => chain_spec alg I_ q i 0 (max_digit op) (private_value_spec alg I_ seed q i))); [lia |].
      intros i Hi. apply derive_and_chain_ok;
        [exact (sound_keygen_derive _ _ _ _ HB) | exact (sound_keygen_chain _ _ _ _ HB) | unfold UINT16_MAX; lia | lia].
    + intros zs ->. apply ok_returns.
      apply (ots_public_hash_ok B I_ key_I_len _ op key_ots Ha).
      apply concat_len; [lia |]. intros i Hi.
      apply (chain_spec_len I_ op Ha); [apply hash_of_len, Ha | lia].
Qed.

(** The digits the reference signs for a message and the randomizer [C]. *)
Definition digits_of (q : Z) (C msg : bytes) : Z -> Z := message_digits alg op I_ q C msg.

Lemma sign_prepare_ok q m :
  msg_ok F m ->
  ok (lmots_sign_prepare priv q m)
     (fun '(C, cs) => randomizer_of q C /\
        forall i, 0 <= i < ots_p_p op -> rd cs i = digits_of q C (cbuf_data m) i).
Proof.
  intros Hm. unfold lmots_sign_prepare.
  eapply hoare_bind; [apply ok_returns, returns_or_return, get_lmots_param_returns, key_ots |].
  intros ? ->.
  eapply hoare_bind; [apply ok_returns, returns_or_return, hash_alg_returns |]. intros ? ->.
  rewrite bool_decide_true by reflexivity.
  eapply hoare_bind with (P := fun _ => True); [apply hoare_ret; exact I |]. intros _ _.
  eapply hoare_bind; [apply hoare_or_return, randomizer_ok |]. intros C HC.
  eapply hoare_bind.
  - apply (coef_block_ok F I_ seed B HB I_ key_I_len _ op key_ots (key_alg _ _ _ Hk) (proj2 key_ident) q C m _ true);
      [split; apply HC | exact Hm | apply returns_ret].
  - intros [Q cs] [_ Hcs]. apply hoare_ret. split; [exact HC | exact (Hcs eq_refl)].
Qed.
End OtsSign.

(** ** Signing into the caller's buffer *)

Section Smem.
Context `{P : Platform} `{Hh : HashApi}.
Variable F : Prop.
Variable B : backends.

(** From a buffer [sg], [m] ends in a buffer of [Q], or fails (only under [F])
    with a buffer of the same size; the key and [*written] stay as they were. *)
Definition shoare {A} (m : SM A) (sg : bytes) (Q : A -> bytes -> Prop) : Prop :=
  forall s, inv B (wld s) -> sig s = sg ->
    match m s with
    | (Ok a, s') => Q a (sig s') /\ inv B (wld s') /\ key s' = key s /\
                    sig_written s' = sig_written s
    | (Err _, s') => F /\ inv B (wld s') /\ key s' = key s /\
                     sig_written s' = sig_written s /\ length (sig s') = length sg
    end.

Lemma shoare_ret {A} (a : A) sg (Q : A -> bytes -> Prop) : Q a sg -> shoare (mret a) sg Q.
Proof. intros HQ s Hi Hs. cbn. rewrite Hs. auto. Qed.

Lemma shoare_bind {A A'} (m : SM A) (f : A -> SM A') sg (Q : A -> bytes -> Prop) R :
  shoare m sg Q ->
  (forall a sg', Q a sg' -> length sg' = length sg /\ shoare (f a) sg' R) ->
  shoare (m ≫= f) sg R.
Proof.
  intros Hm Hf s Hi Hs. unfold mbind, M_bind. specialize (Hm s Hi Hs).
  destruct (m s) as [[a | e] s1]; [| exact Hm].
  destruct Hm as (HQ & Hi1 & Hk1 & Hw1). destruct (Hf a (sig s1) HQ) as [Hl Hfa].
  specialize (Hfa s1 Hi1 eq_refl). rewrite <- Hk1, <- Hw1.
  destruct (f a s1) as [[a' | e] s2]; [exact Hfa |].
  rewrite <- Hl. exact Hfa.
Qed.

Lemma shoare_conseq {A} (m : SM A) sg (Q R : A -> bytes -> Prop) :
  shoare m sg Q -> (forall a sg', Q a sg' -> R a sg') -> shoare m sg R.
Proof.
  intros Hm HQR s Hi Hs. specialize (Hm s Hi Hs).
  destruct (m s) as [[a | e] s1]; [| exact Hm]. destruct Hm as (HQ & H). split; auto.
Qed.

Lemma shoare_guard (c : bool) e sg (Q : unit -> bytes -> Prop) :
  c = false -> Q tt sg -> shoare (guard_err c e) sg Q.
Proof. intros -> HQ. apply shoare_ret, HQ. Qed.

(** A step on the library state leaves the buffer alone. *)
Lemma shoare_world {A} (m : C A) sg (Q : A -> Prop) :
  hoare (inv B) F m Q -> shoare (on_world m) sg (fun a sg' => Q a /\ sg' = sg).
Proof.
  intros Hm [w sg0 k wr] Hi Hs. cbn in Hi, Hs. subst sg0. unfold on_world. cbn [wld].
  specialize (Hm w Hi). destruct (m w) as [[a | e] w']; destruct Hm as [HQ Hi'];
    cbn; auto.
Qed.

(** Writing the next piece of a buffer of which [a] is done. *)
Lemma shoare_write off src a rest :
  off = len a -> len src <= len rest ->
  shoare (write off src) (a ++ rest)
    (fun _ sg' => sg' = (a ++ src) ++ drop (length src) rest).
Proof.
  intros -> Hl [w sg0 k wr] Hi Hs. cbn in Hi, Hs. subst sg0. cbn -[splice].
  split; [| auto].
  rewrite <- (take_drop (length src) rest) at 1.
  rewrite splice_exact, app_assoc; [reflexivity | reflexivity |].
  rewrite length_take. unfold len in Hl. lia.
Qed.

Lemma write_length (a src rest : bytes) :
  len src <= len rest -> length ((a ++ src) ++ drop (length src) rest) = length (a ++ rest).
Proof. intros H. unfold len in H. rewrite !length_app, length_drop. lia. Qed.

Lemma shoare_read off n sg : shoare (read off n) sg (fun r sg' => r = slice off n sg /\ sg' = sg).
Proof. intros s Hi Hs. cbn. rewrite Hs. auto. Qed.

Lemma shoare_loop {A} n i (body : Z -> A -> SM A) (Q : Z -> A -> bytes -> Prop) acc sg :
  Q i acc sg ->
  (forall k a sg', i <= k < i + Z.of_nat n -> Q k a sg' ->
     length sg' = length sg -> shoare (body k a) sg' (fun a' sg'' => Q (k + 1) a' sg'' /\ length sg'' = length sg)) ->
  shoare (loopM n i body acc) sg (Q (i + Z.of_nat n)).
Proof.
  revert i acc sg. induction n as [| n IH]; intros i acc sg H0 Hb.
  - apply shoare_ret. replace (i + Z.of_nat 0) with i by lia. exact H0.
  - cbn [loopM]. eapply shoare_bind; [apply Hb; [lia | exact H0 | reflexivity] |].
    intros a sg' [HQ Hl]. split; [exact Hl |].
    replace (i + Z.of_nat (S n)) with (i + 1 + Z.of_nat n) by lia.
    apply IH; [exact HQ |]. intros k a' sg'' Hk HQ' Hl'.
    rewrite Hl. apply Hb; [lia | exact HQ' | lia].
Qed.
End Smem.

Section OtsSignBuffer.
Context `{P : Platform} `{Hh : HashApi}.
Variable F : Prop.
Variable priv : lms_private_key_t.
Variable B : backends.
Hypothesis HB : ots_backends_sound F (priv_I priv) (priv_seed priv) B.
Variable lp : lms_param_t.
Variable op : lmots_param_t.
Hypothesis Hk : key_ok priv lp op.
Abbreviation I_ := (priv_I priv).
Abbreviation seed := (priv_seed priv).
Abbreviation alg := (ots_p_hash_alg op).

Definition ots_len : Z := 4 + LMS_N + ots_p_p op * LMS_N.

Lemma ots_sign_values_len q a :
  (forall i, 0 <= i < ots_p_p op -> 0 <= a i) ->
  len (ots_sign_values alg op I_ seed q a) = ots_p_p op * LMS_N.
Proof.
  intros H. pose proof (op_p_range _ _ (key_ots priv lp op Hk)).
  apply concat_len; [lia |]. intros i Hi. pose proof (key_alg _ _ _ Hk) as Ha.
  apply (chain_spec_len I_ op Ha); [apply hash_of_len, Ha | apply H; lia].
Qed.

Lemma ots_sign_values_ext q a a' :
  (forall i, 0 <= i < ots_p_p op -> a i = a' i) ->
  ots_sign_values alg op I_ seed q a = ots_sign_values alg op I_ seed q a'.
Proof. intros H. apply per_chain_ext. intros i Hi. rewrite H by exact Hi. reflexivity. Qed.

Lemma drop_drop_app {A} (n m : nat) (l : list A) : drop n (drop m l) = drop (m + n) l.
Proof. apply drop_drop. Qed.

(** The software chain loop of [lmots_sign], writing one value per digit [D i]. *)
Lemma sign_loop_ok q Q D pre2 rest2 off :
  (forall i, 0 <= i < ots_p_p op -> 0 <= D i <= max_digit op) ->
  (forall i, lms_lmots_coef Q i (ots_p_w op) = D i) ->
  off = len pre2 -> ots_p_p op * 32 <= len rest2 ->
  shoare F B (loopM (Z.to_nat (ots_p_p op)) 0 (fun i _ =>
      let a := lms_lmots_coef Q i (ots_p_w op) in
      chain_value ← on_world (derive_and_chain sign_derive_backend lmots_sign_chain_compute
                                priv alg q i a);
      write (off + i * 32) chain_value) tt) (pre2 ++ rest2)
    (fun _ sg' => sg' = (pre2 ++ ots_sign_values alg op I_ seed q D)
                        ++ drop (Z.to_nat (ots_p_p op * 32)) rest2).
Proof.
  intros HD HQ -> Hr2. pose proof (op_p_range _ _ (key_ots priv lp op Hk)) as Hpr.
  pose proof (max_digit_range _ _ (key_ots priv lp op Hk)) as Hmd.
  set (val := fun i => chain_spec alg I_ q i 0 (D i) (private_value_spec alg I_ seed q i)).
  assert (Hval : forall i, 0 <= i < ots_p_p op -> len (val i) = LMS_N).
  { intros i Hi. apply (chain_spec_len I_ op (key_alg _ _ _ Hk));
      [apply hash_of_len, (key_alg _ _ _ Hk) | apply HD, Hi]. }
  set (done := fun k => concat (map val (seqZ 0 k))).
  assert (Hdone : forall k, 0 <= k <= ots_p_p op -> len (done k) = k * 32)
    by (intros k Hkr; apply concat_len; [lia |]; intros j Hj; apply Hval; lia).
  eapply shoare_conseq.
  + apply (shoare_loop F B (Z.to_nat (ots_p_p op)) 0 _
      (fun k _ sg' => sg' = (pre2 ++ done k) ++ drop (Z.to_nat (k * 32)) rest2)).
    * unfold done. simpl. rewrite app_nil_r. reflexivity.
    * intros k _ ? Hkr -> Hlk.
      pose proof (HD k ltac:(lia)) as HDk. pose proof (Hdone k ltac:(lia)) as Hdk.
      eapply shoare_bind.
      { apply shoare_world.
        apply (derive_and_chain_ok F priv B lp op Hk);
          [exact (sound_sign_derive _ _ _ _ HB) | exact (sound_sign_chain _ _ _ _ HB)
          | unfold UINT16_MAX; lia |].
        rewrite HQ. lia. }
      intros v ? [Hv ->]. rewrite HQ in Hv.
      fold (val k) in Hv. subst v. split; [reflexivity |].
      assert (Hrk : len (drop (Z.to_nat (k * 32)) rest2) = len rest2 - k * 32)
        by (unfold len in *; rewrite length_drop; lia).
      pose proof (Hval k ltac:(lia)) as Hvk. unfold LMS_N in Hvk.
      eapply shoare_conseq; [apply shoare_write; [rewrite len_app, Hdk; lia | lia] |].
      intros _ ? ->. split; [| rewrite write_length by lia; exact Hlk].
      unfold done. rewrite (seqZ_app 0 k 1) by lia. rewrite map_app, concat_app. simpl.
      rewrite app_nil_r, !app_assoc, drop_drop. do 2 f_equal. unfold len in Hvk. lia.
  + intros [] ? ->. rewrite Z.add_0_l, Z2Nat.id by lia. reflexivity.
Qed.

(** The values of the signature, from the signing backend or from the software chains. *)
Lemma sign_values_ok q Q cs D pre2 rest2 off :
  (forall i, 0 <= i < ots_p_p op -> 0 <= D i <= max_digit op) ->
  (slot_fn (coef_backend B) = None -> forall i, lms_lmots_coef Q i (ots_p_w op) = D i) ->
  (match slot_fn (sign_backend B) with Some _ => true | None => false end = true ->
   forall i, 0 <= i < ots_p_p op -> rd cs i = D i) ->
  off = len pre2 -> ots_p_p op * 32 <= len rest2 ->
  shoare F B
    (if match slot_fn (sign_backend B) with Some _ => true | None => false end then
       outputs ← on_world (call_backend sign_backend
         (fun f ctx => f ctx I_ alg q (priv_lmots_type priv) cs) (fail LMS_ERR_INVALID));
       write off outputs
     else
       loopM (Z.to_nat (ots_p_p op)) 0 (fun i _ =>
         let a := lms_lmots_coef Q i (ots_p_w op) in
         chain_value ← on_world (derive_and_chain sign_derive_backend lmots_sign_chain_compute priv alg q i a);
         write (off + i * 32) chain_value) tt)
    (pre2 ++ rest2)
    (fun _ sg' => sg' = (pre2 ++ ots_sign_values alg op I_ seed q D) ++ drop (Z.to_nat (ots_p_p op * 32)) rest2).
Proof.
  intros HD HQ Hcs -> Hr2.
  assert (HlY : len (ots_sign_values alg op I_ seed q D) = ots_p_p op * 32)
    by (apply ots_sign_values_len; intros i Hi; apply HD, Hi).
  destruct (slot_fn (sign_backend B)) as [f |] eqn:Ef.
  - eapply shoare_bind.
    { apply shoare_world.
      apply (ok_call_backend F B sign_backend _ _ (sign_backend_sound I_ seed)
        (fun out => out = ots_sign_values alg op I_ seed q D) (sound_sign _ _ _ _ HB)).
      - intros f' c d _ Hs Hd.
        pose proof (Hs alg op q cs d (key_alg _ _ _ Hk) Hd (op_type_params _ _ (key_ots priv lp op Hk))
          (fun i Hi => eq_ind_r (fun x => 0 <= x <= _) (HD i Hi) (Hcs eq_refl i Hi))) as H.
        rewrite (op_type _ _ (key_ots priv lp op Hk)) in H.
        apply (sound_outcome_conseq _ _ _ H). intros out ->. apply ots_sign_values_ext. exact (Hcs eq_refl).
      - rewrite Ef. discriminate. }
    intros Y ? [-> ->]. split; [reflexivity |].
    eapply shoare_conseq; [apply shoare_write; lia |].
    intros _ ? ->. do 2 f_equal. unfold len in HlY. lia.
  - apply sign_loop_ok; [exact HD | | reflexivity | exact Hr2]. apply HQ.
    destruct (slot_fn (coef_backend B)) eqn:E; [| reflexivity].
    destruct (coef_needs_sign _ _ _ _ HB _ E Ef).
Qed.

Lemma lmots_sign_ok q m pre rest sptr slen :
  msg_ok F m -> sptr <> NULL -> ots_len <= slen -> ots_len <= len rest ->
  shoare F B (lmots_sign priv q m sptr (len pre) slen) (pre ++ rest)
    (fun _ sg' => exists C, randomizer_of priv B op q C /\
       sg' = pre ++ ots_signature alg op I_ (priv_lmots_type priv) seed q C (cbuf_data m)
                 ++ drop (Z.to_nat ots_len) rest).
Proof.
  intros Hm Hp Hsl Hr. pose proof (op_p_range _ _ (key_ots priv lp op Hk)) as Hpr.
  unfold ots_len, LMS_N in *. unfold lmots_sign.
  eapply shoare_bind.
  { apply shoare_world, ok_returns, returns_or_return, get_lmots_param_returns, (key_ots priv lp op Hk). }
  intros ? ? [-> ->]. split; [reflexivity |].
  eapply shoare_bind.
  { apply shoare_world, ok_returns, returns_or_return, (hash_alg_returns priv B lp op Hk). }
  intros ? ? [-> ->]. split; [reflexivity |].
  rewrite bool_decide_true by reflexivity. rewrite (op_n _ _ (key_ots priv lp op Hk)).
  eapply shoare_bind with (Q := fun _ sg' => sg' = pre ++ rest); [apply shoare_ret; reflexivity |].
  intros _ ? ->. split; [reflexivity |].
  eapply shoare_bind with (Q := fun _ sg' => sg' = pre ++ rest).
  { apply shoare_guard; [| reflexivity]. rewrite u32_small by lia.
    destruct (Z.eqb_spec sptr NULL); [contradiction |]. apply Z.ltb_ge. lia. }
  intros _ ? ->. split; [reflexivity |].
  (* type *)
  eapply shoare_bind; [apply shoare_write; [reflexivity | rewrite lms_store_u32_len; lia] |].
  intros _ ? ->. split; [apply write_length; rewrite lms_store_u32_len; lia |].
  set (t := lms_store_u32 (priv_lmots_type priv)). change (length t) with 4%nat.
  assert (Hlt : len t = 4) by reflexivity.
  (* randomizer *)
  eapply shoare_bind.
  { apply shoare_world, hoare_or_return, (randomizer_ok F priv B HB lp op Hk). }
  intros C ? [HC ->]. split; [reflexivity |].
  pose proof HC as (HCl & _ & _). unfold LMS_N in HCl.
  assert (Hr1 : len (drop 4 rest) = len rest - 4) by (unfold len in *; rewrite length_drop; lia).
  eapply shoare_bind; [apply shoare_write; [rewrite len_app; lia | lia] |].
  intros _ ? ->. split; [apply write_length; lia |].
  assert (HlC : length C = 32%nat) by (unfold len in HCl; lia).
  rewrite HlC, drop_drop. change (4 + 32)%nat with 36%nat.
  eapply shoare_bind; [apply shoare_read |]. intros ? ? [-> ->]. split; [reflexivity |].
  rewrite <- (app_assoc (pre ++ t)), slice_exact
    by (rewrite ?len_app; unfold LMS_N; lia).
  (* Q and coefficients *)
  eapply shoare_bind.
  { apply shoare_world.
    apply (coef_block_ok F I_ seed B HB I_ (key_I_len priv lp op Hk) _ op (key_ots priv lp op Hk)
             (key_alg _ _ _ Hk) (proj2 (key_ident priv lp op Hk)) q C m); [split; [exact HCl | apply HC] | exact Hm | apply registered_returns]. }
  intros [Q cs] ? [[HQ Hcs] ->]. split; [reflexivity |].
  eapply shoare_bind; [apply shoare_world, ok_returns, registered_returns |].
  intros ? ? [-> ->]. split; [reflexivity |].
  set (D := message_digits alg op I_ q C (cbuf_data m)) in *.
  assert (HD : forall i, 0 <= i < ots_p_p op -> 0 <= D i <= max_digit op)
    by (intros i Hi; apply digit_range; [apply (op_wf _ _ (key_ots priv lp op Hk)) | exact Hi]).
  pose proof (max_digit_range _ _ (key_ots priv lp op Hk)) as Hmd.
  set (rest2 := drop 36 rest).
  assert (Hr2 : len rest2 = len rest - 36) by (unfold rest2, len in *; rewrite length_drop; lia).
  rewrite app_assoc. set (pre2 := (pre ++ t) ++ C).
  assert (Hpre2 : len pre2 = len pre + 36) by (unfold pre2; rewrite !len_app; lia).
  eapply shoare_conseq.
  { apply (sign_values_ok q Q cs D); [exact HD | | exact Hcs | |]; try lia. intros Hnc i. rewrite (HQ Hnc). reflexivity. }
  intros _ ? ->. exists C. split; [exact HC |].
  unfold ots_signature, pre2, rest2. fold D t. rewrite <- !app_assoc. do 4 f_equal.
  rewrite drop_drop. f_equal. lia.
Qed.
End OtsSignBuffer.
