(* ===== verification/Tree.v ===== *)
(** The Merkle layer: src/lms_tree.c, src/lms_sign.c and src/lms_verify.c. *)

From S2P Require Import Prelude Types HashApi Params LmOts.

Section Tree.
Context `{P : Platform} `{Hh : HashApi}.

Definition lms_auth_path_backend_set backend context : C unit :=
  set_backends (fun b => b {{ auth_path_backend := slot_set backend context }}).
Definition lms_verify_authpath_backend_set backend context : C unit :=
  set_backends (fun b => b {{ verify_authpath_backend := slot_set backend context }}).

(** [1u << height] *)
Definition leaf_base (p : lms_param_t) : Z := u32 (1 .<< lms_p_height p).

Definition lms_leaf (priv : lms_private_key_t) (q : Z) : C bytes :=
  lms_param ← or_return LMS_ERR_INVALID (lms_get_lms_param (priv_lms_type priv));
  hash_alg ← or_return LMS_ERR_INVALID (lms_get_private_hash_alg priv);
  let node_num := u32 (leaf_base lms_param + q) in
  ots_pub ← or_return LMS_ERR_INVALID (lmots_public_from_private priv q);
  let prefix := priv_I priv ++ lms_store_u32 node_num ++ lms_store_u16 D_LEAF in
  lms_hash_parts prefix ots_pub [] [] hash_alg.

Definition lms_internal_node (I_ : bytes) (hash_alg : lms_hash_alg_t) (node_num : Z)
    (left right : bytes) : C bytes :=
  available ← lms_intr_backend_available;
  if available : bool then lms_intr_backend_run I_ hash_alg node_num left right
  else
    let prefix := I_ ++ lms_store_u32 node_num ++ lms_store_u16 D_INTR in
    lms_hash_parts prefix left right [] hash_alg.

(** Recursive; every call doubles [node_num], so [LMS_MAX_HEIGHT + 1] levels are
enough for a node number of at least 1. *)
Fixpoint lms_tree_node_rec (fuel : nat) (priv : lms_private_key_t) (node_num : Z) : C bytes :=
  match fuel with
  | O => fail OUT_OF_FUEL
  | S fuel' =>
      lms_param ← or_return LMS_ERR_INVALID (lms_get_lms_param (priv_lms_type priv));
      hash_alg ← or_return LMS_ERR_INVALID (lms_get_private_hash_alg priv);
      let leaf_base := leaf_base lms_param in
      if leaf_base <=? node_num then lms_leaf priv (u32 (node_num - leaf_base))
      else
        left ← or_return LMS_ERR_INVALID (lms_tree_node_rec fuel' priv (u32 (node_num * 2)));
        right ← or_return LMS_ERR_INVALID (lms_tree_node_rec fuel' priv (u32 (node_num * 2 + 1)));
        lms_internal_node (priv_I priv) hash_alg node_num left right
  end.

Definition lms_tree_node (priv : lms_private_key_t) (node_num : Z) : C bytes :=
  lms_tree_node_rec (Z.to_nat LMS_MAX_HEIGHT + 1) priv node_num.

(** ** Signing: [priv->q] and [*written] are part of the memory *)

Definition get_key : SM lms_private_key_t := fun s => (Ok (key s), s).

(** The two ways of filling [path]. *)
Definition write_auth_path (k : lms_private_key_t) (lms_param : lms_param_t) (q path : Z) : SM unit :=
  present ← on_world (registered auth_path_backend);
  if present : bool then
    out ← on_world (or_return LMS_ERR_INVALID
             (call_backend auth_path_backend (fun f c => f c k q) (fail LMS_ERR_INVALID)));
    write path out
  else
    loopM (Z.to_nat (lms_p_height lms_param)) 0 (fun i node_num =>
      let sibling := node_num ^^ 1 in
      node ← on_world (or_return LMS_ERR_INVALID (lms_tree_node k sibling));
      write (path + i * lms_p_n lms_param) node ;;
      mret (node_num / 2)) (u32 (leaf_base lms_param + q)) ;;
    mret tt.

(** The checks before the first write; the parameters and [needed]. *)
Definition sign_checks (k : lms_private_key_t) (signature_len : Z)
    : SM (lms_param_t * lmots_param_t * Z) :=
  lms_param ← on_world (or_return LMS_ERR_INVALID (lms_get_lms_param (priv_lms_type k)));
  ots_param ← on_world (or_return LMS_ERR_INVALID (lms_get_lmots_param (priv_lmots_type k)));
  needed ← on_world (lms_signature_len (priv_lms_type k) (priv_lmots_type k));
  guard_err (signature_len <? needed) LMS_ERR_BUFFER_TOO_SMALL ;;
  guard_err (leaf_base lms_param <=? priv_q k) LMS_ERR_EXHAUSTED ;;
  mret (lms_param, ots_param, needed).

(** Everything up to the path, whose offset it returns. *)
Definition sign_up_to_path (k : lms_private_key_t) (ots_param : lmots_param_t) (message : cbuf)
    (signature : ptr) (base : Z) : SM Z :=
  let q := priv_q k in
  let n := ots_p_n ots_param in
  let ots := 4 + n + ots_p_p ots_param * n in
  write base (lms_store_u32 q) ;;
  or_return LMS_ERR_INVALID (lmots_sign k q message signature (base + 4) (u32 ots)) ;;
  write (base + 4 + ots) (lms_store_u32 (priv_lms_type k)) ;;
  mret (base + 4 + ots + 4).

(** [sig + base] is the caller's [signature]. *)
Definition lms_do_sign (priv : ptr) (message : cbuf) (signature : ptr) (base signature_len : Z)
    (written : ptr) : SM unit :=
  guard_err ((priv =? NULL) || (signature =? NULL)
             || (cbuf_null message && negb (cbuf_len message =? 0))) LMS_ERR_INVALID ;;
  k ← get_key;
  '(lms_param, ots_param, needed) ← sign_checks k signature_len;
  path ← sign_up_to_path k ots_param message signature base;
  write_auth_path k lms_param (priv_q k) path ;;
  modify (fun s => s {{ key := k {{ priv_q := u32 (priv_q k + 1) }};
                        sig_written := if written =? NULL then sig_written s else Some needed }}).

(** ** Root recovery *)

Definition lms_root_from_signature (pub : option lms_public_key_t) (message signature : cbuf)
    : C bytes :=
  match pub with
  | None => fail LMS_ERR_INVALID
  | Some pub =>
      guard_err (cbuf_null signature) LMS_ERR_INVALID ;;
      lms_param ← or_return LMS_ERR_INVALID (lms_get_lms_param (pub_lms_type pub));
      ots_param ← or_return LMS_ERR_INVALID (lms_get_lmots_param (pub_lmots_type pub));
      hash_alg ← or_return LMS_ERR_INVALID (lms_get_public_hash_alg pub);
      let ots_len := u32 (4 + ots_p_n ots_param + ots_p_p ots_param * ots_p_n ots_param) in
      let expected_len := 4 + ots_len + 4 + lms_p_height lms_param * lms_p_n lms_param in
      guard_err (negb (cbuf_len signature =? expected_len)) LMS_ERR_INVALID ;;
      let sg := cbuf_data signature in
      let q := lms_load_u32 sg in
      guard_err (leaf_base lms_param <=? q) LMS_ERR_VERIFY ;;
      let ots_sig := from 4 sg in
      guard_err (negb (lms_load_u32 (from ots_len ots_sig) =? pub_lms_type pub)) LMS_ERR_VERIFY ;;
      let path := from (ots_len + 4) ots_sig in
      let node_num := u32 (leaf_base lms_param + q) in
      node ← or_return LMS_ERR_VERIFY
        (lmots_verify_leaf (pub_I pub) hash_alg q (pub_lmots_type pub) node_num message
           (Buf (slice 0 ots_len ots_sig)));
      present ← registered verify_authpath_backend;
      if present : bool then
        or_return LMS_ERR_VERIFY
          (call_backend verify_authpath_backend
             (fun f c => f c (pub_I pub) hash_alg node_num node path (lms_p_height lms_param))
             (fail LMS_ERR_INVALID))
      else
        '(_, node) ← loopM (Z.to_nat (lms_p_height lms_param)) 0 (fun i '(node_num, node) =>
          let sibling := slice (i * lms_p_n lms_param) (lms_p_n lms_param) path in
          node ← or_return LMS_ERR_INVALID
            (if (node_num .& 1) =? 0
             then lms_internal_node (pub_I pub) hash_alg (node_num / 2) node sibling
             else lms_internal_node (pub_I pub) hash_alg (node_num / 2) sibling node);
          mret (node_num / 2, node)) (node_num, node);
        mret node
  end.
End Tree.
