(* ===== verification/Lms.v ===== *)
(** The public LMS interface (src/lms.c): key initialisation and
    serialisation, signing, verification with a constant-time comparison.

    A parser or initialiser returns the structure it fills; the partial contents
    it leaves behind when it fails are not modelled (every caller drops them). *)

From S2P Require Import Prelude Types HashApi Params LmOts Tree.

Section Lms.
Context `{P : Platform} `{Hh : HashApi}.

Definition lms_private_key_init (priv : ptr) (lms_type lmots_type : Z) (I_ seed : option bytes)
    : C lms_private_key_t :=
  match I_, seed with
  | Some I_, Some seed =>
      guard_err (priv =? NULL) LMS_ERR_INVALID ;;
      _ ← get_matching_params lms_type lmots_type;
      mret (mkPriv lms_type lmots_type I_ seed 0)
  | _, _ => fail LMS_ERR_INVALID
  end.

(** Only the types are checked before the tree is built; that they match is
checked inside [lms_tree_node]. *)
Definition lms_public_key_generate (priv : option lms_private_key_t) (pub : ptr)
    : C lms_public_key_t :=
  match priv with
  | None => fail LMS_ERR_INVALID
  | Some priv =>
      guard_err (pub =? NULL) LMS_ERR_INVALID ;;
      or_return LMS_ERR_INVALID (lms_get_lms_param (priv_lms_type priv)) ;;
      or_return LMS_ERR_INVALID (lms_get_lmots_param (priv_lmots_type priv)) ;;
      root ← lms_tree_node priv 1;
      mret (mkPub (priv_lms_type priv) (priv_lmots_type priv) (priv_I priv) root)
  end.

(** The bytes written at [out]. *)
Definition lms_public_key_serialize (pub : option lms_public_key_t) (out : ptr) (out_len : Z)
    : result lms_status_t bytes :=
  match pub with
  | None => Err LMS_ERR_INVALID
  | Some pub =>
      if out =? NULL then Err LMS_ERR_INVALID
      else if out_len <? LMS_PUBLIC_KEY_LEN then Err LMS_ERR_BUFFER_TOO_SMALL
      else Ok (lms_store_u32 (pub_lms_type pub) ++ lms_store_u32 (pub_lmots_type pub)
               ++ pub_I pub ++ pub_root pub)
  end.

Definition lms_public_key_parse (pub : ptr) (in_ : cbuf) : C lms_public_key_t :=
  guard_err ((pub =? NULL) || cbuf_null in_ || negb (cbuf_len in_ =? LMS_PUBLIC_KEY_LEN))
            LMS_ERR_INVALID ;;
  let in_ := cbuf_data in_ in
  let lms_type := lms_load_u32 in_ in
  let lmots_type := lms_load_u32 (from 4 in_) in
  _ ← get_matching_params lms_type lmots_type;
  mret (mkPub lms_type lmots_type (slice 8 LMS_I_LEN in_) (slice (8 + LMS_I_LEN) LMS_N in_)).

Definition lms_private_key_serialize (priv : option lms_private_key_t) (out : ptr) (out_len : Z)
    : result lms_status_t bytes :=
  match priv with
  | None => Err LMS_ERR_INVALID
  | Some priv =>
      if out =? NULL then Err LMS_ERR_INVALID
      else if out_len <? LMS_PRIVATE_KEY_LEN then Err LMS_ERR_BUFFER_TOO_SMALL
      else Ok (lms_store_u32 (priv_lms_type priv) ++ lms_store_u32 (priv_lmots_type priv)
               ++ priv_I priv ++ priv_seed priv ++ lms_store_u32 (priv_q priv))
  end.

Definition lms_private_key_parse (priv : ptr) (in_ : cbuf) : C lms_private_key_t :=
  guard_err ((priv =? NULL) || cbuf_null in_ || negb (cbuf_len in_ =? LMS_PRIVATE_KEY_LEN))
            LMS_ERR_INVALID ;;
  let in_ := cbuf_data in_ in
  let lms_type := lms_load_u32 in_ in
  let lmots_type := lms_load_u32 (from 4 in_) in
  '(lms_param, _) ← get_matching_params lms_type lmots_type;
  let q := lms_load_u32 (from (8 + LMS_I_LEN + LMS_SEED_LEN) in_) in
  guard_err (leaf_base lms_param <? q) LMS_ERR_INVALID ;;
  mret (mkPriv lms_type lmots_type (slice 8 LMS_I_LEN in_)
          (slice (8 + LMS_I_LEN) LMS_SEED_LEN in_) q).

Definition lms_sign (priv : ptr) (message : cbuf) (signature : ptr) (base signature_len : Z)
    (written : ptr) : SM unit :=
  lms_do_sign priv message signature base signature_len written.

(** [diff |= root[i] ^ pub->root[i]] over the 32 bytes. *)
Definition root_diff (root expected : bytes) : Z :=
  for_z (Z.to_nat LMS_N) 0 (fun i diff => u8 (diff .| u8 (rd root i ^^ rd expected i))) 0.

Definition lms_verify (pub : option lms_public_key_t) (message signature : cbuf) : C unit :=
  match pub with
  | None => fail LMS_ERR_INVALID
  | Some pk =>
      guard_err (cbuf_null signature || (cbuf_null message && negb (cbuf_len message =? 0)))
                LMS_ERR_INVALID ;;
      root ← or_return LMS_ERR_VERIFY (lms_root_from_signature pub message signature);
      if root_diff root (pub_root pk) =? 0 then mret tt else fail LMS_ERR_VERIFY
  end.
End Lms.
