(* ===== verification/LmsCorrect.v ===== *)
(** The Merkle layer and the public LMS interface refine Spec.v: key generation
    computes the root, signing writes the RFC 8554 signature and advances the key
    exactly when it succeeds, verification recomputes the root. *)

From S2P Require Import Prelude Types HashApi Params Winternitz Spec LmOts LmOtsCorrect Tree Lms.

(** * Arithmetic of node numbers *)

Lemma lxor_1 n : 0 <= n -> Z.lxor n 1 = if Z.even n then n + 1 else n - 1.
Proof.
  intros Hn. destruct n as [| [p | p |] |]; try reflexivity; try lia.
Qed.

Lemma half_even n : Z.even n = true -> n = 2 * (n / 2).
Proof. intros H. apply Z.even_spec in H as [k ->]. rewrite Z.mul_comm, Z.div_mul; lia. Qed.

Lemma half_odd n : Z.even n = false -> n = 2 * (n / 2) + 1.
Proof.
  intros H. rewrite <- Z.negb_odd in H. apply negb_false_iff, Z.odd_spec in H as [k ->].
  rewrite Z.mul_comm, Z.div_add_l by lia. rewrite (Z.div_small 1 2) by lia. lia.
Qed.

Lemma land_1_even n : 0 <= n -> ((n .& 1) =? 0) = Z.even n.
Proof.
  intros Hn. change 1 with (Z.ones 1). rewrite Z.land_ones by lia. change (2 ^ 1) with 2.
  destruct (Z.even n) eqn:E.
  - apply Z.eqb_eq. rewrite (half_even n E), Z.mul_comm, Z.mod_mul; lia.
  - apply Z.eqb_neq. rewrite (half_odd n E), Z.mul_comm, Z.add_comm, Z.mod_add by lia.
    rewrite Z.mod_small; lia.
Qed.

(** [r] is a node [k] levels above the leaves of a tree of height [h]. *)
Definition at_level (h k r : Z) : Prop := 0 <= k <= h /\ 2 ^ (h - k) <= r < 2 ^ (h - k + 1).

Lemma at_level_children h k r :
  at_level h k r -> 0 < k -> at_level h (k - 1) (2 * r) /\ at_level h (k - 1) (2 * r + 1).
Proof.
  intros [Hk Hr] Hpos. unfold at_level.
  replace (h - (k - 1)) with (Z.succ (h - k)) by lia.
  replace (Z.succ (h - k) + 1) with (Z.succ (h - k + 1)) by lia.
  rewrite !Z.pow_succ_r by lia. lia.
Qed.

Lemma at_level_leaf h q : 0 <= h -> 0 <= q < 2 ^ h -> at_level h 0 (2 ^ h + q).
Proof.
  intros Hh Hq. unfold at_level. rewrite Z.sub_0_r.
  replace (2 ^ (h + 1)) with (2 * 2 ^ h) by (rewrite Z.add_1_r, Z.pow_succ_r; lia). lia.
Qed.

Lemma at_level_parent h k r : at_level h k r -> k < h -> at_level h (k + 1) (r / 2).
Proof.
  intros [Hk Hr] Hlt. unfold at_level. split; [lia |].
  replace (h - k) with (Z.succ (h - (k + 1))) in Hr by lia.
  replace (Z.succ (h - (k + 1)) + 1) with (Z.succ (h - (k + 1) + 1)) in Hr by lia.
  rewrite !Z.pow_succ_r in Hr by lia.
  split; [apply Z.div_le_lower_bound; lia | apply Z.div_lt_upper_bound; lia].
Qed.

Lemma at_level_sibling h k r : at_level h k r -> k < h -> at_level h k (Z.lxor r 1).
Proof.
  intros [Hk Hr] Hlt. split; [exact Hk |].
  replace (h - k) with (Z.succ (h - k - 1)) in * by lia.
  replace (Z.succ (h - k - 1) + 1) with (Z.succ (Z.succ (h - k - 1))) in * by lia.
  rewrite !Z.pow_succ_r in * by lia.
  pose proof (Z.pow_pos_nonneg 2 (h - k - 1) ltac:(lia) ltac:(lia)).
  rewrite lxor_1 by lia. destruct (Z.even r) eqn:E.
  - pose proof (half_even r E). lia.
  - pose proof (half_odd r E). lia.
Qed.

Lemma at_level_range h k r : h <= 25 -> at_level h k r -> 1 <= r < 2 ^ 26.
Proof.
  intros Hh [Hk Hr]. pose proof (Z.pow_pos_nonneg 2 (h - k) ltac:(lia) ltac:(lia)).
  pose proof (Z.pow_le_mono_r 2 (h - k + 1) 26 ltac:(lia) ltac:(lia)). lia.
Qed.

(** Ancestors of leaf [q]. *)
Lemma at_level_ancestor h q i :
  0 <= h -> 0 <= q < 2 ^ h -> 0 <= i <= h -> at_level h i ((2 ^ h + q) / 2 ^ i).
Proof.
  intros Hh Hq Hi. replace i with (Z.of_nat (Z.to_nat i)) by lia.
  assert (Hn : (Z.to_nat i <= Z.to_nat h)%nat) by lia. clear Hi.
  induction (Z.to_nat i) as [| n IH].
  - rewrite Z.pow_0_r, Z.div_1_r. apply at_level_leaf; assumption.
  - replace (Z.of_nat (S n)) with (Z.of_nat n + 1) by lia.
    rewrite Z.pow_add_r, <- Z.div_div by lia. apply at_level_parent; [apply IH; lia | lia].
Qed.

Lemma lms_height_range lp : wf_lms_param lp -> 5 <= lms_p_height lp <= 25.
Proof. intros [H _]. lia. Qed.

Lemma leaf_base_eq lp : wf_lms_param lp -> leaf_base lp = 2 ^ lms_p_height lp.
Proof.
  intros [H _]. unfold leaf_base. destruct H as [-> | [-> | [-> | [-> | ->]]]]; reflexivity.
Qed.

(** * The tree *)

Section TreeOk.
Context `{P : Platform} `{Hh : HashApi}.
Variable F : Prop.
Variable B : backends.

Section Nodes.
Variable I0 seed0 : bytes.
Hypothesis HB : backends_sound F I0 seed0 B.

Lemma internal_node_ok I_ alg r left right :
  ident I_ -> available alg -> chain_value left -> chain_value right ->
  hoare (inv B) F (lms_internal_node I_ alg r left right)
    (fun out => out = intr_spec alg I_ r left right).
Proof.
  intros HIi Ha Hlv Hrv. destruct HIi as [HI HIb], Hlv as [Hl Hlb], Hrv as [Hr Hrb]. unfold lms_internal_node.
  eapply hoare_bind; [apply ok_returns, (registered_returns B intr_backend) |]. intros b ->.
  destruct (slot_fn (intr_backend B)) as [f |] eqn:Ef.
  - apply (ok_call_backend F B intr_backend _ _ intr_backend_sound _ (sound_intr _ _ _ _ HB)).
    + intros f' c d _ Hs Hd. exact (Hs I_ alg r left right d Ha Hd (conj HI HIb) (conj Hl Hlb) (conj Hr Hrb)).
    + rewrite Ef. discriminate.
  - eapply hoare_conseq with (P := fun out => out
      = hash_of alg ((I_ ++ lms_store_u32 r ++ lms_store_u16 D_INTR) ++ left ++ right ++ [])).
    + apply ok_returns, hash_parts_returns; [exact Ha |].
      rewrite !len_app, HI, Hl, Hr, len_nil. change (len (lms_store_u32 r)) with 4.
      change (len (lms_store_u16 D_INTR)) with 2.
      unfold stack_buf_len, LMS_I_LEN, LMS_N, LMS_MAX_OTS_P. lia.
    + intros out ->. unfold intr_spec, id_q. rewrite app_nil_r, <- !app_assoc. reflexivity.
Qed.
End Nodes.

Variable priv : lms_private_key_t.
Hypothesis HB : backends_sound F (priv_I priv) (priv_seed priv) B.
Variable lp : lms_param_t.
Variable op : lmots_param_t.
Hypothesis Hk : key_ok priv lp op.
Abbreviation I_ := (priv_I priv).
Abbreviation seed := (priv_seed priv).
Abbreviation alg := (ots_p_hash_alg op).
Abbreviation h := (lms_p_height lp).
Abbreviation T := (tree_spec alg op h I_ seed).
Abbreviation ok := (hoare (inv B) F).

Lemma key_lms_wf : wf_lms_param lp.
Proof. apply (matching_params_wf _ _ _ _ (key_params _ _ _ Hk)). Qed.

Lemma key_height : 5 <= h <= 25.
Proof. apply lms_height_range, key_lms_wf. Qed.

Lemma key_available : available alg.
Proof. exact (key_alg _ _ _ Hk). Qed.

Lemma tree_spec_len k r : len (T k r) = LMS_N.
Proof. destruct k; apply hash_of_len, key_available. Qed.

Lemma tree_spec_value k r : chain_value (T k r).
Proof. split; [apply tree_spec_len | destruct k; apply hash_of_bytes, key_available]. Qed.

Lemma leaf_ok q :
  0 <= q < 2 ^ h -> ok (lms_leaf priv q) (fun out => out = T 0 (2 ^ h + q)).
Proof.
  intros Hq. unfold lms_leaf. pose proof key_height as Hh0.
  assert (H26 : 2 ^ h <= 2 ^ 25) by (apply Z.pow_le_mono_r; lia).
  eapply hoare_bind; [apply ok_returns, returns_or_return, get_lms_param_returns, (key_lms priv lp op Hk) |].
  intros ? ->.
  eapply hoare_bind; [apply ok_returns, returns_or_return, (hash_alg_returns priv B lp op Hk) |].
  intros ? ->. rewrite leaf_base_eq by apply key_lms_wf. rewrite u32_small by lia.
  eapply hoare_bind; [apply hoare_or_return, (public_from_private_ok F priv B HB lp op Hk) |].
  intros pub ->. cbn [tree_spec]. replace (2 ^ h + q - 2 ^ h) with q by lia.
  apply ok_returns, leaf_hash_ok;
    [exact (key_I_len priv lp op Hk) | exact key_available | apply hash_of_len, key_available].
Qed.

Lemma tree_node_rec_ok fuel : forall k r,
  at_level h (Z.of_nat k) r -> (k < fuel)%nat ->
  ok (lms_tree_node_rec fuel priv r) (fun out => out = T k r).
Proof.
  induction fuel as [| fuel IH]; intros k r Hl Hf; [lia |].
  pose proof key_height as Hh0. pose proof (at_level_range h (Z.of_nat k) r ltac:(lia) Hl) as Hr.
  cbn [lms_tree_node_rec].
  eapply hoare_bind; [apply ok_returns, returns_or_return, get_lms_param_returns, (key_lms priv lp op Hk) |].
  intros ? ->.
  eapply hoare_bind; [apply ok_returns, returns_or_return, (hash_alg_returns priv B lp op Hk) |].
  intros ? ->. rewrite leaf_base_eq by apply key_lms_wf.
  destruct k as [| k].
  - destruct Hl as [_ Hl]. cbn [Z.of_nat] in Hl. rewrite Z.sub_0_r in Hl.
    replace (2 ^ (h + 1)) with (2 * 2 ^ h) in Hl by (rewrite Z.add_1_r, Z.pow_succ_r; lia).
    destruct (Z.leb_spec (2 ^ h) r); [| lia].
    assert (H26 : 2 ^ h <= 2 ^ 25) by (apply Z.pow_le_mono_r; lia).
    rewrite u32_small by lia.
    eapply hoare_conseq; [apply leaf_ok; lia |]. intros out ->. f_equal. lia.
  - assert (Hlt : r < 2 ^ h).
    { destruct Hl as [Hk1 Hl]. pose proof (Z.pow_le_mono_r 2 (h - Z.of_nat (S k) + 1) h). lia. }
    destruct (Z.leb_spec (2 ^ h) r); [lia |].
    destruct (at_level_children h _ r Hl ltac:(lia)) as [HL HR].
    replace (Z.of_nat (S k) - 1) with (Z.of_nat k) in HL, HR by lia.
    rewrite !u32_small by lia. rewrite (Z.mul_comm r 2).
    eapply hoare_bind; [apply hoare_or_return, (IH k); [exact HL | lia] |]. intros left ->.
    eapply hoare_bind; [apply hoare_or_return, (IH k); [exact HR | lia] |]. intros right ->.
    apply (internal_node_ok _ _ HB);
      [exact (key_ident priv lp op Hk) | exact key_available | apply tree_spec_value | apply tree_spec_value].
Qed.

Lemma tree_node_ok k r :
  at_level h (Z.of_nat k) r -> ok (lms_tree_node priv r) (fun out => out = T k r).
Proof.
  intros Hl. apply tree_node_rec_ok; [exact Hl |].
  destruct Hl as [Hk0 _]. pose proof key_height. unfold LMS_MAX_HEIGHT. lia.
Qed.

Lemma root_at_level : at_level h h 1.
Proof. pose proof key_height. unfold at_level. rewrite Z.sub_diag. cbn. lia. Qed.

Lemma public_key_generate_ok pub :
  pub <> NULL ->
  ok (lms_public_key_generate (Some priv) pub)
     (fun pk => pk = mkPub (priv_lms_type priv) (priv_lmots_type priv) I_ (root_spec alg op h I_ seed)).
Proof.
  intros Hp. unfold lms_public_key_generate. pose proof key_height.
  eapply hoare_bind with (P := fun _ => True).
  { apply hoare_guard; [| exact I]. destruct (Z.eqb_spec pub NULL); [contradiction | discriminate]. }
  intros _ _.
  eapply hoare_bind; [apply ok_returns, returns_or_return, get_lms_param_returns, (key_lms priv lp op Hk) |].
  intros _ _.
  eapply hoare_bind; [apply ok_returns, returns_or_return, get_lmots_param_returns, (key_ots priv lp op Hk) |].
  intros _ _.
  eapply hoare_bind.
  { apply (tree_node_ok (Z.to_nat h)). rewrite Z2Nat.id by lia. exact root_at_level. }
  intros root ->. apply hoare_ret. reflexivity.
Qed.
End TreeOk.

(** * Signing *)

Section SignTriples.
Context `{P : Platform} `{Hh : HashApi}.
Variable F : Prop.
Variable B : backends.

Definition kw (s : smem) : lms_private_key_t * option Z := (key s, sig_written s).

(** From buffer [sg], key and [*written] [k0], [m] ends with a buffer of [Q] and
    [k1], or fails (only under [F]) with [k0] and a buffer of the same size. *)
Definition striple {A} (k0 k1 : lms_private_key_t * option Z) (m : SM A) (sg : bytes)
    (Q : A -> bytes -> Prop) : Prop :=
  forall s, inv B (wld s) -> sig s = sg -> kw s = k0 ->
    match m s with
    | (Ok a, s') => Q a (sig s') /\ inv B (wld s') /\ kw s' = k1
    | (Err _, s') => F /\ inv B (wld s') /\ kw s' = k0 /\ length (sig s') = length sg
    end.

Lemma striple_of_shoare {A} k0 (m : SM A) sg Q :
  shoare F B m sg Q -> striple k0 k0 m sg Q.
Proof.
  intros Hm s Hi Hs Hk. specialize (Hm s Hi Hs). unfold kw in *. subst k0.
  destruct (m s) as [[a | e] s'].
  - destruct Hm as (H1 & H2 & -> & ->). auto.
  - destruct Hm as (H1 & H2 & -> & -> & H3). auto.
Qed.

Lemma striple_bind {A A'} k0 k1 (m : SM A) (f : A -> SM A') sg Q R :
  striple k0 k0 m sg Q ->
  (forall a sg', Q a sg' -> length sg' = length sg /\ striple k0 k1 (f a) sg' R) ->
  striple k0 k1 (m ≫= f) sg R.
Proof.
  intros Hm Hf s Hi Hs Hk. unfold mbind, M_bind. specialize (Hm s Hi Hs Hk).
  destruct (m s) as [[a | e] s1]; [| exact Hm].
  destruct Hm as (HQ & Hi1 & Hk1). destruct (Hf a (sig s1) HQ) as [Hl Hfa].
  specialize (Hfa s1 Hi1 eq_refl Hk1).
  destruct (f a s1) as [[a' | e] s2]; [exact Hfa | rewrite <- Hl; exact Hfa].
Qed.

Lemma striple_conseq {A} k0 k1 (m : SM A) sg (Q R : A -> bytes -> Prop) :
  striple k0 k1 m sg Q -> (forall a sg', Q a sg' -> R a sg') -> striple k0 k1 m sg R.
Proof.
  intros Hm HQR s Hi Hs Hk. specialize (Hm s Hi Hs Hk).
  destruct (m s) as [[a | e] s1]; [| exact Hm]. destruct Hm as (HQ & H). split; auto.
Qed.

Lemma striple_get_key k w sg :
  striple (k, w) (k, w) get_key sg (fun a sg' => a = k /\ sg' = sg).
Proof. intros s Hi Hs Hk. cbn. injection Hk as <- <-. rewrite Hs. auto. Qed.

Lemma shoare_or_return {A} e (m : SM A) sg Q : shoare F B m sg Q -> shoare F B (or_return e m) sg Q.
Proof.
  intros Hm s Hi Hs. specialize (Hm s Hi Hs). unfold or_return.
  destruct (m s) as [[a | e'] s']; exact Hm.
Qed.

(** The last step, which advances the key. *)
Lemma striple_commit k w k' (f : option Z -> option Z) sg :
  striple (k, w) (k', f w) (modify (fun s => s {{ key := k'; sig_written := f (sig_written s) }})) sg
    (fun _ sg' => sg' = sg).
Proof. intros [wd sg0 k0 w0] Hi Hs Hk. cbn in *. injection Hk as <- <-. auto. Qed.
End SignTriples.

Section SignOk.
Context `{P : Platform} `{Hh : HashApi}.
Variable F : Prop.
Variable priv : lms_private_key_t.
Variable B : backends.
Hypothesis HB : backends_sound F (priv_I priv) (priv_seed priv) B.
Variable lp : lms_param_t.
Variable op : lmots_param_t.
Hypothesis Hk : key_ok priv lp op.
Abbreviation I_ := (priv_I priv).
Abbreviation seed := (priv_seed priv).
Abbreviation alg := (ots_p_hash_alg op).
Abbreviation h := (lms_p_height lp).

(** Number of bytes of a signature. *)
Definition sig_len : Z := 12 + LMS_N * (1 + ots_p_p op + h).

Lemma sig_len_spec : signature_len_spec (priv_lms_type priv) (priv_lmots_type priv) = sig_len.
Proof. unfold signature_len_spec. rewrite (key_params _ _ _ Hk). reflexivity. Qed.

Lemma sibling_level q i : 0 <= q < 2 ^ h -> 0 <= i < h -> at_level h i (sibling_num h q i).
Proof.
  intros Hq Hi. apply at_level_sibling; [apply at_level_ancestor; lia | lia].
Qed.

Lemma auth_path_len q : len (auth_path_spec alg op h I_ seed q) = h * LMS_N.
Proof.
  pose proof (key_height priv lp op Hk). apply concat_len; [lia |].
  intros j Hj. apply (tree_spec_len priv lp op Hk).
Qed.

Lemma ots_signature_len q C msg :
  len C = LMS_N ->
  len (ots_signature alg op I_ (priv_lmots_type priv) seed q C msg) = 36 + ots_p_p op * 32.
Proof.
  intros HC. unfold ots_signature. rewrite !len_app, HC, (ots_sign_values_len priv lp op Hk).
  - change (len (lms_store_u32 _)) with 4. unfold LMS_N. lia.
  - intros i Hi. apply digit_range; [apply (op_wf _ _ (key_ots priv lp op Hk)) | exact Hi].
Qed.

(** The software path: one [lms_tree_node] per level. *)
Lemma path_loop_ok q pre rest off :
  0 <= q < 2 ^ h -> off = len pre -> h * LMS_N <= len rest ->
  shoare F B (loopM (Z.to_nat h) 0 (fun i node_num =>
      let sibling := node_num ^^ 1 in
      node ← on_world (or_return LMS_ERR_INVALID (lms_tree_node priv sibling));
      write (off + i * LMS_N) node ;;
      mret (node_num / 2)) (2 ^ h + q)) (pre ++ rest)
    (fun _ sg' => sg' = (pre ++ auth_path_spec alg op h I_ seed q) ++ drop (Z.to_nat (h * LMS_N)) rest).
Proof.
  intros Hq -> Hr. pose proof (key_height priv lp op Hk) as Hh0. unfold LMS_N in *.
  set (val := fun i => tree_spec alg op h I_ seed (Z.to_nat i) (sibling_num h q i)).
  assert (Hval : forall i, len (val i) = 32) by (intros i; apply (tree_spec_len priv lp op Hk)).
  set (done := fun k => concat (map val (seqZ 0 k))).
  assert (Hdone : forall k, 0 <= k -> len (done k) = k * 32)
    by (intros k Hk0; apply concat_len; [exact Hk0 | intros; apply Hval]).
  eapply shoare_conseq.
  - apply (shoare_loop F B (Z.to_nat h) 0 _
      (fun k nn sg' => nn = (2 ^ h + q) / 2 ^ k /\
         sg' = (pre ++ done k) ++ drop (Z.to_nat (k * 32)) rest)).
    + split; [rewrite Z.pow_0_r, Z.div_1_r; reflexivity |].
      unfold done. simpl. rewrite app_nil_r. reflexivity.
    + intros k nn ? Hkr [-> ->] Hlk. pose proof (Hdone k ltac:(lia)) as Hdk.
      eapply shoare_bind.
      { apply shoare_world, hoare_or_return, (tree_node_ok F B priv HB lp op Hk (Z.to_nat k)).
        rewrite Z2Nat.id by lia. apply sibling_level; lia. }
      intros v ? [Hv ->]. fold (sibling_num h q k) in Hv. fold (val k) in Hv. subst v.
      split; [reflexivity |].
      assert (Hrk : len (drop (Z.to_nat (k * 32)) rest) = len rest - k * 32)
        by (unfold len in *; rewrite length_drop; lia).
      pose proof (Hval k) as Hvk.
      eapply shoare_bind; [apply shoare_write; [rewrite len_app, Hdk; lia | lia] |].
      intros _ ? ->. split; [apply write_length; lia |].
      apply shoare_ret. split; [split | rewrite write_length by lia; exact Hlk].
      * rewrite Z.pow_add_r, Z.pow_1_r, <- Z.div_div by lia. reflexivity.
      * unfold done. rewrite (seqZ_app 0 k 1) by lia. rewrite map_app, concat_app. simpl.
        rewrite app_nil_r, !app_assoc, drop_drop. do 2 f_equal. unfold len in Hvk. lia.
  - intros nn ? [_ ->]. rewrite Z.add_0_l, Z2Nat.id by lia. reflexivity.
Qed.

(** Either way of producing the path. *)
Lemma path_ok q pre rest off :
  0 <= q < 2 ^ h -> off = len pre -> h * LMS_N <= len rest ->
  shoare F B (write_auth_path priv lp q off) (pre ++ rest)
    (fun _ sg' => sg' = (pre ++ auth_path_spec alg op h I_ seed q) ++ drop (Z.to_nat (h * LMS_N)) rest).
Proof.
  intros Hq Ho Hr. pose proof (key_height priv lp op Hk) as Hh0.
  assert (H25 : 2 ^ h <= 2 ^ 25) by (apply Z.pow_le_mono_r; lia).
  unfold write_auth_path. rewrite (wf_lms_n lp (key_lms_wf priv lp op Hk)).
  rewrite leaf_base_eq by apply (key_lms_wf priv lp op Hk).
  rewrite u32_small by lia.
  eapply shoare_bind; [apply shoare_world, ok_returns, registered_returns |].
  intros b ? [-> ->]. split; [reflexivity |].
  destruct (slot_fn (auth_path_backend B)) as [f |] eqn:Ef.
  - eapply shoare_bind.
    { apply shoare_world, hoare_or_return,
        (ok_call_backend F B auth_path_backend _ _ (auth_path_backend_sound I_ seed)
           (fun out => out = auth_path_spec alg op h I_ seed q) (sound_auth_path _ _ _ _ HB)).
      - intros f' c d _ Hs Hd. rewrite <- (key_same_alg priv lp op Hk).
        apply (Hs priv q lp op d (key_params _ _ _ Hk) eq_refl eq_refl); [| exact Hd].
        rewrite (key_same_alg priv lp op Hk). exact (key_alg _ _ _ Hk).
      - rewrite Ef. discriminate. }
    intros out ? [-> ->]. split; [reflexivity |].
    pose proof (auth_path_len q) as Hpl.
    eapply shoare_conseq; [apply shoare_write; [exact Ho | lia] |].
    intros _ ? ->. do 2 f_equal. unfold len in Hpl. lia.
  - eapply shoare_bind; [apply path_loop_ok; assumption |].
    intros nn ? ->. split; [| apply shoare_ret; reflexivity].
    pose proof (auth_path_len q) as Hpl.
    replace (Z.to_nat (h * LMS_N)) with (length (auth_path_spec alg op h I_ seed q))
      by (unfold len in Hpl; lia).
    apply write_length. lia.
Qed.

Lemma key_index_small : priv_q priv < 2 ^ h -> 0 <= priv_q priv < 2 ^ h /\ 2 ^ h <= 2 ^ 25.
Proof.
  pose proof (key_height priv lp op Hk). pose proof (wf_priv_q _ (key_wf _ _ _ Hk)) as Hq0.
  unfold is_u32 in Hq0. split; [lia | apply Z.pow_le_mono_r; lia].
Qed.

Lemma sign_checks_ok F' slen sg :
  sig_len <= slen -> priv_q priv < 2 ^ h ->
  shoare F' B (sign_checks priv slen) sg (fun r sg' => r = (lp, op, sig_len) /\ sg' = sg).
Proof.
  intros Hsl Hq. unfold sign_checks.
  eapply shoare_bind.
  { apply shoare_world, ok_returns, returns_or_return, get_lms_param_returns, (key_lms priv lp op Hk). }
  intros ? ? [-> ->]. split; [reflexivity |]. eapply shoare_bind.
  { apply shoare_world, ok_returns, returns_or_return, get_lmots_param_returns, (key_ots priv lp op Hk). }
  intros ? ? [-> ->]. split; [reflexivity |].
  eapply shoare_bind; [apply shoare_world, ok_returns, signature_len_returns |].
  intros ? ? [-> ->]. split; [reflexivity |]. rewrite sig_len_spec.
  rewrite leaf_base_eq by apply (key_lms_wf priv lp op Hk).
  eapply shoare_bind with (Q := fun _ sg' => sg' = sg);
    [apply shoare_guard; [apply Z.ltb_ge, Hsl | reflexivity] |].
  intros _ ? ->. split; [reflexivity |].
  eapply shoare_bind with (Q := fun _ sg' => sg' = sg);
    [apply shoare_guard; [apply Z.leb_gt, Hq | reflexivity] |].
  intros _ ? ->. split; [reflexivity |]. apply shoare_ret. auto.
Qed.

(** The first part of a signature. *)
Definition sig_head (C msg : bytes) : bytes :=
  lms_store_u32 (priv_q priv)
  ++ ots_signature alg op I_ (priv_lmots_type priv) seed (priv_q priv) C msg
  ++ lms_store_u32 (priv_lms_type priv).

Lemma sig_head_len C msg : len C = LMS_N -> len (sig_head C msg) = 44 + ots_p_p op * 32.
Proof.
  intros HC. unfold sig_head. rewrite !len_app, ots_signature_len by exact HC.
  change (len (lms_store_u32 _)) with 4. lia.
Qed.

Lemma sign_up_to_path_ok F' m pre rest sptr :
  ots_backends_sound F' I_ seed B -> msg_ok F' m -> sptr <> NULL -> sig_len <= len rest ->
  shoare F' B (sign_up_to_path priv op m sptr (len pre)) (pre ++ rest)
    (fun path sg' => exists C, randomizer_of priv B op (priv_q priv) C /\
       path = len (pre ++ sig_head C (cbuf_data m)) /\
       sg' = (pre ++ sig_head C (cbuf_data m)) ++ drop (Z.to_nat (44 + ots_p_p op * 32)) rest).
Proof.
  intros HB' Hm Hsp Hr. pose proof (key_height priv lp op Hk) as Hh0.
  pose proof (op_p_range _ _ (key_ots priv lp op Hk)) as Hpr.
  unfold sig_len, LMS_N in Hr. unfold sign_up_to_path. rewrite (op_n _ _ (key_ots priv lp op Hk)).
  set (q := priv_q priv).
  eapply shoare_bind; [apply shoare_write; [reflexivity | rewrite lms_store_u32_len; lia] |].
  intros _ ? ->. split; [apply write_length; rewrite lms_store_u32_len; lia |].
  change (length (lms_store_u32 q)) with 4%nat.
  assert (Hr1 : len (drop 4 rest) = len rest - 4) by (unfold len in *; rewrite length_drop; lia).
  replace (len pre + 4) with (len (pre ++ lms_store_u32 q)) by (rewrite len_app; reflexivity).
  rewrite u32_small by lia.
  eapply shoare_bind.
  { apply shoare_or_return, (lmots_sign_ok F' priv B HB' lp op Hk q m _ (drop 4 rest));
      [exact Hm | exact Hsp | |]; unfold ots_len, LMS_N; lia. }
  unfold ots_len, LMS_N. intros _ ? (C & HC & ->).
  set (S1 := ots_signature _ _ _ _ _ _ _ _).
  assert (HS1 : len S1 = 36 + ots_p_p op * 32) by (apply ots_signature_len, HC).
  set (rest2 := drop (Z.to_nat (4 + 32 + ots_p_p op * 32)) (drop 4 rest)).
  assert (Hr2 : len rest2 = len rest - 40 - ots_p_p op * 32)
    by (unfold rest2, len in *; rewrite length_drop; lia).
  split; [unfold len in *; rewrite !length_app; lia |]. rewrite (app_assoc _ S1).
  eapply shoare_bind; [apply shoare_write; [rewrite (len_app _ S1); lia | rewrite lms_store_u32_len; lia] |].
  intros _ ? ->. split; [apply write_length; rewrite lms_store_u32_len; lia |].
  apply shoare_ret. exists C. split; [exact HC |]. unfold sig_head. fold q S1. split.
  - rewrite !len_app. change (len (lms_store_u32 _)) with 4. lia.
  - rewrite <- !app_assoc. do 4 f_equal. change (length (lms_store_u32 _)) with 4%nat.
    unfold rest2. rewrite !drop_drop. f_equal. lia.
Qed.

(** Signing succeeds with the reference signature and the next index, or fails
    under [F] with the key unchanged. *)
Lemma lms_do_sign_ok m pre rest pptr sptr wptr slen w0 :
  msg_ok F m -> pptr <> NULL -> sptr <> NULL -> sig_len <= slen -> sig_len <= len rest ->
  priv_q priv < 2 ^ h ->
  striple F B (priv, w0)
    (priv {{ priv_q := priv_q priv + 1 }}, if wptr =? NULL then w0 else Some sig_len)
    (lms_do_sign pptr m sptr (len pre) slen wptr) (pre ++ rest)
    (fun _ sg' => exists C, randomizer_of priv B op (priv_q priv) C /\
       sg' = pre ++ lms_signature alg op h I_ (priv_lms_type priv) (priv_lmots_type priv) seed
                      (priv_q priv) C (cbuf_data m) ++ drop (Z.to_nat sig_len) rest).
Proof.
  intros Hm Hp Hsp Hsl Hr Hq. destruct (key_index_small Hq) as [Hq0 H25].
  pose proof (key_height priv lp op Hk) as Hh0.
  pose proof (op_p_range _ _ (key_ots priv lp op Hk)) as Hpr. unfold lms_do_sign.
  eapply striple_bind with (Q := fun _ sg' => sg' = pre ++ rest).
  { apply striple_of_shoare, shoare_guard; [| reflexivity].
    rewrite (msg_readable _ _ Hm), orb_false_r. apply orb_false_iff; split; apply Z.eqb_neq; assumption. }
  intros _ ? ->. split; [reflexivity |].
  eapply striple_bind; [apply striple_get_key |]. intros ? ? [-> ->]. split; [reflexivity |].
  eapply striple_bind; [apply striple_of_shoare, sign_checks_ok; assumption |].
  intros ? ? [-> ->]. split; [reflexivity |].
  eapply striple_bind.
  { apply striple_of_shoare, (sign_up_to_path_ok F); [exact HB | exact Hm | exact Hsp | exact Hr]. }
  intros path ? (C & HC & -> & ->). pose proof (sig_head_len C (cbuf_data m) (proj1 HC)) as Hhl.
  set (head := sig_head C (cbuf_data m)) in *. set (rest2 := drop _ rest).
  unfold sig_len, LMS_N in Hr.
  assert (Hr2 : len rest2 = len rest - 44 - ots_p_p op * 32)
    by (unfold rest2, len in *; rewrite length_drop; lia).
  split; [unfold len in *; rewrite !length_app; lia |].
  eapply striple_bind.
  { apply striple_of_shoare, path_ok; [lia | reflexivity | unfold LMS_N; lia]. }
  intros _ ? ->. pose proof (auth_path_len (priv_q priv)) as Hpl. split.
  { unfold len, LMS_N in *. rewrite !length_app, !length_drop in *. lia. }
  rewrite u32_small by lia.
  eapply striple_conseq;
    [apply (striple_commit F B priv w0 (priv {{ priv_q := priv_q priv + 1 }})
       (fun x => if wptr =? NULL then x else Some sig_len)) |].
  intros _ ? ->. exists C. split; [exact HC |].
  unfold head, sig_head, lms_signature. rewrite <- !app_assoc. do 5 f_equal.
  unfold rest2. rewrite !drop_drop. f_equal. unfold sig_len, LMS_N. lia.
Qed.
End SignOk.
