(* ===== verification/VerifyCorrect.v ===== *)
(** Root recovery and [lms_verify] (src/lms_verify.c, src/lms.c) decide RFC 8554
    verification: with sound backends they accept only what the reference accepts,
    and without backends they accept exactly that. *)

From S2P Require Import Prelude Types HashApi Params Winternitz Spec LmOts LmOtsCorrect Tree Lms LmsCorrect.

(** * The constant-time comparison *)

Lemma u8_lxor_byte a b : is_byte a -> is_byte b -> u8 (a ^^ b) = a ^^ b.
Proof.
  intros Ha Hb. rewrite <- (u8_small a Ha), <- (u8_small b Hb). unfold u8.
  apply Z.bits_inj'. intros i Hi. rewrite !Z.land_spec, !Z.lxor_spec, !Z.land_spec.
  destruct (Z.testbit a i), (Z.testbit b i), (Z.testbit 255 i); reflexivity.
Qed.

Lemma u8_lor_byte a b : is_byte a -> is_byte b -> u8 (a .| b) = a .| b.
Proof.
  intros Ha Hb. rewrite <- (u8_small a Ha), <- (u8_small b Hb). unfold u8.
  apply Z.bits_inj'. intros i Hi. rewrite !Z.land_spec, !Z.lor_spec, !Z.land_spec.
  destruct (Z.testbit a i), (Z.testbit b i), (Z.testbit 255 i); reflexivity.
Qed.

Lemma diff_loop_zero root expected n i d :
  Forall is_byte root -> Forall is_byte expected -> is_byte d ->
  for_z n i (fun i diff => u8 (diff .| u8 (rd root i ^^ rd expected i))) d = 0 <->
  d = 0 /\ forall j, i <= j < i + Z.of_nat n -> rd root j = rd expected j.
Proof.
  intros Hr He. revert i d. induction n as [| n IH]; intros i d Hd; cbn [for_z].
  - split; [intros ->; split; [reflexivity | lia] | intros [-> _]; reflexivity].
  - rewrite IH by apply u8_byte.
    rewrite u8_lor_byte by (exact Hd || apply u8_byte).
    rewrite u8_lxor_byte by (apply rd_byte; assumption).
    rewrite Z.lor_eq_0_iff, Z.lxor_eq_0_iff. split.
    + intros [[-> Hi] Hj]. split; [reflexivity |]. intros j Hjr.
      destruct (Z.eq_dec j i) as [-> |]; [exact Hi | apply Hj; lia].
    + intros [-> Hj]. split; [split; [reflexivity | apply Hj; lia] | intros j Hjr; apply Hj; lia].
Qed.

Lemma root_diff_zero root expected :
  Forall is_byte root -> Forall is_byte expected -> len root = LMS_N -> len expected = LMS_N ->
  root_diff root expected = 0 <-> root = expected.
Proof.
  intros Hr He Hlr Hle. unfold root_diff, LMS_N in *.
  rewrite diff_loop_zero by (assumption || (unfold is_byte; lia)). split; [| intros ->; auto].
  intros [_ Hj]. apply (nth_ext _ _ 0 0); [unfold len in *; lia |].
  intros k Hk. specialize (Hj (Z.of_nat k)). unfold rd in Hj. rewrite !Nat2Z.id in Hj.
  apply Hj. unfold len in *. lia.
Qed.

(** * Climbing *)

Section ClimbSpec.
Context `{Hh : HashApi}.

Lemma climb_path_snoc alg I_ n num node path :
  0 <= num ->
  climb_path alg I_ (S n) num node path
  = climb alg I_ (num / 2 ^ Z.of_nat n) (climb_path alg I_ n num node path)
      (slice (Z.of_nat n * LMS_N) LMS_N path).
Proof.
  revert num node path. induction n as [| n IH]; intros num node path Hn.
  - cbn [climb_path]. rewrite Z.div_1_r. reflexivity.
  - change (climb_path alg I_ (S (S n)) num node path) with
      (climb_path alg I_ (S n) (num / 2) (climb alg I_ num node (slice 0 LMS_N path)) (from LMS_N path)).
    rewrite IH by (apply Z.div_pos; lia). cbn [climb_path].
    rewrite slice_from by (unfold LMS_N; lia).
    replace (num / 2 / 2 ^ Z.of_nat n) with (num / 2 ^ Z.of_nat (S n))
      by (rewrite Z.div_div by lia; f_equal;
          replace (Z.of_nat (S n)) with (Z.succ (Z.of_nat n)) by lia; rewrite Z.pow_succ_r; lia).
    f_equal. f_equal. lia.
Qed.

Lemma climb_len alg I_ num node sib : available alg -> len (climb alg I_ num node sib) = LMS_N.
Proof. intros Ha. unfold climb. destruct (Z.even num); apply hash_of_len, Ha. Qed.

Lemma climb_path_len alg I_ n num node path :
  available alg -> len node = LMS_N -> len (climb_path alg I_ n num node path) = LMS_N.
Proof.
  intros Ha. revert num node path. induction n as [| n IH]; intros num node path Hl; [exact Hl |].
  apply IH, climb_len, Ha.
Qed.

Lemma climb_path_bytes alg I_ n num node path :
  available alg -> Forall is_byte node -> Forall is_byte (climb_path alg I_ n num node path).
Proof.
  intros Ha. revert num node path. induction n as [| n IH]; intros num node path Hl; [exact Hl |].
  apply IH. unfold climb. destruct (Z.even num); apply hash_of_bytes, Ha.
Qed.

Lemma lms_load_u32_take n b : 4 <= n -> lms_load_u32 (slice 0 n b) = lms_load_u32 b.
Proof.
  intros Hn. change (slice 0 n b) with (from 0 (slice 0 n b)). rewrite <- lms_load_u32_slice.
  rewrite slice_slice_0, lms_load_u32_slice by lia. reflexivity.
Qed.
End ClimbSpec.

(** * Verification *)

(** The public key of a verification call: [lp] and [op] are its parameters. *)
Record pub_ok `{Hh : HashApi} (pub : lms_public_key_t) (lp : lms_param_t) (op : lmots_param_t)
  : Prop := {
  pub_wf : wf_pub pub;
  pub_params : matching_params (pub_lms_type pub) (pub_lmots_type pub) = Some (lp, op);
  pub_alg : available (ots_p_hash_alg op)
}.

Section VerifyOk.
Context `{P : Platform} `{Hh : HashApi}.
Variable F : Prop.
Variable I0 seed0 : bytes.
Variable B : backends.
Hypothesis HB : backends_sound F I0 seed0 B.
Variable pub : lms_public_key_t.
Variable lp : lms_param_t.
Variable op : lmots_param_t.
Hypothesis Hp : pub_ok pub lp op.
Abbreviation I_ := (pub_I pub).
Abbreviation alg := (ots_p_hash_alg op).
Abbreviation h := (lms_p_height lp).
Abbreviation ok := (hoare (inv B) F).

Lemma pub_lms : lms_params_of (pub_lms_type pub) = Some lp.
Proof. apply (matching_params_wf _ _ _ _ (pub_params _ _ _ Hp)). Qed.

Lemma pub_ots : lmots_params_of (pub_lmots_type pub) = Some op.
Proof. apply (matching_params_wf _ _ _ _ (pub_params _ _ _ Hp)). Qed.

Lemma pub_same_alg : lms_p_hash_alg lp = alg.
Proof. apply (matching_params_wf _ _ _ _ (pub_params _ _ _ Hp)). Qed.

Lemma pub_lms_wf : wf_lms_param lp.
Proof. apply (matching_params_wf _ _ _ _ (pub_params _ _ _ Hp)). Qed.

Lemma pub_I_len : len I_ = LMS_I_LEN.
Proof. apply (pub_wf _ _ _ Hp). Qed.

Lemma pub_height : 5 <= h <= 25 /\ 0 < 2 ^ h <= 2 ^ 25.
Proof.
  pose proof (lms_height_range lp pub_lms_wf). split; [assumption |].
  split; [apply Z.pow_pos_nonneg | apply Z.pow_le_mono_r]; lia.
Qed.

Lemma pub_hash_alg_returns : returns B (lms_get_public_hash_alg pub) alg.
Proof. rewrite <- pub_same_alg. eapply public_hash_alg_returns, (pub_params _ _ _ Hp). Qed.

(** The level loop, from node [num] with [h] siblings. *)
Lemma climb_loop_ok num leaf path :
  0 <= num -> chain_value leaf -> h * LMS_N <= len path -> Forall is_byte path ->
  ok ('(_, node) ← loopM (Z.to_nat h) 0 (fun i '(node_num, node) =>
        let sibling := slice (i * LMS_N) LMS_N path in
        node ← or_return LMS_ERR_INVALID
          (if (node_num .& 1) =? 0
           then lms_internal_node I_ alg (node_num / 2) node sibling
           else lms_internal_node I_ alg (node_num / 2) sibling node);
        mret (node_num / 2, node)) (num, leaf);
      mret node)
     (fun root => root = climb_path alg I_ (Z.to_nat h) num leaf path).
Proof.
  intros Hn [Hl Hlb] Hlp Hpb. destruct pub_height as [Hh0 _]. pose proof (pub_alg _ _ _ Hp) as Ha.
  eapply hoare_bind.
  - apply (hoare_loop (inv B) F (Z.to_nat h) 0 _
      (fun k '(nn, node) => nn = num / 2 ^ k /\
         node = climb_path alg I_ (Z.to_nat k) num leaf path)).
    + split; [rewrite Z.pow_0_r, Z.div_1_r; reflexivity | reflexivity].
    + intros k [nn node] Hk [-> ->]. rewrite Z2Nat.id in Hk by lia.
      pose proof (climb_path_len alg I_ (Z.to_nat k) num leaf path Ha Hl) as Hcl.
      assert (Hsl : len (slice (k * LMS_N) LMS_N path) = LMS_N)
        by (apply len_slice; unfold LMS_N in *; nia).
      pose proof (climb_path_bytes alg I_ (Z.to_nat k) num leaf path Ha Hlb) as Hcb.
      eapply hoare_bind with (P := fun node => node = climb_path alg I_ (S (Z.to_nat k)) num leaf path).
      * apply hoare_or_return. rewrite climb_path_snoc, Z2Nat.id by lia. unfold climb.
        rewrite land_1_even by (apply Z.div_pos; lia).
        destruct (Z.even (num / 2 ^ k)); apply (internal_node_ok F B _ _ HB);
          (exact (conj pub_I_len (wf_pub_I_byte _ (pub_wf _ _ _ Hp))) || exact Ha || (split; [assumption | try exact Hcb; apply Forall_slice, Hpb])).
      * intros node ->. apply hoare_ret. split.
        -- rewrite Z.pow_add_r, Z.pow_1_r, <- Z.div_div by lia. reflexivity.
        -- do 2 f_equal. lia.
  - intros [nn node] [_ ->]. apply hoare_ret. do 2 f_equal. lia.
Qed.

Abbreviation shape_ok := (sig_shape_ok pub lp op).

Lemma shape_fields sg :
  shape_ok sg = true ->
  len sg = 12 + LMS_N * (1 + ots_p_p op + h) /\ lms_load_u32 sg < 2 ^ h /\
  lms_load_u32 (from 4 sg) = pub_lmots_type pub /\
  lms_load_u32 (from (8 + LMS_N + ots_p_p op * LMS_N) sg) = pub_lms_type pub.
Proof.
  unfold sig_shape_ok. rewrite !andb_true_iff, !Z.eqb_eq, Z.ltb_lt. tauto.
Qed.

Lemma root_from_signature_ok m sg :
  shape_ok sg = true -> Forall is_byte sg -> msg_ok F m ->
  ok (lms_root_from_signature (Some pub) m (Buf sg))
     (fun root => root = verify_root_spec alg op h I_ (lms_load_u32 sg) (cbuf_data m) sg).
Proof.
  intros Hs Hb Hm. apply shape_fields in Hs as (Hl & Hq & Ht1 & Ht2).
  pose proof (op_p_range _ _ pub_ots) as Hpr. destruct pub_height as [Hh0 H25].
  unfold lms_root_from_signature. cbn [cbuf_null cbuf_len cbuf_data].
  assert (Hq0 : is_u32 (lms_load_u32 sg))
    by (apply lms_load_u32_range; [exact Hb | rewrite Hl; unfold LMS_N; lia]).
  unfold is_u32 in Hq0. unfold LMS_N in Hl, Ht2.
  eapply hoare_bind with (P := fun _ => True); [apply hoare_ret; exact I |]. intros _ _.
  eapply hoare_bind; [apply ok_returns, returns_or_return, get_lms_param_returns, pub_lms |]. intros ? ->.
  eapply hoare_bind; [apply ok_returns, returns_or_return, get_lmots_param_returns, pub_ots |]. intros ? ->.
  eapply hoare_bind; [apply ok_returns, returns_or_return, pub_hash_alg_returns |]. intros ? ->.
  rewrite (op_n _ _ pub_ots), (wf_lms_n lp pub_lms_wf). fold LMS_N.
  rewrite leaf_base_eq by apply pub_lms_wf. rewrite (u32_small (4 + _ + _)) by (unfold LMS_N; lia).
  eapply hoare_bind with (P := fun _ => True); [apply hoare_guard; [| exact I] |].
  { rewrite negb_true_iff, Z.eqb_neq. unfold LMS_N. lia. }
  intros _ _. set (L := 4 + LMS_N + ots_p_p op * LMS_N). set (q := lms_load_u32 sg) in *.
  eapply hoare_bind with (P := fun _ => True); [apply hoare_guard; [| exact I] |].
  { rewrite Z.leb_le. lia. }
  intros _ _. rewrite (u32_small (2 ^ h + q)) by lia.
  eapply hoare_bind with (P := fun _ => True); [apply hoare_guard; [| exact I] |].
  { rewrite negb_true_iff, Z.eqb_neq, from_from by (unfold L, LMS_N; lia).
    intros H. destruct H. rewrite <- Ht2. do 2 f_equal. unfold L, LMS_N. lia. }
  intros _ _.
  eapply hoare_bind.
  { apply hoare_or_return.
    apply (verify_leaf_ok F I0 seed0 B HB I_ pub_I_len _ op pub_ots (pub_alg _ _ _ Hp) (wf_pub_I_byte _ (pub_wf _ _ _ Hp)));
      [| apply Forall_slice, Forall_drop, Hb | exact Hm].
    split; [| rewrite lms_load_u32_take by (unfold L, LMS_N; lia); exact Ht1].
    apply len_slice; rewrite ?len_from; unfold L, LMS_N; lia. }
  intros leaf Hleaf. unfold verify_root_spec.
  rewrite slice_slice_0, slice_from, from_slice, slice_from in Hleaf by (unfold L, LMS_N; lia).
  replace (L - (4 + LMS_N)) with (ots_p_p op * LMS_N) in Hleaf by (unfold L; lia).
  change (4 + 4) with 8 in Hleaf. replace (4 + (4 + LMS_N)) with (8 + LMS_N) in Hleaf by lia.
  rewrite <- Hleaf. rewrite from_from by (unfold L, LMS_N; lia).
  replace (4 + (L + 4)) with (12 + LMS_N + ots_p_p op * LMS_N) by (unfold L; lia).
  assert (Hll : chain_value leaf) by (rewrite Hleaf; split; [apply hash_of_len | apply hash_of_bytes]; apply (pub_alg _ _ _ Hp)).
  assert (Hlp : h * LMS_N <= len (from (12 + LMS_N + ots_p_p op * LMS_N) sg)) by (rewrite len_from; unfold LMS_N; lia).
  assert (Hpb : Forall is_byte (from (12 + LMS_N + ots_p_p op * LMS_N) sg)) by apply Forall_from, Hb.
  eapply hoare_bind; [apply ok_returns, (registered_returns B verify_authpath_backend) |].
  intros b ->. destruct (slot_fn (verify_authpath_backend B)) as [f |] eqn:Ef.
  - apply hoare_or_return, (ok_call_backend F B verify_authpath_backend _ _
      verify_authpath_backend_sound _ (sound_verify_authpath _ _ _ _ HB)).
    + intros f' c d _ Hsnd Hd. exact (Hsnd I_ alg (2 ^ h + q) leaf _ h d (pub_alg _ _ _ Hp) Hd
        (conj pub_I_len (wf_pub_I_byte _ (pub_wf _ _ _ Hp))) Hll ltac:(unfold LMS_MAX_HEIGHT; lia) Hlp Hpb).
    + rewrite Ef. discriminate.
  - apply climb_loop_ok; [lia | exact Hll | exact Hlp | exact Hpb].
Qed.
(** A computation that never succeeds. *)
Abbreviation never m := (hoare (inv B) True m (fun _ => False)).

Lemma never_guard {A} c e (f : unit -> C A) : c = true -> never (guard_err c e ≫= f).
Proof. intros ->. apply hoare_bind with (P := fun _ => False); [apply hoare_fail; exact I | contradiction]. Qed.

Lemma never_bind {A A'} (m : C A) (f : A -> C A') : never m -> never (m ≫= f).
Proof. intros Hm. apply hoare_bind with (P := fun _ => False); [exact Hm | contradiction]. Qed.

Lemma pass_guard {A} c e (f : unit -> C A) F' Q :
  c = false -> hoare (inv B) F' (f tt) Q -> hoare (inv B) F' (guard_err c e ≫= f) Q.
Proof. intros -> H. apply hoare_bind with (P := fun _ => True); [apply hoare_ret; exact I | intros [] _; exact H]. Qed.

Lemma verify_leaf_rejects q node m s :
  lms_load_u32 s <> pub_lmots_type pub ->
  never (lmots_verify_leaf I_ alg q (pub_lmots_type pub) node m (Buf s)).
Proof.
  intros Ht. unfold lmots_verify_leaf. apply never_bind. unfold ots_signature_checks.
  eapply hoare_bind; [apply ok_returns, returns_or_return, get_lmots_param_returns, pub_ots |]. intros ? ->.
  cbn [cbuf_data]. destruct (_ || _) eqn:Hc; [apply never_guard; reflexivity |].
  apply pass_guard; [reflexivity |]. apply never_guard, negb_true_iff, Z.eqb_neq, Ht.
Qed.

Lemma root_from_signature_rejects m sg :
  shape_ok sg = false -> Forall is_byte sg ->
  never (lms_root_from_signature (Some pub) m (Buf sg)).
Proof.
  intros Hs Hb. pose proof (op_p_range _ _ pub_ots) as Hpr. destruct pub_height as [Hh0 H25].
  unfold lms_root_from_signature. cbn [cbuf_null cbuf_len cbuf_data].
  apply pass_guard; [reflexivity |].
  eapply hoare_bind; [apply ok_returns, returns_or_return, get_lms_param_returns, pub_lms |]. intros ? ->.
  eapply hoare_bind; [apply ok_returns, returns_or_return, get_lmots_param_returns, pub_ots |]. intros ? ->.
  eapply hoare_bind; [apply ok_returns, returns_or_return, pub_hash_alg_returns |]. intros ? ->.
  rewrite (op_n _ _ pub_ots), (wf_lms_n lp pub_lms_wf). fold LMS_N.
  rewrite leaf_base_eq by apply pub_lms_wf. rewrite (u32_small (4 + _ + _)) by (unfold LMS_N; lia).
  unfold sig_shape_ok in Hs.
  destruct (Z.eqb_spec (len sg) (12 + LMS_N * (1 + ots_p_p op + h))) as [Hl | Hl].
  2: { apply never_guard, negb_true_iff, Z.eqb_neq. unfold LMS_N in *. lia. }
  apply pass_guard; [apply negb_false_iff, Z.eqb_eq; unfold LMS_N in *; lia |].
  set (L := 4 + LMS_N + ots_p_p op * LMS_N).
  destruct (Z.ltb_spec (lms_load_u32 sg) (2 ^ h)) as [Hq | Hq].
  2: { apply never_guard, Z.leb_le, Hq. }
  apply pass_guard; [apply Z.leb_gt, Hq |].
  rewrite (from_from L 4) by (unfold L, LMS_N; lia).
  replace (4 + L) with (8 + LMS_N + ots_p_p op * LMS_N) by (unfold L; lia).
  destruct (Z.eqb_spec (lms_load_u32 (from (8 + LMS_N + ots_p_p op * LMS_N) sg)) (pub_lms_type pub)).
  2: { apply never_guard. reflexivity. }
  apply pass_guard; [reflexivity |]. apply never_bind. rewrite !andb_true_r in Hs. cbn [andb] in Hs.
  apply Z.eqb_neq in Hs. apply hoare_or_return, verify_leaf_rejects.
  rewrite lms_load_u32_take by (unfold L, LMS_N; lia). exact Hs.
Qed.

(** [lms_verify] succeeds only on an accepted signature, and fails only on one that
    is not accepted, or under [F]. *)
Lemma verify_ok m sg :
  Forall is_byte sg -> msg_ok F m ->
  hoare (inv B) (F \/ rfc_accepts pub (cbuf_data m) sg = false) (lms_verify (Some pub) m (Buf sg))
    (fun _ => rfc_accepts pub (cbuf_data m) sg = true).
Proof.
  intros Hb Hm. unfold lms_verify. cbn [cbuf_null orb].
  apply pass_guard; [apply (msg_readable _ _ Hm) |].
  unfold rfc_accepts. rewrite (pub_params _ _ _ Hp).
  destruct (shape_ok sg) eqn:Hs; cbn [andb].
  - eapply hoare_bind.
    { apply hoare_or_return. eapply hoare_weaken; [apply (root_from_signature_ok m sg Hs Hb Hm) |].
      intros HF. left. exact HF. }
    intros root Hroot. pose proof (pub_wf _ _ _ Hp) as Hw.
    assert (Hrl : len root = LMS_N /\ Forall is_byte root).
    { rewrite Hroot. split; [apply climb_path_len | apply climb_path_bytes];
        (apply (pub_alg _ _ _ Hp) || apply hash_of_len || apply hash_of_bytes); apply (pub_alg _ _ _ Hp). }
    pose proof (root_diff_zero root (pub_root pub) (proj2 Hrl) (wf_pub_root_byte _ Hw) (proj1 Hrl)
                  (wf_pub_root _ Hw)) as Hz.
    rewrite <- Hroot. destruct (Z.eqb_spec (root_diff root (pub_root pub)) 0) as [He | He].
    + apply hoare_ret, bool_decide_true, Hz, He.
    + apply hoare_fail. right. apply bool_decide_false. intros Hq. apply He, Hz, Hq.
  - apply hoare_weaken with (F := True); [| intros _; right; reflexivity].
    apply hoare_conseq with (P := fun _ => False); [| contradiction].
    apply never_bind, hoare_or_return, root_from_signature_rejects; assumption.
Qed.
End VerifyOk.
