(* ===== verification/Scheme.v ===== *)
(** The reference scheme of Spec.v is correct: chains compose, a path of siblings
    recomputes the root, and the verifier accepts what the signer writes. *)

From S2P Require Import Prelude Types HashApi Params Winternitz Spec LmOts LmOtsCorrect Tree Lms LmsCorrect VerifyCorrect.

Lemma for_z_add {A} n m i (f : Z -> A -> A) a :
  for_z (n + m) i f a = for_z m (i + Z.of_nat n) f (for_z n i f a).
Proof.
  revert i a. induction n as [| n IH]; intros i a.
  - rewrite Z.add_0_r. reflexivity.
  - cbn [Nat.add for_z]. rewrite IH. f_equal. lia.
Qed.

(** One value out of a concatenation of equally long ones. *)
Lemma concat_slice (f : Z -> bytes) n i :
  0 <= i < n -> (forall j, 0 <= j < n -> len (f j) = LMS_N) ->
  slice (i * LMS_N) LMS_N (concat (map f (seqZ 0 n))) = f i.
Proof.
  intros Hi Hf. replace n with (i + (1 + (n - i - 1))) at 1 by lia.
  rewrite (seqZ_app 0 i), (seqZ_app (0 + i) 1) by lia.
  rewrite !map_app, !concat_app. rewrite (slice_exact _ _ _ (concat (map f (seqZ (0 + i) 1)))).
  - simpl. apply app_nil_r.
  - symmetry. apply concat_len; [lia |]. intros j Hj. apply Hf. lia.
  - simpl. rewrite app_nil_r. symmetry. apply Hf, Hi.
Qed.

Section Scheme.
Context `{Hh : HashApi}.
Variable type : Z.
Variable op : lmots_param_t.
Hypothesis Hop : lmots_params_of type = Some op.
Abbreviation alg := (ots_p_hash_alg op).
Hypothesis Ha : available alg.
Variable I_ seed : bytes.

Lemma chain_spec_add q i start n m v :
  0 <= n -> 0 <= m ->
  chain_spec alg I_ q i (start + n) m (chain_spec alg I_ q i start n v)
  = chain_spec alg I_ q i start (n + m) v.
Proof.
  intros Hn Hm. unfold chain_spec. rewrite Z2Nat.inj_add, for_z_add by lia.
  rewrite Z2Nat.id by lia. reflexivity.
Qed.

Lemma private_value_len q i : len (private_value_spec alg I_ seed q i) = LMS_N.
Proof. apply hash_of_len, Ha. Qed.

Lemma sign_value_slice q (a : Z -> Z) i :
  0 <= i < ots_p_p op -> (forall j, 0 <= j < ots_p_p op -> 0 <= a j) ->
  slice (i * LMS_N) LMS_N (ots_sign_values alg op I_ seed q a)
  = chain_spec alg I_ q i 0 (a i) (private_value_spec alg I_ seed q i).
Proof.
  intros Hi Hpos. unfold ots_sign_values, per_chain. rewrite concat_slice; [reflexivity | exact Hi |].
  intros j Hj. apply (chain_spec_len I_ op Ha); [apply private_value_len | apply Hpos, Hj].
Qed.

(** Finishing the chains of a signature gives the public key. *)
Lemma ots_candidate_sign q (a : Z -> Z) :
  (forall i, 0 <= i < ots_p_p op -> 0 <= a i <= max_digit op) ->
  ots_candidate alg op I_ q a (ots_sign_values alg op I_ seed q a) = ots_pub alg op I_ seed q.
Proof.
  intros Ha'. unfold ots_candidate, ots_pub. f_equal. apply per_chain_ext. intros i Hi.
  rewrite sign_value_slice by (exact Hi || (intros j Hj; apply Ha', Hj)).
  pose proof (Ha' i Hi). change (a i) with (0 + a i) at 1. rewrite chain_spec_add by lia.
  f_equal. lia.
Qed.

Section TreeScheme.
Variable h : Z.
Hypothesis Hh0 : 0 <= h.
Abbreviation T := (tree_spec alg op h I_ seed).

Lemma tree_len k r : len (T k r) = LMS_N.
Proof. destruct k; apply hash_of_len, Ha. Qed.

Lemma tree_bytes k r : Forall is_byte (T k r).
Proof. destruct k; apply hash_of_bytes, Ha. Qed.

Lemma climb_sibling k r :
  0 <= r -> climb alg I_ r (T k r) (T k (Z.lxor r 1)) = T (S k) (r / 2).
Proof.
  intros Hr. unfold climb. rewrite lxor_1 by exact Hr. cbn [tree_spec].
  destruct (Z.even r) eqn:E.
  - pose proof (half_even r E) as H. rewrite <- H. reflexivity.
  - pose proof (half_odd r E) as H. replace (2 * (r / 2)) with (r - 1) by lia.
    replace (r - 1 + 1) with r by lia. reflexivity.
Qed.

Lemma auth_path_slice q k :
  0 <= k < h -> slice (k * LMS_N) LMS_N (auth_path_spec alg op h I_ seed q)
                = T (Z.to_nat k) (sibling_num h q k).
Proof.
  intros Hk. unfold auth_path_spec.
  apply (concat_slice (fun i => T (Z.to_nat i) (sibling_num h q i))); [exact Hk |].
  intros j Hj. apply tree_len.
Qed.

(** The siblings of the signing leaf lead from the leaf to every ancestor. *)
Lemma climb_auth_path q k :
  0 <= q < 2 ^ h -> (Z.of_nat k <= h) ->
  climb_path alg I_ k (2 ^ h + q) (T 0 (2 ^ h + q)) (auth_path_spec alg op h I_ seed q)
  = T k ((2 ^ h + q) / 2 ^ Z.of_nat k).
Proof.
  intros Hq. induction k as [| k IH]; intros Hk; [rewrite Z.div_1_r; reflexivity |].
  rewrite climb_path_snoc, IH, auth_path_slice by lia. unfold sibling_num. rewrite Nat2Z.id.
  rewrite climb_sibling by (apply Z.div_pos; lia). f_equal.
  replace (Z.of_nat (S k)) with (Z.of_nat k + 1) by lia.
  rewrite Z.pow_add_r, <- Z.div_div by lia. reflexivity.
Qed.

Lemma climb_auth_root q :
  0 <= q < 2 ^ h ->
  climb_path alg I_ (Z.to_nat h) (2 ^ h + q) (T 0 (2 ^ h + q)) (auth_path_spec alg op h I_ seed q)
  = root_spec alg op h I_ seed.
Proof.
  intros Hq. rewrite climb_auth_path by lia. unfold root_spec. f_equal. rewrite Z2Nat.id by lia.
  replace (2 ^ h + q) with (1 * 2 ^ h + q) by lia. rewrite Z.div_add_l, Z.div_small by lia. lia.
Qed.
End TreeScheme.
End Scheme.

(** * Fields of a signature *)

Section SignVerify.
Context `{Hh : HashApi}.
Variable priv : lms_private_key_t.
Variable lp : lms_param_t.
Variable op : lmots_param_t.
Hypothesis Hk : key_ok priv lp op.
Abbreviation I_ := (priv_I priv).
Abbreviation seed := (priv_seed priv).
Abbreviation alg := (ots_p_hash_alg op).
Abbreviation h := (lms_p_height lp).

(** The public key [lms_public_key_generate] computes. *)
Definition pub_of : lms_public_key_t :=
  mkPub (priv_lms_type priv) (priv_lmots_type priv) I_ (root_spec alg op h I_ seed).

Definition signature_of (q : Z) (C msg : bytes) : bytes :=
  lms_signature alg op h I_ (priv_lms_type priv) (priv_lmots_type priv) seed q C msg.

Lemma pub_of_ok : pub_ok pub_of lp op.
Proof.
  pose proof (key_wf _ _ _ Hk) as Hw. split.
  - split; cbn; try apply Hw; [apply tree_len | apply tree_bytes]; apply (key_alg _ _ _ Hk).
  - exact (key_params _ _ _ Hk).
  - exact (key_alg _ _ _ Hk).
Qed.

Lemma message_digits_ok q C msg i :
  0 <= i < ots_p_p op -> 0 <= message_digits alg op I_ q C msg i <= max_digit op.
Proof. apply digit_range, (op_wf _ _ (key_ots priv lp op Hk)). Qed.

Lemma sign_values_len q C msg :
  len (ots_sign_values alg op I_ seed q (message_digits alg op I_ q C msg)) = ots_p_p op * LMS_N.
Proof. apply (ots_sign_values_len priv lp op Hk). intros i Hi. apply message_digits_ok, Hi. Qed.

Lemma signature_len_ok q C msg : len C = LMS_N -> len (signature_of q C msg) = sig_len lp op.
Proof.
  intros HC. unfold signature_of, lms_signature, sig_len.
  rewrite !len_app, (ots_signature_len priv lp op Hk) by exact HC.
  rewrite (auth_path_len priv lp op Hk). change (len (lms_store_u32 _)) with 4. unfold LMS_N. lia.
Qed.

Lemma concat_bytes (f : Z -> bytes) (l : list Z) :
  (forall i, In i l -> Forall is_byte (f i)) -> Forall is_byte (concat (map f l)).
Proof.
  induction l as [| i l IH]; intros H; [constructor |]. cbn. apply Forall_byte_app.
  - apply H. left. reflexivity.
  - apply IH. intros j Hj. apply H. right. exact Hj.
Qed.

Lemma chain_spec_bytes q i start n v :
  0 <= n -> Forall is_byte v -> Forall is_byte (chain_spec alg I_ q i start n v).
Proof.
  intros Hn Hv. destruct (Z.eq_dec n 0) as [-> | Hne]; [exact Hv |].
  replace n with (n - 1 + 1) by lia. rewrite chain_spec_step by lia.
  apply hash_of_bytes, (key_alg _ _ _ Hk).
Qed.

Lemma ots_signature_bytes q C msg :
  Forall is_byte C -> Forall is_byte (ots_signature alg op I_ (priv_lmots_type priv) seed q C msg).
Proof.
  intros HC. pose proof (key_alg _ _ _ Hk) as Ha. unfold ots_signature.
  repeat apply Forall_byte_app; try apply lms_store_u32_bytes; [exact HC |].
  apply concat_bytes. intros i Hi. apply list_elem_of_In, elem_of_seqZ in Hi.
  apply chain_spec_bytes; [apply message_digits_ok; lia | apply hash_of_bytes, Ha].
Qed.

Lemma signature_bytes q C msg : Forall is_byte C -> Forall is_byte (signature_of q C msg).
Proof.
  intros HC. pose proof (key_alg _ _ _ Hk) as Ha. unfold signature_of, lms_signature.
  repeat apply Forall_byte_app; try apply lms_store_u32_bytes; [exact HC | |].
  { refine (proj2 (proj1 (Forall_app _ _ _) (proj2 (proj1 (Forall_app _ _ _) (ots_signature_bytes q C msg HC))))). }
  apply concat_bytes. intros i _. apply tree_bytes, Ha.
Qed.

(** The verifier accepts the reference signature, whatever the randomizer. *)
Lemma accepts_own_signature q C msg :
  0 <= q < 2 ^ h -> len C = LMS_N -> rfc_accepts pub_of msg (signature_of q C msg) = true.
Proof.
  intros Hq HC. pose proof (key_height priv lp op Hk) as Hh0.
  pose proof (op_p_range _ _ (key_ots priv lp op Hk)) as Hpr. pose proof (key_wf _ _ _ Hk) as Hw.
  assert (H25 : 2 ^ h <= 2 ^ 25) by (apply Z.pow_le_mono_r; lia).
  unfold rfc_accepts. cbn [pub_lms_type pub_lmots_type pub_I pub_root pub_of].
  rewrite (key_params _ _ _ Hk).
  pose proof (signature_len_ok q C msg HC) as Hl. unfold sig_len in Hl.
  set (sg := signature_of q C msg) in *.
  set (y := ots_sign_values alg op I_ seed q (message_digits alg op I_ q C msg)).
  assert (Hy : len y = ots_p_p op * LMS_N) by apply sign_values_len.
  set (t1 := lms_store_u32 (priv_lmots_type priv)). set (t2 := lms_store_u32 (priv_lms_type priv)).
  set (path := auth_path_spec alg op h I_ seed q).
  assert (E : sg = lms_store_u32 q ++ t1 ++ C ++ y ++ t2 ++ path).
  { unfold sg, signature_of, lms_signature, ots_signature. rewrite <- !app_assoc. reflexivity. }
  assert (Ht1 : len t1 = 4) by reflexivity. assert (Ht2 : len t2 = 4) by reflexivity.
  assert (Eq : lms_load_u32 sg = q) by (rewrite E; apply lms_load_store_u32; unfold is_u32; lia).
  assert (E1 : from 4 sg = t1 ++ C ++ y ++ t2 ++ path) by (rewrite E; apply from_exact; reflexivity).
  assert (E2 : from (8 + LMS_N + ots_p_p op * LMS_N) sg = t2 ++ path).
  { rewrite E, (app_assoc _ t1), (app_assoc _ C), (app_assoc _ y). apply from_exact.
    rewrite !len_app, HC, Hy, Ht1. change (len (lms_store_u32 q)) with 4. lia. }
  assert (E3 : from (12 + LMS_N + ots_p_p op * LMS_N) sg = path).
  { replace (12 + LMS_N + ots_p_p op * LMS_N) with ((8 + LMS_N + ots_p_p op * LMS_N) + 4) by lia.
    rewrite <- from_from, E2 by (unfold LMS_N; lia). apply from_exact. reflexivity. }
  assert (E4 : slice 8 LMS_N sg = C).
  { rewrite E, app_assoc. apply slice_exact; [reflexivity | symmetry; exact HC]. }
  assert (E5 : slice (8 + LMS_N) (ots_p_p op * LMS_N) sg = y).
  { rewrite E, (app_assoc _ t1), (app_assoc _ C). apply slice_exact; [| symmetry; exact Hy].
    rewrite !len_app, HC, Ht1. reflexivity. }
  unfold sig_shape_ok. rewrite Eq, Hl, E1, E2. unfold t1, t2.
  rewrite !lms_load_store_u32 by apply Hw. cbn [pub_lms_type pub_lmots_type].
  rewrite !Z.eqb_refl. destruct (Z.ltb_spec q (2 ^ h)); [| lia]. cbn [andb].
  apply bool_decide_true. unfold verify_root_spec. rewrite E3, E4, E5. unfold y.
  rewrite (ots_candidate_sign op (key_alg _ _ _ Hk))
    by (intros i Hi; apply message_digits_ok, Hi).
  replace (leaf_spec alg I_ (2 ^ h + q) (ots_pub alg op I_ seed q))
    with (tree_spec alg op h I_ seed 0 (2 ^ h + q))
    by (cbn [tree_spec]; do 2 f_equal; lia).
  apply climb_auth_root; [exact (key_alg _ _ _ Hk) | lia | exact Hq].
Qed.
End SignVerify.
