(* ===== verification/Security.v ===== *)
(** What a forgery would have to contain.  For a signature that the verifier
    accepts under an honestly generated key, either the hash computations of the
    verifier and those of the key at that index contain a collision, or every chain
    value of the signature is the key's own value at the signed digit; in that
    case a signature on another message hash contains a chain value that
    lies before the one an honest signature releases. *)

From S2P Require Import Prelude Types HashApi Params Winternitz Spec LmOts LmOtsCorrect Tree Lms LmsCorrect VerifyCorrect Scheme.

Section Inputs.
Context `{Hh : HashApi}.
Variable alg : lms_hash_alg_t.
Variable op : lmots_param_t.
Variable I_ : bytes.

(** ** The inputs that are hashed *)

Definition chain_input (q i j : Z) (v : bytes) : bytes :=
  id_q I_ q ++ lms_store_u16 (u16 i) ++ [u8 j] ++ v.

Definition chain_inputs (q i start steps : Z) (v : bytes) : list bytes :=
  map (fun k => chain_input q i (start + k) (chain_spec alg I_ q i start k v)) (seqZ 0 steps).

Definition public_input (q : Z) (zs : bytes) : bytes := id_q I_ q ++ lms_store_u16 D_PBLC ++ zs.

Definition leaf_input (node : Z) (pub : bytes) : bytes := id_q I_ node ++ lms_store_u16 D_LEAF ++ pub.

Definition climb_input (num : Z) (node sib : bytes) : bytes :=
  id_q I_ (num / 2) ++ lms_store_u16 D_INTR
  ++ (if Z.even num then node ++ sib else sib ++ node).

Fixpoint climb_inputs (n : nat) (num : Z) (node path : bytes) : list bytes :=
  match n with
  | O => []
  | S n' =>
      let sib := slice 0 LMS_N path in
      climb_input num node sib
        :: climb_inputs n' (num / 2) (climb alg I_ num node sib) (from LMS_N path)
  end.

(** Everything hashed from the chain values [zs] upwards. *)
Definition upper_inputs (h q : Z) (zs path : bytes) : list bytes :=
  let pub := ots_public_spec alg I_ q zs in
  let leaf := leaf_spec alg I_ (2 ^ h + q) pub in
  public_input q zs :: leaf_input (2 ^ h + q) pub
    :: climb_inputs (Z.to_nat h) (2 ^ h + q) leaf path.

(** Two listed inputs that differ and hash to the same value. *)
Definition collision (us vs : list bytes) : Prop :=
  exists u v, In u us /\ In v vs /\ u <> v /\ hash_of alg u = hash_of alg v.

Lemma collision_mono us us' vs vs' :
  collision us vs -> incl us us' -> incl vs vs' -> collision us' vs'.
Proof. intros (u & v & Hu & Hv & H) H1 H2. exists u, v. auto. Qed.

(** Equal hashes of listed inputs: equal inputs, or a collision. *)
Lemma same_or_collision u v us vs :
  In u us -> In v vs -> hash_of alg u = hash_of alg v -> u = v \/ collision us vs.
Proof.
  intros Hu Hv He. destruct (decide (u = v)); [left; assumption | right; exists u, v; auto].
Qed.

Lemma climb_input_inj num node node' sib sib' :
  len node = len node' -> len sib = len sib' ->
  climb_input num node sib = climb_input num node' sib' -> node = node'.
Proof.
  unfold climb_input, len. intros Hn Hs H. apply app_inv_head, app_inv_head in H.
  destruct (Z.even num); apply app_inj_1 in H; try lia; tauto.
Qed.

Lemma climb_eq num node sib : climb alg I_ num node sib = hash_of alg (climb_input num node sib).
Proof. unfold climb, climb_input. destruct (Z.even num); reflexivity. Qed.

Hypothesis Ha : available alg.

Lemma climb_inj n num node node' path path' :
  len node = LMS_N -> len node' = LMS_N ->
  Z.of_nat n * LMS_N <= len path -> Z.of_nat n * LMS_N <= len path' ->
  climb_path alg I_ n num node path = climb_path alg I_ n num node' path' ->
  node = node' \/
  collision (climb_inputs n num node path) (climb_inputs n num node' path').
Proof.
  revert num node node' path path'.
  induction n as [| n IH]; intros num node node' path path' Hl Hl' Hp Hp' He; [left; exact He |].
  cbn [climb_path climb_inputs] in *. unfold LMS_N in Hp, Hp'.
  destruct (IH (num / 2) (climb alg I_ num node (slice 0 LMS_N path))
              (climb alg I_ num node' (slice 0 LMS_N path')) (from LMS_N path) (from LMS_N path'))
    as [Hc | Hc]; try exact He; try (apply climb_len, Ha);
    try (rewrite len_from; unfold LMS_N; lia).
  - rewrite !climb_eq in Hc.
    apply (same_or_collision _ _ (climb_input num node (slice 0 LMS_N path) :: climb_inputs n (num / 2)
             (climb alg I_ num node (slice 0 LMS_N path)) (from LMS_N path))
             (climb_input num node' (slice 0 LMS_N path') :: climb_inputs n (num / 2)
             (climb alg I_ num node' (slice 0 LMS_N path')) (from LMS_N path'))) in Hc;
      [| left; reflexivity | left; reflexivity].
    destruct Hc as [Hc | Hc]; [left | right; exact Hc].
    apply climb_input_inj in Hc; [exact Hc | lia | rewrite !len_slice; unfold LMS_N; lia].
  - right. eapply collision_mono; [exact Hc | |]; intros x Hx; right; exact Hx.
Qed.

(** Two chains over the same positions with the same end. *)
Lemma chain_inj q i start n v v' :
  0 <= n -> len v = LMS_N -> len v' = LMS_N ->
  chain_spec alg I_ q i start n v = chain_spec alg I_ q i start n v' ->
  v = v' \/ collision (chain_inputs q i start n v) (chain_inputs q i start n v').
Proof.
  intros Hn Hv Hv'. revert n Hn. apply (natlike_ind (fun n => _ -> _)); [left; assumption |].
  intros n Hn IH He. unfold Z.succ in *. rewrite !chain_spec_step in He by exact Hn.
  assert (Hin : forall w, In (chain_input q i (start + n) (chain_spec alg I_ q i start n w))
                             (chain_inputs q i start (n + 1) w)).
  { intros w. unfold chain_inputs. apply in_map_iff. exists n. split; [reflexivity |].
    apply list_elem_of_In, elem_of_seqZ. lia. }
  destruct (same_or_collision _ _ _ _ (Hin v) (Hin v') He) as [Hc | Hc]; [| right; exact Hc].
  unfold chain_input in Hc. do 3 apply app_inv_head in Hc.
  destruct (IH Hc) as [Hi | Hi]; [left; exact Hi | right].
  eapply collision_mono; [exact Hi | |]; unfold chain_inputs; rewrite (seqZ_app 0 n 1), map_app by lia;
    apply incl_appl, incl_refl.
Qed.

(** Equal roots: equal chain ends, or a collision above them. *)
Lemma upper_inj h q zs zs' path path' :
  0 <= h -> h * LMS_N <= len path -> h * LMS_N <= len path' ->
  climb_path alg I_ (Z.to_nat h) (2 ^ h + q)
    (leaf_spec alg I_ (2 ^ h + q) (ots_public_spec alg I_ q zs)) path
  = climb_path alg I_ (Z.to_nat h) (2 ^ h + q)
      (leaf_spec alg I_ (2 ^ h + q) (ots_public_spec alg I_ q zs')) path' ->
  zs = zs' \/ collision (upper_inputs h q zs path) (upper_inputs h q zs' path').
Proof.
  intros Hh0 Hp Hp' He. apply climb_inj in He; try (apply hash_of_len, Ha);
    rewrite ?Z2Nat.id by lia; try assumption.
  destruct He as [He | He].
  2: { right. eapply collision_mono; [exact He | |]; intros x Hx; right; right; exact Hx. }
  destruct (same_or_collision (leaf_input (2 ^ h + q) (ots_public_spec alg I_ q zs))
    (leaf_input (2 ^ h + q) (ots_public_spec alg I_ q zs'))
    (upper_inputs h q zs path) (upper_inputs h q zs' path')) as [Hl | Hl];
    [right; left; reflexivity | right; left; reflexivity | exact He | | right; exact Hl].
  unfold leaf_input in Hl. do 2 apply app_inv_head in Hl.
  destruct (same_or_collision (public_input q zs) (public_input q zs')
    (upper_inputs h q zs path) (upper_inputs h q zs' path')) as [Hz | Hz];
    [left; reflexivity | left; reflexivity | exact Hl | | right; exact Hz].
  left. unfold public_input in Hz. do 2 apply app_inv_head in Hz. exact Hz.
Qed.
End Inputs.

(** * Forgeries *)

Section Forgery.
Context `{Hh : HashApi}.
Variable priv : lms_private_key_t.
Variable lp : lms_param_t.
Variable op : lmots_param_t.
Abbreviation I_ := (priv_I priv).
Abbreviation seed := (priv_seed priv).
Abbreviation alg := (ots_p_hash_alg op).
Abbreviation h := (lms_p_height lp).

(** The end of chain [i] from the signature's value [y] at digit [a]. *)
Definition signed_end (q : Z) (a : Z -> Z) (y : bytes) (i : Z) : bytes :=
  chain_spec alg I_ q i (a i) (max_digit op - a i) (slice (i * LMS_N) LMS_N y).

(** The key's value at position [j] of chain [i]. *)
Definition key_value (q i j : Z) : bytes :=
  chain_spec alg I_ q i 0 j (private_value_spec alg I_ seed q i).

(** What the verifier hashes, the message aside. *)
Definition verifier_inputs (msg sg : bytes) : list bytes :=
  let q := lms_load_u32 sg in
  let a := message_digits alg op I_ q (slice 8 LMS_N sg) msg in
  let y := slice (8 + LMS_N) (ots_p_p op * LMS_N) sg in
  concat (map (fun i => chain_inputs alg I_ q i (a i) (max_digit op - a i)
                          (slice (i * LMS_N) LMS_N y)) (seqZ 0 (ots_p_p op)))
  ++ upper_inputs alg I_ h q (per_chain op (signed_end q a y))
       (from (12 + LMS_N + ots_p_p op * LMS_N) sg).

(** What the key hashes for leaf [q] and its path. *)
Definition key_inputs (q : Z) : list bytes :=
  concat (map (fun i => chain_inputs alg I_ q i 0 (max_digit op)
                          (private_value_spec alg I_ seed q i)) (seqZ 0 (ots_p_p op)))
  ++ upper_inputs alg I_ h q (per_chain op (fun i => key_value q i (max_digit op)))
       (auth_path_spec alg op h I_ seed q).

Hypothesis Hk : key_ok priv lp op.

Lemma in_chain_part f (p i : Z) (x : bytes) :
  0 <= i < p -> In x (f i) -> In x (concat (map f (seqZ 0 p))).
Proof.
  intros Hi Hx. apply in_concat. exists (f i). split; [| exact Hx].
  apply in_map, list_elem_of_In, elem_of_seqZ. lia.
Qed.

(** The tail of a key chain is part of the chain. *)
Lemma chain_tail_incl q i a n v :
  0 <= a -> 0 <= n ->
  incl (chain_inputs alg I_ q i a n (chain_spec alg I_ q i 0 a v)) (chain_inputs alg I_ q i 0 (a + n) v).
Proof.
  intros Ha0 Hn x Hx. unfold chain_inputs in *. apply in_map_iff in Hx as (k & <- & Hk0).
  apply list_elem_of_In, elem_of_seqZ in Hk0. apply in_map_iff. exists (a + k). split.
  - change a with (0 + a) at 4. rewrite (chain_spec_add op I_) by lia. reflexivity.
  - apply list_elem_of_In, elem_of_seqZ. lia.
Qed.

(** Equal chain ends: every released value is the key's, or some chain collides. *)
Lemma chains_inj q (a : Z -> Z) y :
  (forall i, 0 <= i < ots_p_p op -> 0 <= a i <= max_digit op) ->
  len y = ots_p_p op * LMS_N ->
  per_chain op (signed_end q a y) = per_chain op (fun i => key_value q i (max_digit op)) ->
  (forall i, 0 <= i < ots_p_p op -> slice (i * LMS_N) LMS_N y = key_value q i (a i)) \/
  collision alg
    (concat (map (fun i => chain_inputs alg I_ q i (a i) (max_digit op - a i)
                             (slice (i * LMS_N) LMS_N y)) (seqZ 0 (ots_p_p op))))
    (concat (map (fun i => chain_inputs alg I_ q i 0 (max_digit op)
                             (private_value_spec alg I_ seed q i)) (seqZ 0 (ots_p_p op)))).
Proof.
  intros Hd Hy He. pose proof (key_alg _ _ _ Hk) as Ha.
  destruct (decide (Exists (fun i => slice (i * LMS_N) LMS_N y <> key_value q i (a i))
                      (seqZ 0 (ots_p_p op)))) as [Hex | Hno].
  2: { left. intros i Hi. destruct (decide (slice (i * LMS_N) LMS_N y = key_value q i (a i))) as [|Hne];
       [assumption |]. destruct Hno. apply Exists_exists. exists i. split; [| exact Hne].
       apply elem_of_seqZ. lia. }
  right. apply Exists_exists in Hex as (i & Hi & Hne). apply elem_of_seqZ in Hi.
  pose proof (Hd i ltac:(lia)) as Hai.
  assert (Hyl : len (slice (i * LMS_N) LMS_N y) = LMS_N) by (apply len_slice; unfold LMS_N in *; nia).
  assert (Hkl : forall j, 0 <= j -> len (key_value q i j) = LMS_N)
    by (intros j Hj; apply (chain_spec_len I_ op Ha); [apply hash_of_len, Ha | exact Hj]).
  assert (Hend : signed_end q a y i
                 = chain_spec alg I_ q i (a i) (max_digit op - a i) (key_value q i (a i))).
  { unfold per_chain in He. apply (f_equal (slice (i * LMS_N) LMS_N)) in He.
    rewrite !concat_slice in He; try lia.
    - rewrite He. unfold key_value. change (a i) with (0 + a i) at 1.
      rewrite (chain_spec_add op I_) by lia. f_equal. lia.
    - intros j Hj. apply (chain_spec_len I_ op Ha); [apply hash_of_len, Ha | lia].
    - intros j Hj. pose proof (Hd j Hj). apply (chain_spec_len I_ op Ha);
        [apply len_slice; unfold LMS_N in *; nia | lia]. }
  destruct (chain_inj alg I_ q i (a i) (max_digit op - a i) _ _ ltac:(lia) Hyl (Hkl _ (proj1 Hai)) Hend)
    as [Hv | Hc]; [contradiction |].
  eapply collision_mono; [exact Hc | |]; intros x Hx.
  - apply (in_chain_part (fun i => chain_inputs alg I_ q i (a i) (max_digit op - a i)
             (slice (i * LMS_N) LMS_N y)) _ i); [lia | exact Hx].
  - apply (in_chain_part (fun i => chain_inputs alg I_ q i 0 (max_digit op)
             (private_value_spec alg I_ seed q i)) _ i); [lia |].
    apply chain_tail_incl in Hx; [| lia | lia]. replace (a i + _) with (max_digit op) in Hx by lia.
    exact Hx.
Qed.
(** Acceptance under the key, taken apart. *)
Lemma accepted_inv msg sg :
  Forall is_byte sg -> rfc_accepts (pub_of priv lp op) msg sg = true ->
  let q := lms_load_u32 sg in
  let a := message_digits alg op I_ q (slice 8 LMS_N sg) msg in
  let y := slice (8 + LMS_N) (ots_p_p op * LMS_N) sg in
  0 <= q < 2 ^ h /\ len (slice 8 LMS_N sg) = LMS_N /\ len y = ots_p_p op * LMS_N /\
  ((forall i, 0 <= i < ots_p_p op -> slice (i * LMS_N) LMS_N y = key_value q i (a i)) \/
   collision alg (verifier_inputs msg sg) (key_inputs q)).
Proof.
  intros Hb Hacc q a y. pose proof (key_alg _ _ _ Hk) as Ha.
  pose proof (op_p_range _ _ (key_ots priv lp op Hk)) as Hpr.
  pose proof (key_height priv lp op Hk) as Hh0.
  unfold rfc_accepts in Hacc. cbn [pub_of pub_lms_type pub_lmots_type pub_I pub_root] in Hacc.
  rewrite (key_params _ _ _ Hk) in Hacc. apply andb_prop in Hacc as [Hs Hr].
  apply bool_decide_eq_true in Hr. apply shape_fields in Hs as (Hl & Hq & _).
  assert (Hq0 : is_u32 q) by (apply lms_load_u32_range; [exact Hb | rewrite Hl; unfold LMS_N; lia]).
  unfold is_u32 in Hq0. fold q in Hq.
  assert (HCl : len (slice 8 LMS_N sg) = LMS_N) by (apply len_slice; unfold LMS_N in *; lia).
  assert (Hyl : len y = ots_p_p op * LMS_N) by (apply len_slice; unfold LMS_N in *; lia).
  split; [lia |]. split; [exact HCl |]. split; [exact Hyl |].
  unfold verify_root_spec in Hr. fold q a y in Hr. unfold ots_candidate in Hr.
  rewrite <- (climb_auth_root op Ha I_ seed h ltac:(lia) q ltac:(lia)) in Hr.
  cbn [tree_spec] in Hr. replace (2 ^ h + q - 2 ^ h) with q in Hr by lia. unfold ots_pub in Hr.
  apply (upper_inj alg I_ Ha) in Hr; [| lia | rewrite len_from; unfold LMS_N in *; lia |].
  2: { rewrite (auth_path_len priv lp op Hk). reflexivity. }
  destruct Hr as [Hz | Hc].
  2: { right. eapply collision_mono; [exact Hc | |]; unfold verifier_inputs, key_inputs;
         apply incl_appr, incl_refl. }
  destruct (chains_inj q a y) as [Hv | Hc]; [| exact Hyl | exact Hz | left; exact Hv |].
  - intros i Hi. apply (message_digits_ok priv lp op Hk), Hi.
  - right. eapply collision_mono; [exact Hc | |]; unfold verifier_inputs, key_inputs;
      apply incl_appl, incl_refl.
Qed.

(** C1: unforgeability, reduced to the hash function.  Let the verifier accept any
    bytes [sg] for [msg] under a key pair, and let [q] be the index [sg] names.
    Then the explicit lists of inputs the verifier and the key generator hash
    contain a collision, or every chain value in [sg] is the key's own value at the
    digit of [msg]; and then, against every honest signature of index [q] on
    a message with another hash, some chain value in [sg] lies strictly before
    the one the honest signature released. *)
Theorem forgery_extraction (msg sg : bytes) :
  Forall is_byte sg ->
  rfc_accepts (pub_of priv lp op) msg sg = true ->
  let q := lms_load_u32 sg in
  let D := message_digits alg op I_ q in
  let y := slice (8 + LMS_N) (ots_p_p op * LMS_N) sg in
  collision alg (verifier_inputs msg sg) (key_inputs q) \/
  ((forall i, 0 <= i < ots_p_p op ->
      slice (i * LMS_N) LMS_N y = key_value q i (D (slice 8 LMS_N sg) msg i)) /\
   forall C' msg',
     message_hash_spec alg I_ q C' msg' <> message_hash_spec alg I_ q (slice 8 LMS_N sg) msg ->
     exists i, 0 <= i < ots_p_p op /\ D (slice 8 LMS_N sg) msg i < D C' msg' i).
Proof.
  intros Hb Hacc q D y. destruct (accepted_inv msg sg Hb Hacc) as (Hq & HC & Hy & [Hv | Hc]);
    [right | left; exact Hc].
  split; [exact Hv |]. intros C' msg' Hne. pose proof (key_alg _ _ _ Hk) as Ha.
  destruct (decide (Exists (fun i => D (slice 8 LMS_N sg) msg i < D C' msg' i) (seqZ 0 (ots_p_p op))))
    as [Hex | Hno].
  - apply Exists_exists in Hex as (i & Hi & Hlt). apply elem_of_seqZ in Hi. exists i. split; [lia | exact Hlt].
  - destruct Hne. apply (digits_incomparable op); try apply hash_of_len; try apply hash_of_bytes; try exact Ha.
    { apply (op_wf _ _ (key_ots priv lp op Hk)). }
    intros i Hi. apply Z.nlt_ge. intros Hlt. apply Hno, Exists_exists. exists i.
    split; [apply elem_of_seqZ; lia | exact Hlt].
Qed.
End Forgery.

Lemma forgery_extraction_witness :
  let sg := signature_of (Hh := toy_hash_api) demo_priv demo_lp demo_op 3 (fill 7 32) [1; 2; 3] in
  rfc_accepts (Hh := toy_hash_api) (pub_of (Hh := toy_hash_api) demo_priv demo_lp demo_op) [1; 2; 3] sg = true /\
  (collision (Hh := toy_hash_api) LMS_HASH_SHAKE256
     (verifier_inputs (Hh := toy_hash_api) demo_priv demo_lp demo_op [1; 2; 3] sg)
     (key_inputs (Hh := toy_hash_api) demo_priv demo_lp demo_op (lms_load_u32 sg)) \/
   forall i, 0 <= i < 265 ->
     slice (i * LMS_N) LMS_N (slice (8 + LMS_N) (265 * LMS_N) sg)
     = key_value (Hh := toy_hash_api) demo_priv demo_op (lms_load_u32 sg) i
         (message_digits (Hh := toy_hash_api) LMS_HASH_SHAKE256 demo_op (fill 0x61 16)
            (lms_load_u32 sg) (slice 8 LMS_N sg) [1; 2; 3] i)).
Proof.
  intros sg.
  assert (Hb : Forall is_byte sg).
  { apply (signature_bytes (Hh := toy_hash_api) demo_priv demo_lp demo_op demo_key_ok).
    apply Forall_replicate. unfold is_byte. lia. }
  assert (Hacc : rfc_accepts (Hh := toy_hash_api) (pub_of (Hh := toy_hash_api) demo_priv demo_lp demo_op)
                   [1; 2; 3] sg = true).
  { apply (accepts_own_signature (Hh := toy_hash_api) demo_priv demo_lp demo_op demo_key_ok);
      [split; [discriminate | reflexivity] | reflexivity]. }
  split; [exact Hacc |].
  destruct (forgery_extraction (Hh := toy_hash_api) demo_priv demo_lp demo_op demo_key_ok [1; 2; 3] sg
    Hb Hacc) as [Hc | [Hv _]]; [left; exact Hc | right; exact Hv].
Defined.
