(* ===== verification/OtsTheorems.v ===== *)
(** The properties of the one-time signature layer (src/lm_ots.c).

    Every refinement is stated for an arbitrary set [B] of registered
    backends that keeps the contracts of Spec.v, and for a proposition [F] that
    every registered backend implies: a run either returns the reference value or
    fails, and then [F] holds.  For [no_backends] the contracts hold with
    [F := False], so there the functions are total. *)

From S2P Require Import Prelude Types HashApi Params Winternitz Spec LmOts LmOtsCorrect Tree Lms LmsCorrect VerifyCorrect Scheme.

(** * Chains, with their statistics *)

Section Chain.
Context `{P : Platform} `{Hh : HashApi}.

Definition bump_stats (c n : Z) (w : world) : world :=
  w {{ chain_stats := mkStats (u64 (calls (chain_stats w) + c)) (u64 (steps (chain_stats w) + n)) }}.

Lemma u64_add_l a b : u64 (u64 a + b) = u64 (a + b).
Proof. rewrite !u64_mod. apply Zplus_mod_idemp_l. Qed.

Definition add_steps (n : Z) (w : world) : world :=
  w {{ chain_stats := mkStats (calls (chain_stats w)) (u64 (steps (chain_stats w) + n)) }}.

(** A loop whose body counts one step counts its iterations. *)
Lemma counted_loop_run (body : Z -> bytes -> C bytes) (f : Z -> bytes -> bytes) :
  (forall j v w, body j v w = (Ok (f j v), add_steps 1 w)) ->
  forall n start v w,
  loopM (S n) start body v w
  = (Ok (for_z (S n) start f v), add_steps (Z.of_nat (S n)) w).
Proof.
  intros Hb. induction n as [| n IH]; intros start v w;
    cbn [loopM for_z]; unfold mbind, M_bind; rewrite Hb; [reflexivity |].
  change (match loopM n (start + 1 + 1) body with f => f end) with (loopM n (start + 1 + 1) body).
  specialize (IH (start + 1) (f start v) (add_steps 1 w)). cbn [loopM for_z] in IH.
  unfold mbind, M_bind in IH. rewrite IH. f_equal. unfold add_steps.
  destruct w as [c1 c2 [ca st] b d]. cbn -[Z.of_nat u64]. rewrite u64_add_l. do 3 f_equal. lia.
Qed.

(** [lmots_chain_compute], on every branch.  Within the bounds it returns the
    RFC 8554 chain value and counts one call and [steps] steps, modulo 2^64;
    beyond them, or for a [NULL] pointer, it returns [LMS_ERR_INVALID] and
    changes nothing; the 32-bit sum in the last bound never hides an overflow. *)
Theorem chain_compute_functional (alg : lms_hash_alg_t) (I_ v : bytes) (q i start n : Z)
    (w : world) :
  available alg -> is_u32 i -> is_u32 start -> is_u32 n ->
  0 <= steps (chain_stats w) < 2 ^ 64 ->
  lmots_chain_compute (Some I_) alg q i start n (Some v) w
  = (if (i <=? UINT16_MAX) && (start + n <=? UINT8_MAX)
     then (Ok (chain_spec alg I_ q i start n v), bump_stats 1 n w)
     else (Err LMS_ERR_INVALID, w)) /\
  lmots_chain_compute None alg q i start n (Some v) w = (Err LMS_ERR_INVALID, w) /\
  lmots_chain_compute (Some I_) alg q i start n None w = (Err LMS_ERR_INVALID, w).
Proof.
  intros Ha Hi Hs Hn Hst. split; [| split; reflexivity]. unfold is_u32 in *.
  unfold lmots_chain_compute, UINT16_MAX, UINT8_MAX. unfold mbind at 1, M_bind at 1.
  replace (_ || _) with (negb ((i <=? 65535) && (start + n <=? 255))).
  2: { rewrite u32_mod. destruct (Z.leb_spec i 65535), (Z.leb_spec (start + n) 255); cbn [negb andb];
       destruct (Z.ltb_spec 65535 i), (Z.ltb_spec 255 start), (Z.ltb_spec 255 n); cbn [orb];
       try reflexivity; try lia; rewrite Z.mod_small by lia;
       destruct (Z.ltb_spec 255 (start + n)); try reflexivity; lia. }
  destruct (Z.leb_spec i 65535), (Z.leb_spec (start + n) 255); cbn [negb andb guard_err]; try reflexivity.
  cbn [mret M_ret]. unfold mbind at 1, M_bind at 1. cbn [stats_call modify].
  unfold chain_spec, bump_stats. destruct (Z.to_nat n) as [| k] eqn:E.
  - replace n with 0 by lia. destruct w as [c1 c2 [ca st] b d]. cbn -[u64] in *.
    rewrite Z.add_0_r, (u64_small st) by exact Hst. reflexivity.
  - rewrite (counted_loop_run _ (fun j v => hash_of alg
        (id_q I_ q ++ lms_store_u16 (u16 i) ++ [u8 j] ++ v))).
    + replace (Z.of_nat (S k)) with n by lia. reflexivity.
    + intros j v' w'. unfold mbind, M_bind, hash_or_invalid. rewrite available_hash by exact Ha.
      unfold id_q. rewrite <- !app_assoc. reflexivity.
Qed.
End Chain.

Lemma demo_available : available (Hh := toy_hash_api) LMS_HASH_SHAKE256.
Proof. eexists. reflexivity. Qed.

Lemma demo_ident : ident (fill 1 16).
Proof. split; [reflexivity | apply Forall_replicate; unfold is_byte; lia]. Qed.

Ltac u32_lit := split; [discriminate | reflexivity].

Lemma chain_compute_functional_witness :
  fst (lmots_chain_compute (Hh := toy_hash_api) (Some (fill 1 16)) LMS_HASH_SHAKE256 7 2 250 6
         (Some (fill 9 32)) test_world) = Err LMS_ERR_INVALID /\
  fst (lmots_chain_compute (Hh := toy_hash_api) (Some (fill 1 16)) LMS_HASH_SHAKE256 7 2 250 5
         (Some (fill 9 32)) test_world)
  = Ok (chain_spec (Hh := toy_hash_api) LMS_HASH_SHAKE256 (fill 1 16) 7 2 250 5 (fill 9 32)).
Proof.
  split.
  - rewrite (proj1 (chain_compute_functional (Hh := toy_hash_api) LMS_HASH_SHAKE256 (fill 1 16)
      (fill 9 32) 7 2 250 6 test_world demo_available ltac:(u32_lit) ltac:(u32_lit) ltac:(u32_lit)
      ltac:(u32_lit))). reflexivity.
  - rewrite (proj1 (chain_compute_functional (Hh := toy_hash_api) LMS_HASH_SHAKE256 (fill 1 16)
      (fill 9 32) 7 2 250 5 test_world demo_available ltac:(u32_lit) ltac:(u32_lit) ltac:(u32_lit)
      ltac:(u32_lit))). reflexivity.
Defined.

(** * Key generation *)

(** [lmots_public_from_private] computes the LM-OTS public key of RFC 8554
    for every parameter set and index, whatever mixture of the key generation,
    derivation, chain and software paths is registered. *)
Theorem ots_keygen_refines `{P : Platform} `{Hh : HashApi} (F : Prop) (B : backends)
    (priv : lms_private_key_t) (lp : lms_param_t) (op : lmots_param_t) (q : Z) :
  key_ok priv lp op -> ots_backends_sound F (priv_I priv) (priv_seed priv) B ->
  hoare (inv B) F (lmots_public_from_private priv q)
    (fun pub => pub = ots_pub (ots_p_hash_alg op) op (priv_I priv) (priv_seed priv) q).
Proof. intros Hk HB. exact (public_from_private_ok F priv B HB lp op Hk q). Qed.

Lemma ots_keygen_refines_witness :
  hoare (inv (P := test_platform) no_backends) False (lmots_public_from_private (Hh := toy_hash_api) demo_priv 7)
    (fun pub => pub = ots_pub (Hh := toy_hash_api) LMS_HASH_SHAKE256 demo_op (fill 0x61 16) (fill 0x5e 32) 7).
Proof.
  exact (ots_keygen_refines (P := test_platform) (Hh := toy_hash_api) False no_backends demo_priv
           demo_lp demo_op 7 demo_key_ok (no_backends_sound _ _ _)).
Defined.

(** * Verification *)

(** From a signature of the right shape, [lmots_public_from_signature]
    recomputes the public key candidate of RFC 8554's algorithm 4b and
    [lmots_verify_leaf] its leaf node; any other signature is refused, a
    wrong length and a hash mismatch as invalid and a wrong type as a failed
    verification. *)
Theorem ots_verify_refines `{P : Platform} `{Hh : HashApi} (F : Prop) (I0 seed0 : bytes)
    (B : backends) (I_ : bytes) (type : Z) (op : lmots_param_t) (q node : Z) (m : cbuf) (s : bytes) :
  ots_backends_sound F I0 seed0 B -> ident I_ -> Forall is_byte s ->
  lmots_params_of type = Some op -> available (ots_p_hash_alg op) -> msg_ok F m ->
  let candidate := ots_candidate (ots_p_hash_alg op) op I_ q
    (message_digits (ots_p_hash_alg op) op I_ q (slice 4 LMS_N s) (cbuf_data m)) (from (4 + LMS_N) s) in
  let recover alg := lmots_public_from_signature I_ alg q type m (Buf s) in
  (well_formed_ots type op s ->
     hoare (inv B) F (recover (ots_p_hash_alg op)) (fun pub => pub = candidate) /\
     hoare (inv B) F (lmots_verify_leaf I_ (ots_p_hash_alg op) q type node m (Buf s))
       (fun leaf => leaf = leaf_spec (ots_p_hash_alg op) I_ node candidate)) /\
  (len s <> ots_len op -> forall alg, raises B (recover alg) LMS_ERR_INVALID) /\
  (len s = ots_len op -> lms_load_u32 s <> type ->
     forall alg, raises B (recover alg) LMS_ERR_VERIFY) /\
  (well_formed_ots type op s -> forall alg, alg <> ots_p_hash_alg op ->
     raises B (recover alg) LMS_ERR_INVALID).
Proof.
  intros HB [HI HIb] Hsb Hop Ha Hm candidate recover. pose proof (op_p_range _ _ Hop) as Hpr.
  assert (Hlen : u32 (4 + ots_p_n op + ots_p_p op * ots_p_n op) = ots_len op)
    by (rewrite (op_n _ _ Hop), u32_small by lia; reflexivity).
  split; [| split; [| split]].
  - intros Hs. split.
    + apply (public_from_signature_ok F I0 seed0 B HB I_ HI type op Hop Ha HIb q m s Hs Hsb Hm).
    + apply (verify_leaf_ok F I0 seed0 B HB I_ HI type op Hop Ha HIb q node m s Hs Hsb Hm).
  - intros Hl alg. apply raises_bind. unfold ots_signature_checks.
    eapply raises_bind_r; [apply returns_or_return, get_lmots_param_returns, Hop |].
    rewrite Hlen. cbn [cbuf_null cbuf_len orb]. destruct (Z.eqb_spec (len s) (ots_len op)); [contradiction |].
    apply raises_bind, raises_fail.
  - intros Hl Ht alg. apply raises_bind. unfold ots_signature_checks.
    eapply raises_bind_r; [apply returns_or_return, get_lmots_param_returns, Hop |].
    cbn [cbuf_len]. rewrite Hlen, Hl. cbn [cbuf_null cbuf_len orb cbuf_data]. rewrite Z.eqb_refl.
    eapply raises_bind_r; [apply returns_ret |].
    destruct (Z.eqb_spec (lms_load_u32 s) type); [contradiction |]. apply raises_bind, raises_fail.
  - intros [Hl Ht] alg Hne. fold (ots_len op) in Hl. apply raises_bind. unfold ots_signature_checks.
    eapply raises_bind_r; [apply returns_or_return, get_lmots_param_returns, Hop |].
    cbn [cbuf_len]. rewrite Hlen, Hl. cbn [cbuf_null cbuf_len orb cbuf_data]. rewrite Ht, !Z.eqb_refl.
    do 2 (eapply raises_bind_r; [apply returns_ret |]).
    rewrite bool_decide_false by congruence. apply raises_bind, raises_fail.
Qed.

Lemma ots_verify_refines_witness :
  raises (P := test_platform) no_backends
    (lmots_public_from_signature (Hh := toy_hash_api) (fill 1 16) LMS_HASH_SHAKE256 3
       LMOTS_SHAKE256_N32_W1 demo_msg (Buf [1; 2])) LMS_ERR_INVALID.
Proof.
  destruct (ots_verify_refines (P := test_platform) (Hh := toy_hash_api) False [] [] no_backends
    (fill 1 16) LMOTS_SHAKE256_N32_W1 demo_op 3 35 demo_msg [1; 2] (no_backends_sound _ _ _)
    demo_ident ltac:(repeat (apply Forall_cons_2; [u32_lit |]); apply Forall_nil_2) eq_refl demo_available demo_msg_ok) as (_ & H & _).
  apply H. discriminate.
Defined.

(** * Signing *)

(** C30: [lmots_sign] writes, at its offset and nowhere else in the caller's
    buffer, the RFC 8554 signature for a 32-byte randomizer (the derived one
    when no randomizer backend is set), and recovering the public key from those
    bytes gives the key that key generation computes. *)
Theorem ots_sign_then_verify `{P : Platform} `{Hh : HashApi} (F : Prop) (B : backends)
    (priv : lms_private_key_t) (lp : lms_param_t) (op : lmots_param_t) (q : Z) (m : cbuf)
    (pre rest : bytes) (sptr : ptr) (slen : Z) (s : smem) :
  key_ok priv lp op -> ots_backends_sound F (priv_I priv) (priv_seed priv) B -> msg_ok F m ->
  sptr <> NULL -> ots_len op <= slen -> ots_len op <= len rest ->
  inv B (wld s) -> sig s = pre ++ rest ->
  let alg := ots_p_hash_alg op in
  match lmots_sign priv q m sptr (len pre) slen s with
  | (Ok _, s') =>
      exists C sg,
        randomizer_of priv B op q C /\
        sg = ots_signature alg op (priv_I priv) (priv_lmots_type priv) (priv_seed priv) q C (cbuf_data m) /\
        sig s' = pre ++ sg ++ from (ots_len op) rest /\ len sg = ots_len op /\
        key s' = key s /\ inv B (wld s') /\
        hoare (inv B) F
          (lmots_public_from_signature (priv_I priv) alg q (priv_lmots_type priv) m (Buf sg))
          (fun pub => pub = ots_pub alg op (priv_I priv) (priv_seed priv) q)
  | (Err _, s') => F /\ key s' = key s /\ inv B (wld s')
  end.
Proof.
  intros Hk HB Hm Hp Hsl Hr Hi Hs alg.
  pose proof (lmots_sign_ok F priv B HB lp op Hk q m pre rest sptr slen Hm Hp Hsl Hr s Hi Hs) as H.
  destruct (lmots_sign _ _ _ _ _ _ s) as [[[] | e] s'].
  2: { destruct H as (HF & Hi' & Hk' & _). auto. }
  destruct H as ((C & HC & Hsig) & Hi' & Hk' & _).
  exists C. eexists. split; [exact HC |]. split; [reflexivity |]. split; [exact Hsig |].
  pose proof (key_ots priv lp op Hk) as Hop. pose proof (key_alg _ _ _ Hk) as Ha.
  destruct HC as (HCl & HCb & _). set (sg := ots_signature _ _ _ _ _ _ _ _).
  assert (Hl : len sg = ots_len op)
    by (unfold sg; rewrite (ots_signature_len priv lp op Hk) by exact HCl; unfold ots_len, LMS_N; lia).
  assert (Hsb : Forall is_byte sg) by exact (ots_signature_bytes priv lp op Hk q C (cbuf_data m) HCb).
  split; [exact Hl |]. split; [exact Hk' |]. split; [exact Hi' |].
  assert (HC4 : slice 4 LMS_N sg = C) by (apply slice_exact; [reflexivity | symmetry; exact HCl]).
  assert (Hy : from (4 + LMS_N) sg = ots_sign_values alg op (priv_I priv) (priv_seed priv) q
                 (message_digits alg op (priv_I priv) q C (cbuf_data m))).
  { unfold sg, ots_signature. rewrite app_assoc. apply from_exact. rewrite len_app, HCl. reflexivity. }
  eapply hoare_conseq.
  - apply (public_from_signature_ok F _ _ B HB _ (key_I_len priv lp op Hk) _ op Hop Ha (proj2 (key_ident priv lp op Hk)));
      [| exact Hsb | exact Hm].
    split; [exact Hl |]. apply lms_load_store_u32, (key_wf _ _ _ Hk).
  - intros pub ->. rewrite HC4, Hy. apply (ots_candidate_sign op Ha).
    intros i Hir. apply (message_digits_ok priv lp op Hk), Hir.
Qed.

(** The memory of a signing call on [n] bytes at program start. *)
Definition demo_smem (n : Z) : smem := mkSmem test_world (fill 0 n) demo_priv None.

Lemma demo_inv : inv (P := test_platform) no_backends test_world.
Proof. repeat split; discriminate. Qed.

Lemma ots_sign_then_verify_witness :
  match lmots_sign (Hh := toy_hash_api) demo_priv 7 demo_msg 1 (len []) 9000 (demo_smem 9000) with
  | (Ok _, s') => key s' = demo_priv | (Err _, _) => False
  end.
Proof.
  pose proof (ots_sign_then_verify (P := test_platform) (Hh := toy_hash_api) False no_backends demo_priv
    demo_lp demo_op 7 demo_msg [] (fill 0 9000) 1 9000 (demo_smem 9000) demo_key_ok
    (no_backends_sound _ _ _) demo_msg_ok ltac:(discriminate) ltac:(discriminate)
    ltac:(vm_compute; discriminate) demo_inv eq_refl) as H. cbv zeta in H.
  destruct (lmots_sign _ _ _ _ _ _ _) as [[u | e] s']; [| destruct H as [[] _]].
  destruct H as (C & sg & _ & _ & _ & _ & Hk & _). exact Hk.
Defined.

(** ** Errors of signing *)

Section SignErrors.
Context `{P : Platform} `{Hh : HashApi}.
Variable B : backends.

(** Fails with [e] and leaves the caller's memory as it was. *)
Definition sraises {A} (m : SM A) (e : lms_status_t) : Prop :=
  forall s, inv B (wld s) -> exists w', m s = (Err e, s {{ wld := w' }}) /\ inv B w'.

Definition sreturns {A} (m : SM A) (a : A) : Prop :=
  forall s, inv B (wld s) -> exists w', m s = (Ok a, s {{ wld := w' }}) /\ inv B w'.

Lemma sraises_world {A} (m : C A) e : raises B m e -> sraises (on_world m) e.
Proof.
  intros Hm s Hi. destruct (Hm (wld s) Hi) as (w' & E & Hi'). exists w'.
  unfold on_world. rewrite E. auto.
Qed.

Lemma sreturns_world {A} (m : C A) a : returns B m a -> sreturns (on_world m) a.
Proof.
  intros Hm s Hi. destruct (Hm (wld s) Hi) as (w' & E & Hi'). exists w'.
  unfold on_world. rewrite E. auto.
Qed.

Lemma sraises_fail {A} e : sraises (fail (A := A) e) e.
Proof. intros s Hi. exists (wld s). destruct s. auto. Qed.

Lemma sreturns_ret {A} (a : A) : sreturns (mret a) a.
Proof. intros s Hi. exists (wld s). destruct s. auto. Qed.

Lemma sraises_bind {A A'} (m : SM A) (f : A -> SM A') e : sraises m e -> sraises (m ≫= f) e.
Proof.
  intros Hm s Hi. destruct (Hm s Hi) as (w' & E & Hi'). exists w'.
  unfold mbind, M_bind. rewrite E. auto.
Qed.

Lemma sraises_bind_r {A A'} (m : SM A) (f : A -> SM A') a e :
  sreturns m a -> sraises (f a) e -> sraises (m ≫= f) e.
Proof.
  intros Hm Hf s Hi. destruct (Hm s Hi) as (w' & E & Hi').
  destruct (Hf (s {{ wld := w' }})) as (w2 & E2 & Hi2); [exact Hi' |]. exists w2.
  unfold mbind, M_bind. rewrite E, E2. auto.
Qed.

Lemma private_hash_alg_raises priv :
  matching_params (priv_lms_type priv) (priv_lmots_type priv) = None ->
  raises B (lms_get_private_hash_alg priv) LMS_ERR_INVALID.
Proof. intros Hn. apply raises_bind, get_matching_raises, Hn. Qed.
End SignErrors.

(** [lmots_sign] refuses a key whose types do not belong together as invalid
    and a destination that is [NULL] or too small as such, in every case
    before it writes a byte of the caller's buffer. *)
Theorem ots_sign_refuses `{P : Platform} `{Hh : HashApi} (B : backends) (priv : lms_private_key_t)
    (q base slen : Z) (m : cbuf) (sptr : ptr) :
  (matching_params (priv_lms_type priv) (priv_lmots_type priv) = None ->
     sraises B (lmots_sign priv q m sptr base slen) LMS_ERR_INVALID) /\
  (forall lp op, matching_params (priv_lms_type priv) (priv_lmots_type priv) = Some (lp, op) ->
     sptr = NULL \/ slen < ots_len op ->
     sraises B (lmots_sign priv q m sptr base slen) LMS_ERR_BUFFER_TOO_SMALL).
Proof.
  unfold lmots_sign. split.
  - intros Hn. destruct (lmots_params_of (priv_lmots_type priv)) as [op |] eqn:Hop.
    + eapply sraises_bind_r; [apply sreturns_world, returns_or_return, get_lmots_param_returns, Hop |].
      eapply sraises_bind, sraises_world, raises_or_return, private_hash_alg_raises, Hn.
    + eapply sraises_bind, sraises_world, raises_or_return, get_lmots_param_raises, Hop.
  - intros lp op Hpp Hbad. destruct (matching_params_wf _ _ _ _ Hpp) as (_ & Hwf & _ & Hop & Hal).
    eapply sraises_bind_r; [apply sreturns_world, returns_or_return, get_lmots_param_returns, Hop |].
    eapply sraises_bind_r;
      [eapply sreturns_world, returns_or_return, private_hash_alg_returns, Hpp |].
    rewrite bool_decide_true by (symmetry; exact Hal). eapply sraises_bind_r; [apply sreturns_ret |].
    apply sraises_bind. pose proof (op_p_range _ _ Hop) as Hpr.
    rewrite (op_n _ _ Hop), u32_small by lia. fold LMS_N.
    replace (_ || _) with true; [apply sraises_fail |]. symmetry. apply orb_true_iff.
    destruct Hbad as [-> | Hs]; [left; reflexivity | right; apply Z.ltb_lt; exact Hs].
Qed.

Lemma ots_sign_refuses_witness :
  exists w, lmots_sign (P := test_platform) (Hh := toy_hash_api) demo_priv 7 demo_msg 1 0 8515 (demo_smem 8516)
            = (Err LMS_ERR_BUFFER_TOO_SMALL, (demo_smem 8516) {{ wld := w }}) /\ inv no_backends w.
Proof.
  destruct (ots_sign_refuses (P := test_platform) (Hh := toy_hash_api) no_backends demo_priv 7 0 8515
    demo_msg 1) as [_ H].
  apply (H demo_lp demo_op eq_refl (or_intror eq_refl)), demo_inv.
Defined.

(** * The UART bridge *)

(** the coefficients that [lmots_sign_prepare] hands to the hardware signer
    are the Winternitz digits of the message under the randomizer it returns,
    and [lmots_public_from_signature_prepare] recomputes the same ones from
    that randomizer. *)
Theorem ots_prepare_agree `{P : Platform} `{Hh : HashApi} (F : Prop) (B : backends)
    (priv : lms_private_key_t) (lp : lms_param_t) (op : lmots_param_t) (q : Z) (m : cbuf) :
  key_ok priv lp op -> ots_backends_sound F (priv_I priv) (priv_seed priv) B -> msg_ok F m ->
  let alg := ots_p_hash_alg op in
  hoare (inv B) F (lmots_sign_prepare priv q m)
    (fun '(C, cs) =>
       randomizer_of priv B op q C /\
       (forall i, 0 <= i < ots_p_p op ->
          rd cs i = message_digits alg op (priv_I priv) q C (cbuf_data m) i) /\
       hoare (inv B) F
         (lmots_public_from_signature_prepare (priv_I priv) alg q (priv_lmots_type priv) m C)
         (fun cs' => forall i, 0 <= i < ots_p_p op -> rd cs' i = rd cs i)).
Proof.
  intros Hk HB Hm alg.
  eapply hoare_conseq; [apply (sign_prepare_ok F priv B HB lp op Hk q m Hm) |].
  intros [C cs] [HC Hcs]. split; [exact HC |]. split; [exact Hcs |].
  eapply hoare_conseq.
  - apply (prepare_verify_ok F _ _ B HB _ (key_I_len priv lp op Hk) _ op (key_ots priv lp op Hk)
             (key_alg _ _ _ Hk) (proj2 (key_ident priv lp op Hk)) q C m); [split; apply HC | exact Hm].
  - intros cs' Hcs' i Hi. rewrite Hcs', Hcs by exact Hi. reflexivity.
Qed.

Lemma ots_prepare_agree_witness :
  hoare (inv (P := test_platform) no_backends) False
    (lmots_sign_prepare (Hh := toy_hash_api) demo_priv 7 demo_msg)
    (fun '(C, cs) => len C = LMS_N).
Proof.
  pose proof (ots_prepare_agree (P := test_platform) (Hh := toy_hash_api) False no_backends demo_priv
    demo_lp demo_op 7 demo_msg demo_key_ok (no_backends_sound _ _ _) demo_msg_ok) as H.
  eapply hoare_conseq; [exact H |]. intros [C cs] [HC _]. apply HC.
Defined.
