(* ===== verification/LmsTheorems.v ===== *)
(** The properties of the Merkle layer and of the public interface (src/lms_tree.c,
    src/lms_sign.c, src/lms_verify.c, src/lms.c): refinement of the reference, the
    sign/verify round trip, the index discipline of the key as a transition
    system, errors, and serialisation. *)

From S2P Require Import Prelude Types HashApi Params Winternitz Spec LmOts LmOtsCorrect Tree Lms LmsCorrect VerifyCorrect Scheme OtsTheorems.

(** * Refinement *)

(** C30: [lms_tree_node] terminates and computes the node of the reference tree, for
    every node of every tree and every sound set of backends; the fuel of the
    model, one more than the greatest height, is never exhausted. *)
Theorem tree_node_refines `{P : Platform} `{Hh : HashApi} (F : Prop) (B : backends)
    (priv : lms_private_key_t) (lp : lms_param_t) (op : lmots_param_t) (k : nat) (r : Z) :
  key_ok priv lp op -> backends_sound F (priv_I priv) (priv_seed priv) B ->
  at_level (lms_p_height lp) (Z.of_nat k) r ->
  hoare (inv B) F (lms_tree_node priv r)
    (fun out => out = tree_spec (ots_p_hash_alg op) op (lms_p_height lp) (priv_I priv) (priv_seed priv) k r).
Proof. intros Hk HB Hl. exact (tree_node_ok F B priv HB lp op Hk k r Hl). Qed.

Lemma tree_node_refines_witness :
  hoare (inv (P := test_platform) no_backends) False (lms_tree_node (Hh := toy_hash_api) demo_priv 5)
    (fun out => out = tree_spec (Hh := toy_hash_api) LMS_HASH_SHAKE256 demo_op 5 (fill 0x61 16)
                        (fill 0x5e 32) 3 5).
Proof.
  apply (tree_node_refines (P := test_platform) (Hh := toy_hash_api) False no_backends demo_priv
    demo_lp demo_op 3 5 demo_key_ok (no_backends_sound _ _ _)).
  split; [split; discriminate | split; [discriminate | reflexivity]].
Defined.

(** Key generation from scratch: [lms_private_key_init] accepts exactly the
    type pairs of one hash, starts at index 0, and [lms_public_key_generate]
    publishes the types, the identifier and the root of the reference tree. *)
Theorem keygen_refines `{P : Platform} `{Hh : HashApi} (F : Prop) (B : backends)
    (t1 t2 : Z) (I_ seed : bytes) (p pub : ptr) :
  is_u32 t1 -> is_u32 t2 -> len I_ = LMS_I_LEN -> Forall is_byte I_ ->
  len seed = LMS_SEED_LEN -> Forall is_byte seed -> p <> NULL -> pub <> NULL ->
  let priv := mkPriv t1 t2 I_ seed 0 in
  match matching_params t1 t2 with
  | None => raises B (lms_private_key_init p t1 t2 (Some I_) (Some seed)) LMS_ERR_INVALID
  | Some (lp, op) =>
      returns B (lms_private_key_init p t1 t2 (Some I_) (Some seed)) priv /\
      (available (ots_p_hash_alg op) -> backends_sound F I_ seed B ->
       key_ok priv lp op /\
       hoare (inv B) F (lms_public_key_generate (Some priv) pub)
         (fun pk => pk = pub_of priv lp op))
  end.
Proof.
  intros H1 H2 HI HIb Hs Hsb Hp Hpub priv. unfold lms_private_key_init.
  assert (Hn : (p =? NULL) = false) by (apply Z.eqb_neq, Hp). rewrite Hn.
  destruct (matching_params t1 t2) as [[lp op] |] eqn:E.
  2: { eapply raises_bind_r; [apply returns_ret |]. apply raises_bind, get_matching_raises, E. }
  split.
  - eapply returns_bind; [apply returns_ret |].
    eapply returns_bind; [apply get_matching_returns, E | apply returns_ret].
  - intros Ha HB. assert (Hk : key_ok priv lp op).
    { split; [| exact E | exact Ha]. split; try assumption. split; [discriminate | reflexivity]. }
    split; [exact Hk |]. exact (public_key_generate_ok F B priv HB lp op Hk pub Hpub).
Qed.

Lemma keygen_refines_witness :
  returns (P := test_platform) no_backends
    (lms_private_key_init 1 0x15 0x11 (Some (fill 0x61 16)) (Some (fill 0x5e 32)))
    (mkPriv 0x15 0x11 (fill 0x61 16) (fill 0x5e 32) 0).
Proof.
  apply (keygen_refines (P := test_platform) (Hh := toy_hash_api) False no_backends 0x15 0x11
    (fill 0x61 16) (fill 0x5e 32) 1 1 ltac:(u32_lit) ltac:(u32_lit) eq_refl
    (fill_bytes 16 0x61 ltac:(u32_lit)) eq_refl (fill_bytes 32 0x5e ltac:(u32_lit)));
    discriminate.
Defined.

(** C4: [lms_verify] decides RFC 8554 verification: it accepts only bytes that the
    reference verifier accepts, whatever backends fail, and without failing
    backends it accepts all of them; a refusal is always [LMS_ERR_VERIFY]. *)
Theorem verify_refines `{P : Platform} `{Hh : HashApi} (F : Prop) (I0 seed0 : bytes) (B : backends)
    (pub : lms_public_key_t) (lp : lms_param_t) (op : lmots_param_t) (m : cbuf) (sg : bytes) :
  backends_sound F I0 seed0 B -> pub_ok pub lp op -> Forall is_byte sg -> msg_ok F m ->
  hoare (inv B) (F \/ rfc_accepts pub (cbuf_data m) sg = false)
    (lms_verify (Some pub) m (Buf sg)) (fun _ => rfc_accepts pub (cbuf_data m) sg = true) /\
  (forall w e w', lms_verify (Some pub) m (Buf sg) w = (Err e, w') -> e = LMS_ERR_VERIFY).
Proof.
  intros HB Hp Hb Hm. split; [exact (verify_ok F I0 seed0 B HB pub lp op Hp m sg Hb Hm) |].
  intros w e w'. unfold lms_verify. cbn [cbuf_null orb]. rewrite (msg_readable _ _ Hm).
  cbn [guard_err]. unfold mbind, M_bind. cbn [mret M_ret]. unfold or_return.
  destruct (lms_root_from_signature _ _ _ w) as [[root | e'] w1]; [| intros [= <- _]; reflexivity].
  destruct (_ =? 0); [discriminate | intros [= <- _]; reflexivity].
Qed.

Lemma verify_refines_witness :
  hoare (inv (P := test_platform) no_backends) True
    (lms_verify (Hh := toy_hash_api) (Some (pub_of (Hh := toy_hash_api) demo_priv demo_lp demo_op))
       demo_msg (Buf (fill 0 100)))
    (fun _ => False).
Proof.
  destruct (verify_refines (P := test_platform) (Hh := toy_hash_api) False [] [] no_backends
    (pub_of (Hh := toy_hash_api) demo_priv demo_lp demo_op) demo_lp demo_op demo_msg (fill 0 100)
    (no_backends_sound _ _ _) (pub_of_ok (Hh := toy_hash_api) _ _ _ demo_key_ok)
    (fill_bytes 100 0 ltac:(u32_lit)) demo_msg_ok) as [H _].
  eapply hoare_weaken; [eapply hoare_conseq; [exact H |] | intros _; exact I].
  intros u. discriminate.
Defined.

(** * Signing *)

Section SignTheorems.
Context `{P : Platform} `{Hh : HashApi}.
Variable F : Prop.
Variable B : backends.
Variable priv : lms_private_key_t.
Variable lp : lms_param_t.
Variable op : lmots_param_t.
Hypothesis Hk : key_ok priv lp op.
Hypothesis HB : backends_sound F (priv_I priv) (priv_seed priv) B.
Variable m : cbuf.
Hypothesis Hm : msg_ok F m.
Abbreviation q := (priv_q priv).
Abbreviation h := (lms_p_height lp).

(** What a run of [lms_sign] leaves in memory. *)
Definition signed (pre rest : bytes) (wptr : ptr) (s s' : smem) (sg : bytes) : Prop :=
  exists C, randomizer_of priv B op q C /\ sg = signature_of priv lp op q C (cbuf_data m) /\
    sig s' = pre ++ sg ++ from (sig_len lp op) rest /\
    key s' = priv {{ priv_q := q + 1 }} /\
    sig_written s' = (if wptr =? NULL then sig_written s else Some (sig_len lp op)).

Lemma sign_run (pptr sptr wptr : ptr) (slen : Z) (pre rest : bytes) (s : smem) :
  pptr <> NULL -> sptr <> NULL -> sig_len lp op <= slen -> sig_len lp op <= len rest ->
  q < 2 ^ h -> inv B (wld s) -> sig s = pre ++ rest -> key s = priv ->
  match lms_sign pptr m sptr (len pre) slen wptr s with
  | (Ok _, s') => inv B (wld s') /\ exists sg, signed pre rest wptr s s' sg
  | (Err _, s') => F /\ inv B (wld s') /\ key s' = priv /\ sig_written s' = sig_written s /\
                   length (sig s') = length (sig s)
  end.
Proof.
  intros Hp Hsp Hsl Hr Hq Hi Hs Hke.
  pose proof (lms_do_sign_ok F priv B HB lp op Hk m pre rest pptr sptr wptr slen (sig_written s)
                Hm Hp Hsp Hsl Hr Hq s Hi Hs) as H.
  unfold kw in H. rewrite Hke in H. specialize (H eq_refl). unfold lms_sign.
  destruct (lms_do_sign _ _ _ _ _ _ s) as [[[] | e] s'].
  - destruct H as ((C & HC & Hsig) & Hi' & [= Hk' Hw']). split; [exact Hi' |].
    eexists. exists C. split; [exact HC |]. split; [reflexivity |]. split; [exact Hsig |].
    split; assumption.
  - destruct H as (HF & Hi' & [= Hk' Hw'] & Hl). rewrite Hs. auto.
Qed.
End SignTheorems.

(** C6: [lms_sign] with an index left writes the RFC 8554 signature of that index
    at the caller's address and nowhere else, reports its length and advances
    the index by one; when it fails, which takes a failing backend or heap, key and
    length report are unchanged. *)
Theorem sign_refines `{P : Platform} `{Hh : HashApi} (F : Prop) (B : backends)
    (priv : lms_private_key_t) (lp : lms_param_t) (op : lmots_param_t) (m : cbuf)
    (pptr sptr wptr : ptr) (slen : Z) (pre rest : bytes) (s : smem) :
  key_ok priv lp op -> backends_sound F (priv_I priv) (priv_seed priv) B -> msg_ok F m ->
  pptr <> NULL -> sptr <> NULL -> sig_len lp op <= slen -> sig_len lp op <= len rest ->
  priv_q priv < 2 ^ lms_p_height lp ->
  inv B (wld s) -> sig s = pre ++ rest -> key s = priv ->
  match lms_sign pptr m sptr (len pre) slen wptr s with
  | (Ok _, s') => inv B (wld s') /\ exists sg, signed B priv lp op m pre rest wptr s s' sg
  | (Err _, s') => F /\ inv B (wld s') /\ key s' = priv /\ sig_written s' = sig_written s /\
                   length (sig s') = length (sig s)
  end.
Proof. intros Hk HB Hm. exact (sign_run F B priv lp op Hk HB m Hm pptr sptr wptr slen pre rest s). Qed.

Lemma sign_refines_witness :
  match lms_sign (P := test_platform) (Hh := toy_hash_api) 1 demo_msg 1 (len []) 9000 1 (demo_smem 9000) with
  | (Ok _, s') => priv_q (key s') = 4 /\ sig_written s' = Some 8684
  | (Err _, _) => False
  end.
Proof.
  pose proof (sign_refines (P := test_platform) (Hh := toy_hash_api) False no_backends demo_priv
    demo_lp demo_op demo_msg 1 1 1 9000 [] (fill 0 9000) (demo_smem 9000) demo_key_ok
    (no_backends_sound _ _ _) demo_msg_ok ltac:(discriminate) ltac:(discriminate) ltac:(discriminate)
    ltac:(vm_compute; discriminate) eq_refl demo_inv eq_refl eq_refl) as H.
  destruct (lms_sign _ _ _ _ _ _ _) as [[u | e] s']; [| destruct H as [[] _]].
  destruct H as (_ & sg & C & _ & _ & _ & -> & ->). split; reflexivity.
Defined.

(** C2: the round trip of the library: a signature that [lms_sign] wrote is
    accepted by [lms_verify] under the key [lms_public_key_generate] computes,
    in every state and with every sound set of backends (a verification
    backend may still fail). *)
Theorem sign_verify_roundtrip `{P : Platform} `{Hh : HashApi} (F : Prop) (B : backends)
    (priv : lms_private_key_t) (lp : lms_param_t) (op : lmots_param_t) (m : cbuf)
    (pptr sptr wptr pubptr : ptr) (slen : Z) (pre rest : bytes) (s : smem) :
  key_ok priv lp op -> backends_sound F (priv_I priv) (priv_seed priv) B -> msg_ok F m ->
  pptr <> NULL -> sptr <> NULL -> pubptr <> NULL ->
  sig_len lp op <= slen -> sig_len lp op <= len rest ->
  priv_q priv < 2 ^ lms_p_height lp ->
  inv B (wld s) -> sig s = pre ++ rest -> key s = priv ->
  match lms_sign pptr m sptr (len pre) slen wptr s with
  | (Ok _, s') =>
      let sg := slice (len pre) (sig_len lp op) (sig s') in
      hoare (inv B) F
        (pub ← lms_public_key_generate (Some priv) pubptr; lms_verify (Some pub) m (Buf sg))
        (fun _ => True)
  | (Err _, _) => F
  end.
Proof.
  intros Hk HB Hm Hp Hsp Hpub Hsl Hr Hq Hi Hs Hke.
  pose proof (sign_run F B priv lp op Hk HB m Hm pptr sptr wptr slen pre rest s
                Hp Hsp Hsl Hr Hq Hi Hs Hke) as H.
  destruct (lms_sign _ _ _ _ _ _ s) as [[[] | e] s']; [| apply H].
  destruct H as (_ & sg & C & HC & Hsg & Hsig & _). cbv zeta. rewrite Hsig.
  pose proof (key_wf _ _ _ Hk) as Hw. pose proof (wf_priv_q _ Hw) as Hq0. unfold is_u32 in Hq0.
  destruct HC as (HCl & HCb & _).
  assert (Hl : len sg = sig_len lp op)
    by (rewrite Hsg; apply (signature_len_ok priv lp op Hk), HCl).
  rewrite slice_exact by (reflexivity || (symmetry; exact Hl)).
  eapply hoare_bind; [apply (public_key_generate_ok F B priv HB lp op Hk pubptr Hpub) |].
  intros pub ->. fold (pub_of priv lp op).
  assert (Hacc : rfc_accepts (pub_of priv lp op) (cbuf_data m) sg = true)
    by (rewrite Hsg; apply (accepts_own_signature priv lp op Hk); [lia | exact HCl]).
  eapply hoare_weaken; [eapply hoare_conseq |].
  - apply (verify_ok F _ _ B HB (pub_of priv lp op) lp op (pub_of_ok priv lp op Hk) m sg); [| exact Hm].
    rewrite Hsg. apply (signature_bytes priv lp op Hk), HCb.
  - intros _ _. exact I.
  - intros [HF | Hrej]; [exact HF | congruence].
Qed.

Lemma sign_verify_roundtrip_witness :
  match lms_sign (P := test_platform) (Hh := toy_hash_api) 1 demo_msg 1 (len []) 9000 1 (demo_smem 9000) with
  | (Ok _, s') => True | (Err _, _) => False
  end.
Proof.
  pose proof (sign_verify_roundtrip (P := test_platform) (Hh := toy_hash_api) False no_backends demo_priv
    demo_lp demo_op demo_msg 1 1 1 1 9000 [] (fill 0 9000) (demo_smem 9000) demo_key_ok
    (no_backends_sound _ _ _) demo_msg_ok ltac:(discriminate) ltac:(discriminate) ltac:(discriminate)
    ltac:(discriminate) ltac:(vm_compute; discriminate) eq_refl demo_inv eq_refl eq_refl) as H.
  destruct (lms_sign _ _ _ _ _ _ _) as [[u | e] s']; [exact I | exact H].
Defined.

(** ** Refusals *)

Section Refusals.
Context `{P : Platform} `{Hh : HashApi}.
Variable B : backends.

(** [sraises] for the memory that holds the key [k]. *)
Definition refuses {A} (k : lms_private_key_t) (m : SM A) (e : lms_status_t) : Prop :=
  forall s, inv B (wld s) -> key s = k -> exists w', m s = (Err e, s {{ wld := w' }}) /\ inv B w'.

Lemma refuses_sraises {A} k (m : SM A) e : sraises B m e -> refuses k m e.
Proof. intros H s Hi _. exact (H s Hi). Qed.

Lemma refuses_get_key {A} k (f : lms_private_key_t -> SM A) e :
  refuses k (f k) e -> refuses k (get_key ≫= f) e.
Proof. intros H s Hi Hke. unfold mbind, M_bind, get_key. rewrite Hke. exact (H s Hi Hke). Qed.

Lemma refuses_guard {A} k c e0 (f : unit -> SM A) e :
  c = false -> refuses k (f tt) e -> refuses k (guard_err c e0 ≫= f) e.
Proof. intros -> H s Hi Hke. exact (H s Hi Hke). Qed.

Lemma sraises_guard {A} c e (f : unit -> SM A) : c = true -> sraises B (guard_err c e ≫= f) e.
Proof. intros ->. apply sraises_bind, sraises_fail. Qed.

(** The checks before the first write, for a key whose types match. *)
Lemma sign_checks_refuse k lp op m pptr sptr base slen wptr e :
  matching_params (priv_lms_type k) (priv_lmots_type k) = Some (lp, op) ->
  pptr <> NULL -> sptr <> NULL -> cbuf_null m && negb (cbuf_len m =? 0) = false ->
  (slen < sig_len lp op /\ e = LMS_ERR_BUFFER_TOO_SMALL \/
   sig_len lp op <= slen /\ 2 ^ lms_p_height lp <= priv_q k /\ e = LMS_ERR_EXHAUSTED) ->
  refuses k (lms_sign pptr m sptr base slen wptr) e.
Proof.
  intros Hpp Hp Hs Hm Hbad. unfold lms_sign, lms_do_sign.
  destruct (matching_params_wf _ _ _ _ Hpp) as (Hwf & _ & Hlp & Hop & _).
  apply refuses_guard; [| apply refuses_get_key, refuses_sraises].
  { rewrite Hm, orb_false_r. apply orb_false_iff. split; apply Z.eqb_neq; assumption. }
  apply sraises_bind. unfold sign_checks.
  eapply sraises_bind_r; [apply sreturns_world, returns_or_return, get_lms_param_returns, Hlp |].
  eapply sraises_bind_r; [apply sreturns_world, returns_or_return, get_lmots_param_returns, Hop |].
  eapply sraises_bind_r; [apply sreturns_world, signature_len_returns |].
  replace (signature_len_spec _ _) with (sig_len lp op)
    by (unfold signature_len_spec; rewrite Hpp; reflexivity).
  rewrite leaf_base_eq by exact Hwf.
  destruct Hbad as [[Hb ->] | (Hb & Hq & ->)].
  - apply sraises_guard, Z.ltb_lt, Hb.
  - eapply sraises_bind_r; [rewrite (proj2 (Z.ltb_ge _ _)) by exact Hb; apply sreturns_ret |].
    apply sraises_guard, Z.leb_le, Hq.
Qed.
End Refusals.

(** C23: the refusals of [lms_sign] that come before the first write: a [NULL] argument
    or an unreadable message, unknown types, a buffer that is too small and an
    exhausted key.  The memory of the caller, key and index included, stays as it
    was, so a signature can never be obtained from an exhausted key. *)
Theorem sign_refuses `{P : Platform} `{Hh : HashApi} (B : backends) (k : lms_private_key_t)
    (m : cbuf) (pptr sptr wptr : ptr) (base slen : Z) :
  (pptr = NULL \/ sptr = NULL \/ (exists n, m = NullBuf n /\ n <> 0) ->
     refuses B k (lms_sign pptr m sptr base slen wptr) LMS_ERR_INVALID) /\
  (pptr <> NULL -> sptr <> NULL -> cbuf_null m && negb (cbuf_len m =? 0) = false ->
   (lms_params_of (priv_lms_type k) = None \/ lmots_params_of (priv_lmots_type k) = None ->
      refuses B k (lms_sign pptr m sptr base slen wptr) LMS_ERR_INVALID) /\
   forall lp op, matching_params (priv_lms_type k) (priv_lmots_type k) = Some (lp, op) ->
     (slen < sig_len lp op ->
        refuses B k (lms_sign pptr m sptr base slen wptr) LMS_ERR_BUFFER_TOO_SMALL) /\
     (sig_len lp op <= slen -> 2 ^ lms_p_height lp <= priv_q k ->
        refuses B k (lms_sign pptr m sptr base slen wptr) LMS_ERR_EXHAUSTED)).
Proof.
  split; [| intros Hp Hs Hm; split].
  - intros Hbad. apply refuses_sraises. unfold lms_sign, lms_do_sign. apply sraises_guard.
    rewrite !orb_true_iff, !Z.eqb_eq. destruct Hbad as [-> | [-> | (n & -> & Hn)]]; [tauto | tauto |].
    right. cbn. apply negb_true_iff, Z.eqb_neq, Hn.
  - intros Ht. unfold lms_sign, lms_do_sign.
    apply refuses_guard; [| apply refuses_get_key, refuses_sraises].
    { rewrite Hm, orb_false_r. apply orb_false_iff. split; apply Z.eqb_neq; assumption. }
    apply sraises_bind. unfold sign_checks.
    destruct (lms_params_of (priv_lms_type k)) as [lp |] eqn:Hlp.
    + eapply sraises_bind_r; [apply sreturns_world, returns_or_return, get_lms_param_returns, Hlp |].
      destruct Ht as [| Ht]; [discriminate |].
      eapply sraises_bind, sraises_world, raises_or_return, get_lmots_param_raises, Ht.
    + eapply sraises_bind, sraises_world, raises_or_return, get_lms_param_raises, Hlp.
  - intros lp op Hpp. split; [intros Hb | intros Hb Hq]; eapply sign_checks_refuse; eauto.
Qed.

Lemma sign_refuses_witness :
  refuses (P := test_platform) no_backends (demo_priv {{ priv_q := 32 }})
    (lms_sign (Hh := toy_hash_api) 1 demo_msg 1 0 9000 1) LMS_ERR_EXHAUSTED.
Proof.
  destruct (sign_refuses (P := test_platform) (Hh := toy_hash_api) no_backends
    (demo_priv {{ priv_q := 32 }}) demo_msg 1 1 1 0 9000) as [_ H].
  destruct H as [_ H]; [discriminate | discriminate | reflexivity |].
  apply (H demo_lp demo_op eq_refl); discriminate.
Defined.

(** * The index discipline *)

Section Discipline.
Context `{P : Platform} `{Hh : HashApi}.

(** No step but the last touches the key. *)
Definition keeps_key {A} (m : SM A) : Prop := forall s, key (snd (m s)) = key s.

Lemma keeps_ret {A} (a : A) : keeps_key (mret a).
Proof. intros s. reflexivity. Qed.

Lemma keeps_fail {A} e : keeps_key (fail (A := A) e).
Proof. intros s. reflexivity. Qed.

Lemma keeps_guard c e : keeps_key (guard_err c e).
Proof. destruct c; [apply keeps_fail | apply keeps_ret]. Qed.

Lemma keeps_bind {A A'} (m : SM A) (f : A -> SM A') :
  keeps_key m -> (forall a, keeps_key (f a)) -> keeps_key (m ≫= f).
Proof.
  intros Hm Hf s. specialize (Hm s). unfold mbind, M_bind.
  destruct (m s) as [[a | e] s']; [rewrite Hf; exact Hm | exact Hm].
Qed.

Lemma keeps_world {A} (m : C A) : keeps_key (on_world m).
Proof. intros s. unfold on_world. destruct (m (wld s)) as [r w]. destruct s. reflexivity. Qed.

Lemma keeps_write off src : keeps_key (write off src).
Proof. intros s. destruct s. reflexivity. Qed.

Lemma keeps_read off n : keeps_key (read off n).
Proof. intros s. reflexivity. Qed.

Lemma keeps_or_return {A} e (m : SM A) : keeps_key m -> keeps_key (or_return e m).
Proof.
  intros Hm s. specialize (Hm s). unfold or_return. destruct (m s) as [[a | e'] s']; exact Hm.
Qed.

Lemma keeps_loop {A} n i (body : Z -> A -> SM A) a :
  (forall i a, keeps_key (body i a)) -> keeps_key (loopM n i body a).
Proof.
  intros Hb. revert i a. induction n as [| n IH]; intros i a; [apply keeps_ret |].
  cbn [loopM]. apply keeps_bind; [apply Hb | intros a'; apply IH].
Qed.

Create HintDb keeps.
#[local] Hint Resolve keeps_ret keeps_fail keeps_guard keeps_world keeps_write keeps_read
  keeps_or_return : keeps.

(** Follows the structure of a computation. *)
Ltac keeps :=
  repeat match goal with
  | |- keeps_key (match ?x with _ => _ end) => destruct x
  | |- keeps_key (_ ≫= _) => apply keeps_bind; [| intros ?]
  | |- keeps_key (loopM _ _ _ _) => apply keeps_loop; intros ? ?
  | |- _ => solve [auto with keeps]
  end.

Lemma lmots_sign_keeps priv q m sptr base slen : keeps_key (lmots_sign priv q m sptr base slen).
Proof. unfold lmots_sign. keeps. Qed.

Lemma write_auth_path_keeps k lp q path : keeps_key (write_auth_path k lp q path).
Proof. unfold write_auth_path. keeps. Qed.

#[local] Hint Resolve lmots_sign_keeps write_auth_path_keeps : keeps.

Lemma keeps_get_key : keeps_key get_key.
Proof. intros s. reflexivity. Qed.
#[local] Hint Resolve keeps_get_key : keeps.

Lemma sign_up_to_path_keeps k op m sptr base : keeps_key (sign_up_to_path k op m sptr base).
Proof. unfold sign_up_to_path. keeps. Qed.
#[local] Hint Resolve sign_up_to_path_keeps : keeps.

(** A computation that changes the key [k] to [k'] when it succeeds, which needs
    [Q], and leaves it otherwise. *)
Definition commits {A} (k k' : lms_private_key_t) (Q : Prop) (m : SM A) : Prop :=
  forall s, key s = k ->
    match m s with (Ok _, s') => key s' = k' /\ Q | (Err _, s') => key s' = k end.

Lemma commits_bind {A A'} k k' Q (m : SM A) (f : A -> SM A') :
  keeps_key m -> (forall a, commits k k' Q (f a)) -> commits k k' Q (m ≫= f).
Proof.
  intros Hm Hf s Hs. specialize (Hm s). unfold mbind, M_bind.
  destruct (m s) as [[a | e] s']; [apply Hf; cbn in Hm; congruence | cbn in Hm; congruence].
Qed.

Lemma commits_guard {A} k k' Q c e (f : unit -> SM A) :
  (c = false -> commits k k' Q (f tt)) -> commits k k' Q (guard_err c e ≫= f).
Proof.
  intros H s Hs. destruct c; [exact Hs |]. exact (H eq_refl s Hs).
Qed.

Lemma bind_assoc {A A1 A2} (m : SM A) (f : A -> SM A1) (g : A1 -> SM A2) s :
  ((m ≫= f) ≫= g) s = (m ≫= fun a => f a ≫= g) s.
Proof. unfold mbind, M_bind. destruct (m s) as [[a | e] s']; reflexivity. Qed.

Lemma commits_assoc {A A1 A2} k k' Q (m : SM A) (f : A -> SM A1) (g : A1 -> SM A2) :
  commits k k' Q (m ≫= fun a => f a ≫= g) -> commits k k' Q ((m ≫= f) ≫= g).
Proof. intros H s Hs. rewrite bind_assoc. exact (H s Hs). Qed.

(** After the key is read and the heights are known. *)
Lemma sign_tail_commits k lp (m : SM unit) (f : lms_param_t -> SM unit) s :
  m s = (on_world (or_return lp (lms_get_lms_param (priv_lms_type k))) ≫= f) s ->
  key s = k -> caches_ok (wld s) ->
  (forall lp, lms_params_of (priv_lms_type k) = Some lp ->
     commits k (k {{ priv_q := priv_q k + 1 }}) (priv_q k < 2 ^ lms_p_height lp) (f lp)) ->
  match m s with
  | (Ok _, s') =>
      key s' = k {{ priv_q := priv_q k + 1 }} /\
      exists lp, lms_params_of (priv_lms_type k) = Some lp /\ priv_q k < 2 ^ lms_p_height lp
  | (Err _, s') => key s' = k
  end.
Proof.
  intros -> Hs Hc Hf. pose proof (lms_get_lms_param_run (wld s) (priv_lms_type k) Hc) as Hr.
  unfold mbind, M_bind, on_world, or_return.
  destruct (lms_params_of (priv_lms_type k)) as [lp0 |] eqn:Hl; [| rewrite Hr; destruct s; exact Hs].
  destruct Hr as (c & -> & _). specialize (Hf lp0 eq_refl).
  specialize (Hf (s {{ wld := (wld s) {{ s_lms_cache := c }} }})).
  destruct (f lp0 _) as [[a | e] s']; [| apply Hf; destruct s; exact Hs].
  destruct Hf as [H1 H2]; [destruct s; exact Hs |]. split; [exact H1 | exists lp0; auto].
Qed.

(** One call from any state: a failure leaves the key, a success takes the index
    the key held, a leaf of its tree, to its successor. *)
Lemma lms_sign_index m pptr sptr base slen wptr s :
  caches_ok (wld s) -> is_u32 (priv_q (key s)) ->
  match lms_sign pptr m sptr base slen wptr s with
  | (Ok _, s') =>
      key s' = (key s) {{ priv_q := priv_q (key s) + 1 }} /\
      exists lp, lms_params_of (priv_lms_type (key s)) = Some lp /\
                 priv_q (key s) < 2 ^ lms_p_height lp
  | (Err _, s') => key s' = key s
  end.
Proof.
  intros Hc Hq. unfold lms_sign, lms_do_sign.
  destruct (_ || _); [reflexivity |].
  change (mret () ≫= ?f) with (f ()). cbv beta.
  change ((get_key ≫= ?f) s) with (f (key s) s). cbv beta.
  eapply sign_tail_commits; [apply bind_assoc | reflexivity | exact Hc |]. set (k := key s) in *. clearbody k.
  intros lp Hl. destruct (lms_params_of_wf _ _ Hl) as [Hwf _].
  pose proof (lms_height_range lp Hwf) as Hh0.
  assert (H25 : 2 ^ lms_p_height lp <= 2 ^ 25) by (apply Z.pow_le_mono_r; lia).
  do 2 (apply commits_assoc, commits_bind; [keeps | intros ?]).
  apply commits_assoc, commits_guard. intros _. apply commits_assoc, commits_guard.
  rewrite leaf_base_eq by exact Hwf. intros Hlt. apply Z.leb_gt in Hlt.
  unfold is_u32 in Hq. apply commits_bind; [keeps | intros [[lp' op'] needed]].
  do 2 (apply commits_bind; [keeps | intros ?]).
  intros s' _. cbn -[u32]. rewrite u32_small by lia. auto.
Qed.
End Discipline.

(** Histories of a key: calls of [lms_sign] from arbitrary memories that hold it,
    other uses of the library in between; the list collects the indices of the
    calls that succeeded. *)
Inductive sign_trace `{P : Platform} `{Hh : HashApi}
  : lms_private_key_t -> list Z -> lms_private_key_t -> Prop :=
| trace_nil k : sign_trace k [] k
| trace_signed m pptr sptr base slen wptr s s' qs k' :
    caches_ok (wld s) -> lms_sign pptr m sptr base slen wptr s = (Ok tt, s') ->
    sign_trace (key s') qs k' -> sign_trace (key s) (priv_q (key s) :: qs) k'
| trace_failed m pptr sptr base slen wptr s s' e qs k' :
    caches_ok (wld s) -> lms_sign pptr m sptr base slen wptr s = (Err e, s') ->
    sign_trace (key s') qs k' -> sign_trace (key s) qs k'.

(** C9: over any history of a key, with any backends, the successful signatures use
    consecutive indices, so no index twice, all of them leaves of the key's tree;
    the key ends at the next index and is otherwise unchanged. *)
Theorem index_discipline `{P : Platform} `{Hh : HashApi} (k k' : lms_private_key_t) (qs : list Z) :
  is_u32 (priv_q k) -> sign_trace k qs k' ->
  qs = seqZ (priv_q k) (Z.of_nat (length qs)) /\ NoDup qs /\
  k' = k {{ priv_q := priv_q k + Z.of_nat (length qs) }} /\
  forall q, In q qs -> exists lp, lms_params_of (priv_lms_type k) = Some lp /\ q < 2 ^ lms_p_height lp.
Proof.
  intros Hq Ht.
  assert (H : qs = seqZ (priv_q k) (Z.of_nat (length qs)) /\
    k' = k {{ priv_q := priv_q k + Z.of_nat (length qs) }} /\
    forall q, In q qs -> exists lp, lms_params_of (priv_lms_type k) = Some lp /\ q < 2 ^ lms_p_height lp).
  { induction Ht as [k | m pptr sptr base slen wptr s s' qs k' Hc Hs Ht IH
                     | m pptr sptr base slen wptr s s' e qs k' Hc Hs Ht IH].
    - split; [reflexivity |]. split; [| intros q []]. destruct k. cbn. f_equal. lia.
    - pose proof (lms_sign_index m pptr sptr base slen wptr s Hc Hq) as Hi. rewrite Hs in Hi.
      destruct Hi as (Hk' & lp & Hl & Hlt). destruct (lms_params_of_wf _ _ Hl) as [Hwf _].
      pose proof (lms_height_range lp Hwf).
      assert (H25 : 2 ^ lms_p_height lp <= 2 ^ 25) by (apply Z.pow_le_mono_r; lia).
      rewrite Hk' in IH. unfold is_u32 in *. destruct IH as (I1 & I2 & I3); [cbn; lia |].
      cbn [priv_q] in I1. split; [| split].
      + cbn [length]. rewrite seqZ_cons by lia. rewrite I1 at 1. cbn. do 2 f_equal; lia.
      + rewrite I2. destruct (key s). cbn -[Z.of_nat]. f_equal. lia.
      + intros q [<- | Hin]; [exists lp; auto | exact (I3 q Hin)].
    - pose proof (lms_sign_index m pptr sptr base slen wptr s Hc Hq) as Hi. rewrite Hs in Hi.
      rewrite Hi in *. apply IH, Hq. }
  destruct H as (H1 & H2 & H3). split; [exact H1 |]. split; [| split; assumption].
  rewrite H1. apply NoDup_seqZ.
Qed.

Lemma demo_trace :
  exists k', sign_trace (P := test_platform) (Hh := toy_hash_api) demo_priv [3] k'.
Proof.
  pose proof (sign_run (P := test_platform) (Hh := toy_hash_api) False no_backends demo_priv demo_lp
    demo_op demo_key_ok (no_backends_sound _ _ _) demo_msg demo_msg_ok 1 1 1 9000 [] (fill 0 9000)
    (demo_smem 9000) ltac:(discriminate) ltac:(discriminate) ltac:(discriminate)
    ltac:(vm_compute; discriminate) eq_refl demo_inv eq_refl eq_refl) as H.
  destruct (lms_sign _ _ _ _ _ _ _) as [[[] | e] s'] eqn:E; [| destruct H as [[] _]].
  exists (key s'). refine (trace_signed _ _ _ _ _ _ _ _ _ _ _ E (trace_nil _)).
  split; discriminate.
Qed.

Lemma index_discipline_witness :
  exists k', sign_trace (P := test_platform) (Hh := toy_hash_api) demo_priv [3] k' /\
             k' = demo_priv {{ priv_q := 4 }}.
Proof.
  destruct demo_trace as [k' Ht]. exists k'. split; [exact Ht |].
  apply (index_discipline (P := test_platform) (Hh := toy_hash_api) demo_priv k' [3]); [| exact Ht].
  split; [discriminate | reflexivity].
Defined.

(** * A failure after the one-time signature *)

Section FailedPath.
Context `{P : Platform} `{Hh : HashApi}.
Variable B : backends.
Variable k : lms_private_key_t.

(** From the buffer [sg] and the key [k], [m] fails with [e], keeps the key and
    leaves a buffer of [Q]. *)
Definition fails_with {A} (m : SM A) (sg : bytes) (e : lms_status_t) (Q : bytes -> Prop) : Prop :=
  forall s, inv B (wld s) -> sig s = sg -> key s = k ->
    exists s', m s = (Err e, s') /\ Q (sig s') /\ key s' = k.

Lemma fails_bind {A A'} (m : SM A) (f : A -> SM A') sg e Q R :
  shoare False B m sg Q -> (forall a sg', Q a sg' -> fails_with (f a) sg' e R) ->
  fails_with (m ≫= f) sg e R.
Proof.
  intros Hm Hf s Hi Hs Hke. specialize (Hm s Hi Hs). unfold mbind, M_bind.
  destruct (m s) as [[a | e'] s1]; [| destruct Hm as [[] _]].
  destruct Hm as (HQ & Hi1 & Hk1 & _). apply (Hf a _ HQ); [exact Hi1 | reflexivity | congruence].
Qed.

Lemma fails_bind_l {A A'} (m : SM A) (f : A -> SM A') sg e Q :
  fails_with m sg e Q -> fails_with (m ≫= f) sg e Q.
Proof.
  intros Hm s Hi Hs Hke. destruct (Hm s Hi Hs Hke) as (s' & E & H). exists s'.
  unfold mbind, M_bind. rewrite E. auto.
Qed.

Lemma fails_get_key {A} (f : lms_private_key_t -> SM A) sg e Q :
  fails_with (f k) sg e Q -> fails_with (get_key ≫= f) sg e Q.
Proof. intros H s Hi Hs Hke. unfold mbind, M_bind, get_key. rewrite Hke. exact (H s Hi Hs Hke). Qed.

Lemma fails_path lp q path sg f :
  slot_fn (auth_path_backend B) = Some f ->
  (forall c k q d, exists e d', f c k q d = (Err e, d')) ->
  fails_with (write_auth_path k lp q path) sg LMS_ERR_INVALID (fun sg' => sg' = sg).
Proof.
  intros Ef Hf. unfold write_auth_path.
  eapply fails_bind; [apply shoare_world, ok_returns, (registered_returns B auth_path_backend) |].
  intros b ? [-> ->]. rewrite Ef. apply fails_bind_l. intros [w sg0 k0 wr] [Hc Hb] Hs Hke.
  cbn in Hc, Hb, Hs, Hke. subst k0 sg0. rewrite <- Hb in Ef. unfold on_world, or_return, call_backend. cbn [wld]. rewrite Ef.
  destruct (Hf (slot_context (auth_path_backend (bk w))) k q (device w)) as (e & d' & ->).
  eexists. split; [reflexivity |]. split; reflexivity.
Qed.
End FailedPath.

(** C28: what a failing path backend leaves behind: [lms_sign] reports
    [LMS_ERR_INVALID] and does not advance the index, yet the caller's buffer
    holds the complete one-time signature of the message at that index.  The next
    call signs a second message with the same one-time key. *)
Theorem failed_path_releases_signature `{P : Platform} `{Hh : HashApi} (B : backends)
    (priv : lms_private_key_t) (lp : lms_param_t) (op : lmots_param_t) (m : cbuf)
    (pptr sptr wptr : ptr) (slen : Z) (pre rest : bytes) (s : smem) (f : lms_auth_path_backend_fn) :
  key_ok priv lp op -> ots_backends_sound False (priv_I priv) (priv_seed priv) B ->
  slot_fn (auth_path_backend B) = Some f ->
  (forall c k q d, exists e d', f c k q d = (Err e, d')) ->
  msg_ok False m -> pptr <> NULL -> sptr <> NULL ->
  sig_len lp op <= slen -> sig_len lp op <= len rest ->
  priv_q priv < 2 ^ lms_p_height lp ->
  inv B (wld s) -> sig s = pre ++ rest -> key s = priv ->
  exists s' C, lms_sign pptr m sptr (len pre) slen wptr s = (Err LMS_ERR_INVALID, s') /\
    key s' = priv /\ randomizer_of priv B op (priv_q priv) C /\
    slice (len pre) (4 + ots_len op) (sig s')
    = lms_store_u32 (priv_q priv)
      ++ ots_signature (ots_p_hash_alg op) op (priv_I priv) (priv_lmots_type priv) (priv_seed priv)
           (priv_q priv) C (cbuf_data m).
Proof.
  intros Hk HB Ef Hf Hm Hp Hsp Hsl Hr Hq Hi Hs Hke.
  pose proof (key_height priv lp op Hk) as Hh0.
  pose proof (op_p_range _ _ (key_ots priv lp op Hk)) as Hpr.
  set (Sig := fun C => lms_store_u32 (priv_q priv) ++ ots_signature (ots_p_hash_alg op) op (priv_I priv)
     (priv_lmots_type priv) (priv_seed priv) (priv_q priv) C (cbuf_data m)).
  assert (H : fails_with B priv (lms_sign pptr m sptr (len pre) slen wptr) (pre ++ rest) LMS_ERR_INVALID
    (fun sg' => exists C rest', randomizer_of priv B op (priv_q priv) C /\ sg' = pre ++ Sig C ++ rest')).
  2: { destruct (H s Hi Hs Hke) as (s' & E & (C & rest' & HC & Hsig) & Hk'). exists s', C.
       split; [exact E |]. split; [exact Hk' |]. split; [exact HC |]. rewrite Hsig.
       apply slice_exact; [reflexivity |]. unfold Sig. rewrite len_app.
       rewrite (ots_signature_len priv lp op Hk) by apply HC.
       change (len (lms_store_u32 _)) with 4. unfold ots_len, LMS_N. lia. }
  clear s Hi Hs Hke. unfold lms_sign, lms_do_sign.
  eapply fails_bind with (Q := fun _ sg' => sg' = pre ++ rest).
  { apply shoare_guard; [| reflexivity]. rewrite (msg_readable _ _ Hm), orb_false_r.
    apply orb_false_iff. split; apply Z.eqb_neq; assumption. }
  intros _ ? ->. apply fails_get_key.
  eapply fails_bind; [apply (sign_checks_ok priv B lp op Hk False); assumption |].
  intros ? ? [-> ->].
  eapply fails_bind; [apply (sign_up_to_path_ok priv B lp op Hk False); eassumption |].
  intros path ? (C & HC & -> & ->). apply fails_bind_l.
  intros s Hi Hs Hke. edestruct (fails_path B priv lp (priv_q priv)) as (s' & E & Hsig & Hk');
    [exact Ef | exact Hf | exact Hi | exact Hs | exact Hke |].
  exists s'. split; [exact E |]. split; [| exact Hk']. exists C. eexists. split; [exact HC |].
  rewrite Hsig. unfold Sig, sig_head. rewrite <- !app_assoc. reflexivity.
Qed.

(** A backend that is registered for the path and never works. *)
Definition failing_path : backends (P := test_platform) :=
  no_backends {{ auth_path_backend := mkSlot (Some (fun _ _ _ d => (Err LMS_ERR_INVALID, d))) NULL }}.

Lemma failing_path_sound I_ seed :
  ots_backends_sound (P := test_platform) (Hh := toy_hash_api) False I_ seed failing_path.
Proof. split; discriminate. Qed.

Lemma failed_path_releases_signature_witness :
  exists s' C,
    lms_sign (P := test_platform) (Hh := toy_hash_api) 1 demo_msg 1 (len []) 9000 1
      ((demo_smem 9000) {{ wld := test_world {{ bk := failing_path }} }}) = (Err LMS_ERR_INVALID, s') /\
    key s' = demo_priv /\
    slice (len []) (4 + ots_len demo_op) (sig s')
    = lms_store_u32 3 ++ ots_signature (Hh := toy_hash_api) LMS_HASH_SHAKE256 demo_op (fill 0x61 16)
        LMOTS_SHAKE256_N32_W1 (fill 0x5e 32) 3 C [1; 2; 3].
Proof.
  destruct (failed_path_releases_signature (P := test_platform) (Hh := toy_hash_api) failing_path demo_priv
    demo_lp demo_op demo_msg 1 1 1 9000 [] (fill 0 9000)
    ((demo_smem 9000) {{ wld := test_world {{ bk := failing_path }} }})
    (fun _ _ _ d => (Err LMS_ERR_INVALID, d)) demo_key_ok (failing_path_sound _ _) eq_refl
    ltac:(intros; do 2 eexists; reflexivity) demo_msg_ok ltac:(discriminate) ltac:(discriminate)
    ltac:(discriminate) ltac:(vm_compute; discriminate) eq_refl
    ltac:(repeat split; discriminate) eq_refl eq_refl)
    as (s' & C & E & Hk & _ & Hs).
  exists s', C. split; [exact E |]. split; [exact Hk | exact Hs].
Defined.
