(* ===== verification/KeyFormat.v ===== *)
(** The serialised key formats of src/lms.c: parsing inverts serialisation, and whatever
    the parsers accept is a well-formed key that serialises to the bytes read. *)

From S2P Require Import Prelude Types HashApi Params Spec LmOts LmOtsCorrect Tree Lms LmsCorrect VerifyCorrect OtsTheorems.

(** Cutting a buffer into its fields. *)
Lemma split_at n (b : bytes) : 0 <= n -> slice 0 n b ++ from n b = b.
Proof. intros Hn. unfold slice, from. rewrite drop_0. apply take_drop. Qed.

Lemma split_field off n off' (b : bytes) :
  0 <= off -> 0 <= n -> off' = off + n -> from off b = slice off n b ++ from off' b.
Proof.
  intros Ho Hn ->. rewrite <- (split_at n (from off b)) by exact Hn.
  rewrite slice_from, from_from by lia. do 2 f_equal; lia.
Qed.

Lemma split_last off n (b : bytes) : 0 <= off -> off + n = len b -> from off b = slice off n b.
Proof.
  intros Ho Hn. unfold from, slice. symmetry. apply take_ge. rewrite length_drop.
  unfold len in Hn. lia.
Qed.

Lemma store_load_field off b :
  Forall is_byte b -> 0 <= off -> off + 4 <= len b ->
  lms_store_u32 (lms_load_u32 (from off b)) = slice off 4 b.
Proof.
  intros Hb Ho Hl. rewrite <- lms_load_u32_slice. apply lms_store_load_u32.
  - apply Forall_slice, Hb.
  - apply len_slice; unfold LMS_I_LEN, LMS_SEED_LEN; cbn; lia.
Qed.

Lemma load_field_u32 off b :
  Forall is_byte b -> 0 <= off -> off + 4 <= len b -> is_u32 (lms_load_u32 (from off b)).
Proof.
  intros Hb Ho Hl. apply lms_load_u32_range; [apply Forall_from, Hb | rewrite len_from; lia].
Qed.

(** The five, and the four, fields of the two formats. *)
Lemma priv_fields b :
  len b = LMS_PRIVATE_KEY_LEN ->
  b = slice 0 4 b ++ slice 4 4 b ++ slice 8 LMS_I_LEN b ++ slice (8 + LMS_I_LEN) LMS_SEED_LEN b
      ++ slice (8 + LMS_I_LEN + LMS_SEED_LEN) 4 b.
Proof.
  intros Hl. change LMS_PRIVATE_KEY_LEN with 60 in Hl. unfold LMS_I_LEN, LMS_SEED_LEN.
  change (8 + 16 + 32) with 56. change (8 + 16) with 24.
  rewrite <- (split_last 56 4 b) by lia. rewrite <- (split_field 24 32 56 b) by lia.
  rewrite <- (split_field 8 16 24 b) by lia. rewrite <- (split_field 4 4 8 b) by lia.
  symmetry. apply split_at. lia.
Qed.

Lemma pub_fields b :
  len b = LMS_PUBLIC_KEY_LEN ->
  b = slice 0 4 b ++ slice 4 4 b ++ slice 8 LMS_I_LEN b ++ slice (8 + LMS_I_LEN) LMS_N b.
Proof.
  intros Hl. change LMS_PUBLIC_KEY_LEN with 56 in Hl. unfold LMS_I_LEN, LMS_N.
  change (8 + 16) with 24.
  rewrite <- (split_last 24 32 b) by lia. rewrite <- (split_field 8 16 24 b) by lia.
  rewrite <- (split_field 4 4 8 b) by lia. symmetry. apply split_at. lia.
Qed.

(** A private key that the library can have produced. *)
Definition usable_priv (k : lms_private_key_t) : Prop :=
  wf_priv k /\ exists lp op,
    matching_params (priv_lms_type k) (priv_lmots_type k) = Some (lp, op) /\
    priv_q k <= 2 ^ lms_p_height lp.

Definition usable_pub (k : lms_public_key_t) : Prop :=
  wf_pub k /\ matching_params (pub_lms_type k) (pub_lmots_type k) <> None.

Section Private.
Context `{P : Platform}.
Variable B : backends.

Lemma private_parse_inv p b :
  p <> NULL -> Forall is_byte b ->
  raises B (lms_private_key_parse p (Buf b)) LMS_ERR_INVALID \/
  exists k, returns B (lms_private_key_parse p (Buf b)) k /\ usable_priv k /\
            lms_private_key_serialize (Some k) local_ptr LMS_PRIVATE_KEY_LEN = Ok b.
Proof.
  intros Hp Hb. unfold lms_private_key_parse. rewrite (proj2 (Z.eqb_neq p NULL) Hp).
  cbn [orb cbuf_null cbuf_len cbuf_data].
  destruct (Z.eqb_spec (len b) LMS_PRIVATE_KEY_LEN) as [Hl | Hl]; cbn [negb].
  2: { left. apply raises_bind, raises_fail. }
  change LMS_PRIVATE_KEY_LEN with 60 in Hl.
  set (t1 := lms_load_u32 b). set (t2 := lms_load_u32 (from 4 b)).
  destruct (matching_params t1 t2) as [[lp op] |] eqn:Hpp.
  2: { left. eapply raises_bind_r; [apply returns_ret |]. apply raises_bind, get_matching_raises, Hpp. }
  destruct (matching_params_wf _ _ _ _ Hpp) as (Hwf & _).
  set (q := lms_load_u32 (from (8 + LMS_I_LEN + LMS_SEED_LEN) b)).
  destruct (Z.lt_ge_cases (leaf_base lp) q) as [Hq | Hq].
  { left. eapply raises_bind_r; [apply returns_ret |].
    eapply raises_bind_r; [apply get_matching_returns, Hpp |]. cbv beta iota. fold q.
    rewrite (proj2 (Z.ltb_lt _ _) Hq). apply raises_bind, raises_fail. }
  right. exists (mkPriv t1 t2 (slice 8 LMS_I_LEN b) (slice (8 + LMS_I_LEN) LMS_SEED_LEN b) q).
  assert (Ht1 : is_u32 t1 /\ lms_store_u32 t1 = slice 0 4 b).
  { change t1 with (lms_load_u32 (from 0 b)). split; [apply load_field_u32 | apply store_load_field];
      try assumption; lia. }
  unfold LMS_I_LEN, LMS_SEED_LEN in *.
  split; [| split; [split; [split |] |]].
  - eapply returns_bind; [apply returns_ret |].
    eapply returns_bind; [apply get_matching_returns, Hpp |].
    cbv beta iota. rewrite (proj2 (Z.ltb_ge _ _) Hq). eapply returns_bind; apply returns_ret.
  - apply Ht1.
  - apply (load_field_u32 4 b Hb); lia.
  - apply len_slice; unfold LMS_I_LEN; lia.
  - apply Forall_slice, Hb.
  - apply len_slice; unfold LMS_I_LEN, LMS_SEED_LEN; lia.
  - apply Forall_slice, Hb.
  - apply (load_field_u32 56 b Hb); lia.
  - exists lp, op. split; [exact Hpp |]. cbn [priv_q]. rewrite <- leaf_base_eq by exact Hwf. exact Hq.
  - unfold lms_private_key_serialize. cbn [Z.eqb local_ptr NULL]. rewrite Z.ltb_irrefl.
    cbn [priv_lms_type priv_lmots_type priv_I priv_seed priv_q]. f_equal.
    rewrite (proj2 Ht1). unfold t2, q. rewrite !store_load_field by (assumption || lia).
    symmetry. apply priv_fields. exact Hl.
Qed.

Lemma private_serialize_len k :
  wf_priv k ->
  len (lms_store_u32 (priv_lms_type k) ++ lms_store_u32 (priv_lmots_type k) ++ priv_I k ++ priv_seed k
       ++ lms_store_u32 (priv_q k)) = LMS_PRIVATE_KEY_LEN.
Proof.
  intros Hw. rewrite !len_app, (wf_priv_I _ Hw), (wf_priv_seed _ Hw). reflexivity.
Qed.

Lemma private_serialize_parse k p :
  p <> NULL -> usable_priv k ->
  exists b, lms_private_key_serialize (Some k) local_ptr LMS_PRIVATE_KEY_LEN = Ok b /\
            returns B (lms_private_key_parse p (Buf b)) k.
Proof.
  intros Hp [Hw (lp & op & Hpp & Hq)]. eexists. split; [reflexivity |].
  destruct (matching_params_wf _ _ _ _ Hpp) as (Hwf & _).
  pose proof (private_serialize_len k Hw) as Hl.
  set (s1 := lms_store_u32 (priv_lms_type k)) in *. set (s2 := lms_store_u32 (priv_lmots_type k)) in *.
  set (s3 := lms_store_u32 (priv_q k)) in *. set (b := s1 ++ _) in *.
  pose proof (wf_priv_I _ Hw) as HI. pose proof (wf_priv_seed _ Hw) as Hsd.
  unfold LMS_I_LEN, LMS_SEED_LEN in HI, Hsd.
  assert (E1 : lms_load_u32 b = priv_lms_type k) by (apply lms_load_store_u32, Hw).
  assert (E2 : from 4 b = s2 ++ priv_I k ++ priv_seed k ++ s3) by (apply from_exact; reflexivity).
  assert (E3 : slice 8 16 b = priv_I k).
  { unfold b. rewrite app_assoc. apply slice_exact; [reflexivity | symmetry; exact HI]. }
  assert (E4 : slice 24 32 b = priv_seed k).
  { unfold b. rewrite !app_assoc, <- (app_assoc _ (priv_seed k)).
    apply slice_exact; [rewrite !len_app, HI; reflexivity | symmetry; exact Hsd]. }
  assert (E5 : from 56 b = s3).
  { unfold b. rewrite !app_assoc. apply from_exact. rewrite !len_app, HI, Hsd. reflexivity. }
  unfold lms_private_key_parse. rewrite (proj2 (Z.eqb_neq p NULL) Hp).
  cbn [orb cbuf_null cbuf_len cbuf_data]. rewrite Hl, Z.eqb_refl.
  eapply returns_bind; [apply returns_ret |]. rewrite E1, E2.
  unfold s2 at 1 2. rewrite lms_load_store_u32 by apply Hw.
  eapply returns_bind; [apply get_matching_returns, Hpp |]. cbv beta iota.
  change (8 + LMS_I_LEN + LMS_SEED_LEN) with 56. rewrite E5.
  replace s3 with (s3 ++ []) by apply app_nil_r. unfold s3.
  rewrite lms_load_store_u32 by apply Hw. rewrite leaf_base_eq by exact Hwf.
  rewrite (proj2 (Z.ltb_ge _ _) Hq). eapply returns_bind; [apply returns_ret |].
  change (8 + LMS_I_LEN) with 24. unfold LMS_I_LEN, LMS_SEED_LEN. rewrite E3, E4.
  destruct k. apply returns_ret.
Qed.
End Private.

Section Public.
Context `{P : Platform}.
Variable B : backends.

Lemma public_parse_inv p b :
  p <> NULL -> Forall is_byte b ->
  raises B (lms_public_key_parse p (Buf b)) LMS_ERR_INVALID \/
  exists k, returns B (lms_public_key_parse p (Buf b)) k /\ usable_pub k /\
            lms_public_key_serialize (Some k) local_ptr LMS_PUBLIC_KEY_LEN = Ok b.
Proof.
  intros Hp Hb. unfold lms_public_key_parse. rewrite (proj2 (Z.eqb_neq p NULL) Hp).
  cbn [orb cbuf_null cbuf_len cbuf_data].
  destruct (Z.eqb_spec (len b) LMS_PUBLIC_KEY_LEN) as [Hl | Hl]; cbn [negb].
  2: { left. apply raises_bind, raises_fail. }
  change LMS_PUBLIC_KEY_LEN with 56 in Hl.
  set (t1 := lms_load_u32 b). set (t2 := lms_load_u32 (from 4 b)).
  destruct (matching_params t1 t2) as [[lp op] |] eqn:Hpp.
  2: { left. eapply raises_bind_r; [apply returns_ret |]. apply raises_bind, get_matching_raises, Hpp. }
  right. exists (mkPub t1 t2 (slice 8 LMS_I_LEN b) (slice (8 + LMS_I_LEN) LMS_N b)).
  assert (Ht1 : is_u32 t1 /\ lms_store_u32 t1 = slice 0 4 b).
  { change t1 with (lms_load_u32 (from 0 b)). split; [apply load_field_u32 | apply store_load_field];
      try assumption; lia. }
  unfold LMS_I_LEN, LMS_N in *.
  split; [| split; [split; [split |] |]].
  - eapply returns_bind; [apply returns_ret |].
    eapply returns_bind; [apply get_matching_returns, Hpp | apply returns_ret].
  - apply Ht1.
  - apply (load_field_u32 4 b Hb); lia.
  - apply len_slice; unfold LMS_I_LEN; lia.
  - apply Forall_slice, Hb.
  - apply len_slice; unfold LMS_I_LEN, LMS_N; lia.
  - apply Forall_slice, Hb.
  - cbn [pub_lms_type pub_lmots_type]. congruence.
  - unfold lms_public_key_serialize. cbn [Z.eqb local_ptr NULL]. rewrite Z.ltb_irrefl.
    cbn [pub_lms_type pub_lmots_type pub_I pub_root]. f_equal.
    rewrite (proj2 Ht1). unfold t2. rewrite !store_load_field by (assumption || lia).
    symmetry. apply pub_fields. exact Hl.
Qed.

Lemma public_serialize_parse k p :
  p <> NULL -> usable_pub k ->
  exists b, lms_public_key_serialize (Some k) local_ptr LMS_PUBLIC_KEY_LEN = Ok b /\
            returns B (lms_public_key_parse p (Buf b)) k.
Proof.
  intros Hp [Hw Hpp]. eexists. split; [reflexivity |].
  destruct (matching_params _ _) as [[lp op] |] eqn:E; [clear Hpp | contradiction].
  pose proof (wf_pub_I _ Hw) as HI. pose proof (wf_pub_root _ Hw) as Hr.
  unfold LMS_I_LEN, LMS_N in HI, Hr.
  set (s1 := lms_store_u32 (pub_lms_type k)). set (s2 := lms_store_u32 (pub_lmots_type k)).
  set (b := s1 ++ _).
  assert (Hl : len b = LMS_PUBLIC_KEY_LEN) by (unfold b; rewrite !len_app, HI, Hr; reflexivity).
  assert (E1 : lms_load_u32 b = pub_lms_type k) by (apply lms_load_store_u32, Hw).
  assert (E2 : from 4 b = s2 ++ pub_I k ++ pub_root k) by (apply from_exact; reflexivity).
  assert (E3 : slice 8 16 b = pub_I k).
  { unfold b. rewrite app_assoc. apply slice_exact; [reflexivity | symmetry; exact HI]. }
  assert (E4 : slice 24 32 b = pub_root k).
  { unfold b. rewrite !app_assoc, <- (app_nil_r (_ ++ pub_root k)), <- (app_assoc _ (pub_root k)).
    apply slice_exact; [rewrite !len_app, HI; reflexivity | symmetry; exact Hr]. }
  unfold lms_public_key_parse. rewrite (proj2 (Z.eqb_neq p NULL) Hp).
  cbn [orb cbuf_null cbuf_len cbuf_data]. rewrite Hl, Z.eqb_refl.
  eapply returns_bind; [apply returns_ret |]. rewrite E1, E2.
  unfold s2. rewrite lms_load_store_u32 by apply Hw.
  eapply returns_bind; [apply get_matching_returns, E |].
  change (8 + LMS_I_LEN) with 24. unfold LMS_I_LEN, LMS_N. rewrite E3, E4.
  destruct k. apply returns_ret.
Qed.
End Public.

(** the private key format.  Every well-formed key whose types match and whose
    index does not exceed the number of leaves survives serialisation and
    parsing; and for any 8-bit input the parser returns [LMS_ERR_INVALID] or such a
    key, which serialises to exactly the bytes read: no two inputs parse to the
    same key. *)
Theorem private_key_roundtrip `{P : Platform} (B : backends) (p : ptr) :
  p <> NULL ->
  (forall k, usable_priv k ->
     exists b, lms_private_key_serialize (Some k) local_ptr LMS_PRIVATE_KEY_LEN = Ok b /\
               returns B (lms_private_key_parse p (Buf b)) k) /\
  (forall b, Forall is_byte b ->
     raises B (lms_private_key_parse p (Buf b)) LMS_ERR_INVALID \/
     exists k, returns B (lms_private_key_parse p (Buf b)) k /\ usable_priv k /\
               lms_private_key_serialize (Some k) local_ptr LMS_PRIVATE_KEY_LEN = Ok b).
Proof.
  intros Hp. split; intros; [apply private_serialize_parse | apply private_parse_inv]; assumption.
Qed.

Lemma private_key_roundtrip_witness :
  exists b, lms_private_key_serialize (Some demo_priv) local_ptr LMS_PRIVATE_KEY_LEN = Ok b /\
            returns (P := test_platform) no_backends (lms_private_key_parse 1 (Buf b)) demo_priv.
Proof.
  destruct (private_key_roundtrip (P := test_platform) no_backends 1 ltac:(discriminate)) as [H _].
  apply H. split; [apply (key_wf _ _ _ demo_key_ok) |].
  exists demo_lp, demo_op. split; [reflexivity | discriminate].
Defined.

(** The public key format: the same round trip, and what the parser accepts
    is a well-formed key that serialises to the bytes read. *)
Theorem public_key_roundtrip `{P : Platform} (B : backends) (p : ptr) :
  p <> NULL ->
  (forall k, usable_pub k ->
     exists b, lms_public_key_serialize (Some k) local_ptr LMS_PUBLIC_KEY_LEN = Ok b /\
               returns B (lms_public_key_parse p (Buf b)) k) /\
  (forall b, Forall is_byte b ->
     raises B (lms_public_key_parse p (Buf b)) LMS_ERR_INVALID \/
     exists k, returns B (lms_public_key_parse p (Buf b)) k /\ usable_pub k /\
               lms_public_key_serialize (Some k) local_ptr LMS_PUBLIC_KEY_LEN = Ok b).
Proof.
  intros Hp. split; intros; [apply public_serialize_parse | apply public_parse_inv]; assumption.
Qed.

Lemma public_key_roundtrip_witness :
  exists b, lms_public_key_serialize (Some (mkPub 5 4 (fill 1 16) (fill 2 32))) local_ptr
              LMS_PUBLIC_KEY_LEN = Ok b /\
            returns (P := test_platform) no_backends (lms_public_key_parse 1 (Buf b))
              (mkPub 5 4 (fill 1 16) (fill 2 32)).
Proof.
  destruct (public_key_roundtrip (P := test_platform) no_backends 1 ltac:(discriminate)) as [H _].
  apply H. split; [| discriminate].
  split; try reflexivity; try u32_lit; apply Forall_replicate; unfold is_byte; lia.
Defined.
