(* ===== verification/Hss.v ===== *)
(** The hierarchical scheme (src/hss.c, include/hss.h): levels of LMS trees, each
    certified by the one above, with exhausted trees replaced on the fly. *)

From S2P Require Import Prelude Types HashApi Params LmOts Tree Lms.

Definition HSS_MAX_LEVELS : Z := 8.
Definition HSS_MASTER_SEED_LEN : Z := 32.
Definition HSS_GENERATION_LEN : Z := 32.
Definition HSS_PUBLIC_KEY_LEN : Z := 4 + LMS_PUBLIC_KEY_LEN.

Record hss_public_key_t := mkHssPub {
  hpub_levels : Z;
  hpub_root_pub : lms_public_key_t
}.

(** The arrays are indexed by level. *)
Record hss_private_key_t := mkHss {
  hss_levels : Z;
  hss_master_seed : bytes;
  hss_lms_types : list Z;
  hss_lmots_types : list Z;
  hss_generation : list bytes;
  hss_keys : list lms_private_key_t;
  hss_pubs : list lms_public_key_t;
  hss_cert_len : list Z;
  hss_cert_sig : list bytes
}.

(** What [memset(priv, 0, sizeof( *priv))] leaves. *)
Definition zero_key : lms_private_key_t := mkPriv 0 0 (fill 0 LMS_I_LEN) (fill 0 LMS_SEED_LEN) 0.
Definition zero_pub : lms_public_key_t := mkPub 0 0 (fill 0 LMS_I_LEN) (fill 0 LMS_N).

Definition zero_hss : hss_private_key_t :=
  mkHss 0 (fill 0 HSS_MASTER_SEED_LEN) (replicate 8 0) (replicate 8 0)
    (replicate 8 (fill 0 HSS_GENERATION_LEN)) (replicate 8 zero_key) (replicate 8 zero_pub)
    (replicate 7 0) (replicate 7 (fill 0 LMS_MAX_SIGNATURE_LEN)).

(** [priv->keys[level]] and the like. *)
Definition elem {A} (d : A) (l : list A) (i : Z) : A := nth (Z.to_nat i) l d.

Definition hss_key (p : hss_private_key_t) (i : Z) : lms_private_key_t := elem zero_key (hss_keys p) i.
Definition hss_pub (p : hss_private_key_t) (i : Z) : lms_public_key_t := elem zero_pub (hss_pubs p) i.
Definition hss_gen (p : hss_private_key_t) (i : Z) : bytes := elem [] (hss_generation p) i.
Definition hss_cert (p : hss_private_key_t) (i : Z) : bytes := elem [] (hss_cert_sig p) i.

(** [while (i > 0u) { i--; generation[i]++; if (generation[i] != 0u) return LMS_OK; }];
    [false] when every byte wrapped. *)
Fixpoint increment_loop (i : nat) (g : bytes) : bool * bytes :=
  match i with
  | O => (false, g)
  | S i' =>
      let g := upd (Z.of_nat i') (u8 (rd g (Z.of_nat i') + 1)) g in
      if negb (rd g (Z.of_nat i') =? 0) then (true, g) else increment_loop i' g
  end.

Definition increment_generation (g : bytes) : bool * bytes :=
  increment_loop (Z.to_nat HSS_GENERATION_LEN) g.

Section Hss.
Context `{P : Platform} `{Hh : HashApi}.

Definition lms_capacity (k : lms_private_key_t) : C Z :=
  param ← or_return LMS_ERR_INVALID (lms_get_lms_param (priv_lms_type k));
  mret (leaf_base param).

(** The memory of a computation on [*priv]. *)
Record hmem := mkHmem { hwld : world; hpriv : hss_private_key_t }.

Definition HM (A : Type) : Type := M hmem lms_status_t A.

Definition on_hworld {A} (m : C A) : HM A :=
  fun s => let '(r, w) := m (hwld s) in (r, s {{ hwld := w }}).

Definition get_priv : HM hss_private_key_t := fun s => (Ok (hpriv s), s).

Definition update_priv (f : hss_private_key_t -> hss_private_key_t) : HM unit :=
  modify (fun s => s {{ hpriv := f (hpriv s) }}).

(** Returns [I] and [seed]. *)
Definition derive_level_material (priv : hss_private_key_t) (level : Z) (generation : bytes)
    : C (bytes * bytes) :=
  lms_param ← or_return LMS_ERR_INVALID (lms_get_lms_param (elem 0 (hss_lms_types priv) level));
  let hash_alg := lms_p_hash_alg lms_param in
  let input := hss_master_seed priv ++ lms_store_u32 level ++ generation in
  digest ← hash_or_invalid hash_alg (input ++ [0x49]);
  seed ← hash_or_invalid hash_alg (input ++ [0x53]);
  mret (slice 0 LMS_I_LEN digest, seed).

Definition build_level (level : Z) : HM unit :=
  priv ← get_priv;
  '(I_, seed) ← on_hworld (or_return LMS_ERR_INVALID
                  (derive_level_material priv level (hss_gen priv level)));
  key ← on_hworld (or_return LMS_ERR_INVALID
          (lms_private_key_init local_ptr (elem 0 (hss_lms_types priv) level)
             (elem 0 (hss_lmots_types priv) level) (Some I_) (Some seed)));
  update_priv (fun p => p {{ hss_keys := upd level key (hss_keys p) }}) ;;
  pub ← on_hworld (or_return LMS_ERR_INVALID (lms_public_key_generate (Some key) local_ptr));
  update_priv (fun p => p {{ hss_pubs := upd level pub (hss_pubs p) }}).

(** [increment_generation(priv->generation[level])] with its status looked at. *)
Definition increment_level (level : Z) : HM unit :=
  priv ← get_priv;
  let '(ok, g) := increment_generation (hss_gen priv level) in
  update_priv (fun p => p {{ hss_generation := upd level g (hss_generation p) }}) ;;
  guard_err (negb ok) LMS_ERR_EXHAUSTED.

(** [lms_sign(&priv->keys[level], ..., priv->cert_sig[level], sizeof(...), &sig_len)];
    returns [sig_len]. *)
Definition sign_with_level (level : Z) (message : bytes) : HM Z :=
  fun s =>
    let p := hpriv s in
    let m := mkSmem (hwld s) (hss_cert p level) (hss_key p level) (Some 0) in
    let '(r, m) := lms_sign local_ptr (Buf message) local_ptr 0 LMS_MAX_SIGNATURE_LEN local_ptr m in
    let p := p {{ hss_keys := upd level (key m) (hss_keys p);
                  hss_cert_sig := upd level (sig m) (hss_cert_sig p) }} in
    (match r with
     | Ok _ => match sig_written m with Some n => Ok n | None => Ok 0 end
     | Err e => Err e
     end, mkHmem (wld m) p).

(** A pure status as a computation. *)
Definition lift_result {S A} (r : result lms_status_t A) : M S lms_status_t A :=
  match r with Ok a => mret a | Err e => fail e end.

Definition sign_child_certificate (parent_level : Z) : HM unit :=
  priv ← get_priv;
  guard_err (hss_levels priv <=? u32 (parent_level + 1)) LMS_ERR_INVALID ;;
  child_pub ← or_return LMS_ERR_INVALID
    (lift_result (lms_public_key_serialize (Some (hss_pub priv (parent_level + 1))) local_ptr
                    LMS_PUBLIC_KEY_LEN));
  sig_len ← or_return LMS_ERR_EXHAUSTED (sign_with_level parent_level child_pub);
  update_priv (fun p => p {{ hss_cert_len := upd parent_level sig_len (hss_cert_len p) }}).

(** The three steps that replace a tree, with their statuses. *)
Definition renew_level (level : Z) : HM unit :=
  or_return LMS_ERR_EXHAUSTED (increment_level level) ;;
  or_return LMS_ERR_INVALID (build_level level) ;;
  or_return LMS_ERR_EXHAUSTED (sign_child_certificate (level - 1)).

Fixpoint refresh_level_if_exhausted (level : nat) : HM unit :=
  priv ← get_priv;
  let k := hss_key priv (Z.of_nat level) in
  cap ← on_hworld (or_return LMS_ERR_INVALID (lms_capacity k));
  if priv_q k <? cap then mret tt
  else
    match level with
    | O => fail LMS_ERR_EXHAUSTED
    | S parent =>
        or_return LMS_ERR_EXHAUSTED (refresh_level_if_exhausted parent) ;;
        renew_level (Z.of_nat level) ;;
        loopM (Z.to_nat (hss_levels priv - (Z.of_nat level + 1))) (Z.of_nat level + 1)
          (fun j _ => renew_level j) tt
    end.

(** The same-hash check of levels 0 and [i]. *)
Definition check_same_hash (lms_types lmots_types : list Z) (i : Z) : C unit :=
  p0 ← or_return LMS_ERR_INVALID (lms_get_lms_param (elem 0 lms_types 0));
  pi ← or_return LMS_ERR_INVALID (lms_get_lms_param (elem 0 lms_types i));
  o0 ← or_return LMS_ERR_INVALID (lms_get_lmots_param (elem 0 lmots_types 0));
  oi ← or_return LMS_ERR_INVALID (lms_get_lmots_param (elem 0 lmots_types i));
  guard_err (negb (bool_decide (lms_p_hash_alg p0 = lms_p_hash_alg pi))
             || negb (bool_decide (ots_p_hash_alg o0 = ots_p_hash_alg oi))
             || negb (bool_decide (lms_p_hash_alg p0 = ots_p_hash_alg o0))) LMS_ERR_INVALID.

(** [lms_types] and [lmots_types] are the caller's arrays of at least [levels]
    entries. *)
Definition hss_private_key_init (priv : ptr) (levels : Z) (lms_types lmots_types : option (list Z))
    (master_seed : option bytes) : HM unit :=
  match lms_types, lmots_types, master_seed with
  | Some lms_types, Some lmots_types, Some master_seed =>
      guard_err (priv =? NULL) LMS_ERR_INVALID ;;
      guard_err ((levels =? 0) || (HSS_MAX_LEVELS <? levels)) LMS_ERR_INVALID ;;
      update_priv (fun _ => zero_hss {{ hss_levels := levels; hss_master_seed := master_seed }}) ;;
      loopM (Z.to_nat (levels - 1)) 1
        (fun i _ => on_hworld (check_same_hash lms_types lmots_types i)) tt ;;
      loopM (Z.to_nat levels) 0 (fun i _ =>
        update_priv (fun p => p {{ hss_lms_types := upd i (elem 0 lms_types i) (hss_lms_types p);
                                   hss_lmots_types := upd i (elem 0 lmots_types i) (hss_lmots_types p) }}) ;;
        or_return LMS_ERR_INVALID (build_level i)) tt ;;
      loopM (Z.to_nat (levels - 1)) 0 (fun i _ =>
        or_return LMS_ERR_EXHAUSTED (sign_child_certificate i)) tt
  | _, _, _ => fail LMS_ERR_INVALID
  end.

Definition hss_public_key_generate (priv : option hss_private_key_t) (pub : ptr)
    : result lms_status_t hss_public_key_t :=
  match priv with
  | None => Err LMS_ERR_INVALID
  | Some priv =>
      if (pub =? NULL) || (hss_levels priv =? 0) then Err LMS_ERR_INVALID
      else Ok (mkHssPub (hss_levels priv) (hss_pub priv 0))
  end.

Definition hss_public_key_serialize (pub : option hss_public_key_t) (out : ptr) (out_len : Z)
    : result lms_status_t bytes :=
  match pub with
  | None => Err LMS_ERR_INVALID
  | Some pub =>
      if out =? NULL then Err LMS_ERR_INVALID
      else if out_len <? HSS_PUBLIC_KEY_LEN then Err LMS_ERR_BUFFER_TOO_SMALL
      else
        match lms_public_key_serialize (Some (hpub_root_pub pub)) (out + 4) (out_len - 4) with
        | Ok b => Ok (lms_store_u32 (hpub_levels pub) ++ b)
        | Err e => Err e
        end
  end.

Definition hss_public_key_parse (pub : ptr) (in_ : cbuf) : C hss_public_key_t :=
  guard_err ((pub =? NULL) || cbuf_null in_ || negb (cbuf_len in_ =? HSS_PUBLIC_KEY_LEN))
            LMS_ERR_INVALID ;;
  let levels := lms_load_u32 (cbuf_data in_) in
  guard_err ((levels =? 0) || (HSS_MAX_LEVELS <? levels)) LMS_ERR_INVALID ;;
  root_pub ← lms_public_key_parse pub (Buf (from 4 (cbuf_data in_)));
  mret (mkHssPub levels root_pub).

(** The certificates' share of the signature length, 0 when one is missing. *)
Fixpoint cert_total (n : nat) (i : Z) (cert_len : list Z) (total : Z) : option Z :=
  match n with
  | O => Some total
  | S n' =>
      if elem 0 cert_len i =? 0 then None
      else cert_total n' (i + 1) cert_len (total + (elem 0 cert_len i + LMS_PUBLIC_KEY_LEN))
  end.

Definition hss_signature_len (priv : option hss_private_key_t) : C Z :=
  match priv with
  | None => mret 0
  | Some priv =>
      if hss_levels priv =? 0 then mret 0
      else
        match cert_total (Z.to_nat (hss_levels priv - 1)) 0 (hss_cert_len priv) 4 with
        | None => mret 0
        | Some total =>
            final_len ← lms_signature_len (elem 0 (hss_lms_types priv) (hss_levels priv - 1))
                          (elem 0 (hss_lmots_types priv) (hss_levels priv - 1));
            mret (if final_len =? 0 then 0 else total + final_len)
        end
  end.

(** ** Signing: the caller's memory *)

Record hsmem := mkHsmem {
  hs_wld : world;
  hs_sig : bytes;
  hs_priv : hss_private_key_t;
  hs_written : option Z
}.

Definition HSM (A : Type) : Type := M hsmem lms_status_t A.

Definition hs_on_world {A} (m : C A) : HSM A :=
  fun s => let '(r, w) := m (hs_wld s) in (r, s {{ hs_wld := w }}).

Definition hs_write (off : Z) (src : bytes) : HSM unit :=
  modify (fun s => s {{ hs_sig := splice off src (hs_sig s) }}).

(** A computation on the copy [next_priv]; its final contents come with the value. *)
Definition on_copy {A} (next : hss_private_key_t) (m : HM A) : HSM (A * hss_private_key_t) :=
  fun s =>
    let '(r, h) := m (mkHmem (hs_wld s) next) in
    (match r with Ok a => Ok (a, hpriv h) | Err e => Err e end, s {{ hs_wld := hwld h }}).

(** [lms_sign(&next_priv->keys[level], message, ..., signature + off, len, &final_len)];
    returns the advanced key and [final_len]. *)
Definition hs_final_sign (k : lms_private_key_t) (message : cbuf) (signature : ptr) (off sig_len : Z)
    : HSM (lms_private_key_t * Z) :=
  fun s =>
    let '(r, m) := lms_sign local_ptr message signature off sig_len local_ptr
                     (mkSmem (hs_wld s) (hs_sig s) k (Some 0)) in
    (match r with
     | Ok _ => Ok (key m, match sig_written m with Some n => n | None => 0 end)
     | Err e => Err e
     end, s {{ hs_wld := wld m; hs_sig := sig m }}).

(** The body of the loop over the certificates. *)
Definition copy_certificate (next : hss_private_key_t) (i off : Z) : HSM Z :=
  child_pub ← or_return LMS_ERR_INVALID
    (lift_result (lms_public_key_serialize (Some (hss_pub next (i + 1))) local_ptr LMS_PUBLIC_KEY_LEN));
  let cert_len := elem 0 (hss_cert_len next) i in
  hs_write off (slice 0 cert_len (hss_cert next i)) ;;
  hs_write (off + cert_len) child_pub ;;
  mret (off + cert_len + LMS_PUBLIC_KEY_LEN).

(** [priv], [signature] and [written] are only compared with [NULL]: what they
    point to is the memory. *)
Definition hss_sign (priv : ptr) (message : cbuf) (signature : ptr) (signature_len : Z)
    (written : ptr) : HSM unit :=
  p ← (fun s => (Ok (hs_priv s), s)) : HSM hss_private_key_t;
  guard_err ((priv =? NULL) || (signature =? NULL)
             || (cbuf_null message && negb (cbuf_len message =? 0))
             || (hss_levels p =? 0)) LMS_ERR_INVALID ;;
  needed ← hs_on_world (hss_signature_len (Some p));
  guard_err ((needed =? 0) || (signature_len <? needed)) LMS_ERR_BUFFER_TOO_SMALL ;;
  ok ← hs_on_world (malloc_ok sizeof_hss_private_key);
  guard_err (negb ok) LMS_ERR_INVALID ;;
  '(_, next) ← or_return LMS_ERR_EXHAUSTED
    (on_copy p (refresh_level_if_exhausted (Z.to_nat (u32 (hss_levels p - 1)))));
  hs_write 0 (lms_store_u32 (u32 (hss_levels next - 1))) ;;
  off ← loopM (Z.to_nat (hss_levels next - 1)) 0 (copy_certificate next) 4;
  '(k, final_len) ← or_return LMS_ERR_EXHAUSTED
    (hs_final_sign (hss_key next (hss_levels next - 1)) message signature off (signature_len - off));
  modify (fun s => s {{ hs_priv := next {{ hss_keys := upd (hss_levels next - 1) k (hss_keys next) }};
                        hs_written := if written =? NULL then hs_written s
                                      else Some (off + final_len) }}).

(** One certificate of a signature: verified under [current], then the next key. *)
Definition verify_step (signature : bytes) (current : lms_public_key_t) (off : Z)
    : C (lms_public_key_t * Z) :=
  cert_len ← lms_signature_len (pub_lms_type current) (pub_lmots_type current);
  guard_err ((cert_len =? 0) || (len signature <? off + cert_len + LMS_PUBLIC_KEY_LEN))
            LMS_ERR_INVALID ;;
  let child_pub := slice (off + cert_len) LMS_PUBLIC_KEY_LEN signature in
  or_return LMS_ERR_VERIFY (lms_verify (Some current) (Buf child_pub)
                              (Buf (slice off cert_len signature))) ;;
  next_pub ← or_return LMS_ERR_VERIFY (lms_public_key_parse local_ptr (Buf child_pub));
  mret (next_pub, off + (cert_len + LMS_PUBLIC_KEY_LEN)).

Definition hss_verify (pub : option hss_public_key_t) (message signature : cbuf) : C unit :=
  match pub with
  | None => fail LMS_ERR_INVALID
  | Some pub =>
      guard_err (cbuf_null signature || (cbuf_null message && negb (cbuf_len message =? 0))
                 || (hpub_levels pub =? 0)) LMS_ERR_INVALID ;;
      guard_err (cbuf_len signature <? 4) LMS_ERR_INVALID ;;
      let signature := cbuf_data signature in
      let levels := u32 (lms_load_u32 signature + 1) in
      guard_err (negb (levels =? hpub_levels pub) || (levels =? 0) || (HSS_MAX_LEVELS <? levels))
                LMS_ERR_VERIFY ;;
      '(current, off) ← loopM (Z.to_nat (levels - 1)) 0
        (fun _ '(current, off) => verify_step signature current off) (hpub_root_pub pub, 4);
      guard_err (len signature <? off) LMS_ERR_INVALID ;;
      lms_verify (Some current) message (Buf (from off signature))
  end.
End Hss.
