(* ===== verification/HssCorrect.v ===== *)
(** The hierarchy keeps its invariant: every level holds the key its generation
    determines, every level above the last has signed the public key below, and the
    pairs of generation and index only grow. *)

From S2P Require Import Prelude Types HashApi Params Winternitz Spec LmOts LmOtsCorrect Tree Lms LmsCorrect VerifyCorrect Scheme OtsTheorems LmsTheorems KeyFormat Hss.

(** * Arrays *)

Lemma elem_upd {A} (d v : A) l i j :
  0 <= i < Z.of_nat (length l) -> 0 <= j ->
  elem d (upd i v l) j = if j =? i then v else elem d l j.
Proof.
  intros Hi Hj. unfold elem, upd. rewrite !nth_lookup. destruct (Z.eqb_spec j i) as [-> | Hne].
  - rewrite list_lookup_insert_eq by lia. reflexivity.
  - rewrite list_lookup_insert_ne by lia. reflexivity.
Qed.

Lemma elem_upd_eq {A} (d v : A) l i : 0 <= i < Z.of_nat (length l) -> elem d (upd i v l) i = v.
Proof. intros Hi. rewrite elem_upd by lia. rewrite Z.eqb_refl. reflexivity. Qed.

Lemma elem_upd_ne {A} (d v : A) l i j :
  0 <= i < Z.of_nat (length l) -> 0 <= j -> j <> i -> elem d (upd i v l) j = elem d l j.
Proof. intros Hi Hj Hne. rewrite elem_upd by lia. destruct (Z.eqb_spec j i); [lia | reflexivity]. Qed.

Lemma length_upd {A} i (v : A) l : length (upd i v l) = length l.
Proof. apply length_insert. Qed.

(** * The generation counter *)

(** A big-endian number. *)
Definition be_value (g : bytes) : Z := fold_left (fun acc b => acc * 256 + b) g 0.

Lemma be_value_snoc g b : be_value (g ++ [b]) = be_value g * 256 + b.
Proof. unfold be_value. rewrite fold_left_app. reflexivity. Qed.

Lemma be_value_range g : Forall is_byte g -> 0 <= be_value g < 256 ^ len g.
Proof.
  induction g as [| b g IH] using rev_ind; intros Hg; [split; [discriminate | reflexivity] |].
  apply Forall_app in Hg as [Hg Hb]. rewrite Forall_singleton in Hb. unfold is_byte in Hb.
  rewrite be_value_snoc, len_app. change (len [b]) with 1. rewrite Z.pow_add_r, Z.pow_1_r by (apply len_nonneg || lia).
  specialize (IH Hg). lia.
Qed.

(** The loop increments the first [i] bytes and says whether they wrapped. *)
Lemma increment_loop_spec i : forall a t,
  length a = i -> Forall is_byte a ->
  exists a', snd (increment_loop i (a ++ t)) = a' ++ t /\ length a' = i /\ Forall is_byte a' /\
    if fst (increment_loop i (a ++ t)) then be_value a' = be_value a + 1
    else be_value a + 1 = 256 ^ Z.of_nat i /\ be_value a' = 0.
Proof.
  induction i as [| i IH]; intros a t Hl Hb.
  - destruct a; [| discriminate]. exists []. repeat split; constructor.
  - assert (Hne : a <> []) by (destruct a; discriminate).
    destruct (exists_last Hne) as (b & x & ->). clear Hne.
    rewrite length_app in Hl. cbn in Hl. apply Forall_app in Hb as [Hb Hx].
    rewrite Forall_singleton in Hx. cbn [increment_loop].
    assert (Hli : length b = i) by lia.
    rewrite <- app_assoc. cbn [app].
    replace (rd (b ++ x :: t) (Z.of_nat i)) with x.
    2: { unfold rd. rewrite Nat2Z.id, app_nth2, <- Hli, Nat.sub_diag by lia. reflexivity. }
    rewrite upd_app_r by lia. rewrite Hli, Z.sub_diag. cbn [upd insert list_insert Z.to_nat].
    change (upd 0 (u8 (x + 1)) (x :: t)) with (u8 (x + 1) :: t).
    replace (rd (b ++ u8 (x + 1) :: t) (Z.of_nat i)) with (u8 (x + 1)).
    2: { unfold rd. rewrite Nat2Z.id, app_nth2, <- Hli, Nat.sub_diag by lia. reflexivity. }
    unfold is_byte in Hx. destruct (Z.eqb_spec (u8 (x + 1)) 0) as [Hz | Hz]; cbn [negb].
    + assert (x = 255) as -> by (rewrite u8_mod in Hz; Z.to_euclidean_division_equations; lia).
      destruct (IH b (u8 (255 + 1) :: t) Hli Hb) as (a' & Hs & Hla & Hba & Hv).
      exists (a' ++ [u8 (255 + 1)]). rewrite Hs, <- app_assoc. split; [reflexivity |].
      split; [rewrite length_app; cbn; lia |].
      split; [apply Forall_byte_app; [exact Hba | repeat constructor; apply u8_byte] |].
      rewrite !be_value_snoc. change (u8 (255 + 1)) with 0 in *.
      replace (256 ^ Z.of_nat (S i)) with (256 * 256 ^ Z.of_nat i)
        by (rewrite Nat2Z.inj_succ, Z.pow_succ_r; lia).
      destruct (fst _); lia.
    + exists (b ++ [u8 (x + 1)]). cbn [snd fst]. rewrite <- app_assoc. split; [reflexivity |].
      split; [rewrite length_app; cbn; lia |].
      split; [apply Forall_byte_app; [exact Hb | repeat constructor; apply u8_byte] |].
      rewrite !be_value_snoc. rewrite u8_small; [lia |].
      rewrite u8_mod in Hz. unfold is_byte. Z.to_euclidean_division_equations. lia.
Qed.

Definition generation_ok (g : bytes) : Prop := len g = HSS_GENERATION_LEN /\ Forall is_byte g.

Lemma increment_generation_spec g :
  generation_ok g ->
  generation_ok (snd (increment_generation g)) /\
  if fst (increment_generation g) then be_value (snd (increment_generation g)) = be_value g + 1
  else be_value g + 1 = 2 ^ 256 /\ be_value (snd (increment_generation g)) = 0.
Proof.
  intros [Hl Hb]. unfold increment_generation. change (Z.to_nat HSS_GENERATION_LEN) with 32%nat.
  unfold len, HSS_GENERATION_LEN in Hl.
  destruct (increment_loop_spec 32 g [] ltac:(lia) Hb) as (a' & Hs & Hla & Hba & Hv).
  rewrite !app_nil_r in *. rewrite Hs. split; [| exact Hv].
  split; [unfold len, HSS_GENERATION_LEN; lia | exact Hba].
Qed.

(** * Triples on [*priv] *)

Section HTriples.
Context `{P : Platform}.
Variable B : backends.

(** From [*priv] = [p], [m] returns a value of [Q] together with the new [*priv],
    or fails, and then [G] holds. *)
Definition htriple {A} (p : hss_private_key_t) (G : Prop) (m : HM A)
    (Q : A -> hss_private_key_t -> Prop) : Prop :=
  forall s, inv B (hwld s) -> hpriv s = p ->
    match m s with
    | (Ok a, s') => Q a (hpriv s') /\ inv B (hwld s')
    | (Err _, s') => G /\ inv B (hwld s')
    end.

Lemma htriple_ret {A} p G (a : A) (Q : A -> hss_private_key_t -> Prop) : Q a p -> htriple p G (mret a) Q.
Proof. intros HQ s Hi <-. split; assumption. Qed.

Lemma htriple_fail {A} p (G : Prop) e (Q : A -> hss_private_key_t -> Prop) : G -> htriple p G (fail e) Q.
Proof. intros HG s Hi _. split; assumption. Qed.

Lemma htriple_bind {A A'} p G (m : HM A) (f : A -> HM A') Q R :
  htriple p G m Q -> (forall a p', Q a p' -> htriple p' G (f a) R) -> htriple p G (m ≫= f) R.
Proof.
  intros Hm Hf s Hi Hs. specialize (Hm s Hi Hs). unfold mbind, M_bind.
  destruct (m s) as [[a | e] s']; [| exact Hm]. destruct Hm as [HQ Hi'].
  exact (Hf a _ HQ s' Hi' eq_refl).
Qed.

Lemma htriple_conseq {A} p (G G' : Prop) (m : HM A) (Q R : A -> hss_private_key_t -> Prop) :
  htriple p G m Q -> (G -> G') -> (forall a p', Q a p' -> R a p') -> htriple p G' m R.
Proof.
  intros Hm HG HQ s Hi Hs. specialize (Hm s Hi Hs). destruct (m s) as [[a | e] s']; intuition auto.
Qed.

Lemma htriple_post {A} p G (m : HM A) (Q R : A -> hss_private_key_t -> Prop) :
  htriple p G m Q -> (forall a p', Q a p' -> R a p') -> htriple p G m R.
Proof. intros Hm HQ. apply (htriple_conseq p G G m Q R Hm); auto. Qed.

Lemma htriple_weaken {A} p (G G' : Prop) (m : HM A) (Q : A -> hss_private_key_t -> Prop) :
  htriple p G m Q -> (G -> G') -> htriple p G' m Q.
Proof. intros Hm HG. apply (htriple_conseq p G G' m Q Q Hm); auto. Qed.

Lemma htriple_or_return {A} p G e (m : HM A) Q : htriple p G m Q -> htriple p G (or_return e m) Q.
Proof.
  intros Hm s Hi Hs. specialize (Hm s Hi Hs). unfold or_return. destruct (m s) as [[a | e'] s']; exact Hm.
Qed.

Lemma htriple_get p G : htriple p G get_priv (fun a p' => a = p /\ p' = p).
Proof. intros s Hi <-. repeat split; apply Hi. Qed.

Lemma htriple_update p G f : htriple p G (update_priv f) (fun _ p' => p' = f p).
Proof. intros [w p0] Hi Hs. cbn in *. subst. auto. Qed.

Lemma htriple_world {A} p G (m : C A) Q :
  hoare (inv B) G m Q -> htriple p G (on_hworld m) (fun a p' => Q a /\ p' = p).
Proof.
  intros Hm [w p0] Hi Hs. cbn in *. subst. unfold on_hworld. cbn.
  specialize (Hm w Hi). destruct (m w) as [[a | e] w']; destruct Hm; cbn; auto.
Qed.

Lemma htriple_guard p (G : Prop) c e : (c = true -> G) -> htriple p G (guard_err c e) (fun _ p' => p' = p /\ c = false).
Proof. intros Hc. destruct c; [apply htriple_fail; auto | apply htriple_ret; auto]. Qed.

Lemma htriple_loop {A} G n i (body : Z -> A -> HM A) (Q : Z -> A -> hss_private_key_t -> Prop) a p :
  Q i a p ->
  (forall k a p, i <= k < i + Z.of_nat n -> Q k a p -> htriple p G (body k a) (Q (k + 1))) ->
  htriple p G (loopM n i body a) (Q (i + Z.of_nat n)).
Proof.
  revert i a p. induction n as [| n IH]; intros i a p H0 Hb.
  - apply htriple_ret. replace (i + Z.of_nat 0) with i by lia. exact H0.
  - cbn [loopM]. eapply htriple_bind; [apply Hb; [lia | exact H0] |].
    intros a' p' HQ. replace (i + Z.of_nat (S n)) with (i + 1 + Z.of_nat n) by lia.
    apply IH; [exact HQ |]. intros k a'' p'' Hk. apply Hb. lia.
Qed.
End HTriples.

(** * Levels *)

(** The parameters of a hierarchy: how many levels, their types, the master seed. *)
Record hparams := mkHparams {
  H_levels : Z;
  H_types : Z -> Z * Z;
  H_master : bytes
}.

Section Levels.
Context `{P : Platform} `{Hh : HashApi}.
Variable H : hparams.
Abbreviation n := (H_levels H).

Definition t1 (i : Z) : Z := fst (H_types H i).
Definition t2 (i : Z) : Z := snd (H_types H i).

(** Every level has parameters, of an available hash; at most eight levels. *)
Record hparams_ok : Prop := {
  H_range : 1 <= n <= HSS_MAX_LEVELS;
  H_u32 : forall i, 0 <= i < n -> is_u32 (t1 i) /\ is_u32 (t2 i);
  H_params : forall i, 0 <= i < n -> exists lp op,
    matching_params (t1 i) (t2 i) = Some (lp, op) /\ available (ots_p_hash_alg op)
}.

Definition lp_of (i : Z) : lms_param_t :=
  match matching_params (t1 i) (t2 i) with Some (lp, _) => lp | None => mkLmsParam 0 LMS_HASH_SHA256 0 0 end.
Definition op_of (i : Z) : lmots_param_t :=
  match matching_params (t1 i) (t2 i) with Some (_, op) => op | None => mkLmotsParam 0 LMS_HASH_SHA256 0 0 0 0 end.
Definition alg_of (i : Z) : lms_hash_alg_t := ots_p_hash_alg (op_of i).

(** The number of leaves of a level's tree. *)
Definition cap (i : Z) : Z := 2 ^ lms_p_height (lp_of i).

(** The key of level [i] that generation [g] determines, at index [q]. *)
Definition level_I (i : Z) (g : bytes) : bytes :=
  slice 0 LMS_I_LEN (hash_of (alg_of i) ((H_master H ++ lms_store_u32 i ++ g) ++ [0x49])).
Definition level_seed (i : Z) (g : bytes) : bytes :=
  hash_of (alg_of i) ((H_master H ++ lms_store_u32 i ++ g) ++ [0x53]).
Definition level_key (i : Z) (g : bytes) (q : Z) : lms_private_key_t :=
  mkPriv (t1 i) (t2 i) (level_I i g) (level_seed i g) q.
Definition level_pub (i : Z) (g : bytes) : lms_public_key_t := pub_of (level_key i g 0) (lp_of i) (op_of i).

Definition pub_bytes (pk : lms_public_key_t) : bytes :=
  lms_store_u32 (pub_lms_type pk) ++ lms_store_u32 (pub_lmots_type pk) ++ pub_I pk ++ pub_root pk.

(** What does not change during the life of the key, and the lengths of the arrays. *)
Record static_ok (p : hss_private_key_t) : Prop := {
  st_levels : hss_levels p = n;
  st_master : hss_master_seed p = H_master H;
  st_types1 : forall i, 0 <= i < n -> elem 0 (hss_lms_types p) i = t1 i;
  st_types2 : forall i, 0 <= i < n -> elem 0 (hss_lmots_types p) i = t2 i;
  st_gens : Z.of_nat (length (hss_generation p)) = HSS_MAX_LEVELS;
  st_keys : Z.of_nat (length (hss_keys p)) = HSS_MAX_LEVELS;
  st_pubs : Z.of_nat (length (hss_pubs p)) = HSS_MAX_LEVELS;
  st_cert_len : Z.of_nat (length (hss_cert_len p)) = HSS_MAX_LEVELS - 1;
  st_cert_sig : Z.of_nat (length (hss_cert_sig p)) = HSS_MAX_LEVELS - 1;
  st_cert_buf : forall i, 0 <= i < n - 1 -> len (hss_cert p i) = LMS_MAX_SIGNATURE_LEN;
  st_gen_ok : forall i, 0 <= i < n -> generation_ok (hss_gen p i)
}.

(** Level [i] holds its key, at index [q], and its public key. *)
Definition level_at (p : hss_private_key_t) (i q : Z) : Prop :=
  hss_key p i = level_key i (hss_gen p i) q /\ hss_pub p i = level_pub i (hss_gen p i) /\
  0 <= q <= cap i.

Definition level_ok (p : hss_private_key_t) (i : Z) : Prop := exists q, level_at p i q.

(** Certificate [i] is the signature of the public key of level [i + 1], made by
    the key of level [i] at index [q']. *)
Definition cert_at (p : hss_private_key_t) (i q' : Z) : Prop :=
  exists C, len C = LMS_N /\ Forall is_byte C /\
    elem 0 (hss_cert_len p) i = sig_len (lp_of i) (op_of i) /\
    slice 0 (sig_len (lp_of i) (op_of i)) (hss_cert p i)
    = signature_of (level_key i (hss_gen p i) 0) (lp_of i) (op_of i) q' C (pub_bytes (hss_pub p (i + 1))).

(** Level [i] made its certificate with an index it has passed. *)
Definition cert_ok (p : hss_private_key_t) (i : Z) : Prop :=
  exists q', 0 <= q' < priv_q (hss_key p i) /\ cert_at p i q'.

(** The invariant, with the certificates of the levels above [k] valid. *)
Record hss_ok (k : Z) (p : hss_private_key_t) : Prop := {
  hss_static : static_ok p;
  hss_level : forall i, 0 <= i < n -> level_ok p i;
  hss_cert_valid : forall i, 0 <= i < k -> cert_ok p i
}.

Hypothesis HH : hparams_ok.

Lemma level_params i :
  0 <= i < n -> matching_params (t1 i) (t2 i) = Some (lp_of i, op_of i) /\ available (alg_of i).
Proof.
  intros Hi. destruct (H_params HH i Hi) as (lp & op & E & Ha).
  unfold alg_of, lp_of, op_of. rewrite E. auto.
Qed.

Lemma cap_range i : 0 <= i < n -> 32 <= cap i <= 2 ^ 25.
Proof.
  intros Hi. destruct (level_params i Hi) as [E _].
  destruct (matching_params_wf _ _ _ _ E) as (Hwf & _). pose proof (lms_height_range _ Hwf).
  unfold cap. split; [change 32 with (2 ^ 5) |]; apply Z.pow_le_mono_r; lia.
Qed.

Lemma level_key_ok i g q : 0 <= i < n -> is_u32 q -> key_ok (level_key i g q) (lp_of i) (op_of i).
Proof.
  intros Hi Hq. destruct (level_params i Hi) as [E Ha]. destruct (H_u32 HH i Hi) as [H1 H2].
  pose proof (hash_of_len (alg_of i)
    ((H_master H ++ lms_store_u32 i ++ g) ++ [0x49]) Ha) as HI. unfold LMS_N in HI.
  split; [split | exact E | exact Ha]; try assumption.
  - apply len_slice; unfold LMS_I_LEN; lia.
  - apply Forall_slice, hash_of_bytes, Ha.
  - apply hash_of_len, Ha.
  - apply hash_of_bytes, Ha.
Qed.

Lemma level_pub_q i g q : level_pub i g = pub_of (level_key i g q) (lp_of i) (op_of i).
Proof. reflexivity. Qed.

Lemma level_pub_ok i g : 0 <= i < n -> pub_ok (level_pub i g) (lp_of i) (op_of i).
Proof. intros Hi. apply pub_of_ok, level_key_ok; [exact Hi | split; [discriminate | reflexivity]]. Qed.

Lemma pub_bytes_len pk : wf_pub pk -> len (pub_bytes pk) = LMS_PUBLIC_KEY_LEN.
Proof.
  intros Hw. unfold pub_bytes. rewrite !len_app, (wf_pub_I _ Hw), (wf_pub_root _ Hw). reflexivity.
Qed.

Lemma pub_bytes_bytes pk : wf_pub pk -> Forall is_byte (pub_bytes pk).
Proof.
  intros Hw. repeat apply Forall_byte_app; try apply lms_store_u32_bytes; apply Hw.
Qed.

Lemma level_sig_len i : 0 <= i < n -> 0 < sig_len (lp_of i) (op_of i) <= LMS_MAX_SIGNATURE_LEN.
Proof.
  intros Hi. destruct (level_params i Hi) as [E _].
  destruct (matching_params_wf _ _ _ _ E) as (Hwf & _ & _ & Hop & _).
  pose proof (lms_height_range _ Hwf). pose proof (op_p_range _ _ Hop).
  unfold sig_len, LMS_MAX_SIGNATURE_LEN, LMS_N, LMS_MAX_OTS_P, LMS_MAX_HEIGHT. lia.
Qed.
End Levels.

(** * The steps on one level *)

Section LevelOps.
Context `{P : Platform} `{Hh : HashApi}.
Variable F : Prop.
Variable B : backends.
Hypothesis HB : forall I_ seed, backends_sound F I_ seed B.
Variable H : hparams.
Hypothesis HH : hparams_ok H.
Abbreviation n := (H_levels H).

Lemma derive_ok p i g :
  0 <= i < n -> hss_master_seed p = H_master H -> elem 0 (hss_lms_types p) i = t1 H i ->
  hoare (inv B) F (derive_level_material p i g) (fun r => r = (level_I H i g, level_seed H i g)).
Proof.
  intros Hi Hm Ht. destruct (level_params H HH i Hi) as [E Ha].
  destruct (matching_params_wf _ _ _ _ E) as (_ & _ & Hl & _ & Hal).
  unfold derive_level_material. rewrite Ht, Hm.
  eapply hoare_bind; [apply ok_returns, returns_or_return, get_lms_param_returns, Hl |]. intros ? ->.
  rewrite Hal. fold (alg_of H i).
  set (input := _ ++ _ ++ g).
  apply hoare_bind with (P := fun d => d = hash_of (alg_of H i) (input ++ [0x49]));
    [apply (ok_hash F B); [exact Ha | reflexivity] |]. intros d ->.
  apply hoare_bind with (P := fun d => d = hash_of (alg_of H i) (input ++ [0x53]));
    [apply (ok_hash F B); [exact Ha | reflexivity] |]. intros d ->.
  apply hoare_ret. reflexivity.
Qed.

(** The structure after [build_level]. *)
Definition built (p : hss_private_key_t) (i : Z) : hss_private_key_t :=
  p {{ hss_keys := upd i (level_key H i (hss_gen p i) 0) (hss_keys p);
       hss_pubs := upd i (level_pub H i (hss_gen p i)) (hss_pubs p) }}.

Lemma build_level_ok p i :
  0 <= i < n -> hss_master_seed p = H_master H ->
  elem 0 (hss_lms_types p) i = t1 H i -> elem 0 (hss_lmots_types p) i = t2 H i ->
  htriple B p F (build_level i) (fun _ p' => p' = built p i).
Proof.
  intros Hi Hm H1 H2. unfold build_level. destruct (level_params H HH i Hi) as [E Ha].
  eapply htriple_bind; [apply htriple_get |]. intros ? ? [-> ->].
  eapply htriple_bind; [apply htriple_world, hoare_or_return, derive_ok; assumption |].
  intros [I_ sd] ? [[= -> ->] ->]. rewrite H1, H2. set (g := hss_gen p i).
  eapply htriple_bind with (Q := fun k p' => k = level_key H i g 0 /\ p' = p).
  { apply htriple_world, hoare_or_return, ok_returns. unfold lms_private_key_init.
    eapply returns_bind; [apply returns_ret |].
    eapply returns_bind; [apply get_matching_returns, E | apply returns_ret]. }
  intros ? ? [-> ->]. eapply htriple_bind; [apply htriple_update |]. intros _ ? ->.
  eapply htriple_bind.
  { apply htriple_world, hoare_or_return, (public_key_generate_ok F B (level_key H i g 0) (HB _ _)
      (lp_of H i) (op_of H i)); [| discriminate].
    apply level_key_ok; [exact HH | exact Hi | split; [discriminate | reflexivity]]. }
  intros ? ? [-> ->]. eapply htriple_post; [apply htriple_update |].
  intros _ ? ->. unfold built, level_pub, pub_of. destruct p. reflexivity.
Qed.

Lemma increment_level_ok p i :
  generation_ok (hss_gen p i) ->
  htriple B p (be_value (hss_gen p i) + 1 = 2 ^ 256) (increment_level i)
    (fun _ p' => exists g', generation_ok g' /\ be_value g' = be_value (hss_gen p i) + 1 /\
       p' = p {{ hss_generation := upd i g' (hss_generation p) }}).
Proof.
  intros Hg. unfold increment_level. eapply htriple_bind; [apply htriple_get |]. intros ? ? [-> ->].
  destruct (increment_generation_spec _ Hg) as [Hg' Hv].
  destruct (increment_generation (hss_gen p i)) as [ok g']. cbn [fst snd] in *.
  eapply htriple_bind; [apply htriple_update |]. intros _ ? ->.
  destruct ok; [| apply htriple_fail, Hv].
  apply htriple_ret. exists g'. auto.
Qed.

(** The structure after level [i], at index [q], signed the key below into [buf]. *)
Definition certified (p : hss_private_key_t) (i q : Z) (buf : bytes) : hss_private_key_t :=
  p {{ hss_keys := upd i (level_key H i (hss_gen p i) (q + 1)) (hss_keys p);
       hss_cert_sig := upd i buf (hss_cert_sig p);
       hss_cert_len := upd i (sig_len (lp_of H i) (op_of H i)) (hss_cert_len p) }}.

Definition is_cert (p : hss_private_key_t) (i q : Z) (buf : bytes) : Prop :=
  len buf = LMS_MAX_SIGNATURE_LEN /\
  exists C, len C = LMS_N /\ Forall is_byte C /\
    slice 0 (sig_len (lp_of H i) (op_of H i)) buf
    = signature_of (level_key H i (hss_gen p i) 0) (lp_of H i) (op_of H i) q C (pub_bytes (hss_pub p (i + 1))).

Lemma child_msg_ok b : len b = LMS_PUBLIC_KEY_LEN -> Forall is_byte b -> msg_ok F (Buf b).
Proof.
  intros Hl Hbytes. split; [reflexivity | | | exact Hbytes]; cbn [cbuf_data]; rewrite Hl.
  - pose proof SIZE_MAX_ge. unfold UINT_MAX in *. change LMS_PUBLIC_KEY_LEN with 56. lia.
  - intros Hs. exfalso. revert Hs. vm_compute. discriminate.
Qed.

Lemma sign_with_level_ok p i q b :
  0 <= i < n -> level_at H p i q -> q < cap H i -> len b = LMS_PUBLIC_KEY_LEN -> Forall is_byte b ->
  len (hss_cert p i) = LMS_MAX_SIGNATURE_LEN ->
  htriple B p F (sign_with_level i b)
    (fun r p' => r = sig_len (lp_of H i) (op_of H i) /\ exists buf C,
       len buf = LMS_MAX_SIGNATURE_LEN /\ len C = LMS_N /\ Forall is_byte C /\
       slice 0 (sig_len (lp_of H i) (op_of H i)) buf
       = signature_of (level_key H i (hss_gen p i) 0) (lp_of H i) (op_of H i) q C b /\
       p' = p {{ hss_keys := upd i (level_key H i (hss_gen p i) (q + 1)) (hss_keys p);
                 hss_cert_sig := upd i buf (hss_cert_sig p) }}).
Proof.
  intros Hi (Hkey & Hpub & Hq0) Hq Hb Hbb Hbuf s Hinv Hs. subst p.
  pose proof (cap_range H HH i Hi) as Hcap. pose proof (level_sig_len H HH i Hi) as Hsl.
  assert (Hk : key_ok (level_key H i (hss_gen (hpriv s) i) q) (lp_of H i) (op_of H i)).
  { apply level_key_ok; [exact HH | exact Hi | unfold is_u32; lia]. }
  unfold sign_with_level. rewrite Hkey.
  set (k := level_key H i (hss_gen (hpriv s) i) q) in *.
  set (m := mkSmem (hwld s) (hss_cert (hpriv s) i) k (Some 0)).
  pose proof (sign_run F B k (lp_of H i) (op_of H i) Hk (HB _ _) (Buf b) (child_msg_ok b Hb Hbb)
    local_ptr local_ptr local_ptr LMS_MAX_SIGNATURE_LEN [] (hss_cert (hpriv s) i) m
    ltac:(discriminate) ltac:(discriminate) ltac:(lia) ltac:(lia) Hq Hinv eq_refl eq_refl) as Hr.
  change (len []) with 0 in Hr.
  destruct (lms_sign _ _ _ _ _ _ m) as [[[] | e] m'].
  - destruct Hr as (Hinv' & sg & C & HC & Hsg & Hsig & Hk' & Hw).
    rewrite Hw. change (local_ptr =? NULL) with false. cbv beta iota zeta.
    split; [split; [reflexivity |] | exact Hinv'].
    assert (Hl : len sg = sig_len (lp_of H i) (op_of H i))
      by (rewrite Hsg; apply (signature_len_ok k _ _ Hk), HC).
    exists (sig m'), C. cbn [app] in Hsig. rewrite Hsig.
    split; [rewrite len_app, len_from by lia; lia |]. split; [apply HC |]. split; [apply HC |].
    split.
    + rewrite slice_app_l by lia. rewrite slice_all by lia. exact Hsg.
    + cbn [hpriv]. rewrite <- Hsig, Hk'. reflexivity.
  - destruct Hr as (HF & Hinv' & _). split; assumption.
Qed.

Lemma sign_child_ok p i q :
  static_ok H p -> 0 <= i -> i + 1 < n -> level_at H p i q -> q < cap H i -> level_ok H p (i + 1) ->
  htriple B p F (sign_child_certificate i)
    (fun _ p' => exists buf, is_cert p i q buf /\ p' = certified p i q buf).
Proof.
  intros Hst Hi Hi1 Hl Hq [q1 (_ & Hpub & _)]. unfold sign_child_certificate.
  pose proof (H_range H HH) as Hn. unfold HSS_MAX_LEVELS in Hn.
  eapply htriple_bind; [apply htriple_get |]. intros ? ? [-> ->].
  rewrite (st_levels _ _ Hst), u32_small by lia.
  eapply htriple_bind; [apply htriple_guard; intros Hc; apply Z.leb_le in Hc; lia |].
  intros _ ? [-> _].
  set (b := pub_bytes (hss_pub p (i + 1))).
  assert (Hw : wf_pub (hss_pub p (i + 1)))
    by (rewrite Hpub; apply (pub_wf _ _ _ (level_pub_ok H HH (i + 1) _ ltac:(lia)))).
  assert (Hb : len b = LMS_PUBLIC_KEY_LEN) by (apply pub_bytes_len, Hw).
  assert (Hbb : Forall is_byte b) by (apply pub_bytes_bytes, Hw).
  eapply htriple_bind with (Q := fun r p' => r = b /\ p' = p); [apply htriple_ret; auto |].
  intros ? ? [-> ->].
  eapply htriple_bind.
  { apply htriple_or_return, (sign_with_level_ok p i q); [lia | exact Hl | exact Hq | exact Hb | exact Hbb |].
    apply (st_cert_buf _ _ Hst). lia. }
  intros r p' (-> & buf & C & Hlb & HC & HCb & Hsl & ->).
  eapply htriple_post; [apply htriple_update |]. intros _ ? ->.
  exists buf. split; [split; [exact Hlb | exists C; auto] |].
  unfold certified. destruct p. reflexivity.
Qed.
End LevelOps.

(** * Replacing a tree *)

Section Renew.
Context `{P : Platform} `{Hh : HashApi}.
Variable F : Prop.
Variable B : backends.
Hypothesis HB : forall I_ seed, backends_sound F I_ seed B.
Variable H : hparams.
Hypothesis HH : hparams_ok H.
Abbreviation n := (H_levels H).

(** Nothing but the generation of [i] differs. *)
Definition regenerated (p : hss_private_key_t) (i : Z) (g : bytes) : hss_private_key_t :=
  p {{ hss_generation := upd i g (hss_generation p) }}.

(** The length of an updated array. *)
Ltac static_length := cbn; rewrite ?length_upd; assumption.

Section Updates.
Variable p : hss_private_key_t.
Hypothesis Hst : static_ok H p.
Variable i : Z.
Hypothesis Hi : 0 <= i < n.

Lemma index_range : 0 <= i < 8.
Proof. pose proof (H_range H HH) as Hn. unfold HSS_MAX_LEVELS in Hn. lia. Qed.

Lemma gen_regenerated g j :
  0 <= j -> hss_gen (regenerated p i g) j = if j =? i then g else hss_gen p j.
Proof.
  intros Hj. pose proof index_range. pose proof (st_gens _ _ Hst) as Hl. unfold HSS_MAX_LEVELS in Hl.
  unfold hss_gen, regenerated. cbn. apply elem_upd; lia.
Qed.

Lemma static_regenerated g : generation_ok g -> static_ok H (regenerated p i g).
Proof.
  intros Hg. destruct Hst. split; try assumption; try (static_length).
  intros j Hj. rewrite gen_regenerated by lia. destruct (j =? i); [exact Hg | apply st_gen_ok0, Hj].
Qed.

Lemma key_built j :
  0 <= j -> hss_key (built H p i) j = if j =? i then level_key H i (hss_gen p i) 0 else hss_key p j.
Proof.
  intros Hj. pose proof index_range. pose proof (st_keys _ _ Hst) as Hl. unfold HSS_MAX_LEVELS in Hl.
  unfold hss_key, built. cbn. apply elem_upd; lia.
Qed.

Lemma pub_built j :
  0 <= j -> hss_pub (built H p i) j = if j =? i then level_pub H i (hss_gen p i) else hss_pub p j.
Proof.
  intros Hj. pose proof index_range. pose proof (st_pubs _ _ Hst) as Hl. unfold HSS_MAX_LEVELS in Hl.
  unfold hss_pub, built. cbn. apply elem_upd; lia.
Qed.

Lemma static_built : static_ok H (built H p i).
Proof. destruct Hst. split; try assumption; static_length. Qed.

Lemma level_built j :
  0 <= j < n -> (j <> i -> level_ok H p j) -> level_ok H (built H p i) j.
Proof.
  intros Hj Hl. destruct (Z.eq_dec j i) as [-> | Hne].
  - exists 0. pose proof (cap_range H HH i Hi). unfold level_at.
    rewrite key_built, pub_built, Z.eqb_refl by lia. split; [reflexivity |]. split; [reflexivity | lia].
  - destruct (Hl Hne) as (q & Hk & Hp & Hq). exists q. unfold level_at.
    rewrite key_built, pub_built by lia. rewrite (proj2 (Z.eqb_neq j i) Hne). auto.
Qed.

Hypothesis Hi' : i + 1 < n.

Lemma key_certified q buf j :
  0 <= j -> hss_key (certified H p i q buf) j
            = if j =? i then level_key H i (hss_gen p i) (q + 1) else hss_key p j.
Proof.
  intros Hj. pose proof index_range. pose proof (st_keys _ _ Hst) as Hl. unfold HSS_MAX_LEVELS in Hl.
  unfold hss_key, certified. cbn. apply elem_upd; lia.
Qed.

Lemma cert_certified q buf j :
  0 <= j -> hss_cert (certified H p i q buf) j = (if j =? i then buf else hss_cert p j) /\
            elem 0 (hss_cert_len (certified H p i q buf)) j
            = (if j =? i then sig_len (lp_of H i) (op_of H i) else elem 0 (hss_cert_len p) j).
Proof.
  intros Hj. pose proof (H_range H HH) as Hn. unfold HSS_MAX_LEVELS in Hn.
  pose proof (st_cert_sig _ _ Hst) as Hl. pose proof (st_cert_len _ _ Hst) as Hl'.
  unfold HSS_MAX_LEVELS in Hl, Hl'. unfold hss_cert, certified. cbn. split; apply elem_upd; lia.
Qed.

Lemma static_certified q buf : len buf = LMS_MAX_SIGNATURE_LEN -> static_ok H (certified H p i q buf).
Proof.
  intros Hb. destruct Hst. split; try assumption; try (static_length).
  intros j Hj. rewrite (proj1 (cert_certified q buf j ltac:(lia))).
  destruct (j =? i); [exact Hb | apply st_cert_buf0, Hj].
Qed.

(** Signing keeps the levels and the certificates, and adds the one of [i]. *)
Lemma certified_ok q buf :
  level_at H p i q -> q < cap H i -> is_cert H p i q buf ->
  (forall j, 0 <= j < n -> level_ok H p j) -> (forall j, 0 <= j < i -> cert_ok H p j) ->
  hss_ok H (i + 1) (certified H p i q buf).
Proof.
  intros (Hk & Hpb & Hq0) Hq (Hb & C & HC & HCb & Hsl) Hlv Hce. split.
  - apply static_certified, Hb.
  - intros j Hj. destruct (Hlv j Hj) as (q1 & Hk1 & Hp1 & Hq1). unfold level_ok, level_at.
    rewrite key_certified by lia. destruct (Z.eqb_spec j i) as [-> | Hne].
    + exists (q + 1). split; [reflexivity |]. split; [exact Hp1 | lia].
    + exists q1. auto.
  - intros j Hj. unfold cert_ok, cert_at. rewrite key_certified by lia.
    rewrite (proj1 (cert_certified q buf j ltac:(lia))), (proj2 (cert_certified q buf j ltac:(lia))).
    destruct (Z.eqb_spec j i) as [-> | Hne].
    + exists q. split; [cbn [level_key priv_q]; lia |]. exists C. auto.
    + exact (Hce j ltac:(lia)).
Qed.
End Updates.

(** Certificate [i] and what it is about are the same in both. *)
Definition cert_same (p p' : hss_private_key_t) (i : Z) : Prop :=
  hss_gen p' i = hss_gen p i /\ hss_cert p' i = hss_cert p i /\
  elem 0 (hss_cert_len p') i = elem 0 (hss_cert_len p) i /\ hss_pub p' (i + 1) = hss_pub p (i + 1).

(** Level [j] is at its next generation, certified by its parent at index [q];
    nothing else differs. *)
Record renewed_from (p p' : hss_private_key_t) (j q : Z) : Prop := {
  rn_level : level_at H p' j 0;
  rn_parent : level_at H p' (j - 1) (q + 1);
  rn_cert : cert_at H p' (j - 1) q;
  rn_gen : be_value (hss_gen p' j) = be_value (hss_gen p j) + 1;
  rn_gens : forall i, 0 <= i < n -> i <> j -> hss_gen p' i = hss_gen p i;
  rn_keys : forall i, 0 <= i < n -> i <> j -> i <> j - 1 -> hss_key p' i = hss_key p i;
  rn_certs : forall i, 0 <= i < j - 1 -> cert_same p p' i
}.

(** The state between the rebuild and the signature: only level [j] differs. *)
Lemma rebuilt_ok j p q g :
  1 <= j < n -> hss_ok H (j - 1) p -> level_at H p (j - 1) q -> generation_ok g ->
  let p2 := built H (regenerated p j g) j in
  static_ok H p2 /\ (forall i, 0 <= i < n -> level_ok H p2 i) /\
  (forall i, 0 <= i < j - 1 -> cert_ok H p2 i) /\ level_at H p2 (j - 1) q /\ level_at H p2 j 0 /\
  (forall i, 0 <= i -> hss_gen p2 i = if i =? j then g else hss_gen p i) /\
  (forall i, 0 <= i -> i <> j -> hss_key p2 i = hss_key p i) /\
  (forall i, 0 <= i < j - 1 -> cert_same p p2 i).
Proof.
  intros Hj [Hst Hlv Hce] Hat Hg. cbv zeta. set (p1 := regenerated p j g).
  assert (Hst1 : static_ok H p1) by (apply static_regenerated; (assumption || lia)).
  assert (Hgen : forall i, 0 <= i -> hss_gen p1 i = if i =? j then g else hss_gen p i)
    by (intros i Hi; apply gen_regenerated; (assumption || lia)).
  assert (Hkey : forall i, 0 <= i -> hss_key (built H p1 j) i
    = if i =? j then level_key H j (hss_gen p1 j) 0 else hss_key p i)
    by (intros i Hi; rewrite key_built by (exact Hst1 || lia); reflexivity).
  assert (Hpub : forall i, 0 <= i -> hss_pub (built H p1 j) i
    = if i =? j then level_pub H j (hss_gen p1 j) else hss_pub p i)
    by (intros i Hi; rewrite pub_built by (exact Hst1 || lia); reflexivity).
  assert (Hat2 : forall i q', 0 <= i -> i <> j -> level_at H p i q' -> level_at H (built H p1 j) i q').
  { intros i q' Hi Hne. unfold level_at. rewrite Hkey, Hpub by exact Hi.
    change (hss_gen (built H p1 j) i) with (hss_gen p1 i). rewrite (Hgen i) by exact Hi.
    rewrite (proj2 (Z.eqb_neq i j) Hne). auto. }
  assert (Hatj : level_at H (built H p1 j) j 0).
  { pose proof (cap_range H HH j ltac:(lia)). unfold level_at. rewrite Hkey, Hpub, Z.eqb_refl by lia.
    split; [reflexivity | split; [reflexivity | lia]]. }
  split; [apply static_built; exact Hst1 |].
  split; [| split; [| split; [apply Hat2; (assumption || lia) | split; [exact Hatj | split; [exact Hgen | split]]]]].
  - intros i Hi. destruct (Z.eq_dec i j) as [-> | Hne]; [exists 0; exact Hatj |].
    destruct (Hlv i Hi) as [q1 Hq1]. exists q1. apply Hat2; (assumption || lia).
  - intros i Hi. unfold cert_ok, cert_at. rewrite Hkey, Hpub by lia.
    change (hss_gen (built H p1 j) i) with (hss_gen p1 i). rewrite (Hgen i) by lia.
    rewrite (proj2 (Z.eqb_neq i j)), (proj2 (Z.eqb_neq (i + 1) j)) by lia. exact (Hce i Hi).
  - intros i Hi Hne. rewrite Hkey, (proj2 (Z.eqb_neq i j) Hne) by exact Hi. reflexivity.
  - intros i Hi. unfold cert_same. rewrite Hpub by lia.
    change (hss_gen (built H p1 j) i) with (hss_gen p1 i). rewrite (Hgen i) by lia.
    rewrite (proj2 (Z.eqb_neq i j)), (proj2 (Z.eqb_neq (i + 1) j)) by lia. repeat split.
Qed.

Lemma renew_state j p q g buf :
  1 <= j < n -> hss_ok H (j - 1) p -> level_at H p (j - 1) q -> q < cap H (j - 1) ->
  generation_ok g -> be_value g = be_value (hss_gen p j) + 1 ->
  let p2 := built H (regenerated p j g) j in
  is_cert H p2 (j - 1) q buf ->
  hss_ok H j (certified H p2 (j - 1) q buf) /\ renewed_from p (certified H p2 (j - 1) q buf) j q.
Proof.
  intros Hj Hok Hat Hq Hg Hgv p2 Hc.
  destruct (rebuilt_ok j p q g Hj Hok Hat Hg) as (Hst & Hlv & Hce & Hat2 & Hatj & Hgen & Hkey & Hsame).
  fold p2 in Hst, Hlv, Hce, Hat2, Hatj, Hgen, Hkey, Hsame. set (p3 := certified H p2 (j - 1) q buf).
  assert (Hkc : forall i, 0 <= i -> hss_key p3 i
     = if i =? j - 1 then level_key H (j - 1) (hss_gen p2 (j - 1)) (q + 1) else hss_key p2 i)
    by (intros i Hi; apply key_certified; (assumption || lia)).
  split.
  { replace j with (j - 1 + 1) at 1 by lia. apply certified_ok; (assumption || lia). }
  split.
  - unfold level_at. rewrite Hkc, (proj2 (Z.eqb_neq j (j - 1))) by lia. exact Hatj.
  - unfold level_at. rewrite Hkc, Z.eqb_refl by lia. split; [reflexivity |].
    split; [apply Hat2 | destruct Hat as (_ & _ & Hr); lia].
  - destruct Hc as (_ & C & HC & HCb & Hsl). exists C. unfold p3.
    rewrite (proj1 (cert_certified p2 Hst (j - 1) ltac:(lia) ltac:(lia) q buf (j - 1) ltac:(lia))),
      (proj2 (cert_certified p2 Hst (j - 1) ltac:(lia) ltac:(lia) q buf (j - 1) ltac:(lia))), Z.eqb_refl. auto.
  - change (hss_gen p3 j) with (hss_gen p2 j). rewrite Hgen, Z.eqb_refl by lia. exact Hgv.
  - intros i Hi Hne. change (hss_gen p3 i) with (hss_gen p2 i).
    rewrite Hgen, (proj2 (Z.eqb_neq i j) Hne) by lia. reflexivity.
  - intros i Hi Hne1 Hne2. rewrite Hkc, (proj2 (Z.eqb_neq i (j - 1)) Hne2) by lia.
    apply Hkey; lia.
  - intros i Hi. unfold cert_same, p3.
    rewrite (proj1 (cert_certified p2 Hst (j - 1) ltac:(lia) ltac:(lia) q buf i ltac:(lia))),
      (proj2 (cert_certified p2 Hst (j - 1) ltac:(lia) ltac:(lia) q buf i ltac:(lia))),
      (proj2 (Z.eqb_neq i (j - 1))) by lia. exact (Hsame i Hi).
Qed.

Lemma renew_ok j p q :
  1 <= j < n -> hss_ok H (j - 1) p -> level_at H p (j - 1) q -> q < cap H (j - 1) ->
  htriple B p (F \/ be_value (hss_gen p j) + 1 = 2 ^ 256) (renew_level j)
    (fun _ p' => hss_ok H j p' /\ renewed_from p p' j q).
Proof.
  intros Hj Hok Hat Hq. pose proof (hss_static _ _ _ Hok) as Hst. unfold renew_level.
  eapply htriple_bind.
  { apply htriple_or_return. eapply htriple_weaken; [apply increment_level_ok, (st_gen_ok _ _ Hst); lia
    | intros Hf; right; exact Hf]. }
  intros _ p1 (g & Hg & Hgv & ->). fold (regenerated p j g).
  assert (Hst1 : static_ok H (regenerated p j g)) by (apply static_regenerated; (assumption || lia)).
  eapply htriple_bind.
  { apply htriple_or_return. eapply htriple_weaken;
      [apply (build_level_ok F B HB H HH (regenerated p j g) j);
         [lia | apply Hst1 | apply (st_types1 _ _ Hst1); lia | apply (st_types2 _ _ Hst1); lia] |].
    intros Hf. left. exact Hf. }
  intros _ ? ->. destruct (rebuilt_ok j p q g Hj Hok Hat Hg) as (Hst2 & Hlv & _ & Hat2 & _).
  eapply htriple_conseq.
  { apply htriple_or_return, (sign_child_ok F B HB H HH _ (j - 1) q);
      [exact Hst2 | lia | lia | exact Hat2 | exact Hq | apply Hlv; lia]. }
  { auto. }
  intros _ p3 (buf & Hcert & ->). apply renew_state; assumption.
Qed.
End Renew.
