(* ===== verification/HssRefresh.v ===== *)
(** Refreshing the hierarchy: the cascade that replaces exhausted trees ends with an
    unexhausted last level, keeps the invariant, and only moves forward. *)

From S2P Require Import Prelude Types HashApi Params Winternitz Spec LmOts LmOtsCorrect Tree Lms LmsCorrect VerifyCorrect Scheme OtsTheorems LmsTheorems KeyFormat Hss HssCorrect.

Section Refresh.
Context `{P : Platform} `{Hh : HashApi}.
Variable F : Prop.
Variable B : backends.
Hypothesis HB : forall I_ seed, backends_sound F I_ seed B.
Variable H : hparams.
Hypothesis HH : hparams_ok H.
Abbreviation n := (H_levels H).

(** The generation of a level, and the next index of its tree. *)
Abbreviation G p i := (be_value (hss_gen p i)).
Abbreviation Q p i := (priv_q (hss_key p i)).

Lemma level_at_q p i : level_ok H p i -> level_at H p i (Q p i).
Proof. intros (q & Hk & Hp & Hq). rewrite Hk. cbn [level_key priv_q]. split; auto. Qed.

Lemma level_at_inv p i q : level_at H p i q -> Q p i = q.
Proof. intros (-> & _). reflexivity. Qed.

(** * Progress *)

(** A certificate is the same as before, or its one-time key was unused before. *)
Definition cert_fresh (p p' : hss_private_key_t) (i : Z) : Prop :=
  cert_same p p' i \/
  exists q', 0 <= q' < Q p' i /\ cert_at H p' i q' /\ (G p i < G p' i \/ G p' i = G p i /\ Q p i <= q').

(** From [p] to [p'] no generation moves by more than [d] or backwards, an index
    moves backwards only when its generation moves, and the certificates above
    level [k] are the same or made with one-time keys unused in [p]; the top tree
    stays. *)
Record progress (k d : Z) (p p' : hss_private_key_t) : Prop := {
  pg_gen : forall i, 0 <= i < n -> G p i <= G p' i <= G p i + d;
  pg_q : forall i, 0 <= i < n -> G p' i = G p i -> Q p i <= Q p' i;
  pg_cert : forall i, 0 <= i < k -> cert_fresh p p' i;
  pg_top : hss_gen p' 0 = hss_gen p 0
}.

Lemma progress_refl k p : progress k 0 p p.
Proof.
  split; intros; try lia; [left; repeat split | reflexivity].
Qed.

Lemma progress_le k d d' p p' : progress k d p p' -> d <= d' -> progress k d' p p'.
Proof. intros [H1 H2 H3 H4] Hd. split; auto. intros i Hi. specialize (H1 i Hi). lia. Qed.

Lemma cert_at_same p p' i q : cert_same p p' i -> cert_at H p i q -> cert_at H p' i q.
Proof. intros (Hg & Hc & Hl & Hp) Ha. unfold cert_at. rewrite Hg, Hc, Hl, Hp. exact Ha. Qed.

Lemma cert_same_trans p p' p'' i : cert_same p p' i -> cert_same p' p'' i -> cert_same p p'' i.
Proof. intros (H1 & H2 & H3 & H4) (H5 & H6 & H7 & H8). repeat split; congruence. Qed.

Lemma cert_fresh_trans p p' p'' i :
  G p i <= G p' i <= G p'' i -> (G p' i = G p i -> Q p i <= Q p' i) ->
  (G p'' i = G p' i -> Q p' i <= Q p'' i) ->
  cert_fresh p p' i -> cert_fresh p' p'' i -> cert_fresh p p'' i.
Proof.
  intros HG Q1 Q2 [S1 | (q1 & R1 & A1 & F1)] [S2 | (q2 & R2 & A2 & F2)].
  - left. exact (cert_same_trans _ _ _ _ S1 S2).
  - right. exists q2. split; [exact R2 | split; [exact A2 | lia]].
  - right. exists q1. assert (G p'' i = G p' i) by (destruct S2 as (-> & _); reflexivity).
    split; [lia | split; [exact (cert_at_same _ _ _ _ S2 A1) | lia]].
  - right. exists q2. split; [exact R2 | split; [exact A2 | lia]].
Qed.

Lemma progress_trans k d d' p p' p'' :
  k <= n -> progress k d p p' -> progress k d' p' p'' -> progress k (d + d') p p''.
Proof.
  intros Hk [G1 Q1 C1 T1] [G2 Q2 C2 T2]. split; [| | | congruence].
  - intros i Hi. specialize (G1 i Hi). specialize (G2 i Hi). lia.
  - intros i Hi He. specialize (G1 i Hi). specialize (G2 i Hi).
    specialize (Q1 i Hi ltac:(lia)). specialize (Q2 i Hi ltac:(lia)). lia.
  - intros i Hi. specialize (G1 i ltac:(lia)). specialize (G2 i ltac:(lia)).
    apply cert_fresh_trans with p'; [lia | apply Q1; lia | apply Q2; lia | apply C1, Hi | apply C2, Hi].
Qed.

(** What one renewal adds to the progress made so far. *)
Lemma progress_renewed j d d' q p p' p'' :
  1 <= j < n -> d <= d' -> progress (j - 1) d p p' -> level_at H p' (j - 1) q ->
  G p' j + 1 <= G p j + d' -> renewed_from H p' p'' j q -> progress j d' p p''.
Proof.
  intros Hj Hd [G1 Q1 C1 T1] Hat Hg [Hl Hp Hc Hg1 Hgs Hks Hcs].
  pose proof (proj2 (proj2 Hat)) as Hq0. apply level_at_inv in Hat, Hp.
  assert (Hgj : forall i, 0 <= i < n -> i <> j -> G p'' i = G p' i)
    by (intros i Hi Hne; rewrite Hgs by assumption; reflexivity).
  assert (Hqi : forall i, 0 <= i < n -> i <> j -> Q p' i <= Q p'' i).
  { intros i Hi Hne. destruct (Z.eq_dec i (j - 1)) as [-> | Hne2]; [lia | rewrite Hks by assumption; lia]. }
  split; [| | | rewrite Hgs by lia; exact T1].
  - intros i Hi. specialize (G1 i Hi).
    destruct (Z.eq_dec i j) as [-> | Hne]; [lia | rewrite Hgj by assumption; lia].
  - intros i Hi He. specialize (G1 i Hi). destruct (Z.eq_dec i j) as [-> | Hne]; [lia |].
    rewrite Hgj in He by assumption. specialize (Q1 i Hi He). specialize (Hqi i Hi Hne). lia.
  - intros i Hi. specialize (G1 i ltac:(lia)). specialize (Q1 i ltac:(lia)).
    specialize (Hgj i ltac:(lia) ltac:(lia)).
    destruct (Z.eq_dec i (j - 1)) as [-> | Hne].
    + right. exists q. split; [lia | split; [exact Hc | lia]].
    + apply cert_fresh_trans with p'; [lia | exact Q1 | intros _; apply Hqi; lia
        | apply C1; lia | left; apply Hcs; lia].
Qed.

(** * The cascade *)

(** Every level down to [l] is exhausted. *)
Definition spent_upto (p : hss_private_key_t) (l : Z) : Prop :=
  forall i, 0 <= i <= l -> Q p i = cap H i.

(** Some generation is within [d] of its last value. *)
Definition counter_end (d : Z) (p : hss_private_key_t) : Prop :=
  exists i, 0 <= i < n /\ 2 ^ 256 <= G p i + d.

Lemma capacity_ok p i :
  0 <= i < n -> level_ok H p i -> hoare (inv B) F (lms_capacity (hss_key p i)) (fun c => c = cap H i).
Proof.
  intros Hi (q & Hk & _). rewrite Hk. destruct (level_params H HH i Hi) as [E _].
  destruct (matching_params_wf _ _ _ _ E) as (Hwf & _ & Hl & _).
  unfold lms_capacity. eapply hoare_bind; [apply ok_returns, returns_or_return, get_lms_param_returns, Hl |].
  intros ? ->. apply hoare_ret. apply leaf_base_eq, Hwf.
Qed.

(** The invariant of the loop that rebuilds the levels below [l]. *)
Record sweep (l : Z) (pa : hss_private_key_t) (d : Z) (j : Z) (p' : hss_private_key_t) : Prop := {
  sw_ok : hss_ok H (j - 1) p';
  sw_last : level_at H p' (j - 1) 0;
  sw_l : Q p' l <= 1;
  sw_prog : progress (j - 1) d pa p';
  sw_gens : forall i, j <= i < n -> G p' i <= G pa i + d - 1
}.

Lemma sweep_step l pa d j p' :
  0 <= l < j -> j < n -> 0 <= d -> sweep l pa d j p' ->
  htriple B p' (F \/ counter_end d pa) (renew_level j) (fun _ p'' => sweep l pa d (j + 1) p'').
Proof.
  intros Hl Hj Hd [Hok Hat Hq Hp Hg]. pose proof (cap_range H HH (j - 1) ltac:(lia)) as Hc.
  eapply htriple_conseq; [apply (renew_ok F B HB H HH j p' 0); (assumption || lia) | |].
  - intros [Hf | He]; [left; exact Hf | right]. exists j. specialize (Hg j ltac:(lia)). split; lia.
  - intros _ p'' [Hok' Hr]. specialize (Hg j ltac:(lia)) as Hgj.
    pose proof Hr as [Hrl Hrp Hrc Hrg Hrgs Hrks Hrcs].
    split; replace (j + 1 - 1) with j by lia; try assumption.
    + destruct (Z.eq_dec l (j - 1)) as [-> | Hne].
      * apply level_at_inv in Hrp. lia.
      * rewrite Hrks by lia. exact Hq.
    + apply (progress_renewed j d d 0 pa p' p''); (assumption || lia).
    + intros i Hi. rewrite Hrgs by lia. apply Hg. lia.
Qed.

(** Replacing level [l], whose parent can sign, and everything below it. *)
Lemma replace_ok p pa l d :
  1 <= l < n -> 0 <= d -> hss_ok H (n - 1) pa -> progress (n - 1) d p pa -> Q pa (l - 1) < cap H (l - 1) ->
  htriple B pa (F \/ counter_end (d + 1) p)
    (renew_level l ;; loopM (Z.to_nat (n - (l + 1))) (l + 1) (fun j _ => renew_level j) tt)
    (fun _ p' => hss_ok H (n - 1) p' /\ progress (n - 1) (d + 1) p p' /\ Q p' l <= 1).
Proof.
  intros Hl Hd Hok Hp Hq.
  assert (Hok' : hss_ok H (l - 1) pa) by (destruct Hok as [H1 H2 H3]; split; auto; intros i Hi; apply H3; lia).
  assert (Hp' : progress (l - 1) d p pa) by (destruct Hp as [H1 H2 H3 H4]; split; auto; intros i Hi; apply H3; lia).
  pose proof (level_at_q pa (l - 1) (hss_level _ _ _ Hok (l - 1) ltac:(lia))) as Hat.
  pose proof (pg_gen _ _ _ _ Hp) as Hg.
  eapply htriple_bind.
  { eapply htriple_weaken; [apply (renew_ok F B HB H HH l pa _ Hl Hok' Hat Hq) |].
    intros [Hf | He]; [left; exact Hf | right]. exists l. specialize (Hg l ltac:(lia)). split; lia. }
  intros _ p1 [Hok1 Hr]. pose proof Hr as [Hrl Hrp Hrc Hrg Hrgs Hrks Hrcs].
  assert (Hs : sweep l p (d + 1) (l + 1) p1).
  { split; replace (l + 1 - 1) with l by lia; try assumption.
    - apply level_at_inv in Hrl. lia.
    - specialize (Hg l ltac:(lia)). apply (progress_renewed l d (d + 1) (Q pa (l - 1)) p pa p1); (assumption || lia).
    - intros i Hi. rewrite Hrgs by lia. specialize (Hg i ltac:(lia)). lia. }
  eapply htriple_post.
  { apply (htriple_loop B (F \/ counter_end (d + 1) p) (Z.to_nat (n - (l + 1))) (l + 1)
      (fun j _ => renew_level j) (fun j _ p' => sweep l p (d + 1) j p') tt p1 Hs).
    intros j _ p' Hj. apply sweep_step; lia. }
  cbv beta. replace (l + 1 + Z.of_nat (Z.to_nat (n - (l + 1)))) with n by lia.
  intros _ p' [H1 _ H3 H4 _]. auto.
Qed.

(** The look at the level's own tree. *)
Lemma entry_ok p k (E : Prop) (rest : hss_private_key_t -> HM unit) R :
  0 <= k < n -> hss_ok H (n - 1) p ->
  (Q p k < cap H k -> R tt p) ->
  (Q p k = cap H k -> htriple B p (F \/ E) (rest p) R) ->
  htriple B p (F \/ E)
    (priv ← get_priv;
     c ← on_hworld (or_return LMS_ERR_INVALID (lms_capacity (hss_key priv k)));
     if Q priv k <? c then mret tt else rest priv) R.
Proof.
  intros Hk Hok H1 H2. eapply htriple_bind; [apply htriple_get |]. intros ? ? [-> ->].
  eapply htriple_bind; [eapply htriple_weaken;
    [apply htriple_world, hoare_or_return, capacity_ok; [exact Hk | apply (hss_level _ _ _ Hok), Hk]
    | intros Hf; left; exact Hf] |].
  intros ? ? [-> ->]. destruct (Z.ltb_spec (Q p k) (cap H k)) as [Hq | Hq].
  - apply htriple_ret, H1, Hq.
  - apply H2. pose proof (proj2 (proj2 (level_at_q p k (hss_level _ _ _ Hok k Hk)))). lia.
Qed.

Lemma refresh_ok (l : nat) : forall p,
  Z.of_nat l < n -> hss_ok H (n - 1) p ->
  htriple B p (F \/ spent_upto p (Z.of_nat l) \/ counter_end (Z.of_nat l) p)
    (refresh_level_if_exhausted l)
    (fun _ p' => hss_ok H (n - 1) p' /\ progress (n - 1) (Z.of_nat l) p p' /\
                 Q p' (Z.of_nat l) < cap H (Z.of_nat l) /\
                 (Q p (Z.of_nat l) < cap H (Z.of_nat l) -> p' = p)).
Proof.
  induction l as [| l IH]; intros p Hl Hok; cbn [refresh_level_if_exhausted].
  - apply entry_ok; [lia | exact Hok | |].
    { intros Hq. split; [exact Hok | split; [apply progress_refl | auto]]. }
    intros Hq. apply htriple_fail. right. left. intros i Hi. replace i with (Z.of_nat 0) by lia. exact Hq.
  - set (k := Z.of_nat (S l)). apply entry_ok; [lia | exact Hok | |].
    { intros Hq. split; [exact Hok |]. split; [apply (progress_le _ 0); [apply progress_refl | lia] | auto]. }
    intros Hq. eapply htriple_bind.
    { apply htriple_or_return. eapply htriple_weaken; [apply (IH p); [lia | exact Hok] |].
      intros [Hf | [Hs | (i & Hi & He)]]; [auto | right; left | right; right; exists i; split; lia].
      intros i Hi. destruct (Z.eq_dec i k) as [-> | Hne]; [exact Hq | apply Hs; lia]. }
    intros _ pa (Hoka & Hpa & Hqa & _).
    rewrite (st_levels _ _ (hss_static _ _ _ Hok)).
    eapply htriple_conseq; [apply (replace_ok p pa k (Z.of_nat l)); try assumption; try lia | |].
    + replace (k - 1) with (Z.of_nat l) by lia. exact Hqa.
    + intros [Hf | He]; [auto | right; right]. replace k with (Z.of_nat l + 1) by lia. exact He.
    + intros _ p' (Hok' & Hp' & Hq'). pose proof (cap_range H HH k ltac:(lia)).
      split; [exact Hok' |]. split; [replace k with (Z.of_nat l + 1) by lia; exact Hp' |]. split; lia.
Qed.

(** With every level down to [l] exhausted there is nothing to refresh from. *)
Lemma refresh_spent (l : nat) p :
  Z.of_nat l < n -> hss_ok H (n - 1) p -> spent_upto p (Z.of_nat l) ->
  htriple B p True (refresh_level_if_exhausted l) (fun _ _ => False).
Proof.
  induction l as [| l IH]; intros Hl Hok Hs; cbn [refresh_level_if_exhausted];
    pose proof (Hs _ (conj (Nat2Z.is_nonneg _) (Z.le_refl _))) as Hc;
    (eapply htriple_weaken; [apply (entry_ok p _ True); [lia | exact Hok | intros; lia | intros _] | auto]).
  - apply htriple_fail. auto.
  - eapply htriple_bind with (Q := fun _ _ => False); [| intros ? ? []].
    apply htriple_or_return. eapply htriple_weaken; [apply IH; [lia | exact Hok |] | auto].
    intros i Hi. apply Hs. lia.
Qed.
End Refresh.
