(* ===== verification/HssVerify.v ===== *)
(** Verification of a hierarchical signature: a reference verifier, and the proof that
    [hss_verify] (src/hss.c) decides it. *)

From S2P Require Import Prelude Types HashApi Params Winternitz Spec LmOts LmOtsCorrect Tree Lms LmsCorrect VerifyCorrect Scheme OtsTheorems LmsTheorems KeyFormat Hss HssCorrect.

(** * The reference verifier (RFC 8554, algorithm 8) *)

Definition pub_of_bytes (b : bytes) : option lms_public_key_t :=
  match matching_params (lms_load_u32 b) (lms_load_u32 (from 4 b)) with
  | None => None
  | Some _ => Some (mkPub (lms_load_u32 b) (lms_load_u32 (from 4 b)) (slice 8 LMS_I_LEN b)
                      (slice (8 + LMS_I_LEN) LMS_N b))
  end.

(** [k] certificates, then the signature of the message. *)
Fixpoint chain_accepts `{Hh : HashApi} (k : nat) (pub : lms_public_key_t) (msg sg : bytes) : bool :=
  match k with
  | O => rfc_accepts pub msg sg
  | S k' =>
      let L := signature_len_spec (pub_lms_type pub) (pub_lmots_type pub) in
      let child := slice L LMS_PUBLIC_KEY_LEN sg in
      (L + LMS_PUBLIC_KEY_LEN <=? len sg) && rfc_accepts pub child (slice 0 L sg)
      && match pub_of_bytes child with
         | None => false
         | Some next => chain_accepts k' next msg (from (L + LMS_PUBLIC_KEY_LEN) sg)
         end
  end.

Definition hss_accepts `{Hh : HashApi} (pub : hss_public_key_t) (msg sg : bytes) : bool :=
  (4 <=? len sg) && (lms_load_u32 sg + 1 =? hpub_levels pub)
  && chain_accepts (Z.to_nat (hpub_levels pub - 1)) (hpub_root_pub pub) msg (from 4 sg).

Lemma public_parse_returns `{P : Platform} B p b :
  p <> NULL -> len b = LMS_PUBLIC_KEY_LEN ->
  match pub_of_bytes b with
  | Some k => returns B (lms_public_key_parse p (Buf b)) k
  | None => raises B (lms_public_key_parse p (Buf b)) LMS_ERR_INVALID
  end.
Proof.
  intros Hp Hl. unfold pub_of_bytes, lms_public_key_parse. rewrite (proj2 (Z.eqb_neq p NULL) Hp).
  cbn [orb cbuf_null cbuf_len cbuf_data]. rewrite Hl, Z.eqb_refl. cbn [negb].
  destruct (matching_params _ _) as [[lp op] |] eqn:E.
  - eapply returns_bind; [apply returns_ret |].
    eapply returns_bind; [apply get_matching_returns, E | apply returns_ret].
  - eapply raises_bind_r; [apply returns_ret |]. apply raises_bind, get_matching_raises, E.
Qed.

Lemma pub_of_bytes_ok `{Hh : HashApi} b k :
  (forall a, available a) -> Forall is_byte b -> len b = LMS_PUBLIC_KEY_LEN ->
  pub_of_bytes b = Some k -> exists lp op, pub_ok k lp op.
Proof.
  intros Ha Hb Hl. unfold pub_of_bytes. change LMS_PUBLIC_KEY_LEN with 56 in Hl.
  destruct (matching_params _ _) as [[lp op] |] eqn:E; [intros [= <-] | discriminate].
  exists lp, op. split; [| exact E | apply Ha]. split; cbn [pub_lms_type pub_lmots_type pub_I pub_root].
  - apply (load_field_u32 0 b Hb); lia.
  - apply (load_field_u32 4 b Hb); lia.
  - apply len_slice; unfold LMS_I_LEN; lia.
  - apply Forall_slice, Hb.
  - apply len_slice; unfold LMS_I_LEN, LMS_N; lia.
  - apply Forall_slice, Hb.
Qed.

Section Verify.
Context `{P : Platform} `{Hh : HashApi}.
Variable F : Prop.
Variable B : backends.
Hypothesis HB : backends_sound F [] [] B.
Hypothesis Hall : forall a, available a.
Variable m : cbuf.
Hypothesis Hm : msg_ok F m.
Abbreviation msg := (cbuf_data m).

Lemma pub_sig_len pub lp op :
  pub_ok pub lp op ->
  signature_len_spec (pub_lms_type pub) (pub_lmots_type pub) = sig_len lp op /\
  0 < sig_len lp op <= LMS_MAX_SIGNATURE_LEN.
Proof.
  intros [_ E _]. destruct (matching_params_wf _ _ _ _ E) as (Hwf & _ & _ & Hop & _).
  pose proof (lms_height_range _ Hwf). pose proof (op_p_range _ _ Hop).
  unfold signature_len_spec. rewrite E. split; [reflexivity |].
  unfold sig_len, LMS_MAX_SIGNATURE_LEN, LMS_N, LMS_MAX_OTS_P, LMS_MAX_HEIGHT. lia.
Qed.

Lemma hoare_assoc {A A' A''} G (x : C A) (f : A -> C A') (g : A' -> C A'') Q :
  hoare (inv B) G (x ≫= (fun a => f a ≫= g)) Q -> hoare (inv B) G ((x ≫= f) ≫= g) Q.
Proof.
  intros Hx w Hw. specialize (Hx w Hw). unfold mbind, M_bind in *.
  destruct (x w) as [[a | e] w']; exact Hx.
Qed.

Lemma reject_guard {A} (G : Prop) c e (f : unit -> C A) Q :
  c = true -> G -> hoare (inv B) G (guard_err c e ≫= f) Q.
Proof. intros -> HG. apply hoare_bind with (P := fun _ => False); [apply hoare_fail, HG | contradiction]. Qed.

(** One certificate, at offset [off] of the signature. *)
Lemma verify_step_ok pub lp op sg off :
  pub_ok pub lp op -> Forall is_byte sg -> 0 <= off <= len sg ->
  let L := signature_len_spec (pub_lms_type pub) (pub_lmots_type pub) in
  let child := slice (off + L) LMS_PUBLIC_KEY_LEN sg in
  let good := (L + LMS_PUBLIC_KEY_LEN <=? len sg - off) && rfc_accepts pub child (slice off L sg) in
  hoare (inv B) (F \/ good = false \/ pub_of_bytes child = None) (verify_step sg pub off)
    (fun '(next, off') => good = true /\ pub_of_bytes child = Some next /\
       off' = off + (L + LMS_PUBLIC_KEY_LEN) /\ off' <= len sg /\ exists lp' op', pub_ok next lp' op').
Proof.
  intros Hp Hb Ho. cbv zeta. destruct (pub_sig_len pub lp op Hp) as [EL HL].
  set (L := signature_len_spec _ _) in *. unfold verify_step.
  eapply hoare_bind; [apply ok_returns, signature_len_returns |]. intros ? ->. fold L.
  change LMS_PUBLIC_KEY_LEN with 56.
  destruct (Z.leb_spec (L + 56) (len sg - off)) as [Hfit | Hfit]; cbn [andb].
  2: { rewrite (proj2 (Z.eqb_neq L 0)), (proj2 (Z.ltb_lt _ _)) by lia.
       apply reject_guard; auto. }
  rewrite (proj2 (Z.eqb_neq L 0)), (proj2 (Z.ltb_ge _ _)) by lia. cbn [orb].
  apply pass_guard; [reflexivity |]. set (child := slice (off + L) 56 sg).
  assert (Hcl : len child = LMS_PUBLIC_KEY_LEN) by (change LMS_PUBLIC_KEY_LEN with 56; apply len_slice; lia).
  assert (Hcb : Forall is_byte child) by apply Forall_slice, Hb.
  eapply hoare_bind.
  { apply hoare_or_return. eapply hoare_weaken;
      [apply (verify_ok F [] [] B HB pub lp op Hp (Buf child) (slice off L sg)
         (Forall_slice _ _ _ _ Hb) (child_msg_ok F child Hcl (Forall_slice _ _ _ _ Hb))) |]. tauto. }
  cbv beta. intros _ Hacc. cbn [cbuf_data] in Hacc. rewrite Hacc.
  eapply hoare_bind with (P := fun next => pub_of_bytes child = Some next).
  { pose proof (public_parse_returns B local_ptr child ltac:(discriminate) Hcl) as Hpr.
    apply hoare_or_return. destruct (pub_of_bytes child) as [k |].
    - eapply hoare_conseq; [apply ok_returns, Hpr |]. intros ? ->. reflexivity.
    - intros w Hw. destruct (Hpr w Hw) as (w' & -> & Hw'). auto. }
  intros next Hn. apply hoare_ret. split; [reflexivity |]. split; [exact Hn |].
  split; [lia |]. split; [lia |]. exact (pub_of_bytes_ok child next Hall Hcb Hcl Hn).
Qed.

(** The loop over [k] certificates, and the signature of the message after it. *)
Lemma verify_chain_ok k : forall i pub lp op sg off,
  pub_ok pub lp op -> Forall is_byte sg -> 0 <= off <= len sg ->
  hoare (inv B) (F \/ chain_accepts k pub msg (from off sg) = false)
    ('(current, off) ← loopM k i (fun _ '(current, off) => verify_step sg current off) (pub, off);
     guard_err (len sg <? off) LMS_ERR_INVALID ;;
     lms_verify (Some current) m (Buf (from off sg)))
    (fun _ => chain_accepts k pub msg (from off sg) = true).
Proof.
  induction k as [| k IH]; intros i pub lp op sg off Hp Hb Ho.
  - apply pass_guard; [apply Z.ltb_ge; lia |].
    apply (verify_ok F [] [] B HB pub lp op Hp m (from off sg)); [apply Forall_from, Hb | exact Hm].
  - destruct (pub_sig_len pub lp op Hp) as [EL HL].
    cbn [chain_accepts loopM]. set (L := signature_len_spec _ _) in *.
    rewrite len_from, slice_from by lia. rewrite slice_from, from_from, Z.add_0_r by (unfold LMS_PUBLIC_KEY_LEN, LMS_I_LEN, LMS_N; lia).
    pose proof (verify_step_ok pub lp op sg off Hp Hb Ho) as Hs. cbv zeta in Hs. fold L in Hs.
    set (good := _ && _) in *. set (child := slice (off + L) _ sg) in *.
    apply hoare_assoc.
    eapply hoare_bind.
    { eapply hoare_weaken; [exact Hs |]. intros [Hf | [-> | ->]]; [auto | right; reflexivity | right].
      apply andb_false_r. }
    intros [next off'] (-> & -> & -> & Hle & lp' & op' & Hp'). cbn [andb].
    apply (IH (i + 1) next lp' op' sg); [exact Hp' | exact Hb | unfold LMS_PUBLIC_KEY_LEN, LMS_I_LEN, LMS_N in *; lia].
Qed.

Lemma hss_verify_ok hpub lp op sg :
  1 <= hpub_levels hpub <= HSS_MAX_LEVELS -> pub_ok (hpub_root_pub hpub) lp op -> Forall is_byte sg ->
  hoare (inv B) (F \/ hss_accepts hpub msg sg = false) (hss_verify (Some hpub) m (Buf sg))
    (fun _ => hss_accepts hpub msg sg = true).
Proof.
  intros Hn Hp Hb. unfold hss_verify, hss_accepts. cbn [cbuf_null orb cbuf_len cbuf_data].
  unfold HSS_MAX_LEVELS in *.
  apply pass_guard; [rewrite (msg_readable _ _ Hm), (proj2 (Z.eqb_neq _ 0)) by lia; reflexivity |].
  destruct (Z.leb_spec 4 (len sg)) as [Hl | Hl]; cbn [andb].
  2: { rewrite (proj2 (Z.ltb_lt _ _) Hl). apply reject_guard; auto. }
  apply pass_guard; [apply Z.ltb_ge, Hl |].
  pose proof (load_field_u32 0 sg Hb ltac:(lia) ltac:(lia)) as Hu. change (from 0 sg) with sg in Hu. unfold is_u32 in Hu.
  destruct (Z.eqb_spec (lms_load_u32 sg + 1) (hpub_levels hpub)) as [He | He]; cbn [andb].
  - rewrite u32_small, He, Z.eqb_refl, (proj2 (Z.eqb_neq _ 0)), (proj2 (Z.ltb_ge _ _)) by lia.
    apply pass_guard; [reflexivity |].
    apply (verify_chain_ok (Z.to_nat (hpub_levels hpub - 1)) 0 (hpub_root_pub hpub) lp op sg 4 Hp Hb). lia.
  - rewrite (proj2 (Z.eqb_neq _ (hpub_levels hpub))).
    2: { rewrite u32_mod. intros Hc. apply He. Z.to_euclidean_division_equations. lia. }
    apply reject_guard; auto.
Qed.
End Verify.
