(* ===== verification/HssSign.v ===== *)
(** The life of a hierarchical key (src/hss.c): initialisation establishes the
    invariant, and signing keeps it, writes a signature the reference verifier
    accepts, and touches the caller's key only when it succeeds. *)

From S2P Require Import Prelude Types HashApi Params Winternitz Spec LmOts LmOtsCorrect Tree Lms LmsCorrect VerifyCorrect Scheme OtsTheorems LmsTheorems KeyFormat Hss HssCorrect HssRefresh HssVerify.

#[local] Arguments elem : simpl never.
#[local] Arguments hss_gen : simpl never.

(** * Initialisation *)

(** The hierarchy the arguments of [hss_private_key_init] describe. *)
Definition hparams_of (levels : Z) (lms_types lmots_types : list Z) (seed : bytes) : hparams :=
  mkHparams levels (fun i => (elem 0 lms_types i, elem 0 lmots_types i)) seed.

Definition zero_gen : bytes := fill 0 HSS_GENERATION_LEN.

Lemma zero_gen_ok : generation_ok zero_gen.
Proof. split; [reflexivity |]. apply Forall_replicate. unfold is_byte. lia. Qed.

Section Init.
Context `{P : Platform} `{Hh : HashApi}.
Variable F : Prop.
Variable B : backends.
Hypothesis HB : forall I_ seed, backends_sound F I_ seed B.
Variable n : Z.
Variable lms_types lmots_types : list Z.
Variable master : bytes.
Abbreviation H := (hparams_of n lms_types lmots_types master).
Hypothesis HH : hparams_ok H.
Hypothesis Hsame : forall i, 0 <= i < n -> alg_of H i = alg_of H 0.

Lemma n_range : 1 <= n <= 8.
Proof. exact (H_range _ HH). Qed.

Lemma check_same_hash_ok i :
  1 <= i < n -> hoare (inv B) F (check_same_hash lms_types lmots_types i) (fun _ => True).
Proof.
  intros Hi. destruct (level_params H HH 0 ltac:(cbn; lia)) as [E0 _].
  destruct (level_params H HH i ltac:(cbn; lia)) as [Ei _].
  destruct (matching_params_wf _ _ _ _ E0) as (_ & _ & Hl0 & Ho0 & Ha0).
  destruct (matching_params_wf _ _ _ _ Ei) as (_ & _ & Hli & Hoi & Hai).
  pose proof (Hsame i ltac:(lia)) as Hs. unfold alg_of in Hs. unfold check_same_hash.
  eapply hoare_bind; [apply ok_returns, returns_or_return, get_lms_param_returns, Hl0 |]. intros ? ->.
  eapply hoare_bind; [apply ok_returns, returns_or_return, get_lms_param_returns, Hli |]. intros ? ->.
  eapply hoare_bind; [apply ok_returns, returns_or_return, get_lmots_param_returns, Ho0 |]. intros ? ->.
  eapply hoare_bind; [apply ok_returns, returns_or_return, get_lmots_param_returns, Hoi |]. intros ? ->.
  rewrite !bool_decide_true by congruence. apply hoare_ret. exact I.
Qed.

(** The structure while its first [k] levels are built. *)
Record building (k : Z) (p : hss_private_key_t) : Prop := {
  bd_levels : hss_levels p = n;
  bd_master : hss_master_seed p = master;
  bd_len1 : length (hss_lms_types p) = 8%nat;
  bd_len2 : length (hss_lmots_types p) = 8%nat;
  bd_types1 : forall i, 0 <= i < k -> elem 0 (hss_lms_types p) i = t1 H i;
  bd_types2 : forall i, 0 <= i < k -> elem 0 (hss_lmots_types p) i = t2 H i;
  bd_gen : hss_generation p = replicate 8 zero_gen;
  bd_keys : length (hss_keys p) = 8%nat;
  bd_pubs : length (hss_pubs p) = 8%nat;
  bd_cert_len : hss_cert_len p = replicate 7 0;
  bd_cert_sig : hss_cert_sig p = replicate 7 (fill 0 LMS_MAX_SIGNATURE_LEN);
  bd_key : forall i, 0 <= i < k -> hss_key p i = level_key H i zero_gen 0;
  bd_pub : forall i, 0 <= i < k -> hss_pub p i = level_pub H i zero_gen
}.

Lemma elem_replicate {A} (d a : A) k i : 0 <= i < Z.of_nat k -> elem d (replicate k a) i = a.
Proof.
  intros Hi. unfold elem. rewrite nth_lookup, lookup_replicate_2 by lia. reflexivity.
Qed.

Lemma building_gen k p i : building k p -> 0 <= i < n -> hss_gen p i = zero_gen.
Proof.
  intros Hb Hi. pose proof n_range as Hn. unfold hss_gen. rewrite (bd_gen _ _ Hb).
  apply elem_replicate. lia.
Qed.

Lemma building_init : building 0 (zero_hss {{ hss_levels := n; hss_master_seed := master }}).
Proof. split; try reflexivity; lia. Qed.

(** The structure after one turn of the loop. *)
Definition typed (p : hss_private_key_t) (i : Z) : hss_private_key_t :=
  p {{ hss_lms_types := upd i (elem 0 lms_types i) (hss_lms_types p);
       hss_lmots_types := upd i (elem 0 lmots_types i) (hss_lmots_types p) }}.

Lemma building_step k p : building k p -> 0 <= k < n -> building (k + 1) (built H (typed p k) k).
Proof.
  intros Hb Hk. pose proof n_range as Hn.
  assert (Hg : hss_gen (typed p k) k = zero_gen) by exact (building_gen _ _ k Hb Hk).
  destruct Hb, p. unfold hss_key, hss_pub in *. cbn in *.
  split; cbn; rewrite ?length_upd; try assumption; intros i Hi;
    unfold hss_key, hss_pub; cbn; rewrite elem_upd by lia; rewrite ?Hg;
    (destruct (Z.eqb_spec i k) as [-> | Hne]; [reflexivity |]).
  - apply bd_types3. lia.
  - apply bd_types4. lia.
  - apply bd_key0. lia.
  - apply bd_pub0. lia.
Qed.

Lemma build_turn_ok k p :
  building k p -> 0 <= k < n ->
  htriple B p F
    (update_priv (fun p => p {{ hss_lms_types := upd k (elem 0 lms_types k) (hss_lms_types p);
                                hss_lmots_types := upd k (elem 0 lmots_types k) (hss_lmots_types p) }}) ;;
     or_return LMS_ERR_INVALID (build_level k)) (fun _ => building (k + 1)).
Proof.
  intros Hb Hk. pose proof n_range as Hn. eapply htriple_bind; [apply htriple_update |]. intros _ ? ->.
  fold (typed p k). eapply htriple_post.
  - apply htriple_or_return, (build_level_ok F B HB H HH (typed p k) k); cbn; [lia | apply Hb | |];
      (rewrite elem_upd_eq; [reflexivity |]); destruct Hb; lia.
  - intros _ ? ->. apply building_step; assumption.
Qed.

Lemma building_static p : building n p -> static_ok H p.
Proof.
  intros Hb. pose proof n_range as Hn. pose proof (fun i => building_gen _ _ i Hb) as Hg. destruct Hb.
  split; unfold HSS_MAX_LEVELS; try assumption; try lia.
  - rewrite bd_gen0. reflexivity.
  - rewrite bd_cert_len0. reflexivity.
  - rewrite bd_cert_sig0. reflexivity.
  - intros i Hi. cbn in Hi. unfold hss_cert. rewrite bd_cert_sig0, elem_replicate by lia.
    apply len_fill. discriminate.
  - intros i Hi. rewrite Hg by exact Hi. apply zero_gen_ok.
Qed.

(** The structure while its first [k] certificates are made. *)
Record certifying (k : Z) (p : hss_private_key_t) : Prop := {
  cf_ok : hss_ok H k p;
  cf_gen : forall i, 0 <= i < n -> hss_gen p i = zero_gen;
  cf_q : forall i, 0 <= i < n -> priv_q (hss_key p i) = if i <? k then 1 else 0
}.

Lemma certifying_start p : building n p -> certifying 0 p.
Proof.
  intros Hb. pose proof (building_static p Hb) as Hst. pose proof (fun i => building_gen _ _ i Hb) as Hg.
  destruct Hb. split; [split; [exact Hst | |] | exact Hg |].
  - intros i Hi. exists 0. pose proof (cap_range H HH i Hi). unfold level_at.
    rewrite bd_key0, bd_pub0, Hg by exact Hi. repeat split; lia.
  - intros i Hi. lia.
  - intros i Hi. rewrite bd_key0 by exact Hi. rewrite (proj2 (Z.ltb_ge _ _)) by lia. reflexivity.
Qed.

Lemma certify_turn_ok k p :
  certifying k p -> 0 <= k -> k + 1 < n ->
  htriple B p F (or_return LMS_ERR_EXHAUSTED (sign_child_certificate k)) (fun _ => certifying (k + 1)).
Proof.
  intros [Hok Hg Hq] Hk Hk1. pose proof n_range as Hn. pose proof (hss_static _ _ _ Hok) as Hst.
  pose proof (level_at_q H p k (hss_level _ _ _ Hok k ltac:(cbn; lia))) as Hat.
  rewrite Hq, (proj2 (Z.ltb_ge _ _)) in Hat by lia.
  pose proof (cap_range H HH k ltac:(cbn; lia)) as Hc.
  eapply htriple_post.
  { apply htriple_or_return, (sign_child_ok F B HB H HH p k 0); try assumption; try lia.
    apply (hss_level _ _ _ Hok). cbn. lia. }
  intros _ p' (buf & Hcert & ->). split.
  - apply certified_ok; try assumption; try (cbn; lia); try apply Hok.
  - exact Hg.
  - intros i Hi. rewrite key_certified by (try assumption; cbn; lia).
    destruct (Z.eqb_spec i k) as [-> | Hne].
    + rewrite (proj2 (Z.ltb_lt k (k + 1))) by lia. reflexivity.
    + rewrite Hq by exact Hi. destruct (Z.ltb_spec i k), (Z.ltb_spec i (k + 1)); lia.
Qed.

Lemma hss_init_ok p0 privp :
  privp <> NULL ->
  htriple B p0 F (hss_private_key_init privp n (Some lms_types) (Some lmots_types) (Some master))
    (fun _ => certifying (n - 1)).
Proof.
  intros Hp. pose proof n_range as Hn. unfold hss_private_key_init, HSS_MAX_LEVELS.
  eapply htriple_bind; [apply htriple_guard; rewrite (proj2 (Z.eqb_neq _ _) Hp); discriminate |].
  intros _ ? [-> _].
  eapply htriple_bind.
  { apply htriple_guard. rewrite (proj2 (Z.eqb_neq n 0)), (proj2 (Z.ltb_ge _ _)) by lia. discriminate. }
  intros _ ? [-> _]. eapply htriple_bind; [apply htriple_update |]. intros _ ? ->. cbv beta.
  set (p1 := zero_hss {{ hss_levels := n; hss_master_seed := master }}).
  eapply htriple_bind.
  { apply (htriple_loop B F (Z.to_nat (n - 1)) 1 _ (fun _ _ p' => p' = p1) tt p1 eq_refl).
    intros k [] p' Hk ->. eapply htriple_post; [apply htriple_world, check_same_hash_ok; lia |].
    intros _ ? [_ ->]. reflexivity. }
  intros _ ? ->. eapply htriple_bind.
  { apply (htriple_loop B F (Z.to_nat n) 0 _ (fun k _ p' => building k p') tt p1 building_init).
    intros k [] p' Hk Hb. apply build_turn_ok; [exact Hb | lia]. }
  cbv beta. intros _ p2 Hb. replace (0 + Z.of_nat (Z.to_nat n)) with n in Hb by lia.
  eapply htriple_post.
  { apply (htriple_loop B F (Z.to_nat (n - 1)) 0 _ (fun k _ p' => certifying k p') tt p2
      (certifying_start p2 Hb)).
    intros k [] p' Hk Hc. apply certify_turn_ok; [exact Hc | lia | lia]. }
  cbv beta. replace (0 + Z.of_nat (Z.to_nat (n - 1))) with (n - 1) by lia. auto.
Qed.
End Init.

(** * The signature *)

Section SignSpec.
Context `{P : Platform} `{Hh : HashApi}.
Variable H : hparams.
Hypothesis HH : hparams_ok H.
Abbreviation n := (H_levels H).

Definition level_sig_size (i : Z) : Z := sig_len (lp_of H i) (op_of H i).

(** The share of [k] certificates from level [i], in bytes. *)
Fixpoint certs_len (i : Z) (k : nat) : Z :=
  match k with
  | O => 0
  | S k' => level_sig_size i + LMS_PUBLIC_KEY_LEN + certs_len (i + 1) k'
  end.

Definition hss_len : Z := 4 + certs_len 0 (Z.to_nat (n - 1)) + level_sig_size (n - 1).

Fixpoint certs_bytes (p : hss_private_key_t) (i : Z) (k : nat) : bytes :=
  match k with
  | O => []
  | S k' => slice 0 (level_sig_size i) (hss_cert p i) ++ pub_bytes (hss_pub p (i + 1))
            ++ certs_bytes p (i + 1) k'
  end.

(** The signature of [msg] by the hierarchy [p], its last level at index [q]. *)
Definition hss_signature (p : hss_private_key_t) (q : Z) (C msg : bytes) : bytes :=
  lms_store_u32 (n - 1) ++ certs_bytes p 0 (Z.to_nat (n - 1))
  ++ signature_of (level_key H (n - 1) (hss_gen p (n - 1)) 0) (lp_of H (n - 1)) (op_of H (n - 1)) q C msg.

Lemma size_range i : 0 <= i < n -> 0 < level_sig_size i <= LMS_MAX_SIGNATURE_LEN.
Proof. apply level_sig_len, HH. Qed.

Lemma certs_len_nonneg k : forall i, 0 <= i -> i + Z.of_nat k < n -> 0 <= certs_len i k.
Proof.
  induction k as [| k IH]; intros i Hi Hk; cbn [certs_len]; [lia |].
  pose proof (size_range i ltac:(lia)). specialize (IH (i + 1) ltac:(lia) ltac:(lia)).
  unfold LMS_PUBLIC_KEY_LEN, LMS_I_LEN, LMS_N. lia.
Qed.

Section Of.
Variable p : hss_private_key_t.
Hypothesis Hok : hss_ok H (n - 1) p.

Lemma level_pub_eq i : 0 <= i < n -> hss_pub p i = level_pub H i (hss_gen p i).
Proof. intros Hi. destruct (hss_level _ _ _ Hok i Hi) as (q & _ & Hp & _). exact Hp. Qed.

Lemma hss_pub_ok i : 0 <= i < n -> pub_ok (hss_pub p i) (lp_of H i) (op_of H i).
Proof. intros Hi. rewrite level_pub_eq by exact Hi. apply level_pub_ok; assumption. Qed.

Lemma hss_pub_bytes_len i : 0 <= i < n -> len (pub_bytes (hss_pub p i)) = LMS_PUBLIC_KEY_LEN.
Proof. intros Hi. apply pub_bytes_len, (pub_wf _ _ _ (hss_pub_ok i Hi)). Qed.

Lemma cert_piece_len i :
  0 <= i < n - 1 -> len (slice 0 (level_sig_size i) (hss_cert p i)) = level_sig_size i.
Proof.
  intros Hi. pose proof (size_range i ltac:(lia)).
  apply len_slice; [lia | lia |]. rewrite (st_cert_buf _ _ (hss_static _ _ _ Hok)) by exact Hi. lia.
Qed.

Lemma cert_len_eq i : 0 <= i < n - 1 -> elem 0 (hss_cert_len p) i = level_sig_size i.
Proof. intros Hi. destruct (hss_cert_valid _ _ _ Hok i Hi) as (q & _ & C & _ & _ & Hl & _). exact Hl. Qed.

Lemma certs_bytes_len k : forall i,
  0 <= i -> i + Z.of_nat k < n -> len (certs_bytes p i k) = certs_len i k.
Proof.
  induction k as [| k IH]; intros i Hi Hk; cbn [certs_bytes certs_len]; [reflexivity |].
  rewrite !len_app, cert_piece_len, hss_pub_bytes_len, IH by lia. lia.
Qed.

Lemma cert_total_eq k : forall i total,
  0 <= i -> i + Z.of_nat k < n -> cert_total k i (hss_cert_len p) total = Some (total + certs_len i k).
Proof.
  induction k as [| k IH]; intros i total Hi Hk; cbn [cert_total certs_len]; [f_equal; lia |].
  pose proof (size_range i ltac:(lia)). rewrite cert_len_eq by lia.
  rewrite (proj2 (Z.eqb_neq _ 0)) by lia. rewrite IH by lia. f_equal. lia.
Qed.

Lemma hss_signature_len_returns B : returns B (hss_signature_len (Some p)) hss_len.
Proof.
  pose proof (H_range H HH) as Hn. pose proof (hss_static _ _ _ Hok) as Hst.
  unfold hss_signature_len. rewrite (st_levels _ _ Hst), (proj2 (Z.eqb_neq n 0)) by lia.
  rewrite cert_total_eq by lia. rewrite (st_types1 _ _ Hst), (st_types2 _ _ Hst) by lia.
  eapply returns_bind; [apply signature_len_returns |]. cbv beta.
  destruct (level_params H HH (n - 1) ltac:(lia)) as [E _].
  replace (signature_len_spec _ _) with (level_sig_size (n - 1))
    by (unfold signature_len_spec; rewrite E; reflexivity).
  pose proof (size_range (n - 1) ltac:(lia)) as Hs.
  rewrite (proj2 (Z.eqb_neq (level_sig_size (n - 1)) 0)) by lia.
  apply returns_ret.
Qed.

(** The reference verifier accepts the signature. *)
Lemma pub_of_pub_bytes i : 0 <= i < n -> pub_of_bytes (pub_bytes (hss_pub p i)) = Some (hss_pub p i).
Proof.
  intros Hi. destruct (hss_pub_ok i Hi) as [Hw E _].
  pose proof (wf_pub_I _ Hw) as HI. pose proof (wf_pub_root _ Hw) as Hr.
  unfold pub_of_bytes, pub_bytes. set (k := hss_pub p i) in *.
  set (s1 := lms_store_u32 (pub_lms_type k)). set (s2 := lms_store_u32 (pub_lmots_type k)).
  set (b := s1 ++ _).
  assert (E1 : lms_load_u32 b = pub_lms_type k) by (apply lms_load_store_u32, Hw).
  assert (E2 : from 4 b = s2 ++ pub_I k ++ pub_root k) by (apply from_exact; reflexivity).
  assert (E3 : slice 8 LMS_I_LEN b = pub_I k).
  { unfold b. rewrite app_assoc. apply slice_exact; [reflexivity | symmetry; exact HI]. }
  assert (E4 : slice (8 + LMS_I_LEN) LMS_N b = pub_root k).
  { unfold b. rewrite !app_assoc, <- (app_nil_r (_ ++ pub_root k)), <- (app_assoc _ (pub_root k)).
    apply slice_exact; [rewrite !len_app, HI; reflexivity | symmetry; exact Hr]. }
  rewrite E1, E2, E3, E4. unfold s2. rewrite lms_load_store_u32 by apply Hw. rewrite E.
  destruct k. reflexivity.
Qed.

Lemma level_accepts i q C b :
  0 <= i < n -> 0 <= q < cap H i -> len C = LMS_N ->
  rfc_accepts (hss_pub p i) b
    (signature_of (level_key H i (hss_gen p i) 0) (lp_of H i) (op_of H i) q C b) = true.
Proof.
  intros Hi Hq HC. rewrite level_pub_eq by exact Hi. rewrite (level_pub_q H i _ 0).
  apply accepts_own_signature; [apply level_key_ok; (assumption || (split; [discriminate | reflexivity]))
    | exact Hq | exact HC].
Qed.

Lemma chain_accepts_certs k : forall i final msg,
  0 <= i -> i + Z.of_nat k < n ->
  rfc_accepts (hss_pub p (i + Z.of_nat k)) msg final = true ->
  chain_accepts k (hss_pub p i) msg (certs_bytes p i k ++ final) = true.
Proof.
  induction k as [| k IH]; intros i final msg Hi Hk Hf; cbn [chain_accepts certs_bytes].
  - rewrite Z.add_0_r in Hf. exact Hf.
  - pose proof (level_params H HH i ltac:(lia)) as [E _].
    assert (EL : signature_len_spec (pub_lms_type (hss_pub p i)) (pub_lmots_type (hss_pub p i))
                 = level_sig_size i).
    { rewrite level_pub_eq by lia. unfold signature_len_spec. cbn [level_pub pub_of pub_lms_type
        pub_lmots_type level_key priv_lms_type priv_lmots_type]. rewrite E. reflexivity. }
    pose proof (size_range i ltac:(lia)) as Hsz.
    pose proof (cert_piece_len i ltac:(lia)) as Hpl. pose proof (hss_pub_bytes_len (i + 1) ltac:(lia)) as Hbl.
    destruct (hss_cert_valid _ _ _ Hok i ltac:(lia)) as (q & Hq & C & HC & HCb & _ & Hs).
    destruct (hss_level _ _ _ Hok i ltac:(lia)) as (q1 & Hk1 & _ & Hq1).
    rewrite Hk1 in Hq. cbn [level_key priv_q] in Hq. fold (level_sig_size i) in Hs.
    rewrite EL. set (sg := slice 0 (level_sig_size i) (hss_cert p i)) in *.
    set (b := pub_bytes (hss_pub p (i + 1))) in *.
    replace ((sg ++ b ++ certs_bytes p (i + 1) k) ++ final)
      with (sg ++ b ++ (certs_bytes p (i + 1) k ++ final)) by (rewrite <- !app_assoc; reflexivity).
    set (rest := certs_bytes p (i + 1) k ++ final).
    rewrite (slice_exact (level_sig_size i) LMS_PUBLIC_KEY_LEN sg b rest) by (symmetry; assumption).
    rewrite (slice_app_l 0 (level_sig_size i) sg) by lia. rewrite slice_all by lia.
    rewrite (app_assoc sg b rest), from_exact by (rewrite len_app; lia).
    rewrite (len_app (sg ++ b)), (len_app sg), Hpl, Hbl. rewrite (proj2 (Z.leb_le _ _)) by (pose proof (len_nonneg rest); lia).
    cbn [andb]. rewrite Hs, level_accepts by (assumption || lia). cbn [andb].
    unfold b. rewrite pub_of_pub_bytes by lia. apply IH; [lia | lia |].
    replace (i + 1 + Z.of_nat k) with (i + Z.of_nat (S k)) by lia. exact Hf.
Qed.

Lemma hss_signature_accepted q C msg :
  0 <= q < cap H (n - 1) -> len C = LMS_N ->
  hss_accepts (mkHssPub n (hss_pub p 0)) msg (hss_signature p q C msg) = true.
Proof.
  intros Hq HC. pose proof (H_range H HH) as Hn. unfold HSS_MAX_LEVELS in Hn.
  unfold hss_accepts, hss_signature. cbn [hpub_levels hpub_root_pub].
  rewrite lms_load_store_u32 by (unfold is_u32; lia).
  rewrite (from_exact 4) by reflexivity. rewrite len_app. change (len (lms_store_u32 (n - 1))) with 4.
  rewrite (proj2 (Z.leb_le _ _)) by (pose proof (len_nonneg (certs_bytes p 0 (Z.to_nat (n - 1)) ++
    signature_of (level_key H (n - 1) (hss_gen p (n - 1)) 0) (lp_of H (n - 1)) (op_of H (n - 1)) q C msg)); lia).
  rewrite Z.sub_add, Z.eqb_refl. cbn [andb].
  apply chain_accepts_certs; [lia | lia |]. replace (0 + Z.of_nat (Z.to_nat (n - 1))) with (n - 1) by lia.
  apply level_accepts; (assumption || lia).
Qed.

Lemma hss_signature_size q C msg : len C = LMS_N -> len (hss_signature p q C msg) = hss_len.
Proof.
  intros HC. pose proof (H_range H HH) as Hn. unfold hss_signature, hss_len.
  rewrite !len_app, certs_bytes_len by lia. change (len (lms_store_u32 (n - 1))) with 4.
  rewrite (signature_len_ok _ _ _ (level_key_ok H HH (n - 1) (hss_gen p (n - 1)) 0 ltac:(lia)
    ltac:(split; [discriminate | reflexivity]))) by exact HC. unfold level_sig_size. lia.
Qed.

Lemma certs_bytes_byte k : forall i,
  0 <= i -> i + Z.of_nat k < n -> Forall is_byte (certs_bytes p i k).
Proof.
  induction k as [| k IH]; intros i Hi Hk; cbn [certs_bytes]; [constructor |].
  destruct (hss_cert_valid _ _ _ Hok i ltac:(lia)) as (q & _ & C & _ & HCb & _ & Hs).
  fold (level_sig_size i) in Hs. rewrite Hs.
  apply Forall_byte_app; [| apply Forall_byte_app].
  - apply (signature_bytes _ _ _ (level_key_ok H HH i (hss_gen p i) 0 ltac:(lia)
      ltac:(split; [discriminate | reflexivity]))), HCb.
  - apply pub_bytes_bytes, (pub_wf _ _ _ (hss_pub_ok (i + 1) ltac:(lia))).
  - apply IH; lia.
Qed.

Lemma hss_signature_bytes q C msg : Forall is_byte C -> Forall is_byte (hss_signature p q C msg).
Proof.
  intros HC. pose proof (H_range H HH) as Hn. unfold hss_signature.
  apply Forall_byte_app; [| apply Forall_byte_app].
  - apply lms_store_u32_bytes.
  - apply certs_bytes_byte; lia.
  - apply (signature_bytes _ _ _ (level_key_ok H HH (n - 1) (hss_gen p (n - 1)) 0 ltac:(lia)
      ltac:(split; [discriminate | reflexivity]))), HC.
Qed.
End Of.
End SignSpec.

(** * [hss_sign] *)

(** From [s], the computation ends in [Q] with a value, or in [G]. *)
Definition hrun `{Platform} {A} (m : HSM A) (s : hsmem) (G : hsmem -> Prop) (Q : A -> hsmem -> Prop) : Prop :=
  match m s with (Ok a, s') => Q a s' | (Err _, s') => G s' end.

Section Runs.
Context `{P : Platform}.
Variable B : backends.

Lemma hrun_bind {A A'} (m : HSM A) (f : A -> HSM A') s G R Q :
  hrun m s G R -> (forall a s', R a s' -> hrun (f a) s' G Q) -> hrun (m ≫= f) s G Q.
Proof.
  unfold hrun, mbind, M_bind. intros Hm Hf. destruct (m s) as [[a | e] s']; [exact (Hf a s' Hm) | exact Hm].
Qed.

Lemma hrun_weaken {A} (m : HSM A) s (G G' : hsmem -> Prop) Q :
  hrun m s G Q -> (forall s', G s' -> G' s') -> hrun m s G' Q.
Proof. unfold hrun. destruct (m s) as [[a | e] s']; auto. Qed.

Lemma hrun_post {A} (m : HSM A) s G (Q Q' : A -> hsmem -> Prop) :
  hrun m s G Q -> (forall a s', Q a s' -> Q' a s') -> hrun m s G Q'.
Proof. unfold hrun. destruct (m s) as [[a | e] s']; auto. Qed.

Lemma hrun_world {A} F (m : C A) s R (G : hsmem -> Prop) Q :
  hoare (inv B) F m R -> inv B (hs_wld s) ->
  (forall w', F -> inv B w' -> G (s {{ hs_wld := w' }})) ->
  (forall a w', R a -> inv B w' -> Q a (s {{ hs_wld := w' }})) ->
  hrun (hs_on_world m) s G Q.
Proof.
  intros Hm Hi HG HQ. specialize (Hm _ Hi). unfold hrun, hs_on_world.
  destruct (m (hs_wld s)) as [[a | e] w']; destruct Hm; auto.
Qed.

Lemma hrun_guard {A} c e (f : unit -> HSM A) s G Q :
  c = false -> hrun (f tt) s G Q -> hrun (guard_err c e ≫= f) s G Q.
Proof. intros ->. auto. Qed.

Lemma hrun_or_return {A} e (m : HSM A) s G Q : hrun m s G Q -> hrun (or_return e m) s G Q.
Proof. unfold hrun, or_return. destruct (m s) as [[a | e'] s']; auto. Qed.

Lemma hrun_copy {A} p F (m : HM A) s R (G : hsmem -> Prop) Q :
  htriple B p F m R -> inv B (hs_wld s) ->
  (forall w', F -> inv B w' -> G (s {{ hs_wld := w' }})) ->
  (forall a p' w', R a p' -> inv B w' -> Q (a, p') (s {{ hs_wld := w' }})) ->
  hrun (on_copy p m) s G Q.
Proof.
  intros Hm Hi HG HQ. specialize (Hm (mkHmem (hs_wld s) p) Hi eq_refl). unfold hrun, on_copy.
  destruct (m _) as [[a | e] h]; destruct Hm; auto.
Qed.
End Runs.

Section HssSign.
Context `{P : Platform} `{Hh : HashApi}.
Variable F : Prop.
Variable B : backends.
Hypothesis HB : forall I_ seed, backends_sound F I_ seed B.
Variable H : hparams.
Hypothesis HH : hparams_ok H.
Hypothesis Hheap : malloc_may_fail sizeof_hss_private_key -> F.
Variable m : cbuf.
Hypothesis Hm : msg_ok F m.
Abbreviation n := (H_levels H).
Abbreviation msg := (cbuf_data m).
Abbreviation last_q p := (priv_q (hss_key p (n - 1))).

Lemma splice_next pre b rest :
  len b <= len rest -> splice (len pre) b (pre ++ rest) = pre ++ b ++ from (len b) rest.
Proof.
  intros Hl. rewrite <- (split_at (len b) rest) at 1 by apply len_nonneg.
  apply splice_exact; [reflexivity |].
  pose proof (len_slice 0 (len b) rest ltac:(lia) (len_nonneg b) ltac:(lia)) as E. unfold len in *. lia.
Qed.

(** One turn of the loop that copies the certificates. *)
Lemma copy_certificate_run p i pre rest s :
  hss_ok H (n - 1) p -> 0 <= i < n - 1 -> hs_sig s = pre ++ rest ->
  level_sig_size H i + LMS_PUBLIC_KEY_LEN <= len rest ->
  let piece := slice 0 (level_sig_size H i) (hss_cert p i) ++ pub_bytes (hss_pub p (i + 1)) in
  len piece = level_sig_size H i + LMS_PUBLIC_KEY_LEN /\
  copy_certificate p i (len pre) s
  = (Ok (len (pre ++ piece)), s {{ hs_sig := pre ++ piece ++ from (len piece) rest }}).
Proof.
  intros Hok Hi Hs Hl. cbv zeta. assert (H56 : LMS_PUBLIC_KEY_LEN = 56) by reflexivity. pose proof (size_range H HH i ltac:(lia)) as Hsz.
  pose proof (cert_piece_len H HH p Hok i ltac:(lia)) as Hpl.
  pose proof (hss_pub_bytes_len H HH p Hok (i + 1) ltac:(lia)) as Hbl.
  unfold copy_certificate. rewrite (cert_len_eq H p Hok i) by lia.
  set (sg := slice 0 (level_sig_size H i) (hss_cert p i)) in *.
  set (b := pub_bytes (hss_pub p (i + 1))) in *. split; [rewrite len_app; lia |].
  change (lms_public_key_serialize (Some (hss_pub p (i + 1))) local_ptr LMS_PUBLIC_KEY_LEN)
    with (@Ok lms_status_t _ b).
  unfold mbind, M_bind, hs_write, modify. cbn [or_return lift_result mret M_ret hs_sig].
  unfold or_return, mret, M_ret. cbn [hs_sig]. rewrite Hs, <- Hpl, splice_next by lia.
  replace (len pre + len sg) with (len (pre ++ sg)) by (rewrite len_app; lia).
  destruct s as [w buf pv wr]. cbn -[splice len from app Z.add LMS_PUBLIC_KEY_LEN].
  rewrite (app_assoc pre sg (from _ _)), splice_next by (rewrite len_from; lia).
  rewrite from_from by apply len_nonneg. rewrite !len_app, <- !app_assoc. do 2 f_equal. lia.
Qed.

Lemma certs_loop p : hss_ok H (n - 1) p -> forall k i pre rest s,
  0 <= i -> i + Z.of_nat k < n -> hs_sig s = pre ++ rest -> certs_len H i k <= len rest ->
  loopM k i (copy_certificate p) (len pre) s
  = (Ok (len pre + certs_len H i k),
     s {{ hs_sig := pre ++ certs_bytes H p i k ++ from (certs_len H i k) rest }}).
Proof.
  intros Hok. induction k as [| k IH]; intros i pre rest s Hi Hk Hs Hl.
  - destruct s. cbn in *. subst. rewrite Z.add_0_r. reflexivity.
  - cbn [certs_len certs_bytes loopM] in *. assert (H56 : LMS_PUBLIC_KEY_LEN = 56) by reflexivity.
    pose proof (certs_len_nonneg H HH k (i + 1) ltac:(lia) ltac:(lia)) as Hcl.
    destruct (copy_certificate_run p i pre rest s Hok ltac:(lia) Hs ltac:(lia)) as [Hpl Hrun].
    pose proof (size_range H HH i ltac:(lia)) as Hsz.
    set (piece := slice 0 (level_sig_size H i) (hss_cert p i) ++ pub_bytes (hss_pub p (i + 1))) in *.
    unfold mbind, M_bind. rewrite Hrun.
    rewrite (IH (i + 1) (pre ++ piece) (from (len piece) rest)); [| lia | lia | apply app_assoc | rewrite len_from by lia; lia].
    rewrite from_from by (pose proof (len_nonneg piece); lia). rewrite len_app.
    rewrite (app_assoc (slice _ _ _)). fold piece. rewrite <- !app_assoc, <- Hpl.
    destruct s. f_equal. f_equal. lia.
Qed.

(** The key after its last level used index [q]. *)
Definition bumped (p : hss_private_key_t) (q : Z) : hss_private_key_t :=
  p {{ hss_keys := upd (n - 1) (level_key H (n - 1) (hss_gen p (n - 1)) (q + 1)) (hss_keys p) }}.

Lemma key_bumped p q i :
  static_ok H p -> 0 <= i ->
  hss_key (bumped p q) i
  = if i =? n - 1 then level_key H (n - 1) (hss_gen p (n - 1)) (q + 1) else hss_key p i.
Proof.
  intros Hst Hi. pose proof (H_range H HH) as Hn. pose proof (st_keys _ _ Hst) as Hl.
  unfold HSS_MAX_LEVELS in *. unfold hss_key, bumped. cbn. apply elem_upd; lia.
Qed.

Lemma bumped_ok p q : hss_ok H (n - 1) p -> last_q p = q -> q < cap H (n - 1) -> hss_ok H (n - 1) (bumped p q).
Proof.
  intros Hok Hq Hc. pose proof (H_range H HH) as Hn. pose proof (hss_static _ _ _ Hok) as Hst. split.
  - destruct Hst. split; try assumption. cbn. rewrite length_upd. assumption.
  - intros i Hi. pose proof (level_at_q H p i (hss_level _ _ _ Hok i Hi)) as (Hk & Hp & Hr).
    unfold level_ok, level_at. rewrite key_bumped by (assumption || lia).
    destruct (Z.eqb_spec i (n - 1)) as [-> | Hne].
    + exists (q + 1). split; [reflexivity |]. split; [exact Hp | lia].
    + exists (priv_q (hss_key p i)). auto.
  - intros i Hi. unfold cert_ok. rewrite key_bumped, (proj2 (Z.eqb_neq i (n - 1))) by (assumption || lia).
    exact (hss_cert_valid _ _ _ Hok i Hi).
Qed.

Lemma progress_bumped d p p1 :
  hss_ok H (n - 1) p1 -> progress H (n - 1) d p p1 -> progress H (n - 1) d p (bumped p1 (last_q p1)).
Proof.
  intros Hok [G1 Q1 C1 T1]. pose proof (hss_static _ _ _ Hok) as Hst.
  assert (Hq : forall i, 0 <= i < n ->
    priv_q (hss_key (bumped p1 (last_q p1)) i) = if i =? n - 1 then last_q p1 + 1 else priv_q (hss_key p1 i)).
  { intros i Hi. rewrite key_bumped by (assumption || lia). destruct (i =? n - 1); reflexivity. }
  split; [exact G1 | | | exact T1].
  - intros i Hi He. specialize (Q1 i Hi He). rewrite Hq by exact Hi.
    destruct (Z.eqb_spec i (n - 1)) as [-> |]; lia.
  - intros i Hi. destruct (C1 i Hi) as [Hs | (q & Hr & Ha & Hf)]; [left; exact Hs | right].
    exists q. rewrite Hq, (proj2 (Z.eqb_neq i (n - 1))) by lia. auto.
Qed.

(** Signing with the last level, behind the certificates. *)
Lemma final_sign_run p signature pre rest s :
  hss_ok H (n - 1) p -> last_q p < cap H (n - 1) -> signature <> NULL ->
  inv B (hs_wld s) -> hs_sig s = pre ++ rest -> level_sig_size H (n - 1) <= len rest ->
  forall slen, level_sig_size H (n - 1) <= slen ->
  hrun (hs_final_sign (hss_key p (n - 1)) m signature (len pre) slen) s
    (fun s' => F /\ inv B (hs_wld s') /\ hs_priv s' = hs_priv s /\ hs_written s' = hs_written s /\
               length (hs_sig s') = length (hs_sig s))
    (fun r s' => exists C,
       r = (level_key H (n - 1) (hss_gen p (n - 1)) (last_q p + 1), level_sig_size H (n - 1)) /\
       len C = LMS_N /\ Forall is_byte C /\ inv B (hs_wld s') /\
       hs_priv s' = hs_priv s /\ hs_written s' = hs_written s /\
       hs_sig s' = pre ++ signature_of (level_key H (n - 1) (hss_gen p (n - 1)) 0) (lp_of H (n - 1))
                            (op_of H (n - 1)) (last_q p) C msg
                   ++ from (level_sig_size H (n - 1)) rest).
Proof.
  intros Hok Hq Hsg Hi Hs Hl slen Hsl. pose proof (H_range H HH) as Hn.
  destruct (hss_level _ _ _ Hok (n - 1) ltac:(lia)) as (q & Hk & _ & Hr).
  rewrite Hk in *. cbn [level_key priv_q] in *. pose proof (cap_range H HH (n - 1) ltac:(lia)) as Hc.
  assert (Hko : key_ok (level_key H (n - 1) (hss_gen p (n - 1)) q) (lp_of H (n - 1)) (op_of H (n - 1)))
    by (apply level_key_ok; [exact HH | lia | unfold is_u32; lia]).
  unfold hrun, hs_final_sign. set (k := level_key H (n - 1) (hss_gen p (n - 1)) q) in *.
  pose proof (sign_run F B k (lp_of H (n - 1)) (op_of H (n - 1)) Hko (HB _ _) m Hm local_ptr signature
    local_ptr slen pre rest (mkSmem (hs_wld s) (hs_sig s) k (Some 0)) ltac:(discriminate) Hsg Hsl Hl Hq
    Hi Hs eq_refl) as Hrun.
  destruct (lms_sign _ _ _ _ _ _ _) as [[[] | e] m'].
  - destruct Hrun as (Hi' & sg & C & HC & Hsgn & Hsig & Hk' & Hw). exists C. rewrite Hk', Hw.
    split; [reflexivity |]. split; [apply HC |]. split; [apply HC |]. split; [exact Hi' |].
    split; [reflexivity |]. split; [reflexivity |]. cbn. rewrite Hsig, Hsgn. reflexivity.
  - destruct Hrun as (HF & Hi' & _ & _ & Hlen). cbn. auto.
Qed.

(** What [hss_sign] leaves when it fails: the caller's key and length as they were. *)
Definition untouched (p : hss_private_key_t) (s s' : hsmem) : Prop :=
  inv B (hs_wld s') /\ hs_priv s' = p /\ hs_written s' = hs_written s /\
  length (hs_sig s') = length (hs_sig s).

(** What it leaves when it succeeds: [p1] is the key after the cascade. *)
Definition hss_signed (p p1 : hss_private_key_t) (wptr : ptr) (C : bytes) (s s' : hsmem) : Prop :=
  hss_ok H (n - 1) p1 /\ progress H (n - 1) (n - 1) p p1 /\ last_q p1 < cap H (n - 1) /\
  (last_q p < cap H (n - 1) -> p1 = p) /\ len C = LMS_N /\ Forall is_byte C /\
  inv B (hs_wld s') /\ hs_priv s' = bumped p1 (last_q p1) /\
  hs_sig s' = hss_signature H p1 (last_q p1) C msg ++ from (hss_len H) (hs_sig s) /\
  hs_written s' = if wptr =? NULL then hs_written s else Some (hss_len H).

(** From the refreshed copy to the end. *)
Lemma assemble_run p p1 sptr slen wptr s0 s :
  hss_ok H (n - 1) p1 -> progress H (n - 1) (n - 1) p p1 -> last_q p1 < cap H (n - 1) ->
  (last_q p < cap H (n - 1) -> p1 = p) -> sptr <> NULL ->
  hss_len H <= slen -> hss_len H <= len (hs_sig s0) ->
  inv B (hs_wld s) -> hs_priv s = p -> hs_sig s = hs_sig s0 -> hs_written s = hs_written s0 ->
  hrun (hs_write 0 (lms_store_u32 (u32 (hss_levels p1 - 1))) ;;
        off ← loopM (Z.to_nat (hss_levels p1 - 1)) 0 (copy_certificate p1) 4;
        '(k, final_len) ← or_return LMS_ERR_EXHAUSTED
          (hs_final_sign (hss_key p1 (hss_levels p1 - 1)) m sptr off (slen - off));
        modify (fun s => s {{ hs_priv := p1 {{ hss_keys := upd (hss_levels p1 - 1) k (hss_keys p1) }};
                              hs_written := if wptr =? NULL then hs_written s
                                            else Some (off + final_len) }})) s
    (fun s' => F /\ untouched p s0 s') (fun _ s' => exists C, hss_signed p p1 wptr C s0 s').
Proof.
  intros Hok Hpg Hq Hsame Hsp Hsl Hl Hi Hpr Hs Hw. pose proof (H_range H HH) as Hn.
  unfold HSS_MAX_LEVELS in Hn. rewrite (st_levels _ _ (hss_static _ _ _ Hok)), u32_small by lia.
  pose proof (certs_len_nonneg H HH (Z.to_nat (n - 1)) 0 ltac:(lia) ltac:(lia)) as Hcl.
  pose proof (size_range H HH (n - 1) ltac:(lia)) as Hsz. unfold hss_len in Hsl, Hl.
  set (hd := lms_store_u32 (n - 1)). set (cl := certs_len H 0 (Z.to_nat (n - 1))) in *.
  assert (Hhd : len hd = 4) by reflexivity. set (buf := hs_sig s0) in *.
  assert (E0 : splice 0 hd (hs_sig s) = hd ++ from 4 buf).
  { rewrite Hs. change 0 with (len []). rewrite <- (app_nil_l buf) at 1.
    rewrite splice_next by lia. rewrite Hhd. reflexivity. }
  eapply hrun_bind with (R := fun _ s' => s' = s {{ hs_sig := hd ++ from 4 buf }}).
  { unfold hrun, hs_write, modify. rewrite E0. reflexivity. }
  intros _ ? ->.
  eapply hrun_bind with (R := fun off s' => off = 4 + cl /\
    s' = s {{ hs_sig := hd ++ certs_bytes H p1 0 (Z.to_nat (n - 1)) ++ from (4 + cl) buf }}).
  { unfold hrun. change 4 with (len hd) at 1.
    rewrite (certs_loop p1 Hok (Z.to_nat (n - 1)) 0 hd (from 4 buf)); [| lia | lia | destruct s; reflexivity |].
    - fold cl. rewrite from_from by lia. split; [lia | destruct s; reflexivity].
    - fold cl. rewrite len_from by lia. lia. }
  intros off s2 [-> ->]. set (cs := certs_bytes H p1 0 (Z.to_nat (n - 1))).
  assert (Hcs : len (hd ++ cs) = 4 + cl).
  { rewrite len_app. unfold cs. rewrite (certs_bytes_len H HH p1 Hok) by lia. fold cl. lia. }
  assert (Elen : len (hd ++ cs ++ from (4 + cl) buf) = len buf)
    by (rewrite app_assoc, len_app, Hcs, len_from; lia).
  rewrite <- Hcs. eapply hrun_bind.
  { apply hrun_or_return. eapply hrun_weaken.
    - apply (final_sign_run p1 sptr (hd ++ cs) (from (4 + cl) buf));
        try assumption; [destruct s; rewrite <- ?Hcs; apply app_assoc
          | rewrite len_from; lia | lia].
    - intros s' (HF & Hi' & Hp' & Hw' & Hl'). split; [exact HF |]. split; [exact Hi' |].
      destruct s. split; [etransitivity; [exact Hp' | exact Hpr] |].
      split; [etransitivity; [exact Hw' | exact Hw] |].
      etransitivity; [exact Hl' |]. rewrite Hcs. apply Nat2Z.inj, Elen. }
  intros [k fl] s3 (C & [= -> ->] & HC & HCb & Hi3 & Hp3 & Hw3 & Hs3).
  unfold hrun, modify. exists C.
  assert (Ew : hs_written s3 = hs_written s0) by (rewrite Hw3, <- Hw; destruct s; reflexivity).
  split; [exact Hok |]. split; [exact Hpg |]. split; [exact Hq |]. split; [exact Hsame |].
  split; [exact HC |]. split; [exact HCb |]. split; [destruct s3; exact Hi3 |].
  split; [destruct s3; reflexivity |]. split.
  - transitivity (hs_sig s3); [destruct s3; reflexivity |]. rewrite Hs3. unfold hss_signature, hss_len.
    fold hd cs cl buf. rewrite from_from by lia. rewrite <- !app_assoc. do 4 f_equal.
  - transitivity (if wptr =? NULL then hs_written s3 else Some (len (hd ++ cs) + level_sig_size H (n - 1)));
      [destruct s3; reflexivity |]. rewrite Ew, Hcs. reflexivity.
Qed.

Lemma hss_sign_run p privp sptr slen wptr s :
  hss_ok H (n - 1) p -> privp <> NULL -> sptr <> NULL ->
  hss_len H <= slen -> hss_len H <= len (hs_sig s) -> inv B (hs_wld s) -> hs_priv s = p ->
  hrun (hss_sign privp m sptr slen wptr) s
    (fun s' => (F \/ (spent_upto H p (n - 1) \/ counter_end H (n - 1) p) /\ hs_sig s' = hs_sig s) /\ untouched p s s')
    (fun _ s' => exists p1 C, hss_signed p p1 wptr C s s').
Proof.
  intros Hok Hp Hsp Hsl Hl Hi Hpr. pose proof (H_range H HH) as Hn. unfold HSS_MAX_LEVELS in Hn.
  pose proof (hss_static _ _ _ Hok) as Hst. unfold hss_sign.
  eapply hrun_bind with (R := fun a s' => a = p /\ s' = s); [unfold hrun; auto |]. intros ? ? [-> ->].
  apply hrun_guard.
  { rewrite (proj2 (Z.eqb_neq _ _) Hp), (proj2 (Z.eqb_neq _ _) Hsp), (msg_readable _ _ Hm),
      (st_levels _ _ Hst), (proj2 (Z.eqb_neq n 0)) by lia. reflexivity. }
  assert (Hun : forall w', inv B w' -> untouched p s (s {{ hs_wld := w' }}))
    by (intros w' Hw'; destruct s; split; auto).
  eapply hrun_bind with (R := fun needed s' => needed = hss_len H /\ exists w', inv B w' /\ s' = s {{ hs_wld := w' }}).
  { eapply (hrun_world B F); [apply ok_returns, hss_signature_len_returns; eassumption | exact Hi | | eauto].
    intros w' HF Hw'. auto. }
  intros ? ? [-> (w1 & Hw1 & ->)].
  pose proof (certs_len_nonneg H HH (Z.to_nat (n - 1)) 0 ltac:(lia) ltac:(lia)) as Hcl.
  pose proof (size_range H HH (n - 1) ltac:(lia)) as Hsz.
  apply hrun_guard.
  { unfold hss_len in *. rewrite (proj2 (Z.eqb_neq _ 0)), (proj2 (Z.ltb_ge _ _)) by lia. reflexivity. }
  eapply hrun_bind with (R := fun ok s' => exists w', inv B w' /\ s' = s {{ hs_wld := w' }} /\ (ok = false -> F)).
  { unfold hrun, hs_on_world. rewrite malloc_ok_run. eexists. split; [apply inv_malloc, Hw1 |].
    split; [destruct s; reflexivity |]. intros Hf. apply Hheap. eexists. exact Hf. }
  intros ok ? (w2 & Hw2 & -> & Hf).
  destruct ok.
  2: { unfold hrun, mbind, M_bind. split; [left; exact (Hf eq_refl) | exact (Hun w2 Hw2)]. }
  apply hrun_guard; [reflexivity |].
  eapply hrun_bind with (R := fun '(_, p1) s' => exists w', inv B w' /\ s' = s {{ hs_wld := w' }} /\
    hss_ok H (n - 1) p1 /\ progress H (n - 1) (n - 1) p p1 /\ last_q p1 < cap H (n - 1) /\
    (last_q p < cap H (n - 1) -> p1 = p)).
  { rewrite (st_levels _ _ Hst), u32_small by lia. apply hrun_or_return.
    pose proof (refresh_ok F B HB H HH (Z.to_nat (n - 1)) p ltac:(lia) Hok) as Hrf.
    rewrite Z2Nat.id in Hrf by lia. eapply (hrun_copy B p); [exact Hrf | exact Hw2 | |].
    - intros w' HG Hw'. split; [destruct HG as [HF | HG]; [left; exact HF | right; destruct s; auto] | destruct s; split; auto].
    - intros [] p1 w' (H1 & H2 & H3 & H4) Hw'. exists w'. destruct s. auto 10. }
  intros [[] p1] ? (w3 & Hw3 & -> & Hok1 & Hpg & Hq1 & Hsame).
  eapply hrun_weaken.
  - eapply hrun_post; [apply (assemble_run p p1 sptr slen wptr s); try assumption; destruct s; (exact Hw3 || reflexivity || exact Hpr) |].
    intros [] s' [C HC]. exists p1, C. exact HC.
  - intros s' [HF Hu]. auto.
Qed.
End HssSign.
