(* ===== verification/HssTheorems.v ===== *)
(** The properties of the hierarchical scheme (src/hss.c). *)

From S2P Require Import Prelude Sha256 Types HashApi Params Winternitz Spec LmOts LmOtsCorrect Tree Lms LmsCorrect VerifyCorrect Scheme OtsTheorems LmsTheorems KeyFormat Hss HssCorrect HssRefresh HssVerify HssSign.

(** * A two-level hierarchy for the examples *)

(** The cheap hash for every algorithm but SHA-256. *)
Program Definition toy_all : HashApi := {|
  hash alg x := match alg with
                | LMS_HASH_SHA256 => Some (sha256 x)
                | LMS_HASH_SHAKE256 | LMS_HASH_HARAKA => Some (toy_mix x)
                end;
  sha256_only := false
|}.
Next Obligation.
  intros [] x y H; injection H as <-; [apply sha256_length | reflexivity | reflexivity].
Qed.
Next Obligation.
  intros [] x y H; injection H as <-; [apply sha256_bytes | |];
    unfold toy_mix; apply Forall_map, Forall_forall; intros i _; apply u8_byte.
Qed.
Next Obligation. intros [] x x' _; eexists; reflexivity. Qed.
Next Obligation. reflexivity. Qed.
Next Obligation. discriminate. Qed.

Lemma toy_all_available a : available (Hh := toy_all) a.
Proof. destruct a; eexists; reflexivity. Qed.

Definition demo_types : list Z := [LMS_SHAKE256_N32_H5; LMS_SHAKE256_N32_H5].
Definition demo_ots_types : list Z := [LMOTS_SHAKE256_N32_W1; LMOTS_SHAKE256_N32_W1].
Definition demo_master : bytes := fill 0x42 32.
Definition demo_H : hparams := hparams_of 2 demo_types demo_ots_types demo_master.

Lemma demo_level i : 0 <= i < 2 -> t1 demo_H i = 0x15 /\ t2 demo_H i = 0x11.
Proof. intros Hi. assert (i = 0 \/ i = 1) as [-> | ->] by lia; split; reflexivity. Qed.

Lemma demo_hparams_ok : hparams_ok (Hh := toy_all) demo_H.
Proof.
  split; [split; discriminate | |]; intros i Hi; destruct (demo_level i Hi) as [E1 E2]; rewrite E1, E2.
  - split; u32_lit.
  - exists demo_lp, demo_op. split; [reflexivity | eexists; reflexivity].
Qed.

Lemma demo_same i : 0 <= i < 2 -> alg_of demo_H i = alg_of demo_H 0.
Proof. intros Hi. assert (i = 0 \/ i = 1) as [-> | ->] by lia; reflexivity. Qed.

Lemma demo_heap :
  malloc_may_fail (P := test_platform) (sizeof_hss_private_key (Platform := test_platform)) -> False.
Proof. intros [d Hd]. discriminate. Qed.

Lemma demo_sound I_ seed :
  backends_sound (P := test_platform) (Hh := toy_all) False I_ seed no_backends.
Proof. apply no_backends_sound. Qed.

(** * The generation counter *)

(** [increment_generation] adds one to the 256-bit big-endian counter; it reports
    exhaustion exactly for the last value, which it wraps to zero. *)
Theorem increment_generation_counter (g : bytes) :
  generation_ok g ->
  let '(ok, g') := increment_generation g in
  generation_ok g' /\ be_value g' = (be_value g + 1) mod 2 ^ 256 /\
  (ok = false <-> be_value g = 2 ^ 256 - 1).
Proof.
  intros Hg. destruct (increment_generation_spec g Hg) as [Hg' Hv].
  destruct (increment_generation g) as [ok g'] eqn:E. cbn [fst snd] in *.
  destruct Hg as [Hl Hb]. destruct Hg' as [Hl' Hb'].
  pose proof (be_value_range g Hb) as Hr. pose proof (be_value_range g' Hb') as Hr'.
  rewrite Hl in Hr. rewrite Hl' in Hr'. change (256 ^ HSS_GENERATION_LEN) with (2 ^ 256) in *.
  split; [split; assumption |]. destruct ok.
  - rewrite Z.mod_small by lia. split; [lia |]. split; [discriminate | lia].
  - destruct Hv as [Hv Hz]. rewrite Hv, Z.mod_same by lia. split; [exact Hz |].
    split; [lia | reflexivity].
Qed.

Lemma increment_generation_counter_witness :
  be_value (snd (increment_generation (fill 0 30 ++ [0x12; 0xff]))) = 0x1300.
Proof.
  assert (Hg : generation_ok (fill 0 30 ++ [0x12; 0xff])).
  { split; [reflexivity |]. apply Forall_byte_app; [apply Forall_replicate; unfold is_byte; lia |].
    repeat constructor; discriminate. }
  pose proof (increment_generation_counter _ Hg) as H.
  destruct (increment_generation _) as [ok g']. destruct H as (_ & Hv & _). exact Hv.
Defined.

(** * Public keys *)

Definition usable_hss_pub (k : hss_public_key_t) : Prop :=
  1 <= hpub_levels k <= HSS_MAX_LEVELS /\ usable_pub (hpub_root_pub k).

Lemma hss_public_serialize_parse `{P : Platform} B p k :
  p <> NULL -> usable_hss_pub k ->
  exists b, hss_public_key_serialize (Some k) local_ptr HSS_PUBLIC_KEY_LEN = Ok b /\
            returns B (hss_public_key_parse p (Buf b)) k.
Proof.
  intros Hp Hu0. destruct k as [levels root]. destruct Hu0 as [Hl Hu]. cbn [hpub_levels hpub_root_pub] in *. unfold HSS_MAX_LEVELS in Hl.
  destruct (public_serialize_parse B root p Hp Hu) as (b & Hs & Hr).
  exists (lms_store_u32 levels ++ b). split.
  { unfold hss_public_key_serialize. cbn [hpub_levels hpub_root_pub].
    change (lms_public_key_serialize (Some root) (local_ptr + 4) (HSS_PUBLIC_KEY_LEN - 4))
      with (lms_public_key_serialize (Some root) local_ptr LMS_PUBLIC_KEY_LEN).
    rewrite Hs. reflexivity. }
  assert (Hb : len b = LMS_PUBLIC_KEY_LEN).
  { unfold lms_public_key_serialize in Hs. cbn in Hs. injection Hs as <-.
    exact (pub_bytes_len root (proj1 Hu)). }
  unfold hss_public_key_parse. rewrite (proj2 (Z.eqb_neq p NULL) Hp).
  cbn [orb cbuf_null cbuf_len cbuf_data]. rewrite len_app, Hb.
  change (len (lms_store_u32 levels) + LMS_PUBLIC_KEY_LEN =? HSS_PUBLIC_KEY_LEN) with true.
  eapply returns_bind; [apply returns_ret |]. rewrite lms_load_store_u32 by (unfold is_u32; lia).
  unfold HSS_MAX_LEVELS. rewrite (proj2 (Z.eqb_neq levels 0)), (proj2 (Z.ltb_ge _ _)) by lia.
  eapply returns_bind; [apply returns_ret |]. rewrite (from_exact 4) by reflexivity.
  eapply returns_bind; [exact Hr | apply returns_ret].
Qed.

Lemma hss_public_parse_inv `{P : Platform} B p b :
  p <> NULL -> Forall is_byte b ->
  raises B (hss_public_key_parse p (Buf b)) LMS_ERR_INVALID \/
  exists k, returns B (hss_public_key_parse p (Buf b)) k /\ usable_hss_pub k /\
            hss_public_key_serialize (Some k) local_ptr HSS_PUBLIC_KEY_LEN = Ok b.
Proof.
  intros Hp Hb. unfold hss_public_key_parse. rewrite (proj2 (Z.eqb_neq p NULL) Hp).
  cbn [orb cbuf_null cbuf_len cbuf_data].
  destruct (Z.eqb_spec (len b) HSS_PUBLIC_KEY_LEN) as [Hl | Hl]; cbn [negb].
  2: { left. apply raises_bind, raises_fail. }
  change HSS_PUBLIC_KEY_LEN with 60 in Hl. set (levels := lms_load_u32 b).
  assert (Hlv : is_u32 levels) by (apply (load_field_u32 0 b Hb); lia).
  destruct ((levels =? 0) || (HSS_MAX_LEVELS <? levels)) eqn:Hc.
  { left. eapply raises_bind_r; [apply returns_ret |]. apply raises_bind, raises_fail. }
  apply orb_false_iff in Hc as [Hz H8]. apply Z.eqb_neq in Hz. apply Z.ltb_ge in H8.
  unfold is_u32, HSS_MAX_LEVELS in *.
  destruct (public_parse_inv B p (from 4 b) Hp (Forall_from _ _ _ Hb)) as [Hr | (k & Hr & Hu & Hs)].
  + left. eapply raises_bind_r; [apply returns_ret |]. eapply raises_bind_r; [apply returns_ret |].
    apply raises_bind, Hr.
  + right. exists (mkHssPub levels k). split; [| split].
    * eapply returns_bind; [apply returns_ret |]. eapply returns_bind; [apply returns_ret |].
      eapply returns_bind; [exact Hr | apply returns_ret].
    * split; [cbn [hpub_levels]; unfold HSS_MAX_LEVELS; lia | exact Hu].
    * unfold hss_public_key_serialize. cbn [hpub_levels hpub_root_pub].
      change (lms_public_key_serialize (Some k) (local_ptr + 4) (HSS_PUBLIC_KEY_LEN - 4))
        with (lms_public_key_serialize (Some k) local_ptr LMS_PUBLIC_KEY_LEN).
      rewrite Hs. change (_ =? NULL) with false. rewrite Z.ltb_irrefl. f_equal.
      unfold levels. change b with (from 0 b) at 1. rewrite store_load_field by (assumption || lia).
      symmetry. apply (split_field 0 4 4 b); lia.
Qed.

(** The format of hierarchical public keys: parsing inverts serialisation, and what
    the parser accepts is a key of one to eight levels that serialises to the bytes
    read; everything else is [LMS_ERR_INVALID]. *)
Theorem hss_public_key_roundtrip `{P : Platform} (B : backends) (p : ptr) :
  p <> NULL ->
  (forall k, usable_hss_pub k ->
     exists b, hss_public_key_serialize (Some k) local_ptr HSS_PUBLIC_KEY_LEN = Ok b /\
               returns B (hss_public_key_parse p (Buf b)) k) /\
  (forall b, Forall is_byte b ->
     raises B (hss_public_key_parse p (Buf b)) LMS_ERR_INVALID \/
     exists k, returns B (hss_public_key_parse p (Buf b)) k /\ usable_hss_pub k /\
               hss_public_key_serialize (Some k) local_ptr HSS_PUBLIC_KEY_LEN = Ok b).
Proof.
  intros Hp. split; intros; [apply hss_public_serialize_parse | apply hss_public_parse_inv]; assumption.
Qed.

Lemma hss_public_key_roundtrip_witness :
  exists b, hss_public_key_serialize (Some (mkHssPub 2 (mkPub 5 4 (fill 1 16) (fill 2 32)))) local_ptr
              HSS_PUBLIC_KEY_LEN = Ok b /\
            returns (P := test_platform) no_backends (hss_public_key_parse 1 (Buf b))
              (mkHssPub 2 (mkPub 5 4 (fill 1 16) (fill 2 32))).
Proof.
  destruct (hss_public_key_roundtrip (P := test_platform) no_backends 1 ltac:(discriminate)) as [H _].
  apply H. split; [split; discriminate |]. split; [| discriminate].
  split; try reflexivity; try u32_lit; apply Forall_replicate; unfold is_byte; lia.
Defined.

(** * Initialisation *)

(** C8: [hss_private_key_init] establishes the invariant of the hierarchy, from any
    previous contents: every level holds the tree of generation zero, every level
    above the last has signed the public key below with its index 0, and the public
    key is the root of the top tree. *)
Theorem hss_init_establishes `{P : Platform} `{Hh : HashApi} (F : Prop) (B : backends)
    (levels : Z) (types ots_types : list Z) (master : bytes) (p0 : hss_private_key_t) (privp : ptr) :
  (forall I_ seed, backends_sound F I_ seed B) ->
  hparams_ok (hparams_of levels types ots_types master) ->
  (forall i, 0 <= i < levels -> alg_of (hparams_of levels types ots_types master) i
                                = alg_of (hparams_of levels types ots_types master) 0) ->
  privp <> NULL ->
  htriple B p0 F (hss_private_key_init privp levels (Some types) (Some ots_types) (Some master))
    (fun _ p => hss_ok (hparams_of levels types ots_types master) (levels - 1) p /\
       (forall i, 0 <= i < levels -> hss_gen p i = zero_gen /\
          priv_q (hss_key p i) = if i <? levels - 1 then 1 else 0) /\
       hss_public_key_generate (Some p) 1
       = Ok (mkHssPub levels (level_pub (hparams_of levels types ots_types master) 0 zero_gen))).
Proof.
  intros HB HH Hsame Hp.
  eapply htriple_post; [apply (hss_init_ok F B HB levels types ots_types master HH Hsame p0 privp Hp) |].
  intros _ p [Hok Hg Hq]. pose proof (H_range _ HH) as Hn. cbn [hparams_of H_levels] in Hn.
  split; [exact Hok |]. split; [auto |].
  unfold hss_public_key_generate. rewrite (st_levels _ _ (hss_static _ _ _ Hok)). cbn [H_levels hparams_of].
  rewrite (proj2 (Z.eqb_neq levels 0)) by lia. cbn [orb]. change (1 =? NULL) with false.
  rewrite (level_pub_eq _ p Hok 0) by (cbn; lia). rewrite Hg by lia. reflexivity.
Qed.

(** The memory after the initialisation of the example. *)
Lemma demo_init :
  exists s, hss_ok (Hh := toy_all) demo_H 1 (hpriv s) /\ inv no_backends (hwld s) /\
            hss_private_key_init (P := test_platform) (Hh := toy_all) 1 2 (Some demo_types)
              (Some demo_ots_types) (Some demo_master) (mkHmem test_world zero_hss) = (Ok tt, s) /\
            (forall i, 0 <= i < 2 -> hss_gen (hpriv s) i = zero_gen) /\
            (forall i, 0 <= i < 2 -> priv_q (hss_key (hpriv s) i) = if i <? 1 then 1 else 0).
Proof.
  pose proof (hss_init_ok (P := test_platform) (Hh := toy_all) False no_backends demo_sound 2
    demo_types demo_ots_types demo_master demo_hparams_ok demo_same zero_hss 1 ltac:(discriminate)
    (mkHmem test_world zero_hss) demo_inv eq_refl) as H.
  destruct (hss_private_key_init _ _ _ _ _ _) as [[[] | e] s]; [| destruct H as [[] _]].
  destruct H as [[Hok Hg Hq] Hi]. exists s. auto.
Qed.

Lemma hss_init_establishes_witness :
  exists s, hss_private_key_init (P := test_platform) (Hh := toy_all) 1 2 (Some demo_types)
              (Some demo_ots_types) (Some demo_master) (mkHmem test_world zero_hss) = (Ok tt, s) /\
            priv_q (hss_key (hpriv s) 0) = 1 /\ priv_q (hss_key (hpriv s) 1) = 0.
Proof.
  pose proof (hss_init_establishes (P := test_platform) (Hh := toy_all) False no_backends 2
    demo_types demo_ots_types demo_master zero_hss 1 demo_sound demo_hparams_ok demo_same
    ltac:(discriminate) (mkHmem test_world zero_hss) demo_inv eq_refl) as H.
  destruct (hss_private_key_init _ _ _ _ _ _) as [[[] | e] s]; [| destruct H as [[] _]].
  destruct H as [(_ & Hq & _) _]. exists s. split; [reflexivity |]. split; apply Hq; split; (discriminate || reflexivity).
Defined.

Section InitRefuses.
Context `{P : Platform} `{Hh : HashApi}.
Variable B : backends.
Variable types ots_types : list Z.

(** Levels 0 and [i] use one hash for both their trees and their one-time keys. *)
Definition same_hash (i : Z) : bool :=
  match lms_params_of (elem 0 types 0), lms_params_of (elem 0 types i),
        lmots_params_of (elem 0 ots_types 0), lmots_params_of (elem 0 ots_types i) with
  | Some p0, Some pi, Some o0, Some oi =>
      bool_decide (lms_p_hash_alg p0 = lms_p_hash_alg pi)
      && bool_decide (ots_p_hash_alg o0 = ots_p_hash_alg oi)
      && bool_decide (lms_p_hash_alg p0 = ots_p_hash_alg o0)
  | _, _, _, _ => false
  end.

Lemma check_same_hash_decides i :
  if same_hash i then returns B (check_same_hash types ots_types i) tt
  else raises B (check_same_hash types ots_types i) LMS_ERR_INVALID.
Proof.
  unfold same_hash, check_same_hash.
  destruct (lms_params_of (elem 0 types 0)) as [p0 |] eqn:E0.
  2: { apply raises_bind. eapply raises_or_return, get_lms_param_raises, E0. }
  destruct (lms_params_of (elem 0 types i)) as [pi |] eqn:Ei.
  2: { eapply raises_bind_r; [apply returns_or_return, get_lms_param_returns, E0 |].
       apply raises_bind. eapply raises_or_return, get_lms_param_raises, Ei. }
  destruct (lmots_params_of (elem 0 ots_types 0)) as [o0 |] eqn:F0.
  2: { eapply raises_bind_r; [apply returns_or_return, get_lms_param_returns, E0 |].
       eapply raises_bind_r; [apply returns_or_return, get_lms_param_returns, Ei |].
       apply raises_bind. eapply raises_or_return, get_lmots_param_raises, F0. }
  destruct (lmots_params_of (elem 0 ots_types i)) as [oi |] eqn:Fi.
  2: { eapply raises_bind_r; [apply returns_or_return, get_lms_param_returns, E0 |].
       eapply raises_bind_r; [apply returns_or_return, get_lms_param_returns, Ei |].
       eapply raises_bind_r; [apply returns_or_return, get_lmots_param_returns, F0 |].
       apply raises_bind. eapply raises_or_return, get_lmots_param_raises, Fi. }
  destruct (_ && _) eqn:Hc.
  - eapply returns_bind; [apply returns_or_return, get_lms_param_returns, E0 |].
    eapply returns_bind; [apply returns_or_return, get_lms_param_returns, Ei |].
    eapply returns_bind; [apply returns_or_return, get_lmots_param_returns, F0 |].
    eapply returns_bind; [apply returns_or_return, get_lmots_param_returns, Fi |].
    rewrite <- !negb_andb, Hc. apply returns_ret.
  - eapply raises_bind_r; [apply returns_or_return, get_lms_param_returns, E0 |].
    eapply raises_bind_r; [apply returns_or_return, get_lms_param_returns, Ei |].
    eapply raises_bind_r; [apply returns_or_return, get_lmots_param_returns, F0 |].
    eapply raises_bind_r; [apply returns_or_return, get_lmots_param_returns, Fi |].
    rewrite <- !negb_andb, Hc. apply raises_fail.
Qed.

(** The loop of checks stops with [LMS_ERR_INVALID] at the first level that fails. *)
Lemma check_loop_raises k : forall i s,
  inv B (hwld s) -> (exists j, i <= j < i + Z.of_nat k /\ same_hash j = false) ->
  exists w', loopM k i (fun i _ => on_hworld (check_same_hash types ots_types i)) tt s
             = (Err LMS_ERR_INVALID, s {{ hwld := w' }}) /\ inv B w'.
Proof.
  induction k as [| k IH]; intros i s Hi (j & Hj & Hf); [lia |].
  cbn [loopM]. unfold mbind, M_bind.
  assert (Hstep : forall r w, check_same_hash types ots_types i (hwld s) = (r, w) ->
    on_hworld (check_same_hash types ots_types i) s = (r, s {{ hwld := w }}))
    by (intros r w E; unfold on_hworld; rewrite E; reflexivity).
  pose proof (check_same_hash_decides i) as Hd. destruct (same_hash i) eqn:Ei.
  - destruct (Hd _ Hi) as (w & E & Hw). rewrite (Hstep _ _ E).
    assert (j <> i) by congruence.
    destruct (IH (i + 1) (s {{ hwld := w }}) ltac:(destruct s; exact Hw) ltac:(exists j; split; [lia | exact Hf]))
      as (w' & E' & Hw'). exists w'. split; [| exact Hw'].
    rewrite E'. destruct s. reflexivity.
  - destruct (Hd _ Hi) as (w & E & Hw). rewrite (Hstep _ _ E). exists w. auto.
Qed.
End InitRefuses.

(** What [hss_private_key_init] refuses with [LMS_ERR_INVALID]: null pointers and
    level counts outside 1..8, before it touches the structure; and levels that do
    not share one hash, before it builds any tree. *)
Theorem hss_init_refuses `{P : Platform} `{Hh : HashApi} (B : backends) (privp : ptr) (levels : Z)
    (types ots_types : option (list Z)) (master : option bytes) (s : hmem) :
  inv B (hwld s) -> is_u32 levels ->
  (privp = NULL \/ types = None \/ ots_types = None \/ master = None \/ levels = 0 \/ HSS_MAX_LEVELS < levels ->
   hss_private_key_init privp levels types ots_types master s = (Err LMS_ERR_INVALID, s)) /\
  (forall ts os seed i, privp <> NULL -> types = Some ts -> ots_types = Some os -> master = Some seed ->
   1 <= levels <= HSS_MAX_LEVELS -> 1 <= i < levels -> same_hash ts os i = false ->
   exists w', hss_private_key_init privp levels types ots_types master s
     = (Err LMS_ERR_INVALID, mkHmem w' (zero_hss {{ hss_levels := levels; hss_master_seed := seed }}))
     /\ inv B w').
Proof.
  intros Hi Hl. split.
  - intros Hbad. unfold hss_private_key_init.
    destruct types as [ts |]; [| reflexivity]. destruct ots_types as [os |]; [| reflexivity].
    destruct master as [seed |]; [| reflexivity]. unfold mbind, M_bind.
    destruct (Z.eqb_spec privp NULL) as [Hn | Hn]; [reflexivity |]. cbn [guard_err mret M_ret].
    destruct ((levels =? 0) || (HSS_MAX_LEVELS <? levels)) eqn:Hc; [reflexivity |].
    apply orb_false_iff in Hc as [Hz H8]. apply Z.eqb_neq in Hz. apply Z.ltb_ge in H8.
    destruct Hbad as [? | [? | [? | [? | [? | ?]]]]]; (congruence || lia).
  - intros ts os seed i Hp -> -> -> Hr Hir Hs. unfold hss_private_key_init.
    unfold mbind, M_bind. rewrite (proj2 (Z.eqb_neq _ _) Hp). cbn [guard_err mret M_ret].
    rewrite (proj2 (Z.eqb_neq levels 0)), (proj2 (Z.ltb_ge _ _)) by lia. cbn [orb guard_err mret M_ret].
    unfold update_priv at 1, modify at 1.
    destruct (check_loop_raises B ts os (Z.to_nat (levels - 1)) 1
      (s {{ hpriv := zero_hss {{ hss_levels := levels; hss_master_seed := seed }} }})
      ltac:(destruct s; exact Hi) ltac:(exists i; split; [lia | exact Hs])) as (w' & E & Hw').
    rewrite E. exists w'. split; [destruct s; reflexivity | exact Hw'].
Qed.

Lemma hss_init_refuses_witness :
  exists w', hss_private_key_init (P := test_platform) (Hh := toy_all) 1 2
    (Some [LMS_SHAKE256_N32_H5; LMS_SHA256_N32_H5]) (Some [LMOTS_SHAKE256_N32_W1; LMOTS_SHA256_N32_W1])
    (Some demo_master) (mkHmem test_world zero_hss)
    = (Err LMS_ERR_INVALID, mkHmem w' (zero_hss {{ hss_levels := 2; hss_master_seed := demo_master }})).
Proof.
  destruct (hss_init_refuses (P := test_platform) (Hh := toy_all) no_backends 1 2
    (Some [LMS_SHAKE256_N32_H5; LMS_SHA256_N32_H5]) (Some [LMOTS_SHAKE256_N32_W1; LMOTS_SHA256_N32_W1])
    (Some demo_master) (mkHmem test_world zero_hss) demo_inv ltac:(u32_lit)) as [_ H].
  destruct (H _ _ _ 1 ltac:(discriminate) eq_refl eq_refl eq_refl ltac:(split; discriminate)
    ltac:(split; [discriminate | reflexivity]) eq_refl) as (w' & E & _).
  exists w'. exact E.
Defined.

(** * Verification *)

(** C5: [hss_verify] decides hierarchical verification (RFC 8554, algorithm 8): it
    accepts only what the reference verifier accepts, and without failing backends
    or heap everything it accepts. *)
Theorem hss_verify_refines `{P : Platform} `{Hh : HashApi} (F : Prop) (B : backends)
    (pub : hss_public_key_t) (lp : lms_param_t) (op : lmots_param_t) (m : cbuf) (sg : bytes) :
  backends_sound F [] [] B -> (forall a, available a) -> msg_ok F m ->
  1 <= hpub_levels pub <= HSS_MAX_LEVELS -> pub_ok (hpub_root_pub pub) lp op -> Forall is_byte sg ->
  hoare (inv B) (F \/ hss_accepts pub (cbuf_data m) sg = false) (hss_verify (Some pub) m (Buf sg))
    (fun _ => hss_accepts pub (cbuf_data m) sg = true).
Proof. intros HB Ha Hm. exact (hss_verify_ok F B HB Ha m Hm pub lp op sg). Qed.

Lemma hss_verify_refines_witness :
  hoare (inv (P := test_platform) no_backends) True
    (hss_verify (Hh := toy_all) (Some (mkHssPub 2 (pub_of (Hh := toy_all) demo_priv demo_lp demo_op)))
       demo_msg (Buf (fill 0 100)))
    (fun _ => False).
Proof.
  pose proof (hss_verify_refines (P := test_platform) (Hh := toy_all) False no_backends
    (mkHssPub 2 (pub_of (Hh := toy_all) demo_priv demo_lp demo_op)) demo_lp demo_op demo_msg (fill 0 100)
    (demo_sound _ _) toy_all_available demo_msg_ok ltac:(split; discriminate)
    (pub_of_ok (Hh := toy_all) demo_priv demo_lp demo_op
       ltac:(destruct demo_key_ok; split; [assumption | reflexivity | apply toy_all_available]))
    (fill_bytes 100 0 ltac:(u32_lit))) as H.
  eapply hoare_weaken; [eapply hoare_conseq; [exact H |] | intros _; exact I].
  intros u. discriminate.
Defined.

(** * Signing *)

(** C7: [hss_sign] on a key that satisfies the invariant.  It fails only when backends
    or heap do, when every level is exhausted, or when a generation counter is about
    to wrap; then key and length report are as before.  Otherwise the key moved
    forward to [p1] (which is the old key when the last tree has an index left),
    the buffer holds the signature of [p1]'s last index, and the caller's key is
    [p1] past that index, which satisfies the invariant again. *)
Theorem hss_sign_refines `{P : Platform} `{Hh : HashApi} (F : Prop) (B : backends) (H : hparams) (m : cbuf)
    (p : hss_private_key_t) (privp sptr wptr : ptr) (slen : Z) (s : hsmem) :
  (forall I_ seed, backends_sound F I_ seed B) -> hparams_ok H ->
  (malloc_may_fail sizeof_hss_private_key -> F) -> msg_ok F m ->
  hss_ok H (H_levels H - 1) p -> privp <> NULL -> sptr <> NULL ->
  hss_len H <= slen -> hss_len H <= len (hs_sig s) -> inv B (hs_wld s) -> hs_priv s = p ->
  match hss_sign privp m sptr slen wptr s with
  | (Ok _, s') => exists p1 C, hss_signed B H m p p1 wptr C s s' /\
                               hss_ok H (H_levels H - 1) (hs_priv s')
  | (Err _, s') =>
      (F \/ spent_upto H p (H_levels H - 1) \/ counter_end H (H_levels H - 1) p) /\ untouched B p s s'
  end.
Proof.
  intros HB HH Hheap Hm Hok Hp Hsp Hsl Hl Hi Hpr.
  pose proof (hss_sign_run F B HB H HH Hheap m Hm p privp sptr slen wptr s Hok Hp Hsp Hsl Hl Hi Hpr) as Hr.
  unfold hrun in Hr. destruct (hss_sign _ _ _ _ _ s) as [[[] | e] s']; [| split; [tauto | apply Hr]].
  destruct Hr as (p1 & C & Hsg). exists p1, C. split; [exact Hsg |].
  destruct Hsg as (Hok1 & _ & Hq & _ & _ & _ & _ & -> & _).
  apply (bumped_ok H HH); [exact Hok1 | reflexivity | exact Hq].
Qed.

Definition demo_hsmem (s : hmem) : hsmem (P := test_platform) :=
  mkHsmem (hwld s) (fill 0 20000) (hpriv s) None.

(** A freshly initialised key is neither exhausted nor near its last generation. *)
Lemma demo_not_spent p :
  (forall i, 0 <= i < 2 -> hss_gen p i = zero_gen) ->
  (forall i, 0 <= i < 2 -> priv_q (hss_key p i) = if i <? 1 then 1 else 0) ->
  ~ (False \/ spent_upto demo_H p 1 \/ counter_end demo_H 1 p).
Proof.
  intros Hg Hq [[] | [Hs | (i & Hi & He)]].
  - specialize (Hs 1 ltac:(lia)). rewrite Hq in Hs by lia. discriminate.
  - cbn in Hi. rewrite Hg in He by lia. apply Z.leb_le in He. discriminate.
Qed.

Lemma hss_sign_refines_witness :
  exists s s', hss_sign (P := test_platform) (Hh := toy_all) 1 demo_msg 1 18000 1 (demo_hsmem s) = (Ok tt, s') /\
               hs_written s' = Some 17428 /\ hs_priv s' = bumped demo_H (hpriv s) 0.
Proof.
  destruct demo_init as (s & Hok & Hi & _ & Hg & Hq). exists s.
  pose proof (hss_sign_refines (P := test_platform) (Hh := toy_all) False no_backends demo_H demo_msg
    (hpriv s) 1 1 1 18000 (demo_hsmem s) demo_sound demo_hparams_ok demo_heap demo_msg_ok Hok
    ltac:(discriminate) ltac:(discriminate) ltac:(vm_compute; discriminate) ltac:(vm_compute; discriminate)
    Hi eq_refl) as H.
  destruct (hss_sign _ _ _ _ _ _) as [[[] | e] s'].
  - destruct H as (p1 & C & (_ & _ & _ & Hsame & _ & _ & _ & Hp & _ & Hw) & _). exists s'.
    assert (p1 = hpriv s) as -> by (apply Hsame; change (H_levels demo_H - 1) with 1; rewrite Hq by lia; reflexivity).
    split; [reflexivity |]. split; [exact Hw |]. rewrite Hp. change (H_levels demo_H - 1) with 1.
    rewrite Hq by lia. reflexivity.
  - exfalso. exact (demo_not_spent (hpriv s) Hg Hq (proj1 H)).
Defined.

Section Atomic.
Context `{P : Platform} `{Hh : HashApi}.

Definition same_key (s s' : hsmem) : Prop := hs_priv s' = hs_priv s /\ hs_written s' = hs_written s.

(** Both outcomes, or only failures, leave key and length report alone. *)
Definition hss_keeps {A} (m : HSM A) : Prop := forall s, same_key s (snd (m s)).
Definition hss_keeps_on_error {A} (m : HSM A) : Prop := forall s e s', m s = (Err e, s') -> same_key s s'.

Lemma same_key_trans s1 s2 s3 : same_key s1 s2 -> same_key s2 s3 -> same_key s1 s3.
Proof. intros [H1 H2] [H3 H4]. split; congruence. Qed.

Lemma hss_keeps_bind {A A'} (m : HSM A) (f : A -> HSM A') :
  hss_keeps m -> (forall a, hss_keeps (f a)) -> hss_keeps (m ≫= f).
Proof.
  intros Hm Hf s. specialize (Hm s). unfold mbind, M_bind. destruct (m s) as [[a | e] s1]; [| exact Hm].
  exact (same_key_trans _ _ _ Hm (Hf a s1)).
Qed.

Lemma hss_keeps_then {A A'} (m : HSM A) (f : A -> HSM A') :
  hss_keeps m -> (forall a, hss_keeps_on_error (f a)) -> hss_keeps_on_error (m ≫= f).
Proof.
  intros Hm Hf s e s'. specialize (Hm s). unfold mbind, M_bind. destruct (m s) as [[a | e'] s1].
  - intros E. exact (same_key_trans _ _ _ Hm (Hf a s1 e s' E)).
  - intros [= _ <-]. exact Hm.
Qed.

Lemma hss_keeps_or_return {A} e (m : HSM A) : hss_keeps m -> hss_keeps (or_return e m).
Proof. intros Hm s. specialize (Hm s). unfold or_return. destruct (m s) as [[a | e'] s1]; exact Hm. Qed.

Lemma hss_keeps_world {A} (m : C A) : hss_keeps (hs_on_world m).
Proof. intros s. unfold hs_on_world. destruct (m (hs_wld s)). destruct s. split; reflexivity. Qed.

Lemma hss_keeps_copy {A} p (m : HM A) : hss_keeps (on_copy p m).
Proof. intros s. unfold on_copy. destruct (m _) as [[a | e] h]; destruct s; split; reflexivity. Qed.

Lemma hss_keeps_guard c e : hss_keeps (guard_err c e).
Proof. intros s. destruct c; split; reflexivity. Qed.

Lemma hss_keeps_write off b : hss_keeps (hs_write off b).
Proof. intros s. destruct s. split; reflexivity. Qed.

Lemma hss_keeps_final k m sptr off slen : hss_keeps (hs_final_sign k m sptr off slen).
Proof. intros s. unfold hs_final_sign. destruct (lms_sign _ _ _ _ _ _ _) as [[u | e] m']; destruct s; split; reflexivity. Qed.

Lemma hss_keeps_certificate p i off : hss_keeps (copy_certificate p i off).
Proof.
  apply hss_keeps_bind.
  - apply hss_keeps_or_return. intros s. destruct (lms_public_key_serialize _ _ _); split; reflexivity.
  - intros b. apply hss_keeps_bind; [apply hss_keeps_write |]. intros _.
    apply hss_keeps_bind; [apply hss_keeps_write |]. intros _ s. split; reflexivity.
Qed.

Lemma hss_keeps_loop p k : forall i off, hss_keeps (loopM k i (copy_certificate p) off).
Proof.
  induction k as [| k IH]; intros i off; [intros s; split; reflexivity |].
  apply hss_keeps_bind; [apply hss_keeps_certificate | intros off'; apply IH].
Qed.

Lemma hss_sign_keeps m privp sptr wptr slen : hss_keeps_on_error (hss_sign privp m sptr slen wptr).
Proof.
  apply hss_keeps_then; [intros s; split; reflexivity | intros p].
  apply hss_keeps_then; [apply hss_keeps_guard | intros _].
  apply hss_keeps_then; [apply hss_keeps_world | intros needed].
  apply hss_keeps_then; [apply hss_keeps_guard | intros _].
  apply hss_keeps_then; [apply hss_keeps_world | intros ok].
  apply hss_keeps_then; [apply hss_keeps_guard | intros _].
  apply hss_keeps_then; [apply hss_keeps_or_return, hss_keeps_copy | intros [[] next]].
  apply hss_keeps_then; [apply hss_keeps_write | intros _].
  apply hss_keeps_then; [apply hss_keeps_loop | intros off].
  apply hss_keeps_then; [apply hss_keeps_or_return, hss_keeps_final | intros [k fl]].
  intros s e s'. discriminate.
Qed.
End Atomic.

(** Whatever happens, on any key and with any backends, a call of [hss_sign] that
    does not return [LMS_OK] leaves the caller's key and length report alone: the
    cascade and the last signature run on a copy. *)
Theorem hss_sign_atomic `{P : Platform} `{Hh : HashApi} (m : cbuf) (privp sptr wptr : ptr) (slen : Z)
    (s s' : hsmem) (e : lms_status_t) :
  hss_sign privp m sptr slen wptr s = (Err e, s') ->
  hs_priv s' = hs_priv s /\ hs_written s' = hs_written s.
Proof. exact (hss_sign_keeps m privp sptr wptr slen s e s'). Qed.

(** The first guard, on any memory. *)
Lemma hss_sign_null `{P : Platform} `{Hh : HashApi} m sptr wptr slen s :
  hss_sign NULL m sptr slen wptr s = (Err LMS_ERR_INVALID, s).
Proof. reflexivity. Qed.

Lemma hss_sign_atomic_witness :
  exists s', hss_sign (P := test_platform) (Hh := toy_all) NULL demo_msg 1 100 1
      (mkHsmem test_world (fill 0 100) zero_hss None) = (Err LMS_ERR_INVALID, s') /\
    hs_priv s' = zero_hss /\ hs_written s' = None.
Proof.
  eexists. split; [apply hss_sign_null |].
  exact (hss_sign_atomic (P := test_platform) (Hh := toy_all) demo_msg NULL 1 1 100
    (mkHsmem test_world (fill 0 100) zero_hss None) _ LMS_ERR_INVALID (hss_sign_null _ _ _ _ _)).
Defined.

(** C3: the round trip of the hierarchy: under the public key generated before
    signing, [hss_verify] accepts what [hss_sign] wrote, also when trees were
    replaced on the way. *)
Theorem hss_sign_verify_roundtrip `{P : Platform} `{Hh : HashApi} (F : Prop) (B : backends) (H : hparams)
    (m : cbuf) (p : hss_private_key_t) (privp sptr wptr : ptr) (slen : Z) (s : hsmem) :
  (forall I_ seed, backends_sound F I_ seed B) -> hparams_ok H -> (forall a, available a) ->
  (malloc_may_fail sizeof_hss_private_key -> F) -> msg_ok F m ->
  hss_ok H (H_levels H - 1) p -> privp <> NULL -> sptr <> NULL ->
  hss_len H <= slen -> hss_len H <= len (hs_sig s) -> inv B (hs_wld s) -> hs_priv s = p ->
  match hss_sign privp m sptr slen wptr s with
  | (Ok _, s') =>
      exists pub, hss_public_key_generate (Some p) 1 = Ok pub /\
        hoare (inv B) F (hss_verify (Some pub) m (Buf (slice 0 (hss_len H) (hs_sig s')))) (fun _ => True)
  | (Err _, s') => F \/ spent_upto H p (H_levels H - 1) \/ counter_end H (H_levels H - 1) p
  end.
Proof.
  intros HB HH Ha Hheap Hm Hok Hp Hsp Hsl Hl Hi Hpr.
  pose proof (hss_sign_run F B HB H HH Hheap m Hm p privp sptr slen wptr s Hok Hp Hsp Hsl Hl Hi Hpr) as Hr.
  pose proof (H_range H HH) as Hn. unfold HSS_MAX_LEVELS in Hn.
  unfold hrun in Hr. destruct (hss_sign _ _ _ _ _ s) as [[[] | e] s']; [| tauto].
  destruct Hr as (p1 & C & Hok1 & Hpg & Hq & _ & HC & HCb & _ & _ & Hs & _).
  exists (mkHssPub (H_levels H) (hss_pub p 0)). split.
  { unfold hss_public_key_generate. rewrite (st_levels _ _ (hss_static _ _ _ Hok)).
    rewrite (proj2 (Z.eqb_neq (H_levels H) 0)) by lia. reflexivity. }
  assert (E : hss_pub p 0 = hss_pub p1 0).
  { rewrite (level_pub_eq H p Hok 0), (level_pub_eq H p1 Hok1 0) by lia.
    rewrite (pg_top _ _ _ _ _ Hpg). reflexivity. }
  destruct (hss_level _ _ _ Hok1 (H_levels H - 1) ltac:(lia)) as (q & Hk & _ & Hr).
  pose proof (hss_signature_size H HH p1 Hok1 (priv_q (hss_key p1 (H_levels H - 1))) C (cbuf_data m) HC) as Hsz.
  rewrite Hs, <- Hsz. rewrite slice_app_l, slice_all by (lia || apply len_nonneg).
  eapply hoare_weaken; [eapply hoare_conseq |].
  - apply (hss_verify_ok F B (HB [] []) Ha m Hm (mkHssPub (H_levels H) (hss_pub p 0)) (lp_of H 0) (op_of H 0)).
    + unfold HSS_MAX_LEVELS. cbn [hpub_levels]. lia.
    + apply (hss_pub_ok H HH p Hok 0). lia.
    + apply (hss_signature_bytes H HH p1 Hok1); exact HCb.
  - auto.
  - intros [HF | Hrej]; [exact HF |]. exfalso. rewrite E in Hrej.
    rewrite (hss_signature_accepted H HH p1 Hok1) in Hrej; [discriminate | | exact HC].
    rewrite Hk in *. cbn [level_key priv_q] in *. lia.
Qed.

Lemma hss_sign_verify_roundtrip_witness :
  exists s s' pub, hss_sign (P := test_platform) (Hh := toy_all) 1 demo_msg 1 18000 1 (demo_hsmem s) = (Ok tt, s') /\
    hss_public_key_generate (Some (hpriv s)) 1 = Ok pub /\
    hoare (inv no_backends) False
      (hss_verify (Hh := toy_all) (Some pub) demo_msg (Buf (slice 0 17428 (hs_sig s')))) (fun _ => True).
Proof.
  destruct demo_init as (s & Hok & Hi & _ & Hg & Hq). exists s.
  pose proof (hss_sign_verify_roundtrip (P := test_platform) (Hh := toy_all) False no_backends demo_H demo_msg
    (hpriv s) 1 1 1 18000 (demo_hsmem s) demo_sound demo_hparams_ok toy_all_available demo_heap demo_msg_ok Hok
    ltac:(discriminate) ltac:(discriminate) ltac:(vm_compute; discriminate) ltac:(vm_compute; discriminate)
    Hi eq_refl) as H.
  destruct (hss_sign _ _ _ _ _ _) as [[[] | e] s'].
  - destruct H as (pub & Hp & Hv). exists s', pub. auto.
  - exfalso. exact (demo_not_spent (hpriv s) Hg Hq H).
Defined.

(** * Refusals *)

Section Refusals.
Context `{P : Platform} `{Hh : HashApi}.
Variable B : backends.
Variable H : hparams.
Hypothesis HH : hparams_ok H.
Abbreviation n := (H_levels H).

Lemma hss_sign_bad_arguments m privp sptr wptr slen s :
  privp = NULL \/ sptr = NULL \/ cbuf_null m && negb (cbuf_len m =? 0) = true \/ hss_levels (hs_priv s) = 0 ->
  hss_sign privp m sptr slen wptr s = (Err LMS_ERR_INVALID, s).
Proof.
  intros Hbad. unfold hss_sign, mbind, M_bind. cbv beta iota.
  assert (Hc : (privp =? NULL) || (sptr =? NULL) || (cbuf_null m && negb (cbuf_len m =? 0))
               || (hss_levels (hs_priv s) =? 0) = true).
  { rewrite !orb_true_iff, !Z.eqb_eq. tauto. }
  rewrite Hc. reflexivity.
Qed.

Lemma world_ok {A} (m : C A) a s : returns B m a -> inv B (hs_wld s) ->
  exists w', hs_on_world m s = (Ok a, s {{ hs_wld := w' }}) /\ inv B w'.
Proof. intros Hm Hi. destruct (Hm _ Hi) as (w' & E & Hw'). exists w'. unfold hs_on_world. rewrite E. auto. Qed.

(** Up to the look at the lengths. *)
Lemma hss_sign_start m privp sptr wptr slen s :
  hss_ok H (n - 1) (hs_priv s) -> inv B (hs_wld s) ->
  privp <> NULL -> sptr <> NULL -> cbuf_null m && negb (cbuf_len m =? 0) = false ->
  exists w', inv B w' /\ hss_sign privp m sptr slen wptr s
   = (guard_err ((hss_len H =? 0) || (slen <? hss_len H)) LMS_ERR_BUFFER_TOO_SMALL ;;
      ok ← hs_on_world (malloc_ok sizeof_hss_private_key);
      guard_err (negb ok) LMS_ERR_INVALID ;;
      '(_, next) ← or_return LMS_ERR_EXHAUSTED
        (on_copy (hs_priv s) (refresh_level_if_exhausted (Z.to_nat (n - 1))));
      hs_write 0 (lms_store_u32 (u32 (hss_levels next - 1))) ;;
      off ← loopM (Z.to_nat (hss_levels next - 1)) 0 (copy_certificate next) 4;
      '(k, final_len) ← or_return LMS_ERR_EXHAUSTED
        (hs_final_sign (hss_key next (hss_levels next - 1)) m sptr off (slen - off));
      modify (fun s => s {{ hs_priv := next {{ hss_keys := upd (hss_levels next - 1) k (hss_keys next) }};
                            hs_written := if wptr =? NULL then hs_written s
                                          else Some (off + final_len) }})) (s {{ hs_wld := w' }}).
Proof.
  intros Hok Hi Hp Hsp Hm. pose proof (H_range H HH) as Hn. unfold HSS_MAX_LEVELS in Hn.
  destruct (world_ok (hss_signature_len (Some (hs_priv s))) (hss_len H) s
    (hss_signature_len_returns H HH _ Hok B) Hi) as (w' & E & Hw'). exists w'. split; [exact Hw' |].
  unfold hss_sign. rewrite (bind_ok (fun s => (Ok (hs_priv s), s)) _ s (hs_priv s) s eq_refl).
  rewrite (proj2 (Z.eqb_neq _ _) Hp), (proj2 (Z.eqb_neq _ _) Hsp), Hm,
    (st_levels _ _ (hss_static _ _ _ Hok)), (proj2 (Z.eqb_neq n 0)), u32_small by lia.
  cbn [orb]. rewrite (bind_ok (guard_err false _) _ s tt s eq_refl), (bind_ok _ _ _ _ _ E). reflexivity.
Qed.

Lemma hss_sign_too_small m privp sptr wptr slen s :
  hss_ok H (n - 1) (hs_priv s) -> inv B (hs_wld s) ->
  privp <> NULL -> sptr <> NULL -> cbuf_null m && negb (cbuf_len m =? 0) = false -> slen < hss_len H ->
  exists w', hss_sign privp m sptr slen wptr s = (Err LMS_ERR_BUFFER_TOO_SMALL, s {{ hs_wld := w' }}) /\ inv B w'.
Proof.
  intros Hok Hi Hp Hsp Hm Hl.
  destruct (hss_sign_start m privp sptr wptr slen s Hok Hi Hp Hsp Hm) as (w' & Hw' & ->).
  exists w'. split; [| exact Hw']. rewrite (proj2 (Z.ltb_lt _ _) Hl), orb_true_r. reflexivity.
Qed.

Lemma hss_sign_exhausted m privp sptr wptr slen s :
  hss_ok H (n - 1) (hs_priv s) -> inv B (hs_wld s) -> ~ malloc_may_fail sizeof_hss_private_key ->
  privp <> NULL -> sptr <> NULL -> cbuf_null m && negb (cbuf_len m =? 0) = false -> hss_len H <= slen ->
  spent_upto H (hs_priv s) (n - 1) ->
  exists w', hss_sign privp m sptr slen wptr s = (Err LMS_ERR_EXHAUSTED, s {{ hs_wld := w' }}) /\ inv B w'.
Proof.
  intros Hok Hi Hmal Hp Hsp Hm Hl Hs. pose proof (H_range H HH) as Hn.
  destruct (hss_sign_start m privp sptr wptr slen s Hok Hi Hp Hsp Hm) as (w1 & Hw1 & ->).
  pose proof (certs_len_nonneg H HH (Z.to_nat (n - 1)) 0 ltac:(lia) ltac:(lia)) as Hcl.
  pose proof (size_range H HH (n - 1) ltac:(lia)) as Hsz.
  rewrite (proj2 (Z.ltb_ge _ _) Hl), (proj2 (Z.eqb_neq (hss_len H) 0)) by (unfold hss_len; lia).
  cbn [orb]. rewrite (bind_ok (guard_err false _) _ _ tt _ eq_refl).
  destruct (world_ok (malloc_ok sizeof_hss_private_key) true (s {{ hs_wld := w1 }})) as (w2 & E2 & Hw2).
  { intros w Hw. rewrite malloc_ok_run. eexists. split; [| apply inv_malloc, Hw]. do 2 f_equal.
    destruct (fst _) eqn:Em; [reflexivity |]. destruct Hmal. eexists. exact Em. }
  { destruct s. exact Hw1. }
  rewrite (bind_ok _ _ _ _ _ E2), (bind_ok (guard_err (negb true) _) _ _ tt _ eq_refl).
  pose proof (refresh_spent True B H HH (Z.to_nat (n - 1)) (hs_priv s) ltac:(lia) Hok
    ltac:(rewrite Z2Nat.id by lia; exact Hs) (mkHmem w2 (hs_priv s)) Hw2 eq_refl) as Hr.
  destruct (refresh_level_if_exhausted (Z.to_nat (n - 1)) (mkHmem w2 (hs_priv s))) as [[[] | e] h] eqn:Er;
    [destruct Hr as [[] _] |]. exists (hwld h). split; [| apply Hr].
  apply bind_err. destruct s as [w b pv wr]. cbn [hs_priv] in Er.
  unfold or_return, on_copy. change (hs_wld _) with w2. cbn [hs_priv]. rewrite Er. reflexivity.
Qed.
End Refusals.

(** What [hss_sign] refuses before it writes: bad arguments, a buffer that is too
    small, and a key whose every level is exhausted; the last for good, since a
    refused key is unchanged. *)
Theorem hss_sign_refuses `{P : Platform} `{Hh : HashApi} (B : backends) (H : hparams) (m : cbuf)
    (privp sptr wptr : ptr) (slen : Z) (s : hsmem) :
  hparams_ok H -> inv B (hs_wld s) -> hss_ok H (H_levels H - 1) (hs_priv s) ->
  let run := hss_sign privp m sptr slen wptr s in
  let refused e := exists w', run = (Err e, s {{ hs_wld := w' }}) /\ inv B w' in
  (privp = NULL \/ sptr = NULL \/ cbuf_null m && negb (cbuf_len m =? 0) = true -> run = (Err LMS_ERR_INVALID, s)) /\
  (privp <> NULL -> sptr <> NULL -> cbuf_null m && negb (cbuf_len m =? 0) = false ->
   (slen < hss_len H -> refused LMS_ERR_BUFFER_TOO_SMALL) /\
   (hss_len H <= slen -> spent_upto H (hs_priv s) (H_levels H - 1) ->
    ~ malloc_may_fail sizeof_hss_private_key -> refused LMS_ERR_EXHAUSTED)).
Proof.
  intros HH Hi Hok. split; [intros Hbad; apply hss_sign_bad_arguments; tauto |].
  intros Hp Hsp Hm. split; [intros Hl | intros Hl Hs Hmal].
  - exact (hss_sign_too_small B H HH m privp sptr wptr slen s Hok Hi Hp Hsp Hm Hl).
  - exact (hss_sign_exhausted B H HH m privp sptr wptr slen s Hok Hi Hmal Hp Hsp Hm Hl Hs).
Qed.

Lemma hss_sign_refuses_witness :
  exists s w', hss_sign (P := test_platform) (Hh := toy_all) 1 demo_msg 1 17427 1 (demo_hsmem s)
            = (Err LMS_ERR_BUFFER_TOO_SMALL, (demo_hsmem s) {{ hs_wld := w' }}).
Proof.
  destruct demo_init as (s & Hok & Hi & _). exists s.
  destruct (hss_sign_refuses (P := test_platform) (Hh := toy_all) no_backends demo_H demo_msg 1 1 1 17427
    (demo_hsmem s) demo_hparams_ok Hi Hok) as [_ H].
  destruct (H ltac:(discriminate) ltac:(discriminate) eq_refl) as [Hs _].
  destruct (Hs ltac:(vm_compute; reflexivity)) as (w' & E & _). exists w'. exact E.
Defined.

(** * Histories *)

(** The index written in certificate [i]. *)
Definition cert_index (p : hss_private_key_t) (i : Z) : Z := lms_load_u32 (hss_cert p i).

Section History.
Context `{P : Platform} `{Hh : HashApi}.
Variable F : Prop.
Variable B : backends.
Hypothesis HB : forall I_ seed, backends_sound F I_ seed B.
Variable H : hparams.
Hypothesis HH : hparams_ok H.
Hypothesis Hheap : malloc_may_fail sizeof_hss_private_key -> F.
Abbreviation n := (H_levels H).
Abbreviation G p i := (be_value (hss_gen p i)).
Abbreviation Q p i := (priv_q (hss_key p i)).

(** A call that returned an error: its message and length, the memory before and after it. *)
Record failed_call := mkFailed {
  fc_message : cbuf;
  fc_len : Z;
  fc_before : hsmem;
  fc_after : hsmem
}.

(** Calls of [hss_sign] from arbitrary memories that hold the key, other uses of the
    library in between.  For every success the first log keeps the key after the call and
    the signature; the second log keeps every call that failed. *)
Inductive hss_history (p0 : hss_private_key_t)
  : list (hss_private_key_t * bytes) -> list failed_call -> hss_private_key_t -> Prop :=
| hist_start : hss_history p0 [] [] p0
| hist_signed log failed m privp sptr slen wptr s s' :
    hss_history p0 log failed (hs_priv s) -> inv B (hs_wld s) -> msg_ok F m -> slen <= len (hs_sig s) ->
    hss_sign privp m sptr slen wptr s = (Ok tt, s') ->
    hss_history p0 (log ++ [(hs_priv s', slice 0 (hss_len H) (hs_sig s'))]) failed (hs_priv s')
| hist_failed log failed m privp sptr slen wptr s s' e :
    hss_history p0 log failed (hs_priv s) -> hss_sign privp m sptr slen wptr s = (Err e, s') ->
    hss_history p0 log (failed ++ [mkFailed m slen s s']) (hs_priv s').

(** A failed call released nothing: the signature buffer is as it was, for a call with a library
    in order, a readable message and a buffer of the announced length. *)
Definition nothing_released (c : failed_call) : Prop :=
  inv B (hs_wld (fc_before c)) -> msg_ok F (fc_message c) -> fc_len c <= len (hs_sig (fc_before c)) ->
  hs_sig (fc_after c) = hs_sig (fc_before c).

(** The slots of two signatures, [a] before [b]: the last tree's one-time key is a
    later one, and at every level above either both carry the same certificate or
    the later certificate was made by a later one-time key. *)
Definition later_slots (a b : hss_private_key_t) : Prop :=
  (G a (n - 1) < G b (n - 1) \/ G b (n - 1) = G a (n - 1) /\ Q a (n - 1) < Q b (n - 1)) /\
  forall i, 0 <= i < n - 1 ->
    cert_same a b i \/ G a i < G b i \/ G b i = G a i /\ cert_index a i < cert_index b i.

(** The signature is one of the logged key, whose last level used the index before
    its current one. *)
Definition log_entry (e : hss_private_key_t * bytes) : Prop :=
  hss_ok H (n - 1) (fst e) /\ 0 < Q (fst e) (n - 1) /\
  exists C msg, len C = LMS_N /\ snd e = hss_signature H (fst e) (Q (fst e) (n - 1) - 1) C msg.

Lemma cert_at_index p i q : 0 <= i < n -> is_u32 q -> cert_at H p i q -> cert_index p i = q.
Proof.
  intros Hi Hq (C & HC & _ & _ & Hs). unfold cert_index.
  pose proof (level_sig_len H HH i Hi) as Hl.
  pose proof (signature_len_ok _ _ _ (level_key_ok H HH i (hss_gen p i) 0 Hi
    ltac:(split; [discriminate | reflexivity])) q C (pub_bytes (hss_pub p (i + 1))) HC) as Hsz.
  assert (H4 : 4 <= sig_len (lp_of H i) (op_of H i)).
  { destruct (level_params H HH i Hi) as [E _]. destruct (matching_params_wf _ _ _ _ E) as (Hwf & _ & _ & Hop & _).
    pose proof (lms_height_range _ Hwf). pose proof (op_p_range _ _ Hop). unfold sig_len, LMS_N. lia. }
  rewrite <- (lms_load_u32_take (sig_len (lp_of H i) (op_of H i))) by exact H4. rewrite Hs.
  unfold signature_of, lms_signature. apply lms_load_store_u32, Hq.
Qed.

Lemma progress_later d a p1 :
  hss_ok H (n - 1) a -> hss_ok H (n - 1) p1 -> progress H (n - 1) d a p1 -> Q p1 (n - 1) < cap H (n - 1) ->
  later_slots a (bumped H p1 (Q p1 (n - 1))).
Proof.
  intros Ha Hp Hpg Hq. pose proof (H_range H HH) as Hn.
  pose proof (bumped_ok H HH p1 _ Hp eq_refl Hq) as Hb.
  pose proof (progress_bumped H HH d a p1 Hp Hpg) as Hpb. set (b := bumped H p1 _) in *. split.
  - destruct Hpg as [G1 Q1 _ _]. specialize (G1 (n - 1) ltac:(lia)). specialize (Q1 (n - 1) ltac:(lia)).
    assert (EQ : Q b (n - 1) = Q p1 (n - 1) + 1).
    { unfold b. rewrite (key_bumped H HH), Z.eqb_refl by (apply Hp || lia). reflexivity. }
    change (G b (n - 1)) with (G p1 (n - 1)). lia.
  - intros i Hi. destruct (pg_cert _ _ _ _ _ Hpb i Hi) as [Hs | (q & Hr & Hc & Hf)]; [left; exact Hs | right].
    destruct (hss_cert_valid _ _ _ Ha i Hi) as (q1 & Hr1 & Hc1).
    pose proof (cap_range H HH i ltac:(lia)) as Hcap.
    destruct (level_at_q H a i (hss_level _ _ _ Ha i ltac:(lia))) as (_ & _ & Hqa).
    destruct (level_at_q H b i (hss_level _ _ _ Hb i ltac:(lia))) as (_ & _ & Hqb).
    rewrite (cert_at_index b i q), (cert_at_index a i q1) by (assumption || unfold is_u32; lia).
    destruct Hf as [Hf | [He Hf]]; [left; exact Hf | right; lia].
Qed.

Lemma ord_pairs_snoc {A} (R : A -> A -> Prop) l x :
  ForallOrdPairs R l -> Forall (fun a => R a x) l -> ForallOrdPairs R (l ++ [x]).
Proof.
  induction 1 as [| a l Ha Hl IH]; intros Hx; cbn.
  - constructor; constructor.
  - inversion Hx as [| ? ? Hax Hlx]; subst. constructor; [| apply IH, Hlx].
    apply Forall_app. split; [exact Ha | constructor; [exact Hax | constructor]].
Qed.

Lemma certs_bytes_bumped p q k : forall i, certs_bytes H (bumped H p q) i k = certs_bytes H p i k.
Proof. induction k as [| k IH]; intros i; cbn [certs_bytes]; [reflexivity |]. rewrite IH. reflexivity. Qed.

(** A successful call had usable arguments. *)
Lemma hss_sign_success m privp sptr wptr slen s s' :
  hss_ok H (n - 1) (hs_priv s) -> inv B (hs_wld s) -> msg_ok F m -> slen <= len (hs_sig s) ->
  hss_sign privp m sptr slen wptr s = (Ok tt, s') ->
  exists p1 C, hss_signed B H m (hs_priv s) p1 wptr C s s'.
Proof.
  intros Hok Hi Hm Hl E.
  destruct (Z.eq_dec privp NULL) as [Hp | Hp].
  { rewrite hss_sign_bad_arguments in E by auto. discriminate. }
  destruct (Z.eq_dec sptr NULL) as [Hs | Hs].
  { rewrite hss_sign_bad_arguments in E by auto. discriminate. }
  destruct (Z.lt_ge_cases slen (hss_len H)) as [Hsl | Hsl].
  { destruct (hss_sign_too_small B H HH m privp sptr wptr slen s Hok Hi Hp Hs (msg_readable _ _ Hm) Hsl)
      as (w' & E' & _). rewrite E' in E. discriminate. }
  pose proof (hss_sign_run F B HB H HH Hheap m Hm (hs_priv s) privp sptr slen wptr s Hok Hp Hs Hsl
    ltac:(lia) Hi eq_refl) as Hr.
  unfold hrun in Hr. rewrite E in Hr. exact Hr.
Qed.

(** Unless something behind [F] fails, a failed call has not touched the buffer. *)
Lemma hss_sign_failure m privp sptr wptr slen s s' e :
  ~ F -> hss_ok H (n - 1) (hs_priv s) -> inv B (hs_wld s) -> msg_ok F m -> slen <= len (hs_sig s) ->
  hss_sign privp m sptr slen wptr s = (Err e, s') -> hs_sig s' = hs_sig s.
Proof.
  intros HnF Hok Hi Hm Hl E.
  destruct (Z.eq_dec privp NULL) as [Hp | Hp].
  { rewrite hss_sign_bad_arguments in E by auto. injection E as _ <-. reflexivity. }
  destruct (Z.eq_dec sptr NULL) as [Hs | Hs].
  { rewrite hss_sign_bad_arguments in E by auto. injection E as _ <-. reflexivity. }
  destruct (Z.lt_ge_cases slen (hss_len H)) as [Hsl | Hsl].
  { destruct (hss_sign_too_small B H HH m privp sptr wptr slen s Hok Hi Hp Hs (msg_readable _ _ Hm) Hsl)
      as (w' & E' & _). rewrite E' in E. injection E as _ <-. destruct s. reflexivity. }
  pose proof (hss_sign_run F B HB H HH Hheap m Hm (hs_priv s) privp sptr slen wptr s Hok Hp Hs Hsl
    ltac:(lia) Hi eq_refl) as Hr.
  unfold hrun in Hr. rewrite E in Hr. destruct Hr as [[HF | [_ Hr]] _]; [destruct (HnF HF) | exact Hr].
Qed.

Lemma history_inv p0 log failed p :
  hss_ok H (n - 1) p0 -> hss_history p0 log failed p ->
  hss_ok H (n - 1) p /\
  Forall (fun e => log_entry e /\ exists d, progress H (n - 1) d (fst e) p) log /\
  ForallOrdPairs (fun a b => later_slots (fst a) (fst b)) log.
Proof.
  intros H0 Hh'. pose proof (H_range H HH) as Hn.
  induction Hh' as [| log failed m privp sptr slen wptr s s' _ IH Hi Hm Hl E
    | log failed m privp sptr slen wptr s s' e _ IH E].
  - split; [exact H0 |]. split; constructor.
  - destruct IH as (Hok & Hlog & Hord).
    destruct (hss_sign_success m privp sptr wptr slen s s' Hok Hi Hm Hl E) as (p1 & C & Hok1 & Hpg & Hq & _ & HC & HCb & _ & Hp' & Hs' & _).
    pose proof (bumped_ok H HH p1 _ Hok1 eq_refl Hq) as Hb. rewrite Hp'. split; [exact Hb |].
    destruct (level_at_q H p1 (n - 1) (hss_level _ _ _ Hok1 (n - 1) ltac:(lia))) as (_ & _ & Hq0).
    assert (Hpre : Forall (fun e => log_entry e /\ exists d, progress H (n - 1) d (fst e) p1) log).
    { eapply Forall_impl; [exact Hlog |]. intros e [He [d Hd]]. split; [exact He |].
      exists (d + (n - 1)). exact (progress_trans H (n - 1) d (n - 1) _ _ _ ltac:(lia) Hd Hpg). }
    split.
    + apply Forall_app. split.
      * eapply Forall_impl; [exact Hpre |]. intros e [He [d Hd]]. split; [exact He |].
        exists d. exact (progress_bumped H HH d _ p1 Hok1 Hd).
      * constructor; [| constructor]. cbn [fst]. split; [| exists 0; apply progress_refl].
        assert (EQ : Q (bumped H p1 (Q p1 (n - 1))) (n - 1) = Q p1 (n - 1) + 1).
        { rewrite (key_bumped H HH), Z.eqb_refl by (apply Hok1 || lia). reflexivity. }
        split; [exact Hb |]. cbn [fst snd]. rewrite EQ. split; [lia |]. exists C, (cbuf_data m). split; [exact HC |].
        rewrite Hs', Z.add_simpl_r.
        pose proof (hss_signature_size H HH p1 Hok1 (Q p1 (n - 1)) C (cbuf_data m) HC) as Hsz.
        rewrite <- Hsz at 1. rewrite slice_app_l, slice_all by (lia || apply len_nonneg).
        unfold hss_signature. rewrite certs_bytes_bumped. reflexivity.
    + apply ord_pairs_snoc; [exact Hord |]. eapply Forall_impl; [exact Hpre |].
      intros e [(Ha & _) [d Hd]]. cbn [fst]. exact (progress_later d _ p1 Ha Hok1 Hd Hq).
  - destruct (hss_sign_keeps m privp sptr wptr slen s e s' E) as [-> _]. exact IH.
Qed.

Lemma history_failures p0 log failed p :
  hss_ok H (n - 1) p0 -> hss_history p0 log failed p -> ~ F -> Forall nothing_released failed.
Proof.
  intros H0 Hh' HnF.
  induction Hh' as [| log failed m privp sptr slen wptr s s' _ IH _ _ _ _
    | log failed m privp sptr slen wptr s s' e Hh' IH E].
  - constructor.
  - exact IH.
  - apply Forall_app. split; [exact IH |]. constructor; [| constructor]. intros Hi Hm Hl.
    exact (hss_sign_failure m privp sptr wptr slen s s' e HnF (proj1 (history_inv _ _ _ _ H0 Hh')) Hi Hm Hl E).
Qed.
End History.

(** C10: no one-time key of a hierarchy signs twice, as long as nothing behind [hss_sign]
    fails; of the calls that succeed this holds even then.  Over any history of a key that
    satisfies the invariant, of successful and failed calls, every signature the successful
    calls of [hss_sign] returned is one of the logged keys', and for any two of them, the
    earlier first: the last level moved to a later index or generation, and at every level
    above, either both carry the same certificate or the later one's one-time key is a later
    one.  And the failed calls add nothing to these signatures as long as none of what [F]
    stands for fails (the heap, or a backend that may fail): each has left the signature
    buffer as it was.  With a backend that fails a call may return an error behind a
    signature it has already written ([LmsTheorems.failed_path_releases_signature]); of such
    calls nothing is said. *)
Theorem hss_no_reuse `{P : Platform} `{Hh : HashApi} (F : Prop) (B : backends) (H : hparams)
    (p0 p : hss_private_key_t) (log : list (hss_private_key_t * bytes)) (failed : list failed_call) :
  (forall I_ seed, backends_sound F I_ seed B) -> hparams_ok H ->
  (malloc_may_fail sizeof_hss_private_key -> F) ->
  hss_ok H (H_levels H - 1) p0 -> hss_history F B H p0 log failed p ->
  hss_ok H (H_levels H - 1) p /\ Forall (log_entry H) log /\
  ForallOrdPairs (fun a b => later_slots H (fst a) (fst b)) log /\
  (~ F -> Forall (nothing_released F B) failed).
Proof.
  intros HB HH Hheap H0 Hhist.
  destruct (history_inv F B HB H HH Hheap p0 log failed p H0 Hhist) as (Hok & Hlog & Hord).
  split; [exact Hok |]. split; [| split; [exact Hord | exact (history_failures F B HB H HH Hheap p0 log failed p H0 Hhist)]].
  eapply Forall_impl; [exact Hlog |]. intros e [He _]. exact He.
Qed.

(** A call with a buffer one byte too small, and then a signature. *)
Lemma demo_history :
  exists s log failed p, hss_ok (Hh := toy_all) demo_H 1 (hpriv s) /\ length log = 1%nat /\ length failed = 1%nat /\
    hss_history (P := test_platform) (Hh := toy_all) False no_backends demo_H (hpriv s) log failed p.
Proof.
  destruct demo_init as (s & Hok & Hi & _ & Hg & Hq). exists s.
  destruct (hss_sign_too_small (P := test_platform) (Hh := toy_all) no_backends demo_H demo_hparams_ok demo_msg 1 1 1 17427
    (demo_hsmem s) Hok Hi ltac:(discriminate) ltac:(discriminate) eq_refl ltac:(vm_compute; reflexivity)) as (w' & E0 & Hi').
  pose proof (hist_failed (P := test_platform) (Hh := toy_all) False no_backends demo_H (hpriv s) [] [] demo_msg 1 1 17427 1
    (demo_hsmem s) _ _ (hist_start _ _ _ _) E0) as H0.
  set (s1 := (demo_hsmem s) {{ hs_wld := w' }}) in *.
  pose proof (hss_sign_run (P := test_platform) (Hh := toy_all) False no_backends demo_sound demo_H
    demo_hparams_ok demo_heap demo_msg demo_msg_ok (hpriv s) 1 1 18000 1 s1 Hok
    ltac:(discriminate) ltac:(discriminate) ltac:(vm_compute; discriminate) ltac:(vm_compute; discriminate)
    Hi' eq_refl) as H.
  unfold hrun in H. destruct (hss_sign 1 demo_msg 1 18000 1 s1) as [[[] | e] s'] eqn:E.
  2: { exfalso. destruct H as [[[] | [H _]] _]. exact (demo_not_spent (hpriv s) Hg Hq (or_intror H)). }
  eexists _, _, _. split; [exact Hok |]. split; [| split; [| exact (hist_signed (P := test_platform) (Hh := toy_all) False no_backends
    demo_H (hpriv s) [] _ demo_msg 1 1 18000 1 s1 s' H0 Hi' demo_msg_ok ltac:(vm_compute; discriminate) E)]]; reflexivity.
Qed.

Lemma hss_no_reuse_witness :
  exists s log failed p,
    hss_history (P := test_platform) (Hh := toy_all) False no_backends demo_H (hpriv s) log failed p /\
    length log = 1%nat /\ length failed = 1%nat /\ Forall (log_entry (Hh := toy_all) demo_H) log /\
    Forall (nothing_released (P := test_platform) False no_backends) failed.
Proof.
  destruct demo_history as (s & log & failed & p & Hok & Hl & Hf & Hh). exists s, log, failed, p.
  split; [exact Hh |]. split; [exact Hl |]. split; [exact Hf |].
  destruct (hss_no_reuse (P := test_platform) (Hh := toy_all) False no_backends demo_H (hpriv s) p log failed demo_sound
    demo_hparams_ok demo_heap Hok Hh) as (_ & H1 & _ & H2).
  split; [exact H1 | apply H2; intros []].
Defined.
