(* ===== verification/Subtree.v ===== *)
(** The cached tree (src/lms_subtree.c, src/lms_subtree.h): an authentication-path
    backend that splits the Merkle tree into layers of subtrees, keeps one subtree per
    layer, and rebuilds it when the index leaves it.

    The context and the buffers it owns live in the memory [tmem]; a subtree is
    addressed by its place in the context ([sub_ref]), so that what a failed call leaves
    behind is part of the model.  The allocator is the caller's; the trace records the
    calls to it. *)

From S2P Require Import Prelude Types HashApi Params LmOts Tree.

Definition LMS_SUBTREE_MIN_J : Z := 2.

Inductive lms_tree_fit_t := LMS_TREE_FIT_NONE | LMS_TREE_FIT_OVERBUDGET | LMS_TREE_FIT_WITHIN_BUDGET.

Record lms_tree_config_t := mkConfig {
  cfg_lms_type : Z;
  cfg_height : Z;
  cfg_n : Z;
  cfg_subtree_size : Z;
  cfg_sublevels : Z;
  cfg_est_memory : Z;
  cfg_fit : lms_tree_fit_t
}.

(** * The configurator *)

Definition subtree_nodes_bytes (sub_h n : Z) : Z := u64 (u64 (2 .<< sub_h) * n).

Definition lms_tree_updates_generated (height subtree : Z) : Z :=
  if subtree =? 0 then 0
  else if height <=? subtree then u64 (1 .<< height)
  else
    let num_sublevels := u32 (height + subtree - 1) / subtree in
    u64 (1 .<< u32 ((num_sublevels - 1) * subtree)).

Definition lms_tree_updates_required (height subtree : Z) : Z :=
  if subtree =? 0 then 0
  else
    let num_sublevels := u32 (height + subtree - 1) / subtree in
    u64 (num_sublevels + 1).

(** Returns the estimate and [*sublevels_out]. *)
Definition lms_tree_estimate_memory (height subtree_size n : Z) : Z * Z :=
  if (subtree_size =? 0) || (n =? 0) then (0, 0)
  else
    let sublevels := u32 (height + subtree_size - 1) / subtree_size in
    let sublevels := if sublevels =? 0 then 1 else sublevels in
    let top_subtree_size := u32 (height - u32 ((sublevels - 1) * subtree_size)) in
    let memory_used := for_z (Z.to_nat sublevels) 0 (fun s memory_used =>
      let sub_h := if u32 (s + 1) <? sublevels then subtree_size else top_subtree_size in
      let nodes_bytes := subtree_nodes_bytes sub_h n in
      let stack_bytes := u64 (sub_h * n) in
      let memory_used := u64 (memory_used + (nodes_bytes + stack_bytes)) in
      if u32 (s + 1) <? sublevels then u64 (memory_used + (nodes_bytes + stack_bytes))
      else memory_used) 0 in
    (memory_used, sublevels).

(** The local variables of the scan. *)
Record search := mkSearch {
  found_overbudget : bool;
  found_within : bool;
  best_mem : Z;
  best_levels : Z;
  best_j : Z
}.

(** The body of the scan over [j]. *)
Definition configure_step (height n memory_target j : Z) (st : search) : search :=
  let '(mem, sub_levels) := lms_tree_estimate_memory height j n in
  if memory_target <? mem then
    if (found_overbudget st || found_within st) && (best_mem st <? mem) then st
    else mkSearch true (found_within st) mem sub_levels j
  else if found_within st && (best_levels st <? sub_levels) then st
  else if found_within st && ((sub_levels =? best_levels st) && (best_mem st <? mem)) then st
  else mkSearch (found_overbudget st) true mem sub_levels j.

Section Configure.
Context `{P : Platform}.

Definition lms_tree_configure (lms_type memory_target : Z) (config : ptr) : C lms_tree_config_t :=
  guard_err (config =? NULL) LMS_ERR_INVALID ;;
  param ← or_return LMS_ERR_INVALID (lms_get_lms_param lms_type);
  let height := lms_p_height param in
  let n := lms_p_n param in
  guard_err ((height =? 0) || (n =? 0) || (LMS_MAX_HEIGHT <? height)) LMS_ERR_INVALID ;;
  let st := for_z (Z.to_nat (height - 1)) LMS_SUBTREE_MIN_J (configure_step height n memory_target)
              (mkSearch false false 0 0 0) in
  guard_err (negb (found_overbudget st) && negb (found_within st)) LMS_ERR_INVALID ;;
  mret (mkConfig lms_type height n (best_j st) (best_levels st) (best_mem st)
          (if found_within st then LMS_TREE_FIT_WITHIN_BUDGET else LMS_TREE_FIT_OVERBUDGET)).
End Configure.

(** * The context *)

(** [(size_t)x] *)
Definition to_size `{Platform} (x : Z) : Z := x mod (SIZE_MAX + 1).

(** A buffer the context owns: its address, [NULL] when there is none, and contents. *)
Record buffer := mkBuffer { b_ptr : ptr; b_data : bytes }.

Definition no_buffer : buffer := mkBuffer NULL [].

Record lms_subtree_t := mkSubtree {
  st_height : Z;
  st_level : Z;
  st_levels_below : Z;
  st_tree_height : Z;
  left_leaf : Z;
  current_index : Z;
  st_nodes : buffer;
  st_stack : buffer
}.

Record lms_sublevel_t := mkSublevel {
  active : lms_subtree_t;
  upcoming : lms_subtree_t;
  has_upcoming : bool
}.

(** What [memset] to zero leaves. *)
Definition zero_subtree : lms_subtree_t := mkSubtree 0 0 0 0 0 0 no_buffer no_buffer.
Definition zero_sublevel : lms_sublevel_t := mkSublevel zero_subtree zero_subtree false.

Section Context_.
Context `{P : Platform}.

(** context, size; the address *)
Definition lms_tree_alloc_fn : Type := ptr -> Z -> dev -> ptr * dev.
Definition lms_tree_free_fn : Type := ptr -> ptr -> dev -> dev.

(** The sources of leaves run with the library's own state: the default one calls the
    library. *)
Definition lms_subtree_ots_pub_fn : Type := ptr -> lms_private_key_t -> Z -> C bytes.
Definition lms_subtree_leaf_fn : Type := ptr -> lms_private_key_t -> Z -> C bytes.

Record lms_tree_ctx_t := mkTree {
  tc_lms_type : Z;
  tc_height : Z;
  tc_n : Z;
  tc_subtree_size : Z;
  tc_sublevels : Z;
  tc_top_subtree_size : Z;
  tc_hash_alg : lms_hash_alg_t;
  tc_I : bytes;
  tc_levels : ptr;                        (* the address of [levels] *)
  tc_level : list lms_sublevel_t;         (* its contents *)
  tc_ots_pub : option lms_subtree_ots_pub_fn;
  tc_ots_pub_ctx : ptr;
  tc_leaf_fn : option lms_subtree_leaf_fn;
  tc_leaf_fn_ctx : ptr;
  tc_alloc : option lms_tree_alloc_fn;
  tc_free : option lms_tree_free_fn;
  tc_alloc_ctx : ptr
}.

(** A call to the allocator and its result, and a call to free. *)
Inductive heap_event := Alloc (size : Z) (p : ptr) | Free (p : ptr).

Record tmem := mkTmem { t_world : world; t_ctx : lms_tree_ctx_t; t_trace : list heap_event }.

Definition TM (A : Type) : Type := M tmem lms_status_t A.

Definition t_on_world {A} (m : C A) : TM A :=
  fun s => let '(r, w) := m (t_world s) in (r, s {{ t_world := w }}).

Definition get_ctx : TM lms_tree_ctx_t := fun s => (Ok (t_ctx s), s).
Definition update_ctx (f : lms_tree_ctx_t -> lms_tree_ctx_t) : TM unit :=
  modify (fun s => s {{ t_ctx := f (t_ctx s) }}).

Definition t_alloc (alloc : lms_tree_alloc_fn) (context : ptr) (size : Z) : TM ptr :=
  fun s =>
    let '(p, d) := alloc context size (device (t_world s)) in
    (Ok p, s {{ t_world := (t_world s) {{ device := d }}; t_trace := t_trace s ++ [Alloc size p] }}).

Definition t_free (free : lms_tree_free_fn) (context : ptr) (p : ptr) : TM unit :=
  modify (fun s => s {{ t_world := (t_world s) {{ device := free context p (device (t_world s)) }};
                        t_trace := t_trace s ++ [Free p] }}).

(** A [lms_subtree_t *]: null, or a place in the context's levels. *)
Inductive sub_ref := SubNull | SubActive (s : Z) | SubUpcoming (s : Z).

Definition level_of (ctx : lms_tree_ctx_t) (s : Z) : lms_sublevel_t :=
  nth (Z.to_nat s) (tc_level ctx) zero_sublevel.

Definition sub_of (ctx : lms_tree_ctx_t) (r : sub_ref) : lms_subtree_t :=
  match r with
  | SubNull => zero_subtree
  | SubActive s => active (level_of ctx s)
  | SubUpcoming s => upcoming (level_of ctx s)
  end.

Definition put_sub (r : sub_ref) (sub : lms_subtree_t) (ctx : lms_tree_ctx_t) : lms_tree_ctx_t :=
  match r with
  | SubNull => ctx
  | SubActive s => ctx {{ tc_level := upd s ((level_of ctx s) {{ active := sub }}) (tc_level ctx) }}
  | SubUpcoming s => ctx {{ tc_level := upd s ((level_of ctx s) {{ upcoming := sub }}) (tc_level ctx) }}
  end.

Definition get_sub (r : sub_ref) : TM lms_subtree_t := fun s => (Ok (sub_of (t_ctx s) r), s).
Definition update_sub (r : sub_ref) (f : lms_subtree_t -> lms_subtree_t) : TM unit :=
  update_ctx (fun ctx => put_sub r (f (sub_of ctx r)) ctx).

(** ** Lifecycle *)

Definition buffer_null (b : buffer) : bool := b_ptr b =? NULL.

(** [if (buf != NULL) { free_fn(alloc_ctx, buf); buf = NULL; }] *)
Definition free_buffer (free_fn : lms_tree_free_fn) (alloc_ctx : ptr) (b : buffer) : TM unit :=
  if negb (buffer_null b) then t_free free_fn alloc_ctx (b_ptr b) else mret tt.

Definition subtree_free_buffers (r : sub_ref) (free_fn : option lms_tree_free_fn) (alloc_ctx : ptr) : TM unit :=
  match r, free_fn with
  | SubNull, _ => mret tt
  | _, None => mret tt
  | _, Some free_fn =>
      sub ← get_sub r;
      free_buffer free_fn alloc_ctx (st_nodes sub) ;;
      update_sub r (fun sub => sub {{ st_nodes := no_buffer }}) ;;
      free_buffer free_fn alloc_ctx (st_stack sub) ;;
      update_sub r (fun sub => sub {{ st_stack := no_buffer }})
  end.

Definition subtree_init_buffers (r : sub_ref) (sub_h level levels_below tree_height left n : Z)
    (want_stack : bool) (alloc : lms_tree_alloc_fn) (free_fn : lms_tree_free_fn) (alloc_ctx : ptr) : TM unit :=
  update_sub r (fun _ => zero_subtree {{ st_height := sub_h; st_level := level;
    st_levels_below := levels_below; st_tree_height := tree_height; left_leaf := left;
    current_index := 0 }}) ;;
  let nodes_bytes := to_size (subtree_nodes_bytes sub_h n) in
  p ← t_alloc alloc alloc_ctx nodes_bytes;
  guard_err (p =? NULL) LMS_ERR_INVALID ;;
  update_sub r (fun sub => sub {{ st_nodes := mkBuffer p (fill 0 nodes_bytes) }}) ;;
  if want_stack && (0 <? sub_h) then
    p ← t_alloc alloc alloc_ctx (to_size (sub_h * n));
    if p =? NULL then
      subtree_free_buffers r (Some free_fn) alloc_ctx ;;
      fail LMS_ERR_INVALID
    else update_sub r (fun sub => sub {{ st_stack := mkBuffer p (fill 0 (to_size (sub_h * n))) }})
  else update_sub r (fun sub => sub {{ st_stack := no_buffer }}).

(** [ctx] is only compared with [NULL]: what it points to is the memory. *)
Definition lms_tree_ctx_free (ctx : ptr) : TM unit :=
  if ctx =? NULL then mret tt
  else
    c ← get_ctx;
    match tc_free c with
    | Some free_fn =>
        if negb (tc_levels c =? NULL) then
          loopM (Z.to_nat (tc_sublevels c)) 0 (fun s _ =>
            subtree_free_buffers (SubActive s) (tc_free c) (tc_alloc_ctx c) ;;
            if has_upcoming (level_of c s) then
              subtree_free_buffers (SubUpcoming s) (tc_free c) (tc_alloc_ctx c)
            else mret tt) tt ;;
          t_free free_fn (tc_alloc_ctx c) (tc_levels c) ;;
          update_ctx (fun c => c {{ tc_levels := NULL }})
        else mret tt
    | None => mret tt
    end ;;
    update_ctx (fun c => c {{ tc_sublevels := 0 }}).

(** [if (f(...) != LMS_OK) { lms_tree_ctx_free(ctx); return LMS_ERR_INVALID; }] *)
Definition or_free_ctx (ctx : ptr) (m : TM unit) : TM unit :=
  r ← attempt m;
  match r with
  | Ok _ => mret tt
  | Err _ => lms_tree_ctx_free ctx ;; fail LMS_ERR_INVALID
  end.

(** The body of the loop over the sublevels. *)
Definition init_sublevel (ctx : ptr) (height sublevels j top n : Z) (alloc : lms_tree_alloc_fn)
    (free_fn : lms_tree_free_fn) (alloc_ctx : ptr) (s : Z) : TM unit :=
  let sub_h := if u32 (s + 1) <? sublevels then j else top in
  let root_level := u32 (s * j + sub_h) in
  let levels_below := u32 (s * j) in
  let more := u32 (s + 1) <? sublevels in
  or_free_ctx ctx (subtree_init_buffers (SubActive s) sub_h root_level levels_below height 0 n true
                     alloc free_fn alloc_ctx) ;;
  update_ctx (fun c => c {{ tc_level := upd s ((level_of c s) {{ has_upcoming := more }}) (tc_level c) }}) ;;
  if more then
    or_free_ctx ctx (subtree_init_buffers (SubUpcoming s) sub_h root_level levels_below height
                       (u64 (1 .<< sub_h)) n true alloc free_fn alloc_ctx)
  else mret tt.

Definition lms_tree_ctx_init (ctx : ptr) (config : option lms_tree_config_t) (I_ : option bytes)
    (ots_pub : option lms_subtree_ots_pub_fn) (ots_pub_ctx : ptr)
    (alloc : option lms_tree_alloc_fn) (free_fn : option lms_tree_free_fn) (alloc_ctx : ptr) : TM unit :=
  match config, I_, alloc, free_fn with
  | Some config, Some I_, Some alloc, Some free_fn =>
      guard_err (ctx =? NULL) LMS_ERR_INVALID ;;
      let sublevels := cfg_sublevels config in
      let j := cfg_subtree_size config in
      let n := cfg_n config in
      guard_err ((sublevels =? 0) || (j <? LMS_SUBTREE_MIN_J) || (n =? 0)
                 || (cfg_height config =? 0) || (LMS_MAX_HEIGHT <? cfg_height config)) LMS_ERR_INVALID ;;
      let top := u32 (cfg_height config - u32 ((sublevels - 1) * j)) in
      param ← t_on_world (or_return LMS_ERR_INVALID (lms_get_lms_param (cfg_lms_type config)));
      update_ctx (fun _ => mkTree (cfg_lms_type config) (cfg_height config) n j sublevels top
        (lms_p_hash_alg param) I_ NULL [] ots_pub ots_pub_ctx None NULL (Some alloc) (Some free_fn) alloc_ctx) ;;
      p ← t_alloc alloc alloc_ctx (to_size (sublevels * sizeof_lms_sublevel));
      guard_err (p =? NULL) LMS_ERR_INVALID ;;
      update_ctx (fun c => c {{ tc_levels := p;
                                tc_level := replicate (Z.to_nat sublevels) zero_sublevel }}) ;;
      loopM (Z.to_nat sublevels) 0 (fun s _ =>
        init_sublevel ctx (cfg_height config) sublevels j top n alloc free_fn alloc_ctx s) tt
  | _, _, _, _ => fail LMS_ERR_INVALID
  end.

Definition lms_tree_ctx_allocated_bytes (ctx : option lms_tree_ctx_t) : Z :=
  match ctx with
  | None => 0
  | Some ctx =>
      if tc_levels ctx =? NULL then 0
      else
        for_z (Z.to_nat (tc_sublevels ctx)) 0 (fun s total =>
          let sl := level_of ctx s in
          let sub_h := st_height (active sl) in
          let nodes_bytes := subtree_nodes_bytes sub_h (tc_n ctx) in
          let stack_bytes := if negb (buffer_null (st_stack (active sl))) then u64 (sub_h * tc_n ctx) else 0 in
          let total := u64 (total + (nodes_bytes + stack_bytes)) in
          if has_upcoming sl then
            u64 (total + (nodes_bytes
              + (if negb (buffer_null (st_stack (upcoming sl))) then u64 (sub_h * tc_n ctx) else 0)))
          else total) (u64 (tc_sublevels ctx * sizeof_lms_sublevel))
  end.

Definition lms_subtree_set_leaf_fn (ctx : ptr) (fn : option lms_subtree_leaf_fn) (fn_ctx : ptr) : TM unit :=
  if ctx =? NULL then mret tt
  else update_ctx (fun c => c {{ tc_leaf_fn := fn; tc_leaf_fn_ctx := fn_ctx }}).
End Context_.

(** * Building *)

Section Build.
Context `{P : Platform} `{Hh : HashApi}.

Definition default_ots_pub : lms_subtree_ots_pub_fn := fun _ priv q => lmots_public_from_private priv q.

(** [while ((1u << (d + 1u)) <= local) d++;] *)
Fixpoint depth_loop (fuel : nat) (local d : Z) : Z :=
  match fuel with
  | O => d
  | S fuel' => if u32 (1 .<< (d + 1)) <=? local then depth_loop fuel' local (d + 1) else d
  end.

Definition subtree_local_to_global (h sub_h root_level left local : Z) : Z :=
  let k0 := left .>> sub_h in
  let d := depth_loop 32 local 0 in
  let k := u32 (local - u32 (1 .<< d)) in
  let r := u32 (root_level - d) in
  u32 (u32 (1 .<< u32 (h - r)) + u32 (u32 (u64 (k0 .<< d)) + k)).

(** [sub->nodes + off * n], [n] bytes, and [memcpy] to it. *)
Definition node_at (sub : lms_subtree_t) (local n : Z) : bytes := slice (local * n) n (b_data (st_nodes sub)).
Definition set_node (local n : Z) (v : bytes) (sub : lms_subtree_t) : lms_subtree_t :=
  sub {{ st_nodes := (st_nodes sub) {{ b_data := splice (local * n) v (b_data (st_nodes sub)) }} }}.
Definition set_stack (i n : Z) (v : bytes) (sub : lms_subtree_t) : lms_subtree_t :=
  sub {{ st_stack := (st_stack sub) {{ b_data := splice (i * n) v (b_data (st_stack sub)) }} }}.

(** [for (local = 2^height - 1; local >= 1; local--)] *)
Fixpoint subtree_build_internal (count : nat) (r : sub_ref) : TM unit :=
  match count with
  | O => mret tt
  | S count' =>
      let local := Z.of_nat count in
      ctx ← get_ctx;
      sub ← get_sub r;
      let node_num := subtree_local_to_global (tc_height ctx) (st_height sub) (st_level sub)
                        (left_leaf sub) local in
      node ← t_on_world (or_return LMS_ERR_INVALID (lms_internal_node (tc_I ctx) (tc_hash_alg ctx) node_num
                (node_at sub (local * 2) (tc_n ctx)) (node_at sub (local * 2 + 1) (tc_n ctx))));
      update_sub r (set_node local (tc_n ctx) node) ;;
      subtree_build_internal count' r
  end.

Definition leaf_prefix (I_ : bytes) (node_num : Z) : bytes :=
  I_ ++ lms_store_u32 node_num ++ lms_store_u16 D_LEAF.

Definition ctx_ots_pub (ctx : lms_tree_ctx_t) : lms_subtree_ots_pub_fn :=
  match tc_ots_pub ctx with Some f => f | None => default_ots_pub end.

(** [ctx == NULL || priv == NULL || ctx->levels == NULL], then the types. *)
Definition check_tree_call (ctx : ptr) (priv : option lms_private_key_t) : TM (lms_tree_ctx_t * lms_private_key_t) :=
  c ← get_ctx;
  match priv with
  | None => fail LMS_ERR_INVALID
  | Some priv =>
      guard_err ((ctx =? NULL) || (tc_levels c =? NULL)) LMS_ERR_INVALID ;;
      guard_err (negb (priv_lms_type priv =? tc_lms_type c)) LMS_ERR_INVALID ;;
      mret (c, priv)
  end.

Definition lms_tree_build_active (ctx : ptr) (priv : option lms_private_key_t) : TM unit :=
  '(c, priv) ← check_tree_call ctx priv;
  guard_err (negb (tc_sublevels c =? 1)) LMS_ERR_INVALID ;;
  loopM (Z.to_nat (tc_sublevels c)) 0 (fun s _ =>
    sub ← get_sub (SubActive s);
    let sub_h := st_height sub in
    loopM (Z.to_nat (u32 (1 .<< sub_h))) 0 (fun i _ =>
      let local := u32 (u32 (1 .<< sub_h) + i) in
      let node_num := subtree_local_to_global (tc_height c) sub_h (st_level sub) (left_leaf sub) local in
      let q := u32 (left_leaf sub + i) in
      ots_pub ← t_on_world (or_return LMS_ERR_INVALID (ctx_ots_pub c (tc_ots_pub_ctx c) priv q));
      leaf ← t_on_world (or_return LMS_ERR_INVALID
               (lms_hash_parts (leaf_prefix (tc_I c) node_num) ots_pub [] [] (tc_hash_alg c)));
      update_sub (SubActive s) (set_node local (tc_n c) leaf)) tt ;;
    or_return LMS_ERR_INVALID
      (subtree_build_internal (Z.to_nat (u32 (1 .<< sub_h) - 1)) (SubActive s))) tt.

(** [root] and [path] are only compared with [NULL]; the result is what is written. *)
Definition lms_tree_root (ctx : option lms_tree_ctx_t) (root : ptr) : result lms_status_t bytes :=
  match ctx with
  | None => Err LMS_ERR_INVALID
  | Some ctx =>
      if (root =? NULL) || (tc_levels ctx =? NULL) || (tc_sublevels ctx =? 0) then Err LMS_ERR_INVALID
      else Ok (node_at (sub_of ctx (SubActive (tc_sublevels ctx - 1))) 1 (tc_n ctx))
  end.

(** The [sub_h] siblings of one layer. *)
Fixpoint path_layer (sub_h : nat) (sub : lms_subtree_t) (n local : Z) : bytes :=
  match sub_h with
  | O => []
  | S k => node_at sub (local ^^ 1) n ++ path_layer k sub n (local / 2)
  end.

Fixpoint path_layers (count : nat) (s : Z) (ctx : lms_tree_ctx_t) (leaf_pos : Z) : bytes :=
  match count with
  | O => []
  | S count' =>
      let sub := sub_of ctx (SubActive s) in
      let sub_h := st_height sub in
      let local := u32 (u32 (1 .<< sub_h) + u32 (leaf_pos .& (u32 (1 .<< sub_h) - 1))) in
      path_layer (Z.to_nat sub_h) sub (tc_n ctx) local ++ path_layers count' (s + 1) ctx (leaf_pos .>> sub_h)
  end.

Definition lms_tree_auth_path (ctx : option lms_tree_ctx_t) (q : Z) (path : ptr) : result lms_status_t bytes :=
  match ctx with
  | None => Err LMS_ERR_INVALID
  | Some ctx =>
      if (path =? NULL) || (tc_levels ctx =? NULL) || (tc_sublevels ctx =? 0) then Err LMS_ERR_INVALID
      else if u64 (1 .<< tc_height ctx) <=? q then Err LMS_ERR_INVALID
      else Ok (path_layers (Z.to_nat (tc_sublevels ctx)) 0 ctx q)
  end.

(** ** Incremental building *)

(** The merge loop [for (;;)] of [lms_tree_add_next_node]: at height [i], [cur] is node
    number [leaf_seq].  Every turn raises [i] and halves [leaf_seq], so the subtree's
    height bounds the turns. *)
Fixpoint merge_loop (fuel : nat) (r : sub_ref) (I_ : bytes) (hash_alg : lms_hash_alg_t) (n sub_h : Z)
    (i leaf_seq : Z) (cur : bytes) : TM unit :=
  match fuel with
  | O => fail OUT_OF_FUEL
  | S fuel' =>
      let cur_local := u32 (u32 (1 .<< (sub_h - i)) + leaf_seq) in
      if cur_local =? 1 then mret tt
      else if (leaf_seq .& 1) =? 0 then update_sub r (set_stack i n cur)
      else
        sub ← get_sub r;
        let leaf_seq := leaf_seq .>> 1 in
        let parent_local := cur_local .>> 1 in
        let node_num := subtree_local_to_global (st_tree_height sub) sub_h (st_level sub)
                          (left_leaf sub) parent_local in
        node ← t_on_world (or_return LMS_ERR_INVALID
                 (lms_internal_node I_ hash_alg node_num (slice (i * n) n (b_data (st_stack sub))) cur));
        update_sub r (set_node parent_local n node) ;;
        merge_loop fuel' r I_ hash_alg n sub_h (i + 1) leaf_seq node
  end.

(** [lms_tree_add_next_node] after the null checks; returns whether the subtree is
    complete (1 or 0 of the code). *)
Definition add_next_node (r : sub_ref) (leaf_value I_ : bytes) (hash_alg : lms_hash_alg_t) (n : Z) : TM bool :=
  guard_err ((n =? 0) || (LMS_N <? n)) LMS_ERR_INVALID ;;
  sub ← get_sub r;
  let sub_h := st_height sub in
  guard_err ((sub_h =? 0) || (LMS_MAX_HEIGHT <? sub_h)) LMS_ERR_INVALID ;;
  let ci := current_index sub in
  guard_err (u64 (1 .<< sub_h) <=? ci) LMS_ERR_INVALID ;;
  guard_err (buffer_null (st_nodes sub) || buffer_null (st_stack sub)) LMS_ERR_INVALID ;;
  let local := u32 (u32 (1 .<< sub_h) + ci) in
  update_sub r (set_node local n leaf_value) ;;
  merge_loop (S (Z.to_nat sub_h)) r I_ hash_alg n sub_h 0 ci leaf_value ;;
  update_sub r (fun sub => sub {{ current_index := u64 (ci + 1) }}) ;;
  mret (u64 (1 .<< sub_h) <=? u64 (ci + 1)).

Definition lms_tree_add_next_node (r : sub_ref) (leaf_value I_ : option bytes) (hash_alg : lms_hash_alg_t)
    (n : Z) : TM bool :=
  match r, leaf_value, I_ with
  | SubNull, _, _ | _, None, _ | _, _, None => fail LMS_ERR_INVALID
  | _, Some leaf_value, Some I_ => add_next_node r leaf_value I_ hash_alg n
  end.

Definition subtree_compute_leaf (c : lms_tree_ctx_t) (priv : lms_private_key_t)
    (ots_pub : lms_subtree_ots_pub_fn) (q : Z) : C bytes :=
  let node_num := u32 (u32 (1 .<< tc_height c) + q) in
  match tc_leaf_fn c with
  | Some leaf_fn => leaf_fn (tc_leaf_fn_ctx c) priv q
  | None =>
      ots_pub_buf ← or_return LMS_ERR_INVALID (ots_pub (tc_ots_pub_ctx c) priv q);
      lms_hash_parts (leaf_prefix (tc_I c) node_num) ots_pub_buf [] [] (tc_hash_alg c)
  end.

Definition subtree_push_leaf (priv : lms_private_key_t) (ots_pub : lms_subtree_ots_pub_fn) (r : sub_ref)
    (q : Z) : TM bool :=
  c ← get_ctx;
  leaf ← t_on_world (or_return LMS_ERR_INVALID (subtree_compute_leaf c priv ots_pub q));
  lms_tree_add_next_node r (Some leaf) (Some (tc_I c)) (tc_hash_alg c) (tc_n c).

Definition subtree_reset_to (left : Z) (sub : lms_subtree_t) : lms_subtree_t :=
  sub {{ left_leaf := left; current_index := 0 }}.

Definition subtree_build_bottom (priv : lms_private_key_t) (ots_pub : lms_subtree_ots_pub_fn) (r : sub_ref)
    (left : Z) : TM unit :=
  sub ← get_sub r;
  update_sub r (subtree_reset_to left) ;;
  done ← loopM (Z.to_nat (u32 (1 .<< st_height sub))) 0 (fun i _ =>
    or_return LMS_ERR_INVALID (subtree_push_leaf priv ots_pub r (u32 (u64 (left + i))))) false;
  guard_err (negb done) LMS_ERR_INVALID.

Definition subtree_build_upper (r : sub_ref) (left : Z) (lower_roots : bytes) : TM unit :=
  c ← get_ctx;
  sub ← get_sub r;
  update_sub r (subtree_reset_to left) ;;
  done ← loopM (Z.to_nat (u32 (1 .<< st_height sub))) 0 (fun i _ =>
    or_return LMS_ERR_INVALID
      (lms_tree_add_next_node r (Some (slice (i * tc_n c) (tc_n c) lower_roots)) (Some (tc_I c))
         (tc_hash_alg c) (tc_n c))) false;
  guard_err (negb done) LMS_ERR_INVALID.

(** The staging buffer [my_roots] is a local of each call, its allocation and release
    are in the trace; its contents are the roots copied so far. *)
Fixpoint subtree_build_at (s : nat) (priv : lms_private_key_t) (ots_pub : lms_subtree_ots_pub_fn)
    (leaf_lo : Z) (scratch : sub_ref) : TM unit :=
  c ← get_ctx;
  let j := tc_subtree_size c in
  let s_ := Z.of_nat s in
  update_sub scratch (fun sub => sub {{ st_level := u32 (s_ * j + st_height sub);
                                        st_levels_below := u32 (s_ * j); st_tree_height := tc_height c }}) ;;
  match s with
  | O => subtree_build_bottom priv ots_pub scratch leaf_lo
  | S s' =>
      sub ← get_sub scratch;
      lower ← get_sub (SubUpcoming (Z.of_nat s'));
      let cnt := u32 (1 .<< st_height sub) in
      let lower_root_level := u32 (Z.of_nat s' * j + st_height lower) in
      let lower_span := u64 (1 .<< lower_root_level) in
      match tc_alloc c, tc_free c with
      | Some alloc, Some free_fn =>
          my_roots ← t_alloc alloc (tc_alloc_ctx c) (to_size (cnt * tc_n c));
          guard_err (my_roots =? NULL) LMS_ERR_INVALID ;;
          rc ← attempt (
            roots ← loopM (Z.to_nat cnt) 0 (fun k roots =>
              or_return LMS_ERR_INVALID
                (subtree_build_at s' priv ots_pub (u64 (leaf_lo + u64 (k * lower_span)))
                   (SubUpcoming (Z.of_nat s'))) ;;
              lower ← get_sub (SubUpcoming (Z.of_nat s'));
              mret (roots ++ node_at lower 1 (tc_n c))) [];
            subtree_build_upper scratch (leaf_lo .>> u32 (s_ * j)) roots);
          t_free free_fn (tc_alloc_ctx c) my_roots ;;
          match rc with Ok _ => mret tt | Err e => fail e end
      | _, _ => fail LMS_ERR_INVALID
      end
  end.

(** ** The root in one pass *)

(** The inner loop [for (s = 1; s < sublevels; s++)]: [leaf] is the root the layer below
    has just completed. *)
Fixpoint propagate (count : nat) (s : Z) (c : lms_tree_ctx_t) (leaf : bytes) : TM unit :=
  match count with
  | O => mret tt
  | S count' =>
      udone ← or_return LMS_ERR_INVALID
        (lms_tree_add_next_node (SubActive s) (Some leaf) (Some (tc_I c)) (tc_hash_alg c) (tc_n c));
      if udone : bool then
        up ← get_sub (SubActive s);
        update_sub (SubActive s)
          (fun up => subtree_reset_to (u64 (left_leaf up + u64 (1 .<< st_height up))) up) ;;
        propagate count' (s + 1) c (node_at up 1 (tc_n c))
      else mret tt                                             (* break *)
  end.

Definition lms_tree_keygen_root (ctx : ptr) (priv : option lms_private_key_t) (root : ptr) : TM bytes :=
  guard_err (root =? NULL) LMS_ERR_INVALID ;;
  '(c, priv) ← check_tree_call ctx priv;
  loopM (Z.to_nat (tc_sublevels c)) 0 (fun s _ =>
    update_sub (SubActive s) (subtree_reset_to 0) ;;
    update_sub (SubUpcoming s) (fun sub => sub {{ current_index := 0 }})) tt ;;
  loopM (Z.to_nat (u64 (1 .<< tc_height c))) 0 (fun q _ =>
    done ← or_return LMS_ERR_INVALID (subtree_push_leaf priv (ctx_ots_pub c) (SubActive 0) (u32 q));
    if done : bool then
      bot ← get_sub (SubActive 0);
      update_sub (SubActive 0)
        (fun bot => subtree_reset_to (u64 (left_leaf bot + u64 (1 .<< st_height bot))) bot) ;;
      propagate (Z.to_nat (tc_sublevels c - 1)) 1 c (node_at bot 1 (tc_n c))
    else mret tt) tt ;;
  top ← get_sub (SubActive (tc_sublevels c - 1));
  mret (node_at top 1 (tc_n c)).

(** ** The cache *)

Definition lms_tree_sign_init (ctx : ptr) (priv : option lms_private_key_t) : TM unit :=
  '(c, priv) ← check_tree_call ctx priv;
  loopM (Z.to_nat (tc_sublevels c)) 0 (fun s _ =>
    or_return LMS_ERR_INVALID (subtree_build_at (Z.to_nat s) priv (ctx_ots_pub c) 0 (SubActive s))) tt.

Definition lms_tree_sign_auth_path (ctx : option lms_tree_ctx_t) (q : Z) (path : ptr) : result lms_status_t bytes :=
  match ctx with
  | None => Err LMS_ERR_INVALID
  | Some c =>
      if (path =? NULL) || (tc_levels c =? NULL) then Err LMS_ERR_INVALID
      else lms_tree_auth_path ctx q path
  end.

Definition subtree_leaf_lo (sub : lms_subtree_t) : Z :=
  let k0 := left_leaf sub .>> st_height sub in
  u64 (k0 .<< st_level sub).

Definition subtree_leaf_span (sub : lms_subtree_t) : Z := u64 (1 .<< st_level sub).

(** The body of the loop over the layers. *)
Definition advance_layer (c : lms_tree_ctx_t) (priv : lms_private_key_t) (q s : Z) : TM unit :=
  sub ← get_sub (SubActive s);
  let lo := subtree_leaf_lo sub in
  let span := subtree_leaf_span sub in
  if u64 (q - lo) <? span then mret tt
  else
    let new_lo := u64 (q / span * span) in
    or_return LMS_ERR_INVALID (subtree_build_at (Z.to_nat s) priv (ctx_ots_pub c) new_lo (SubActive s)).

Definition lms_tree_sign_advance (ctx : ptr) (priv : option lms_private_key_t) (q : Z) : TM unit :=
  '(c, priv) ← check_tree_call ctx priv;
  guard_err (u64 (1 .<< tc_height c) <=? q) LMS_ERR_INVALID ;;
  loopM (Z.to_nat (tc_sublevels c - 1)) 0 (fun s _ => advance_layer c priv q s) tt.

(** [path] is only compared with [NULL]; returns what is written there. *)
Definition lms_subtree_auth_path_backend (context : ptr) (priv : option lms_private_key_t) (q : Z)
    (path : ptr) : TM bytes :=
  guard_err ((context =? NULL) || (path =? NULL)) LMS_ERR_INVALID ;;
  or_return LMS_ERR_INVALID (lms_tree_sign_advance context priv q) ;;
  c ← get_ctx;
  match lms_tree_sign_auth_path (Some c) q path with Ok b => mret b | Err e => fail e end.
End Build.
