(* ===== verification/SubtreeCorrect.v ===== *)
(** Incremental construction of one subtree (src/lms_subtree.c): the numbering of a
    subtree's nodes within the whole tree, and that adding leaves one at a time fills
    the node buffer with the tree's nodes. *)

From S2P Require Import Prelude Types HashApi Params Winternitz Spec LmOts LmOtsCorrect Tree Lms LmsCorrect Subtree.

(** * Powers of two and offsets *)

Lemma u32_shl1 k : 0 <= k < 32 -> u32 (1 .<< k) = 2 ^ k.
Proof.
  intros Hk. rewrite Z.shiftl_1_l. apply u32_small. split; [apply Z.pow_nonneg; lia |].
  apply Z.pow_lt_mono_r; lia.
Qed.

Lemma u64_shl1 k : 0 <= k < 64 -> u64 (1 .<< k) = 2 ^ k.
Proof.
  intros Hk. rewrite Z.shiftl_1_l. apply u64_small. split; [apply Z.pow_nonneg; lia |].
  apply Z.pow_lt_mono_r; lia.
Qed.

Lemma pow2_pos k : 0 <= k -> 1 <= 2 ^ k.
Proof. intros Hk. pose proof (Z.pow_pos_nonneg 2 k ltac:(lia) Hk). lia. Qed.

Lemma pow2_split a b : 0 <= b <= a -> 2 ^ a = 2 ^ (a - b) * 2 ^ b.
Proof. intros H. rewrite <- Z.pow_add_r by lia. f_equal. lia. Qed.

Lemma pow2_le25 k : 0 <= k <= 25 -> 1 <= 2 ^ k <= 2 ^ 25.
Proof. intros H. split; [apply pow2_pos; lia | apply Z.pow_le_mono_r; lia]. Qed.

(** [n] nodes of a buffer. *)
Lemma slice_splice_eq i n v b :
  0 <= i -> 0 <= n -> len v = n -> i * n + n <= len b -> slice (i * n) n (splice (i * n) v b) = v.
Proof.
  intros Hi Hn Hv Hb. unfold slice, splice, len in *.
  rewrite (take_ge v) by lia.
  rewrite drop_app_ge by (rewrite length_take; lia). rewrite length_take, Nat.min_l by lia.
  rewrite Nat.sub_diag, drop_0. apply take_app_len. lia.
Qed.

Lemma slice_splice_ne i k n v b :
  0 <= i -> 0 <= k -> 0 <= n -> len v = n -> i * n + n <= len b -> i <> k ->
  slice (k * n) n (splice (i * n) v b) = slice (k * n) n b.
Proof.
  intros Hi Hk Hn Hv Hb Hne. unfold slice, splice, len in *.
  rewrite (take_ge v) by lia.
  destruct (Z.lt_ge_cases k i) as [Hlt | Hge].
  - rewrite drop_app_le by (rewrite length_take; nia).
    rewrite take_app_le by (rewrite length_drop, length_take; nia).
    rewrite skipn_firstn_comm, take_take. f_equal. nia.
  - rewrite drop_app_ge by (rewrite length_take; nia).
    rewrite length_take, Nat.min_l by lia.
    rewrite drop_app_ge by nia. rewrite drop_drop. f_equal. f_equal. nia.
Qed.

(** * Node numbers *)

Lemma depth_loop_log2 fuel : forall local d,
  0 <= d <= Z.log2 local -> 0 < local < 2 ^ 31 -> Z.log2 local - d < Z.of_nat fuel ->
  depth_loop fuel local d = Z.log2 local.
Proof.
  induction fuel as [| fuel IH]; intros local d Hd Hl Hf; [lia |].
  assert (Hlog : Z.log2 local < 31) by (apply Z.log2_lt_pow2; lia).
  cbn [depth_loop]. rewrite u32_shl1 by lia. destruct (Z.leb_spec (2 ^ (d + 1)) local) as [Hle | Hgt].
  - apply IH; [| lia |]; apply Z.log2_le_pow2 in Hle; lia.
  - apply Z.log2_lt_pow2 in Hgt; lia.
Qed.

(** The [m]-th node at height [i] of a subtree of height [sh] has the local index
    [2^(sh-i) + m]. *)
Definition local_of (sh i m : Z) : Z := 2 ^ (sh - i) + m.

Lemma local_of_log2 sh i m : 0 <= i <= sh -> 0 <= m < 2 ^ (sh - i) -> Z.log2 (local_of sh i m) = sh - i.
Proof.
  intros Hi Hm. unfold local_of. apply Z.log2_unique; [lia |].
  rewrite Z.pow_succ_r by lia. lia.
Qed.

Lemma local_of_range sh i m : 0 <= i <= sh -> 0 <= m < 2 ^ (sh - i) -> 1 <= local_of sh i m < 2 ^ (sh + 1).
Proof.
  intros Hi Hm. unfold local_of. pose proof (pow2_pos (sh - i) ltac:(lia)).
  pose proof (Z.pow_le_mono_r 2 (sh - i + 1) (sh + 1) ltac:(lia) ltac:(lia)) as Hle.
  rewrite Z.pow_add_r, Z.pow_1_r in Hle by lia. lia.
Qed.

Lemma local_of_inj sh i m i' m' :
  0 <= i <= sh -> 0 <= m < 2 ^ (sh - i) -> 0 <= i' <= sh -> 0 <= m' < 2 ^ (sh - i') ->
  local_of sh i m = local_of sh i' m' -> i = i' /\ m = m'.
Proof.
  intros Hi Hm Hi' Hm' He.
  pose proof (local_of_log2 sh i m Hi Hm). pose proof (local_of_log2 sh i' m' Hi' Hm').
  rewrite He in *. assert (i = i') as -> by lia. unfold local_of in He. lia.
Qed.

(** [subtree_local_to_global]: the subtree number [g] at its root's level numbers its
    nodes by continuing the whole tree's numbering below its root. *)
Lemma local_to_global_spec h sh L g i m :
  0 <= L -> 0 <= i <= sh -> L + sh <= h <= 25 -> 0 <= g < 2 ^ (h - (L + sh)) -> 0 <= m < 2 ^ (sh - i) ->
  subtree_local_to_global h sh (L + sh) (g * 2 ^ sh) (local_of sh i m)
  = (2 ^ (h - (L + sh)) + g) * 2 ^ (sh - i) + m.
Proof.
  intros HL Hi Hh Hg Hm. pose proof (local_of_range sh i m Hi Hm) as Hr.
  pose proof (pow2_le25 (h - (L + sh)) ltac:(lia)). pose proof (pow2_le25 (sh - i) ltac:(lia)).
  assert (Hsum : 2 ^ (h - (L + i)) = 2 ^ (h - (L + sh)) * 2 ^ (sh - i)).
  { rewrite <- Z.pow_add_r by lia. f_equal. lia. }
  pose proof (pow2_le25 (h - (L + i)) ltac:(lia)).
  pose proof (Z.pow_le_mono_r 2 (sh + 1) 26 ltac:(lia) ltac:(lia)).
  pose proof (Z.mul_le_mono_nonneg 0 g 0 (2 ^ (sh - i))) as Hg0.
  assert (Hgm : 0 <= g * 2 ^ (sh - i) /\ g * 2 ^ (sh - i) + 2 ^ (sh - i) <= 2 ^ (h - (L + i))).
  { rewrite Hsum. split; [lia |].
    replace (g * 2 ^ (sh - i) + 2 ^ (sh - i)) with ((g + 1) * 2 ^ (sh - i)) by lia.
    apply Z.mul_le_mono_nonneg_r; lia. }
  unfold subtree_local_to_global.
  rewrite (depth_loop_log2 32 (local_of sh i m) 0) by (rewrite ?local_of_log2 by lia; lia).
  rewrite local_of_log2 by lia. rewrite (u32_shl1 (sh - i)) by lia. unfold local_of.
  replace (2 ^ (sh - i) + m - 2 ^ (sh - i)) with m by lia. rewrite (u32_small m) by lia.
  rewrite (u32_small (L + sh - (sh - i))) by lia. rewrite Z.shiftr_div_pow2, Z.div_mul by lia.
  replace (h - (L + sh - (sh - i))) with (h - (L + i)) by lia.
  rewrite (u32_small (h - (L + i))), u32_shl1 by lia.
  rewrite Z.shiftl_mul_pow2 by lia. rewrite u64_small by lia.
  rewrite (u32_small (g * _)), (u32_small (g * _ + m)), u32_small by lia.
  rewrite Hsum. lia.
Qed.

(** * The contents of a subtree under construction *)

Section Filled.
Context `{Hh : HashApi}.
Variable alg : lms_hash_alg_t.
Variable op : lmots_param_t.
Variable h : Z.
Variable I_ seed : bytes.

(** The height of the subtrees of a layer and the level of their leaves. *)
Variable sh L : Z.

(** Number of the [m]-th node at height [i] in the subtree [g], and its value. *)
Definition node_num (g i m : Z) : Z := (2 ^ (h - (L + sh)) + g) * 2 ^ (sh - i) + m.
Definition node_val (g i m : Z) : bytes := tree_spec alg op h I_ seed (Z.to_nat (L + i)) (node_num g i m).

(** The buffers have room for the subtree. *)
Record shape (sub : lms_subtree_t) : Prop := {
  shape_height : st_height sub = sh;
  shape_nodes : b_ptr (st_nodes sub) <> NULL;
  shape_stack : b_ptr (st_stack sub) <> NULL;
  shape_nodes_len : len (b_data (st_nodes sub)) = 2 ^ (sh + 1) * LMS_N;
  shape_stack_len : len (b_data (st_stack sub)) = sh * LMS_N
}.

Definition stack_at (sub : lms_subtree_t) (i : Z) : bytes := slice (i * LMS_N) LMS_N (b_data (st_stack sub)).

(** After [ci] leaves: every node above only added leaves has its value, and the stack
    holds, at every height whose bit is set in [ci], the node that waits for its sibling. *)
Record filled (g ci : Z) (sub : lms_subtree_t) : Prop := {
  filled_nodes : forall i m, 0 <= i <= sh -> 0 <= m -> (m + 1) * 2 ^ i <= ci ->
    node_at sub (local_of sh i m) LMS_N = node_val g i m;
  filled_stack : forall i, 0 <= i < sh -> Z.odd (ci / 2 ^ i) = true ->
    stack_at sub i = node_val g i (ci / 2 ^ i - 1)
}.

(** Between the turns of the merge loop for leaf [ci], at the [m]-th node of height [i]. *)
Record merging (g ci i m : Z) (sub : lms_subtree_t) : Prop := {
  merging_pos : 0 <= i <= sh /\ 0 <= m /\ (m + 1) * 2 ^ i = ci + 1;
  merging_nodes : forall i' m', 0 <= i' <= sh -> 0 <= m' ->
    (m' + 1) * 2 ^ i' <= ci \/ i' <= i /\ (m' + 1) * 2 ^ i' = ci + 1 ->
    node_at sub (local_of sh i' m') LMS_N = node_val g i' m';
  merging_stack : forall i', 0 <= i' < sh -> Z.odd (ci / 2 ^ i') = true ->
    stack_at sub i' = node_val g i' (ci / 2 ^ i' - 1)
}.

Hypothesis Hsh : 0 <= sh.
Hypothesis HL : 0 <= L.

Lemma node_num_double g i m : 0 <= i < sh -> 2 * node_num g (i + 1) m = node_num g i (2 * m).
Proof.
  intros Hi. unfold node_num. replace (sh - i) with (Z.succ (sh - (i + 1))) by lia.
  rewrite Z.pow_succ_r by lia. lia.
Qed.

Lemma node_val_step g i m :
  0 <= i < sh ->
  intr_spec alg I_ (node_num g (i + 1) m) (node_val g i (2 * m)) (node_val g i (2 * m + 1)) = node_val g (i + 1) m.
Proof.
  intros Hi. unfold node_val. replace (Z.to_nat (L + (i + 1))) with (S (Z.to_nat (L + i))) by lia.
  cbn [tree_spec]. rewrite (node_num_double g i m Hi).
  replace (node_num g i (2 * m + 1)) with (node_num g i (2 * m) + 1) by (unfold node_num; lia).
  reflexivity.
Qed.

Lemma filled_0 g sub : filled g 0 sub.
Proof.
  split.
  - intros i m Hi Hm Hle. pose proof (pow2_pos i ltac:(lia)). nia.
  - intros i Hi. rewrite Z.div_0_l by (pose proof (pow2_pos i ltac:(lia)); lia). discriminate.
Qed.

(** A complete node lies in the subtree. *)
Lemma complete_in_range i m ci : 0 <= i <= sh -> 0 <= m -> (m + 1) * 2 ^ i <= ci -> ci <= 2 ^ sh -> m < 2 ^ (sh - i).
Proof.
  intros Hi Hm Hle Hci. rewrite (pow2_split sh i) in Hci by lia.
  pose proof (pow2_pos i ltac:(lia)). nia.
Qed.

Lemma node_at_set local k v sub :
  len v = LMS_N -> len (b_data (st_nodes sub)) = 2 ^ (sh + 1) * LMS_N ->
  0 <= local < 2 ^ (sh + 1) -> 0 <= k ->
  node_at (set_node local LMS_N v sub) k LMS_N = if k =? local then v else node_at sub k LMS_N.
Proof.
  intros Hv Hb Hl Hk. unfold LMS_N in *. unfold node_at, set_node. destruct sub. cbn in *.
  destruct (Z.eqb_spec k local) as [-> | Hne].
  - apply slice_splice_eq; lia.
  - apply slice_splice_ne; lia.
Qed.

Lemma stack_at_set i k v sub :
  len v = LMS_N -> len (b_data (st_stack sub)) = sh * LMS_N -> 0 <= i < sh -> 0 <= k ->
  stack_at (set_stack i LMS_N v sub) k = if k =? i then v else stack_at sub k.
Proof.
  intros Hv Hb Hl Hk. unfold LMS_N in *. unfold stack_at, set_stack, LMS_N. destruct sub. cbn in *.
  destruct (Z.eqb_spec k i) as [-> | Hne].
  - apply slice_splice_eq; lia.
  - apply slice_splice_ne; lia.
Qed.

Lemma shape_set_node local v sub :
  shape sub -> len v = LMS_N -> 0 <= local < 2 ^ (sh + 1) -> shape (set_node local LMS_N v sub).
Proof.
  intros [H1 H2 H3 H4 H5] Hv Hl. unfold LMS_N in *. destruct sub as [? ? ? ? ? ? [? b] ?].
  split; try assumption. change (len (splice (local * 32) v b) = 2 ^ (sh + 1) * 32).
  change (len b = 2 ^ (sh + 1) * 32) in H4. rewrite len_splice; lia.
Qed.

Lemma shape_set_stack i v sub :
  shape sub -> len v = LMS_N -> 0 <= i < sh -> shape (set_stack i LMS_N v sub).
Proof.
  intros [H1 H2 H3 H4 H5] Hv Hl. unfold LMS_N in *. destruct sub as [? ? ? ? ? ? ? [? b]].
  split; try assumption. change (len (splice (i * 32) v b) = sh * 32).
  change (len b = sh * 32) in H5. rewrite len_splice; lia.
Qed.

(** Storing the value of the [m]-th node of height [i] keeps the other nodes. *)
Lemma node_at_set_val g i m i' m' v sub :
  shape sub -> len v = LMS_N -> v = node_val g i m ->
  0 <= i <= sh -> 0 <= m < 2 ^ (sh - i) -> 0 <= i' <= sh -> 0 <= m' < 2 ^ (sh - i') ->
  i' = i /\ m' = m \/ node_at sub (local_of sh i' m') LMS_N = node_val g i' m' ->
  node_at (set_node (local_of sh i m) LMS_N v sub) (local_of sh i' m') LMS_N = node_val g i' m'.
Proof.
  intros [_ _ _ Hb _] Hv -> Hi Hm Hi' Hm' He.
  pose proof (local_of_range sh i m Hi Hm). pose proof (local_of_range sh i' m' Hi' Hm').
  rewrite node_at_set by (assumption || lia).
  destruct (Z.eqb_spec (local_of sh i' m') (local_of sh i m)) as [E | E].
  - apply local_of_inj in E as [-> ->]; [reflexivity | lia..].
  - destruct He as [[-> ->] | He]; [contradiction | exact He].
Qed.

Lemma stack_at_set_node local v sub i : stack_at (set_node local LMS_N v sub) i = stack_at sub i.
Proof. destruct sub. reflexivity. Qed.

Lemma node_at_set_stack i v sub k : node_at (set_stack i LMS_N v sub) k LMS_N = node_at sub k LMS_N.
Proof. destruct sub. reflexivity. Qed.

Lemma merge_start g ci v sub :
  shape sub -> len v = LMS_N -> v = node_val g 0 ci -> 0 <= ci < 2 ^ sh -> filled g ci sub ->
  merging g ci 0 ci (set_node (local_of sh 0 ci) LMS_N v sub).
Proof.
  intros Hs Hv Hval Hci [Hn Hst]. split.
  - rewrite Z.pow_0_r. lia.
  - intros i' m' Hi' Hm' Hor.
    assert (Hm'' : m' < 2 ^ (sh - i')) by (apply (complete_in_range i' m' (ci + 1)); lia).
    apply node_at_set_val; try assumption; try lia; [rewrite Z.sub_0_r; lia |].
    destruct Hor as [Hle | [Hi0 Heq]]; [right; apply Hn; lia |].
    left. assert (i' = 0) as -> by lia. rewrite Z.pow_0_r in Heq. lia.
  - intros i' Hi' Ho. rewrite stack_at_set_node. apply Hst; assumption.
Qed.

(** The node of [merging] at height [i] is the ancestor of leaf [ci]. *)
Lemma merging_ancestor g ci i m sub : merging g ci i m sub -> ci / 2 ^ i = m.
Proof.
  intros [[Hi [Hm He]] _ _]. pose proof (pow2_pos i ltac:(lia)).
  replace ci with (m * 2 ^ i + (2 ^ i - 1)) by lia. rewrite Z.div_add_l by lia.
  rewrite Z.div_small by lia. lia.
Qed.

Lemma merge_up g ci i m v sub :
  shape sub -> len v = LMS_N -> ci < 2 ^ sh -> i < sh -> Z.odd m = true ->
  v = node_val g (i + 1) (m / 2) -> merging g ci i m sub ->
  merging g ci (i + 1) (m / 2) (set_node (local_of sh (i + 1) (m / 2)) LMS_N v sub).
Proof.
  intros Hs Hv Hci Hi Ho Hval [[Hi0 [Hm He]] Hn Hst].
  assert (Hm2 : m = 2 * (m / 2) + 1) by (apply half_odd; rewrite <- Z.negb_odd, Ho; reflexivity).
  assert (Hpos : 0 <= m / 2) by (apply Z.div_pos; lia).
  assert (He' : (m / 2 + 1) * 2 ^ (i + 1) = ci + 1) by (rewrite Z.pow_add_r, Z.pow_1_r by lia; lia).
  split; [lia | |].
  - intros i' m' Hi' Hm' Hor.
    assert (Hm'' : m' < 2 ^ (sh - i')) by (apply (complete_in_range i' m' (ci + 1)); lia).
    apply node_at_set_val; try assumption; try lia.
    { split; [lia |]. apply (complete_in_range (i + 1) (m / 2) (ci + 1)); lia. }
    destruct (Z.eq_dec i' (i + 1)) as [-> | Hne]; [| right; apply Hn; lia].
    destruct Hor as [Hle | [_ Heq]]; [right; apply Hn; lia | left].
    split; [reflexivity |]. pose proof (pow2_pos (i + 1) ltac:(lia)). nia.
  - intros i' Hi' Hod. rewrite stack_at_set_node. apply Hst; assumption.
Qed.

Lemma odd_multiple a : Z.odd (2 * a) = false.
Proof. rewrite Z.odd_mul. reflexivity. Qed.

(** Below the height the merge stopped at, the new count has no bit. *)
Lemma count_even_below ci i m i' : 0 <= i' < i -> (m + 1) * 2 ^ i = ci + 1 -> Z.odd ((ci + 1) / 2 ^ i') = false.
Proof.
  intros Hi He. rewrite <- He, (pow2_split i i') by lia. rewrite Z.mul_assoc, Z.div_mul
    by (pose proof (pow2_pos i' ltac:(lia)); lia).
  replace (i - i') with (Z.succ (i - i' - 1)) by lia. rewrite Z.pow_succ_r by lia.
  replace ((m + 1) * (2 * 2 ^ (i - i' - 1))) with (2 * ((m + 1) * 2 ^ (i - i' - 1))) by lia.
  apply odd_multiple.
Qed.

Lemma merge_store g ci i m v sub :
  shape sub -> len v = LMS_N -> v = node_val g i m -> i < sh -> Z.odd m = false ->
  merging g ci i m sub -> filled g (ci + 1) (set_stack i LMS_N v sub).
Proof.
  intros Hs Hv Hval Hi Ho Hmg. pose proof (merging_ancestor _ _ _ _ _ Hmg) as Hanc.
  destruct Hmg as [[Hi0 [Hm He]] Hn Hst].
  assert (Hev : m = 2 * (m / 2)) by (apply half_even; rewrite <- Z.negb_odd, Ho; reflexivity).
  split.
  - intros i' m' Hi' Hm' Hle. rewrite node_at_set_stack. apply Hn; [lia.. |].
    destruct (Z.le_gt_cases ((m' + 1) * 2 ^ i') ci) as [| Hgt]; [left; assumption | right].
    split; [| lia]. destruct (Z.le_gt_cases i' i) as [| Hlt]; [assumption | exfalso].
    assert (Heq : (m' + 1) * 2 ^ i' = (m + 1) * 2 ^ i) by lia.
    rewrite (pow2_split i' i) in Heq by lia. pose proof (pow2_pos i ltac:(lia)).
    replace (i' - i) with (Z.succ (i' - i - 1)) in Heq by lia. rewrite Z.pow_succ_r in Heq by lia.
    assert ((m' + 1) * (2 * 2 ^ (i' - i - 1)) = m + 1) by nia. lia.
  - intros i' Hi' Hodd. rewrite stack_at_set by (try apply Hs; assumption || lia).
    destruct (Z.eqb_spec i' i) as [-> | Hne].
    + rewrite <- He, Z.div_mul by (pose proof (pow2_pos i ltac:(lia)); lia). rewrite Hval. f_equal. lia.
    + destruct (Z.lt_ge_cases i' i) as [Hlt | Hge].
      { rewrite (count_even_below ci i m i') in Hodd by lia. discriminate. }
      assert (Hsame : (ci + 1) / 2 ^ i' = ci / 2 ^ i').
      { rewrite (pow2_split i' i) by lia. pose proof (pow2_pos (i' - i) ltac:(lia)).
        pose proof (pow2_pos i ltac:(lia)).
        rewrite (Z.mul_comm (2 ^ (i' - i))), <- !Z.div_div by lia.
        rewrite Hanc, <- He, Z.div_mul by lia.
        replace (i' - i) with (1 + (i' - i - 1)) by lia.
        rewrite Z.pow_add_r, Z.pow_1_r, <- !Z.div_div by (try apply Z.pow_nonneg; lia || (pose proof (pow2_pos (i' - i - 1) ltac:(lia)); lia)).
        f_equal. rewrite Hev at 1. rewrite Z.mul_comm, Z.div_add_l by lia.
        rewrite (Z.div_small 1 2) by lia. lia. }
      rewrite Hsame in *. apply Hst; assumption.
Qed.

Lemma merge_root g ci sub : merging g ci sh 0 sub -> filled g (ci + 1) sub.
Proof.
  intros [[Hi0 [Hm He]] Hn Hst]. split.
  - intros i' m' Hi' Hm' Hle. apply Hn; [lia.. |].
    destruct (Z.le_gt_cases ((m' + 1) * 2 ^ i') ci) as [| Hgt]; [left; assumption | right; lia].
  - intros i' Hi' Hodd. rewrite (count_even_below ci sh 0 i') in Hodd by lia. discriminate.
Qed.
End Filled.
