(* ===== verification/SubtreeTriples.v ===== *)
(** Invariants of the context of src/lms_subtree.c: which of its parts never change
    ([skeleton], [ctx_ok]), what a computation may write ([frame]), and the triple of
    [lms_tree_add_next_node]. *)

From S2P Require Import Prelude Types HashApi Params Winternitz Spec LmOts LmOtsCorrect Tree Lms LmsCorrect Subtree SubtreeCorrect.

(** * What builds do not change *)

(** The geometry and the buffers of a subtree, without contents. *)
Definition erase_buffer (b : buffer) : buffer := mkBuffer (b_ptr b) (fill 0 (len (b_data b))).
Definition erase (sub : lms_subtree_t) : lms_subtree_t :=
  mkSubtree (st_height sub) (st_level sub) (st_levels_below sub) (st_tree_height sub) 0 0
    (erase_buffer (st_nodes sub)) (erase_buffer (st_stack sub)).
Definition erase_level (sl : lms_sublevel_t) : lms_sublevel_t :=
  mkSublevel (erase (active sl)) (erase (upcoming sl)) (has_upcoming sl).

Lemma erase_shape sh sub sub' : erase sub' = erase sub -> shape sh sub -> shape sh sub'.
Proof.
  intros He [H1 H2 H3 H4 H5].
  injection He as E1 _ _ _ E5 E6 E7 E8.
  apply (f_equal len) in E6, E8. rewrite !len_fill in E6, E8 by apply len_nonneg.
  split; congruence.
Qed.

Lemma set_node_fields local v sub :
  left_leaf (set_node local LMS_N v sub) = left_leaf sub /\ current_index (set_node local LMS_N v sub) = current_index sub.
Proof. destruct sub. split; reflexivity. Qed.

Lemma set_stack_fields i v sub :
  left_leaf (set_stack i LMS_N v sub) = left_leaf sub /\ current_index (set_stack i LMS_N v sub) = current_index sub.
Proof. destruct sub. split; reflexivity. Qed.

Lemma erase_set_node sh local v sub :
  0 <= sh -> shape sh sub -> len v = LMS_N -> 0 <= local < 2 ^ (sh + 1) -> erase (set_node local LMS_N v sub) = erase sub.
Proof.
  intros H0 Hs Hv Hl. pose proof (shape_nodes_len _ _ (shape_set_node sh H0 local v sub Hs Hv Hl)) as H1.
  pose proof (shape_nodes_len _ _ Hs) as H2. destruct sub as [a1 a2 a3 a4 a5 a6 [p b] a8].
  unfold erase, erase_buffer, set_node in *. cbn -[Z.mul Z.pow splice] in *. rewrite H1, H2. reflexivity.
Qed.

Lemma erase_set_stack sh i v sub :
  0 <= sh -> shape sh sub -> len v = LMS_N -> 0 <= i < sh -> erase (set_stack i LMS_N v sub) = erase sub.
Proof.
  intros H0 Hs Hv Hl. pose proof (shape_stack_len _ _ (shape_set_stack sh H0 i v sub Hs Hv Hl)) as H1.
  pose proof (shape_stack_len _ _ Hs) as H2. destruct sub as [a1 a2 a3 a4 a5 a6 a7 [p b]].
  unfold erase, erase_buffer, set_stack in *. cbn -[Z.mul Z.pow splice] in *. rewrite H1, H2. reflexivity.
Qed.

#[export] Instance sub_ref_eq_dec : EqDecision sub_ref.
Proof. solve_decision. Defined.

Section Context_.
Context `{P : Platform} `{Hh : HashApi}.

Definition skeleton (c : lms_tree_ctx_t) : lms_tree_ctx_t := c {{ tc_level := map erase_level (tc_level c) }}.

Lemma level_of_skeleton c s : level_of (skeleton c) s = erase_level (level_of c s).
Proof. unfold level_of, skeleton. destruct c. cbn. exact (map_nth erase_level _ zero_sublevel _). Qed.

Lemma sub_of_skeleton c r : sub_of (skeleton c) r = erase (sub_of c r).
Proof. destruct r; cbn [sub_of]; rewrite ?level_of_skeleton; reflexivity. Qed.

Definition layer (r : sub_ref) : Z := match r with SubNull => 0 | SubActive s | SubUpcoming s => s end.

(** [r] is a place of a context of [N] layers; the top one has no second subtree. *)
Definition in_ctx (N : Z) (r : sub_ref) : Prop :=
  match r with SubNull => False | SubActive s => 0 <= s < N | SubUpcoming s => 0 <= s < N - 1 end.

Lemma level_of_upd c s sl s' :
  0 <= s < Z.of_nat (length (tc_level c)) -> 0 <= s' ->
  level_of (c {{ tc_level := upd s sl (tc_level c) }}) s' = if s' =? s then sl else level_of c s'.
Proof.
  intros Hs Hs'. unfold level_of, upd. destruct c. cbn in *. rewrite !nth_lookup.
  destruct (Z.eqb_spec s' s) as [-> | Hne].
  - rewrite list_lookup_insert_eq by lia. reflexivity.
  - rewrite list_lookup_insert_ne by lia. reflexivity.
Qed.

Lemma sub_of_put c r r' sub :
  in_ctx (Z.of_nat (length (tc_level c))) r -> in_ctx (Z.of_nat (length (tc_level c))) r' ->
  sub_of (put_sub r sub c) r' = if decide (r' = r) then sub else sub_of c r'.
Proof.
  intros Hr Hr'. destruct r as [| s | s], r' as [| s' | s']; try contradiction; cbn [in_ctx] in *;
    cbn [put_sub sub_of]; rewrite level_of_upd by lia;
    (destruct (Z.eqb_spec s' s) as [-> | Hne]; [destruct (level_of c s) as [a u x] |]);
    destruct (decide _) as [E | E]; try reflexivity; try congruence.
Qed.
End Context_.

(** * The context of a tree *)

(** How a tree of height [h] is cut into [N] layers of subtrees of height [j]. *)
Record geometry (h j N : Z) : Prop := {
  geo_h : 5 <= h <= 25;
  geo_j : LMS_SUBTREE_MIN_J <= j <= h;
  geo_N : 1 <= N;
  geo_top : (N - 1) * j < h <= N * j
}.

Section Geometry.
Variables h j N : Z.
Hypothesis Hg : geometry h j N.

(** The height of the subtrees of layer [s], the level of their leaves and roots. *)
Definition sub_height (s : Z) : Z := if s + 1 <? N then j else h - (N - 1) * j.
Definition leaf_level (s : Z) : Z := s * j.
Definition root_level (s : Z) : Z := s * j + sub_height s.

Lemma sub_height_range s : 1 <= sub_height s <= 25.
Proof.
  destruct Hg as [H1 H2 H3 H4]. unfold sub_height, LMS_SUBTREE_MIN_J in *.
  destruct (Z.ltb_spec (s + 1) N); nia.
Qed.

Lemma root_level_next s : s + 1 < N -> root_level s = leaf_level (s + 1).
Proof.
  intros Hs. unfold root_level, leaf_level, sub_height. destruct (Z.ltb_spec (s + 1) N); lia.
Qed.

Lemma root_level_top : root_level (N - 1) = h.
Proof. unfold root_level, sub_height. destruct (Z.ltb_spec (N - 1 + 1) N); lia. Qed.

Lemma root_level_range s : 0 <= s < N -> 1 <= root_level s <= h.
Proof.
  intros Hs. destruct Hg as [H1 H2 H3 H4]. unfold LMS_SUBTREE_MIN_J in *.
  destruct (Z.eq_dec s (N - 1)) as [-> | Hne]; [rewrite root_level_top; lia |].
  rewrite root_level_next by lia. unfold leaf_level. nia.
Qed.

Lemma root_level_mono s s' : 0 <= s <= s' /\ s' < N -> root_level s <= root_level s'.
Proof.
  intros Hs. destruct Hg as [H1 H2 H3 H4]. unfold root_level, sub_height, LMS_SUBTREE_MIN_J in *.
  destruct (Z.ltb_spec (s + 1) N), (Z.ltb_spec (s' + 1) N); nia.
Qed.

Lemma leaf_level_nonneg s : 0 <= s -> 0 <= leaf_level s.
Proof. intros Hs. destruct Hg. unfold leaf_level, LMS_SUBTREE_MIN_J in *. nia. Qed.

Lemma geometry_size : 1 <= N <= 25 /\ 2 <= j <= 25.
Proof. destruct Hg as [H1 H2 H3 H4]. unfold LMS_SUBTREE_MIN_J in *. nia. Qed.
End Geometry.

Section Tree_.
Context `{P : Platform} `{Hh : HashApi}.
Variable F : Prop.
Variable B : backends.
Variable lp : lms_param_t.
Variable op : lmots_param_t.
Variable I_ seed : bytes.
Variables j N : Z.
Abbreviation h := (lms_p_height lp).
Abbreviation alg := (ots_p_hash_alg op).
Abbreviation T := (tree_spec alg op h I_ seed).
Abbreviation hs := (sub_height h j N).
Abbreviation lvl := (leaf_level j).

(** The key whose tree the context holds; its index is free. *)
Record key_is (priv : lms_private_key_t) : Prop := {
  key_is_ok : key_ok priv lp op;
  key_is_I : priv_I priv = I_;
  key_is_seed : priv_seed priv = seed
}.

(** The registered sources of leaves, and an allocator, behave: they return what the
    software would have computed, respectively a block, or fail under [F]. *)
Record sources_ok (c : lms_tree_ctx_t) : Prop := {
  source_ots_pub : forall f priv q, tc_ots_pub c = Some f -> key_is priv -> 0 <= q < 2 ^ h ->
    hoare (inv B) F (f (tc_ots_pub_ctx c) priv q) (fun out => out = ots_pub alg op I_ seed q);
  source_leaf : forall f priv q, tc_leaf_fn c = Some f -> key_is priv -> 0 <= q < 2 ^ h ->
    hoare (inv B) F (f (tc_leaf_fn_ctx c) priv q) (fun out => out = T 0 (2 ^ h + q));
  source_alloc : exists alloc free, tc_alloc c = Some alloc /\ tc_free c = Some free /\
    (forall size d, fst (alloc (tc_alloc_ctx c) size d) = NULL -> F) /\
    (forall size, keeps (inv B) (fun d => snd (alloc (tc_alloc_ctx c) size d))) /\
    (forall p, keeps (inv B) (free (tc_alloc_ctx c) p))
}.

(** The shape of the subtree at [r]. *)
Record sub_ok (r : sub_ref) (sub : lms_subtree_t) : Prop := {
  sub_shape : shape (hs (layer r)) sub;
  sub_level : st_level sub = lvl (layer r) + hs (layer r);
  sub_levels_below : st_levels_below sub = lvl (layer r);
  sub_tree_height : st_tree_height sub = h
}.

Record ctx_ok (c : lms_tree_ctx_t) : Prop := {
  ctx_type : tc_lms_type c = lms_p_type lp;
  ctx_height : tc_height c = h;
  ctx_n : tc_n c = LMS_N;
  ctx_j : tc_subtree_size c = j;
  ctx_N : tc_sublevels c = N;
  ctx_alg : tc_hash_alg c = alg;
  ctx_I : tc_I c = I_;
  ctx_levels : tc_levels c <> NULL;
  ctx_length : Z.of_nat (length (tc_level c)) = N;
  ctx_sources : sources_ok c;
  ctx_subs : forall r, in_ctx N r -> sub_ok r (sub_of c r)
}.

(** [c'] differs from [c] in the contents of the subtrees of [W] only. *)
Record frame (W : sub_ref -> Prop) (c c' : lms_tree_ctx_t) : Prop := {
  frame_skeleton : skeleton c' = skeleton c;
  frame_subs : forall r, in_ctx N r -> ~ W r -> sub_of c' r = sub_of c r
}.

Lemma frame_refl W c : frame W c c.
Proof. split; reflexivity. Qed.

Lemma frame_trans W c1 c2 c3 : frame W c1 c2 -> frame W c2 c3 -> frame W c1 c3.
Proof. intros [H1 H2] [H3 H4]. split; [congruence |]. intros r Hr Hw. rewrite H4, H2 by assumption. reflexivity. Qed.

Lemma frame_mono (W W' : sub_ref -> Prop) c c' : frame W c c' -> (forall r, in_ctx N r -> W r -> W' r) -> frame W' c c'.
Proof.
  intros [H1 H2] HW. split; [exact H1 |]. intros r Hr Hw. apply H2; [exact Hr |]. intros H. apply Hw, HW; assumption.
Qed.

Lemma sub_ok_erase r sub sub' : erase sub' = erase sub -> sub_ok r sub -> sub_ok r sub'.
Proof.
  intros He [H1 H2 H3 H4]. pose proof (erase_shape _ _ _ He H1) as Hs.
  injection He as E1 E2 E3 E4 E5 E6 E7 E8. split; congruence.
Qed.

Lemma frame_ctx_ok W c c' : frame W c c' -> ctx_ok c -> ctx_ok c'.
Proof.
  intros [Hsk _] [H1 H2 H3 H4 H5 H6 H7 H8 H9 [S1 S2 S3] H11].
  assert (Hsub : forall r, in_ctx N r -> sub_ok r (sub_of c' r)).
  { intros r Hr. apply (sub_ok_erase r (sub_of c r)); [| exact (H11 r Hr)].
    rewrite <- !sub_of_skeleton, Hsk. reflexivity. }
  destruct c as [c1 c2 c3 c4 c5 c6 c7 c8 c9 c10 c11 c12 c13 c14 c15 c16 c17].
  destruct c' as [d1 d2 d3 d4 d5 d6 d7 d8 d9 d10 d11 d12 d13 d14 d15 d16 d17].
  injection Hsk as E1 E2 E3 E4 E5 E6 E7 E8 E9 E10 E11 E12 E13 E14 E15 E16 E17.
  apply (f_equal length) in E10. unfold fmap in E10. rewrite !length_map in E10.
  subst d1 d2 d3 d4 d5 d6 d7 d8 d9 d11 d12 d13 d14 d15 d16 d17.
  split; try assumption; [| split; assumption].
  change (Z.of_nat (length d10) = N). change (Z.of_nat (length c10) = N) in H9. lia.
Qed.

(** ** Triples *)

Abbreviation triple := (vtriple (fun s => inv B (t_world s)) t_ctx).

Lemma triple_get_ctx c G : triple c G get_ctx (fun a c' => a = c /\ c' = c).
Proof. intros s Hi <-. repeat split; apply Hi. Qed.

Lemma triple_get_sub r c G : triple c G (get_sub r) (fun a c' => a = sub_of c r /\ c' = c).
Proof. intros s Hi <-. repeat split; apply Hi. Qed.

Lemma triple_update_ctx f c G : triple c G (update_ctx f) (fun _ c' => c' = f c).
Proof. intros s Hi <-. destruct s. split; [reflexivity | exact Hi]. Qed.

Lemma triple_update_sub r f c G : triple c G (update_sub r f) (fun _ c' => c' = put_sub r (f (sub_of c r)) c).
Proof. intros s Hi <-. destruct s. split; [reflexivity | exact Hi]. Qed.

Lemma triple_world {A} c (G : lms_tree_ctx_t -> Prop) (m : C A) Q :
  hoare (inv B) F m Q -> (F -> G c) -> triple c G (t_on_world m) (fun a c' => Q a /\ c' = c).
Proof.
  intros Hm HG s Hi <-. unfold t_on_world. specialize (Hm _ Hi).
  destruct s as [w c0 t]. cbn in *. destruct (m w) as [[a | e] w']; destruct Hm; auto.
Qed.

Lemma triple_alloc c G alloc context size :
  keeps (inv B) (fun d => snd (alloc context size d)) ->
  triple c G (t_alloc alloc context size) (fun p c' => (exists d, p = fst (alloc context size d)) /\ c' = c).
Proof.
  intros Hk s Hi <-. unfold t_alloc. destruct s as [w c0 t]. cbn. specialize (Hk w Hi). cbn in Hk.
  destruct (alloc context size (device w)) as [p d] eqn:E.
  split; [| exact Hk]. split; [| reflexivity]. eexists. rewrite E. reflexivity.
Qed.

Lemma triple_free c G free context p :
  keeps (inv B) (free context p) -> triple c G (t_free free context p) (fun _ c' => c' = c).
Proof. intros Hk s Hi <-. destruct s as [w c0 t]. split; [reflexivity | exact (Hk w Hi)]. Qed.

(** ** Writing one subtree *)

Lemma skeleton_upd c s sl :
  0 <= s < Z.of_nat (length (tc_level c)) -> erase_level sl = erase_level (level_of c s) ->
  skeleton (c {{ tc_level := upd s sl (tc_level c) }}) = skeleton c.
Proof.
  intros Hs Hl. unfold skeleton.
  destruct c as [c1 c2 c3 c4 c5 c6 c7 c8 c9 levels c11 c12 c13 c14 c15 c16 c17]. cbn in *. f_equal.
  unfold level_of, upd in *. cbn in *. rewrite list_fmap_insert, Hl.
  apply list_insert_id. rewrite list_lookup_fmap, nth_lookup.
  destruct (lookup_lt_is_Some_2 levels (Z.to_nat s) ltac:(lia)) as [x ->]. reflexivity.
Qed.

Lemma length_put c r sub : length (tc_level (put_sub r sub c)) = length (tc_level c).
Proof. destruct c, r; [reflexivity | |]; apply length_insert. Qed.

Lemma skeleton_put c r sub :
  in_ctx (Z.of_nat (length (tc_level c))) r -> erase sub = erase (sub_of c r) ->
  skeleton (put_sub r sub c) = skeleton c.
Proof.
  intros Hr He. destruct r as [| s | s]; [contradiction | |]; cbn [in_ctx put_sub sub_of] in *;
    apply skeleton_upd; try lia; destruct (level_of c s) as [a u x]; unfold erase_level; cbn in *;
    rewrite He; reflexivity.
Qed.

Lemma sub_of_put_eq c r sub : ctx_ok c -> in_ctx N r -> sub_of (put_sub r sub c) r = sub.
Proof.
  intros Hc Hr. rewrite sub_of_put by (rewrite (ctx_length c Hc); exact Hr).
  destruct (decide (r = r)); [reflexivity | contradiction].
Qed.

Lemma frame_put W c r sub :
  ctx_ok c -> in_ctx N r -> erase sub = erase (sub_of c r) -> W r -> frame W c (put_sub r sub c).
Proof.
  intros Hc Hr He HW. split.
  - apply skeleton_put; [rewrite (ctx_length c Hc); exact Hr | exact He].
  - intros r' Hr' Hn. rewrite sub_of_put by (rewrite (ctx_length c Hc); assumption).
    destruct (decide (r' = r)) as [-> |]; [contradiction | reflexivity].
Qed.

(** A write that keeps the shape. *)
Lemma triple_put W r f c (G : lms_tree_ctx_t -> Prop) :
  ctx_ok c -> in_ctx N r -> W r -> erase (f (sub_of c r)) = erase (sub_of c r) ->
  triple c G (update_sub r f)
    (fun _ c' => frame W c c' /\ ctx_ok c' /\ sub_of c' r = f (sub_of c r)).
Proof.
  intros Hc Hr HW He. eapply vtriple_post; [apply triple_update_sub |].
  intros _ c' ->. pose proof (frame_put W c r _ Hc Hr He HW) as Hf.
  split; [exact Hf |]. split; [exact (frame_ctx_ok _ _ _ Hf Hc) | apply sub_of_put_eq; assumption].
Qed.

(** ** Builds

    [builds W c m Q]: from the context [c], [m] writes only the subtrees of [W], and
    returns a value of [Q] or fails under [F]. *)
Definition builds {A} (W : sub_ref -> Prop) (c : lms_tree_ctx_t) (m : TM A) (Q : A -> lms_tree_ctx_t -> Prop) : Prop :=
  ctx_ok c -> triple c (fun c' => F /\ frame W c c') m (fun a c' => frame W c c' /\ Q a c').

Section Rules.
Variable W : sub_ref -> Prop.

Lemma builds_ret {A} c (a : A) (Q : A -> lms_tree_ctx_t -> Prop) : (ctx_ok c -> Q a c) -> builds W c (mret a) Q.
Proof. intros HQ Hc. apply vtriple_ret. split; [apply frame_refl | exact (HQ Hc)]. Qed.

Lemma builds_fail {A} c e (Q : A -> lms_tree_ctx_t -> Prop) : F -> builds W c (fail e) Q.
Proof. intros HF Hc. apply vtriple_fail. split; [exact HF | apply frame_refl]. Qed.

Lemma builds_bind {A A'} c (m : TM A) (f : A -> TM A') Q R :
  builds W c m Q -> (forall a c', frame W c c' -> ctx_ok c' -> Q a c' -> builds W c' (f a) R) ->
  builds W c (m ≫= f) R.
Proof.
  intros Hm Hf Hc. eapply vtriple_bind; [exact (Hm Hc) |]. intros a c' [Hfr HQ].
  pose proof (frame_ctx_ok _ _ _ Hfr Hc) as Hc'.
  eapply vtriple_conseq; [exact (Hf a c' Hfr Hc' HQ Hc') | |].
  - intros c2 [HF Hfr2]. split; [exact HF | exact (frame_trans _ _ _ _ Hfr Hfr2)].
  - intros a' c2 [Hfr2 HR]. split; [exact (frame_trans _ _ _ _ Hfr Hfr2) | exact HR].
Qed.

Lemma builds_post {A} c (m : TM A) (Q R : A -> lms_tree_ctx_t -> Prop) :
  builds W c m Q -> (forall a c', frame W c c' -> ctx_ok c' -> Q a c' -> R a c') -> builds W c m R.
Proof.
  intros Hm HQ Hc. eapply vtriple_post; [exact (Hm Hc) |]. intros a c' [Hf H].
  split; [exact Hf | exact (HQ a c' Hf (frame_ctx_ok _ _ _ Hf Hc) H)].
Qed.

Lemma builds_or_return {A} c e (m : TM A) Q : builds W c m Q -> builds W c (or_return e m) Q.
Proof. intros Hm Hc. apply vtriple_or_return, Hm, Hc. Qed.

Lemma builds_attempt {A} c (m : TM A) Q :
  builds W c m Q -> builds W c (attempt m) (fun r c' => match r with Ok a => Q a c' | Err _ => F end).
Proof.
  intros Hm Hc. eapply vtriple_post; [apply vtriple_attempt, Hm, Hc |]. intros [a | e] c'; intuition auto.
Qed.

Lemma builds_guard c b e : (ctx_ok c -> b = true -> F) -> builds W c (guard_err b e) (fun _ c' => c' = c /\ b = false).
Proof. intros Hb Hc. destruct b; [apply builds_fail; auto | apply builds_ret; auto]; exact Hc. Qed.

Lemma builds_get_ctx c : builds W c get_ctx (fun a c' => a = c /\ c' = c).
Proof.
  intros Hc. eapply vtriple_post; [apply triple_get_ctx |]. intros a c' [-> ->].
  split; [apply frame_refl | auto].
Qed.

Lemma builds_get_sub c r : builds W c (get_sub r) (fun a c' => a = sub_of c r /\ c' = c).
Proof.
  intros Hc. eapply vtriple_post; [apply triple_get_sub |]. intros a c' [-> ->].
  split; [apply frame_refl | auto].
Qed.

Lemma builds_world {A} c (m : C A) Q :
  hoare (inv B) F m Q -> builds W c (t_on_world m) (fun a c' => Q a /\ c' = c).
Proof.
  intros Hm Hc. eapply vtriple_conseq; [apply (triple_world c (fun c' => F /\ c' = c) m Q Hm); auto | |].
  - intros c' [HF ->]. split; [exact HF | apply frame_refl].
  - intros a c' [HQ ->]. split; [apply frame_refl | auto].
Qed.

Lemma builds_put c r f :
  in_ctx N r -> W r -> (ctx_ok c -> erase (f (sub_of c r)) = erase (sub_of c r)) ->
  builds W c (update_sub r f) (fun _ c' => sub_of c' r = f (sub_of c r)).
Proof.
  intros Hr HW He Hc. eapply vtriple_post; [apply (triple_put W r f c _ Hc Hr HW (He Hc)) |].
  intros a c' (H1 & _ & H2). auto.
Qed.

Lemma builds_alloc c alloc context size :
  keeps (inv B) (fun d => snd (alloc context size d)) ->
  builds W c (t_alloc alloc context size) (fun p c' => (exists d, p = fst (alloc context size d)) /\ c' = c).
Proof.
  intros Hk Hc. eapply vtriple_post; [apply triple_alloc, Hk |]. intros p c' [Hp ->].
  split; [apply frame_refl | auto].
Qed.

Lemma builds_free c free context p :
  keeps (inv B) (free context p) -> builds W c (t_free free context p) (fun _ c' => c' = c).
Proof.
  intros Hk Hc. eapply vtriple_post; [apply triple_free, Hk |]. intros u c' ->. split; [apply frame_refl | reflexivity].
Qed.

Lemma builds_loop {A} n i (body : Z -> A -> TM A) (Q : Z -> A -> lms_tree_ctx_t -> Prop) a c :
  Q i a c ->
  (forall k a c', i <= k < i + Z.of_nat n -> frame W c c' -> Q k a c' -> builds W c' (body k a) (Q (k + 1))) ->
  builds W c (loopM n i body a) (Q (i + Z.of_nat n)).
Proof.
  intros H0 Hb Hc.
  eapply vtriple_conseq; [apply (vtriple_loop _ _ (fun c' => F /\ frame W c c') n i body
    (fun k a c' => frame W c c' /\ Q k a c')) |..]; [| | auto | auto].
  - split; [apply frame_refl | exact H0].
  - intros k a' c' Hk [Hf HQ]. pose proof (frame_ctx_ok _ _ _ Hf Hc) as Hc'.
    eapply vtriple_conseq; [exact (Hb k a' c' Hk Hf HQ Hc') | |].
    + intros c2 [HF Hf2]. split; [exact HF | exact (frame_trans _ _ _ _ Hf Hf2)].
    + intros a2 c2 [Hf2 HQ2]. split; [exact (frame_trans _ _ _ _ Hf Hf2) | exact HQ2].
Qed.
End Rules.

Lemma builds_mono {A} (W W' : sub_ref -> Prop) c (m : TM A) Q :
  builds W c m Q -> (forall r, in_ctx N r -> W r -> W' r) -> builds W' c m Q.
Proof.
  intros Hm HW Hc. eapply vtriple_conseq; [exact (Hm Hc) | |].
  - intros c' [HF Hf]. split; [exact HF | exact (frame_mono _ _ _ _ Hf HW)].
  - intros a c' [Hf HQ]. split; [exact (frame_mono _ _ _ _ Hf HW) | exact HQ].
Qed.
End Tree_.
