(* ===== verification/SubtreeBuild.v ===== *)
(** Building subtrees (src/lms_subtree.c): adding a leaf keeps the subtree filled up to
    its count, and a rebuild leaves a complete subtree over the requested leaves. *)

From S2P Require Import Prelude Types HashApi Params Winternitz Spec LmOts LmOtsCorrect Tree Lms LmsCorrect VerifyCorrect Scheme Subtree SubtreeCorrect SubtreeTriples.

Section Build.
Context `{P : Platform} `{Hh : HashApi}.
Variable F : Prop.
Variable B : backends.
Variable lp : lms_param_t.
Variable op : lmots_param_t.
Variable I_ seed : bytes.
Variables j N : Z.
Hypothesis HB : backends_sound F I_ seed B.
Hypothesis Hgeo : geometry (lms_p_height lp) j N.
Hypothesis HI : ident I_.
Hypothesis Ha : available (ots_p_hash_alg op).
Abbreviation h := (lms_p_height lp).
Abbreviation alg := (ots_p_hash_alg op).
Abbreviation T := (tree_spec alg op h I_ seed).
Abbreviation hs := (sub_height h j N).
Abbreviation lvl := (leaf_level j).
Abbreviation rlvl := (root_level h j N).
Abbreviation ctx_ok := (ctx_ok F B lp op I_ seed j N).
Abbreviation builds := (builds F B lp op I_ seed j N).
Abbreviation frame := (frame N).
Abbreviation val s := (node_val alg op h I_ seed (hs s) (lvl s)).
Abbreviation filled s := (filled alg op h I_ seed (hs s) (lvl s)).
Abbreviation merging s := (merging alg op h I_ seed (hs s) (lvl s)).

Lemma node_val_len s g i m : len (val s g i m) = LMS_N.
Proof. unfold node_val. destruct (Z.to_nat _); apply hash_of_len, Ha. Qed.

Lemma node_val_bytes s g i m : Forall is_byte (val s g i m).
Proof. unfold node_val. destruct (Z.to_nat _); apply hash_of_bytes, Ha. Qed.

(** Subtree number [g] of layer [s]. *)
Definition segment (s g : Z) : Prop := 0 <= g < 2 ^ (h - rlvl s).

Lemma in_ctx_layer r : in_ctx N r -> 0 <= layer r < N.
Proof. destruct r; cbn; lia. Qed.

Lemma ctx_sub_shape c r : ctx_ok c -> in_ctx N r -> shape (hs (layer r)) (sub_of c r).
Proof. intros Hc Hr. apply (sub_shape _ _ _ _ _ (ctx_subs _ _ _ _ _ _ _ _ _ Hc r Hr)). Qed.

(** What adding leaves needs to know of the subtree at [r]. *)
Record adding (r : sub_ref) (g ci : Z) (sub : lms_subtree_t) : Prop := {
  adding_left : left_leaf sub = g * 2 ^ hs (layer r);
  adding_count : current_index sub = ci;
  adding_filled : filled (layer r) g ci sub
}.

(** The number the code computes for a node of the subtree at [r]. *)
Lemma ctx_local_to_global c r g i m :
  ctx_ok c -> in_ctx N r -> segment (layer r) g -> left_leaf (sub_of c r) = g * 2 ^ hs (layer r) ->
  0 <= i <= hs (layer r) -> 0 <= m < 2 ^ (hs (layer r) - i) ->
  subtree_local_to_global (st_tree_height (sub_of c r)) (hs (layer r)) (st_level (sub_of c r))
    (left_leaf (sub_of c r)) (local_of (hs (layer r)) i m)
  = node_num h (hs (layer r)) (lvl (layer r)) g i m.
Proof.
  intros Hc Hr Hseg Hl Hi Hm. pose proof (in_ctx_layer r Hr) as Hlr.
  destruct (ctx_subs _ _ _ _ _ _ _ _ _ Hc r Hr) as [_ -> _ ->]. rewrite Hl.
  pose proof (root_level_range h j N Hgeo (layer r) Hlr) as Hrl. pose proof (geo_h _ _ _ Hgeo).
  unfold segment, root_level in *.
  apply local_to_global_spec; [apply (leaf_level_nonneg h j N Hgeo); lia | lia | | exact Hseg | exact Hm].
  unfold leaf_level. lia.
Qed.

(** The parent of an odd node. *)
Lemma parent_local sh i m :
  0 <= i < sh -> 0 <= m < 2 ^ (sh - i) ->
  (2 ^ (sh - i) + m) .>> 1 = local_of sh (i + 1) (m / 2) /\ 0 <= m / 2 < 2 ^ (sh - (i + 1)).
Proof.
  intros Hi Hm. rewrite Z.shiftr_div_pow2 by lia. unfold local_of.
  assert (He : 2 ^ (sh - i) = 2 ^ (sh - (i + 1)) * 2).
  { rewrite (pow2_split (sh - i) 1) by lia. change (2 ^ 1) with 2. do 2 f_equal. lia. }
  rewrite He in Hm |- *. change (2 ^ 1) with 2. rewrite Z.div_add_l by lia.
  split; [reflexivity | split; [apply Z.div_pos; lia | apply Z.div_lt_upper_bound; lia]].
Qed.

(** The stack holds its left sibling. *)
Lemma stack_sibling s g ci i m sub :
  merging s g ci i m sub -> i < hs s -> Z.odd m = true -> stack_at sub i = val s g i (2 * (m / 2)).
Proof.
  intros Hmg Hi Hodd.
  pose proof (half_odd m ltac:(rewrite <- Z.negb_odd, Hodd; reflexivity)) as Hm2.
  pose proof (merging_pos _ _ _ _ _ _ _ _ _ _ _ _ Hmg) as (Hi0 & _ & _).
  pose proof (merging_stack _ _ _ _ _ _ _ _ _ _ _ _ Hmg i ltac:(lia)) as Hs.
  rewrite (merging_ancestor _ _ _ _ _ _ _ _ _ _ _ _ Hmg) in Hs. rewrite (Hs Hodd). f_equal. lia.
Qed.

(** One turn of the merge loop for an odd node, [k] being the next turn. *)
Lemma merge_turn_ok {A} (k : bytes -> TM A) R c r g ci i m :
  in_ctx N r -> segment (layer r) g -> left_leaf (sub_of c r) = g * 2 ^ hs (layer r) ->
  0 <= ci < 2 ^ hs (layer r) -> i < hs (layer r) -> Z.odd m = true ->
  merging (layer r) g ci i m (sub_of c r) ->
  (forall c', left_leaf (sub_of c' r) = left_leaf (sub_of c r) /\ current_index (sub_of c' r) = current_index (sub_of c r) ->
     merging (layer r) g ci (i + 1) (m / 2) (sub_of c' r) ->
     builds (eq r) c' (k (val (layer r) g (i + 1) (m / 2))) R) ->
  builds (eq r) c
    (sub ← get_sub r;
     let node_num := subtree_local_to_global (st_tree_height sub) (hs (layer r)) (st_level sub)
                       (left_leaf sub) ((2 ^ (hs (layer r) - i) + m) .>> 1) in
     node ← t_on_world (or_return LMS_ERR_INVALID (lms_internal_node I_ alg node_num
              (slice (i * LMS_N) LMS_N (b_data (st_stack sub))) (val (layer r) g i m)));
     update_sub r (set_node ((2 ^ (hs (layer r) - i) + m) .>> 1) LMS_N node) ;;
     k node) R.
Proof.
  intros Hr Hseg Hl Hci Hih Hodd Hmg Hk Hc.
  pose proof (merging_pos _ _ _ _ _ _ _ _ _ _ _ _ Hmg) as (Hi & Hm0 & He).
  pose proof (sub_height_range h j N Hgeo (layer r)) as Hsh. pose proof (in_ctx_layer r Hr) as Hlr.
  pose proof (ctx_sub_shape c r Hc Hr) as Hshape.
  assert (Hm : m < 2 ^ (hs (layer r) - i)) by (apply (complete_in_range _ i m (ci + 1)); lia).
  destruct (parent_local (hs (layer r)) i m ltac:(lia) ltac:(lia)) as [-> Hrange].
  pose proof (half_odd m ltac:(rewrite <- Z.negb_odd, Hodd; reflexivity)) as Hm2.
  revert Hc. eapply builds_bind; [apply builds_get_sub |]. intros ? c1 _ Hc [-> ->].
  rewrite (ctx_local_to_global c r g (i + 1) (m / 2)) by (assumption || lia).
  pose proof (stack_sibling _ _ _ _ _ _ Hmg Hih Hodd) as Esib.
  change (stack_at (sub_of c r) i) with (slice (i * LMS_N) LMS_N (b_data (st_stack (sub_of c r)))) in Esib.
  rewrite Esib. eapply builds_bind.
  { apply builds_world, hoare_or_return, (internal_node_ok F B I_ seed HB);
      [exact HI | exact Ha | split; [apply node_val_len | apply node_val_bytes]..]. }
  intros node c2 _ _ [-> ->].
  replace (val (layer r) g i m) with (val (layer r) g i (2 * (m / 2) + 1)) by (f_equal; lia).
  rewrite node_val_step by (try apply (leaf_level_nonneg h j N Hgeo); lia).
  pose proof (local_of_range (hs (layer r)) (i + 1) (m / 2) ltac:(lia) Hrange) as Hloc.
  eapply builds_bind.
  { apply builds_put; [exact Hr | reflexivity |]. intros _.
    apply (erase_set_node (hs (layer r))); [lia | exact Hshape | apply node_val_len | lia]. }
  intros [] c3 _ _ Hsub. apply Hk; rewrite Hsub; [apply set_node_fields |].
  apply merge_up; try assumption; try lia; [apply node_val_len | reflexivity].
Qed.

(** The loop stops: at the root, or at an even node, which it stores. *)
Lemma merge_stop_root c r g ci i m :
  merging (layer r) g ci i m (sub_of c r) -> m < 2 ^ (hs (layer r) - i) -> 2 ^ (hs (layer r) - i) + m = 1 ->
  filled (layer r) g (ci + 1) (sub_of c r).
Proof.
  intros Hmg Hm Hroot. pose proof (merging_pos _ _ _ _ _ _ _ _ _ _ _ _ Hmg) as (Hi & Hm0 & He).
  pose proof (sub_height_range h j N Hgeo (layer r)) as Hsh.
  destruct (Z.eq_dec i (hs (layer r))) as [-> | Hne].
  - rewrite Z.sub_diag in Hroot. assert (m = 0) as -> by lia. apply merge_root; [lia | exact Hmg].
  - pose proof (Z.pow_le_mono_r 2 1 (hs (layer r) - i) ltac:(lia) ltac:(lia)). lia.
Qed.

Lemma merge_loop_ok fuel : forall c r g ci i m,
  in_ctx N r -> segment (layer r) g -> left_leaf (sub_of c r) = g * 2 ^ hs (layer r) ->
  0 <= ci < 2 ^ hs (layer r) -> merging (layer r) g ci i m (sub_of c r) ->
  hs (layer r) - i < Z.of_nat fuel ->
  builds (eq r) c (merge_loop fuel r I_ alg LMS_N (hs (layer r)) i m (val (layer r) g i m))
    (fun _ c' => filled (layer r) g (ci + 1) (sub_of c' r)
       /\ left_leaf (sub_of c' r) = left_leaf (sub_of c r)
       /\ current_index (sub_of c' r) = current_index (sub_of c r)).
Proof.
  induction fuel as [| fuel IH]; intros c r g ci i m Hr Hseg Hl Hci Hmg Hf Hc;
    pose proof (merging_pos _ _ _ _ _ _ _ _ _ _ _ _ Hmg) as (Hi & Hm0 & He); [lia |].
  pose proof (sub_height_range h j N Hgeo (layer r)) as Hsh. pose proof (ctx_sub_shape c r Hc Hr) as Hshape.
  assert (Hm : m < 2 ^ (hs (layer r) - i)) by (apply (complete_in_range _ i m (ci + 1)); lia).
  pose proof (pow2_le25 (hs (layer r) - i) ltac:(lia)) as Hp.
  cbn [merge_loop]. rewrite u32_shl1 by lia. rewrite u32_small by lia.
  destruct (Z.eqb_spec (2 ^ (hs (layer r) - i) + m) 1) as [Hroot | Hnr].
  { revert Hc. apply builds_ret. intros _. split; [exact (merge_stop_root c r g ci i m Hmg Hm Hroot) | auto]. }
  assert (Hih : i < hs (layer r)).
  { destruct (Z.eq_dec i (hs (layer r))) as [-> | Hne]; [rewrite Z.sub_diag in *; lia | lia]. }
  rewrite land_1_even by lia. destruct (Z.even m) eqn:Hev; revert Hc.
  - eapply builds_post.
    + apply builds_put; [exact Hr | reflexivity |]. intros _.
      apply (erase_set_stack (hs (layer r))); [lia | exact Hshape | apply node_val_len | lia].
    + intros _ c' _ _ ->. split; [| apply set_stack_fields].
      apply (merge_store _ _ _ _ _ _ _ g ci i m); try assumption; try lia; [apply node_val_len | reflexivity |].
      rewrite <- Z.negb_even, Hev. reflexivity.
  - replace (m .>> 1) with (m / 2) by (rewrite Z.shiftr_div_pow2 by lia; reflexivity).
    assert (Hodd : Z.odd m = true) by (rewrite <- Z.negb_even, Hev; reflexivity).
    apply (merge_turn_ok (fun node => merge_loop fuel r I_ alg LMS_N (hs (layer r)) (i + 1) (m / 2) node)
             _ c r g ci i m Hr Hseg Hl Hci Hih Hodd Hmg).
    intros c' [Hl' Hci'] Hmg'. eapply builds_post.
    + apply (IH c' r g ci (i + 1) (m / 2)); try assumption; lia || congruence.
    + intros _ c2 _ _ (H1 & H2 & H3). rewrite H2, H3, Hl', Hci'. auto.
Qed.

Lemma erase_count k sub : erase (sub {{ current_index := k }}) = erase sub.
Proof. destruct sub. reflexivity. Qed.

Lemma erase_reset left sub : erase (subtree_reset_to left sub) = erase sub.
Proof. destruct sub. reflexivity. Qed.

Lemma filled_data s g ci sub sub' :
  st_nodes sub' = st_nodes sub -> st_stack sub' = st_stack sub -> filled s g ci sub -> filled s g ci sub'.
Proof.
  intros H1 H2 [Hn Hs]. split.
  - intros i m Hi Hm Hle. unfold node_at. rewrite H1. exact (Hn i m Hi Hm Hle).
  - intros i Hi Ho. unfold stack_at. rewrite H2. exact (Hs i Hi Ho).
Qed.

Lemma adding_reset r g sub : adding r g 0 (subtree_reset_to (g * 2 ^ hs (layer r)) sub).
Proof. destruct sub. split; [reflexivity | reflexivity | apply filled_0]. Qed.

Lemma adding_set r g k sub :
  left_leaf sub = g * 2 ^ hs (layer r) -> filled (layer r) g k sub -> adding r g k (sub {{ current_index := k }}).
Proof.
  intros Hl Hf. pose proof (fun sub' H1 H2 => filled_data _ _ _ sub sub' H1 H2 Hf) as H.
  destruct sub. split; [exact Hl | reflexivity | apply H; reflexivity].
Qed.

(** The checks of [lms_tree_add_next_node] pass. *)
Lemma add_next_node_ok c r g ci v :
  in_ctx N r -> segment (layer r) g -> 0 <= ci < 2 ^ hs (layer r) -> adding r g ci (sub_of c r) ->
  v = val (layer r) g 0 ci ->
  builds (eq r) c (lms_tree_add_next_node r (Some v) (Some I_) alg LMS_N)
    (fun done c' => adding r g (ci + 1) (sub_of c' r) /\ done = (2 ^ hs (layer r) <=? ci + 1)).
Proof.
  intros Hr Hseg Hci [Hl Hc0 Hf] -> Hc. pose proof (sub_height_range h j N Hgeo (layer r)) as Hsh.
  pose proof (ctx_sub_shape c r Hc Hr) as Hshape. pose proof (pow2_le25 (hs (layer r)) ltac:(lia)) as Hp.
  assert (Hred : lms_tree_add_next_node r (Some (val (layer r) g 0 ci)) (Some I_) alg LMS_N
                 = add_next_node r (val (layer r) g 0 ci) I_ alg LMS_N) by (destruct r; [contradiction | reflexivity..]).
  rewrite Hred. unfold add_next_node. clear Hred. revert Hc.
  eapply builds_bind; [apply builds_guard; intros _; discriminate |]. intros [] c1 _ _ [-> _].
  eapply builds_bind; [apply builds_get_sub |]. intros ? c1 _ Hc [-> ->].
  rewrite (shape_height _ _ Hshape), Hc0, u64_shl1 by lia.
  eapply builds_bind; [apply builds_guard; intros _ H | intros [] c1 _ _ [-> _]].
  { apply orb_true_iff in H as [H | H]; [apply Z.eqb_eq in H | apply Z.ltb_lt in H]; unfold LMS_MAX_HEIGHT in *; lia. }
  eapply builds_bind; [apply builds_guard; intros _ H; apply Z.leb_le in H; lia |]. intros [] c1 _ _ [-> _].
  eapply builds_bind; [apply builds_guard; intros _ H | intros [] c1 _ _ [-> _]].
  { unfold buffer_null in H. apply orb_true_iff in H as [H | H]; apply Z.eqb_eq in H;
      [destruct (shape_nodes _ _ Hshape H) | destruct (shape_stack _ _ Hshape H)]. }
  rewrite u32_shl1 by lia. rewrite u32_small by lia.
  replace (2 ^ hs (layer r) + ci) with (local_of (hs (layer r)) 0 ci) by (unfold local_of; rewrite Z.sub_0_r; lia).
  pose proof (local_of_range (hs (layer r)) 0 ci ltac:(lia) ltac:(rewrite Z.sub_0_r; lia)) as Hloc.
  destruct (set_node_fields (local_of (hs (layer r)) 0 ci) (val (layer r) g 0 ci) (sub_of c r)) as [Hf1 Hf2].
  eapply builds_bind.
  { apply builds_put; [exact Hr | reflexivity |]. intros _.
    apply (erase_set_node (hs (layer r))); [lia | exact Hshape | apply node_val_len | lia]. }
  intros [] c1 _ _ H1. eapply builds_bind.
  { apply (merge_loop_ok _ c1 r g ci 0 ci); try assumption; try lia; rewrite H1; [rewrite Hf1; exact Hl |].
    apply merge_start; try assumption; try lia; [apply node_val_len | reflexivity]. }
  intros [] c2 _ _ (Hfil & Hl2 & Hc2).
  eapply builds_bind.
  { apply builds_put; [exact Hr | reflexivity |]. intros _. apply (erase_count (u64 (ci + 1))). }
  intros [] c3 _ _ H3. apply builds_ret. intros _. rewrite u64_small in * by lia. rewrite H3.
  split; [| reflexivity]. apply adding_set; [congruence | exact Hfil].
Qed.

(** ** Leaves *)

Abbreviation key_is := (key_is lp op I_ seed).

Lemma key_sound priv : key_is priv -> backends_sound F (priv_I priv) (priv_seed priv) B.
Proof. intros [_ -> ->]. exact HB. Qed.

Lemma key_type priv : key_is priv -> priv_lms_type priv = lms_p_type lp.
Proof.
  intros [Hk _ _]. symmetry. exact (proj2 (lms_params_of_wf _ _ (key_lms priv lp op Hk))).
Qed.

Lemma ctx_ots_pub_ok c priv q :
  ctx_ok c -> key_is priv -> 0 <= q < 2 ^ h ->
  hoare (inv B) F (ctx_ots_pub c (tc_ots_pub_ctx c) priv q) (fun out => out = ots_pub alg op I_ seed q).
Proof.
  intros Hc Hk Hq. unfold ctx_ots_pub. pose proof (ctx_sources _ _ _ _ _ _ _ _ _ Hc) as Hs.
  destruct (tc_ots_pub c) as [f |] eqn:E; [exact (source_ots_pub _ _ _ _ _ _ _ Hs f priv q E Hk Hq) |].
  pose proof (public_from_private_ok F priv B (key_sound priv Hk) lp op (key_is_ok _ _ _ _ _ Hk) q) as Hp.
  rewrite (key_is_I _ _ _ _ _ Hk), (key_is_seed _ _ _ _ _ Hk) in Hp. exact Hp.
Qed.

Lemma compute_leaf_ok c priv q :
  ctx_ok c -> key_is priv -> 0 <= q < 2 ^ h ->
  hoare (inv B) F (subtree_compute_leaf c priv (ctx_ots_pub c) q) (fun out => out = T 0 (2 ^ h + q)).
Proof.
  intros Hc Hk Hq. unfold subtree_compute_leaf. pose proof (ctx_sources _ _ _ _ _ _ _ _ _ Hc) as Hs.
  destruct (tc_leaf_fn c) as [f |] eqn:E; [exact (source_leaf _ _ _ _ _ _ _ Hs f priv q E Hk Hq) |].
  eapply hoare_bind; [apply hoare_or_return, ctx_ots_pub_ok; assumption |]. intros pub ->.
  pose proof (geo_h _ _ _ Hgeo) as Hh0. pose proof (pow2_le25 h ltac:(lia)).
  rewrite (ctx_height _ _ _ _ _ _ _ _ _ Hc), (ctx_I _ _ _ _ _ _ _ _ _ Hc), (ctx_alg _ _ _ _ _ _ _ _ _ Hc).
  rewrite u32_shl1, u32_small by lia.
  eapply hoare_conseq; [apply ok_returns, leaf_hash_ok; [exact (proj1 HI) | exact Ha | apply hash_of_len, Ha] |].
  intros out ->. cbn [tree_spec]. do 2 f_equal. lia.
Qed.

Lemma frame_ots_pub W c c' : frame W c c' -> ctx_ots_pub c' = ctx_ots_pub c.
Proof.
  intros [Hsk _]. apply (f_equal tc_ots_pub) in Hsk. unfold ctx_ots_pub.
  destruct c, c'. cbn in Hsk. cbn. rewrite Hsk. reflexivity.
Qed.

(** The real leaf behind leaf [ci] of the bottom subtree [g]. *)
Lemma bottom_leaf g ci :
  0 < N -> val 0 g 0 ci = T 0 (2 ^ h + (g * 2 ^ hs 0 + ci)).
Proof.
  intros HN. unfold node_val, node_num, leaf_level. rewrite Z.mul_0_l, !Z.add_0_l, Z.sub_0_r.
  pose proof (root_level_range h j N Hgeo 0 ltac:(lia)) as Hr. unfold root_level in Hr. rewrite Z.mul_0_l in Hr.
  rewrite Z.add_0_l in *. pose proof (sub_height_range h j N Hgeo 0).
  change (Z.to_nat 0) with 0%nat. f_equal. rewrite (pow2_split h (hs 0)) by lia. lia.
Qed.

Lemma bottom_in_tree g ci : segment 0 g -> 0 <= ci < 2 ^ hs 0 -> 0 < N -> 0 <= g * 2 ^ hs 0 + ci < 2 ^ h.
Proof.
  intros Hg Hci HN. unfold segment in Hg.
  pose proof (root_level_range h j N Hgeo 0 ltac:(lia)) as Hr. unfold root_level in *. rewrite Z.mul_0_l in *.
  rewrite Z.add_0_l in *. rewrite (pow2_split h (hs 0)) by lia. nia.
Qed.

Lemma push_leaf_ok c priv r g ci q :
  in_ctx N r -> layer r = 0 -> segment 0 g -> 0 <= ci < 2 ^ hs 0 -> adding r g ci (sub_of c r) ->
  key_is priv -> q = g * 2 ^ hs 0 + ci ->
  builds (eq r) c (subtree_push_leaf priv (ctx_ots_pub c) r q)
    (fun done c' => adding r g (ci + 1) (sub_of c' r) /\ done = (2 ^ hs 0 <=? ci + 1)).
Proof.
  intros Hr Hl0 Hg Hci Had Hk ->. unfold subtree_push_leaf. pose proof (geo_N _ _ _ Hgeo) as HN.
  eapply builds_bind; [apply builds_get_ctx |]. intros ? c1 _ Hc [-> ->].
  eapply builds_bind.
  { apply builds_world, hoare_or_return, compute_leaf_ok; [exact Hc | exact Hk |].
    apply bottom_in_tree; [exact Hg | exact Hci | lia]. }
  intros leaf c1 _ _ [-> ->].
  rewrite (ctx_I _ _ _ _ _ _ _ _ _ Hc), (ctx_alg _ _ _ _ _ _ _ _ _ Hc), (ctx_n _ _ _ _ _ _ _ _ _ Hc).
  assert (Hh0 : hs 0 = hs (layer r)) by (rewrite Hl0; reflexivity).
  assert (Hg' : segment (layer r) g) by (rewrite Hl0; exact Hg).
  rewrite <- bottom_leaf by lia. rewrite Hh0 in *.
  apply add_next_node_ok; try assumption. rewrite Hl0. reflexivity.
Qed.

(** ** Rebuilding one subtree *)

Lemma fill_loop_ok c r g (body : Z -> bool -> TM bool) :
  in_ctx N r -> adding r g 0 (sub_of c r) ->
  (forall i done c', 0 <= i < 2 ^ hs (layer r) -> frame (eq r) c c' -> adding r g i (sub_of c' r) ->
     builds (eq r) c' (body i done)
       (fun done c' => adding r g (i + 1) (sub_of c' r) /\ done = (2 ^ hs (layer r) <=? i + 1))) ->
  builds (eq r) c
    (done ← loopM (Z.to_nat (u32 (1 .<< hs (layer r)))) 0 body false;
     guard_err (negb done) LMS_ERR_INVALID)
    (fun _ c' => adding r g (2 ^ hs (layer r)) (sub_of c' r)).
Proof.
  intros Hr H0 Hb. pose proof (sub_height_range h j N Hgeo (layer r)) as Hsh.
  pose proof (pow2_le25 (hs (layer r)) ltac:(lia)) as Hp. rewrite u32_shl1 by lia.
  eapply builds_bind.
  - apply (builds_loop _ _ _ _ _ _ _ _ _ _ _ _
      (fun i done c' => adding r g i (sub_of c' r) /\ (0 < i -> done = (2 ^ hs (layer r) <=? i)))).
    + split; [exact H0 | lia].
    + intros i done c' Hi Hf [Had _]. eapply builds_post; [apply Hb; [lia | exact Hf | exact Had] |].
      intros d c2 _ _ [H1 H2]. auto.
  - intros done c' _ _ [Had Hd]. rewrite Z2Nat.id, Z.add_0_l in * by lia. specialize (Hd ltac:(lia)).
    rewrite Z.leb_refl in Hd. subst done. apply builds_ret. intros _. exact Had.
Qed.

Lemma build_bottom_ok c priv r g :
  in_ctx N r -> layer r = 0 -> segment 0 g -> key_is priv ->
  builds (eq r) c (subtree_build_bottom priv (ctx_ots_pub c) r (g * 2 ^ hs 0))
    (fun _ c' => adding r g (2 ^ hs 0) (sub_of c' r)).
Proof.
  intros Hr Hl0 Hg Hk Hc. unfold subtree_build_bottom. pose proof (geo_N _ _ _ Hgeo) as HN.
  pose proof (ctx_sub_shape c r Hc Hr) as Hshape. revert Hc.
  eapply builds_bind; [apply builds_get_sub |]. intros ? c1 _ _ [-> ->]. rewrite (shape_height _ _ Hshape).
  eapply builds_bind.
  { apply builds_put; [exact Hr | reflexivity |]. intros _. apply erase_reset. }
  intros [] c1 Hf1 _ H1. rewrite <- (frame_ots_pub _ _ _ Hf1).
  assert (Hh0 : hs (layer r) = hs 0) by (rewrite Hl0; reflexivity). rewrite <- Hh0 in H1 |- *.
  apply fill_loop_ok; [exact Hr | rewrite H1; apply adding_reset |].
  intros i done c2 Hi Hf2 Had. rewrite Hh0 in *. pose proof (bottom_in_tree g i Hg Hi ltac:(lia)) as Hq.
  pose proof (geo_h _ _ _ Hgeo). pose proof (pow2_le25 h ltac:(lia)).
  rewrite u64_small, u32_small by lia. rewrite <- (frame_ots_pub _ _ _ Hf2).
  apply builds_or_return, push_leaf_ok; auto.
Qed.

(** The roots of [2^hs] neighbouring subtrees are the leaves of the one above. *)
Definition lower_roots (s g n : Z) : bytes := concat (map (fun k => val s g 0 k) (seqZ 0 n)).

Lemma root_is_leaf s g k :
  0 <= s -> s + 1 < N -> val s (g * 2 ^ hs (s + 1) + k) (hs s) 0 = val (s + 1) g 0 k.
Proof.
  intros Hs0 Hs. unfold node_val, node_num. pose proof (sub_height_range h j N Hgeo (s + 1)).
  pose proof (root_level_next h j N s Hs) as Hn. unfold root_level in Hn. fold (lvl s) in Hn. rewrite Hn.
  pose proof (root_level_range h j N Hgeo (s + 1) ltac:(lia)) as Hr. unfold root_level in Hr. fold (lvl (s + 1)) in Hr.
  rewrite Z.sub_diag, Z.pow_0_r, !Z.add_0_r, Z.sub_0_r, Z.mul_1_r. f_equal.
  rewrite (pow2_split (h - lvl (s + 1)) (hs (s + 1))) by lia.
  replace (h - lvl (s + 1) - hs (s + 1)) with (h - (lvl (s + 1) + hs (s + 1))) by lia. lia.
Qed.

Lemma segment_below s g k :
  0 <= s -> s + 1 < N -> segment (s + 1) g -> 0 <= k < 2 ^ hs (s + 1) -> segment s (g * 2 ^ hs (s + 1) + k).
Proof.
  intros Hs0 Hs Hg Hk. unfold segment in *. rewrite (root_level_next h j N s Hs).
  pose proof (root_level_range h j N Hgeo (s + 1) ltac:(lia)) as Hr.
  pose proof (sub_height_range h j N Hgeo (s + 1)).
  assert (He : rlvl (s + 1) = lvl (s + 1) + hs (s + 1)) by reflexivity.
  rewrite (pow2_split (h - lvl (s + 1)) (hs (s + 1))) by lia.
  replace (h - lvl (s + 1) - hs (s + 1)) with (h - rlvl (s + 1)) by lia. nia.
Qed.

Lemma build_upper_ok c r g :
  in_ctx N r -> segment (layer r) g ->
  builds (eq r) c (subtree_build_upper r (g * 2 ^ hs (layer r)) (lower_roots (layer r) g (2 ^ hs (layer r))))
    (fun _ c' => adding r g (2 ^ hs (layer r)) (sub_of c' r)).
Proof.
  intros Hr Hg Hc. unfold subtree_build_upper. pose proof (ctx_sub_shape c r Hc Hr) as Hshape. revert Hc.
  eapply builds_bind; [apply builds_get_ctx |]. intros ? c1 _ Hc [-> ->].
  eapply builds_bind; [apply builds_get_sub |]. intros ? c1 _ _ [-> ->]. rewrite (shape_height _ _ Hshape).
  rewrite (ctx_I _ _ _ _ _ _ _ _ _ Hc), (ctx_alg _ _ _ _ _ _ _ _ _ Hc), (ctx_n _ _ _ _ _ _ _ _ _ Hc).
  eapply builds_bind.
  { apply builds_put; [exact Hr | reflexivity |]. intros _. apply erase_reset. }
  intros [] c1 Hf1 _ H1. apply fill_loop_ok; [exact Hr | rewrite H1; apply adding_reset |].
  intros i done c2 Hi Hf2 Had. apply builds_or_return, add_next_node_ok; try assumption.
  apply (concat_slice (fun k => val (layer r) g 0 k)); [exact Hi |]. intros k Hk. apply node_val_len.
Qed.

(** ** [subtree_build_at] *)

(** What a rebuild of the subtree at [r] writes: itself, and the scratch subtrees below. *)
Definition writes (r : sub_ref) (x : sub_ref) : Prop :=
  x = r \/ exists s, 0 <= s < layer r /\ x = SubUpcoming s.

Lemma builds_self {A} r c (m : TM A) Q : builds (eq r) c m Q -> builds (writes r) c m Q.
Proof. intros Hm. apply (builds_mono _ _ _ _ _ _ _ _ _ _ _ _ _ Hm). intros x _ ->. left. reflexivity. Qed.

(** The rebuild sets the geometry to what it already is. *)
Lemma geometry_write_ok c r :
  ctx_ok c -> in_ctx N r ->
  erase ((sub_of c r) {{ st_level := u32 (layer r * tc_subtree_size c + st_height (sub_of c r));
                         st_levels_below := u32 (layer r * tc_subtree_size c);
                         st_tree_height := tc_height c }}) = erase (sub_of c r).
Proof.
  intros Hc Hr. pose proof (in_ctx_layer r Hr) as Hl.
  destruct (ctx_subs _ _ _ _ _ _ _ _ _ Hc r Hr) as [Hs H1 H2 H3]. pose proof (shape_height _ _ Hs) as H4.
  rewrite (ctx_j _ _ _ _ _ _ _ _ _ Hc), (ctx_height _ _ _ _ _ _ _ _ _ Hc), H4.
  pose proof (geo_h _ _ _ Hgeo). pose proof (root_level_range h j N Hgeo (layer r) Hl) as Hrl.
  pose proof (sub_height_range h j N Hgeo (layer r)). pose proof (leaf_level_nonneg h j N Hgeo (layer r) ltac:(lia)).
  unfold root_level, leaf_level in *. rewrite !u32_small by lia.
  destruct (sub_of c r). cbn in *. subst. reflexivity.
Qed.

Lemma frame_alloc W c c' : frame W c c' ->
  tc_alloc c' = tc_alloc c /\ tc_free c' = tc_free c /\ tc_alloc_ctx c' = tc_alloc_ctx c.
Proof.
  intros [Hsk _]. pose proof (f_equal tc_alloc Hsk) as H1. pose proof (f_equal tc_free Hsk) as H2.
  pose proof (f_equal tc_alloc_ctx Hsk) as H3. destruct c, c'. cbn in *. auto.
Qed.

(** The loop that collects the roots of the subtrees below [r]. *)
Lemma roots_loop_ok c r g (body : Z -> TM unit) s :
  in_ctx N r -> layer r = s + 1 -> 0 <= s -> segment (layer r) g ->
  (forall k c', 0 <= k < 2 ^ hs (layer r) -> frame (writes r) c c' ->
     builds (writes (SubUpcoming s)) c' (body k)
       (fun _ c' => adding (SubUpcoming s) (g * 2 ^ hs (s + 1) + k) (2 ^ hs s) (sub_of c' (SubUpcoming s)))) ->
  builds (writes r) c
    (loopM (Z.to_nat (2 ^ hs (layer r))) 0 (fun k roots =>
       or_return LMS_ERR_INVALID (body k) ;;
       lower ← get_sub (SubUpcoming s);
       mret (roots ++ node_at lower 1 LMS_N)) [])
    (fun roots _ => roots = lower_roots (layer r) g (2 ^ hs (layer r))).
Proof.
  intros Hr Hl Hs0 Hseg Hb. pose proof (in_ctx_layer r Hr) as Hlr.
  pose proof (sub_height_range h j N Hgeo (layer r)) as Hsh. pose proof (sub_height_range h j N Hgeo s) as Hsh'.
  pose proof (pow2_le25 (hs (layer r)) ltac:(lia)) as Hp.
  eapply builds_post; [apply (builds_loop _ _ _ _ _ _ _ _ _ _ _ _ (fun k roots _ => roots = lower_roots (layer r) g k)) |].
  - reflexivity.
  - intros k roots c' Hk Hf ->. rewrite Z2Nat.id in Hk by lia. eapply builds_bind.
    { apply builds_or_return. eapply builds_mono; [apply (Hb k c' ltac:(lia) Hf) |].
      intros x _ [-> | (s' & Hs' & ->)]; right; cbn [layer] in *; eexists; (split; [| reflexivity]); lia. }
    intros [] c1 _ _ Had. eapply builds_bind; [apply builds_get_sub |]. intros ? c2 _ _ [-> ->].
    apply builds_ret. intros _. unfold lower_roots. rewrite (seqZ_app 0 k 1), map_app, concat_app by lia.
    f_equal. change (seqZ (0 + k) 1) with [k]. cbn [map concat]. rewrite app_nil_r, Hl, <- root_is_leaf by lia.
    pose proof (filled_nodes _ _ _ _ _ _ _ _ _ _ (adding_filled _ _ _ _ Had) (hs s) 0) as Hn.
    cbn [layer] in Hn. rewrite <- Hn by lia. unfold local_of. rewrite Z.sub_diag. reflexivity.
  - intros roots c' _ _ ->. rewrite Z2Nat.id by lia. reflexivity.
Qed.

(** The first real leaf of the [k]-th subtree below, and the number of the first leaf at
    the level of the subtree's leaves. *)
Lemma lower_start s g k :
  0 <= s -> s + 1 < N -> segment s (g * 2 ^ hs (s + 1) + k) -> 0 <= k < 2 ^ hs (s + 1) -> 0 <= g ->
  u64 (g * 2 ^ rlvl (s + 1) + u64 (k * 2 ^ rlvl s)) = (g * 2 ^ hs (s + 1) + k) * 2 ^ rlvl s.
Proof.
  intros Hs0 Hs Hseg Hk Hg. unfold segment in Hseg. pose proof (geo_h _ _ _ Hgeo) as Hh0.
  pose proof (root_level_range h j N Hgeo s ltac:(lia)) as Hr.
  pose proof (sub_height_range h j N Hgeo (s + 1)) as Hsh.
  assert (He : 2 ^ rlvl (s + 1) = 2 ^ hs (s + 1) * 2 ^ rlvl s).
  { rewrite <- Z.pow_add_r by lia. f_equal. rewrite (root_level_next h j N s Hs). unfold root_level, leaf_level. lia. }
  pose proof (pow2_split h (rlvl s) ltac:(lia)) as Hsplit. pose proof (pow2_le25 h ltac:(lia)) as Hp.
  pose proof (pow2_pos (rlvl s) ltac:(lia)).
  assert (0 <= (g * 2 ^ hs (s + 1) + k) * 2 ^ rlvl s < 2 ^ h) by (rewrite Hsplit; nia).
  assert (0 <= k * 2 ^ rlvl s) by nia. assert (0 <= g * 2 ^ hs (s + 1)) by (pose proof (pow2_pos (hs (s + 1)) ltac:(lia)); nia).
  assert (0 <= g * 2 ^ hs (s + 1) * 2 ^ rlvl s) by nia.
  rewrite He. rewrite (u64_small (k * _)) by lia. rewrite u64_small by lia. lia.
Qed.

Lemma upper_start s g : 0 <= s < N -> (g * 2 ^ rlvl s) .>> lvl s = g * 2 ^ hs s.
Proof.
  intros Hs. pose proof (leaf_level_nonneg h j N Hgeo s ltac:(lia)). pose proof (sub_height_range h j N Hgeo s).
  change (rlvl s) with (lvl s + hs s).
  rewrite Z.shiftr_div_pow2, Z.add_comm, Z.pow_add_r, Z.mul_assoc, Z.div_mul by lia. reflexivity.
Qed.

Lemma build_at_ok priv (Hk : key_is priv) s : forall c r g,
  in_ctx N r -> layer r = Z.of_nat s -> segment (layer r) g ->
  builds (writes r) c (subtree_build_at s priv (ctx_ots_pub c) (g * 2 ^ rlvl (layer r)) r)
    (fun _ c' => adding r g (2 ^ hs (layer r)) (sub_of c' r)).
Proof.
  induction s as [| s IH]; intros c r g Hr Hl Hseg; pose proof (in_ctx_layer r Hr) as Hlr;
    pose proof (geo_h _ _ _ Hgeo) as Hh0; cbn [subtree_build_at];
    (eapply builds_bind; [apply builds_get_ctx |]); intros ? c1 _ Hc [-> ->]; rewrite <- Hl;
    (eapply builds_bind; [apply builds_put; [exact Hr | left; reflexivity |]; intros _; exact (geometry_write_ok c r Hc Hr) |]);
    intros [] c1 Hf1 Hc1 _; rewrite <- (frame_ots_pub _ _ _ Hf1).
  - change (Z.of_nat 0) with 0 in Hl. apply builds_self. rewrite Hl in Hseg |- *.
    replace (rlvl 0) with (hs 0) by (unfold root_level; lia).
    eapply builds_post; [apply build_bottom_ok; assumption | auto].
  - assert (Hs : layer r = Z.of_nat s + 1) by lia.
    assert (Hup : in_ctx N (SubUpcoming (Z.of_nat s))) by (cbn [in_ctx]; lia).
    pose proof (sub_height_range h j N Hgeo (layer r)) as Hsh.
    pose proof (root_level_range h j N Hgeo (layer r) Hlr) as Hrl.
    pose proof (root_level_range h j N Hgeo (Z.of_nat s) ltac:(lia)) as Hrl'.
    pose proof (leaf_level_nonneg h j N Hgeo (layer r) ltac:(lia)) as Hlv.
    assert (Hnext : rlvl (Z.of_nat s) = lvl (layer r)) by (rewrite Hs; apply root_level_next; lia).
    assert (Hrl_eq : rlvl (layer r) = lvl (layer r) + hs (layer r)) by reflexivity.
    pose proof (pow2_le25 (hs (layer r)) ltac:(lia)) as Hp.
    eapply builds_bind; [apply builds_get_sub |]. intros ? c2 _ _ [-> ->].
    eapply builds_bind; [apply builds_get_sub |]. intros ? c2 _ _ [-> ->].
    rewrite (shape_height _ _ (ctx_sub_shape c1 r Hc1 Hr)), (shape_height _ _ (ctx_sub_shape c1 _ Hc1 Hup)).
    cbn [layer]. rewrite (ctx_j _ _ _ _ _ _ _ _ _ Hc), (ctx_n _ _ _ _ _ _ _ _ _ Hc), !u32_shl1 by lia.
    change (layer r * j) with (lvl (layer r)).
    change (Z.of_nat s * j + hs (Z.of_nat s)) with (rlvl (Z.of_nat s)).
    rewrite (u32_small (rlvl _)), (u32_small (lvl _)), (u64_shl1 (rlvl _)) by lia.
    destruct (ctx_sources _ _ _ _ _ _ _ _ _ Hc) as [_ _ (alloc & free & Ha1 & Ha2 & Ha3 & Ha4 & Ha5)]. rewrite Ha1, Ha2.
    eapply builds_bind; [apply builds_alloc, Ha4 |]. intros p c2 _ _ [[d ->] ->].
    eapply builds_bind; [apply builds_guard; intros _ H; apply Z.eqb_eq in H; exact (Ha3 _ _ H) |].
    intros [] c2 _ _ [-> _].
    eapply builds_bind; [apply builds_attempt | intros rc c2 _ _ Hrc].
    { eapply builds_bind.
      - apply (roots_loop_ok c1 r g (fun k => subtree_build_at s priv (ctx_ots_pub c1)
          (u64 (g * 2 ^ rlvl (layer r) + u64 (k * 2 ^ rlvl (Z.of_nat s)))) (SubUpcoming (Z.of_nat s))) (Z.of_nat s) Hr Hs ltac:(lia) Hseg).
        intros k c2 Hkr Hf2. rewrite <- (frame_ots_pub _ _ _ Hf2).
        rewrite Hs in Hseg, Hkr. pose proof (segment_below (Z.of_nat s) g k ltac:(lia) ltac:(lia) Hseg Hkr) as Hseg'.
        replace (u64 _) with ((g * 2 ^ hs (Z.of_nat s + 1) + k) * 2 ^ rlvl (Z.of_nat s)); [apply (IH c2 (SubUpcoming (Z.of_nat s))); auto |].
        rewrite Hs. symmetry. apply lower_start; try assumption; try lia. apply Hseg.
      - intros roots c2 _ _ ->. apply builds_self.
        replace ((g * 2 ^ rlvl (layer r)) .>> lvl (layer r)) with (g * 2 ^ hs (layer r)).
        + apply build_upper_ok; assumption.
        + symmetry. apply upper_start. exact Hlr. }
    eapply builds_bind; [apply builds_free, Ha5 |]. intros [] c3 _ _ ->.
    destruct rc as [[] | e]; [apply builds_ret; intros _; exact Hrc | apply builds_fail; exact Hrc].
Qed.
End Build.
