(* ===== verification/SubtreeCache.v ===== *)
(** The cache of src/lms_subtree.c: one subtree per layer.  Moving the cache to an index
    and joining the siblings it holds gives the authentication path of the index. *)

From S2P Require Import Prelude Types HashApi Params Winternitz Spec LmOts LmOtsCorrect Tree Lms LmsCorrect VerifyCorrect Scheme Subtree SubtreeCorrect SubtreeTriples SubtreeBuild.

(** * Siblings *)

Lemma lxor_1_range m k : 0 <= m < 2 ^ k -> 1 <= k -> 0 <= Z.lxor m 1 < 2 ^ k.
Proof.
  intros Hm Hk. rewrite lxor_1 by lia. destruct (Z.even m) eqn:E.
  - pose proof (half_even m E). rewrite (pow2_split k 1) in * by lia. change (2 ^ 1) with 2 in *. lia.
  - pose proof (half_odd m E). lia.
Qed.

Lemma lxor_1_add a m : 0 <= a -> 0 <= m -> Z.lxor (2 * a + m) 1 = 2 * a + Z.lxor m 1.
Proof.
  intros Ha Hm. rewrite !lxor_1 by lia. rewrite Z.even_add, Z.even_mul. cbn [Z.even orb eqb].
  destruct (Z.even m); cbn; lia.
Qed.

Lemma lxor_1_add_pow b k m : 0 <= b -> 0 <= m -> 1 <= k -> Z.lxor (b * 2 ^ k + m) 1 = b * 2 ^ k + Z.lxor m 1.
Proof.
  intros Hb Hm Hk. rewrite (pow2_split k 1) by lia. change (2 ^ 1) with 2.
  replace (b * (2 ^ (k - 1) * 2)) with (2 * (b * 2 ^ (k - 1))) by lia.
  apply lxor_1_add; [pose proof (pow2_pos (k - 1) ltac:(lia)); nia | exact Hm].
Qed.

Section Cache.
Context `{P : Platform} `{Hh : HashApi}.
Variable F : Prop.
Variable B : backends.
Variable lp : lms_param_t.
Variable op : lmots_param_t.
Variable I_ seed : bytes.
Variables j N : Z.
Hypothesis HB : backends_sound F I_ seed B.
Hypothesis Hgeo : geometry (lms_p_height lp) j N.
Hypothesis HI : ident I_.
Hypothesis Ha : available (ots_p_hash_alg op).
Abbreviation h := (lms_p_height lp).
Abbreviation alg := (ots_p_hash_alg op).
Abbreviation T := (tree_spec alg op h I_ seed).
Abbreviation hs := (sub_height h j N).
Abbreviation lvl := (leaf_level j).
Abbreviation rlvl := (root_level h j N).
Abbreviation ctx_ok := (ctx_ok F B lp op I_ seed j N).
Abbreviation builds := (builds F B lp op I_ seed j N).
Abbreviation frame := (frame N).
Abbreviation val s := (node_val alg op h I_ seed (hs s) (lvl s)).
Abbreviation filled s := (filled alg op h I_ seed (hs s) (lvl s)).
Abbreviation adding := (adding lp op I_ seed j N).
Abbreviation segment := (segment lp j N).
Abbreviation key_is := (key_is lp op I_ seed).

(** A complete subtree, whatever it is now said to cover. *)
Definition complete (s g : Z) (sub : lms_subtree_t) : Prop := filled s g (2 ^ hs s) sub.

(** The subtree of layer [s] above leaf [q]. *)
Definition seg_of (s q : Z) : Z := q / 2 ^ rlvl s.

Lemma seg_of_segment s q : 0 <= s < N -> 0 <= q < 2 ^ h -> segment s (seg_of s q).
Proof.
  intros Hs Hq. pose proof (root_level_range h j N Hgeo s Hs) as Hr. unfold seg_of.
  pose proof (pow2_pos (rlvl s) ltac:(lia)). rewrite (pow2_split h (rlvl s)) in Hq by lia.
  split; [apply Z.div_pos; lia | apply Z.div_lt_upper_bound; lia].
Qed.

(** The position, within its subtree of layer [s], of the ancestor of leaf [q] at height
    [i] of that subtree. *)
Definition offset (s q i : Z) : Z := q / 2 ^ (lvl s + i) - seg_of s q * 2 ^ (hs s - i).

Section Offset.
Variables s q : Z.
Hypothesis Hs : 0 <= s < N.
Hypothesis Hq : 0 <= q < 2 ^ h.

Lemma layer_facts : 1 <= hs s <= 25 /\ 0 <= lvl s /\ rlvl s = lvl s + hs s /\ rlvl s <= h <= 25.
Proof.
  pose proof (root_level_range h j N Hgeo s Hs). pose proof (geo_h _ _ _ Hgeo).
  pose proof (sub_height_range h j N Hgeo s). pose proof (leaf_level_nonneg h j N Hgeo s ltac:(lia)).
  repeat split; try lia.
Qed.

Lemma offset_mod i : 0 <= i <= hs s -> offset s q i = (q / 2 ^ (lvl s + i)) mod 2 ^ (hs s - i).
Proof.
  intros Hi. destruct layer_facts as (H1 & H2 & H3 & H4). unfold offset, seg_of.
  pose proof (pow2_pos (hs s - i) ltac:(lia)). pose proof (pow2_pos (lvl s + i) ltac:(lia)).
  replace (rlvl s) with (lvl s + i + (hs s - i)) by lia.
  rewrite (Z.pow_add_r 2 (lvl s + i) (hs s - i)), <- Z.div_div by lia.
  rewrite Z.mod_eq by lia. lia.
Qed.

Lemma offset_range i : 0 <= i <= hs s -> 0 <= offset s q i < 2 ^ (hs s - i).
Proof.
  intros Hi. destruct layer_facts as (H1 & H2 & H3 & H4). rewrite offset_mod by lia.
  apply Z.mod_pos_bound. pose proof (pow2_pos (hs s - i) ltac:(lia)). lia.
Qed.

Lemma offset_half i : 0 <= i < hs s -> local_of (hs s) i (offset s q i) / 2 = local_of (hs s) (i + 1) (offset s q (i + 1)).
Proof.
  intros Hi. destruct layer_facts as (H1 & H2 & H3 & H4).
  destruct (parent_local (hs s) i (offset s q i) ltac:(lia) (offset_range i ltac:(lia))) as [Hp _].
  rewrite Z.shiftr_div_pow2 in Hp by lia. change (2 ^ 1) with 2 in Hp. unfold local_of in *. rewrite Hp.
  f_equal. unfold offset. pose proof (pow2_pos (lvl s + i) ltac:(lia)).
  replace (lvl s + (i + 1)) with (lvl s + i + 1) by lia.
  rewrite (Z.pow_add_r 2 (lvl s + i) 1), <- Z.div_div by lia. change (2 ^ 1) with 2.
  rewrite (pow2_split (hs s - i) 1) by lia. change (2 ^ 1) with 2.
  replace (hs s - i - 1) with (hs s - (i + 1)) by lia.
  replace (q / 2 ^ (lvl s + i) - seg_of s q * (2 ^ (hs s - (i + 1)) * 2))
    with (q / 2 ^ (lvl s + i) + (- (seg_of s q * 2 ^ (hs s - (i + 1)))) * 2) by lia.
  rewrite Z.div_add by lia. lia.
Qed.

(** The ancestor's number in the whole tree. *)
Lemma offset_num i : 0 <= i <= hs s ->
  (2 ^ h + q) / 2 ^ (lvl s + i) = (2 ^ (h - rlvl s) + seg_of s q) * 2 ^ (hs s - i) + offset s q i.
Proof.
  intros Hi. destruct layer_facts as (H1 & H2 & H3 & H4). unfold offset.
  pose proof (pow2_pos (lvl s + i) ltac:(lia)).
  rewrite (pow2_split h (lvl s + i)), Z.div_add_l by lia.
  replace (h - (lvl s + i)) with (h - rlvl s + (hs s - i)) by lia. rewrite Z.pow_add_r by lia. lia.
Qed.

Lemma sibling_node sub i :
  complete s (seg_of s q) sub -> 0 <= i < hs s ->
  node_at sub (local_of (hs s) i (offset s q i) ^^ 1) LMS_N
  = T (Z.to_nat (lvl s + i)) (sibling_num h q (lvl s + i)).
Proof.
  intros Hfil Hi. destruct layer_facts as (H1 & H2 & H3 & H4). pose proof (offset_range i ltac:(lia)) as Hm.
  pose proof (lxor_1_range (offset s q i) (hs s - i) Hm ltac:(lia)) as Hx.
  assert (Hg : 0 <= seg_of s q) by (apply (seg_of_segment s q Hs Hq)).
  pose proof (pow2_pos (h - rlvl s) ltac:(lia)). pose proof (pow2_pos (hs s - i) ltac:(lia)).
  unfold local_of. rewrite <- (Z.mul_1_l (2 ^ (hs s - i))) at 1. rewrite lxor_1_add_pow, Z.mul_1_l by lia.
  change (2 ^ (hs s - i) + Z.lxor (offset s q i) 1) with (local_of (hs s) i (Z.lxor (offset s q i) 1)).
  rewrite (filled_nodes _ _ _ _ _ _ _ _ _ _ Hfil) by
    (try lia; rewrite (pow2_split (hs s) i) by lia; pose proof (pow2_pos i ltac:(lia)); nia).
  unfold node_val, sibling_num, node_num. f_equal. rewrite offset_num, lxor_1_add_pow by lia. reflexivity.
Qed.

(** The siblings one layer contributes, from height [i]. *)
Lemma path_layer_ok sub k : forall i,
  complete s (seg_of s q) sub -> 0 <= i -> i + Z.of_nat k = hs s ->
  path_layer k sub LMS_N (local_of (hs s) i (offset s q i))
  = concat (map (fun l => T (Z.to_nat l) (sibling_num h q l)) (seqZ (lvl s + i) (Z.of_nat k))).
Proof.
  induction k as [| k IH]; intros i Hfil Hi Hik; [reflexivity |].
  rewrite Nat2Z.inj_succ, seqZ_cons by lia. cbn [path_layer map concat].
  rewrite sibling_node, offset_half by (assumption || lia). f_equal.
  replace (Z.pred (Z.succ (Z.of_nat k))) with (Z.of_nat k) by lia.
  replace (Z.succ (lvl s + i)) with (lvl s + (i + 1)) by lia. apply IH; assumption || lia.
Qed.
End Offset.

(** ** The path of an index every layer covers *)

Definition covers (q : Z) (c : lms_tree_ctx_t) : Prop :=
  forall s, 0 <= s < N -> complete s (seg_of s q) (sub_of c (SubActive s)).

Lemma path_layers_ok c q n : forall s,
  ctx_ok c -> 0 <= q < 2 ^ h -> covers q c -> 0 <= s -> s + Z.of_nat n = N ->
  path_layers n s c (q / 2 ^ lvl s)
  = concat (map (fun l => T (Z.to_nat l) (sibling_num h q l)) (seqZ (lvl s) (match n with O => 0 | S _ => h - lvl s end))).
Proof.
  induction n as [| n IH]; intros s Hc Hq Hcov Hs Hn; [reflexivity |]. cbn [path_layers].
  destruct (layer_facts s ltac:(lia)) as (H1 & H2 & H3 & H4).
  pose proof (shape_height _ _ (ctx_sub_shape _ _ _ _ _ _ _ _ c (SubActive s) Hc ltac:(cbn; lia))) as Hh1.
  cbn [layer] in Hh1. rewrite Hh1, (ctx_n _ _ _ _ _ _ _ _ _ Hc), u32_shl1 by lia.
  pose proof (pow2_le25 (hs s) ltac:(lia)) as Hp. pose proof (pow2_pos (lvl s) ltac:(lia)).
  assert (Hoff : q / 2 ^ lvl s .& (2 ^ hs s - 1) = offset s q 0).
  { replace (2 ^ hs s - 1) with (Z.ones (hs s)) by (rewrite Z.ones_equiv; lia).
    rewrite Z.land_ones, offset_mod, Z.add_0_r, Z.sub_0_r by lia. reflexivity. }
  pose proof (offset_range s q ltac:(lia) 0 ltac:(lia)) as Hr. rewrite Z.sub_0_r in Hr.
  rewrite Hoff, (u32_small (offset s q 0)), u32_small by lia.
  replace (2 ^ hs s + offset s q 0) with (local_of (hs s) 0 (offset s q 0)) by (unfold local_of; rewrite Z.sub_0_r; reflexivity).
  rewrite path_layer_ok by (try (apply Hcov); lia). rewrite Z.add_0_r, Z2Nat.id by lia.
  rewrite Z.shiftr_div_pow2, Z.div_div, <- Z.pow_add_r by lia.
  destruct n as [| n'].
  - cbn [path_layers]. rewrite app_nil_r. do 3 f_equal. replace s with (N - 1) in * by lia.
    rewrite root_level_top in H3. lia.
  - pose proof (root_level_next h j N s ltac:(lia)) as Hnx. rewrite <- H3, Hnx.
    rewrite (IH (s + 1)) by (assumption || lia).
    rewrite <- Hnx, H3, <- concat_app, <- map_app. f_equal. f_equal.
    replace (h - lvl s) with (hs s + (h - (lvl s + hs s))) by lia. rewrite seqZ_app by lia. reflexivity.
Qed.

Lemma auth_path_ok c q path :
  ctx_ok c -> 0 <= q < 2 ^ h -> covers q c -> path <> NULL ->
  lms_tree_auth_path (Some c) q path = Ok (auth_path_spec alg op h I_ seed q).
Proof.
  intros Hc Hq Hcov Hp. unfold lms_tree_auth_path. pose proof (geo_N _ _ _ Hgeo). pose proof (geo_h _ _ _ Hgeo).
  rewrite (ctx_height _ _ _ _ _ _ _ _ _ Hc), (ctx_N _ _ _ _ _ _ _ _ _ Hc), u64_shl1 by lia.
  destruct (Z.eqb_spec path NULL) as [| _]; [contradiction |].
  destruct (Z.eqb_spec (tc_levels c) NULL) as [E | _]; [destruct (ctx_levels _ _ _ _ _ _ _ _ _ Hc E) |].
  destruct (Z.eqb_spec N 0) as [| _]; [lia |]. destruct (Z.leb_spec (2 ^ h) q) as [| _]; [lia |]. cbn [orb].
  pose proof (path_layers_ok c q (Z.to_nat N) 0 Hc Hq Hcov ltac:(lia) ltac:(lia)) as Hpl.
  unfold leaf_level in Hpl. rewrite Z.mul_0_l, Z.div_1_r, Z.sub_0_r in Hpl. rewrite Hpl.
  destruct (Z.to_nat N) eqn:E; [lia | reflexivity].
Qed.

(** ** The invariant of the cache *)

(** If the subtree of layer [s] claims leaves of the tree, it holds their nodes. *)
Definition cached (s : Z) (sub : lms_subtree_t) : Prop :=
  exists g, left_leaf sub = g * 2 ^ hs s /\ 0 <= g <= 2 ^ (h - rlvl s) /\ (segment s g -> complete s g sub).

(** The top subtree is never rebuilt: it holds the top of the tree. *)
Definition cache_ok (c : lms_tree_ctx_t) : Prop :=
  (forall s, 0 <= s < N - 1 -> cached s (sub_of c (SubActive s))) /\
  complete (N - 1) 0 (sub_of c (SubActive (N - 1))).

Definition points_at (s q : Z) (sub : lms_subtree_t) : Prop :=
  left_leaf sub = seg_of s q * 2 ^ hs s /\ complete s (seg_of s q) sub.

Lemma points_at_cached s q sub : 0 <= s < N -> 0 <= q < 2 ^ h -> points_at s q sub -> cached s sub.
Proof.
  intros Hs Hq [Hl Hc]. exists (seg_of s q). pose proof (seg_of_segment s q Hs Hq) as Hg.
  unfold SubtreeBuild.segment in Hg. split; [exact Hl |]. split; [lia | intros _; exact Hc].
Qed.

Lemma seg_of_top q : 0 <= q < 2 ^ h -> seg_of (N - 1) q = 0.
Proof. intros Hq. unfold seg_of. rewrite root_level_top. apply Z.div_small, Hq. Qed.

Lemma covers_of_points c q :
  0 <= q < 2 ^ h -> (forall s, 0 <= s < N - 1 -> points_at s q (sub_of c (SubActive s))) ->
  complete (N - 1) 0 (sub_of c (SubActive (N - 1))) -> covers q c.
Proof.
  intros Hq Hp Ht s Hs. destruct (Z.eq_dec s (N - 1)) as [-> | Hne].
  - rewrite seg_of_top by exact Hq. exact Ht.
  - apply Hp. lia.
Qed.

(** The first leaf a subtree claims; the test of [lms_tree_sign_advance]. *)
Lemma leaf_lo_ok c s g :
  ctx_ok c -> 0 <= s < N -> left_leaf (sub_of c (SubActive s)) = g * 2 ^ hs s -> 0 <= g <= 2 ^ (h - rlvl s) ->
  subtree_leaf_lo (sub_of c (SubActive s)) = g * 2 ^ rlvl s /\
  subtree_leaf_span (sub_of c (SubActive s)) = 2 ^ rlvl s /\ 0 <= g * 2 ^ rlvl s <= 2 ^ h.
Proof.
  intros Hc Hs Hl Hg. destruct (layer_facts s Hs) as (H1 & H2 & H3 & H4).
  destruct (ctx_subs _ _ _ _ _ _ _ _ _ Hc (SubActive s) Hs) as [Hshape Hlev _ _]. cbn [layer] in *.
  pose proof (pow2_le25 h ltac:(lia)). pose proof (pow2_pos (rlvl s) ltac:(lia)). pose proof (pow2_pos (hs s) ltac:(lia)).
  assert (Hrange : 0 <= g * 2 ^ rlvl s <= 2 ^ h) by (rewrite (pow2_split h (rlvl s)) by lia; nia).
  unfold subtree_leaf_lo, subtree_leaf_span. rewrite (shape_height _ _ Hshape), Hlev, Hl, <- H3.
  rewrite Z.shiftr_div_pow2, Z.div_mul, Z.shiftl_mul_pow2, u64_shl1, u64_small by lia. auto.
Qed.

Lemma hit_iff g q k : 0 <= k <= 25 -> 0 <= q < 2 ^ 25 -> 0 <= g -> g * 2 ^ k <= 2 ^ 25 ->
  (u64 (q - g * 2 ^ k) <? 2 ^ k) = (g =? q / 2 ^ k).
Proof.
  intros Hk Hq Hg Hgk. pose proof (pow2_le25 k Hk) as Hp.
  pose proof (Z.div_mod q (2 ^ k) ltac:(lia)) as Hd. pose proof (Z.mod_pos_bound q (2 ^ k) ltac:(lia)) as Hm.
  destruct (Z.eqb_spec g (q / 2 ^ k)) as [-> | Hne].
  - apply Z.ltb_lt. rewrite u64_small; nia.
  - apply Z.ltb_ge. assert (Hcase : g < q / 2 ^ k \/ q / 2 ^ k < g) by lia. destruct Hcase as [Hlt | Hgt].
    + rewrite u64_small; nia.
    + assert (q - g * 2 ^ k < 0) by nia.
      rewrite u64_mod, <- (Z.mod_add _ 1) by lia. rewrite Z.mod_small; lia.
Qed.

Lemma advance_layer_ok c c0 priv q s :
  key_is priv -> 0 <= q < 2 ^ h -> 0 <= s < N - 1 -> ctx_ots_pub c0 = ctx_ots_pub c ->
  cached s (sub_of c (SubActive s)) ->
  builds (writes (SubActive s)) c (advance_layer c0 priv q s)
    (fun _ c' => points_at s q (sub_of c' (SubActive s))).
Proof.
  intros Hk Hq Hs Hsrc (g & Hl & Hg & Hcomp) Hc. unfold advance_layer.
  destruct (layer_facts s ltac:(lia)) as (H1 & H2 & H3 & H4). pose proof (pow2_le25 h ltac:(lia)) as Hph.
  destruct (leaf_lo_ok c s g Hc ltac:(lia) Hl Hg) as (Hlo & Hspan & Hrange). revert Hc.
  eapply builds_bind; [apply builds_get_sub |]. intros ? c1 _ _ [-> ->]. rewrite Hlo, Hspan.
  rewrite hit_iff by lia. fold (seg_of s q). pose proof (seg_of_segment s q ltac:(lia) Hq) as Hseg.
  destruct (Z.eqb_spec g (seg_of s q)) as [-> | Hne].
  - apply builds_ret. intros _. split; [exact Hl | exact (Hcomp Hseg)].
  - pose proof (pow2_pos (rlvl s) ltac:(lia)).
    pose proof (Z.div_mod q (2 ^ rlvl s) ltac:(lia)) as Hd. pose proof (Z.mod_pos_bound q (2 ^ rlvl s) ltac:(lia)).
    unfold SubtreeBuild.segment in Hseg. rewrite u64_small by (unfold seg_of in *; nia). rewrite Hsrc.
    eapply builds_post; [apply builds_or_return, (build_at_ok F B lp op I_ seed j N HB Hgeo HI Ha priv Hk
      (Z.to_nat s) c (SubActive s) (seg_of s q)) |]; cbn [layer in_ctx]; [lia | lia | exact Hseg |].
    intros [] c2 _ _ [Hl2 _ Hf2]. split; [exact Hl2 | exact Hf2].
Qed.

(** What a rebuild in layer [s] leaves alone. *)
Lemma frame_other_active c c' s s' :
  frame (writes (SubActive s)) c c' -> 0 <= s' < N -> s' <> s -> sub_of c' (SubActive s') = sub_of c (SubActive s').
Proof.
  intros Hf Hs' Hne. apply (frame_subs _ _ _ _ Hf); [exact Hs' |].
  intros [E | (s2 & _ & E)]; [injection E; lia | discriminate].
Qed.

Definition anywhere (r : sub_ref) : Prop := True.

Lemma check_tree_call_ok c priv ctx :
  ctx <> NULL -> key_is priv ->
  builds anywhere c (check_tree_call ctx (Some priv)) (fun a c' => a = (c, priv) /\ c' = c).
Proof.
  intros Hctx Hk. unfold check_tree_call.
  eapply builds_bind; [apply builds_get_ctx |]. intros ? c1 _ Hc [-> ->].
  eapply builds_bind.
  { apply builds_guard. intros _ H. apply orb_true_iff in H as [H | H]; apply Z.eqb_eq in H;
      [contradiction | destruct (ctx_levels _ _ _ _ _ _ _ _ _ Hc H)]. }
  intros [] c1 _ _ [-> _]. eapply builds_bind.
  { apply builds_guard. intros _ H. apply negb_true_iff, Z.eqb_neq in H.
    rewrite (ctx_type _ _ _ _ _ _ _ _ _ Hc), (key_type lp op I_ seed priv Hk) in H. contradiction. }
  intros [] c1 _ _ [-> _]. apply builds_ret. auto.
Qed.

(** ** The operations on the cache *)

Lemma builds_anywhere {A} W c (m : TM A) Q : builds W c m Q -> builds anywhere c m Q.
Proof. intros Hm. apply (builds_mono _ _ _ _ _ _ _ _ _ _ _ _ _ Hm). intros r _ _. exact I. Qed.

Lemma sign_advance_ok c ctx priv q :
  ctx <> NULL -> key_is priv -> 0 <= q < 2 ^ h -> cache_ok c ->
  builds anywhere c (lms_tree_sign_advance ctx (Some priv) q) (fun _ c' => cache_ok c' /\ covers q c').
Proof.
  intros Hctx Hk Hq [Hcache Htop]. pose proof (geo_N _ _ _ Hgeo) as HN. unfold lms_tree_sign_advance.
  eapply builds_bind; [apply check_tree_call_ok; assumption |]. intros ? c1 _ Hc [-> ->].
  pose proof (geo_h _ _ _ Hgeo). rewrite (ctx_height _ _ _ _ _ _ _ _ _ Hc), (ctx_N _ _ _ _ _ _ _ _ _ Hc), u64_shl1 by lia.
  eapply builds_bind; [apply builds_guard; intros _ H'; apply Z.leb_le in H'; lia |]. intros [] c1 _ _ [-> _].
  eapply builds_post.
  - apply (builds_loop _ _ _ _ _ _ _ _ _ _ _ _ (fun k _ c' =>
      (forall s, 0 <= s < k -> points_at s q (sub_of c' (SubActive s))) /\
      (forall s, k <= s < N - 1 -> cached s (sub_of c' (SubActive s))) /\
      complete (N - 1) 0 (sub_of c' (SubActive (N - 1))))).
    + split; [intros; lia |]. split; [intros s Hs; apply Hcache; lia | exact Htop].
    + intros k [] c2 Hk2 Hf (Hpre & Hpost & Ht2).
      apply (builds_anywhere (writes (SubActive k))).
      intros Hc2. eapply vtriple_post;
        [apply (advance_layer_ok c2 c priv q k); [assumption | assumption | lia | | apply Hpost; lia | exact Hc2] |].
      { symmetry. exact (frame_ots_pub _ _ _ _ Hf). }
      intros [] c3 [Hf3 Hp]. split; [exact Hf3 |].
      split; [| split].
      * intros s Hs. destruct (Z.eq_dec s k) as [-> | Hne]; [exact Hp |].
        rewrite (frame_other_active c2 c3 k s Hf3) by lia. apply Hpre. lia.
      * intros s Hs. rewrite (frame_other_active c2 c3 k s Hf3) by lia. apply Hpost. lia.
      * rewrite (frame_other_active c2 c3 k (N - 1) Hf3) by lia. exact Ht2.
  - intros [] c2 _ _ (Hpre & _ & Ht2). rewrite Z2Nat.id, Z.add_0_l in Hpre by lia. split.
    + split; [| exact Ht2]. intros s Hs. apply (points_at_cached s q); [lia | exact Hq | apply Hpre; lia].
    + apply covers_of_points; [exact Hq | exact Hpre | exact Ht2].
Qed.

Lemma auth_path_backend_ok c ctx priv q path :
  ctx <> NULL -> path <> NULL -> key_is priv -> 0 <= q < 2 ^ h -> cache_ok c ->
  builds anywhere c (lms_subtree_auth_path_backend ctx (Some priv) q path)
    (fun out c' => out = auth_path_spec alg op h I_ seed q /\ cache_ok c').
Proof.
  intros Hctx Hp Hk Hq Hcache. unfold lms_subtree_auth_path_backend.
  eapply builds_bind.
  { apply builds_guard. intros _ H. apply orb_true_iff in H as [H | H]; apply Z.eqb_eq in H; contradiction. }
  intros [] c1 _ _ [-> _].
  eapply builds_bind; [apply builds_or_return, sign_advance_ok; assumption |]. intros [] c1 _ _ [Hca Hcov].
  eapply builds_bind; [apply builds_get_ctx |]. intros ? c2 _ Hc [-> ->].
  unfold lms_tree_sign_auth_path. destruct (Z.eqb_spec path NULL) as [| _]; [contradiction |].
  destruct (Z.eqb_spec (tc_levels c1) NULL) as [E | _]; [destruct (ctx_levels _ _ _ _ _ _ _ _ _ Hc E) |].
  cbn [orb]. rewrite auth_path_ok by assumption. apply builds_ret. auto.
Qed.

(** [lms_tree_sign_init] puts every layer at the leaf 0. *)
Definition at_start (c : lms_tree_ctx_t) : Prop :=
  forall s, 0 <= s < N -> adding (SubActive s) 0 (2 ^ hs s) (sub_of c (SubActive s)).

Lemma first_segment s : 0 <= s < N -> segment s 0.
Proof.
  intros Hs. pose proof (root_level_range h j N Hgeo s Hs). unfold SubtreeBuild.segment.
  pose proof (pow2_pos (h - rlvl s) ltac:(lia)). lia.
Qed.

Lemma sign_init_start c ctx priv :
  ctx <> NULL -> key_is priv -> builds anywhere c (lms_tree_sign_init ctx (Some priv)) (fun _ c' => at_start c').
Proof.
  intros Hctx Hk. pose proof (geo_N _ _ _ Hgeo) as HN. unfold lms_tree_sign_init.
  eapply builds_bind; [apply check_tree_call_ok; assumption |]. intros ? c1 _ Hc [-> ->].
  rewrite (ctx_N _ _ _ _ _ _ _ _ _ Hc).
  eapply builds_post.
  - apply (builds_loop _ _ _ _ _ _ _ _ _ _ _ _ (fun k _ c' =>
      forall s, 0 <= s < k -> adding (SubActive s) 0 (2 ^ hs s) (sub_of c' (SubActive s)))); [intros; lia |].
    intros k [] c2 Hk2 Hf Hpre. rewrite Z2Nat.id in Hk2 by lia. apply (builds_anywhere (writes (SubActive k))).
    rewrite <- (frame_ots_pub _ _ _ _ Hf). change 0 with (0 * 2 ^ rlvl k) at 1. apply builds_or_return.
    intros Hc2. eapply vtriple_post; [apply (build_at_ok F B lp op I_ seed j N HB Hgeo HI Ha priv Hk
      (Z.to_nat k) c2 (SubActive k) 0) |]; cbn [layer in_ctx]; [lia | lia | apply first_segment; lia | exact Hc2 |].
    intros [] c3 [Hf3 Had]. split; [exact Hf3 |]. intros s Hs.
    destruct (Z.eq_dec s k) as [-> | Hne]; [exact Had |].
    rewrite (frame_other_active c2 c3 k s Hf3) by lia. apply Hpre. lia.
  - intros [] c2 _ _ Hall s Hs. apply Hall. lia.
Qed.

Lemma at_start_cache c : at_start c -> cache_ok c.
Proof.
  intros Hall. pose proof (geo_N _ _ _ Hgeo) as HN. split.
  - intros s Hs. destruct (Hall s ltac:(lia)) as [Hl _ Hfil]. exists 0. cbn [layer] in *.
    pose proof (first_segment s ltac:(lia)) as Hz. unfold SubtreeBuild.segment in Hz.
    split; [exact Hl |]. split; [lia | intros _; exact Hfil].
  - exact (adding_filled _ _ _ _ _ _ _ _ _ _ (Hall (N - 1) ltac:(lia))).
Qed.

Lemma sign_init_ok c ctx priv :
  ctx <> NULL -> key_is priv -> builds anywhere c (lms_tree_sign_init ctx (Some priv)) (fun _ c' => cache_ok c').
Proof.
  intros Hctx Hk. eapply builds_post; [apply sign_init_start; assumption |].
  intros ? c' _ _. apply at_start_cache.
Qed.
End Cache.
