(* ===== verification/SubtreeKeygen.v ===== *)
(** [lms_tree_keygen_root] (src/lms_subtree.c): one pass over the leaves, every layer
    holding one subtree under construction, ends with the root of the tree. *)

From S2P Require Import Prelude Types HashApi Params Winternitz Spec LmOts LmOtsCorrect Tree Lms LmsCorrect VerifyCorrect Scheme Subtree SubtreeCorrect SubtreeTriples SubtreeBuild SubtreeCache.

(** Counting up: the next number is in the same block of [2^k], or starts a new one. *)
Lemma succ_div_open p k : 0 <= p -> 0 <= k -> p mod 2 ^ k + 1 < 2 ^ k ->
  (p + 1) / 2 ^ k = p / 2 ^ k /\ (p + 1) mod 2 ^ k = p mod 2 ^ k + 1.
Proof.
  intros Hp Hk Ho. pose proof (pow2_pos k Hk). pose proof (Z.div_mod p (2 ^ k) ltac:(lia)) as Hd.
  pose proof (Z.mod_pos_bound p (2 ^ k) ltac:(lia)).
  assert (Hq : (p + 1) / 2 ^ k = p / 2 ^ k).
  { symmetry. apply (Z.div_unique_pos _ _ _ (p mod 2 ^ k + 1)); lia. }
  split; [exact Hq |]. rewrite Z.mod_eq, Hq by lia. lia.
Qed.

Lemma succ_div_full p k : 0 <= p -> 0 <= k -> p mod 2 ^ k + 1 = 2 ^ k ->
  (p + 1) / 2 ^ k = p / 2 ^ k + 1 /\ (p + 1) mod 2 ^ k = 0.
Proof.
  intros Hp Hk Ho. pose proof (pow2_pos k Hk). pose proof (Z.div_mod p (2 ^ k) ltac:(lia)) as Hd.
  assert (Hq : (p + 1) / 2 ^ k = p / 2 ^ k + 1).
  { symmetry. apply (Z.div_unique_pos _ _ _ 0); lia. }
  split; [exact Hq |]. rewrite Z.mod_eq, Hq by lia. lia.
Qed.

Section Keygen.
Context `{P : Platform} `{Hh : HashApi}.
Variable F : Prop.
Variable B : backends.
Variable lp : lms_param_t.
Variable op : lmots_param_t.
Variable I_ seed : bytes.
Variables j N : Z.
Hypothesis HB : backends_sound F I_ seed B.
Hypothesis Hgeo : geometry (lms_p_height lp) j N.
Hypothesis HI : ident I_.
Hypothesis Ha : available (ots_p_hash_alg op).
Abbreviation h := (lms_p_height lp).
Abbreviation alg := (ots_p_hash_alg op).
Abbreviation T := (tree_spec alg op h I_ seed).
Abbreviation hs := (sub_height h j N).
Abbreviation lvl := (leaf_level j).
Abbreviation rlvl := (root_level h j N).
Abbreviation ctx_ok := (ctx_ok F B lp op I_ seed j N).
Abbreviation builds := (builds F B lp op I_ seed j N).
Abbreviation frame := (frame N).
Abbreviation val s := (node_val alg op h I_ seed (hs s) (lvl s)).
Abbreviation filled s := (filled alg op h I_ seed (hs s) (lvl s)).
Abbreviation adding := (adding lp op I_ seed j N).
Abbreviation segment := (segment lp j N).
Abbreviation key_is := (key_is lp op I_ seed).
Abbreviation complete := (complete lp op I_ seed j N).
Abbreviation cache_ok := (cache_ok lp op I_ seed j N).

(** The subtree of layer [s] after [p] nodes of its level of leaves. *)
Record stream (s p : Z) (sub : lms_subtree_t) : Prop := {
  stream_adding : adding (SubActive s) (p / 2 ^ hs s) (p mod 2 ^ hs s) sub;
  stream_last : p mod 2 ^ hs s = 0 -> 0 < p -> complete s (p / 2 ^ hs s - 1) sub
}.

Section Layer.
Variables s p : Z.
Hypothesis Hs : 0 <= s < N.
Hypothesis Hp : 0 <= p < 2 ^ (h - lvl s).

Lemma stream_segment : segment s (p / 2 ^ hs s).
Proof.
  destruct (layer_facts lp j N Hgeo s Hs) as (H1 & H2 & H3 & H4). unfold SubtreeBuild.segment.
  pose proof (pow2_pos (hs s) ltac:(lia)).
  split; [apply Z.div_pos; lia | apply Z.div_lt_upper_bound; [lia |]].
  rewrite <- Z.pow_add_r by lia. replace (hs s + (h - rlvl s)) with (h - lvl s) by lia. apply Hp.
Qed.

Lemma stream_leaf : T (Z.to_nat (lvl s)) (2 ^ (h - lvl s) + p) = val s (p / 2 ^ hs s) 0 (p mod 2 ^ hs s).
Proof.
  destruct (layer_facts lp j N Hgeo s Hs) as (H1 & H2 & H3 & H4). pose proof (pow2_pos (hs s) ltac:(lia)).
  unfold node_val, node_num. rewrite Z.add_0_r, Z.sub_0_r. f_equal.
  pose proof (Z.div_mod p (2 ^ hs s) ltac:(lia)) as Hd.
  rewrite (pow2_split (h - lvl s) (hs s)) by lia.
  replace (h - lvl s - hs s) with (h - (lvl s + hs s)) by lia. lia.
Qed.

Lemma stream_open sub :
  adding (SubActive s) (p / 2 ^ hs s) (p mod 2 ^ hs s + 1) sub -> p mod 2 ^ hs s + 1 < 2 ^ hs s -> stream s (p + 1) sub.
Proof.
  intros Had Ho. destruct (layer_facts lp j N Hgeo s Hs) as (H1 & H2 & H3 & H4).
  destruct (succ_div_open p (hs s) ltac:(lia) ltac:(lia) Ho) as [E1 E2].
  pose proof (pow2_pos (hs s) ltac:(lia)). pose proof (Z.mod_pos_bound p (2 ^ hs s) ltac:(lia)).
  split; rewrite E2; [rewrite E1; exact Had | lia].
Qed.

(** Completing a subtree and moving to the next one. *)
Lemma stream_full sub :
  adding (SubActive s) (p / 2 ^ hs s) (p mod 2 ^ hs s + 1) sub -> p mod 2 ^ hs s + 1 = 2 ^ hs s ->
  shape (hs s) sub ->
  stream s (p + 1) (subtree_reset_to (u64 (left_leaf sub + u64 (1 .<< st_height sub))) sub) /\
  node_at sub 1 LMS_N = T (Z.to_nat (rlvl s)) (2 ^ (h - rlvl s) + p / 2 ^ hs s).
Proof.
  intros [Hl _ Hfil] Ho Hshape. destruct (layer_facts lp j N Hgeo s Hs) as (H1 & H2 & H3 & H4).
  cbn [layer] in *. rewrite Ho in Hfil.
  destruct (succ_div_full p (hs s) ltac:(lia) ltac:(lia) Ho) as [E1 E2].
  pose proof (pow2_le25 (hs s) ltac:(lia)). pose proof (pow2_le25 (h - rlvl s) ltac:(lia)).
  pose proof stream_segment as Hseg. unfold SubtreeBuild.segment in Hseg. split.
  - rewrite (shape_height _ _ Hshape), Hl, (u64_shl1 (hs s)) by lia. rewrite u64_small by nia.
    replace (p / 2 ^ hs s * 2 ^ hs s + 2 ^ hs s) with ((p + 1) / 2 ^ hs s * 2 ^ hs s) by (rewrite E1; lia).
    split; rewrite E2; [apply (adding_reset lp op I_ seed j N (SubActive s)) |]. intros _ _. rewrite E1.
    replace (p / 2 ^ hs s + 1 - 1) with (p / 2 ^ hs s) by lia.
    apply (filled_data lp op I_ seed j N _ _ _ sub); [destruct sub; reflexivity.. | exact Hfil].
  - pose proof (filled_nodes _ _ _ _ _ _ _ _ _ _ Hfil (hs s) 0 ltac:(lia) ltac:(lia) ltac:(lia)) as Hn.
    unfold local_of in Hn. rewrite Z.sub_diag in Hn. change (2 ^ 0 + 0) with 1 in Hn. rewrite Hn.
    unfold node_val, node_num. rewrite <- H3, Z.sub_diag. f_equal. change (2 ^ 0) with 1. lia.
Qed.
End Layer.

(** Every layer has received the nodes below which all [q] leaves are done. *)
Definition streams (q : Z) (c : lms_tree_ctx_t) : Prop :=
  forall s, 0 <= s < N -> stream s (q / 2 ^ lvl s) (sub_of c (SubActive s)).

(** The layers below [s] have seen leaf [q], the others have not. *)
Definition between (s q : Z) (c : lms_tree_ctx_t) : Prop :=
  forall s', 0 <= s' < N -> stream s' ((if s' <? s then q + 1 else q) / 2 ^ lvl s') (sub_of c (SubActive s')).

Lemma between_done s q c : N <= s -> between s q c -> streams (q + 1) c.
Proof.
  intros Hs Hb s' Hs'. pose proof (Hb s' Hs') as H. destruct (Z.ltb_spec s' s); [exact H | lia].
Qed.

(** Above a layer whose subtree stays open nothing changes. *)
Lemma div_lvl_next s q : 0 <= s -> s + 1 < N -> 0 <= q -> q / 2 ^ lvl (s + 1) = q / 2 ^ lvl s / 2 ^ hs s.
Proof.
  intros Hs0 Hs Hq. pose proof (leaf_level_nonneg h j N Hgeo s Hs0) as H.
  pose proof (sub_height_range h j N Hgeo s). rewrite <- (root_level_next h j N s Hs).
  change (rlvl s) with (lvl s + hs s). pose proof (pow2_pos (lvl s) H).
  rewrite Z.pow_add_r, Z.div_div by (pose proof (pow2_pos (hs s)); lia). reflexivity.
Qed.

Lemma above_open s q s' :
  0 <= s -> s < s' < N -> 0 <= q -> (q + 1) / 2 ^ lvl (s + 1) = q / 2 ^ lvl (s + 1) ->
  (q + 1) / 2 ^ lvl s' = q / 2 ^ lvl s'.
Proof.
  intros Hs0 Hs' Hq He. pose proof (geometry_size h j N Hgeo) as [_ Hj].
  assert (Hsplit : lvl s' = lvl (s + 1) + (s' - (s + 1)) * j) by (unfold leaf_level; lia).
  assert (0 <= (s' - (s + 1)) * j) by nia. pose proof (leaf_level_nonneg h j N Hgeo (s + 1) ltac:(lia)).
  rewrite Hsplit, Z.pow_add_r by lia.
  pose proof (pow2_pos (lvl (s + 1)) ltac:(lia)). pose proof (pow2_pos ((s' - (s + 1)) * j) ltac:(lia)).
  rewrite <- !Z.div_div by lia. rewrite He. reflexivity.
Qed.

Lemma between_stop s q c :
  0 <= s < N -> 0 <= q -> between (s + 1) q c ->
  (s + 1 < N -> (q + 1) / 2 ^ lvl (s + 1) = q / 2 ^ lvl (s + 1)) -> streams (q + 1) c.
Proof.
  intros Hs Hq Hb He s' Hs'. pose proof (Hb s' Hs') as H. destruct (Z.ltb_spec s' (s + 1)) as [| Hge]; [exact H |].
  rewrite (above_open s q s') by (try lia; apply He; lia). exact H.
Qed.

(** One more layer. *)
Lemma between_next s q c c' :
  0 <= s < N -> between s q c ->
  (forall s', 0 <= s' < N -> s' <> s -> sub_of c' (SubActive s') = sub_of c (SubActive s')) ->
  stream s ((q + 1) / 2 ^ lvl s) (sub_of c' (SubActive s)) -> between (s + 1) q c'.
Proof.
  intros Hs Hb Hother Hst s' Hs'. destruct (Z.eq_dec s' s) as [-> | Hne].
  - destruct (Z.ltb_spec s (s + 1)); [exact Hst | lia].
  - rewrite (Hother s' Hs' Hne). pose proof (Hb s' Hs') as H.
    destruct (Z.ltb_spec s' s), (Z.ltb_spec s' (s + 1)); try lia; exact H.
Qed.

Lemma frame_eq_other c c' s s' :
  frame (eq (SubActive s)) c c' -> 0 <= s' < N -> s' <> s -> sub_of c' (SubActive s') = sub_of c (SubActive s').
Proof. intros Hf Hs' Hne. apply (frame_subs _ _ _ _ Hf); [exact Hs' | congruence]. Qed.

Lemma builds_keep_frame {A} W c (m : TM A) Q :
  builds W c m Q -> builds anywhere c m (fun a c' => frame W c c' /\ Q a c').
Proof.
  intros Hm Hc. eapply vtriple_conseq; [exact (Hm Hc) | |].
  - intros c' [HF Hf]. split; [exact HF | apply (frame_mono N _ anywhere _ _ Hf); intros; exact I].
  - intros a c' [Hf HQ]. split; [apply (frame_mono N _ anywhere _ _ Hf); intros; exact I | exact (conj Hf HQ)].
Qed.

(** Pushing the next node of layer [s]: [k] is what follows, the subtree being full or not. *)
Lemma push_step_ok c q s (push : TM bool) (k : bytes -> TM unit) :
  0 <= s < N -> 0 <= q < 2 ^ h -> (q + 1) / 2 ^ lvl s = q / 2 ^ lvl s + 1 -> between s q c ->
  builds (eq (SubActive s)) c push
    (fun done c' => adding (SubActive s) (q / 2 ^ lvl s / 2 ^ hs s) ((q / 2 ^ lvl s) mod 2 ^ hs s + 1) (sub_of c' (SubActive s))
       /\ done = (2 ^ hs s <=? (q / 2 ^ lvl s) mod 2 ^ hs s + 1)) ->
  (forall c', between (s + 1) q c' -> (q / 2 ^ lvl s) mod 2 ^ hs s + 1 = 2 ^ hs s ->
     builds anywhere c' (k (T (Z.to_nat (rlvl s)) (2 ^ (h - rlvl s) + q / 2 ^ lvl s / 2 ^ hs s)))
       (fun _ c' => streams (q + 1) c')) ->
  builds anywhere c
    (done ← push;
     if done : bool then
       sub ← get_sub (SubActive s);
       update_sub (SubActive s) (fun sub => subtree_reset_to (u64 (left_leaf sub + u64 (1 .<< st_height sub))) sub) ;;
       k (node_at sub 1 LMS_N)
     else mret tt)
    (fun _ c' => streams (q + 1) c').
Proof.
  intros Hs Hq Hsucc Hb Hpush Hk. destruct (layer_facts lp j N Hgeo s Hs) as (H1 & H2 & H3 & H4).
  set (p := q / 2 ^ lvl s) in *. pose proof (pow2_pos (lvl s) H2) as Hpl. pose proof (pow2_pos (hs s) ltac:(lia)) as Hph.
  assert (Hp : 0 <= p < 2 ^ (h - lvl s)).
  { rewrite (pow2_split h (lvl s)) in Hq by lia.
    split; [apply Z.div_pos; lia | apply Z.div_lt_upper_bound; lia]. }
  pose proof (Z.mod_pos_bound p (2 ^ hs s) ltac:(lia)) as Hmb.
  eapply builds_bind; [apply (builds_keep_frame _ _ _ _ Hpush) |].
  intros done c1 _ Hc1 (Hf1 & Had & ->).
  pose proof (fun s' Hs' Hne => frame_eq_other c c1 s s' Hf1 Hs' Hne) as Hother.
  destruct (Z.leb_spec (2 ^ hs s) (p mod 2 ^ hs s + 1)) as [Hfull | Hopen].
  - assert (Hfull' : p mod 2 ^ hs s + 1 = 2 ^ hs s) by lia.
    pose proof (ctx_sub_shape F B lp op I_ seed j N c1 (SubActive s) Hc1 Hs) as Hshape.
    destruct (stream_full s p Hs Hp _ Had Hfull' Hshape) as [Hst Hroot].
    eapply builds_bind; [apply builds_get_sub |]. intros ? c2 _ _ [-> ->].
    eapply builds_bind.
    { apply (builds_keep_frame (eq (SubActive s))), builds_put; [exact Hs | reflexivity | intros _; apply erase_reset]. }
    intros [] c2 _ _ [Hf2 Hs2]. cbn beta in Hs2. rewrite Hroot. apply Hk; [| exact Hfull'].
    apply (between_next s q c c2 Hs Hb); [| rewrite Hs2, Hsucc; exact Hst].
    intros s' Hs' Hne. rewrite <- (Hother s' Hs' Hne). apply (frame_eq_other c1 c2 s); assumption.
  - apply builds_ret. intros _. apply (between_stop s q c1 Hs ltac:(lia)).
    + apply (between_next s q c c1 Hs Hb Hother). rewrite Hsucc. apply stream_open; [exact Hs | exact Hp | exact Had | lia].
    + intros Hnext. rewrite !div_lvl_next by lia. rewrite Hsucc.
      apply (succ_div_open p (hs s)); lia.
Qed.

Lemma div_lvl_range s q : 0 <= s < N -> 0 <= q < 2 ^ h -> 0 <= q / 2 ^ lvl s < 2 ^ (h - lvl s).
Proof.
  intros Hs Hq. destruct (layer_facts lp j N Hgeo s Hs) as (H1 & H2 & H3 & H4). pose proof (pow2_pos (lvl s) H2).
  rewrite (pow2_split h (lvl s)) in Hq by lia.
  split; [apply Z.div_pos; lia | apply Z.div_lt_upper_bound; lia].
Qed.

(** [leaf] is the node of layer [s] that leaf [q] completed. *)
Lemma propagate_ok n : forall c c0 s q,
  1 <= s -> s + Z.of_nat n = N -> 0 <= q < 2 ^ h -> between s q c ->
  (s < N -> (q + 1) / 2 ^ lvl s = q / 2 ^ lvl s + 1) ->
  tc_I c0 = I_ -> tc_hash_alg c0 = alg -> tc_n c0 = LMS_N ->
  builds anywhere c (propagate n s c0 (T (Z.to_nat (lvl s)) (2 ^ (h - lvl s) + q / 2 ^ lvl s)))
    (fun _ c' => streams (q + 1) c').
Proof.
  induction n as [| n IH]; intros c c0 s q Hs1 Hn Hq Hb Hsucc HI0 Ha0 Hn0.
  { apply builds_ret. intros _. apply (between_done s); [lia | exact Hb]. }
  cbn [propagate]. rewrite HI0, Ha0, Hn0. assert (Hs : 0 <= s < N) by lia.
  pose proof (div_lvl_range s q Hs Hq) as Hp. set (leaf := T _ _).
  apply (push_step_ok c q s (or_return LMS_ERR_INVALID (lms_tree_add_next_node (SubActive s) (Some leaf) (Some I_) alg LMS_N))
    (propagate n (s + 1) c0) Hs Hq (Hsucc ltac:(lia)) Hb).
  - apply builds_or_return. pose proof (stream_adding _ _ _ (Hb s Hs)) as Had.
    destruct (Z.ltb_spec s s) as [| _]; [lia |].
    destruct (layer_facts lp j N Hgeo s Hs) as (H1 & H2 & H3 & H4). pose proof (pow2_pos (hs s) ltac:(lia)).
    apply (add_next_node_ok F B lp op I_ seed j N HB Hgeo HI Ha c (SubActive s)); cbn [layer in_ctx];
      [exact Hs | apply stream_segment; assumption | apply Z.mod_pos_bound; lia | exact Had |].
    apply stream_leaf; assumption.
  - intros c' Hb' Hfull. destruct (Z.eq_dec (s + 1) N) as [Hlast | Hmore].
    + assert (n = 0%nat) as -> by lia. apply builds_ret. intros _. apply (between_done (s + 1)); [lia | exact Hb'].
    + rewrite (root_level_next h j N s), <- div_lvl_next by lia.
      apply IH; try assumption; try lia. intros _. rewrite !div_lvl_next by lia. rewrite Hsucc by lia.
      pose proof (sub_height_range h j N Hgeo s). apply (succ_div_full _ (hs s)); lia.
Qed.

Lemma lvl_0 : lvl 0 = 0.
Proof. reflexivity. Qed.

(** The body of the loop over the real leaves. *)
Lemma keygen_leaf_ok c c0 priv q :
  key_is priv -> 0 <= q < 2 ^ h -> streams q c -> ctx_ots_pub c0 = ctx_ots_pub c ->
  tc_I c0 = I_ -> tc_hash_alg c0 = alg -> tc_n c0 = LMS_N -> tc_sublevels c0 = N ->
  builds anywhere c
    (done ← or_return LMS_ERR_INVALID (subtree_push_leaf priv (ctx_ots_pub c0) (SubActive 0) (u32 q));
     if done : bool then
       bot ← get_sub (SubActive 0);
       update_sub (SubActive 0)
         (fun bot => subtree_reset_to (u64 (left_leaf bot + u64 (1 .<< st_height bot))) bot) ;;
       propagate (Z.to_nat (tc_sublevels c0 - 1)) 1 c0 (node_at bot 1 (tc_n c0))
     else mret tt)
    (fun _ c' => streams (q + 1) c').
Proof.
  intros Hk Hq Hst Hsrc HI0 Ha0 Hn0 HN0. pose proof (geo_N _ _ _ Hgeo) as HN. pose proof (geo_h _ _ _ Hgeo) as Hh0.
  pose proof (pow2_le25 h ltac:(lia)). rewrite u32_small by lia. rewrite Hsrc, Hn0, HN0.
  assert (Hs : 0 <= 0 < N) by lia. pose proof (stream_adding _ _ _ (Hst 0 Hs)) as Had.
  rewrite lvl_0, Z.div_1_r in Had. destruct (layer_facts lp j N Hgeo 0 Hs) as (H1 & _ & _ & _).
  pose proof (pow2_pos (hs 0) ltac:(lia)).
  apply (push_step_ok c q 0 (or_return LMS_ERR_INVALID (subtree_push_leaf priv (ctx_ots_pub c) (SubActive 0) q))
    (propagate (Z.to_nat (N - 1)) 1 c0) Hs Hq).
  - rewrite lvl_0, !Z.div_1_r. reflexivity.
  - intros s Hs'. destruct (Z.ltb_spec s 0); [lia | apply Hst, Hs'].
  - rewrite lvl_0, Z.div_1_r. apply builds_or_return.
    apply (push_leaf_ok F B lp op I_ seed j N HB Hgeo HI Ha c priv (SubActive 0)); try assumption;
      [reflexivity | | apply Z.mod_pos_bound; lia |].
    + apply stream_segment; [exact Hs |]. rewrite lvl_0, Z.sub_0_r. exact Hq.
    + pose proof (Z.div_mod q (2 ^ hs 0) ltac:(lia)). lia.
  - intros c' Hb' Hfull. rewrite Z.add_0_l in Hb'. destruct (Z.eq_dec N 1) as [Hlast | Hmore].
    + rewrite Hlast. apply builds_ret. intros _. apply (between_done 1); [lia | exact Hb'].
    + rewrite <- div_lvl_next by lia. rewrite (root_level_next h j N 0) by lia. rewrite Z.add_0_l.
      apply propagate_ok; try assumption; try lia. intros _.
      pose proof (div_lvl_next 0 q ltac:(lia) ltac:(lia) ltac:(lia)) as E1.
      pose proof (div_lvl_next 0 (q + 1) ltac:(lia) ltac:(lia) ltac:(lia)) as E2.
      rewrite lvl_0, Z.div_1_r, Z.add_0_l in E1, E2. rewrite lvl_0, Z.div_1_r in Hfull. rewrite E1, E2.
      apply (succ_div_full q (hs 0)); lia.
Qed.

(** ** The whole pass *)

Lemma stream_0 s sub : adding (SubActive s) 0 0 sub -> stream s 0 sub.
Proof. intros Had. split; [rewrite Z.div_0_l, Z.mod_0_l by (apply Z.pow_nonzero; [lia | pose proof (sub_height_range h j N Hgeo s); lia]); exact Had | lia]. Qed.

(** The second subtree of a layer, also where it has no buffers. *)
Lemma builds_upcoming c s f :
  0 <= s < N -> (forall sub, erase (f sub) = erase sub) ->
  builds anywhere c (update_sub (SubUpcoming s) f)
    (fun _ c' => forall s', 0 <= s' < N -> sub_of c' (SubActive s') = sub_of c (SubActive s')).
Proof.
  intros Hs He Hc. eapply vtriple_post; [apply triple_update_sub |]. intros u c' ->.
  pose proof (ctx_length _ _ _ _ _ _ _ _ _ Hc) as Hlen. split.
  - split; [| intros r _ Hn; destruct (Hn I)]. cbn [put_sub sub_of]. apply skeleton_upd; [lia |].
    unfold erase_level. cbn [sub_of]. destruct (level_of c s) as [a up x]. cbn. rewrite He. reflexivity.
  - intros s' Hs'. cbn [put_sub sub_of]. rewrite level_of_upd by lia.
    destruct (Z.eqb_spec s' s) as [-> |]; [destruct (level_of c s) |]; reflexivity.
Qed.

Lemma reset_loop_ok c :
  builds anywhere c
    (loopM (Z.to_nat N) 0 (fun s _ =>
       update_sub (SubActive s) (subtree_reset_to 0) ;;
       update_sub (SubUpcoming s) (fun sub => sub {{ current_index := 0 }})) tt)
    (fun _ c' => streams 0 c').
Proof.
  pose proof (geo_N _ _ _ Hgeo) as HN.
  eapply builds_post; [apply (builds_loop _ _ _ _ _ _ _ _ _ _ _ _ (fun k _ c' =>
    forall s, 0 <= s < k -> stream s 0 (sub_of c' (SubActive s)))); [intros; lia |] |].
  - intros k [] c' Hk Hf Hpre. rewrite Z2Nat.id in Hk by lia. assert (Hks : 0 <= k < N) by lia.
    eapply builds_bind; [apply (builds_keep_frame (eq (SubActive k))), builds_put;
      [exact Hks | reflexivity | intros _; apply erase_reset] |].
    intros [] c1 _ _ [Hf1 Hs1]. cbn beta in Hs1.
    eapply builds_post; [apply (builds_upcoming c1 k (fun sub => sub {{ current_index := 0 }}) Hks); intros; apply erase_count |].
    intros [] c2 _ _ Hsame s Hs. rewrite Hsame by lia. destruct (Z.eq_dec s k) as [-> | Hne].
    + rewrite Hs1. apply stream_0, (adding_reset lp op I_ seed j N (SubActive k) 0).
    + rewrite (frame_eq_other c' c1 k s Hf1) by lia. apply Hpre. lia.
  - intros [] c' _ _ Hall s Hs. rewrite Z2Nat.id, Z.add_0_l in Hall by lia.
    destruct (layer_facts lp j N Hgeo s Hs) as (_ & Hl & _ & _).
    rewrite Z.div_0_l by (apply Z.pow_nonzero; lia). apply Hall, Hs.
Qed.

(** What the pass leaves: the top subtree complete, the others past their last leaf. *)
Lemma streams_end c : streams (2 ^ h) c -> cache_ok c /\ complete (N - 1) 0 (sub_of c (SubActive (N - 1))).
Proof.
  intros Hst. pose proof (geo_N _ _ _ Hgeo) as HN.
  assert (Hp : forall s, 0 <= s < N -> 2 ^ h / 2 ^ lvl s / 2 ^ hs s = 2 ^ (h - rlvl s) /\ (2 ^ h / 2 ^ lvl s) mod 2 ^ hs s = 0).
  { intros s Hs. destruct (layer_facts lp j N Hgeo s Hs) as (H1 & H2 & H3 & H4).
    pose proof (pow2_pos (lvl s) H2). pose proof (pow2_pos (hs s) ltac:(lia)).
    rewrite (pow2_split h (lvl s)), Z.div_mul, (pow2_split (h - lvl s) (hs s)), Z.div_mul, Z.mod_mul by lia.
    split; [f_equal; lia | reflexivity]. }
  assert (Htop : complete (N - 1) 0 (sub_of c (SubActive (N - 1)))).
  { destruct (Hst (N - 1) ltac:(lia)) as [_ Hlast]. destruct (Hp (N - 1) ltac:(lia)) as [E1 E2].
    rewrite E1, E2, root_level_top, Z.sub_diag in Hlast. apply (Hlast eq_refl).
    destruct (layer_facts lp j N Hgeo (N - 1) ltac:(lia)) as (H1 & H2 & H3 & H4).
    rewrite (pow2_split h (lvl (N - 1))), Z.div_mul by (pose proof (pow2_pos (lvl (N - 1)) H2); lia).
    pose proof (pow2_pos (h - lvl (N - 1)) ltac:(lia)). lia. }
  split; [split; [| exact Htop] | exact Htop].
  intros s Hs. destruct (Hst s ltac:(lia)) as [[Hl _ _] _]. destruct (Hp s ltac:(lia)) as [E1 _].
  exists (2 ^ (h - rlvl s)). rewrite E1 in Hl. cbn [layer] in Hl. split; [exact Hl |].
  pose proof (pow2_pos (h - rlvl s) ltac:(pose proof (root_level_range h j N Hgeo s); lia)).
  split; [lia |]. intros Hseg. unfold SubtreeBuild.segment in Hseg. lia.
Qed.

Lemma keygen_root_ok c ctx priv root :
  ctx <> NULL -> root <> NULL -> key_is priv ->
  builds anywhere c (lms_tree_keygen_root ctx (Some priv) root)
    (fun out c' => out = root_spec alg op h I_ seed /\ cache_ok c').
Proof.
  intros Hctx Hroot Hk. pose proof (geo_N _ _ _ Hgeo) as HN. pose proof (geo_h _ _ _ Hgeo) as Hh0.
  unfold lms_tree_keygen_root.
  eapply builds_bind; [apply builds_guard; intros _ H; apply Z.eqb_eq in H; contradiction |]. intros [] c1 _ _ [-> _].
  eapply builds_bind; [apply check_tree_call_ok; assumption |]. intros ? c1 _ Hc [-> ->].
  rewrite (ctx_N _ _ _ _ _ _ _ _ _ Hc), (ctx_height _ _ _ _ _ _ _ _ _ Hc), u64_shl1 by lia.
  eapply builds_bind; [apply reset_loop_ok |]. intros [] c1 Hf1 Hc1 Hst.
  pose proof (pow2_pos h ltac:(lia)).
  eapply builds_bind.
  { apply (builds_loop _ _ _ _ _ _ _ _ _ _ _ _ (fun q _ c' => streams q c')); [exact Hst |].
    intros q [] c2 Hq Hf2 Hs2.
    pose proof (keygen_leaf_ok c2 c priv q Hk ltac:(lia) Hs2) as Hleaf. rewrite (ctx_N _ _ _ _ _ _ _ _ _ Hc) in Hleaf.
    apply Hleaf; [| apply (ctx_I _ _ _ _ _ _ _ _ _ Hc) | apply (ctx_alg _ _ _ _ _ _ _ _ _ Hc)
                  | apply (ctx_n _ _ _ _ _ _ _ _ _ Hc) | reflexivity].
    rewrite (frame_ots_pub _ _ _ _ Hf2), (frame_ots_pub _ _ _ _ Hf1). reflexivity. }
  intros [] c2 _ _ Hend. rewrite Z2Nat.id, Z.add_0_l in Hend by lia.
  destruct (streams_end c2 Hend) as [Hcache Htop].
  eapply builds_bind; [apply builds_get_sub |]. intros ? c3 _ _ [-> ->]. apply builds_ret. intros _.
  split; [| exact Hcache]. rewrite (ctx_n _ _ _ _ _ _ _ _ _ Hc).
  destruct (layer_facts lp j N Hgeo (N - 1) ltac:(lia)) as (H1 & H2 & H3 & H4).
  pose proof (filled_nodes _ _ _ _ _ _ _ _ _ _ Htop (hs (N - 1)) 0 ltac:(lia) ltac:(lia) ltac:(lia)) as Hn.
  unfold local_of in Hn. rewrite Z.sub_diag in Hn. change (2 ^ 0 + 0) with 1 in Hn. rewrite Hn.
  unfold node_val, node_num, root_spec. rewrite <- H3, root_level_top, !Z.sub_diag. reflexivity.
Qed.
End Keygen.
