(* ===== verification/SubtreeFault.v ===== *)
(** What a failed rebuild leaves behind (src/lms_subtree.c): [subtree_build_bottom] moves
    the subtree to its new leaves before it computes the first of them, so that after a
    failure the cache claims leaves whose nodes it does not hold. *)

From S2P Require Import Prelude Types HashApi Params Winternitz Spec LmOts LmOtsCorrect Tree Lms LmsCorrect VerifyCorrect Scheme Subtree SubtreeCorrect SubtreeTriples SubtreeBuild SubtreeCache.

(** A client that asks again after a failure. *)
Definition ask_twice `{P : Platform} `{Hh : HashApi} (ctx : ptr) (priv : option lms_private_key_t) (q : Z) (path : ptr) :
    TM (result lms_status_t bytes * bytes) :=
  first ← attempt (lms_subtree_auth_path_backend ctx priv q path);
  second ← lms_subtree_auth_path_backend ctx priv q path;
  mret (first, second).

Section Fault.
Context `{P : Platform} `{Hh : HashApi}.
Variable F : Prop.
Variable B : backends.
Variable lp : lms_param_t.
Variable op : lmots_param_t.
Variable I_ seed : bytes.
Variables j N : Z.
Hypothesis Hgeo : geometry (lms_p_height lp) j N.
Abbreviation h := (lms_p_height lp).
Abbreviation alg := (ots_p_hash_alg op).
Abbreviation T := (tree_spec alg op h I_ seed).
Abbreviation hs := (sub_height h j N).
Abbreviation rlvl := (root_level h j N).
Abbreviation ctx_ok := (ctx_ok F B lp op I_ seed j N).
Abbreviation frame := (frame N).
Abbreviation key_is := (key_is lp op I_ seed).
Abbreviation complete := (complete lp op I_ seed j N).
Abbreviation seg_of := (seg_of lp j N).
Abbreviation at_start := (at_start lp op I_ seed j N).
Abbreviation triple := (vtriple (fun s => inv B (t_world s)) t_ctx).

(** A loop whose first turn fails. *)
Lemma loop_fails {A} c G n i (body : Z -> A -> TM A) a Q :
  (0 < n)%nat -> triple c G (body i a) (fun _ _ => False) -> triple c G (loopM n i body a) Q.
Proof.
  intros Hn Hb. destruct n as [| n]; [lia |]. cbn [loopM].
  eapply vtriple_bind; [exact Hb | intros ? ? []].
Qed.

(** The subtree at [SubActive 0] after the failure: moved, with the old nodes. *)
Definition moved (c c1 : lms_tree_ctx_t) (left : Z) : Prop :=
  ctx_ok c1 /\ frame (eq (SubActive 0)) c c1 /\
  left_leaf (sub_of c1 (SubActive 0)) = left /\
  st_nodes (sub_of c1 (SubActive 0)) = st_nodes (sub_of c (SubActive 0)) /\
  st_stack (sub_of c1 (SubActive 0)) = st_stack (sub_of c (SubActive 0)).

(** The first leaf of the segment cannot be computed. *)
Lemma rebuild_fails c priv ots lo f :
  ctx_ok c -> 0 < N -> 0 <= lo < 2 ^ h -> tc_leaf_fn c = Some f ->
  hoare (inv B) True (f (tc_leaf_fn_ctx c) priv lo) (fun _ => False) ->
  triple c (fun c1 => moved c c1 lo) (subtree_build_at 0 priv ots lo (SubActive 0)) (fun _ _ => False).
Proof.
  intros Hc HN Hlo Hf Hfail. assert (Hr : in_ctx N (SubActive 0)) by (cbn; lia).
  pose proof (geo_h _ _ _ Hgeo) as Hh0. pose proof (pow2_le25 h ltac:(lia)).
  cbn [subtree_build_at]. eapply vtriple_bind; [apply triple_get_ctx |]. intros ? ? [-> ->].
  eapply vtriple_bind; [apply (triple_put F B lp op I_ seed j N (eq (SubActive 0)) (SubActive 0) _ c _ Hc Hr eq_refl);
    exact (geometry_write_ok F B lp op I_ seed j N Hgeo c (SubActive 0) Hc Hr) |].
  intros _ c1 (Hf1 & Hc1 & Hs1). unfold subtree_build_bottom.
  eapply vtriple_bind; [apply triple_get_sub |]. intros ? ? [-> ->].
  eapply vtriple_bind; [apply (triple_put F B lp op I_ seed j N (eq (SubActive 0)) (SubActive 0) _ c1 _ Hc1 Hr eq_refl);
    apply erase_reset |].
  intros _ c2 (Hf2 & Hc2 & Hs2). pose proof (frame_trans _ _ _ _ _ Hf1 Hf2) as Hf12.
  assert (Hmoved : moved c c2 lo).
  { split; [exact Hc2 |]. split; [exact Hf12 |]. rewrite Hs2, Hs1. destruct (sub_of c (SubActive 0)). repeat split. }
  rewrite (shape_height _ _ (ctx_sub_shape F B lp op I_ seed j N c1 (SubActive 0) Hc1 Hr)).
  pose proof (sub_height_range h j N Hgeo (layer (SubActive 0))) as Hsh. pose proof (pow2_le25 (hs (layer (SubActive 0))) ltac:(lia)).
  rewrite u32_shl1 by lia.
  apply vtriple_bind with (Q := fun _ _ => False); [| intros ? ? []].
  apply loop_fails; [lia |]. apply vtriple_or_return. rewrite Z.add_0_r, u64_small, u32_small by lia.
  unfold subtree_push_leaf. eapply vtriple_bind; [apply triple_get_ctx |]. intros ? ? [-> ->].
  assert (Hleaf : tc_leaf_fn c2 = Some f /\ tc_leaf_fn_ctx c2 = tc_leaf_fn_ctx c).
  { pose proof (f_equal tc_leaf_fn (frame_skeleton _ _ _ _ Hf12)) as E1.
    pose proof (f_equal tc_leaf_fn_ctx (frame_skeleton _ _ _ _ Hf12)) as E2. destruct c, c2. cbn in *. split; congruence. }
  destruct Hleaf as [E1 E2].
  apply vtriple_bind with (Q := fun _ _ => False); [| intros ? ? []].
  eapply vtriple_post.
  - apply (triple_world True B c2 (fun c1 => moved c c1 lo) _ (fun _ => False)); [| intros _; exact Hmoved].
    apply hoare_or_return. unfold subtree_compute_leaf. rewrite E1, E2. exact Hfail.
  - intros ? ? [[] _].
Qed.

(** A subtree that claims the leaf is left alone, whatever it holds. *)
Lemma advance_hit c c0 priv q s G :
  ctx_ok c -> 0 <= s < N -> 0 <= q < 2 ^ h -> left_leaf (sub_of c (SubActive s)) = seg_of s q * 2 ^ hs s ->
  triple c G (advance_layer c0 priv q s) (fun _ c' => c' = c).
Proof.
  intros Hc Hs Hq Hl. unfold advance_layer. pose proof (seg_of_segment lp j N Hgeo s q Hs Hq) as Hseg.
  unfold segment in Hseg. destruct (layer_facts lp j N Hgeo s Hs) as (H1 & H2 & H3 & H4). pose proof (pow2_le25 h ltac:(lia)).
  destruct (leaf_lo_ok F B lp op I_ seed j N Hgeo c s (seg_of s q) Hc Hs Hl ltac:(lia)) as (Hlo & Hspan & Hrange).
  eapply vtriple_bind; [apply triple_get_sub |]. intros ? ? [-> ->]. rewrite Hlo, Hspan, hit_iff by lia.
  fold (seg_of s q). rewrite Z.eqb_refl. apply vtriple_ret. reflexivity.
Qed.

(** The checks of the backend pass. *)
Lemma check_passes c ctx priv G :
  ctx_ok c -> ctx <> NULL -> key_is priv -> triple c G (check_tree_call ctx (Some priv)) (fun a c' => a = (c, priv) /\ c' = c).
Proof.
  intros Hc Hctx Hk. unfold check_tree_call.
  eapply vtriple_bind; [apply triple_get_ctx |]. intros ? ? [-> ->].
  eapply vtriple_bind; [apply vtriple_guard | intros [] ? [-> _]].
  { intros H. apply orb_true_iff in H as [H | H]; apply Z.eqb_eq in H;
      [contradiction | destruct (ctx_levels _ _ _ _ _ _ _ _ _ Hc H)]. }
  eapply vtriple_bind; [apply vtriple_guard | intros [] ? [-> _]].
  { intros H. apply negb_true_iff, Z.eqb_neq in H.
    rewrite (ctx_type _ _ _ _ _ _ _ _ _ Hc), (key_type lp op I_ seed priv Hk) in H. contradiction. }
  apply vtriple_ret. auto.
Qed.

(** The first call: the bottom layer does not hold [q] and cannot be rebuilt. *)
Lemma backend_fails c ctx priv q q0 path f :
  ctx_ok c -> ctx <> NULL -> path <> NULL -> key_is priv -> 0 <= q < 2 ^ h -> 0 <= q0 < 2 ^ h -> 1 < N ->
  left_leaf (sub_of c (SubActive 0)) = seg_of 0 q0 * 2 ^ hs 0 -> seg_of 0 q0 <> seg_of 0 q -> tc_leaf_fn c = Some f ->
  hoare (inv B) True (f (tc_leaf_fn_ctx c) priv (seg_of 0 q * 2 ^ hs 0)) (fun _ => False) ->
  triple c (fun c1 => moved c c1 (seg_of 0 q * 2 ^ hs 0)) (lms_subtree_auth_path_backend ctx (Some priv) q path) (fun _ _ => False).
Proof.
  intros Hc Hctx Hpath Hk Hq Hq0 HN Hl Hne Hf Hfail. pose proof (geo_h _ _ _ Hgeo) as Hh0.
  destruct (layer_facts lp j N Hgeo 0 ltac:(lia)) as (H1 & H2 & H3 & H4). pose proof (pow2_le25 h ltac:(lia)).
  assert (Hr0 : rlvl 0 = hs 0) by (unfold root_level; lia).
  pose proof (seg_of_segment lp j N Hgeo 0 q0 ltac:(lia) Hq0) as Hseg0. unfold segment in Hseg0.
  unfold lms_subtree_auth_path_backend.
  eapply vtriple_bind; [apply vtriple_guard | intros [] ? [-> _]].
  { intros H'. apply orb_true_iff in H' as [H' | H']; apply Z.eqb_eq in H'; contradiction. }
  apply vtriple_bind with (Q := fun _ _ => False); [| intros ? ? []]. apply vtriple_or_return. unfold lms_tree_sign_advance.
  eapply vtriple_bind; [apply check_passes; assumption |]. intros ? ? [-> ->].
  rewrite (ctx_height _ _ _ _ _ _ _ _ _ Hc), (ctx_N _ _ _ _ _ _ _ _ _ Hc), u64_shl1 by lia.
  eapply vtriple_bind; [apply vtriple_guard; intros H'; apply Z.leb_le in H'; lia | intros [] ? [-> _]].
  apply loop_fails; [lia |]. unfold advance_layer.
  destruct (leaf_lo_ok F B lp op I_ seed j N Hgeo c 0 (seg_of 0 q0) Hc ltac:(lia) Hl ltac:(lia)) as (Hlo & Hspan & Hrange).
  eapply vtriple_bind; [apply triple_get_sub |]. intros ? ? [-> ->]. rewrite Hlo, Hspan, hit_iff by lia.
  fold (seg_of 0 q). destruct (Z.eqb_spec (seg_of 0 q0) (seg_of 0 q)) as [| _]; [contradiction |].
  pose proof (seg_of_segment lp j N Hgeo 0 q ltac:(lia) Hq) as Hseg. unfold segment in Hseg. rewrite Hr0 in *.
  assert (Hlt : 0 <= seg_of 0 q * 2 ^ hs 0 < 2 ^ h).
  { pose proof (pow2_pos (hs 0) ltac:(lia)). rewrite (pow2_split h (hs 0)) by lia. nia. }
  rewrite u64_small by lia.
  apply vtriple_or_return, (rebuild_fails c priv _ _ f); (assumption || lia).
Qed.

(** Any later call with the same index: every layer claims it. *)
Lemma backend_stale c ctx priv q path G :
  ctx_ok c -> ctx <> NULL -> path <> NULL -> key_is priv -> 0 <= q < 2 ^ h ->
  (forall s, 0 <= s < N - 1 -> left_leaf (sub_of c (SubActive s)) = seg_of s q * 2 ^ hs s) ->
  triple c G (lms_subtree_auth_path_backend ctx (Some priv) q path)
    (fun out c' => c' = c /\ out = path_layers (Z.to_nat N) 0 c q).
Proof.
  intros Hc Hctx Hpath Hk Hq Hl. pose proof (geo_h _ _ _ Hgeo) as Hh0. pose proof (geo_N _ _ _ Hgeo) as HN.
  unfold lms_subtree_auth_path_backend.
  eapply vtriple_bind; [apply vtriple_guard | intros [] ? [-> _]].
  { intros H'. apply orb_true_iff in H' as [H' | H']; apply Z.eqb_eq in H'; contradiction. }
  apply vtriple_bind with (Q := fun _ c' => c' = c).
  { apply vtriple_or_return. unfold lms_tree_sign_advance.
    eapply vtriple_bind; [apply check_passes; assumption |]. intros ? ? [-> ->].
    rewrite (ctx_height _ _ _ _ _ _ _ _ _ Hc), (ctx_N _ _ _ _ _ _ _ _ _ Hc), u64_shl1 by lia.
    eapply vtriple_bind; [apply vtriple_guard; intros H'; apply Z.leb_le in H'; lia | intros [] ? [-> _]].
    apply (vtriple_loop _ _ G (Z.to_nat (N - 1)) 0 _ (fun _ _ c' => c' = c)); [reflexivity |].
    intros k [] c' Hks ->. apply advance_hit; [exact Hc | lia | exact Hq | apply Hl; lia]. }
  intros _ ? ->. eapply vtriple_bind; [apply triple_get_ctx |]. intros ? ? [-> ->].
  unfold lms_tree_sign_auth_path, lms_tree_auth_path.
  destruct (Z.eqb_spec path NULL) as [| _]; [contradiction |].
  destruct (Z.eqb_spec (tc_levels c) NULL) as [E | _]; [destruct (ctx_levels _ _ _ _ _ _ _ _ _ Hc E) |]. cbn [orb].
  rewrite (ctx_height _ _ _ _ _ _ _ _ _ Hc), (ctx_N _ _ _ _ _ _ _ _ _ Hc), u64_shl1 by lia.
  destruct (Z.eqb_spec N 0) as [| _]; [lia |]. destruct (Z.leb_spec (2 ^ h) q) as [| _]; [lia |].
  apply vtriple_ret. auto.
Qed.

(** The first sibling of a path. *)
Lemma path_first c q q' :
  ctx_ok c -> 0 < N -> 0 <= q < 2 ^ h -> 0 <= q' < 2 ^ h -> q mod 2 ^ hs 0 = q' mod 2 ^ hs 0 ->
  complete 0 (seg_of 0 q') (sub_of c (SubActive 0)) -> available alg ->
  slice 0 LMS_N (path_layers (Z.to_nat N) 0 c q) = T 0 (sibling_num h q' 0).
Proof.
  intros Hc HN Hq Hq' Hmod Hcomp Hav. destruct (Z.to_nat N) as [| n] eqn:En; [lia |]. cbn [path_layers].
  destruct (layer_facts lp j N Hgeo 0 ltac:(lia)) as (H1 & H2 & H3 & H4). pose proof (pow2_le25 (hs 0) ltac:(lia)).
  rewrite (shape_height _ _ (ctx_sub_shape F B lp op I_ seed j N c (SubActive 0) Hc ltac:(cbn; lia))).
  cbn [layer]. rewrite (ctx_n _ _ _ _ _ _ _ _ _ Hc), u32_shl1 by lia.
  replace (2 ^ hs 0 - 1) with (Z.ones (hs 0)) by (rewrite Z.ones_equiv; lia). rewrite Z.land_ones, Hmod by lia.
  pose proof (Z.mod_pos_bound q' (2 ^ hs 0) ltac:(lia)).
  rewrite (u32_small (q' mod _)), u32_small by lia.
  assert (Hoff : offset lp j N 0 q' 0 = q' mod 2 ^ hs 0).
  { rewrite offset_mod by (assumption || lia). unfold leaf_level. rewrite Z.mul_0_l, Z.add_0_l, Z.pow_0_r, Z.div_1_r, Z.sub_0_r. reflexivity. }
  replace (2 ^ hs 0 + q' mod 2 ^ hs 0) with (local_of (hs 0) 0 (offset lp j N 0 q' 0))
    by (rewrite Hoff; unfold local_of; rewrite Z.sub_0_r; reflexivity).
  destruct (Z.to_nat (hs 0)) as [| k] eqn:Ek; [lia |]. cbn [path_layer]. rewrite <- app_assoc.
  rewrite (sibling_node lp op I_ seed j N Hgeo 0 q' ltac:(lia) Hq' _ 0 Hcomp) by lia.
  unfold leaf_level. rewrite Z.mul_0_l, Z.add_0_l. change (Z.to_nat 0) with 0%nat.
  assert (Hlen : len (T 0 (sibling_num h q' 0)) = LMS_N) by (apply hash_of_len, Hav).
  rewrite slice_app_l by (rewrite ?Hlen; unfold LMS_N; lia). apply slice_all. symmetry. exact Hlen.
Qed.

(** Both calls, on the cache [lms_tree_sign_init] leaves. *)
Lemma stale_path c ctx priv q path f :
  ctx_ok c -> at_start c -> ctx <> NULL -> path <> NULL -> key_is priv -> available alg -> 1 < N ->
  2 ^ hs 0 <= q < 2 ^ rlvl 1 -> tc_leaf_fn c = Some f ->
  hoare (inv B) True (f (tc_leaf_fn_ctx c) priv (seg_of 0 q * 2 ^ hs 0)) (fun _ => False) ->
  triple c (fun _ => False)
    (ask_twice ctx (Some priv) q path)
    (fun p _ => (exists e, fst p = Err e) /\ slice 0 LMS_N (snd p) = T 0 (sibling_num h (q mod 2 ^ hs 0) 0)).
Proof.
  intros Hc Hst Hctx Hpath Hk Hav HN Hq Hf Hfail. pose proof (geo_h _ _ _ Hgeo) as Hh0.
  destruct (layer_facts lp j N Hgeo 0 ltac:(lia)) as (H1 & H2 & H3 & H4).
  destruct (layer_facts lp j N Hgeo 1 ltac:(lia)) as (_ & _ & _ & H5).
  pose proof (pow2_le25 (hs 0) ltac:(lia)). pose proof (Z.pow_le_mono_r 2 (rlvl 1) h ltac:(lia) ltac:(lia)).
  pose proof (Z.mod_pos_bound q (2 ^ hs 0) ltac:(lia)) as Hm.
  assert (Hr0 : rlvl 0 = hs 0) by (unfold root_level, leaf_level; lia).
  assert (H00 : seg_of 0 (q mod 2 ^ hs 0) = 0) by (unfold SubtreeCache.seg_of; rewrite Hr0; apply Z.div_small; lia).
  assert (Hne : 0 <> seg_of 0 q).
  { unfold SubtreeCache.seg_of. rewrite Hr0. pose proof (Z.div_str_pos q (2 ^ hs 0) ltac:(lia)). lia. }
  destruct (Hst 0 ltac:(lia)) as [Hl _ Hfil]. cbn [layer] in Hl, Hfil.
  eapply vtriple_bind.
  { apply vtriple_attempt, (backend_fails c ctx priv q (q mod 2 ^ hs 0) path f); rewrite ?H00; (assumption || lia). }
  intros [a | e] c1; [intros [] |]. intros (Hc1 & Hfr & Hl1 & Hn1 & Hk1).
  assert (Hclaim : forall s, 0 <= s < N - 1 -> left_leaf (sub_of c1 (SubActive s)) = seg_of s q * 2 ^ hs s).
  { intros s Hs. destruct (Z.eq_dec s 0) as [-> | Hs0]; [exact Hl1 |].
    rewrite (frame_subs _ _ _ _ Hfr (SubActive s)) by (cbn; lia || congruence).
    destruct (Hst s ltac:(lia)) as [Hls _ _]. cbn [layer] in Hls. rewrite Hls. f_equal. symmetry.
    unfold SubtreeCache.seg_of. apply Z.div_small.
    pose proof (Z.pow_le_mono_r 2 (rlvl 1) (rlvl s) ltac:(lia) (root_level_mono h j N Hgeo 1 s ltac:(lia))). lia. }
  eapply vtriple_bind; [apply backend_stale; assumption || lia |]. intros out c2 [-> ->].
  apply vtriple_ret. split; [exists e; reflexivity |].
  assert (Hcomp : complete 0 (seg_of 0 (q mod 2 ^ hs 0)) (sub_of c1 (SubActive 0))).
  { rewrite H00. destruct Hfil as [F1 F2]. split; unfold node_at, stack_at in *; rewrite ?Hn1, ?Hk1; assumption. }
  apply path_first; [exact Hc1 | lia | lia | lia | | exact Hcomp | exact Hav].
  symmetry. apply Z.mod_mod. lia.
Qed.
End Fault.

(** A source of leaves registered late: right or failing, so the context stays good as long
    as failures are allowed. *)
Lemma ctx_ok_leaf `{P : Platform} `{Hh : HashApi} F B lp op I_ seed j N c f fctx :
  ctx_ok F B lp op I_ seed j N c ->
  (forall priv q, key_is lp op I_ seed priv -> 0 <= q < 2 ^ lms_p_height lp ->
     hoare (inv B) True (f fctx priv q)
       (fun out => out = tree_spec (ots_p_hash_alg op) op (lms_p_height lp) I_ seed 0 (2 ^ lms_p_height lp + q))) ->
  ctx_ok True B lp op I_ seed j N (c {{ tc_leaf_fn := Some f; tc_leaf_fn_ctx := fctx }}).
Proof.
  intros [C1 C2 C3 C4 C5 C6 C7 C8 C9 [S1 S2 (alloc & free & A1 & A2 & A3 & A4 & A5)] C11] Hf.
  destruct c as [c1 c2 c3 c4 c5 c6 c7 c8 c9 l c11 c12 c13 c14 c15 c16 c17]. cbn in *.
  split; cbn; try assumption. split; cbn.
  - intros g priv q Hg Hk Hq. apply (hoare_weaken _ F); auto.
  - intros g priv q [= <-] Hk Hq. exact (Hf priv q Hk Hq).
  - exists alloc, free. auto 7.
Qed.
