(* ===== verification/SubtreeConfig.v ===== *)
(** The configurator of src/lms_subtree.c: the memory estimate is exact, and
    [lms_tree_configure] picks the best subtree height for a memory budget. *)

From S2P Require Import Prelude Types HashApi Params Subtree SubtreeCorrect SubtreeTriples.

(** * The estimate *)

(** Node buffer and stack of one subtree of height [k]. *)
Definition subtree_bytes (k : Z) : Z := 2 ^ (k + 1) * LMS_N + k * LMS_N.

(** The layers a height [h] needs with subtrees of height [j]. *)
Definition layers (h j : Z) : Z := (h + j - 1) / j.

(** All layers but the top one hold two subtrees. *)
Definition memory (h j : Z) : Z :=
  2 * (layers h j - 1) * subtree_bytes j + subtree_bytes (h - (layers h j - 1) * j).

Lemma subtree_bytes_range k : 1 <= k <= 25 -> 0 < subtree_bytes k <= 2 ^ 32.
Proof.
  intros Hk. unfold subtree_bytes, LMS_N. pose proof (Z.pow_le_mono_r 2 (k + 1) 26 ltac:(lia) ltac:(lia)).
  pose proof (pow2_pos (k + 1) ltac:(lia)). lia.
Qed.

Lemma layers_geometry h j : 5 <= h <= 25 -> LMS_SUBTREE_MIN_J <= j <= h -> geometry h j (layers h j).
Proof.
  intros Hh Hj. unfold layers, LMS_SUBTREE_MIN_J in *.
  pose proof (Z.div_mod (h + j - 1) j ltac:(lia)). pose proof (Z.mod_pos_bound (h + j - 1) j ltac:(lia)).
  split; unfold LMS_SUBTREE_MIN_J; nia.
Qed.

Lemma sub_bytes_ok k : 1 <= k <= 25 ->
  subtree_nodes_bytes k LMS_N = 2 ^ (k + 1) * LMS_N /\ u64 (k * LMS_N) = k * LMS_N.
Proof.
  intros Hk. unfold subtree_nodes_bytes, LMS_N. pose proof (Z.pow_le_mono_r 2 (k + 1) 26 ltac:(lia) ltac:(lia)).
  pose proof (pow2_pos (k + 1) ltac:(lia)).
  assert (H2 : 2 .<< k = 2 ^ (k + 1)) by (rewrite Z.shiftl_mul_pow2, Z.pow_add_r by lia; lia).
  rewrite H2, (u64_small (2 ^ (k + 1))), !u64_small by lia. auto.
Qed.

(** The estimate of a geometry, and its number of layers. *)
Lemma estimate_memory_spec h j :
  5 <= h <= 25 -> LMS_SUBTREE_MIN_J <= j <= h ->
  lms_tree_estimate_memory h j LMS_N = (memory h j, layers h j).
Proof.
  intros Hh Hj. pose proof (layers_geometry h j Hh Hj) as Hgeo. destruct (geometry_size h j _ Hgeo) as [HN Hj25].
  pose proof (geo_top _ _ _ Hgeo) as Htop. unfold lms_tree_estimate_memory.
  destruct (Z.eqb_spec j 0); [lia |]. change (LMS_N =? 0) with false. cbn [orb].
  assert (HE : u32 (h + j - 1) / j = layers h j) by (rewrite u32_small by lia; reflexivity). rewrite HE.
  set (N := layers h j) in *. destruct (Z.eqb_spec N 0); [lia |].
  assert (Hm : 0 <= (N - 1) * j <= 25) by nia. rewrite (u32_small ((N - 1) * j)), (u32_small (h - _)) by lia.
  f_equal. set (top := h - (N - 1) * j) in *. assert (Ht : 1 <= top <= 25) by lia.
  pose proof (subtree_bytes_range j ltac:(lia)) as Hb1. pose proof (subtree_bytes_range top Ht) as Hb2.
  destruct (sub_bytes_ok j ltac:(lia)) as [Hn1 Hs1]. destruct (sub_bytes_ok top Ht) as [Hn2 Hs2].
  match goal with |- for_z _ _ ?f _ = _ =>
    pose proof (for_z_inv f (fun s m => m = if s <=? N - 1 then 2 * s * subtree_bytes j else memory h j) (Z.to_nat N) 0 0) as Hinv
  end.
  rewrite Z2Nat.id, Z.add_0_l in Hinv by lia. rewrite Hinv.
  - destruct (Z.leb_spec N (N - 1)); [lia | reflexivity].
  - destruct (Z.leb_spec 0 (N - 1)); lia.
  - intros s m Hs ->. destruct (Z.leb_spec s (N - 1)); [| lia]. rewrite (u32_small (s + 1)) by lia.
    assert (Hsb : 0 <= s * subtree_bytes j <= 25 * 2 ^ 32) by (split; [nia | apply Z.mul_le_mono_nonneg; lia]).
    destruct (Z.ltb_spec (s + 1) N) as [Hlt | Hge].
    + destruct (Z.leb_spec (s + 1) (N - 1)); [| lia]. rewrite Hn1, Hs1. fold (subtree_bytes j).
      rewrite (u64_small (2 * s * _ + _)), u64_small by lia. lia.
    + destruct (Z.leb_spec (s + 1) (N - 1)); [lia |]. rewrite Hn2, Hs2. fold (subtree_bytes top).
      assert (s = N - 1) as -> by lia. unfold memory. fold N. fold top. rewrite u64_small by lia. lia.
Qed.

Lemma memory_range h j : 5 <= h <= 25 -> LMS_SUBTREE_MIN_J <= j <= h -> 0 < memory h j < 2 ^ 38.
Proof.
  intros Hh Hj. pose proof (layers_geometry h j Hh Hj) as Hgeo. destruct (geometry_size h j _ Hgeo) as [HN Hj25].
  pose proof (geo_top _ _ _ Hgeo). unfold memory.
  pose proof (subtree_bytes_range j ltac:(lia)). pose proof (subtree_bytes_range (h - (layers h j - 1) * j) ltac:(nia)). nia.
Qed.

(** * The choice *)

(** [j] is at least as good as [j']: fewer layers, then less memory. *)
Definition better (h j j' : Z) : Prop :=
  layers h j < layers h j' \/ layers h j = layers h j' /\ memory h j <= memory h j'.

Section Choice.
Variables h target : Z.
Hypothesis Hh : 5 <= h <= 25.

Definition candidate (j : Z) : Prop := LMS_SUBTREE_MIN_J <= j <= h.

(** The state of the scan once the heights below [k] are considered. *)
Definition scanned (k : Z) (st : search) : Prop :=
  if found_within st then
    candidate (best_j st) /\ best_mem st = memory h (best_j st) /\ best_levels st = layers h (best_j st) /\
    best_mem st <= target /\
    forall j, LMS_SUBTREE_MIN_J <= j < k -> memory h j <= target -> better h (best_j st) j
  else if found_overbudget st then
    candidate (best_j st) /\ best_mem st = memory h (best_j st) /\ best_levels st = layers h (best_j st) /\
    forall j, LMS_SUBTREE_MIN_J <= j < k -> target < memory h j /\ best_mem st <= memory h j
  else k = LMS_SUBTREE_MIN_J.

(** The new height is the last one considered. *)
Ltac last_one j Hj := intros j Hj; match type of Hj with _ <= _ < ?k + 1 =>
  destruct (Z.eq_dec j k) as [-> | ?]; [try lia | assert (LMS_SUBTREE_MIN_J <= j < k) by lia; try lia] end.

Lemma scan_step k st : candidate k -> scanned k st -> scanned (k + 1) (configure_step h LMS_N target k st).
Proof.
  intros Hk. unfold configure_step. rewrite estimate_memory_spec by assumption. unfold scanned, better.
  destruct (Z.ltb_spec target (memory h k)) as [Hover | Hin].
  - destruct (found_within st) eqn:Ew.
    + rewrite orb_true_r. intros (H1 & H2 & H3 & H4 & H5). destruct (Z.ltb_spec (best_mem st) (memory h k)); [| lia].
      cbn [andb]. rewrite Ew. repeat (split; [assumption |]). last_one i Hi. auto.
    + destruct (found_overbudget st) eqn:Eo; cbn [orb andb].
      * intros (H1 & H2 & H3 & H4). destruct (Z.ltb_spec (best_mem st) (memory h k)).
        -- rewrite Ew, Eo. repeat (split; [assumption |]). last_one i Hi. auto.
        -- cbn. repeat (split; [assumption || reflexivity |]). last_one i Hi.
           destruct (H4 i ltac:(assumption)). lia.
      * intros ->. cbn. repeat (split; [assumption || reflexivity |]). last_one i Hi.
  - destruct (found_within st) eqn:Ew; cbn [andb].
    + intros (H1 & H2 & H3 & H4 & H5). destruct (Z.ltb_spec (best_levels st) (layers h k)).
      { rewrite Ew. repeat (split; [assumption |]). last_one i Hi. auto. }
      destruct (Z.eqb_spec (layers h k) (best_levels st)); cbn [andb].
      * destruct (Z.ltb_spec (best_mem st) (memory h k)).
        -- rewrite Ew. repeat (split; [assumption |]). last_one i Hi. auto.
        -- cbn. repeat (split; [assumption || reflexivity |]). last_one i Hi.
           intros Hm. destruct (H5 i ltac:(assumption) Hm); lia.
      * cbn. repeat (split; [assumption || reflexivity |]). last_one i Hi.
        intros Hm. destruct (H5 i ltac:(assumption) Hm); lia.
    + intros Hrest. cbn. repeat (split; [assumption || reflexivity |]). last_one i Hi. intros Hm.
      destruct (found_overbudget st); [destruct Hrest as (_ & _ & _ & H4); destruct (H4 i ltac:(assumption)); lia | lia].
Qed.

Lemma scan_ok :
  scanned (h + 1) (for_z (Z.to_nat (h - 1)) LMS_SUBTREE_MIN_J (configure_step h LMS_N target) (mkSearch false false 0 0 0)).
Proof.
  pose proof (for_z_inv (configure_step h LMS_N target) scanned (Z.to_nat (h - 1)) LMS_SUBTREE_MIN_J
    (mkSearch false false 0 0 0)) as H.
  replace (LMS_SUBTREE_MIN_J + Z.of_nat (Z.to_nat (h - 1))) with (h + 1) in H by (unfold LMS_SUBTREE_MIN_J; lia).
  apply H; [reflexivity |]. intros k st Hk. apply scan_step. unfold candidate. lia.
Qed.
End Choice.

(** * [lms_tree_configure] *)

(** What the configurator promises of its answer for a tree of height [h]. *)
Record chosen (h target : Z) (cfg : lms_tree_config_t) : Prop := {
  chosen_geometry : geometry h (cfg_subtree_size cfg) (cfg_sublevels cfg);
  chosen_memory : cfg_est_memory cfg = memory h (cfg_subtree_size cfg);
  chosen_best : match cfg_fit cfg with
    | LMS_TREE_FIT_WITHIN_BUDGET => cfg_est_memory cfg <= target /\
        forall j, candidate h j -> memory h j <= target -> better h (cfg_subtree_size cfg) j
    | LMS_TREE_FIT_OVERBUDGET =>
        forall j, candidate h j -> target < memory h j /\ cfg_est_memory cfg <= memory h j
    | LMS_TREE_FIT_NONE => False
    end
}.

Section ConfigureOk.
Context `{P : Platform}.

Lemma configure_ok B lms_type lp target config :
  lms_params_of lms_type = Some lp -> config <> NULL ->
  exists cfg, returns B (lms_tree_configure lms_type target config) cfg /\
    cfg_lms_type cfg = lms_type /\ cfg_height cfg = lms_p_height lp /\ cfg_n cfg = LMS_N /\
    chosen (lms_p_height lp) target cfg.
Proof.
  intros Hlp Hc. destruct (lms_params_of_wf _ _ Hlp) as [[Hh Hn] Hty].
  assert (Hh25 : 5 <= lms_p_height lp <= 25) by lia.
  pose proof (scan_ok (lms_p_height lp) target Hh25) as Hscan.
  set (st := for_z _ _ _ _) in Hscan.
  exists (mkConfig lms_type (lms_p_height lp) LMS_N (best_j st) (best_levels st) (best_mem st)
            (if found_within st then LMS_TREE_FIT_WITHIN_BUDGET else LMS_TREE_FIT_OVERBUDGET)).
  split; [| cbn; repeat (split; [reflexivity |])].
  - intros w Hw. destruct (get_lms_param_returns B lms_type lp Hlp w Hw) as (w' & E & Hw').
    exists w'. split; [| exact Hw']. unfold lms_tree_configure.
    unfold mbind, M_bind, guard_err, or_return, mret, M_ret, fail.
    destruct (Z.eqb_spec config NULL) as [| _]; [contradiction |]. rewrite E. rewrite Hn. fold LMS_N.
    destruct (Z.eqb_spec (lms_p_height lp) 0) as [| _]; [lia |].
    destruct (Z.ltb_spec LMS_MAX_HEIGHT (lms_p_height lp)) as [Hlt | _]; [unfold LMS_MAX_HEIGHT in Hlt; lia |].
    change (LMS_N =? 0) with false. cbn [orb]. fold st. unfold scanned in Hscan.
    destruct (found_within st), (found_overbudget st); try reflexivity. unfold LMS_SUBTREE_MIN_J in Hscan. lia.
  - unfold scanned, candidate in Hscan. destruct (found_within st) eqn:Ew.
    + destruct Hscan as (H1 & H2 & H3 & H4 & H5). split; cbn.
      * rewrite H3. apply layers_geometry; assumption.
      * exact H2.
      * split; [exact H4 |]. intros i Hi Hm. apply H5; [unfold candidate in Hi; lia | exact Hm].
    + destruct (found_overbudget st); [| unfold LMS_SUBTREE_MIN_J in Hscan; lia].
      destruct Hscan as (H1 & H2 & H3 & H4). split; cbn.
      * rewrite H3. apply layers_geometry; assumption.
      * exact H2.
      * intros i Hi. apply H4. unfold candidate in Hi. lia.
Qed.
End ConfigureOk.
