(* ===== verification/SubtreeHeap.v ===== *)
(** The blocks a context of src/lms_subtree.c owns, and the calls to its allocator:
    operations on the tree release what they allocate, and [lms_tree_ctx_free] releases
    exactly what the context owns. *)

From S2P Require Import Prelude Types HashApi Params LmOts Tree Subtree SubtreeCorrect SubtreeTriples.

(** * The trace *)

Definition nonnull (p : ptr) : list ptr := if p =? NULL then [] else [p].

(** The blocks handed out and given back. *)
Definition allocated_of (e : heap_event) : list ptr := match e with Alloc _ p => nonnull p | Free _ => [] end.
Definition freed_of (e : heap_event) : list ptr := match e with Alloc _ _ => [] | Free p => [p] end.
Definition allocated (tr : list heap_event) : list ptr := concat (map allocated_of tr).
Definition freed (tr : list heap_event) : list ptr := concat (map freed_of tr).

(** Every block handed out is given back exactly once. *)
Definition balanced (tr : list heap_event) : Prop := allocated tr ≡ₚ freed tr.

Lemma allocated_app a b : allocated (a ++ b) = allocated a ++ allocated b.
Proof. unfold allocated. rewrite map_app, concat_app. reflexivity. Qed.

Lemma freed_app a b : freed (a ++ b) = freed a ++ freed b.
Proof. unfold freed. rewrite map_app, concat_app. reflexivity. Qed.

Lemma balanced_nil : balanced [].
Proof. apply perm_nil. Qed.

Lemma balanced_app a b : balanced a -> balanced b -> balanced (a ++ b).
Proof. unfold balanced. intros Ha Hb. rewrite allocated_app, freed_app, Ha, Hb. reflexivity. Qed.

Lemma nonnull_some p : p <> NULL -> nonnull p = [p].
Proof. intros Hp. unfold nonnull. destruct (Z.eqb_spec p NULL); [contradiction | reflexivity]. Qed.

(** A block around balanced events. *)
Lemma balanced_block size p d : p <> NULL -> balanced d -> balanced ([Alloc size p] ++ d ++ [Free p]).
Proof.
  intros Hp Hd. unfold balanced in *. rewrite !allocated_app, !freed_app, Hd.
  change (allocated [Alloc size p]) with (nonnull p ++ []). rewrite (nonnull_some p Hp).
  cbn. rewrite app_nil_r. apply Permutation_cons_append.
Qed.

(** * What a context owns *)

Definition owned_sub (sub : lms_subtree_t) : list ptr := nonnull (b_ptr (st_nodes sub)) ++ nonnull (b_ptr (st_stack sub)).
Definition owned_level (sl : lms_sublevel_t) : list ptr :=
  owned_sub (active sl) ++ (if has_upcoming sl then owned_sub (upcoming sl) else []).
Definition owned_levels (l : list lms_sublevel_t) : list ptr := concat (map owned_level l).

Lemma owned_levels_app a b : owned_levels (a ++ b) = owned_levels a ++ owned_levels b.
Proof. unfold owned_levels. rewrite map_app, concat_app. reflexivity. Qed.

Lemma owned_levels_upd l s sl :
  0 <= s < Z.of_nat (length l) ->
  owned_levels (upd s sl l) ++ owned_level (nth (Z.to_nat s) l zero_sublevel) ≡ₚ owned_levels l ++ owned_level sl.
Proof.
  intros Hs. assert (Hlt : (Z.to_nat s < length l)%nat) by lia.
  destruct (lookup_lt_is_Some_2 l (Z.to_nat s) Hlt) as [x Hx].
  rewrite nth_lookup, Hx. cbn [default]. unfold upd. rewrite insert_take_drop by exact Hlt.
  rewrite <- (take_drop_middle l (Z.to_nat s) x Hx) at 3. rewrite !owned_levels_app.
  change (owned_levels (sl :: ?t)) with (owned_level sl ++ owned_levels t).
  change (owned_levels (x :: drop (S (Z.to_nat s)) l)) with (owned_level x ++ owned_levels (drop (S (Z.to_nat s)) l)).
  change (owned_levels (sl :: drop (S (Z.to_nat s)) l)) with (owned_level sl ++ owned_levels (drop (S (Z.to_nat s)) l)).
  cbn [id]. set (a := owned_levels (take _ _)). set (b := owned_levels (drop _ _)).
  rewrite <- (app_assoc a), <- (app_assoc a). apply Permutation_app_head.
  rewrite Permutation_app_comm, <- app_assoc. apply Permutation_app_head, Permutation_app_comm.
Qed.

Section Heap.
Context `{P : Platform} `{Hh : HashApi}.

Definition owned (c : lms_tree_ctx_t) : list ptr :=
  if tc_levels c =? NULL then [] else tc_levels c :: owned_levels (tc_level c).

(** The blocks not given back are those the context owns. *)
Definition owes (tr : list heap_event) (c : lms_tree_ctx_t) : Prop := allocated tr ≡ₚ freed tr ++ owned c.

(** ** Operations that leave no block behind *)

(** The context without contents: its fields, the addresses of its buffers. *)
Definition bones_sub (sub : lms_subtree_t) : lms_subtree_t :=
  mkSubtree (st_height sub) 0 0 0 0 0 (mkBuffer (b_ptr (st_nodes sub)) []) (mkBuffer (b_ptr (st_stack sub)) []).
Definition bones_level (sl : lms_sublevel_t) : lms_sublevel_t :=
  mkSublevel (bones_sub (active sl)) (bones_sub (upcoming sl)) (has_upcoming sl).
Definition bones (c : lms_tree_ctx_t) : lms_tree_ctx_t := c {{ tc_level := map bones_level (tc_level c) }}.

(** However it ends, [m] keeps the bones of the context and gives back what it took. *)
Definition tidy {A} (m : TM A) : Prop := forall s,
  bones (t_ctx (snd (m s))) = bones (t_ctx s) /\
  exists d, t_trace (snd (m s)) = t_trace s ++ d /\ balanced d.

Lemma tidy_ret {A} (a : A) : tidy (mret a).
Proof. intros s. split; [reflexivity |]. exists []. split; [symmetry; apply app_nil_r | exact balanced_nil]. Qed.

Lemma tidy_fail {A} e : tidy (fail e : TM A).
Proof. intros s. split; [reflexivity |]. exists []. split; [symmetry; apply app_nil_r | exact balanced_nil]. Qed.

Lemma tidy_bind {A A'} (m : TM A) (f : A -> TM A') : tidy m -> (forall a, tidy (f a)) -> tidy (m ≫= f).
Proof.
  intros Hm Hf s. unfold mbind, M_bind. destruct (Hm s) as [Hb (d & Hd & Hbal)].
  destruct (m s) as [[a | e] s1]; cbn [snd] in *; [| split; [exact Hb | exists d; auto]].
  destruct (Hf a s1) as [Hb2 (d2 & Hd2 & Hbal2)]. split; [congruence |].
  exists (d ++ d2). rewrite Hd2, Hd, app_assoc. split; [reflexivity | apply balanced_app; assumption].
Qed.

Lemma tidy_or_return {A} e (m : TM A) : tidy m -> tidy (or_return e m).
Proof. intros Hm s. specialize (Hm s). unfold or_return. destruct (m s) as [[a | e'] s1]; exact Hm. Qed.

Lemma tidy_attempt {A} (m : TM A) : tidy m -> tidy (attempt m).
Proof. intros Hm s. specialize (Hm s). unfold attempt. destruct (m s) as [r s1]. exact Hm. Qed.

Lemma tidy_guard b e : tidy (guard_err b e).
Proof. destruct b; [apply tidy_fail | apply tidy_ret]. Qed.

Lemma tidy_loop {A} n i (body : Z -> A -> TM A) a : (forall k a, tidy (body k a)) -> tidy (loopM n i body a).
Proof.
  intros Hb. revert i a. induction n as [| n IH]; intros i a; [apply tidy_ret |].
  cbn [loopM]. apply tidy_bind; [apply Hb | intros a'; apply IH].
Qed.

Lemma tidy_get_ctx : tidy get_ctx.
Proof. intros s. split; [reflexivity |]. exists []. split; [symmetry; apply app_nil_r | exact balanced_nil]. Qed.

Lemma tidy_get_sub r : tidy (get_sub r).
Proof. intros s. split; [reflexivity |]. exists []. split; [symmetry; apply app_nil_r | exact balanced_nil]. Qed.

Lemma tidy_world {A} (m : C A) : tidy (t_on_world m).
Proof.
  intros s. unfold t_on_world. destruct s as [w c t]. cbn. destruct (m w) as [r w'].
  split; [reflexivity |]. exists []. split; [symmetry; apply app_nil_r | exact balanced_nil].
Qed.

Lemma bones_upd c s sl : bones_level sl = bones_level (level_of c s) ->
  bones (c {{ tc_level := upd s sl (tc_level c) }}) = bones c.
Proof.
  intros Hl. unfold bones.
  destruct c as [c1 c2 c3 c4 c5 c6 c7 c8 c9 levels c11 c12 c13 c14 c15 c16 c17]. cbn in *. f_equal.
  unfold level_of, upd in *. cbn in *. rewrite list_fmap_insert, Hl.
  destruct (decide (Z.to_nat s < length levels)%nat) as [Hlt | Hge].
  - apply list_insert_id. rewrite list_lookup_fmap, nth_lookup.
    destruct (lookup_lt_is_Some_2 levels (Z.to_nat s) Hlt) as [x ->]. reflexivity.
  - apply list_insert_ge. rewrite length_fmap. lia.
Qed.

Lemma bones_put c r sub : bones_sub sub = bones_sub (sub_of c r) -> bones (put_sub r sub c) = bones c.
Proof.
  intros He. destruct r as [| s | s]; [reflexivity | |]; cbn [put_sub sub_of] in *;
    apply bones_upd; destruct (level_of c s) as [a u x]; unfold bones_level; cbn in *; rewrite He; reflexivity.
Qed.

Lemma tidy_update_sub r f : (forall sub, bones_sub (f sub) = bones_sub sub) -> tidy (update_sub r f).
Proof.
  intros Hf s. destruct s as [w c t]. split; [apply bones_put, Hf |].
  exists []. split; [symmetry; apply app_nil_r | exact balanced_nil].
Qed.

(** One call of the allocator. *)
Lemma alloc_run alloc context size s : exists p s1, t_alloc alloc context size s = (Ok p, s1) /\
  t_ctx s1 = t_ctx s /\ t_trace s1 = t_trace s ++ [Alloc size p].
Proof.
  unfold t_alloc. destruct s as [w c t]. cbn. destruct (alloc context size (device w)) as [p d].
  exists p. eexists. split; [reflexivity |]. split; reflexivity.
Qed.

Lemma free_run free context p s : exists s1, t_free free context p s = (Ok tt, s1) /\
  t_ctx s1 = t_ctx s /\ t_trace s1 = t_trace s ++ [Free p].
Proof. unfold t_free, modify. destruct s as [w c t]. eexists. split; [reflexivity |]. split; reflexivity. Qed.

(** A block taken, used by a tidy computation, and given back. *)
Lemma tidy_block {A} alloc (free : lms_tree_free_fn) context size e (m : ptr -> TM A) (k : result lms_status_t A -> TM unit) :
  (forall p, tidy (m p)) -> (forall r, tidy (k r)) ->
  tidy (p ← t_alloc alloc context size;
        guard_err (p =? NULL) e ;;
        rc ← attempt (m p);
        t_free free context p ;;
        k rc).
Proof.
  intros Hm Hk s. destruct (alloc_run alloc context size s) as (p & s1 & E1 & Hc1 & Ht1).
  rewrite (bind_ok _ _ _ _ _ E1). unfold guard_err. destruct (Z.eqb_spec p NULL) as [-> | Hp].
  { unfold mbind, M_bind, fail, snd. rewrite Hc1, Ht1. split; [reflexivity |].
    exists [Alloc size NULL]. split; [reflexivity | apply perm_nil]. }
  rewrite (bind_ok (mret (M:=TM) tt) _ s1 tt s1 eq_refl). destruct (tidy_attempt _ (Hm p) s1) as [Hb (d & Hd & Hbal)].
  destruct (attempt (m p) s1) as [[r | e'] s2] eqn:E2; [| unfold attempt in E2; destruct (m p s1); discriminate].
  rewrite (bind_ok _ _ _ _ _ E2). unfold snd in Hb, Hd.
  destruct (free_run free context p s2) as (s3 & E3 & Hc3 & Ht3). rewrite (bind_ok _ _ _ _ _ E3).
  destruct (Hk r s3) as [Hb3 (d3 & Hd3 & Hbal3)]. split; [congruence |].
  exists (([Alloc size p] ++ d ++ [Free p]) ++ d3). split.
  - rewrite Hd3, Ht3, Hd, Ht1, <- !app_assoc. reflexivity.
  - apply balanced_app; [apply balanced_block; assumption | exact Hbal3].
Qed.

Create HintDb tidy.
#[local] Hint Resolve tidy_ret tidy_fail tidy_guard tidy_get_ctx tidy_get_sub tidy_world : tidy.

Ltac tidy_step :=
  first [ solve [eauto with tidy]
        | apply tidy_or_return
        | apply tidy_loop; intros
        | apply tidy_update_sub; intros []; reflexivity
        | apply tidy_bind; [| intros]
        | match goal with
          | |- tidy (let '(_, _) := ?x in _) => destruct x
          | |- tidy (match ?x with _ => _ end) => destruct x
          end ].
Ltac tidy_solve := repeat (tidy_step; cbn beta iota zeta).

Lemma tidy_merge_loop fuel : forall r I_ alg n sub_h i leaf_seq cur,
  tidy (merge_loop fuel r I_ alg n sub_h i leaf_seq cur).
Proof. induction fuel as [| fuel IH]; intros; cbn [merge_loop]; tidy_solve. Qed.
#[local] Hint Resolve tidy_merge_loop : tidy.

Lemma tidy_add_next_node r v I_ alg n : tidy (lms_tree_add_next_node r v I_ alg n).
Proof.
  destruct r, v, I_; cbn [lms_tree_add_next_node]; unfold add_next_node; tidy_solve.
Qed.
#[local] Hint Resolve tidy_add_next_node : tidy.

Lemma tidy_push_leaf priv f r q : tidy (subtree_push_leaf priv f r q).
Proof. unfold subtree_push_leaf. tidy_solve. Qed.
#[local] Hint Resolve tidy_push_leaf : tidy.

Lemma tidy_build_bottom priv f r left : tidy (subtree_build_bottom priv f r left).
Proof. unfold subtree_build_bottom. tidy_solve. Qed.

Lemma tidy_build_upper r left roots : tidy (subtree_build_upper r left roots).
Proof. unfold subtree_build_upper. tidy_solve. Qed.
#[local] Hint Resolve tidy_build_bottom tidy_build_upper : tidy.

Lemma tidy_build_at priv f s : forall leaf_lo r, tidy (subtree_build_at s priv f leaf_lo r).
Proof.
  induction s as [| s IH]; intros leaf_lo r; cbn [subtree_build_at];
    (apply tidy_bind; [apply tidy_get_ctx | intros c]);
    (apply tidy_bind; [apply tidy_update_sub; intros []; reflexivity | intros _]); [tidy_solve |].
  apply tidy_bind; [apply tidy_get_sub | intros sub]. apply tidy_bind; [apply tidy_get_sub | intros lower].
  destruct (tc_alloc c) as [alloc |], (tc_free c) as [free |]; [| apply tidy_fail..].
  apply (tidy_block alloc free (tc_alloc_ctx c) _ LMS_ERR_INVALID (fun _ => _) (fun rc => _)); intros; tidy_solve.
Qed.
#[local] Hint Resolve tidy_build_at : tidy.

Lemma tidy_check_tree_call ctx priv : tidy (check_tree_call ctx priv).
Proof. unfold check_tree_call. tidy_solve. Qed.
#[local] Hint Resolve tidy_check_tree_call : tidy.

Lemma tidy_propagate n : forall s c leaf, tidy (propagate n s c leaf).
Proof. induction n as [| n IH]; intros; cbn [propagate]; tidy_solve. Qed.
#[local] Hint Resolve tidy_propagate : tidy.

Lemma tidy_keygen_root ctx priv root : tidy (lms_tree_keygen_root ctx priv root).
Proof. unfold lms_tree_keygen_root. tidy_solve. Qed.

Lemma tidy_sign_init ctx priv : tidy (lms_tree_sign_init ctx priv).
Proof. unfold lms_tree_sign_init. tidy_solve. Qed.

Lemma tidy_sign_advance ctx priv q : tidy (lms_tree_sign_advance ctx priv q).
Proof. unfold lms_tree_sign_advance, advance_layer. tidy_solve. Qed.
#[local] Hint Resolve tidy_sign_advance : tidy.

Lemma tidy_auth_path_backend context priv q path : tidy (lms_subtree_auth_path_backend context priv q path).
Proof. unfold lms_subtree_auth_path_backend. tidy_solve. Qed.

Lemma tidy_build_internal n : forall r, tidy (subtree_build_internal n r).
Proof. induction n as [| n IH]; intros; cbn [subtree_build_internal]; tidy_solve. Qed.
#[local] Hint Resolve tidy_build_internal : tidy.

Lemma tidy_build_active ctx priv : tidy (lms_tree_build_active ctx priv).
Proof. unfold lms_tree_build_active. tidy_solve. Qed.
End Heap.
