(* ===== verification/SubtreeInit.v ===== *)
(** The life of a context of src/lms_subtree.c: [lms_tree_ctx_init] builds a context that
    fits its configuration or gives everything back, [lms_tree_ctx_free] gives back what
    the context owns, and [lms_tree_ctx_allocated_bytes] is the configurator's estimate
    plus the array of layers. *)

From S2P Require Import Prelude Types HashApi Params Spec LmOts LmOtsCorrect Tree Lms LmsCorrect Subtree SubtreeCorrect SubtreeTriples SubtreeConfig SubtreeHeap.

(** * Triples on the context and the trace

    [Inv] is any invariant of the library's state that the allocator keeps. *)

Section HeapTriples.
Context `{P : Platform}.
Variable Inv : world -> Prop.

Abbreviation heap := (vtriple (fun s => Inv (t_world s)) (fun s => (t_ctx s, t_trace s))).

Lemma heap_get_ctx c tr G : heap (c, tr) G get_ctx (fun a v => a = c /\ v = (c, tr)).
Proof. intros s Hi [= <- <-]. repeat split; apply Hi. Qed.

Lemma heap_get_sub r c tr G : heap (c, tr) G (get_sub r) (fun a v => a = sub_of c r /\ v = (c, tr)).
Proof. intros s Hi [= <- <-]. repeat split; apply Hi. Qed.

Lemma heap_update_ctx f c tr G : heap (c, tr) G (update_ctx f) (fun _ v => v = (f c, tr)).
Proof. intros s Hi [= <- <-]. destruct s. split; [reflexivity | exact Hi]. Qed.

Lemma heap_update_sub r f c tr G : heap (c, tr) G (update_sub r f) (fun _ v => v = (put_sub r (f (sub_of c r)) c, tr)).
Proof. intros s Hi [= <- <-]. destruct s. split; [reflexivity | exact Hi]. Qed.

Lemma heap_alloc c tr G alloc context size :
  keeps Inv (fun d => snd (alloc context size d)) ->
  heap (c, tr) G (t_alloc alloc context size)
    (fun p v => (exists d, p = fst (alloc context size d)) /\ v = (c, tr ++ [Alloc size p])).
Proof.
  intros Hk s Hi [= <- <-]. unfold t_alloc. destruct s as [w c t]. cbn. specialize (Hk w Hi). cbn in Hk.
  destruct (alloc context size (device w)) as [p d] eqn:E.
  split; [| exact Hk]. split; [eexists; rewrite E |]; reflexivity.
Qed.

Lemma heap_free c tr G free context p :
  keeps Inv (free context p) ->
  heap (c, tr) G (t_free free context p) (fun _ v => v = (c, tr ++ [Free p])).
Proof. intros Hk s Hi [= <- <-]. destruct s as [w c t]. split; [reflexivity | exact (Hk w Hi)]. Qed.

Lemma heap_world {A} c tr (G : lms_tree_ctx_t * list heap_event -> Prop) (m : C A) a :
  (forall w, Inv w -> exists w', m w = (Ok a, w') /\ Inv w') -> heap (c, tr) G (t_on_world m) (fun x v => x = a /\ v = (c, tr)).
Proof.
  intros Hm s Hi [= <- <-]. unfold t_on_world. destruct (Hm _ Hi) as (w' & E & Hi').
  destruct s as [w c t]. cbn in *. rewrite E. auto.
Qed.
End HeapTriples.

(** * Freeing *)

Definition in_range `{P : Platform} (c : lms_tree_ctx_t) (r : sub_ref) : Prop :=
  match r with SubNull => False | SubActive s | SubUpcoming s => 0 <= s < Z.of_nat (length (tc_level c)) end.

Section Free.
Context `{P : Platform} `{Hh : HashApi}.
Variable Inv : world -> Prop.
Abbreviation heap := (vtriple (fun s => Inv (t_world s)) (fun s => (t_ctx s, t_trace s))).

Lemma sub_of_put_same c r sub : in_range c r -> sub_of (put_sub r sub c) r = sub.
Proof.
  intros Hr. destruct r as [| s | s]; [contradiction | |]; cbn [in_range put_sub sub_of] in *;
    rewrite level_of_upd by lia; rewrite Z.eqb_refl; destruct (level_of c s); reflexivity.
Qed.

(** All fields but the layers, and the layers but [s]. *)
Record same_but (s : Z) (c c' : lms_tree_ctx_t) : Prop := {
  same_static : c' {{ tc_level := [] }} = c {{ tc_level := [] }};
  same_length : length (tc_level c') = length (tc_level c);
  same_levels : forall s', 0 <= s' -> s' <> s -> level_of c' s' = level_of c s'
}.

Lemma same_but_trans s c1 c2 c3 : same_but s c1 c2 -> same_but s c2 c3 -> same_but s c1 c3.
Proof.
  intros [H1 H2 H3] [H4 H5 H6]. split; [congruence | congruence |].
  intros s' Hs Hne. rewrite H6, H3 by assumption. reflexivity.
Qed.

Lemma same_but_upd c s sl : 0 <= s < Z.of_nat (length (tc_level c)) ->
  same_but s c (c {{ tc_level := upd s sl (tc_level c) }}) /\
  level_of (c {{ tc_level := upd s sl (tc_level c) }}) s = sl.
Proof.
  intros Hs. split; [split |].
  - destruct c. reflexivity.
  - destruct c. cbn. apply length_insert.
  - intros s' Hs' Hne. rewrite level_of_upd by lia. destruct (Z.eqb_spec s' s); [contradiction | reflexivity].
  - rewrite level_of_upd, Z.eqb_refl by lia. reflexivity.
Qed.

(** A freed subtree. *)
Definition emptied (sub : lms_subtree_t) : lms_subtree_t := (sub {{ st_nodes := no_buffer }}) {{ st_stack := no_buffer }}.

Lemma free_buffer_ok c tr G free context b :
  (forall p, keeps Inv (free context p)) ->
  heap (c, tr) G (free_buffer free context b) (fun _ v => v = (c, tr ++ map Free (nonnull (b_ptr b)))).
Proof.
  intros Hk. unfold free_buffer, buffer_null, nonnull. destruct (b_ptr b =? NULL).
  - apply vtriple_ret. cbn. rewrite app_nil_r. reflexivity.
  - apply heap_free, Hk.
Qed.

Lemma put_put c r x y : in_range c r -> put_sub r y (put_sub r x c) = put_sub r y c.
Proof.
  intros Hr. destruct r as [| s | s]; [contradiction | |]; cbn [in_range put_sub] in *;
    rewrite level_of_upd, Z.eqb_refl by lia; unfold level_of, upd; destruct c; cbn in *;
    rewrite list_insert_insert_eq; repeat f_equal; destruct (nth _ _ _); reflexivity.
Qed.

Lemma free_buffers_ok c tr G r free context :
  (forall p, keeps Inv (free context p)) -> in_range c r ->
  heap (c, tr) G (subtree_free_buffers r (Some free) context)
    (fun _ v => v = (put_sub r (emptied (sub_of c r)) c, tr ++ map Free (owned_sub (sub_of c r)))).
Proof.
  intros Hk Hr. unfold subtree_free_buffers. assert (Hgen :
    heap (c, tr) G
      (sub ← get_sub r;
       free_buffer free context (st_nodes sub) ;;
       update_sub r (fun sub => sub {{ st_nodes := no_buffer }}) ;;
       free_buffer free context (st_stack sub) ;;
       update_sub r (fun sub => sub {{ st_stack := no_buffer }}))
      (fun _ v => v = (put_sub r (emptied (sub_of c r)) c, tr ++ map Free (owned_sub (sub_of c r))))).
  { eapply vtriple_bind; [apply heap_get_sub |]. intros ? ? [-> ->].
    eapply vtriple_bind; [apply free_buffer_ok, Hk |]. intros _ ? ->.
    eapply vtriple_bind; [apply heap_update_sub |]. intros _ ? ->.
    eapply vtriple_bind; [apply free_buffer_ok, Hk |]. intros _ ? ->.
    eapply vtriple_post; [apply heap_update_sub |]. intros _ v ->.
    rewrite sub_of_put_same, put_put by exact Hr. unfold owned_sub. rewrite map_app, app_assoc. reflexivity. }
  destruct r; [contradiction | exact Hgen..].
Qed.

(** Freeing a layer. *)
Lemma free_level_ok c tr G s free context :
  (forall p, keeps Inv (free context p)) -> 0 <= s < Z.of_nat (length (tc_level c)) ->
  heap (c, tr) G
    (subtree_free_buffers (SubActive s) (Some free) context ;;
     if has_upcoming (level_of c s) then subtree_free_buffers (SubUpcoming s) (Some free) context else mret tt)
    (fun _ v => same_but s c (fst v) /\ snd v = tr ++ map Free (owned_level (level_of c s))).
Proof.
  intros Hk Hs. eapply vtriple_bind; [apply free_buffers_ok; [exact Hk | exact Hs] |]. intros _ ? ->.
  cbn [put_sub sub_of]. set (sl := (level_of c s) {{ active := _ }}).
  destruct (same_but_upd c s sl Hs) as [Hsame Hlev]. set (c1 := c {{ tc_level := _ }}) in *.
  unfold owned_level. destruct (has_upcoming (level_of c s)).
  - assert (Hs1 : 0 <= s < Z.of_nat (length (tc_level c1))) by (rewrite (same_length _ _ _ Hsame); exact Hs).
    eapply vtriple_post; [apply free_buffers_ok; [exact Hk | exact Hs1] |]. intros _ v ->. cbn [fst snd put_sub sub_of].
    split; [apply (same_but_trans s c c1 _ Hsame), same_but_upd, Hs1 |].
    rewrite Hlev. unfold sl. rewrite map_app, app_assoc. destruct (level_of c s). reflexivity.
  - apply vtriple_ret. cbn [fst snd]. rewrite app_nil_r. auto.
Qed.

(** [lms_tree_ctx_free]: the buffers in order, then the array. *)
Lemma ctx_free_ok c tr G ctx free :
  ctx <> NULL -> tc_free c = Some free -> (forall p, keeps Inv (free (tc_alloc_ctx c) p)) ->
  (tc_levels c <> NULL -> Z.of_nat (length (tc_level c)) = tc_sublevels c) ->
  heap (c, tr) G (lms_tree_ctx_free ctx)
    (fun _ v => tc_levels (fst v) = NULL /\ tc_sublevels (fst v) = 0 /\
       snd v = tr ++ map Free (if tc_levels c =? NULL then [] else owned_levels (tc_level c) ++ [tc_levels c])).
Proof.
  intros Hctx Ef Hkeep Hlen. unfold lms_tree_ctx_free. destruct (Z.eqb_spec ctx NULL) as [| _]; [contradiction |].
  eapply vtriple_bind; [apply heap_get_ctx |]. intros ? ? [-> ->].
  rewrite Ef.
  destruct (Z.eqb_spec (tc_levels c) NULL) as [Hnull | Hnn]; cbn [negb].
  { eapply vtriple_bind; [apply (vtriple_ret _ _ _ _ _ (fun _ v => v = (c, tr))); reflexivity |]. intros _ ? ->.
    eapply vtriple_post; [apply heap_update_ctx |]. intros _ ? ->. cbn [fst snd map]. rewrite app_nil_r.
    destruct c. auto. }
  specialize (Hlen Hnn).
  apply vtriple_bind with (Q := fun _ v => tc_levels (fst v) = NULL /\
    snd v = tr ++ map Free (owned_levels (tc_level c) ++ [tc_levels c])); [eapply vtriple_bind |].
  - apply (vtriple_loop _ _ _ (Z.to_nat (tc_sublevels c)) 0 _ (fun k _ v =>
      (fst v) {{ tc_level := [] }} = c {{ tc_level := [] }} /\ length (tc_level (fst v)) = length (tc_level c) /\
      (forall s, k <= s < tc_sublevels c -> level_of (fst v) s = level_of c s) /\
      snd v = tr ++ map Free (owned_levels (take (Z.to_nat k) (tc_level c))))).
    { cbn [fst snd]. rewrite take_0, app_nil_r. auto. }
    intros k [] [c1 tr1] Hk (H1 & H2 & H3 & H4). cbn [fst snd] in *. rewrite <- (H3 k) by lia.
    eapply vtriple_post; [apply free_level_ok; [exact Hkeep | lia] |]. intros _ [c2 tr2] ([S1 S2 S3] & Htr). cbn [fst snd] in *.
    split; [congruence |]. split; [congruence |]. split.
    + intros s Hs. rewrite S3 by lia. apply H3. lia.
    + rewrite Htr, H4, (H3 k) by lia. rewrite <- app_assoc, <- map_app.
      replace (Z.to_nat (k + 1)) with (S (Z.to_nat k)) by lia.
      rewrite (take_S_r _ _ (level_of c k)).
      * rewrite owned_levels_app. cbn. rewrite app_nil_r. reflexivity.
      * unfold level_of. rewrite nth_lookup. destruct (lookup_lt_is_Some_2 (tc_level c) (Z.to_nat k) ltac:(lia)) as [x ->]. reflexivity.
  - intros _ [c1 tr1] (H1 & H2 & _ & H4). cbn [fst snd] in *.
    eapply vtriple_bind; [apply heap_free, Hkeep |]. intros _ ? ->.
    eapply vtriple_post; [apply heap_update_ctx |]. intros _ v ->. cbn [fst snd].
    split; [destruct c1; reflexivity |].
    rewrite H4, take_ge, <- app_assoc, map_app by lia. reflexivity.
  - intros _ [c1 tr1] [H1 H2]. cbn [fst snd] in *.
    eapply vtriple_post; [apply heap_update_ctx |]. intros _ v ->. cbn [fst snd].
    split; [rewrite <- H1; destruct c1; reflexivity |]. split; [destruct c1; reflexivity | exact H2].
Qed.
End Free.

(** * Initialising *)

Section Init.
Context `{P : Platform} `{Hh : HashApi}.
Variable F : Prop.
Variable Inv : world -> Prop.
Variable alloc : lms_tree_alloc_fn.
Variable free : lms_tree_free_fn.
Variable alloc_ctx : ptr.
Hypothesis Halloc : forall size d, fst (alloc alloc_ctx size d) = NULL -> F.
Hypothesis Hkeep_alloc : forall size, keeps Inv (fun d => snd (alloc alloc_ctx size d)).
Hypothesis Hkeep_free : forall p, keeps Inv (free alloc_ctx p).
Abbreviation heap := (vtriple (fun s => Inv (t_world s)) (fun s => (t_ctx s, t_trace s))).

(** A subtree with buffers, as [subtree_init_buffers] makes it. *)
Definition fresh_sub (sub_h level below tree_h left : Z) (p1 p2 : ptr) : lms_subtree_t :=
  mkSubtree sub_h level below tree_h left 0 (mkBuffer p1 (fill 0 (2 ^ (sub_h + 1) * LMS_N))) (mkBuffer p2 (fill 0 (sub_h * LMS_N))).

Lemma bytes_fit k : 1 <= k <= 25 ->
  to_size (subtree_nodes_bytes k LMS_N) = 2 ^ (k + 1) * LMS_N /\ to_size (k * LMS_N) = k * LMS_N.
Proof.
  intros Hk. destruct (sub_bytes_ok k Hk) as [-> _]. pose proof SIZE_MAX_ge as Hs. unfold UINT_MAX in Hs.
  pose proof (Z.pow_le_mono_r 2 (k + 1) 26 ltac:(lia) ltac:(lia)). pose proof (pow2_pos (k + 1) ltac:(lia)).
  unfold to_size, LMS_N. rewrite !Z.mod_small by lia. auto.
Qed.

(** On failure the place is empty and nothing is kept. *)
Lemma init_buffers_ok c tr r sub_h level below tree_h left :
  in_range c r -> 1 <= sub_h <= 25 ->
  heap (c, tr)
    (fun v => F /\ exists sub d, v = (put_sub r sub c, tr ++ d) /\ owned_sub sub = [] /\ balanced d)
    (subtree_init_buffers r sub_h level below tree_h left LMS_N true alloc free alloc_ctx)
    (fun _ v => exists p1 p2 n1 n2, p1 <> NULL /\ p2 <> NULL /\
       v = (put_sub r (fresh_sub sub_h level below tree_h left p1 p2) c, tr ++ [Alloc n1 p1; Alloc n2 p2])).
Proof.
  intros Hr Hh0. unfold subtree_init_buffers. destruct (bytes_fit sub_h Hh0) as [E1 E2].
  eapply vtriple_bind; [apply heap_update_sub |]. intros _ ? ->. rewrite E1, E2.
  eapply vtriple_bind; [apply heap_alloc, Hkeep_alloc |]. intros p1 ? [[d1 Hp1] ->].
  eapply vtriple_bind; [apply vtriple_guard | intros [] ? [-> Hn1]; apply Z.eqb_neq in Hn1].
  { intros Hn. apply Z.eqb_eq in Hn. subst p1. split; [exact (Halloc _ _ Hn) |].
    rewrite Hn. eexists _, _. split; [reflexivity |]. split; [reflexivity | apply perm_nil]. }
  eapply vtriple_bind; [apply heap_update_sub |]. intros _ ? ->.
  rewrite put_put, sub_of_put_same by exact Hr. destruct (Z.ltb_spec 0 sub_h) as [_ |]; [| lia]. cbn [andb].
  eapply vtriple_bind; [apply heap_alloc, Hkeep_alloc |]. intros p2 ? [[d2 Hp2] ->].
  assert (Hr' : forall x, in_range (put_sub r x c) r) by (intros x; destruct r; [contradiction | |]; cbn [in_range] in *; rewrite length_put; exact Hr).
  destruct (Z.eqb_spec p2 NULL) as [-> | Hn2].
  - eapply vtriple_bind; [apply free_buffers_ok; [exact Hkeep_free | apply Hr'] |]. intros _ ? ->. apply vtriple_fail.
    split; [exact (Halloc _ _ (eq_sym Hp2)) |]. rewrite sub_of_put_same, put_put by exact Hr.
    eexists _, _. rewrite <- !app_assoc. split; [reflexivity |]. split; [reflexivity |].
    unfold owned_sub. cbn. rewrite (nonnull_some p1 Hn1).
    apply (balanced_block _ p1 [Alloc (sub_h * LMS_N) NULL] Hn1 (perm_nil _)).
  - eapply vtriple_post; [apply heap_update_sub |]. intros _ v ->. rewrite sub_of_put_same, put_put by exact Hr.
    exists p1, p2. eexists _, _. rewrite <- !app_assoc. split; [exact Hn1 |]. split; [exact Hn2 | reflexivity].
Qed.

(** ** Ownership *)

Lemma owned_upd c s sl :
  tc_levels c <> NULL -> 0 <= s < Z.of_nat (length (tc_level c)) ->
  owned (c {{ tc_level := upd s sl (tc_level c) }}) ++ owned_level (level_of c s) ≡ₚ owned c ++ owned_level sl.
Proof.
  intros Hn Hs. unfold owned. destruct c as [c1 c2 c3 c4 c5 c6 c7 c8 c9 levels c11 c12 c13 c14 c15 c16 c17]. cbn in *.
  destruct (Z.eqb_spec c9 NULL) as [| _]; [contradiction |]. cbn [app]. apply perm_skip, owned_levels_upd, Hs.
Qed.

(** A subtree the context's free would reach. *)
Definition reached (c : lms_tree_ctx_t) (r : sub_ref) : Prop :=
  in_range c r /\ match r with SubUpcoming s => has_upcoming (level_of c s) = true | _ => True end.

Lemma owned_put c r sub :
  tc_levels c <> NULL -> reached c r ->
  owned (put_sub r sub c) ++ owned_sub (sub_of c r) ≡ₚ owned c ++ owned_sub sub.
Proof.
  intros Hn [Hr Hu]. destruct r as [| s | s]; [contradiction | |]; cbn [in_range put_sub sub_of] in *;
    [set (sl := (level_of c s) {{ active := sub }}) | set (sl := (level_of c s) {{ upcoming := sub }})];
    pose proof (owned_upd c s sl Hn Hr) as H; unfold owned_level in H; subst sl;
    destruct (level_of c s) as [a u x]; cbn in *; try subst x.
  - rewrite !app_assoc in H. exact (Permutation_app_inv_r _ _ _ H).
  - rewrite (Permutation_app_comm (owned_sub a)), (Permutation_app_comm (owned_sub a)), !app_assoc in H.
    exact (Permutation_app_inv_r _ _ _ H).
Qed.

Record freeable (c : lms_tree_ctx_t) : Prop := {
  freeable_free : tc_free c = Some free;
  freeable_context : tc_alloc_ctx c = alloc_ctx;
  freeable_levels : tc_levels c <> NULL;
  freeable_length : Z.of_nat (length (tc_level c)) = tc_sublevels c
}.

Lemma put_static c r sub : (put_sub r sub c) {{ tc_level := [] }} = c {{ tc_level := [] }}.
Proof. destruct r, c; reflexivity. Qed.

Lemma freeable_same c c' :
  c' {{ tc_level := [] }} = c {{ tc_level := [] }} -> length (tc_level c') = length (tc_level c) ->
  freeable c -> freeable c'.
Proof.
  intros Hs Hl [H1 H0 H2 H3]. destruct c as [c1 c2 c3 c4 c5 c6 c7 c8 c9 levels c11 c12 c13 c14 c15 c16 c17].
  destruct c' as [d1 d2 d3 d4 d5 d6 d7 d8 d9 levels' d11 d12 d13 d14 d15 d16 d17]. cbn in *.
  injection Hs as -> -> -> -> -> -> -> -> -> -> -> -> -> -> -> ->. split; cbn; congruence.
Qed.

(** The trace since [tr0] has handed out what the context owns. *)
Definition owes_since (tr0 tr : list heap_event) (c : lms_tree_ctx_t) : Prop :=
  exists d, tr = tr0 ++ d /\ allocated d ≡ₚ freed d ++ owned c.

Definition nothing_since (tr0 tr : list heap_event) : Prop := exists d, tr = tr0 ++ d /\ balanced d.

Lemma allocated_frees l : allocated (map Free l) = [].
Proof. induction l as [| p l IH]; [reflexivity | exact IH]. Qed.

Lemma freed_frees l : freed (map Free l) = l.
Proof. induction l as [| p l IH]; [reflexivity |]. unfold freed in *. cbn. f_equal. exact IH. Qed.

(** What [lms_tree_ctx_free] gives back is what the context owns. *)
Lemma free_owned c tr0 tr :
  tc_levels c <> NULL -> owes_since tr0 tr c ->
  nothing_since tr0 (tr ++ map Free (owned_levels (tc_level c) ++ [tc_levels c])).
Proof.
  intros Hn (d & -> & Hd). exists (d ++ map Free (owned_levels (tc_level c) ++ [tc_levels c])).
  split; [rewrite app_assoc; reflexivity |]. unfold balanced.
  rewrite allocated_app, freed_app, allocated_frees, freed_frees, app_nil_r, Hd. apply Permutation_app_head.
  unfold owned. destruct (Z.eqb_spec (tc_levels c) NULL); [contradiction |]. apply Permutation_cons_append.
Qed.

Lemma or_free_ctx_ok v G tr0 (m : TM unit) ctx Q :
  ctx <> NULL -> heap v G m Q ->
  (forall v', G v' -> F /\ freeable (fst v') /\ owes_since tr0 (snd v') (fst v')) ->
  heap v (fun v' => F /\ nothing_since tr0 (snd v')) (or_free_ctx ctx m) Q.
Proof.
  intros Hctx Hm HG. unfold or_free_ctx. intros s Hi Hs. specialize (Hm s Hi Hs).
  unfold attempt. unfold mbind at 1, M_bind at 1.
  destruct (m s) as [[[] | e] s1]; [exact Hm |]. destruct Hm as [Hg Hi1].
  destruct (HG _ Hg) as (HF & [Hf1 Hf0 Hf2 Hf3] & Ho). cbn [fst snd] in *.
  pose proof (ctx_free_ok Inv (t_ctx s1) (t_trace s1) (fun _ => False) ctx free Hctx Hf1
    ltac:(rewrite Hf0; exact Hkeep_free) (fun _ => Hf3) s1 Hi1 eq_refl) as Hfree.
  unfold mbind, M_bind. destruct (lms_tree_ctx_free ctx s1) as [[[] | e'] s2]; [| destruct Hfree as [[] _]].
  destruct Hfree as [(_ & _ & Htr) Hi2]. cbn [fst snd] in Htr. unfold fail. cbn [snd].
  split; [| exact Hi2]. split; [exact HF |]. rewrite Htr.
  destruct (Z.eqb_spec (tc_levels (t_ctx s1)) NULL); [contradiction | apply free_owned; assumption].
Qed.

(** After a failed [subtree_init_buffers] the caller can free. *)
Lemma init_failed c tr0 tr r sub d :
  freeable c -> reached c r -> owned_sub (sub_of c r) = [] -> owes_since tr0 tr c ->
  owned_sub sub = [] -> balanced d ->
  freeable (put_sub r sub c) /\ owes_since tr0 (tr ++ d) (put_sub r sub c).
Proof.
  intros Hf Hr H0 (d0 & -> & Hd0) Hs Hd. split.
  - apply (freeable_same c); [apply put_static | apply length_put | exact Hf].
  - exists (d0 ++ d). split; [rewrite app_assoc; reflexivity |].
    pose proof (owned_put c r sub (freeable_levels c Hf) Hr) as Ho. rewrite H0, Hs, !app_nil_r in Ho.
    unfold balanced in Hd. rewrite allocated_app, freed_app, Hd0, Ho, Hd, <- !app_assoc. apply Permutation_app_head, Permutation_app_comm.
Qed.

(** After a successful one the context owns the two new blocks. *)
Lemma init_succeeded c tr0 tr r sub n1 n2 p1 p2 :
  freeable c -> reached c r -> owned_sub (sub_of c r) = [] -> owes_since tr0 tr c ->
  p1 <> NULL -> p2 <> NULL -> owned_sub sub = [p1; p2] ->
  owes_since tr0 (tr ++ [Alloc n1 p1; Alloc n2 p2]) (put_sub r sub c).
Proof.
  intros Hf Hr H0 (d0 & -> & Hd0) Hn1 Hn2 Hs. exists (d0 ++ [Alloc n1 p1; Alloc n2 p2]).
  split; [rewrite app_assoc; reflexivity |].
  pose proof (owned_put c r sub (freeable_levels c Hf) Hr) as Ho. rewrite H0, Hs, app_nil_r in Ho.
  rewrite allocated_app, freed_app, Hd0, Ho.
  change (allocated [Alloc n1 p1; Alloc n2 p2]) with (nonnull p1 ++ nonnull p2 ++ []).
  change (freed [Alloc n1 p1; Alloc n2 p2]) with (@nil ptr).
  rewrite !nonnull_some, !app_nil_r, <- app_assoc by assumption. reflexivity.
Qed.

(** ** The loop over the layers *)

Section Layers.
Variable ctx : ptr.
Hypothesis Hctx : ctx <> NULL.
Variables h j N : Z.
Hypothesis Hgeo : geometry h j N.
Abbreviation hs := (sub_height h j N).

(** Layer [s] as initialised. *)
Record level_init (s : Z) (sl : lms_sublevel_t) : Prop := {
  level_active : exists p1 p2, p1 <> NULL /\ p2 <> NULL /\
    active sl = fresh_sub (hs s) (root_level h j N s) (leaf_level j s) h 0 p1 p2;
  level_more : has_upcoming sl = (s + 1 <? N);
  level_upcoming : if s + 1 <? N then exists p1 p2, p1 <> NULL /\ p2 <> NULL /\
      upcoming sl = fresh_sub (hs s) (root_level h j N s) (leaf_level j s) h (2 ^ hs s) p1 p2
    else upcoming sl = zero_subtree
}.

(** Before the turn for layer [k]; [c0] is the context when the loop starts. *)
Record layers_init (c0 : lms_tree_ctx_t) (tr0 : list heap_event) (k : Z) (v : lms_tree_ctx_t * list heap_event) : Prop := {
  init_static : (fst v) {{ tc_level := [] }} = c0 {{ tc_level := [] }};
  init_length : Z.of_nat (length (tc_level (fst v))) = N;
  init_freeable : freeable (fst v);
  init_done : forall s, 0 <= s < k -> level_init s (level_of (fst v) s);
  init_todo : forall s, k <= s < N -> level_of (fst v) s = zero_sublevel;
  init_owes : owes_since tr0 (snd v) (fst v)
}.

Abbreviation failed tr0 := (fun v : lms_tree_ctx_t * list heap_event => F /\ nothing_since tr0 (snd v)).

(** One subtree of the loop's body. *)
Lemma init_place_ok c tr tr0 r sub_h level below left :
  freeable c -> reached c r -> owned_sub (sub_of c r) = [] -> owes_since tr0 tr c -> 1 <= sub_h <= 25 ->
  heap (c, tr) (failed tr0)
    (or_free_ctx ctx (subtree_init_buffers r sub_h level below h left LMS_N true alloc free alloc_ctx))
    (fun _ v => exists p1 p2, p1 <> NULL /\ p2 <> NULL /\
       fst v = put_sub r (fresh_sub sub_h level below h left p1 p2) c /\ owes_since tr0 (snd v) (fst v)).
Proof.
  intros Hf Hr H0 Ho Hh0. eapply or_free_ctx_ok; [exact Hctx | |].
  - eapply vtriple_post; [apply (init_buffers_ok c tr r sub_h level below h left (proj1 Hr) Hh0) |].
    intros _ v (p1 & p2 & n1 & n2 & Hp1 & Hp2 & ->). exists p1, p2. cbn [fst snd].
    split; [exact Hp1 |]. split; [exact Hp2 |]. split; [reflexivity |].
    apply init_succeeded; try assumption. unfold owned_sub, fresh_sub. cbn. rewrite !nonnull_some by assumption. reflexivity.
  - intros v (HF & sub & d & -> & Hs & Hd). split; [exact HF |]. cbn [fst snd]. apply (init_failed c tr0 tr r sub d); assumption.
Qed.

(** [sl->has_upcoming = has_upcoming] *)
Lemma set_more_ok c tr tr0 G k a more :
  freeable c -> 0 <= k < Z.of_nat (length (tc_level c)) -> level_of c k = mkSublevel a zero_subtree false ->
  owes_since tr0 tr c ->
  heap (c, tr) G (update_ctx (fun c => c {{ tc_level := upd k ((level_of c k) {{ has_upcoming := more }}) (tc_level c) }}))
    (fun _ v => same_but k c (fst v) /\ level_of (fst v) k = mkSublevel a zero_subtree more /\
       owes_since tr0 (snd v) (fst v)).
Proof.
  intros Hf Hk Hl (d & -> & Hd). eapply vtriple_post; [apply heap_update_ctx |]. intros _ v ->. cbn [fst snd].
  rewrite Hl. set (sl := mkSublevel a zero_subtree more).
  change ((mkSublevel a zero_subtree false) {{ has_upcoming := more }}) with sl.
  destruct (same_but_upd c k sl Hk) as [Hs Hlv]. split; [exact Hs |]. split; [exact Hlv |].
  exists d. split; [reflexivity |]. rewrite Hd. apply Permutation_app_head.
  pose proof (owned_upd c k sl (freeable_levels _ Hf) Hk) as Hown. rewrite Hl in Hown.
  unfold owned_level in Hown. subst sl. cbn [active upcoming has_upcoming] in Hown.
  destruct more; symmetry; exact (Permutation_app_inv_r _ _ _ Hown).
Qed.

Lemma layers_next c0 tr0 k v v' :
  0 <= k < N -> layers_init c0 tr0 k v -> same_but k (fst v) (fst v') -> level_init k (level_of (fst v') k) ->
  owes_since tr0 (snd v') (fst v') -> layers_init c0 tr0 (k + 1) v'.
Proof.
  intros Hk [I1 I2 I3 I4 I5 I6] [T1 T2 T3] Hlv Ho. split; try assumption.
  - congruence.
  - lia.
  - exact (freeable_same _ _ T1 T2 I3).
  - intros s Hs. destruct (Z.eq_dec s k) as [-> |]; [exact Hlv | rewrite T3 by lia; apply I4; lia].
  - intros s Hs. rewrite T3 by lia. apply I5. lia.
Qed.

Lemma init_sublevel_ok c0 tr0 k v :
  0 <= k < N -> layers_init c0 tr0 k v ->
  heap v (failed tr0) (init_sublevel ctx h N j (h - (N - 1) * j) LMS_N alloc free alloc_ctx k)
    (fun _ v' => layers_init c0 tr0 (k + 1) v').
Proof.
  intros Hk Hinv. pose proof Hinv as [_ I2 I3 _ I5 I6]. destruct v as [c tr]. cbn [fst snd] in *.
  destruct (geometry_size h j N Hgeo) as [HN Hj]. pose proof (geo_h _ _ _ Hgeo) as Hh0.
  pose proof (sub_height_range h j N Hgeo k) as Hsh. pose proof (root_level_range h j N Hgeo k Hk) as Hrl.
  pose proof (leaf_level_nonneg h j N Hgeo k ltac:(lia)) as Hl. pose proof (I5 k ltac:(lia)) as Hz.
  assert (Hrange : 0 <= k < Z.of_nat (length (tc_level c))) by lia.
  unfold init_sublevel. rewrite (u32_small (k + 1)) by lia.
  change (if k + 1 <? N then j else h - (N - 1) * j) with (hs k).
  fold (leaf_level j k). change (leaf_level j k + hs k) with (root_level h j N k).
  rewrite (u32_small (root_level h j N k)), (u32_small (leaf_level j k)) by (unfold root_level, leaf_level in *; lia).
  eapply vtriple_bind.
  { apply (init_place_ok c tr tr0 (SubActive k)); try assumption; [split; [exact Hrange | exact I] |].
    cbn [sub_of]. rewrite Hz. reflexivity. }
  intros _ [c1 tr1] (p1 & p2 & Hp1 & Hp2 & Ec1 & Ho1). cbn [fst snd put_sub] in *.
  set (sub := fresh_sub _ _ _ _ _ p1 p2) in *. rewrite Hz in Ec1.
  destruct (same_but_upd c k (mkSublevel sub zero_subtree false) Hrange) as [Hs1 Hl1].
  change (c1 = c {{ tc_level := upd k (mkSublevel sub zero_subtree false) (tc_level c) }}) in Ec1. rewrite <- Ec1 in Hs1, Hl1. clear Ec1.
  pose proof (freeable_same c c1 (same_static _ _ _ Hs1) (same_length _ _ _ Hs1) I3) as Hf1.
  eapply vtriple_bind; [apply (set_more_ok c1 tr1 tr0 _ k sub); try assumption; rewrite (same_length _ _ _ Hs1); exact Hrange |].
  intros _ [c2 tr2] (Hs2 & Hl2 & Ho2). cbn [fst snd] in *. pose proof (same_but_trans k c c1 c2 Hs1 Hs2) as Hs12.
  pose proof (freeable_same c c2 (same_static _ _ _ Hs12) (same_length _ _ _ Hs12) I3) as Hf2.
  destruct (k + 1 <? N) eqn:Emore.
  - assert (Hrange2 : 0 <= k < Z.of_nat (length (tc_level c2))) by (rewrite (same_length _ _ _ Hs12); exact Hrange).
    eapply vtriple_post.
    { apply (init_place_ok c2 tr2 tr0 (SubUpcoming k)); try assumption.
      - split; [exact Hrange2 | rewrite Hl2; reflexivity].
      - cbn [sub_of]. rewrite Hl2. reflexivity. }
    intros _ [c3 tr3] (p3 & p4 & Hp3 & Hp4 & Ec3 & Ho3). cbn [fst snd put_sub] in *. rewrite Hl2 in Ec3.
    rewrite u64_shl1 in Ec3 by lia. set (sub' := fresh_sub _ _ _ _ _ p3 p4) in *.
    destruct (same_but_upd c2 k (mkSublevel sub sub' true) Hrange2) as [Hs3 Hl3].
    change (c3 = c2 {{ tc_level := upd k (mkSublevel sub sub' true) (tc_level c2) }}) in Ec3. rewrite <- Ec3 in Hs3, Hl3.
    apply (layers_next c0 tr0 k (c, tr)); try assumption; [exact (same_but_trans _ _ _ _ Hs12 Hs3) |].
    cbn [fst]. rewrite Hl3. split; cbn; rewrite ?Emore; [exists p1, p2 | | exists p3, p4]; auto.
  - apply vtriple_ret. apply (layers_next c0 tr0 k (c, tr)); try assumption.
    cbn [fst]. rewrite Hl2. split; cbn; rewrite ?Emore; [exists p1, p2 | |]; auto.
Qed.

(** ** [lms_tree_ctx_init] *)

Variable cfg : lms_tree_config_t.
Variable lp : lms_param_t.
Hypothesis Hlp : forall w, Inv w -> exists w', or_return LMS_ERR_INVALID (lms_get_lms_param (cfg_lms_type cfg)) w = (Ok lp, w') /\ Inv w'.
Hypothesis Hcfg : cfg_height cfg = h /\ cfg_n cfg = LMS_N /\ cfg_subtree_size cfg = j /\ cfg_sublevels cfg = N.

(** The context before its layers are initialised. *)
Definition init_ctx (I_ : bytes) (ots_pub : option lms_subtree_ots_pub_fn) (ots_pub_ctx p : ptr) : lms_tree_ctx_t :=
  mkTree (cfg_lms_type cfg) h LMS_N j N (h - (N - 1) * j) (lms_p_hash_alg lp) I_ p
    (replicate (Z.to_nat N) zero_sublevel) ots_pub ots_pub_ctx None NULL (Some alloc) (Some free) alloc_ctx.

Lemma nothing_null tr0 size : nothing_since tr0 (tr0 ++ [Alloc size NULL]).
Proof. eexists. split; [reflexivity | apply perm_nil]. Qed.

Lemma owned_levels_zero n : owned_levels (replicate n zero_sublevel) = [].
Proof. induction n as [| n IH]; [reflexivity | exact IH]. Qed.

Lemma layers_start I_ ots_pub ots_pub_ctx p tr size :
  p <> NULL -> layers_init (init_ctx I_ ots_pub ots_pub_ctx p) tr 0 (init_ctx I_ ots_pub ots_pub_ctx p, tr ++ [Alloc size p]).
Proof.
  intros Hp. destruct (geometry_size h j N Hgeo) as [HN _]. split; cbn [fst snd]; try reflexivity.
  - cbn. rewrite length_replicate. lia.
  - split; cbn; [reflexivity | reflexivity | exact Hp | rewrite length_replicate; lia].
  - intros s Hs. lia.
  - intros s Hs. unfold level_of, init_ctx. cbn. rewrite nth_lookup.
    destruct (_ !! _) eqn:E; [apply lookup_replicate in E as [-> _] |]; reflexivity.
  - exists [Alloc size p]. split; [reflexivity |].
    change (owned (init_ctx I_ ots_pub ots_pub_ctx p))
      with (if p =? NULL then [] else p :: owned_levels (replicate (Z.to_nat N) zero_sublevel)).
    destruct (Z.eqb_spec p NULL) as [| _]; [contradiction |].
    rewrite owned_levels_zero. change (allocated [Alloc size p]) with (nonnull p ++ []).
    rewrite nonnull_some by exact Hp. reflexivity.
Qed.

Lemma ctx_init_ok c tr I_ ots_pub ots_pub_ctx :
  heap (c, tr) (failed tr)
    (lms_tree_ctx_init ctx (Some cfg) (Some I_) ots_pub ots_pub_ctx (Some alloc) (Some free) alloc_ctx)
    (fun _ v => exists p, layers_init (init_ctx I_ ots_pub ots_pub_ctx p) tr N v).
Proof.
  destruct Hcfg as (E1 & E2 & E3 & E4). destruct (geometry_size h j N Hgeo) as [HN Hj]. pose proof (geo_h _ _ _ Hgeo) as Hh0.
  pose proof (geo_top _ _ _ Hgeo) as Htop.
  unfold lms_tree_ctx_init. rewrite E1, E2, E3, E4.
  eapply vtriple_bind; [apply vtriple_guard; intros H; apply Z.eqb_eq in H; contradiction |]. intros [] ? [-> _].
  eapply vtriple_bind; [apply vtriple_guard; intros H; exfalso | intros [] ? [-> _]].
  { unfold LMS_SUBTREE_MIN_J, LMS_MAX_HEIGHT in H. change (LMS_N =? 0) with false in H.
    rewrite !orb_true_iff, !Z.eqb_eq, !Z.ltb_lt in H. lia. }
  rewrite (u32_small ((N - 1) * j)), (u32_small (h - (N - 1) * j)) by nia.
  eapply vtriple_bind; [apply heap_world, Hlp |]. intros ? ? [-> ->].
  eapply vtriple_bind; [apply heap_update_ctx |]. intros _ ? ->.
  eapply vtriple_bind; [apply heap_alloc, Hkeep_alloc |]. intros p ? [[d Hp] ->].
  eapply vtriple_bind; [apply vtriple_guard | intros [] ? [-> Hn]; apply Z.eqb_neq in Hn].
  { intros Hn. apply Z.eqb_eq in Hn. subst p. split; [exact (Halloc _ _ Hn) |]. rewrite Hn. apply nothing_null. }
  eapply vtriple_bind; [apply heap_update_ctx |]. intros _ ? ->.
  eapply vtriple_post; [apply (vtriple_loop _ _ _ (Z.to_nat N) 0 _
    (fun k _ v => layers_init (init_ctx I_ ots_pub ots_pub_ctx p) tr k v)) |].
  - apply layers_start, Hn.
  - intros k [] v Hk Hinv. apply init_sublevel_ok; [lia | exact Hinv].
  - intros [] v Hinv. exists p. rewrite Z2Nat.id, Z.add_0_l in Hinv by lia. exact Hinv.
Qed.
End Layers.
End Init.

(** * The initialised context *)

Section Initialised.
Context `{P : Platform} `{Hh : HashApi}.
Variable F : Prop.
Variable B : backends.
Variable alloc : lms_tree_alloc_fn.
Variable free : lms_tree_free_fn.
Variable alloc_ctx : ptr.
Hypothesis Halloc : forall size d, fst (alloc alloc_ctx size d) = NULL -> F.
Hypothesis Hkeep_alloc : forall size, keeps (inv B) (fun d => snd (alloc alloc_ctx size d)).
Hypothesis Hkeep_free : forall p, keeps (inv B) (free alloc_ctx p).
Variable lp : lms_param_t.
Variable op : lmots_param_t.
Variable I_ seed : bytes.
Variables j N : Z.
Hypothesis Hgeo : geometry (lms_p_height lp) j N.
Hypothesis Halg : lms_p_hash_alg lp = ots_p_hash_alg op.
Variable cfg : lms_tree_config_t.
Hypothesis Hty : cfg_lms_type cfg = lms_p_type lp.
Variable ots_pub_fn : option lms_subtree_ots_pub_fn.
Variable ots_pub_ctx : ptr.
Hypothesis Hots : forall f priv q, ots_pub_fn = Some f -> key_is lp op I_ seed priv -> 0 <= q < 2 ^ lms_p_height lp ->
  hoare (inv B) F (f ots_pub_ctx priv q) (fun out => out = ots_pub (ots_p_hash_alg op) op I_ seed q).
Abbreviation h := (lms_p_height lp).
Abbreviation hs := (sub_height h j N).
Abbreviation init_ctx := (init_ctx alloc free alloc_ctx h j N cfg lp I_ ots_pub_fn ots_pub_ctx).
Abbreviation layers_init := (layers_init free alloc_ctx h j N).

Lemma fresh_sub_ok r left p1 p2 :
  p1 <> NULL -> p2 <> NULL ->
  sub_ok lp j N r (fresh_sub (hs (layer r)) (root_level h j N (layer r)) (leaf_level j (layer r)) h left p1 p2).
Proof.
  intros H1 H2. pose proof (sub_height_range h j N Hgeo (layer r)) as Hs. pose proof (pow2_pos (hs (layer r) + 1) ltac:(lia)).
  split; try reflexivity. split; cbn [fresh_sub st_height st_nodes st_stack b_ptr b_data]; try assumption; try reflexivity;
    apply len_fill; unfold LMS_N; lia.
Qed.

Lemma initialised_ctx_ok p c tr tr' : layers_init (init_ctx p) tr N (c, tr') -> ctx_ok F B lp op I_ seed j N c.
Proof.
  intros [I1 I2 I3 I4 I5 I6]. cbn [fst snd] in *.
  assert (Hsubs : forall r, in_ctx N r -> sub_ok lp j N r (sub_of c r)).
  { intros r Hr. destruct r as [| s | s]; [contradiction | |]; cbn [in_ctx] in Hr;
      destruct (I4 s ltac:(lia)) as [(p1 & p2 & Hp1 & Hp2 & Ea) _ Hu]; cbn [sub_of].
    - rewrite Ea. apply (fresh_sub_ok (SubActive s)); assumption.
    - destruct (Z.ltb_spec (s + 1) N); [| lia]. destruct Hu as (p3 & p4 & Hp3 & Hp4 & ->).
      apply (fresh_sub_ok (SubUpcoming s)); assumption. }
  destruct I3 as [_ _ Hlev _]. destruct c as [c1 c2 c3 c4 c5 c6 c7 c8 c9 levels c11 c12 c13 c14 c15 c16 c17].
  injection I1 as -> -> -> -> -> -> -> -> -> -> -> -> -> -> -> ->.
  split; cbn [tc_lms_type tc_height tc_n tc_subtree_size tc_sublevels tc_hash_alg tc_I tc_levels tc_level] in *;
    try assumption; try reflexivity.
  split; cbn; [intros f priv q -> Hk Hq; apply (Hots f); auto | discriminate |].
  exists alloc, free. auto 7.
Qed.

(** The bytes the context holds: the configurator's estimate and the array of layers. *)
Lemma allocated_bytes_ok p c tr tr' :
  0 <= sizeof_lms_sublevel <= UINT_MAX -> layers_init (init_ctx p) tr N (c, tr') ->
  lms_tree_ctx_allocated_bytes (Some c) = N * sizeof_lms_sublevel + memory h j.
Proof.
  intros Hsize [I1 I2 [_ _ Hnn _] I4 _ _]. cbn [fst snd] in *. destruct (geometry_size h j N Hgeo) as [HN Hj].
  assert (Hc : tc_n c = LMS_N /\ tc_sublevels c = N).
  { pose proof (f_equal tc_n I1) as E1. pose proof (f_equal tc_sublevels I1) as E2. destruct c. cbn in *. auto. }
  destruct Hc as [En EN]. pose proof (geo_top _ _ _ Hgeo) as Htop. pose proof (geo_h _ _ _ Hgeo) as Hh0.
  pose proof (geo_j _ _ _ Hgeo) as Hj0. unfold LMS_SUBTREE_MIN_J, UINT_MAX in *.
  assert (Hlay : layers h j = N).
  { unfold layers. symmetry. apply (Z.div_unique_pos _ _ _ (h + j - 1 - j * N)); lia. }
  pose proof (subtree_bytes_range j ltac:(lia)) as Hb1.
  pose proof (subtree_bytes_range (h - (N - 1) * j) ltac:(lia)) as Hb2.
  unfold lms_tree_ctx_allocated_bytes. destruct (Z.eqb_spec (tc_levels c) NULL) as [| _]; [contradiction |].
  assert (Hsz : 0 <= N * sizeof_lms_sublevel <= 25 * 4294967295) by nia. rewrite EN, (u64_small (N * _)) by lia.
  match goal with |- for_z _ _ ?f _ = _ =>
    pose proof (for_z_inv f (fun s t => t = N * sizeof_lms_sublevel +
      (if s <=? N - 1 then 2 * s * subtree_bytes j else memory h j)) (Z.to_nat N) 0 (N * sizeof_lms_sublevel)) as Hinv
  end.
  rewrite Z2Nat.id, Z.add_0_l in Hinv by lia. rewrite Hinv.
  - destruct (Z.leb_spec N (N - 1)); lia.
  - destruct (Z.leb_spec 0 (N - 1)); lia.
  - intros s t Hs ->. destruct (Z.leb_spec s (N - 1)); [| lia].
    assert (Hsb : 0 <= s * subtree_bytes j <= 25 * 2 ^ 32) by (split; [nia | apply Z.mul_le_mono_nonneg; lia]).
    destruct (I4 s ltac:(lia)) as [(p1 & p2 & Hp1 & Hp2 & Ea) Hm Hu]. rewrite Ea, Hm, En.
    pose proof (sub_height_range h j N Hgeo s) as Hsh. destruct (sub_bytes_ok (hs s) Hsh) as [Hn1 Hs1].
    cbn [fresh_sub st_height st_stack]. unfold buffer_null. cbn [b_ptr].
    destruct (Z.eqb_spec p2 NULL) as [| _]; [contradiction |]. cbn [negb]. rewrite Hn1, Hs1. fold (subtree_bytes (hs s)).
    unfold sub_height in *. destruct (Z.ltb_spec (s + 1) N) as [Hlt | Hge].
    + destruct Hu as (p3 & p4 & Hp3 & Hp4 & ->). cbn [fresh_sub st_stack b_ptr].
      destruct (Z.eqb_spec p4 NULL) as [| _]; [contradiction |]. cbn [negb].
      destruct (Z.leb_spec (s + 1) (N - 1)); [| lia]. fold (subtree_bytes j).
      rewrite (u64_small (N * _ + _ + _)), u64_small by lia. lia.
    + destruct (Z.leb_spec (s + 1) (N - 1)); [lia |]. assert (s = N - 1) as -> by lia.
      unfold memory. rewrite Hlay. rewrite u64_small by lia. lia.
Qed.
End Initialised.
