(* ===== verification/SubtreeTheorems.v ===== *)
(** The properties of the cached tree (src/lms_subtree.c): it serves the authentication
    paths of the reference in any order of the indices, its one-pass key generation
    computes the reference's root, its configurator is optimal and exact, its allocations
    are balanced, and what a failed rebuild does to the cache. *)

From S2P Require Import Prelude Types HashApi Params Winternitz Spec LmOts LmOtsCorrect Tree Lms LmsCorrect VerifyCorrect Scheme OtsTheorems LmsTheorems Subtree SubtreeCorrect SubtreeTriples SubtreeBuild SubtreeCache SubtreeKeygen SubtreeFault SubtreeConfig SubtreeHeap SubtreeInit.

(** * A tree in use *)

(** Signing asks the backend for one path after the other; the key's index moves. *)
Fixpoint serve `{P : Platform} `{Hh : HashApi} (ctx : ptr) (priv : lms_private_key_t) (path : ptr)
    (qs : list Z) : TM (list bytes) :=
  match qs with
  | [] => mret []
  | q :: qs' =>
      p ← lms_subtree_auth_path_backend ctx (Some (priv {{ priv_q := q }})) q path;
      ps ← serve ctx priv path qs';
      mret (p :: ps)
  end.

(** A configuration that [lms_tree_configure] may have produced for the parameter set [lp]. *)
Record config_for (lp : lms_param_t) (cfg : lms_tree_config_t) : Prop := {
  config_params : lms_params_of (cfg_lms_type cfg) = Some lp;
  config_height : cfg_height cfg = lms_p_height lp;
  config_n : cfg_n cfg = LMS_N;
  config_geometry : geometry (lms_p_height lp) (cfg_subtree_size cfg) (cfg_sublevels cfg)
}.

Lemma params_run_caches `{P : Platform} type lp :
  lms_params_of type = Some lp -> forall w, caches_ok w ->
  exists w', or_return LMS_ERR_INVALID (lms_get_lms_param type) w = (Ok lp, w') /\ caches_ok w'.
Proof.
  intros Hlp w Hw. destruct (get_lms_param_caches type lp w Hlp Hw) as (w' & E & H). exists w'.
  split; [| exact H]. unfold or_return. rewrite E. reflexivity.
Qed.

Lemma params_run `{P : Platform} B type lp :
  lms_params_of type = Some lp -> returns B (or_return LMS_ERR_INVALID (lms_get_lms_param type)) lp.
Proof. intros Hlp. apply returns_or_return, get_lms_param_returns, Hlp. Qed.

Section Session.
Context `{P : Platform} `{Hh : HashApi}.
Variable F : Prop.
Variable B : backends.
Variable priv : lms_private_key_t.
Variable lp : lms_param_t.
Variable op : lmots_param_t.
Hypothesis Hk : key_ok priv lp op.
Hypothesis HB : backends_sound F (priv_I priv) (priv_seed priv) B.
Abbreviation h := (lms_p_height lp).
Abbreviation alg := (ots_p_hash_alg op).
Abbreviation I_ := (priv_I priv).
Abbreviation seed := (priv_seed priv).

(** The callbacks given to [lms_tree_ctx_init]: the source of public keys returns those of
    the key or fails, the allocator may run out; either only under [F]. The allocator leaves the
    device in order. *)
Record callbacks_ok (ots : option lms_subtree_ots_pub_fn) (ots_ctx : ptr) (alloc : lms_tree_alloc_fn)
    (free : lms_tree_free_fn) (alloc_ctx : ptr) : Prop := {
  callback_ots : forall f k q, ots = Some f -> key_is lp op I_ seed k -> 0 <= q < 2 ^ h ->
    hoare (inv B) F (f ots_ctx k q) (fun out => out = ots_pub alg op I_ seed q);
  callback_alloc : forall size d, fst (alloc alloc_ctx size d) = NULL -> F;
  callback_alloc_keeps : forall size d, dev_ok d -> dev_ok (snd (alloc alloc_ctx size d));
  callback_free_keeps : forall p d, dev_ok d -> dev_ok (free alloc_ctx p d)
}.

Variable cfg : lms_tree_config_t.
Hypothesis Hcfg : config_for lp cfg.
Variable ots : option lms_subtree_ots_pub_fn.
Variable alloc : lms_tree_alloc_fn.
Variable free : lms_tree_free_fn.
Variables ots_ctx alloc_ctx ctx path : ptr.
Hypothesis Hcb : callbacks_ok ots ots_ctx alloc free alloc_ctx.
Hypothesis Hctx : ctx <> NULL.
Hypothesis Hpath : path <> NULL.
Abbreviation j := (cfg_subtree_size cfg).
Abbreviation N := (cfg_sublevels cfg).
Abbreviation builds := (builds F B lp op I_ seed j N).
Abbreviation ctx_ok := (ctx_ok F B lp op I_ seed j N).
Abbreviation cache_ok := (cache_ok lp op I_ seed j N).

Definition init : TM unit :=
  lms_tree_ctx_init ctx (Some cfg) (Some I_) ots ots_ctx (Some alloc) (Some free) alloc_ctx.

Lemma key_is_at q : 0 <= q < 2 ^ h -> key_is lp op I_ seed (priv {{ priv_q := q }}).
Proof.
  intros Hq. pose proof (key_height priv lp op Hk). pose proof (pow2_le25 h ltac:(lia)).
  destruct Hk as [[W1 W2 W3 W4 W5 W6 W7] Hp Ha]. destruct priv as [t1 t2 i sd q0]. cbn in *.
  split; [| reflexivity..]. split; [| exact Hp | exact Ha].
  split; cbn; try assumption. unfold is_u32, UINT_MAX. lia.
Qed.

Lemma key_is_self : key_is lp op I_ seed priv.
Proof. split; [exact Hk | reflexivity..]. Qed.

Lemma config_layers : cfg_height cfg = h /\ cfg_n cfg = LMS_N /\ j = j /\ N = N.
Proof. destruct Hcfg. auto. Qed.

(** An initialised context, then anything that builds on it. *)
Lemma session_ok {A} (m : TM A) Q :
  (forall c, builds anywhere c m Q) ->
  forall s, inv B (t_world s) ->
    match (init ;; m) s with (Ok a, s') => Q a (t_ctx s') /\ ctx_ok (t_ctx s') /\ inv B (t_world s') | (Err _, _) => F end.
Proof.
  intros Hm s Hi. pose proof (config_geometry _ _ Hcfg) as Hgeo.
  destruct (lms_params_of_wf _ _ (config_params _ _ Hcfg)) as [_ Hty].
  destruct (matching_params_wf _ _ _ _ (key_params _ _ _ Hk)) as (_ & _ & _ & _ & Halg).
  pose proof (ctx_init_ok F (inv B) alloc free alloc_ctx (callback_alloc _ _ _ _ _ Hcb)
    (fun size => inv_keeps B _ (callback_alloc_keeps _ _ _ _ _ Hcb size)) (fun p => inv_keeps B _ (callback_free_keeps _ _ _ _ _ Hcb p)) ctx Hctx h j N Hgeo cfg lp
    (params_run B _ _ (config_params _ _ Hcfg)) config_layers (t_ctx s) (t_trace s) I_ ots ots_ctx s Hi eq_refl) as Hinit.
  unfold mbind, M_bind. unfold init. destruct (lms_tree_ctx_init _ _ _ _ _ _ _ _ s) as [[[] | e] s1]; [| apply Hinit].
  destruct Hinit as [(p & Hlay) Hi1].
  pose proof (initialised_ctx_ok F B alloc free alloc_ctx (callback_alloc _ _ _ _ _ Hcb)
    (fun size => inv_keeps B _ (callback_alloc_keeps _ _ _ _ _ Hcb size)) (fun p => inv_keeps B _ (callback_free_keeps _ _ _ _ _ Hcb p)) lp op I_ seed j N Hgeo Halg cfg
    (eq_sym Hty) ots ots_ctx (callback_ots _ _ _ _ _ Hcb) p (t_ctx s1) (t_trace s) (t_trace s1) Hlay) as Hc1.
  pose proof (Hm (t_ctx s1) Hc1 s1 Hi1 eq_refl) as H. destruct (m s1) as [[a | e] s2].
  - destruct H as [[Hf HQ] Hi2]. split; [exact HQ |]. split; [exact (frame_ctx_ok _ _ _ _ _ _ _ _ _ _ _ Hf Hc1) | exact Hi2].
  - apply H.
Qed.

Lemma serve_ok qs : forall c,
  Forall (fun q => 0 <= q < 2 ^ h) qs -> cache_ok c ->
  builds anywhere c (serve ctx priv path qs)
    (fun out c' => out = map (auth_path_spec alg op h I_ seed) qs /\ cache_ok c').
Proof.
  pose proof (config_geometry _ _ Hcfg) as Hgeo.
  induction qs as [| q qs IH]; intros c Hqs Hca; cbn [serve]; [apply builds_ret; auto |].
  apply Forall_cons in Hqs as [Hq Hqs].
  eapply builds_bind.
  { apply (auth_path_backend_ok F B lp op I_ seed j N HB Hgeo (key_ident priv lp op Hk) (key_alg _ _ _ Hk));
      [exact Hctx | exact Hpath | apply key_is_at, Hq | exact Hq | exact Hca]. }
  intros p c1 _ _ [-> Hca1].
  eapply builds_bind; [apply IH; assumption |]. intros ps c2 _ _ [-> Hca2]. apply builds_ret. auto.
Qed.
End Session.

(** The result alone. *)
Lemma session_ends `{P : Platform} `{Hh : HashApi} (F : Prop) (B : backends) (priv : lms_private_key_t) (lp : lms_param_t)
    (op : lmots_param_t) (Hk : key_ok priv lp op) (cfg : lms_tree_config_t) (Hcfg : config_for lp cfg)
    (ots : option lms_subtree_ots_pub_fn) (alloc : lms_tree_alloc_fn) (free : lms_tree_free_fn)
    (ots_ctx alloc_ctx ctx : ptr) (Hcb : callbacks_ok F B priv lp op ots ots_ctx alloc free alloc_ctx) (Hctx : ctx <> NULL)
    {A} (m : TM A) (R : A -> Prop) (s : tmem) :
  (forall c, builds F B lp op (priv_I priv) (priv_seed priv) (cfg_subtree_size cfg) (cfg_sublevels cfg) anywhere c m
     (fun out _ => R out)) ->
  inv B (t_world s) ->
  match (lms_tree_ctx_init ctx (Some cfg) (Some (priv_I priv)) ots ots_ctx (Some alloc) (Some free) alloc_ctx ;; m) s with
  | (Ok out, _) => R out
  | (Err _, _) => F
  end.
Proof.
  intros Hm Hi.
  pose proof (session_ok F B priv lp op Hk cfg Hcfg ots alloc free ots_ctx alloc_ctx ctx Hcb Hctx m _ Hm s Hi) as H.
  unfold init in H. destruct ((_ ;; m) s) as [[out | e] s']; [exact (proj1 H) | exact H].
Qed.

(** C15: The cached tree refines the reference: after [lms_tree_ctx_init] and
    [lms_tree_sign_init], for every configuration that fits the parameter set and every
    sequence of leaf indices, in any order and with repetitions, the registered backend
    [lms_subtree_auth_path_backend] returns the authentication path of RFC 8554 each time
    (which is the contract [auth_path_backend_sound] the signer relies on); it can fail
    only where the allocator, the source of public keys or a hash backend does. *)
Theorem subtree_paths_refine `{P : Platform} `{Hh : HashApi} (F : Prop) (B : backends)
    (priv : lms_private_key_t) (lp : lms_param_t) (op : lmots_param_t) (cfg : lms_tree_config_t)
    (ots : option lms_subtree_ots_pub_fn) (alloc : lms_tree_alloc_fn) (free : lms_tree_free_fn)
    (ots_ctx alloc_ctx ctx path : ptr) (qs : list Z) (s : tmem) :
  key_ok priv lp op -> backends_sound F (priv_I priv) (priv_seed priv) B -> config_for lp cfg ->
  callbacks_ok F B priv lp op ots ots_ctx alloc free alloc_ctx -> ctx <> NULL -> path <> NULL ->
  Forall (fun q => 0 <= q < 2 ^ lms_p_height lp) qs -> inv B (t_world s) ->
  match (lms_tree_ctx_init ctx (Some cfg) (Some (priv_I priv)) ots ots_ctx (Some alloc) (Some free) alloc_ctx ;;
         lms_tree_sign_init ctx (Some priv) ;;
         serve ctx priv path qs) s with
  | (Ok paths, _) =>
      paths = map (auth_path_spec (ots_p_hash_alg op) op (lms_p_height lp) (priv_I priv) (priv_seed priv)) qs
  | (Err _, _) => F
  end.
Proof.
  intros Hk HB Hcfg Hcb Hctx Hpath Hqs Hi.
  apply (session_ends F B priv lp op Hk cfg Hcfg ots alloc free ots_ctx alloc_ctx ctx Hcb Hctx
    (lms_tree_sign_init ctx (Some priv) ;; serve ctx priv path qs)); [| exact Hi].
  intros c. eapply builds_bind.
  { apply (sign_init_ok F B lp op _ _ _ _ HB (config_geometry _ _ Hcfg) (key_ident priv lp op Hk) (key_alg _ _ _ Hk)
      c ctx priv Hctx (key_is_self priv lp op Hk)). }
  intros [] c1 _ _ Hca. eapply builds_post; [apply (serve_ok F B priv lp op Hk HB cfg Hcfg ctx path Hctx Hpath qs c1 Hqs Hca) |].
  intros out c2 _ _ [-> _]. reflexivity.
Qed.

(** A tree of height 5 in layers of 2, 2 and 1, software only, an allocator that never
    runs out. *)
Definition demo_config : lms_tree_config_t :=
  mkConfig LMS_SHAKE256_N32_H5 5 32 2 3 1440 LMS_TREE_FIT_WITHIN_BUDGET.
Definition demo_alloc : lms_tree_alloc_fn (P := test_platform) := fun _ _ d => (4096, d + 1).
Definition demo_free : lms_tree_free_fn (P := test_platform) := fun _ _ d => d.
Definition demo_ctx : lms_tree_ctx_t (P := test_platform) :=
  mkTree 0 0 0 0 0 0 LMS_HASH_SHA256 [] NULL [] None NULL None NULL None None NULL.
Definition demo_tmem : tmem (P := test_platform) := mkTmem test_world demo_ctx [].

Lemma demo_config_for : config_for demo_lp demo_config.
Proof. split; try reflexivity. split; unfold LMS_SUBTREE_MIN_J; cbn; lia. Qed.

Lemma demo_callbacks :
  callbacks_ok (P := test_platform) (Hh := toy_hash_api) False no_backends demo_priv demo_lp demo_op None NULL demo_alloc demo_free NULL.
Proof. split; (discriminate || (intros; exact I)). Qed.

Lemma subtree_paths_refine_witness :
  exists s', (lms_tree_ctx_init (P := test_platform) 1 (Some demo_config) (Some (fill 0x61 16)) None NULL
                (Some demo_alloc) (Some demo_free) NULL ;;
              lms_tree_sign_init (Hh := toy_hash_api) 1 (Some demo_priv) ;;
              serve (Hh := toy_hash_api) 1 demo_priv 1 [3; 4; 31; 0]) demo_tmem
    = (Ok (map (auth_path_spec (Hh := toy_hash_api) LMS_HASH_SHAKE256 demo_op 5 (fill 0x61 16) (fill 0x5e 32)) [3; 4; 31; 0]), s').
Proof.
  pose proof (subtree_paths_refine (P := test_platform) (Hh := toy_hash_api) False no_backends demo_priv demo_lp demo_op
    demo_config None demo_alloc demo_free NULL NULL 1 1 [3; 4; 31; 0] demo_tmem demo_key_ok (no_backends_sound _ _ _)
    demo_config_for demo_callbacks ltac:(discriminate) ltac:(discriminate)
    ltac:(repeat constructor; discriminate) demo_inv) as H.
  change (priv_I demo_priv) with (fill 0x61 16) in H.
  destruct ((lms_tree_ctx_init (P := test_platform) 1 _ _ _ _ _ _ _ ;; _) demo_tmem) as [[paths | e] s']; [| destruct H].
  exists s'. rewrite H. reflexivity.
Defined.

(** C16: One-pass key generation refines the reference: after [lms_tree_ctx_init],
    [lms_tree_keygen_root] returns the root of the reference tree (the root
    [lms_public_key_generate] publishes).  And the context it leaves serves the paths of any
    sequence of indices without [lms_tree_sign_init]: the comments say that key generation
    keeps no signature cache and that [lms_tree_sign_init] is called before signing, but the
    nodes of the top layer stay complete, and [lms_tree_sign_advance] rebuilds the layers below
    on the first path. *)
Theorem subtree_keygen_refines `{P : Platform} `{Hh : HashApi} (F : Prop) (B : backends)
    (priv : lms_private_key_t) (lp : lms_param_t) (op : lmots_param_t) (cfg : lms_tree_config_t)
    (ots : option lms_subtree_ots_pub_fn) (alloc : lms_tree_alloc_fn) (free : lms_tree_free_fn)
    (ots_ctx alloc_ctx ctx root path : ptr) (qs : list Z) (s : tmem) :
  key_ok priv lp op -> backends_sound F (priv_I priv) (priv_seed priv) B -> config_for lp cfg ->
  callbacks_ok F B priv lp op ots ots_ctx alloc free alloc_ctx -> ctx <> NULL -> root <> NULL -> path <> NULL ->
  Forall (fun q => 0 <= q < 2 ^ lms_p_height lp) qs -> inv B (t_world s) ->
  match (lms_tree_ctx_init ctx (Some cfg) (Some (priv_I priv)) ots ots_ctx (Some alloc) (Some free) alloc_ctx ;;
         r ← lms_tree_keygen_root ctx (Some priv) root;
         paths ← serve ctx priv path qs;
         mret (r, paths)) s with
  | (Ok (r, paths), _) =>
      r = root_spec (ots_p_hash_alg op) op (lms_p_height lp) (priv_I priv) (priv_seed priv) /\
      paths = map (auth_path_spec (ots_p_hash_alg op) op (lms_p_height lp) (priv_I priv) (priv_seed priv)) qs
  | (Err _, _) => F
  end.
Proof.
  intros Hk HB Hcfg Hcb Hctx Hroot Hpath Hqs Hi.
  set (m := r ← lms_tree_keygen_root ctx (Some priv) root; paths ← serve ctx priv path qs; mret (r, paths)).
  set (R := fun out : bytes * list bytes =>
    fst out = root_spec (ots_p_hash_alg op) op (lms_p_height lp) (priv_I priv) (priv_seed priv) /\
    snd out = map (auth_path_spec (ots_p_hash_alg op) op (lms_p_height lp) (priv_I priv) (priv_seed priv)) qs).
  assert (Hm : forall c, builds F B lp op (priv_I priv) (priv_seed priv) (cfg_subtree_size cfg) (cfg_sublevels cfg)
                           anywhere c m (fun out _ => R out)).
  { intros c. eapply builds_bind.
    { apply (keygen_root_ok F B lp op _ _ _ _ HB (config_geometry _ _ Hcfg) (key_ident priv lp op Hk)
         (key_alg _ _ _ Hk) c ctx priv root Hctx Hroot (key_is_self priv lp op Hk)). }
    intros r0 c1 _ _ [-> Hca].
    eapply builds_bind; [apply (serve_ok F B priv lp op Hk HB cfg Hcfg ctx path Hctx Hpath qs c1 Hqs Hca) |].
    intros out c2 _ _ [-> _]. apply builds_ret. intros _. split; reflexivity. }
  pose proof (session_ends F B priv lp op Hk cfg Hcfg ots alloc free ots_ctx alloc_ctx ctx Hcb Hctx m R s Hm Hi) as H.
  match goal with |- match ?x with _ => _ end => destruct x as [[[r paths] | e] s'] end; exact H.
Qed.

Lemma subtree_keygen_refines_witness :
  exists s', (lms_tree_ctx_init (P := test_platform) 1 (Some demo_config) (Some (fill 0x61 16)) None NULL
                (Some demo_alloc) (Some demo_free) NULL ;;
              r ← lms_tree_keygen_root (Hh := toy_hash_api) 1 (Some demo_priv) 1;
              paths ← serve (Hh := toy_hash_api) 1 demo_priv 1 [17];
              mret (r, paths)) demo_tmem
    = (Ok (root_spec (Hh := toy_hash_api) LMS_HASH_SHAKE256 demo_op 5 (fill 0x61 16) (fill 0x5e 32),
           [auth_path_spec (Hh := toy_hash_api) LMS_HASH_SHAKE256 demo_op 5 (fill 0x61 16) (fill 0x5e 32) 17]), s').
Proof.
  pose proof (subtree_keygen_refines (P := test_platform) (Hh := toy_hash_api) False no_backends demo_priv demo_lp demo_op
    demo_config None demo_alloc demo_free NULL NULL 1 1 1 [17] demo_tmem demo_key_ok (no_backends_sound _ _ _)
    demo_config_for demo_callbacks ltac:(discriminate) ltac:(discriminate) ltac:(discriminate)
    ltac:(repeat constructor; discriminate) demo_inv) as H.
  change (priv_I demo_priv) with (fill 0x61 16) in H.
  destruct ((lms_tree_ctx_init (P := test_platform) 1 _ _ _ _ _ _ _ ;; _) demo_tmem) as [[[r paths] | e] s']; [| destruct H].
  exists s'. destruct H as [-> ->]. reflexivity.
Defined.

(** * The configurator *)

(** C36: [lms_tree_configure] is optimal for every parameter set and every memory budget:
    it succeeds, its subtree height is between 2 and the tree's height and cuts the tree
    into as many layers as it says; when some height fits the budget it chooses one that
    fits, with the fewest layers and among those the least memory, and otherwise the
    least memory of all.  The estimate is the exact sum over the layers: no step of it
    wraps around. *)
Theorem configure_optimal `{P : Platform} (B : backends) (lms_type target : Z) (lp : lms_param_t) (config : ptr) (w : world) :
  lms_params_of lms_type = Some lp -> config <> NULL -> inv B w ->
  exists cfg w', lms_tree_configure lms_type target config w = (Ok cfg, w') /\ inv B w' /\
    config_for lp cfg /\ cfg_est_memory cfg = memory (lms_p_height lp) (cfg_subtree_size cfg) /\
    (forall j, candidate (lms_p_height lp) j ->
       lms_tree_estimate_memory (lms_p_height lp) j LMS_N = (memory (lms_p_height lp) j, layers (lms_p_height lp) j)) /\
    match cfg_fit cfg with
    | LMS_TREE_FIT_WITHIN_BUDGET => cfg_est_memory cfg <= target /\
        forall j, candidate (lms_p_height lp) j -> memory (lms_p_height lp) j <= target ->
          better (lms_p_height lp) (cfg_subtree_size cfg) j
    | LMS_TREE_FIT_OVERBUDGET => forall j, candidate (lms_p_height lp) j ->
        target < memory (lms_p_height lp) j /\ cfg_est_memory cfg <= memory (lms_p_height lp) j
    | LMS_TREE_FIT_NONE => False
    end.
Proof.
  intros Hlp Hc Hw. destruct (configure_ok B lms_type lp target config Hlp Hc) as (cfg & Hr & E1 & E2 & E3 & [G1 G2 G3]).
  destruct (Hr w Hw) as (w' & E & Hw'). exists cfg, w'. split; [exact E |]. split; [exact Hw' |].
  split; [split; [rewrite E1; exact Hlp | exact E2 | exact E3 | exact G1] |].
  split; [exact G2 |]. split; [| exact G3].
  intros j Hj. destruct (lms_params_of_wf _ _ Hlp) as [[Hh _] _]. apply estimate_memory_spec; [lia | exact Hj].
Qed.

Lemma configure_optimal_witness :
  exists cfg w', lms_tree_configure (P := test_platform) LMS_SHAKE256_N32_H5 1500 1 test_world = (Ok cfg, w') /\
    cfg_fit cfg = LMS_TREE_FIT_WITHIN_BUDGET /\ cfg_est_memory cfg <= 1500.
Proof.
  destruct (configure_optimal (P := test_platform) no_backends LMS_SHAKE256_N32_H5 1500 demo_lp 1 test_world
    eq_refl ltac:(discriminate) demo_inv) as (cfg & w' & E & _ & _ & _ & _ & Hfit).
  exists cfg, w'. split; [exact E |]. apply (f_equal fst) in E. vm_compute in E.
  assert (Hw : cfg_fit cfg = LMS_TREE_FIT_WITHIN_BUDGET) by (injection E as <-; reflexivity).
  rewrite Hw in Hfit. split; [exact Hw | exact (proj1 Hfit)].
Defined.

(** * Memory *)

(** [lms_tree_ctx_init] takes exactly the memory its configuration announces:
    on success [lms_tree_ctx_allocated_bytes] is the configurator's estimate plus the
    array of layers, and every block it took is owned by the context; when an
    allocation fails, every block taken before it has been given back. *)
Theorem ctx_init_memory `{P : Platform} `{Hh : HashApi} (lp : lms_param_t) (cfg : lms_tree_config_t) (I_ : bytes)
    (ots : option lms_subtree_ots_pub_fn) (alloc : lms_tree_alloc_fn) (free : lms_tree_free_fn)
    (ots_ctx alloc_ctx ctx : ptr) (s : tmem) :
  config_for lp cfg -> cfg_est_memory cfg = memory (lms_p_height lp) (cfg_subtree_size cfg) ->
  0 <= sizeof_lms_sublevel <= UINT_MAX -> ctx <> NULL -> caches_ok (t_world s) ->
  match lms_tree_ctx_init ctx (Some cfg) (Some I_) ots ots_ctx (Some alloc) (Some free) alloc_ctx s with
  | (Ok _, s') =>
      lms_tree_ctx_allocated_bytes (Some (t_ctx s')) = cfg_sublevels cfg * sizeof_lms_sublevel + cfg_est_memory cfg /\
      exists d, t_trace s' = t_trace s ++ d /\ allocated d ≡ₚ freed d ++ owned (t_ctx s')
  | (Err _, s') =>
      (exists size d, fst (alloc alloc_ctx size d) = NULL) /\
      exists d, t_trace s' = t_trace s ++ d /\ balanced d
  end.
Proof.
  intros [C1 C2 C3 C4] Hest Hsize Hctx Hi.
  pose proof (ctx_init_ok (exists size d, fst (alloc alloc_ctx size d) = NULL) caches_ok alloc free alloc_ctx
    (fun size d H => ex_intro _ size (ex_intro _ d H)) (fun _ => caches_keeps _) (fun _ => caches_keeps _) ctx Hctx (lms_p_height lp) (cfg_subtree_size cfg) (cfg_sublevels cfg)
    C4 cfg lp (params_run_caches _ _ C1) (conj C2 (conj C3 (conj eq_refl eq_refl))) (t_ctx s) (t_trace s) I_ ots ots_ctx s Hi eq_refl) as H.
  destruct (lms_tree_ctx_init _ _ _ _ _ _ _ _ s) as [[[] | e] s']; [| exact (proj1 H)].
  destruct H as [(p & Hlay) _]. split.
  - rewrite Hest. apply (allocated_bytes_ok alloc free alloc_ctx lp I_ _ _ C4 cfg ots ots_ctx p (t_ctx s') (t_trace s) (t_trace s') Hsize Hlay).
  - exact (init_owes _ _ _ _ _ _ _ _ _ Hlay).
Qed.

Lemma ctx_init_memory_witness :
  exists s', lms_tree_ctx_init (P := test_platform) 1 (Some demo_config) (Some (fill 0x61 16)) None NULL
               (Some demo_alloc) (Some demo_free) NULL demo_tmem = (Ok tt, s') /\
    lms_tree_ctx_allocated_bytes (Some (t_ctx s')) = 3 * 104 + 1440.
Proof.
  pose proof (ctx_init_memory (P := test_platform) (Hh := toy_hash_api) demo_lp demo_config (fill 0x61 16) None demo_alloc demo_free
    NULL NULL 1 demo_tmem demo_config_for eq_refl ltac:(split; discriminate) ltac:(discriminate) (proj1 (proj1 demo_inv))) as H.
  destruct (lms_tree_ctx_init (P := test_platform) 1 _ _ _ _ _ _ _ demo_tmem) as [[[] | e] s'].
  - exists s'. split; [reflexivity | exact (proj1 H)].
  - destruct H as [(size & d & Hn) _]. discriminate.
Defined.

(** ** The whole life of a context *)

(** What a client calls between [lms_tree_ctx_init] and [lms_tree_ctx_free]. *)
Inductive tree_op :=
| KeygenRoot (root : ptr)
| BuildActive
| SignInit
| SignAdvance (q : Z)
| AuthPath (q : Z) (path : ptr).

(** The client goes on whatever the call returns. *)
Definition run_op `{P : Platform} `{Hh : HashApi} (ctx : ptr) (priv : option lms_private_key_t) (op : tree_op) : TM unit :=
  match op with
  | KeygenRoot root => attempt (lms_tree_keygen_root ctx priv root) ;; mret tt
  | BuildActive => attempt (lms_tree_build_active ctx priv) ;; mret tt
  | SignInit => attempt (lms_tree_sign_init ctx priv) ;; mret tt
  | SignAdvance q => attempt (lms_tree_sign_advance ctx priv q) ;; mret tt
  | AuthPath q path => attempt (lms_subtree_auth_path_backend ctx priv q path) ;; mret tt
  end.

Fixpoint run_ops `{P : Platform} `{Hh : HashApi} (ctx : ptr) (ops : list (option lms_private_key_t * tree_op)) : TM unit :=
  match ops with
  | [] => mret tt
  | (priv, op) :: ops' => run_op ctx priv op ;; run_ops ctx ops'
  end.

Section Life.
Context `{P : Platform} `{Hh : HashApi}.

Lemma tidy_run_op ctx priv op : tidy (run_op ctx priv op).
Proof.
  destruct op; (apply tidy_bind; [apply tidy_attempt | intros; apply tidy_ret]);
    auto using tidy_keygen_root, tidy_build_active, tidy_sign_init, tidy_sign_advance, tidy_auth_path_backend.
Qed.

Lemma tidy_run_ops ctx ops : tidy (run_ops ctx ops).
Proof.
  induction ops as [| [priv op] ops IH]; [apply tidy_ret |]. apply tidy_bind; [apply tidy_run_op | intros; exact IH].
Qed.

Lemma attempt_returns {A} (m : TM A) s : exists s', (attempt m ;; mret tt : TM unit) s = (Ok tt, s').
Proof. unfold mbind, M_bind, attempt. destruct (m s) as [r s1]. exists s1. reflexivity. Qed.

Lemma run_ops_returns ctx ops s : exists s', run_ops ctx ops s = (Ok tt, s').
Proof.
  revert s. induction ops as [| [priv op] ops IH]; intros s; [eexists; reflexivity |].
  assert (Hop : exists s1, run_op ctx priv op s = (Ok tt, s1)) by (destruct op; apply attempt_returns).
  destruct Hop as [s1 E]. cbn [run_ops]. rewrite (bind_ok _ _ _ _ _ E). apply IH.
Qed.

Lemma owned_bones c : owned (bones c) = owned c.
Proof.
  unfold owned, bones. destruct c as [c1 c2 c3 c4 c5 c6 c7 c8 c9 l c11 c12 c13 c14 c15 c16 c17]. cbn.
  destruct (c9 =? NULL); [reflexivity |]. f_equal. unfold owned_levels. rewrite map_map. reflexivity.
Qed.

Lemma freeable_bones free alloc_ctx c c' :
  bones c' = bones c -> freeable free alloc_ctx c -> freeable free alloc_ctx c'.
Proof.
  intros Hb [H1 H0 H2 H3].
  pose proof (f_equal tc_free Hb) as E1. pose proof (f_equal tc_alloc_ctx Hb) as E0. pose proof (f_equal tc_levels Hb) as E2. pose proof (f_equal tc_sublevels Hb) as E3.
  pose proof (f_equal (fun c => length (tc_level c)) Hb) as E4. unfold bones in *. clear Hb.
  destruct c as [c1 c2 c3 c4 c5 c6 c7 c8 c9 l c11 c12 c13 c14 c15 c16 c17].
  destruct c' as [d1 d2 d3 d4 d5 d6 d7 d8 d9 l' d11 d12 d13 d14 d15 d16 d17].
  cbn in *. rewrite !length_map in E4. subst. split; cbn; first [reflexivity | assumption | lia].
Qed.
End Life.

(** C17: No block leaks and none is freed twice: over any life of a context, that is
    [lms_tree_ctx_init], any sequence of the operations with any keys, indices and
    buffers, each of which may fail anywhere, and [lms_tree_ctx_free], the blocks
    handed out by the allocator are exactly the blocks given back, with multiplicity;
    also when [lms_tree_ctx_init] itself fails. *)
Theorem context_life_balanced `{P : Platform} `{Hh : HashApi} (lp : lms_param_t) (cfg : lms_tree_config_t)
    (I_ : bytes) (ots : option lms_subtree_ots_pub_fn) (alloc : lms_tree_alloc_fn) (free : lms_tree_free_fn)
    (ots_ctx alloc_ctx ctx : ptr) (ops : list (option lms_private_key_t * tree_op)) (s : tmem) :
  config_for lp cfg -> ctx <> NULL -> caches_ok (t_world s) ->
  let run := lms_tree_ctx_init ctx (Some cfg) (Some I_) ots ots_ctx (Some alloc) (Some free) alloc_ctx ;;
             run_ops ctx ops ;; lms_tree_ctx_free ctx in
  exists d, t_trace (snd (run s)) = t_trace s ++ d /\ balanced d.
Proof.
  intros [C1 C2 C3 C4] Hctx Hi run.
  pose proof (ctx_init_ok True caches_ok alloc free alloc_ctx (fun _ _ _ => I) (fun _ => caches_keeps _) (fun _ => caches_keeps _) ctx Hctx (lms_p_height lp)
    (cfg_subtree_size cfg) (cfg_sublevels cfg) C4 cfg lp (params_run_caches _ _ C1) (conj C2 (conj C3 (conj eq_refl eq_refl)))
    (t_ctx s) (t_trace s) I_ ots ots_ctx s Hi eq_refl) as H.
  subst run. set (m := run_ops ctx ops ;; lms_tree_ctx_free ctx). unfold mbind, M_bind.
  destruct (lms_tree_ctx_init _ _ _ _ _ _ _ _ s) as [[[] | e] s1]; [| exact (proj2 (proj1 H))].
  destruct H as [(p & [_ _ Hf _ _ (d1 & Ht1 & Hd1)]) Hi1]. cbn [fst snd] in *.
  destruct (run_ops_returns ctx ops s1) as [s2 E2]. destruct (tidy_run_ops ctx ops s1) as [Hb (d2 & Ht2 & Hd2)].
  subst m. rewrite (bind_ok _ _ _ _ _ E2). rewrite E2 in Hb, Ht2. cbn [snd] in Hb, Ht2.
  pose proof (freeable_bones _ _ _ _ Hb Hf) as [Hf1 _ Hf2 Hf3].
  assert (Ho : owes_since (t_trace s) (t_trace s2) (t_ctx s2)).
  { exists (d1 ++ d2). split; [rewrite Ht2, Ht1, app_assoc; reflexivity |].
    unfold balanced in Hd2. rewrite allocated_app, freed_app, Hd1, Hd2, <- (owned_bones (t_ctx s2)), Hb, owned_bones.
    rewrite <- !app_assoc. apply Permutation_app_head, Permutation_app_comm. }
  pose proof (ctx_free_ok (fun _ => True) (t_ctx s2) (t_trace s2) (fun _ => False) ctx free Hctx Hf1 (fun _ _ _ => I) (fun _ => Hf3)
    s2 I eq_refl) as Hfree.
  destruct (lms_tree_ctx_free ctx s2) as [[[] | e] s3]; [| destruct Hfree as [[] _]].
  destruct Hfree as [(_ & _ & Htr) _]. cbn [snd] in *. rewrite Htr.
  destruct (Z.eqb_spec (tc_levels (t_ctx s2)) NULL) as [E | _]; [destruct (Hf2 E) |].
  exact (free_owned _ _ _ Hf2 Ho).
Qed.

Lemma context_life_balanced_witness :
  exists d, t_trace (snd ((lms_tree_ctx_init (P := test_platform) 1 (Some demo_config) (Some (fill 0x61 16)) None NULL
      (Some demo_alloc) (Some demo_free) NULL ;;
    run_ops (Hh := toy_hash_api) 1 [(Some demo_priv, SignInit); (None, AuthPath 7 1)] ;;
    lms_tree_ctx_free 1) demo_tmem)) = d /\ balanced d.
Proof.
  destruct (context_life_balanced (P := test_platform) (Hh := toy_hash_api) demo_lp demo_config (fill 0x61 16) None
    demo_alloc demo_free NULL NULL 1 [(Some demo_priv, SignInit); (None, AuthPath 7 1)] demo_tmem demo_config_for
    ltac:(discriminate) (proj1 (proj1 demo_inv))) as (d & Hd & Hbal).
  exists d. split; [exact Hd | exact Hbal].
Defined.

(** * After a failed rebuild *)

(** C22: A failed rebuild poisons the cache: when the source of leaves fails on the first
    leaf of another bottom subtree (a transient fault of the device behind
    [lms_subtree_set_leaf_fn], say), the backend reports the failure once, but
    [subtree_build_bottom] has already moved the subtree; the next call for the same index
    succeeds, and its path starts with the sibling of a leaf of the old subtree instead
    of the sibling of [q]. *)
Theorem failed_rebuild_poisons_cache `{P : Platform} `{Hh : HashApi} (F : Prop) (B : backends)
    (priv : lms_private_key_t) (lp : lms_param_t) (op : lmots_param_t) (cfg : lms_tree_config_t)
    (ots : option lms_subtree_ots_pub_fn) (alloc : lms_tree_alloc_fn) (free : lms_tree_free_fn)
    (ots_ctx alloc_ctx ctx path : ptr) (leaf_fn : lms_subtree_leaf_fn) (leaf_ctx : ptr) (q : Z) (s : tmem) :
  key_ok priv lp op -> backends_sound F (priv_I priv) (priv_seed priv) B -> config_for lp cfg ->
  callbacks_ok F B priv lp op ots ots_ctx alloc free alloc_ctx -> ctx <> NULL -> path <> NULL -> inv B (t_world s) ->
  let h := lms_p_height lp in let j := cfg_subtree_size cfg in
  let T := tree_spec (ots_p_hash_alg op) op h (priv_I priv) (priv_seed priv) in
  1 < cfg_sublevels cfg -> 2 ^ j <= q < 2 ^ Z.min (2 * j) h ->
  (forall k l, key_is lp op (priv_I priv) (priv_seed priv) k -> 0 <= l < 2 ^ h ->
     hoare (inv B) True (leaf_fn leaf_ctx k l) (fun out => out = T 0%nat (2 ^ h + l) /\ l <> q / 2 ^ j * 2 ^ j)) ->
  match ((lms_tree_ctx_init ctx (Some cfg) (Some (priv_I priv)) ots ots_ctx (Some alloc) (Some free) alloc_ctx ;;
          lms_tree_sign_init ctx (Some priv)) ;;
         lms_subtree_set_leaf_fn ctx (Some leaf_fn) leaf_ctx ;;
         ask_twice ctx (Some priv) q path) s with
  | (Ok (first, second), _) =>
      (exists e, first = Err e) /\ slice 0 LMS_N second = T 0%nat (sibling_num h (q mod 2 ^ j) 0)
  | (Err _, _) => F
  end.
Proof.
  intros Hk HB Hcfg Hcb Hctx Hpath Hi h j T HN Hq Hleaf. pose proof (config_geometry _ _ Hcfg) as Hgeo.
  pose proof (geo_h _ _ _ Hgeo) as Hh0. pose proof (geo_j _ _ _ Hgeo) as Hj0. pose proof (geo_top _ _ _ Hgeo) as Ht0.
  assert (Hs0 : sub_height h j (cfg_sublevels cfg) 0 = j) by (unfold sub_height; destruct (Z.ltb_spec (0 + 1) (cfg_sublevels cfg)); lia).
  assert (Hr1 : root_level h j (cfg_sublevels cfg) 1 = Z.min (2 * j) h).
  { unfold root_level, sub_height. subst h j. destruct (Z.ltb_spec (1 + 1) (cfg_sublevels cfg)); nia. }
  pose proof (session_ok F B priv lp op Hk cfg Hcfg ots alloc free ots_ctx alloc_ctx ctx Hcb Hctx
    (lms_tree_sign_init ctx (Some priv)) _
    (fun c => sign_init_start F B lp op _ _ _ _ HB Hgeo (key_ident priv lp op Hk) (key_alg _ _ _ Hk) c ctx priv Hctx
       (key_is_self priv lp op Hk)) s Hi) as Hses.
  unfold init in Hses. unfold mbind at 1, M_bind at 1.
  destruct ((lms_tree_ctx_init _ _ _ _ _ _ _ _ ;; _) s) as [[[] | e] s1]; [| exact Hses].
  destruct Hses as (Hst & Hc1 & Hi1). destruct s1 as [w1 c1 d1]. cbn [t_ctx t_world] in Hst, Hc1, Hi1.
  unfold mbind at 1, M_bind at 1, lms_subtree_set_leaf_fn.
  destruct (Z.eqb_spec ctx NULL) as [| _]; [contradiction |]. unfold update_ctx, modify. cbn [t_ctx].
  set (c2 := c1 {{ tc_leaf_fn := Some leaf_fn; tc_leaf_fn_ctx := leaf_ctx }}).
  pose proof (ctx_ok_leaf F B lp op _ _ _ _ c1 leaf_fn leaf_ctx Hc1
    (fun k l Hk' Hl => hoare_conseq _ _ _ _ _ (Hleaf k l Hk' Hl) (fun out => @proj1 _ _))) as Hc2.
  assert (Hseg : seg_of lp j (cfg_sublevels cfg) 0 q = q / 2 ^ j).
  { unfold seg_of, root_level. fold h. rewrite Hs0, Z.mul_0_l, Z.add_0_l. reflexivity. }
  assert (Hqh : 0 <= q / 2 ^ j * 2 ^ j < 2 ^ h).
  { pose proof (Z.pow_le_mono_r 2 (Z.min (2 * j) h) h ltac:(lia) ltac:(lia)). pose proof (pow2_pos j ltac:(unfold LMS_SUBTREE_MIN_J in *; lia)).
    pose proof (Z.mul_div_le q (2 ^ j) ltac:(lia)). pose proof (Z.div_pos q (2 ^ j) ltac:(lia) ltac:(lia)). nia. }
  pose proof (stale_path True B lp op _ _ _ _ Hgeo c2 ctx priv q path leaf_fn Hc2 Hst Hctx Hpath (key_is_self priv lp op Hk)
    (key_alg _ _ _ Hk) HN) as Hstale. fold h j in Hstale. rewrite Hs0, Hr1, Hseg in Hstale.
  specialize (Hstale Hq eq_refl (hoare_conseq _ _ _ _ _ (Hleaf priv _ (key_is_self priv lp op Hk) Hqh)
    (fun out H => proj2 H eq_refl)) (mkTmem w1 c2 d1) Hi1 eq_refl).
  destruct (ask_twice _ _ _ _ _) as [[[first second] | e] s2]; [exact (proj1 Hstale) | destruct (proj1 Hstale)].
Qed.

(** Leaf 5, whose sibling is leaf 4; the second path starts with leaf 0. *)
Definition dead_device `{P : Platform} : lms_subtree_leaf_fn := fun _ _ _ => fail LMS_ERR_INVALID.

Lemma failed_rebuild_poisons_cache_witness :
  exists e out s', ((lms_tree_ctx_init (P := test_platform) 1 (Some demo_config) (Some (fill 0x61 16)) None NULL
                (Some demo_alloc) (Some demo_free) NULL ;;
              lms_tree_sign_init (Hh := toy_hash_api) 1 (Some demo_priv)) ;;
              lms_subtree_set_leaf_fn 1 (Some dead_device) NULL ;;
              ask_twice (Hh := toy_hash_api) 1 (Some demo_priv) 5 1) demo_tmem = (Ok (Err e, out), s') /\
    slice 0 LMS_N out
    = tree_spec (Hh := toy_hash_api) LMS_HASH_SHAKE256 demo_op 5 (fill 0x61 16) (fill 0x5e 32) 0 (2 ^ 5 + 0) /\
    sibling_num 5 5 0 = 2 ^ 5 + 4.
Proof.
  pose proof (failed_rebuild_poisons_cache (P := test_platform) (Hh := toy_hash_api) False no_backends demo_priv demo_lp demo_op
    demo_config None demo_alloc demo_free NULL NULL 1 1 dead_device NULL 5 demo_tmem demo_key_ok (no_backends_sound _ _ _)
    demo_config_for demo_callbacks ltac:(discriminate) ltac:(discriminate) demo_inv ltac:(reflexivity)
    ltac:(split; [discriminate | reflexivity]) (fun k l _ _ => hoare_fail _ True _ _ I)) as H.
  change (priv_I demo_priv) with (fill 0x61 16) in H.
  destruct (((lms_tree_ctx_init (P := test_platform) 1 _ _ _ _ _ _ _ ;; _) ;; _) demo_tmem) as [[[r out] | e] s']; [| destruct H].
  destruct H as [[e ->] Hout]. exists e, out, s'. split; [reflexivity |]. split; [exact Hout | reflexivity].
Defined.
