(* ===== verification/Coprocess.v ===== *)
(** The full tree kept by the host (src/lms_coprocess.c): building it from a source of
    one-time public keys, reading nodes and paths, and verifying against its root. *)

From S2P Require Import Prelude Types HashApi Params LmOts Tree Lms.

Definition LMS_COPROCESS_MAX_HEIGHT : Z := 10.
Definition LMS_COPROCESS_MAX_NODES : Z := (1 .<< (LMS_COPROCESS_MAX_HEIGHT + 1)) - 1.

Record lms_coprocess_tree_t := mkCop {
  cp_lms_type : Z;
  cp_height : Z;
  cp_n : Z;
  cp_leaf_count : Z;
  cp_I : bytes;
  cp_nodes : list bytes              (* [LMS_COPROCESS_MAX_NODES + 1][LMS_N] *)
}.

(** [memset(tree, 0, sizeof( *tree))] *)
Definition zero_coprocess : lms_coprocess_tree_t :=
  mkCop 0 0 0 0 (fill 0 LMS_I_LEN) (replicate (Z.to_nat (LMS_COPROCESS_MAX_NODES + 1)) (fill 0 LMS_N)).

(** [tree->nodes[r]] *)
Definition cp_row (t : lms_coprocess_tree_t) (r : Z) : bytes := nth (Z.to_nat r) (cp_nodes t) [].

Section Coprocess.
Context `{P : Platform} `{Hh : HashApi}.

Definition lms_coprocess_ots_pub_fn : Type := ptr -> lms_private_key_t -> Z -> C bytes.

(** The memory of a call: the library's statics and [*tree]. *)
Record cpmem := mkCpmem { cp_world : world; cp_tree : lms_coprocess_tree_t }.

Definition CM (A : Type) : Type := M cpmem lms_status_t A.

Definition cp_on_world {A} (m : C A) : CM A :=
  fun s => let '(r, w) := m (cp_world s) in (r, s {{ cp_world := w }}).
Definition get_tree : CM lms_coprocess_tree_t := fun s => (Ok (cp_tree s), s).
Definition update_tree (f : lms_coprocess_tree_t -> lms_coprocess_tree_t) : CM unit :=
  modify (fun s => s {{ cp_tree := f (cp_tree s) }}).
Definition set_row (r : Z) (v : bytes) (t : lms_coprocess_tree_t) : lms_coprocess_tree_t :=
  t {{ cp_nodes := upd r v (cp_nodes t) }}.

Definition cp_default_ots_pub : lms_coprocess_ots_pub_fn := fun _ priv q => lmots_public_from_private priv q.

Definition lms_coprocess_tree_init (tree : ptr) (lms_type : Z) (I_ : option bytes) : CM unit :=
  match I_ with
  | None => fail LMS_ERR_INVALID
  | Some I_ =>
      guard_err (tree =? NULL) LMS_ERR_INVALID ;;
      param ← cp_on_world (or_return LMS_ERR_INVALID (lms_get_lms_param lms_type));
      guard_err ((lms_p_height param =? 0) || (LMS_COPROCESS_MAX_HEIGHT <? lms_p_height param)) LMS_ERR_INVALID ;;
      update_tree (fun _ => zero_coprocess {{ cp_lms_type := lms_type; cp_height := lms_p_height param;
        cp_n := lms_p_n param; cp_leaf_count := u32 (1 .<< lms_p_height param); cp_I := I_ }})
  end.

(** The prefix of a leaf's hash. *)
Definition cp_leaf_prefix (I_ : bytes) (node_num : Z) : bytes :=
  I_ ++ lms_store_u32 node_num ++ lms_store_u16 D_LEAF.

(** One turn of the loop over the leaves. *)
Definition build_leaf (priv : lms_private_key_t) (ots_pub : lms_coprocess_ots_pub_fn) (ots_pub_context : ptr)
    (hash_alg : lms_hash_alg_t) (leaf_base q : Z) : CM unit :=
  t ← get_tree;
  ots_pub_buf ← cp_on_world (or_return LMS_ERR_INVALID (ots_pub ots_pub_context priv q));
  leaf ← cp_on_world (or_return LMS_ERR_INVALID
           (lms_hash_parts (cp_leaf_prefix (cp_I t) (u32 (leaf_base + q))) ots_pub_buf [] [] hash_alg));
  update_tree (set_row (u32 (leaf_base + q)) leaf).

(** [for (r = leaf_base; r-- > 1u; )]: the nodes [count], .., 1. *)
Fixpoint build_internal (count : nat) (hash_alg : lms_hash_alg_t) : CM unit :=
  match count with
  | O => mret tt
  | S count' =>
      let r := Z.of_nat count in
      t ← get_tree;
      node ← cp_on_world (or_return LMS_ERR_INVALID
               (lms_internal_node (cp_I t) hash_alg r (cp_row t (r * 2)) (cp_row t (r * 2 + 1))));
      update_tree (set_row r node) ;;
      build_internal count' hash_alg
  end.

Definition lms_coprocess_build (tree : ptr) (priv : option lms_private_key_t)
    (ots_pub : option lms_coprocess_ots_pub_fn) (ots_pub_context : ptr) : CM unit :=
  t ← get_tree;
  match priv with
  | None => fail LMS_ERR_INVALID
  | Some priv =>
      guard_err ((tree =? NULL) || (cp_leaf_count t =? 0)) LMS_ERR_INVALID ;;
      guard_err (negb (priv_lms_type priv =? cp_lms_type t)) LMS_ERR_INVALID ;;
      hash_alg ← cp_on_world (or_return LMS_ERR_INVALID (lms_get_private_hash_alg priv));
      let ots_pub := match ots_pub with Some f => f | None => cp_default_ots_pub end in
      let leaf_base := cp_leaf_count t in
      loopM (Z.to_nat (cp_leaf_count t)) 0 (fun q _ => build_leaf priv ots_pub ots_pub_context hash_alg leaf_base q) tt ;;
      build_internal (Z.to_nat (leaf_base - 1)) hash_alg
  end.

(** [root], [out] and [path] are only compared with [NULL]; the result is what is written. *)
Definition lms_coprocess_root (tree : option lms_coprocess_tree_t) (root : ptr) : result lms_status_t bytes :=
  match tree with
  | None => Err LMS_ERR_INVALID
  | Some t => if (root =? NULL) || (cp_leaf_count t =? 0) then Err LMS_ERR_INVALID else Ok (slice 0 LMS_N (cp_row t 1))
  end.

Definition lms_coprocess_node (tree : option lms_coprocess_tree_t) (node_num : Z) (out : ptr) : result lms_status_t bytes :=
  match tree with
  | None => Err LMS_ERR_INVALID
  | Some t =>
      if (out =? NULL) || (cp_leaf_count t =? 0) then Err LMS_ERR_INVALID
      else if (node_num =? 0) || (u32 (u32 (cp_leaf_count t * 2) - 1) <? node_num) then Err LMS_ERR_INVALID
      else Ok (slice 0 LMS_N (cp_row t node_num))
  end.

(** The [n]-byte pieces of the loop, one after the other. *)
Fixpoint path_rows (count : nat) (t : lms_coprocess_tree_t) (node_num : Z) : bytes :=
  match count with
  | O => []
  | S count' => slice 0 (cp_n t) (cp_row t (node_num ^^ 1)) ++ path_rows count' t (node_num / 2)
  end.

Definition lms_coprocess_auth_path (tree : option lms_coprocess_tree_t) (q : Z) (path : ptr) : result lms_status_t bytes :=
  match tree with
  | None => Err LMS_ERR_INVALID
  | Some t =>
      if (path =? NULL) || (cp_leaf_count t =? 0) then Err LMS_ERR_INVALID
      else if cp_leaf_count t <=? q then Err LMS_ERR_INVALID
      else Ok (path_rows (Z.to_nat (cp_height t)) t (u32 (cp_leaf_count t + q)))
  end.

Definition lms_coprocess_root_from_kv (tree : option lms_coprocess_tree_t) (q : Z) (kv auth_path : option bytes)
    (root : ptr) : C bytes :=
  match tree, kv, auth_path with
  | Some t, Some kv, Some auth_path =>
      guard_err ((root =? NULL) || (cp_leaf_count t =? 0)) LMS_ERR_INVALID ;;
      guard_err (cp_leaf_count t <=? q) LMS_ERR_INVALID ;;
      param ← or_return LMS_ERR_INVALID (lms_get_lms_param (cp_lms_type t));
      let hash_alg := lms_p_hash_alg param in
      let node_num := u32 (cp_leaf_count t + q) in
      node ← or_return LMS_ERR_INVALID (lms_hash_parts (cp_leaf_prefix (cp_I t) node_num) kv [] [] hash_alg);
      '(_, node) ← loopM (Z.to_nat (cp_height t)) 0 (fun i '(node_num, node) =>
        let sibling := slice (i * cp_n t) (cp_n t) auth_path in
        node ← or_return LMS_ERR_INVALID
          (if (node_num .& 1) =? 0
           then lms_internal_node (cp_I t) hash_alg (node_num / 2) node sibling
           else lms_internal_node (cp_I t) hash_alg (node_num / 2) sibling node);
        mret (node_num / 2, node)) (node_num, node);
      mret node
  | _, _, _ => fail LMS_ERR_INVALID
  end.

(** [root] and [expected] are locals, so never [NULL]. *)
Definition lms_coprocess_verify (tree : option lms_coprocess_tree_t) (q : Z) (kv auth_path : option bytes) : C unit :=
  root ← or_return LMS_ERR_INVALID (lms_coprocess_root_from_kv tree q kv auth_path 1);
  match lms_coprocess_root tree 1 with
  | Err _ => fail LMS_ERR_INVALID
  | Ok expected => if root_diff root expected =? 0 then mret tt else fail LMS_ERR_VERIFY
  end.
End Coprocess.
