(* ===== verification/CoprocessCorrect.v ===== *)
(** The host's tree is the reference tree (src/lms_coprocess.c): what building leaves in
    it, what reading it gives, and what verification against it decides. *)

From S2P Require Import Prelude Types HashApi Params Spec LmOts LmOtsCorrect Tree Lms LmsCorrect VerifyCorrect Scheme OtsTheorems LmsTheorems SubtreeCorrect Coprocess.

Section CoprocessOk.
Context `{P : Platform} `{Hh : HashApi}.
Variable F : Prop.
Variable B : backends.
Variable priv : lms_private_key_t.
Variable lp : lms_param_t.
Variable op : lmots_param_t.
Hypothesis Hk : key_ok priv lp op.
Hypothesis HB : backends_sound F (priv_I priv) (priv_seed priv) B.
Abbreviation h := (lms_p_height lp).
Abbreviation alg := (ots_p_hash_alg op).
Abbreviation I_ := (priv_I priv).
Abbreviation seed := (priv_seed priv).
Abbreviation T := (tree_spec alg op h I_ seed).

(** The value of node [r], whose level its number determines. *)
Definition cp_node_spec (r : Z) : bytes := T (Z.to_nat (h - Z.log2 r)) r.

(** The tree has room for the key's nodes. *)
Record tree_for (t : lms_coprocess_tree_t) : Prop := {
  tree_type : cp_lms_type t = priv_lms_type priv;
  tree_height : cp_height t = h;
  tree_n : cp_n t = LMS_N;
  tree_leaves : cp_leaf_count t = 2 ^ h;
  tree_I : cp_I t = I_;
  tree_rows : 2 ^ (h + 1) <= Z.of_nat (length (cp_nodes t))
}.

(** Every node from [a] to before [b] is in its row. *)
Definition holds (a b : Z) (t : lms_coprocess_tree_t) : Prop := forall r, a <= r < b -> cp_row t r = cp_node_spec r.

Definition built (t : lms_coprocess_tree_t) : Prop := tree_for t /\ holds 1 (2 ^ (h + 1)) t.

Lemma height_bound : 5 <= h <= 25 /\ 1 <= 2 ^ h <= 2 ^ 25 /\ 2 ^ (h + 1) = 2 * 2 ^ h.
Proof.
  pose proof (key_height priv lp op Hk). split; [lia |]. split; [apply pow2_le25; lia |]. rewrite Z.pow_add_r by lia. lia.
Qed.

Lemma leaf_spec_node q : 0 <= q < 2 ^ h -> cp_node_spec (2 ^ h + q) = T 0 (2 ^ h + q).
Proof.
  intros Hq. destruct height_bound as (Hh0 & _ & Hs). unfold cp_node_spec.
  rewrite (Z.log2_unique (2 ^ h + q) h) by (rewrite ?Z.add_1_r, ?Z.pow_succ_r by lia; lia). rewrite Z.sub_diag. reflexivity.
Qed.

(** An inner node from its children. *)
Lemma inner_spec_node r : 1 <= r < 2 ^ h ->
  cp_node_spec r = intr_spec alg I_ r (cp_node_spec (2 * r)) (cp_node_spec (2 * r + 1)).
Proof.
  intros Hr. unfold cp_node_spec. assert (Hlog : 0 <= Z.log2 r < h) by (split; [apply Z.log2_nonneg | apply Z.log2_lt_pow2; lia]).
  rewrite Z.log2_double, Z.log2_succ_double by lia. replace (Z.to_nat (h - Z.log2 r)) with (S (Z.to_nat (h - Z.succ (Z.log2 r)))) by lia.
  reflexivity.
Qed.

Lemma node_spec_len r : len (cp_node_spec r) = LMS_N.
Proof. apply (tree_spec_len priv lp op Hk). Qed.

Lemma node_spec_bytes r : Forall is_byte (cp_node_spec r).
Proof. unfold cp_node_spec. destruct (Z.to_nat _); apply hash_of_bytes, (key_alg _ _ _ Hk). Qed.

Lemma cp_row_set t r v k : 0 <= r < Z.of_nat (length (cp_nodes t)) -> 0 <= k ->
  cp_row (set_row r v t) k = if k =? r then v else cp_row t k.
Proof.
  intros Hr Hk0. unfold cp_row, set_row, upd. cbn [cp_nodes]. rewrite !nth_lookup.
  destruct (Z.eqb_spec k r) as [-> | Hne].
  - change (default [] (<[Z.to_nat r := v]> (cp_nodes t) !! Z.to_nat r) = v). rewrite list_lookup_insert_eq by lia. reflexivity.
  - change (default [] (<[Z.to_nat r := v]> (cp_nodes t) !! Z.to_nat k) = default [] (cp_nodes t !! Z.to_nat k)).
    rewrite list_lookup_insert_ne by lia. reflexivity.
Qed.

Lemma tree_for_set t r v : tree_for t -> tree_for (set_row r v t).
Proof.
  intros [H1 H2 H3 H4 H5 H6]. split; try assumption.
  change (2 ^ (h + 1) <= Z.of_nat (length (upd r v (cp_nodes t)))). unfold upd. rewrite length_insert. exact H6.
Qed.

(** Storing a node next to those already there. *)
Lemma holds_low r b t : tree_for t -> 0 <= r -> r < b <= 2 ^ (h + 1) -> holds (r + 1) b t -> holds r b (set_row r (cp_node_spec r) t).
Proof.
  intros Ht Hr Hb Hh0 k Hk0. pose proof (tree_rows t Ht). rewrite cp_row_set by lia.
  destruct (Z.eqb_spec k r) as [-> | Hne]; [reflexivity | apply Hh0; lia].
Qed.

Lemma holds_high a r t : tree_for t -> 0 <= a <= r -> r < 2 ^ (h + 1) -> holds a r t -> holds a (r + 1) (set_row r (cp_node_spec r) t).
Proof.
  intros Ht Ha Hr Hh0 k Hk0. pose proof (tree_rows t Ht). rewrite cp_row_set by lia.
  destruct (Z.eqb_spec k r) as [-> | Hne]; [reflexivity | apply Hh0; lia].
Qed.

(** ** Building *)

Abbreviation triple := (vtriple (fun s => inv B (cp_world s)) cp_tree).

Lemma cp_get_tree t G : triple t G get_tree (fun a t' => a = t /\ t' = t).
Proof. intros s Hi <-. repeat split; apply Hi. Qed.

Lemma cp_update t G f : triple t G (update_tree f) (fun _ t' => t' = f t).
Proof. intros s Hi <-. destruct s. split; [reflexivity | exact Hi]. Qed.

Lemma cp_world_ok {A} t (m : C A) Q :
  hoare (inv B) F m Q -> triple t (fun _ => F) (cp_on_world m) (fun a t' => Q a /\ t' = t).
Proof.
  intros Hm s Hi <-. unfold cp_on_world. specialize (Hm _ Hi).
  destruct s as [w t0]. cbn in *. destruct (m w) as [[a | e] w']; destruct Hm; auto.
Qed.

(** The source of one-time public keys returns those of the key, or fails under [F]. *)
Definition source_ok (f : option lms_coprocess_ots_pub_fn) (context : ptr) : Prop :=
  forall g q, f = Some g -> 0 <= q < 2 ^ h -> hoare (inv B) F (g context priv q) (fun out => out = ots_pub alg op I_ seed q).

Lemma build_leaf_ok t f context q :
  (hoare (inv B) F (f context priv q) (fun out => out = ots_pub alg op I_ seed q)) -> 0 <= q < 2 ^ h ->
  tree_for t -> holds (2 ^ h) (2 ^ h + q) t ->
  triple t (fun _ => F) (build_leaf priv f context alg (2 ^ h) q) (fun _ t' => tree_for t' /\ holds (2 ^ h) (2 ^ h + (q + 1)) t').
Proof.
  intros Hf Hq Ht Hh0. destruct height_bound as (_ & Hp & Hs). unfold build_leaf. rewrite u32_small by lia.
  eapply vtriple_bind; [apply cp_get_tree |]. intros ? ? [-> ->].
  eapply vtriple_bind; [apply cp_world_ok, hoare_or_return, Hf |]. intros ? ? [-> ->].
  eapply vtriple_bind.
  { apply cp_world_ok, hoare_or_return, ok_returns. unfold cp_leaf_prefix. rewrite (tree_I _ Ht).
    apply leaf_hash_ok; [exact (key_I_len priv lp op Hk) | exact (key_alg _ _ _ Hk) | apply hash_of_len, (key_alg _ _ _ Hk)]. }
  intros ? ? [-> ->]. eapply vtriple_post; [apply cp_update |]. intros ? ? ->.
  assert (E : leaf_spec alg I_ (2 ^ h + q) (ots_pub alg op I_ seed q) = cp_node_spec (2 ^ h + q)).
  { rewrite leaf_spec_node by exact Hq. cbn [tree_spec]. do 2 f_equal. lia. }
  rewrite E, Z.add_assoc. split; [apply tree_for_set, Ht | apply holds_high; (assumption || lia)].
Qed.

Lemma build_internal_ok count : forall t,
  Z.of_nat count < 2 ^ h -> tree_for t -> holds (Z.of_nat count + 1) (2 ^ (h + 1)) t ->
  triple t (fun _ => F) (build_internal count alg) (fun _ t' => built t').
Proof.
  destruct height_bound as (_ & Hp & Hs). induction count as [| count IH]; intros t Hc Ht Hh0; cbn [build_internal].
  { apply vtriple_ret. split; assumption. }
  set (r := Z.of_nat (S count)) in *. assert (Hr : 1 <= r) by lia.
  eapply vtriple_bind; [apply cp_get_tree |]. intros ? ? [-> ->].
  rewrite !(Z.mul_comm r 2), (Hh0 (2 * r)), (Hh0 (2 * r + 1)) by lia. rewrite (tree_I _ Ht).
  eapply vtriple_bind.
  { apply cp_world_ok, hoare_or_return.
    apply (internal_node_ok F B _ _ HB); [exact (key_ident priv lp op Hk) | exact (key_alg _ _ _ Hk) | split; [apply node_spec_len | apply node_spec_bytes]..]. }
  intros ? ? [-> ->]. rewrite <- inner_spec_node by lia.
  eapply vtriple_bind; [apply cp_update |]. intros ? ? ->.
  apply IH; [lia | apply tree_for_set, Ht |]. replace (Z.of_nat count + 1) with r by lia. apply holds_low; (assumption || lia).
Qed.

Lemma build_ok t tree ots context :
  tree <> NULL -> source_ok ots context -> tree_for t ->
  triple t (fun _ => F) (lms_coprocess_build tree (Some priv) ots context) (fun _ t' => built t').
Proof.
  intros Htree Hsrc Ht. destruct height_bound as (_ & Hp & Hs). unfold lms_coprocess_build.
  eapply vtriple_bind; [apply cp_get_tree |]. intros ? ? [-> ->].
  rewrite (tree_leaves _ Ht), (tree_type _ Ht), Z.eqb_refl.
  eapply vtriple_bind; [apply vtriple_guard | intros [] ? [-> _]].
  { intros E. apply orb_true_iff in E as [E | E]; apply Z.eqb_eq in E; [contradiction | lia]. }
  eapply vtriple_bind; [apply vtriple_guard; discriminate | intros [] ? [-> _]].
  eapply vtriple_bind; [apply cp_world_ok, hoare_or_return, ok_returns, (hash_alg_returns priv B lp op Hk) |]. intros ? ? [-> ->].
  eapply vtriple_bind.
  - apply (vtriple_loop _ _ _ _ _ _ (fun q _ t' => tree_for t' /\ holds (2 ^ h) (2 ^ h + q) t')).
    + split; [exact Ht | intros k Hk0; lia].
    + intros q [] t' Hq [Ht' Hh0]. apply build_leaf_ok; [| lia | assumption..].
      destruct ots as [g |]; [apply (Hsrc g q eq_refl); lia | apply (public_from_private_ok F priv B HB lp op Hk)].
  - intros [] t' [Ht' Hh0]. apply build_internal_ok; [lia | exact Ht' |]. rewrite Z2Nat.id in * by lia.
    replace (2 ^ h - 1 + 1) with (2 ^ h) by lia. replace (2 ^ (h + 1)) with (2 ^ h + (0 + 2 ^ h)) by lia. exact Hh0.
Qed.

Lemma init_ok t tree :
  tree <> NULL -> h <= LMS_COPROCESS_MAX_HEIGHT ->
  triple t (fun _ => F) (lms_coprocess_tree_init tree (priv_lms_type priv) (Some I_)) (fun _ t' => tree_for t').
Proof.
  intros Htree Hmax. destruct height_bound as (Hh0 & Hp & Hs). unfold lms_coprocess_tree_init.
  eapply vtriple_bind; [apply vtriple_guard | intros [] ? [-> _]].
  { intros E. apply Z.eqb_eq in E. contradiction. }
  eapply vtriple_bind; [apply cp_world_ok, ok_returns, returns_or_return, get_lms_param_returns, (key_lms priv lp op Hk) |].
  intros ? ? [-> ->].
  eapply vtriple_bind; [apply vtriple_guard | intros [] ? [-> _]].
  { intros E. apply orb_true_iff in E as [E | E]; [apply Z.eqb_eq in E | apply Z.ltb_lt in E]; lia. }
  eapply vtriple_post; [apply cp_update |]. intros ? ? ->. split; try reflexivity.
  - apply (key_lms_wf priv lp op Hk).
  - cbn [cp_leaf_count]. apply u32_shl1. lia.
  - change (2 ^ (h + 1) <= Z.of_nat (length (cp_nodes zero_coprocess))). cbn [cp_nodes zero_coprocess]. rewrite length_replicate.
    unfold LMS_COPROCESS_MAX_HEIGHT in Hmax. pose proof (Z.pow_le_mono_r 2 (h + 1) 11 ltac:(lia) ltac:(lia)).
    change (2 ^ 11) with 2048 in *. change (Z.of_nat (Z.to_nat (LMS_COPROCESS_MAX_NODES + 1))) with 2048. lia.
Qed.

(** ** Reading *)

Lemma full_row t r : built t -> 1 <= r < 2 ^ (h + 1) -> slice 0 LMS_N (cp_row t r) = cp_node_spec r.
Proof. intros [_ Hh0] Hr. rewrite (Hh0 r Hr). apply slice_all. symmetry. apply node_spec_len. Qed.

Lemma root_ok t root : built t -> root <> NULL -> lms_coprocess_root (Some t) root = Ok (root_spec alg op h I_ seed).
Proof.
  intros Hb Hr. destruct height_bound as (_ & Hp & Hs). unfold lms_coprocess_root. rewrite (tree_leaves _ (proj1 Hb)).
  destruct (Z.eqb_spec root NULL); [contradiction |]. destruct (Z.eqb_spec (2 ^ h) 0); [lia |]. cbn [orb].
  rewrite full_row by (assumption || lia). unfold cp_node_spec. rewrite Z.sub_0_r. reflexivity.
Qed.

Lemma node_ok t r out : built t -> out <> NULL -> 0 <= r <= UINT_MAX ->
  lms_coprocess_node (Some t) r out = if (1 <=? r) && (r <? 2 ^ (h + 1)) then Ok (cp_node_spec r) else Err LMS_ERR_INVALID.
Proof.
  intros Hb Ho Hr. destruct height_bound as (_ & Hp & Hs). unfold lms_coprocess_node. rewrite (tree_leaves _ (proj1 Hb)).
  destruct (Z.eqb_spec out NULL); [contradiction |]. destruct (Z.eqb_spec (2 ^ h) 0); [lia |]. cbn [orb].
  rewrite (u32_small (2 ^ h * 2)), u32_small by lia.
  destruct (Z.eqb_spec r 0) as [-> | Hr0]; [reflexivity |]. destruct (Z.leb_spec 1 r); [| lia]. cbn [orb andb].
  destruct (Z.ltb_spec (2 ^ h * 2 - 1) r), (Z.ltb_spec r (2 ^ (h + 1))); try lia; [reflexivity |].
  rewrite full_row by (assumption || lia). reflexivity.
Qed.

Lemma path_rows_ok t q count : forall i,
  built t -> 0 <= q < 2 ^ h -> 0 <= i -> i + Z.of_nat count = h ->
  path_rows count t ((2 ^ h + q) / 2 ^ i) = concat (map (fun i => T (Z.to_nat i) (sibling_num h q i)) (seqZ i (Z.of_nat count))).
Proof.
  induction count as [| count IH]; intros i Hb Hq Hi Hc; [reflexivity |]. cbn [path_rows].
  rewrite seqZ_cons by lia. cbn [map concat].
  replace ((2 ^ h + q) / 2 ^ i / 2) with ((2 ^ h + q) / 2 ^ (i + 1)) by (rewrite Z.div_div, Z.pow_add_r by lia; reflexivity).
  rewrite (IH (i + 1)) by (assumption || lia). replace (Z.succ i) with (i + 1) by lia. replace (Z.pred (Z.of_nat (S count))) with (Z.of_nat count) by lia.
  f_equal. rewrite (tree_n _ (proj1 Hb)). change ((2 ^ h + q) / 2 ^ i ^^ 1) with (sibling_num h q i).
  destruct (sibling_level lp q i Hq ltac:(lia)) as [_ Hl].
  destruct height_bound as (Hh0 & Hp & Hs).
  assert (H1 : 1 <= 2 ^ (h - i)) by (apply pow2_pos; lia).
  pose proof (Z.pow_le_mono_r 2 (h - i + 1) (h + 1) ltac:(lia) ltac:(lia)).
  rewrite full_row by (assumption || lia). unfold cp_node_spec. rewrite (Z.log2_unique _ (h - i)) by (rewrite ?Z.add_1_r in *; lia).
  do 2 f_equal. lia.
Qed.

Lemma cp_auth_path_ok t q path : built t -> path <> NULL -> 0 <= q < 2 ^ h ->
  lms_coprocess_auth_path (Some t) q path = Ok (auth_path_spec alg op h I_ seed q).
Proof.
  intros Hb Hpath Hq. destruct height_bound as (Hh0 & Hp & Hs). unfold lms_coprocess_auth_path. pose proof (proj1 Hb) as Ht.
  rewrite (tree_leaves _ Ht), (tree_height _ Ht).
  destruct (Z.eqb_spec path NULL); [contradiction |]. destruct (Z.eqb_spec (2 ^ h) 0); [lia |].
  destruct (Z.leb_spec (2 ^ h) q); [lia |]. cbn [orb]. rewrite u32_small by lia.
  pose proof (path_rows_ok t q (Z.to_nat h) 0 Hb Hq ltac:(lia) ltac:(lia)) as Hpr. rewrite Z.div_1_r in Hpr. rewrite Hpr.
  rewrite Z2Nat.id by lia. reflexivity.
Qed.

(** ** Verification *)

(** The public key of the tree, whose verifier climbs the same way. *)
Definition tree_pub : lms_public_key_t :=
  mkPub (priv_lms_type priv) (priv_lmots_type priv) I_ (root_spec alg op h I_ seed).

Lemma tree_pub_ok : pub_ok tree_pub lp op.
Proof.
  split; [| exact (key_params _ _ _ Hk) | exact (key_alg _ _ _ Hk)]. pose proof (key_wf _ _ _ Hk) as Hw.
  split; [apply Hw | apply Hw | apply Hw | apply Hw | apply (tree_spec_len priv lp op Hk) |].
  cbn [tree_pub pub_root]. unfold root_spec. destruct (Z.to_nat h); apply hash_of_bytes, (key_alg _ _ _ Hk).
Qed.

(** The root a one-time public key and a path lead to. *)
Definition climbed (q : Z) (kv path : bytes) : bytes :=
  climb_path alg I_ (Z.to_nat h) (2 ^ h + q) (leaf_spec alg I_ (2 ^ h + q) kv) path.

Lemma root_from_kv_ok t q kv path root :
  tree_for t -> root <> NULL -> 0 <= q < 2 ^ h -> len kv = LMS_N -> h * LMS_N <= len path -> Forall is_byte path ->
  hoare (inv B) F (lms_coprocess_root_from_kv (Some t) q (Some kv) (Some path) root) (fun out => out = climbed q kv path).
Proof.
  intros Ht Hroot Hq Hkv Hpath Hpb. destruct height_bound as (Hh0 & Hp & Hs). unfold lms_coprocess_root_from_kv.
  rewrite (tree_leaves _ Ht), (tree_type _ Ht), (tree_I _ Ht), (tree_n _ Ht), (tree_height _ Ht).
  eapply hoare_bind with (P := fun _ => True); [apply hoare_guard; [| exact I] | intros _ _].
  { intros E. apply orb_true_iff in E as [E | E]; apply Z.eqb_eq in E; [contradiction | lia]. }
  eapply hoare_bind with (P := fun _ => True); [apply hoare_guard; [| exact I] | intros _ _].
  { intros E. apply Z.leb_le in E. lia. }
  eapply hoare_bind; [apply ok_returns, returns_or_return, get_lms_param_returns, (key_lms priv lp op Hk) |]. intros ? ->.
  rewrite u32_small by lia. pose proof (pub_same_alg tree_pub lp op tree_pub_ok) as Ealg. rewrite Ealg.
  eapply hoare_bind.
  { apply hoare_or_return, ok_returns, leaf_hash_ok; [exact (key_I_len priv lp op Hk) | exact (key_alg _ _ _ Hk) | exact Hkv]. }
  intros ? ->. apply (climb_loop_ok F _ _ B HB tree_pub lp op tree_pub_ok);
    [lia | split; [apply hash_of_len | apply hash_of_bytes]; apply (key_alg _ _ _ Hk) | exact Hpath | exact Hpb].
Qed.

Lemma cp_verify_ok t q kv path :
  built t -> 0 <= q < 2 ^ h -> len kv = LMS_N -> Forall is_byte kv -> h * LMS_N <= len path -> Forall is_byte path ->
  forall w, inv B w ->
  match lms_coprocess_verify (Some t) q (Some kv) (Some path) w with
  | (Ok _, w') => climbed q kv path = root_spec alg op h I_ seed /\ inv B w'
  | (Err e, w') => ((e = LMS_ERR_VERIFY /\ climbed q kv path <> root_spec alg op h I_ seed) \/ F) /\ inv B w'
  end.
Proof.
  intros Hb Hq Hkv Hbytes Hpath Hpb w Hi.
  pose proof (root_from_kv_ok t q kv path 1 (proj1 Hb) ltac:(discriminate) Hq Hkv Hpath Hpb w Hi) as Hr.
  unfold lms_coprocess_verify, or_return, mbind, M_bind. destruct (lms_coprocess_root_from_kv _ _ _ _ _ w) as [[root | e] w'].
  2: { destruct Hr as [HF Hi']. split; [right; exact HF | exact Hi']. }
  destruct Hr as [-> Hi']. rewrite (root_ok t 1 Hb) by discriminate.
  pose proof (pub_wf _ _ _ tree_pub_ok) as Hw. pose proof (key_alg _ _ _ Hk) as Ha.
  pose proof (root_diff_zero (climbed q kv path) (root_spec alg op h I_ seed)
    (climb_path_bytes _ _ _ _ _ _ Ha (hash_of_bytes _ _ Ha)) (wf_pub_root_byte _ Hw)
    (climb_path_len _ _ _ _ _ _ Ha (hash_of_len _ _ Ha)) (wf_pub_root _ Hw)) as Hz.
  destruct (Z.eqb_spec (root_diff (climbed q kv path) (root_spec alg op h I_ seed)) 0) as [E | E]; (split; [| exact Hi']).
  - apply Hz, E.
  - left. split; [reflexivity |]. intros Heq. apply E, Hz, Heq.
Qed.

(** What building writes is accepted. *)
Lemma climbed_own q : 0 <= q < 2 ^ h ->
  climbed q (ots_pub alg op I_ seed q) (auth_path_spec alg op h I_ seed q) = root_spec alg op h I_ seed.
Proof.
  intros Hq. destruct height_bound as (Hh0 & _). rewrite <- (climb_auth_root op (key_alg _ _ _ Hk) I_ seed h ltac:(lia) q Hq).
  unfold climbed. cbn [tree_spec]. do 3 f_equal. lia.
Qed.
End CoprocessOk.

(** C18: The host's tree is the RFC 8554 tree: after [lms_coprocess_tree_init] and
    [lms_coprocess_build], with any source of one-time public keys that returns those of
    the key, every reader gives the reference's value (the root, each node by its number
    and no other number, each authentication path), and [lms_coprocess_verify] accepts
    exactly the keys and paths that lead to the root, its own ones among them; either
    call fails only with a backend or the source. *)
Theorem coprocess_refines `{P : Platform} `{Hh : HashApi} (F : Prop) (B : backends)
    (priv : lms_private_key_t) (lp : lms_param_t) (op : lmots_param_t)
    (ots : option lms_coprocess_ots_pub_fn) (context tree out : ptr) (s : cpmem) :
  key_ok priv lp op -> backends_sound F (priv_I priv) (priv_seed priv) B -> lms_p_height lp <= LMS_COPROCESS_MAX_HEIGHT ->
  source_ok F B priv lp op ots context -> tree <> NULL -> out <> NULL -> inv B (cp_world s) ->
  let alg := ots_p_hash_alg op in
  let h := lms_p_height lp in
  let root := root_spec alg op h (priv_I priv) (priv_seed priv) in
  match (lms_coprocess_tree_init tree (priv_lms_type priv) (Some (priv_I priv)) ;;
         lms_coprocess_build tree (Some priv) ots context) s with
  | (Err _, _) => F
  | (Ok _, s') =>
      let t := Some (cp_tree s') in
      lms_coprocess_root t out = Ok root /\
      (forall r, 0 <= r <= UINT_MAX -> lms_coprocess_node t r out =
         if (1 <=? r) && (r <? 2 ^ (h + 1)) then Ok (cp_node_spec priv lp op r) else Err LMS_ERR_INVALID) /\
      forall q, 0 <= q < 2 ^ h ->
        lms_coprocess_auth_path t q out = Ok (auth_path_spec alg op h (priv_I priv) (priv_seed priv) q) /\
        climbed priv lp op q (ots_pub alg op (priv_I priv) (priv_seed priv) q)
          (auth_path_spec alg op h (priv_I priv) (priv_seed priv) q) = root /\
        forall kv path w, len kv = LMS_N -> Forall is_byte kv -> h * LMS_N <= len path -> Forall is_byte path -> inv B w ->
          match fst (lms_coprocess_verify t q (Some kv) (Some path) w) with
          | Ok _ => climbed priv lp op q kv path = root
          | Err e => (e = LMS_ERR_VERIFY /\ climbed priv lp op q kv path <> root) \/ F
          end
  end.
Proof.
  intros Hk HB Hmax Hsrc Htree Hout Hi.
  assert (Hrun : vtriple (fun s => inv B (cp_world s)) cp_tree (cp_tree s) (fun _ => F)
            (lms_coprocess_tree_init tree (priv_lms_type priv) (Some (priv_I priv)) ;;
             lms_coprocess_build tree (Some priv) ots context) (fun _ t' => built priv lp op t')).
  { eapply vtriple_bind; [apply (init_ok F B priv lp op Hk); assumption |].
    intros ? t' Ht. apply (build_ok F B priv lp op Hk HB); assumption. }
  specialize (Hrun s Hi eq_refl). cbv zeta. match goal with |- match ?x with _ => _ end => destruct x as [[u | e] s'] end; [| apply Hrun].
  destruct Hrun as [Hb _]. split; [apply (root_ok priv lp op Hk); assumption |].
  split; [intros r Hr; apply (node_ok priv lp op Hk); assumption |].
  intros q Hq. split; [apply (cp_auth_path_ok priv lp op Hk); assumption |].
  split; [apply (climbed_own priv lp op Hk), Hq |]. intros kv path w Hkv Hbytes Hpath Hpb Hw.
  pose proof (cp_verify_ok F B priv lp op Hk HB (cp_tree s') q kv path Hb Hq Hkv Hbytes Hpath Hpb w Hw) as Hv.
  destruct (lms_coprocess_verify _ _ _ _ w) as [[v | e] w']; apply Hv.
Qed.

Definition demo_cpmem : cpmem (P := test_platform) := mkCpmem test_world zero_coprocess.

Lemma coprocess_refines_witness :
  exists s', (lms_coprocess_tree_init (P := test_platform) 1 (priv_lms_type demo_priv) (Some (priv_I demo_priv)) ;;
              lms_coprocess_build (Hh := toy_hash_api) 1 (Some demo_priv) None NULL) demo_cpmem = (Ok tt, s') /\
    lms_coprocess_root (Some (cp_tree s')) 1
      = Ok (root_spec (Hh := toy_hash_api) LMS_HASH_SHAKE256 demo_op 5 (priv_I demo_priv) (priv_seed demo_priv)).
Proof.
  pose proof (coprocess_refines (P := test_platform) (Hh := toy_hash_api) False no_backends demo_priv demo_lp demo_op
    None NULL 1 1 demo_cpmem demo_key_ok (no_backends_sound _ _ _) ltac:(discriminate) ltac:(discriminate)
    ltac:(discriminate) ltac:(discriminate) demo_inv) as H.
  cbv zeta in H. match type of H with match ?x with _ => _ end => destruct x as [[[] | e] s'] end; [| destruct H].
  exists s'. split; [reflexivity | apply H].
Defined.
