(* ===== verification/MmioRegs.v ===== *)
(** The register map and the command set of the hash accelerator (src/lms_mmio.h). *)

From S2P Require Import Prelude Types.

(** Version words of the VERSION register. *)
Definition LMS_MMIO_VERSION_0_1 : Z := 0x00000001.
Definition LMS_MMIO_VERSION_0_2 : Z := 0x00000002.
Definition LMS_MMIO_VERSION_0_3 : Z := 0x00000003.
Definition LMS_MMIO_VERSION_0_4 : Z := 0x00000004.
Definition LMS_MMIO_VERSION_0_5 : Z := 0x00000005.
Definition LMS_MMIO_VERSION_0_6 : Z := 0x00000006.
Definition LMS_MMIO_VERSION_0_7 : Z := 0x00000007.

(** Capability bits. *)
Definition LMS_MMIO_CAP_SHA256 : Z := 1 .<< 0.
Definition LMS_MMIO_CAP_HASH_ONCE : Z := 1 .<< 1.
Definition LMS_MMIO_CAP_CHAIN : Z := 1 .<< 2.
Definition LMS_MMIO_CAP_DERIVE_CHAIN : Z := 1 .<< 3.
Definition LMS_MMIO_CAP_INSECURE_TEST_MODE : Z := 1 .<< 4.
Definition LMS_MMIO_CAP_LMOTS_KEYGEN : Z := 1 .<< 5.
Definition LMS_MMIO_CAP_LMOTS_SIGN : Z := 1 .<< 6.
Definition LMS_MMIO_CAP_LMOTS_VERIFY : Z := 1 .<< 7.
Definition LMS_MMIO_CAP_SIM_MC : Z := 1 .<< 8.
Definition LMS_MMIO_CAP_WRAP : Z := 1 .<< 9.
Definition LMS_MMIO_CAP_HMAC_KSTATE : Z := 1 .<< 10.
Definition LMS_MMIO_CAP_LMOTS_KEYGEN_LEAF : Z := 1 .<< 11.
Definition LMS_MMIO_CAP_SHAKE256 : Z := 1 .<< 12.
Definition LMS_MMIO_CAP_D_INTR_CHAIN : Z := 1 .<< 13.
Definition LMS_MMIO_CAP_MSG_Q_COEF : Z := 1 .<< 14.
Definition LMS_MMIO_CAP_STATE_COMMIT : Z := 1 .<< 15.
Definition LMS_MMIO_CAP_PROBE_REQUIRED : Z := LMS_MMIO_CAP_SHA256.
Definition LMS_MMIO_CAP_V0_REQUIRED : Z := LMS_MMIO_CAP_SHA256 .| LMS_MMIO_CAP_HASH_ONCE .| LMS_MMIO_CAP_CHAIN.

(** Register offsets. *)
Definition LMS_MMIO_REG_VERSION : Z := 0x000.
Definition LMS_MMIO_REG_CAPABILITY : Z := 0x004.
Definition LMS_MMIO_REG_COMMAND : Z := 0x008.
Definition LMS_MMIO_REG_CONTROL : Z := 0x00c.
Definition LMS_MMIO_REG_STATUS : Z := 0x010.
Definition LMS_MMIO_REG_ERROR : Z := 0x014.
Definition LMS_MMIO_REG_INPUT_LENGTH : Z := 0x018.
Definition LMS_MMIO_REG_OUTPUT_LENGTH : Z := 0x01c.
Definition LMS_MMIO_REG_CYCLE_COUNT : Z := 0x020.
Definition LMS_MMIO_REG_ARG_Q : Z := 0x024.
Definition LMS_MMIO_REG_ARG_I : Z := 0x028.
Definition LMS_MMIO_REG_ARG_START : Z := 0x02c.
Definition LMS_MMIO_REG_ARG_STEPS : Z := 0x030.
Definition LMS_MMIO_REG_ARG_KEY : Z := 0x034.
Definition LMS_MMIO_REG_TASK_ADDR : Z := 0x038.
Definition LMS_MMIO_REG_TASK_DATA : Z := 0x03c.
Definition LMS_MMIO_REG_IDENTIFIER : Z := 0x040.
Definition LMS_MMIO_REG_SIM_MC : Z := 0x060.
Definition LMS_MMIO_REG_ARG_LEAF_NODE : Z := 0x050.
Definition LMS_MMIO_REG_SEED : Z := 0x080.
Definition LMS_MMIO_REG_WRAPPED : Z := 0x0a0.
Definition LMS_MMIO_REG_KWRAP : Z := 0x0e0.
Definition LMS_MMIO_REG_INPUT : Z := 0x100.
Definition LMS_MMIO_REG_OUTPUT : Z := 0x200.

(** Commands. *)
Definition LMS_MMIO_CMD_HASH_ONCE : Z := 1.
Definition LMS_MMIO_CMD_CHAIN : Z := 2.
Definition LMS_MMIO_CMD_SEED_LOAD : Z := 3.
Definition LMS_MMIO_CMD_DERIVE_CHAIN : Z := 4.
Definition LMS_MMIO_CMD_DERIVE_RANDOMIZER : Z := 5.
Definition LMS_MMIO_CMD_LMOTS_KEYGEN : Z := 6.
Definition LMS_MMIO_CMD_LMOTS_SIGN : Z := 7.
Definition LMS_MMIO_CMD_LMOTS_VERIFY : Z := 8.
Definition LMS_MMIO_CMD_LMOTS_KEYGEN_LEAF : Z := 14.
Definition LMS_MMIO_CMD_LMOTS_VERIFY_LEAF : Z := 15.
Definition LMS_MMIO_CMD_MC_STEP : Z := 16.
Definition LMS_MMIO_CMD_MC_LOAD : Z := 17.
Definition LMS_MMIO_CMD_WRAP_SEED : Z := 18.
Definition LMS_MMIO_CMD_UNWRAP_SEED : Z := 19.
Definition LMS_MMIO_CMD_HMAC_KSTATE : Z := 20.
Definition LMS_MMIO_CMD_STATE_COMMIT : Z := 21.
Definition LMS_MMIO_CMD_D_INTR_CHAIN : Z := 24.
Definition LMS_MMIO_CMD_HASH_ONCE_RAM : Z := 25.
Definition LMS_MMIO_CMD_MSG_Q_COEF : Z := 26.
Definition LMS_MMIO_CMD_SEED_WRITE_SAFE : Z := 28.

(** Wrapped seed and key slots. *)
Definition LMS_MMIO_WRAPPED_LEN : Z := 48.
Definition LMS_MMIO_KEY_SEED : Z := 0.
Definition LMS_MMIO_KEY_KWRAP : Z := 1.
Definition LMS_MMIO_KEY_KSTATE : Z := 2.

(** Bits of CONTROL and STATUS. *)
Definition LMS_MMIO_CTRL_START : Z := 1 .<< 0.
Definition LMS_MMIO_CTRL_CLEAR : Z := 1 .<< 1.
Definition LMS_MMIO_STATUS_BUSY : Z := 1 .<< 0.
Definition LMS_MMIO_STATUS_DONE : Z := 1 .<< 1.
Definition LMS_MMIO_STATUS_ERROR : Z := 1 .<< 2.

(** Codes of the ERROR register. *)
Definition LMS_MMIO_HW_ERR_NONE : Z := 0.
Definition LMS_MMIO_HW_ERR_UNSUPPORTED_COMMAND : Z := 1.
Definition LMS_MMIO_HW_ERR_BUSY : Z := 2.
Definition LMS_MMIO_HW_ERR_INPUT_LENGTH : Z := 3.
Definition LMS_MMIO_HW_ERR_OUTPUT_LENGTH : Z := 4.
Definition LMS_MMIO_HW_ERR_CHAIN_INDEX : Z := 5.
Definition LMS_MMIO_HW_ERR_CHAIN_RANGE : Z := 6.
Definition LMS_MMIO_HW_ERR_CONTROL : Z := 7.
Definition LMS_MMIO_HW_ERR_INTERNAL : Z := 15.

(** Sizes and the layout of the task RAM. *)
Definition LMS_MMIO_OUTPUT_LEN : Z := 32.
Definition LMS_MMIO_MAX_INPUT : Z := 128.
Definition LMS_MMIO_HASH_ONCE_RAM_MAX : Z := 2048.
Definition LMS_MMIO_MAX_COEFFICIENTS : Z := LMS_MAX_OTS_P.
Definition LMS_MMIO_MAX_CHAIN_BYTES : Z := LMS_MAX_OTS_P * LMS_N.
Definition LMS_MMIO_TASK_CHAIN_WORD_BASE : Z := 32.
Definition LMS_MMIO_REG_ARG_W : Z := 0x054.
Definition LMS_MMIO_TASK_STREAM_BASE : Z := 32.
