(* ===== verification/Mmio.v ===== *)
(** The driver of the hash accelerator (src/lms_mmio.c).

    The client structure lies in the device's part of the memory, and the bus is reached
    through the function pointers it holds; both are the class [Mmio].  A driver function
    is a computation of [DM] on the state of the library: it may use the library's
    parameter caches and its software hash.  What it writes through its output pointers
    is the value it returns.  The profiling build is left out. *)

From Stdlib Require Import Strings.String.
From S2P Require Import Prelude Types HashApi Params LmOts MmioRegs.

(** * Data *)

(** [MMIO_UNDEFINED] is not a status of the code: a null pointer was followed. *)
Inductive lms_mmio_status_t :=
| LMS_MMIO_ERR_INVALID
| LMS_MMIO_ERR_PROTOCOL
| LMS_MMIO_ERR_HARDWARE
| LMS_MMIO_ERR_TIMEOUT
| MMIO_UNDEFINED.

#[export] Instance lms_mmio_status_eq_dec : EqDecision lms_mmio_status_t.
Proof. solve_decision. Defined.

Record lms_mmio_hash_desc_t := mkDesc {
  desc_hash_alg : lms_hash_alg_t;
  desc_version : Z;
  desc_probe_cap : Z;
  desc_max_input_bytes : Z;
  desc_name : string
}.

Definition LMS_MMIO_HASH_DESC_SHA256 : lms_mmio_hash_desc_t :=
  mkDesc LMS_HASH_SHA256 0x7 LMS_MMIO_CAP_SHA256 128 "SHA-256".

Definition LMS_MMIO_HASH_DESC_SHAKE256 : lms_mmio_hash_desc_t :=
  mkDesc LMS_HASH_SHAKE256 0x1 LMS_MMIO_CAP_SHAKE256 136 "SHAKE256".

(** A bus function: one of this file, or one from outside at an address. *)
Inductive bus_fn := Direct | Extern (f : ptr).

Record lms_mmio_bus_t := mkBus {
  context : ptr;
  read32 : option bus_fn;
  write32 : option bus_fn
}.

Record lms_mmio_client_t := mkClient {
  bus : lms_mmio_bus_t;
  timeout_polls : Z;
  capabilities : Z;
  last_hw_error : Z;
  fallback_count : Z;
  hardware_chain_count : Z;
  hardware_chain_cycles : Z;
  hardware_derive_count : Z;
  hardware_derive_cycles : Z;
  hardware_keygen_count : Z;
  hardware_keygen_cycles : Z;
  hardware_sign_count : Z;
  hardware_sign_cycles : Z;
  hardware_verify_count : Z;
  hardware_verify_cycles : Z;
  hardware_hash_once_count : Z;
  hardware_hash_once_cycles : Z;
  key_handle : Z;
  allow_fallback : Z;
  probed : Z;
  coef_ready : Z;
  hash_desc : option lms_mmio_hash_desc_t;
  randomizer_c_slot : ptr;
  trng_fill_c : ptr;
  trng_context : ptr
}.

(** A client of zero bytes. *)
Definition zero_client : lms_mmio_client_t :=
  mkClient (mkBus NULL None None) 0 0 0 0 0 0 0 0 0 0 0 0 0 0 0 0 0 0 0 0 None NULL NULL NULL.

(** The byte arrays the transfer functions are given: where the caller or the compiler put
    them decides between the two ways of moving words. *)
Inductive host_buffer :=
| B_I | B_input | B_value | B_seed | B_key | B_wrapped | B_message | B_inputs | B_outputs | B_output
| B_head | B_packed | B_hardware_output | B_ignored_output.

(** What lies outside src/: the memory of the device's side and the bus.  A host with
    this driver's direct word moves is little-endian. *)
Class Mmio `{P : Platform} := {
  client_at : ptr -> dev -> lms_mmio_client_t;
  set_client : ptr -> lms_mmio_client_t -> dev -> dev;
  client_set : forall p c d, client_at p (set_client p c d) = c;
  (** the registered [read32] and [write32]: function, context, offset, value *)
  extern_read32 : ptr -> ptr -> Z -> dev -> Z * dev;
  extern_write32 : ptr -> ptr -> Z -> Z -> dev -> dev;
  (** volatile accesses to an address *)
  load32 : ptr -> dev -> Z * dev;
  store32 : ptr -> Z -> dev -> dev;
  (** [trng_fill_c(context, out)]: the status and the bytes *)
  extern_trng_fill : ptr -> ptr -> dev -> (Z * bytes) * dev;
  (** [n] bytes at a pointer *)
  bytes_at : ptr -> Z -> dev -> bytes;
  (** is the address a multiple of 4? *)
  aligned4 : host_buffer -> bool
}.

Section Driver.
Context `{P : Platform} `{Hh : HashApi} `{Mm : !Mmio}.

Definition DM (A : Type) : Type := M world lms_mmio_status_t A.

(** ** The client structure *)

Definition get_client {E} (p : ptr) : M world E lms_mmio_client_t := fun w => (Ok (client_at p (device w)), w).

Definition update_client {E} (p : ptr) (f : lms_mmio_client_t -> lms_mmio_client_t) : M world E unit :=
  modify (fun w => w {{ device := set_client p (f (client_at p (device w))) (device w) }}).

(** [client->hash_desc->..] *)
Definition bound_desc (p : ptr) : DM lms_mmio_hash_desc_t :=
  c ← get_client p;
  match hash_desc c with Some desc => mret desc | None => fail MMIO_UNDEFINED end.

(** A call into the library: its status as one of the driver's. *)
Definition from_library {A} (e : lms_mmio_status_t) (m : C A) : DM A :=
  fun w => match m w with (Ok a, w') => (Ok a, w') | (Err _, w') => (Err e, w') end.

(** The status of [m] as a value; undefined behaviour is none. *)
Definition status_of {A} (m : DM A) : DM (result lms_mmio_status_t A) :=
  fun w => match m w with
           | (Err MMIO_UNDEFINED, w') => (Err MMIO_UNDEFINED, w')
           | (r, w') => (Ok r, w')
           end.

(** ** The bus *)

Definition direct_read32 (context : ptr) (offset : Z) : dev -> Z * dev := load32 (context + offset).

Definition direct_write32 (context : ptr) (offset value : Z) : dev -> dev := store32 (context + offset) value.

(** A step of the device. *)
Definition on_device {A} (f : dev -> A * dev) : DM A :=
  fun w => (Ok (fst (f (device w))), w {{ device := snd (f (device w)) }}).

(** [client->bus.read32(client->bus.context, offset)] *)
Definition bus_read (p : ptr) (offset : Z) : DM Z :=
  c ← get_client p;
  match read32 (bus c) with
  | Some Direct => on_device (direct_read32 (context (bus c)) offset)
  | Some (Extern f) => on_device (extern_read32 f (context (bus c)) offset)
  | None => fail MMIO_UNDEFINED
  end.

(** [client->bus.write32(client->bus.context, offset, value)] *)
Definition bus_write (p : ptr) (offset value : Z) : DM unit :=
  c ← get_client p;
  match write32 (bus c) with
  | Some Direct => on_device (fun d => (tt, direct_write32 (context (bus c)) offset value d))
  | Some (Extern f) => on_device (fun d => (tt, extern_write32 f (context (bus c)) offset value d))
  | None => fail MMIO_UNDEFINED
  end.

(** ** Helpers *)

Definition lmots_param_hw (lmots_type : Z) : DM lmots_param_t :=
  param ← from_library LMS_MMIO_ERR_INVALID (lms_get_lmots_param lmots_type);
  guard_err (negb (ots_p_w param =? 1) && negb (ots_p_w param =? 2)
             && negb (ots_p_w param =? 4) && negb (ots_p_w param =? 8)) LMS_MMIO_ERR_INVALID ;;
  mret param.

(** The 32 words and the number in use. *)
Definition pack_coefficients_words (coefficients : bytes) (p w : Z) : list Z * Z :=
  let per := 32 / w in
  let mask := if w =? 8 then 0xff else u32 (1 .<< w) - 1 in
  let shift := w in
  let '(words, _, _) :=
    for_z (Z.to_nat p) 0 (fun i '(words, w_idx, w_shift) =>
      let words := upd w_idx (u32 (rd words w_idx .| ((rd coefficients i .& mask) .<< w_shift))) words in
      let w_shift := w_shift + shift in
      if 32 <=? w_shift then (words, w_idx + 1, w_shift - 32) else (words, w_idx, w_shift))
      (fill 0 32, 0, 0) in
  (words, u32 (p + per - 1) / per).

Definition lms_mmio_bus_init_direct (bus : option lms_mmio_bus_t) (base : ptr) : option lms_mmio_bus_t :=
  match bus with
  | Some _ => Some (mkBus base (Some Direct) (Some Direct))
  | None => None
  end.

Definition lms_mmio_client_init (client : ptr) (b : option lms_mmio_bus_t) (timeout allow : Z) : DM unit :=
  match b with
  | None => fail LMS_MMIO_ERR_INVALID
  | Some b =>
      guard_err ((client =? NULL) || bool_decide (read32 b = None) || bool_decide (write32 b = None) || (timeout =? 0))
        LMS_MMIO_ERR_INVALID ;;
      update_client client (fun _ =>
        zero_client {{ bus := b; timeout_polls := timeout;
                       allow_fallback := (if allow =? 0 then 0 else 1); hash_desc := None }})
  end.

Definition lms_mmio_probe (client : ptr) : DM unit :=
  guard_err (client =? NULL) LMS_MMIO_ERR_INVALID ;;
  c ← get_client client;
  guard_err (bool_decide (read32 (bus c) = None)) LMS_MMIO_ERR_INVALID ;;
  version ← bus_read client LMS_MMIO_REG_VERSION;
  caps ← bus_read client LMS_MMIO_REG_CAPABILITY;
  update_client client (fun c => c {{ probed := 0; capabilities := caps; hash_desc := None }}) ;;
  (if negb ((caps .& desc_probe_cap LMS_MMIO_HASH_DESC_SHAKE256) =? 0)
      && (version =? desc_version LMS_MMIO_HASH_DESC_SHAKE256) then
     update_client client (fun c => c {{ hash_desc := Some LMS_MMIO_HASH_DESC_SHAKE256 }})
   else if negb ((caps .& desc_probe_cap LMS_MMIO_HASH_DESC_SHA256) =? 0)
      && (1 <=? version) && (version <=? desc_version LMS_MMIO_HASH_DESC_SHA256) then
     update_client client (fun c => c {{ hash_desc := Some LMS_MMIO_HASH_DESC_SHA256 }})
   else mret tt) ;;
  c ← get_client client;
  match hash_desc c with
  | None => fail LMS_MMIO_ERR_PROTOCOL
  | Some _ => update_client client (fun c => c {{ probed := 1 }})
  end.

(** ** Moving bytes through the register window *)

(** A 32-bit load from, and a store to, a little-endian byte array. *)
Definition load_le32 (b : bytes) (offset : Z) : Z :=
  rd b offset .| (rd b (offset + 1) .<< 8) .| (rd b (offset + 2) .<< 16) .| (rd b (offset + 3) .<< 24).

Definition store_le32 (word : Z) : bytes := [u8 word; u8 (word .>> 8); u8 (word .>> 16); u8 (word .>> 24)].

(** [for (lane = 0; lane < 4u && offset + lane < length; lane++) word |= ..] *)
Definition pack_lanes (b : bytes) (offset length : Z) : Z :=
  for_z 4 0 (fun lane word =>
    if offset + lane <? length then word .| u32 (rd b (offset + lane) .<< (8 * lane)) else word) 0.

(** The bytes the same loop takes out of a word. *)
Definition unpack_lanes (word offset length : Z) : bytes :=
  for_z 4 0 (fun lane out =>
    if offset + lane <? length then out ++ [u8 (word .>> (8 * lane))] else out) [].

(** The turns of [for (offset = 0; offset < length; offset += 4)]. *)
Definition words_in (length : Z) : nat := Z.to_nat ((length + 3) / 4).

Definition word_aligned (b : host_buffer) (length : Z) : bool := ((length .& 3) =? 0) && aligned4 b.

Definition write_bytes (p : ptr) (base : Z) (b : host_buffer) (data : bytes) (length : Z) : DM unit :=
  if word_aligned b length then
    loopM (words_in length) 0 (fun k _ =>
      let offset := 4 * k in bus_write p (u32 (base + u32 offset)) (load_le32 data (4 * (offset .>> 2)))) tt
  else
    loopM (words_in length) 0 (fun k _ =>
      let offset := 4 * k in bus_write p (u32 (base + u32 offset)) (pack_lanes data offset length)) tt.

Definition read_bytes (p : ptr) (base : Z) (b : host_buffer) (length : Z) : DM bytes :=
  if word_aligned b length then
    loopM (words_in length) 0 (fun k out =>
      let offset := 4 * k in
      word ← bus_read p (u32 (base + u32 offset));
      mret (out ++ store_le32 word)) []
  else
    loopM (words_in length) 0 (fun k out =>
      let offset := 4 * k in
      word ← bus_read p (u32 (base + u32 offset));
      mret (out ++ unpack_lanes word offset length)) [].

Definition write_task_bytes (p : ptr) (word_base : Z) (b : host_buffer) (data : bytes) (length : Z) : DM unit :=
  if LMS_MMIO_TASK_STREAM_BASE <=? word_base then
    bus_write p LMS_MMIO_REG_TASK_ADDR word_base ;;
    if word_aligned b length then
      loopM (Z.to_nat (length .>> 2)) 0 (fun k _ => bus_write p LMS_MMIO_REG_TASK_DATA (load_le32 data (4 * k))) tt
    else
      loopM (words_in length) 0 (fun k _ =>
        let offset := 4 * k in bus_write p LMS_MMIO_REG_TASK_DATA (pack_lanes data offset length)) tt
  else
    if word_aligned b length then
      loopM (Z.to_nat (length .>> 2)) 0 (fun k _ =>
        bus_write p LMS_MMIO_REG_TASK_ADDR (u32 (word_base + u32 k)) ;;
        bus_write p LMS_MMIO_REG_TASK_DATA (load_le32 data (4 * k))) tt
    else
      loopM (words_in length) 0 (fun k _ =>
        let offset := 4 * k in
        let word := pack_lanes data offset length in
        bus_write p LMS_MMIO_REG_TASK_ADDR (u32 (word_base + u32 (offset / 4))) ;;
        bus_write p LMS_MMIO_REG_TASK_DATA word) tt.

Definition read_task_bytes (p : ptr) (word_base : Z) (b : host_buffer) (length : Z) : DM bytes :=
  bus_write p LMS_MMIO_REG_TASK_ADDR word_base ;;
  if word_aligned b length then
    loopM (Z.to_nat (length .>> 2)) 0 (fun _ out =>
      word ← bus_read p LMS_MMIO_REG_TASK_DATA;
      mret (out ++ store_le32 word)) []
  else
    loopM (words_in length) 0 (fun k out =>
      let offset := 4 * k in
      word ← bus_read p LMS_MMIO_REG_TASK_DATA;
      mret (out ++ unpack_lanes word offset length)) [].

(** ** Commands: preparing one and waiting for its end *)

Definition ensure_probe (client : ptr) : DM unit :=
  c ← get_client client;
  if negb (probed c =? 0) then mret tt else lms_mmio_probe client.

(** One turn of the polling loop: [None] to go on.  [output] is [NULL] when the caller wants no
    output; the value is the output and the cycle count. *)
Definition poll_once (client : ptr) (b : host_buffer) (output : ptr) (output_len : Z) : DM (option (bytes * Z)) :=
  status ← bus_read client LMS_MMIO_REG_STATUS;
  if negb ((status .& LMS_MMIO_STATUS_BUSY) =? 0) then mret None
  else if negb ((status .& LMS_MMIO_STATUS_ERROR) =? 0) then
    error ← bus_read client LMS_MMIO_REG_ERROR;
    update_client client (fun c => c {{ last_hw_error := error }}) ;;
    fail LMS_MMIO_ERR_HARDWARE
  else if negb ((status .& LMS_MMIO_STATUS_DONE) =? 0) then
    out ← (if negb (output =? NULL) && negb (output_len =? 0)
           then read_bytes client LMS_MMIO_REG_OUTPUT b output_len else mret []);
    cycles ← bus_read client LMS_MMIO_REG_CYCLE_COUNT;
    update_client client (fun c => c {{ last_hw_error := 0 }}) ;;
    mret (Some (out, cycles))
  else mret None.

Fixpoint poll_loop (polls : nat) (client : ptr) (b : host_buffer) (output : ptr) (output_len : Z) : DM (bytes * Z) :=
  match polls with
  | O => fail LMS_MMIO_ERR_TIMEOUT
  | S polls =>
      r ← poll_once client b output output_len;
      match r with
      | Some r => mret r
      | None => poll_loop polls client b output output_len
      end
  end.

(** Nothing the loop does changes [timeout_polls]. *)
Definition wait_for_result_n (client : ptr) (b : host_buffer) (output : ptr) (output_len : Z) : DM (bytes * Z) :=
  c ← get_client client;
  poll_loop (Z.to_nat (timeout_polls c)) client b output output_len.

Definition wait_for_result (client : ptr) (b : host_buffer) (output : ptr) : DM (bytes * Z) :=
  wait_for_result_n client b output LMS_N.

Definition prepare_command (client : ptr) (required_capability : Z) : DM unit :=
  ensure_probe client ;;
  c ← get_client client;
  guard_err (negb ((capabilities c .& required_capability) =? required_capability)) LMS_MMIO_ERR_PROTOCOL ;;
  update_client client (fun c => c {{ last_hw_error := 0 }}) ;;
  bus_write client LMS_MMIO_REG_CONTROL LMS_MMIO_CTRL_CLEAR ;;
  status ← bus_read client LMS_MMIO_REG_STATUS;
  guard_err (negb (status =? 0)) LMS_MMIO_ERR_HARDWARE.

(** [client->.._count++; client->.._cycles += cycles;] (64-bit counters) *)
Definition count_hash_once (client : ptr) (cycles : Z) : DM unit :=
  update_client client (fun c =>
    c {{ hardware_hash_once_count := u64 (hardware_hash_once_count c + 1);
         hardware_hash_once_cycles := u64 (hardware_hash_once_cycles c + cycles) }}).

Definition count_chain (client : ptr) (cycles : Z) : DM unit :=
  update_client client (fun c =>
    c {{ hardware_chain_count := u64 (hardware_chain_count c + 1);
         hardware_chain_cycles := u64 (hardware_chain_cycles c + cycles) }}).

Definition count_derive (client : ptr) (cycles : Z) : DM unit :=
  update_client client (fun c =>
    c {{ hardware_derive_count := u64 (hardware_derive_count c + 1);
         hardware_derive_cycles := u64 (hardware_derive_cycles c + cycles) }}).

Definition count_keygen (client : ptr) (cycles : Z) : DM unit :=
  update_client client (fun c =>
    c {{ hardware_keygen_count := u64 (hardware_keygen_count c + 1);
         hardware_keygen_cycles := u64 (hardware_keygen_cycles c + cycles) }}).

Definition count_sign (client : ptr) (cycles : Z) : DM unit :=
  update_client client (fun c =>
    c {{ hardware_sign_count := u64 (hardware_sign_count c + 1);
         hardware_sign_cycles := u64 (hardware_sign_cycles c + cycles) }}).

Definition count_verify (client : ptr) (cycles : Z) : DM unit :=
  update_client client (fun c =>
    c {{ hardware_verify_count := u64 (hardware_verify_count c + 1);
         hardware_verify_cycles := u64 (hardware_verify_cycles c + cycles) }}).

(** [if (client->allow_fallback && software(client->hash_desc->hash_alg) == OK)
    { client->fallback_count++; return OK; } return status;] *)
Definition fall_back {A} (client : ptr) (status : lms_mmio_status_t) (software : lms_hash_alg_t -> DM A) : DM A :=
  c ← get_client client;
  if allow_fallback c =? 0 then fail status
  else
    desc ← bound_desc client;
    r ← status_of (software (desc_hash_alg desc));
    match r with
    | Ok a => update_client client (fun c => c {{ fallback_count := u32 (fallback_count c + 1) }}) ;; mret a
    | Err _ => fail status
    end.

(** [lms_hash(alg, input, input_len, output, LMS_N)] *)
Definition software_hash (input : bytes) (alg : lms_hash_alg_t) : DM bytes :=
  match hash alg input with Some out => mret out | None => fail LMS_MMIO_ERR_INVALID end.

(** ** Hashing *)

(** Returns the digest and [*cycles]. *)
Definition lms_mmio_hash_once (client : ptr) (input : cbuf) (output : ptr) : DM (bytes * Z) :=
  guard_err ((client =? NULL) || (output =? NULL) || (cbuf_null input && negb (cbuf_len input =? 0)))
    LMS_MMIO_ERR_INVALID ;;
  status ← status_of (
    prepare_command client LMS_MMIO_CAP_HASH_ONCE ;;
    desc ← bound_desc client;
    guard_err (desc_max_input_bytes desc <? cbuf_len input) LMS_MMIO_ERR_INVALID ;;
    bus_write client LMS_MMIO_REG_COMMAND LMS_MMIO_CMD_HASH_ONCE ;;
    bus_write client LMS_MMIO_REG_INPUT_LENGTH (u32 (cbuf_len input)) ;;
    bus_write client LMS_MMIO_REG_OUTPUT_LENGTH LMS_MMIO_OUTPUT_LEN ;;
    write_bytes client LMS_MMIO_REG_INPUT B_input (cbuf_data input) (cbuf_len input) ;;
    bus_write client LMS_MMIO_REG_CONTROL LMS_MMIO_CTRL_START ;;
    wait_for_result client B_hardware_output local_ptr);
  match status with
  | Ok (hardware_output, command_cycles) =>
      count_hash_once client command_cycles ;;
      mret (hardware_output, command_cycles)
  | Err status =>
      out ← fall_back client status (software_hash (cbuf_data input));
      mret (out, 0)
  end.

Definition lms_mmio_hash_once_ram (client : ptr) (input : cbuf) (output : ptr) : DM (bytes * Z) :=
  guard_err ((client =? NULL) || (output =? NULL) || (cbuf_null input && negb (cbuf_len input =? 0)))
    LMS_MMIO_ERR_INVALID ;;
  status ← status_of (
    prepare_command client LMS_MMIO_CAP_HASH_ONCE ;;
    guard_err (LMS_MMIO_HASH_ONCE_RAM_MAX <? cbuf_len input) LMS_MMIO_ERR_INVALID ;;
    bus_write client LMS_MMIO_REG_COMMAND LMS_MMIO_CMD_HASH_ONCE_RAM ;;
    bus_write client LMS_MMIO_REG_INPUT_LENGTH (u32 (cbuf_len input)) ;;
    bus_write client LMS_MMIO_REG_OUTPUT_LENGTH LMS_MMIO_OUTPUT_LEN ;;
    write_task_bytes client 32 B_input (cbuf_data input) (cbuf_len input) ;;
    bus_write client LMS_MMIO_REG_CONTROL LMS_MMIO_CTRL_START ;;
    wait_for_result client B_hardware_output local_ptr);
  match status with
  | Ok (hardware_output, command_cycles) =>
      count_hash_once client command_cycles ;;
      mret (hardware_output, command_cycles)
  | Err status =>
      out ← fall_back client status (software_hash (cbuf_data input));
      mret (out, 0)
  end.

(** The length the command is given, and the first word of its input. *)
Definition mqc_length (message_len : Z) : Z := u32 (54 + u32 message_len).

Definition mqc_head (I_ : bytes) (q : Z) (C : bytes) : bytes :=
  slice 0 LMS_I_LEN I_ ++ [u8 q; u8 (q .>> 8); u8 (q .>> 16); u8 (q .>> 24); 0x81; 0x81] ++ slice 0 LMS_N C.

Definition mqc_base (param : lmots_param_t) (L : Z) : Z :=
  if LMS_MMIO_MAX_INPUT <? L then 568
  else if ots_p_w param =? 1 then 568 else u32 (32 + ots_p_p param * 8).

(** The coefficients out of the packed words. *)
Definition unpack_coefficients (packed : list Z) (p w : Z) : bytes :=
  map (fun i =>
    let bit := u32 (i * w) in
    let word := bit / 32 in
    let shift := bit mod 32 in
    let mask := if w =? 8 then 0xff else u32 (1 .<< w) - 1 in
    u8 ((rd packed word .>> shift) .& mask)) (seqZ 0 p).

(** [Q] and [coefficients] may be [NULL]: not read back. *)
Definition lms_mmio_msg_q_coef (client : ptr) (I_ : option bytes) (q : Z) (C : option bytes) (message : cbuf)
    (lmots_type : Z) (Q coefficients : ptr) : DM (bytes * bytes * Z) :=
  match I_, C with
  | Some I_, Some C =>
      guard_err ((client =? NULL) || (cbuf_null message && negb (cbuf_len message =? 0) && (cbuf_len message <=? 74)))
        LMS_MMIO_ERR_INVALID ;;
      param ← lmots_param_hw lmots_type;
      let L := mqc_length (cbuf_len message) in
      guard_err (LMS_MMIO_HASH_ONCE_RAM_MAX <? L) LMS_MMIO_ERR_INVALID ;;
      prepare_command client LMS_MMIO_CAP_MSG_Q_COEF ;;
      bus_write client LMS_MMIO_REG_ARG_W (ots_p_w param) ;;
      bus_write client LMS_MMIO_REG_COMMAND LMS_MMIO_CMD_MSG_Q_COEF ;;
      bus_write client LMS_MMIO_REG_INPUT_LENGTH L ;;
      bus_write client LMS_MMIO_REG_OUTPUT_LENGTH LMS_MMIO_OUTPUT_LEN ;;
      bus_write client LMS_MMIO_REG_ARG_KEY 0 ;;
      bus_write client LMS_MMIO_REG_ARG_Q q ;;
      write_bytes client LMS_MMIO_REG_IDENTIFIER B_I I_ LMS_I_LEN ;;
      write_task_bytes client (mqc_base param L) B_head (mqc_head I_ q C) 54 ;;
      (if cbuf_null message then mret tt
       else write_task_bytes client (u32 (mqc_base param L + 14)) B_message (cbuf_data message) (cbuf_len message)) ;;
      bus_write client LMS_MMIO_REG_CONTROL LMS_MMIO_CTRL_START ;;
      '(Q_out, command_cycles) ← wait_for_result client B_output Q;
      coefs ← (if coefficients =? NULL then mret []
        else
          let nwords := Z.min 32 (u32 (ots_p_p param * ots_p_w param + 31) / 32) in
          packed ← loopM (Z.to_nat nwords) 0 (fun i packed =>
            bus_write client LMS_MMIO_REG_TASK_ADDR i ;;
            word ← bus_read client LMS_MMIO_REG_TASK_DATA;
            mret (packed ++ [word])) [];
          mret (unpack_coefficients packed (ots_p_p param) (ots_p_w param)));
      count_hash_once client command_cycles ;;
      mret (Q_out, coefs, command_cycles)
  | _, _ => fail LMS_MMIO_ERR_INVALID
  end.

(** ** Chains *)

(** [value] is replaced by the result. *)
Definition lms_mmio_chain (client : ptr) (I_ : option bytes) (q i start steps : Z) (value : option bytes)
    : DM (bytes * Z) :=
  match I_, value with
  | Some I_, Some value =>
      guard_err ((client =? NULL) || (UINT16_MAX <? i) || (UINT8_MAX <? start) || (UINT8_MAX <? steps)
                 || (UINT8_MAX <? u32 (start + steps))) LMS_MMIO_ERR_INVALID ;;
      status ← status_of (
        prepare_command client LMS_MMIO_CAP_CHAIN ;;
        bus_write client LMS_MMIO_REG_COMMAND LMS_MMIO_CMD_CHAIN ;;
        bus_write client LMS_MMIO_REG_OUTPUT_LENGTH LMS_MMIO_OUTPUT_LEN ;;
        bus_write client LMS_MMIO_REG_ARG_Q q ;;
        bus_write client LMS_MMIO_REG_ARG_I i ;;
        bus_write client LMS_MMIO_REG_ARG_START start ;;
        bus_write client LMS_MMIO_REG_ARG_STEPS steps ;;
        write_bytes client LMS_MMIO_REG_IDENTIFIER B_I I_ LMS_I_LEN ;;
        write_bytes client LMS_MMIO_REG_INPUT B_value value LMS_N ;;
        bus_write client LMS_MMIO_REG_CONTROL LMS_MMIO_CTRL_START ;;
        wait_for_result client B_hardware_output local_ptr);
      match status with
      | Ok (hardware_output, command_cycles) =>
          count_chain client command_cycles ;;
          mret (hardware_output, command_cycles)
      | Err status =>
          out ← fall_back client status (fun alg =>
            from_library LMS_MMIO_ERR_INVALID (lmots_chain_compute (Some I_) alg q i start steps (Some value)));
          mret (out, 0)
      end
  | _, _ => fail LMS_MMIO_ERR_INVALID
  end.

Definition lms_mmio_derive_chain (client : ptr) (key : Z) (I_ : option bytes) (q i start steps : Z) (output : ptr)
    : DM (bytes * Z) :=
  match I_ with
  | Some I_ =>
      guard_err ((client =? NULL) || (output =? NULL) || negb (key =? 0) || (UINT16_MAX <? i)
                 || (UINT8_MAX <? start) || (UINT8_MAX <? steps) || (UINT8_MAX <? u32 (start + steps)))
        LMS_MMIO_ERR_INVALID ;;
      prepare_command client LMS_MMIO_CAP_DERIVE_CHAIN ;;
      bus_write client LMS_MMIO_REG_COMMAND LMS_MMIO_CMD_DERIVE_CHAIN ;;
      bus_write client LMS_MMIO_REG_OUTPUT_LENGTH LMS_MMIO_OUTPUT_LEN ;;
      bus_write client LMS_MMIO_REG_ARG_KEY key ;;
      bus_write client LMS_MMIO_REG_ARG_Q q ;;
      bus_write client LMS_MMIO_REG_ARG_I i ;;
      bus_write client LMS_MMIO_REG_ARG_START start ;;
      bus_write client LMS_MMIO_REG_ARG_STEPS steps ;;
      write_bytes client LMS_MMIO_REG_IDENTIFIER B_I I_ LMS_I_LEN ;;
      bus_write client LMS_MMIO_REG_CONTROL LMS_MMIO_CTRL_START ;;
      '(out, command_cycles) ← wait_for_result client B_output output;
      count_derive client command_cycles ;;
      mret (out, command_cycles)
  | None => fail LMS_MMIO_ERR_INVALID
  end.

Definition lms_mmio_derive_randomizer (client : ptr) (key : Z) (I_ : option bytes) (q : Z) (output : ptr)
    : DM (bytes * Z) :=
  match I_ with
  | Some I_ =>
      guard_err ((client =? NULL) || (output =? NULL) || negb (key =? 0)) LMS_MMIO_ERR_INVALID ;;
      prepare_command client LMS_MMIO_CAP_DERIVE_CHAIN ;;
      bus_write client LMS_MMIO_REG_COMMAND LMS_MMIO_CMD_DERIVE_RANDOMIZER ;;
      bus_write client LMS_MMIO_REG_OUTPUT_LENGTH LMS_MMIO_OUTPUT_LEN ;;
      bus_write client LMS_MMIO_REG_ARG_KEY key ;;
      bus_write client LMS_MMIO_REG_ARG_Q q ;;
      write_bytes client LMS_MMIO_REG_IDENTIFIER B_I I_ LMS_I_LEN ;;
      bus_write client LMS_MMIO_REG_CONTROL LMS_MMIO_CTRL_START ;;
      '(out, command_cycles) ← wait_for_result client B_output output;
      count_derive client command_cycles ;;
      mret (out, command_cycles)
  | None => fail LMS_MMIO_ERR_INVALID
  end.

(** ** Keys and the security domain *)

Definition lms_mmio_seed_load_test (client : ptr) (key : Z) (seed : option bytes) : DM unit :=
  match seed with
  | Some seed =>
      guard_err ((client =? NULL) || negb (key =? 0)) LMS_MMIO_ERR_INVALID ;;
      prepare_command client (LMS_MMIO_CAP_DERIVE_CHAIN .| LMS_MMIO_CAP_INSECURE_TEST_MODE) ;;
      bus_write client LMS_MMIO_REG_COMMAND LMS_MMIO_CMD_SEED_LOAD ;;
      bus_write client LMS_MMIO_REG_ARG_KEY key ;;
      write_bytes client LMS_MMIO_REG_SEED B_seed seed LMS_SEED_LEN ;;
      bus_write client LMS_MMIO_REG_CONTROL LMS_MMIO_CTRL_START ;;
      wait_for_result client B_ignored_output local_ptr ;;
      mret tt
  | None => fail LMS_MMIO_ERR_INVALID
  end.

Definition lms_mmio_seed_load_safe (client : ptr) (seed : option bytes) : DM unit :=
  match seed with
  | Some seed =>
      guard_err (client =? NULL) LMS_MMIO_ERR_INVALID ;;
      prepare_command client LMS_MMIO_CAP_WRAP ;;
      bus_write client LMS_MMIO_REG_COMMAND LMS_MMIO_CMD_SEED_WRITE_SAFE ;;
      write_bytes client LMS_MMIO_REG_SEED B_seed seed LMS_SEED_LEN ;;
      bus_write client LMS_MMIO_REG_CONTROL LMS_MMIO_CTRL_START ;;
      wait_for_result client B_ignored_output local_ptr ;;
      mret tt
  | None => fail LMS_MMIO_ERR_INVALID
  end.

Definition lms_mmio_mc_read (client value : ptr) : DM Z :=
  guard_err ((client =? NULL) || (value =? NULL)) LMS_MMIO_ERR_INVALID ;;
  ensure_probe client ;;
  c ← get_client client;
  guard_err ((capabilities c .& LMS_MMIO_CAP_SIM_MC) =? 0) LMS_MMIO_ERR_PROTOCOL ;;
  bus_read client LMS_MMIO_REG_SIM_MC.

(** The new value; the code drops it when [value] is [NULL]. *)
Definition lms_mmio_mc_step (client : ptr) : DM Z :=
  guard_err (client =? NULL) LMS_MMIO_ERR_INVALID ;;
  prepare_command client LMS_MMIO_CAP_SIM_MC ;;
  bus_write client LMS_MMIO_REG_COMMAND LMS_MMIO_CMD_MC_STEP ;;
  bus_write client LMS_MMIO_REG_CONTROL LMS_MMIO_CTRL_START ;;
  '(output, _) ← wait_for_result client B_output local_ptr;
  mret (load_le32 output 0).

Definition lms_mmio_state_commit (client : ptr) (new_state ctr aad : Z) (tx_out tag : ptr) : DM (Z * bytes) :=
  guard_err ((client =? NULL) || (tx_out =? NULL) || (tag =? NULL)) LMS_MMIO_ERR_INVALID ;;
  prepare_command client (LMS_MMIO_CAP_SIM_MC .| LMS_MMIO_CAP_HMAC_KSTATE) ;;
  bus_write client LMS_MMIO_REG_ARG_I new_state ;;
  bus_write client LMS_MMIO_REG_ARG_Q ctr ;;
  bus_write client LMS_MMIO_REG_ARG_KEY aad ;;
  bus_write client LMS_MMIO_REG_COMMAND LMS_MMIO_CMD_STATE_COMMIT ;;
  bus_write client LMS_MMIO_REG_CONTROL LMS_MMIO_CTRL_START ;;
  '(output, _) ← wait_for_result_n client B_output local_ptr 20;
  mret (load_le32 output 0, slice 4 16 output).

Definition lms_mmio_mc_load (client : ptr) (value : Z) : DM unit :=
  guard_err (client =? NULL) LMS_MMIO_ERR_INVALID ;;
  prepare_command client LMS_MMIO_CAP_SIM_MC ;;
  bus_write client LMS_MMIO_REG_COMMAND LMS_MMIO_CMD_MC_LOAD ;;
  bus_write client LMS_MMIO_REG_ARG_Q value ;;
  bus_write client LMS_MMIO_REG_CONTROL LMS_MMIO_CTRL_START ;;
  wait_for_result client B_output local_ptr ;;
  mret tt.

Definition lms_mmio_key_slot_load_test (client : ptr) (key_slot : Z) (key : option bytes) : DM unit :=
  match key with
  | Some key =>
      guard_err ((client =? NULL) || (negb (key_slot =? LMS_MMIO_KEY_KWRAP) && negb (key_slot =? LMS_MMIO_KEY_KSTATE)))
        LMS_MMIO_ERR_INVALID ;;
      let base := LMS_MMIO_REG_KWRAP in
      prepare_command client (LMS_MMIO_CAP_WRAP .| LMS_MMIO_CAP_INSECURE_TEST_MODE) ;;
      bus_write client LMS_MMIO_REG_COMMAND LMS_MMIO_CMD_SEED_LOAD ;;
      bus_write client LMS_MMIO_REG_ARG_KEY key_slot ;;
      write_bytes client base B_key key LMS_SEED_LEN ;;
      bus_write client LMS_MMIO_REG_CONTROL LMS_MMIO_CTRL_START ;;
      wait_for_result client B_ignored_output local_ptr ;;
      mret tt
  | None => fail LMS_MMIO_ERR_INVALID
  end.

Definition lms_mmio_wrap_seed (client wrapped : ptr) : DM bytes :=
  guard_err ((client =? NULL) || (wrapped =? NULL)) LMS_MMIO_ERR_INVALID ;;
  prepare_command client LMS_MMIO_CAP_WRAP ;;
  bus_write client LMS_MMIO_REG_COMMAND LMS_MMIO_CMD_WRAP_SEED ;;
  bus_write client LMS_MMIO_REG_CONTROL LMS_MMIO_CTRL_START ;;
  wait_for_result client B_ignored_output local_ptr ;;
  read_bytes client LMS_MMIO_REG_WRAPPED B_wrapped LMS_MMIO_WRAPPED_LEN.

Definition lms_mmio_unwrap_seed (client : ptr) (wrapped : option bytes) : DM unit :=
  match wrapped with
  | Some wrapped =>
      guard_err (client =? NULL) LMS_MMIO_ERR_INVALID ;;
      prepare_command client LMS_MMIO_CAP_WRAP ;;
      write_bytes client LMS_MMIO_REG_WRAPPED B_wrapped wrapped LMS_MMIO_WRAPPED_LEN ;;
      bus_write client LMS_MMIO_REG_COMMAND LMS_MMIO_CMD_UNWRAP_SEED ;;
      bus_write client LMS_MMIO_REG_CONTROL LMS_MMIO_CTRL_START ;;
      wait_for_result client B_ignored_output local_ptr ;;
      mret tt
  | None => fail LMS_MMIO_ERR_INVALID
  end.

Definition lms_mmio_hmac_kstate (client : ptr) (input : cbuf) (output : ptr) : DM bytes :=
  guard_err ((client =? NULL) || (output =? NULL) || (cbuf_null input && negb (cbuf_len input =? 0))
             || (119 <? cbuf_len input)) LMS_MMIO_ERR_INVALID ;;
  prepare_command client LMS_MMIO_CAP_HMAC_KSTATE ;;
  bus_write client LMS_MMIO_REG_COMMAND LMS_MMIO_CMD_HMAC_KSTATE ;;
  bus_write client LMS_MMIO_REG_INPUT_LENGTH (u32 (cbuf_len input)) ;;
  bus_write client LMS_MMIO_REG_OUTPUT_LENGTH LMS_MMIO_OUTPUT_LEN ;;
  write_bytes client LMS_MMIO_REG_INPUT B_input (cbuf_data input) (cbuf_len input) ;;
  bus_write client LMS_MMIO_REG_CONTROL LMS_MMIO_CTRL_START ;;
  '(out, _) ← wait_for_result client B_output output;
  mret out.

(** ** LM-OTS tasks *)

(** [if (coefficients) nwords = pack_coefficients_words(packed, ..); .. write_task_bytes(..)]: with
    [NULL] the coefficients are in the hardware already. *)
Definition write_coefficients (client : ptr) (coefficients : option bytes) (param : lmots_param_t) : DM unit :=
  match coefficients with
  | Some coefficients =>
      let '(packed, nwords) := pack_coefficients_words coefficients (ots_p_p param) (ots_p_w param) in
      write_task_bytes client 0 B_packed (concat (map store_le32 packed)) (u32 (nwords * 4))
  | None => mret tt
  end.

Definition lms_mmio_lmots_keygen (client : ptr) (key : Z) (I_ : option bytes) (q lmots_type : Z) (output : ptr)
    : DM (bytes * Z) :=
  match I_ with
  | Some I_ =>
      guard_err ((client =? NULL) || (output =? NULL) || negb (key =? 0)) LMS_MMIO_ERR_INVALID ;;
      param ← lmots_param_hw lmots_type;
      prepare_command client LMS_MMIO_CAP_LMOTS_KEYGEN ;;
      bus_write client LMS_MMIO_REG_ARG_W (ots_p_w param) ;;
      bus_write client LMS_MMIO_REG_COMMAND LMS_MMIO_CMD_LMOTS_KEYGEN ;;
      bus_write client LMS_MMIO_REG_OUTPUT_LENGTH LMS_MMIO_OUTPUT_LEN ;;
      bus_write client LMS_MMIO_REG_ARG_KEY key ;;
      bus_write client LMS_MMIO_REG_ARG_Q q ;;
      write_bytes client LMS_MMIO_REG_IDENTIFIER B_I I_ LMS_I_LEN ;;
      bus_write client LMS_MMIO_REG_CONTROL LMS_MMIO_CTRL_START ;;
      '(out, command_cycles) ← wait_for_result client B_output output;
      count_keygen client command_cycles ;;
      mret (out, command_cycles)
  | None => fail LMS_MMIO_ERR_INVALID
  end.

Definition lms_mmio_lmots_keygen_leaf (client : ptr) (key : Z) (I_ : option bytes) (q node_num lmots_type : Z)
    (output : ptr) : DM (bytes * Z) :=
  match I_ with
  | Some I_ =>
      guard_err ((client =? NULL) || (output =? NULL) || negb (key =? 0)) LMS_MMIO_ERR_INVALID ;;
      param ← lmots_param_hw lmots_type;
      prepare_command client LMS_MMIO_CAP_LMOTS_KEYGEN_LEAF ;;
      bus_write client LMS_MMIO_REG_ARG_W (ots_p_w param) ;;
      bus_write client LMS_MMIO_REG_COMMAND LMS_MMIO_CMD_LMOTS_KEYGEN_LEAF ;;
      bus_write client LMS_MMIO_REG_OUTPUT_LENGTH LMS_MMIO_OUTPUT_LEN ;;
      bus_write client LMS_MMIO_REG_ARG_KEY key ;;
      bus_write client LMS_MMIO_REG_ARG_Q q ;;
      bus_write client LMS_MMIO_REG_ARG_LEAF_NODE node_num ;;
      write_bytes client LMS_MMIO_REG_IDENTIFIER B_I I_ LMS_I_LEN ;;
      bus_write client LMS_MMIO_REG_CONTROL LMS_MMIO_CTRL_START ;;
      '(out, command_cycles) ← wait_for_result client B_output output;
      count_keygen client command_cycles ;;
      mret (out, command_cycles)
  | None => fail LMS_MMIO_ERR_INVALID
  end.

Definition lms_mmio_lmots_sign (client : ptr) (key : Z) (I_ : option bytes) (q lmots_type : Z)
    (coefficients : option bytes) (outputs : ptr) : DM (bytes * Z) :=
  match I_ with
  | Some I_ =>
      guard_err ((client =? NULL) || (outputs =? NULL) || negb (key =? 0)) LMS_MMIO_ERR_INVALID ;;
      param ← lmots_param_hw lmots_type;
      let chain_bytes := u32 (ots_p_p param * ots_p_n param) in
      prepare_command client LMS_MMIO_CAP_LMOTS_SIGN ;;
      bus_write client LMS_MMIO_REG_ARG_W (ots_p_w param) ;;
      write_coefficients client coefficients param ;;
      bus_write client LMS_MMIO_REG_COMMAND LMS_MMIO_CMD_LMOTS_SIGN ;;
      bus_write client LMS_MMIO_REG_OUTPUT_LENGTH chain_bytes ;;
      bus_write client LMS_MMIO_REG_ARG_KEY key ;;
      bus_write client LMS_MMIO_REG_ARG_Q q ;;
      write_bytes client LMS_MMIO_REG_IDENTIFIER B_I I_ LMS_I_LEN ;;
      bus_write client LMS_MMIO_REG_CONTROL LMS_MMIO_CTRL_START ;;
      '(_, command_cycles) ← wait_for_result client B_output NULL;
      out ← read_task_bytes client LMS_MMIO_TASK_CHAIN_WORD_BASE B_outputs chain_bytes;
      count_sign client command_cycles ;;
      mret (out, command_cycles)
  | None => fail LMS_MMIO_ERR_INVALID
  end.

(** The signature stays in the task RAM. *)
Definition lms_mmio_lmots_sign_taskram (client : ptr) (key : Z) (I_ : option bytes) (q lmots_type : Z)
    (coefficients : option bytes) : DM Z :=
  match I_ with
  | Some I_ =>
      guard_err ((client =? NULL) || negb (key =? 0)) LMS_MMIO_ERR_INVALID ;;
      param ← lmots_param_hw lmots_type;
      let chain_bytes := u32 (ots_p_p param * ots_p_n param) in
      prepare_command client LMS_MMIO_CAP_LMOTS_SIGN ;;
      bus_write client LMS_MMIO_REG_ARG_W (ots_p_w param) ;;
      write_coefficients client coefficients param ;;
      bus_write client LMS_MMIO_REG_COMMAND LMS_MMIO_CMD_LMOTS_SIGN ;;
      bus_write client LMS_MMIO_REG_OUTPUT_LENGTH chain_bytes ;;
      bus_write client LMS_MMIO_REG_ARG_KEY key ;;
      bus_write client LMS_MMIO_REG_ARG_Q q ;;
      write_bytes client LMS_MMIO_REG_IDENTIFIER B_I I_ LMS_I_LEN ;;
      bus_write client LMS_MMIO_REG_CONTROL LMS_MMIO_CTRL_START ;;
      '(_, command_cycles) ← wait_for_result client B_output NULL;
      count_sign client command_cycles ;;
      mret command_cycles
  | None => fail LMS_MMIO_ERR_INVALID
  end.

Definition lms_mmio_lmots_verify (client : ptr) (I_ : option bytes) (q lmots_type : Z)
    (coefficients inputs : option bytes) (output : ptr) : DM (bytes * Z) :=
  match I_, inputs with
  | Some I_, Some inputs =>
      guard_err ((client =? NULL) || (output =? NULL)) LMS_MMIO_ERR_INVALID ;;
      param ← lmots_param_hw lmots_type;
      let chain_bytes := u32 (ots_p_p param * ots_p_n param) in
      prepare_command client LMS_MMIO_CAP_LMOTS_VERIFY ;;
      bus_write client LMS_MMIO_REG_ARG_W (ots_p_w param) ;;
      write_coefficients client coefficients param ;;
      write_task_bytes client LMS_MMIO_TASK_CHAIN_WORD_BASE B_inputs inputs chain_bytes ;;
      bus_write client LMS_MMIO_REG_COMMAND LMS_MMIO_CMD_LMOTS_VERIFY ;;
      bus_write client LMS_MMIO_REG_OUTPUT_LENGTH LMS_MMIO_OUTPUT_LEN ;;
      bus_write client LMS_MMIO_REG_ARG_Q q ;;
      write_bytes client LMS_MMIO_REG_IDENTIFIER B_I I_ LMS_I_LEN ;;
      bus_write client LMS_MMIO_REG_CONTROL LMS_MMIO_CTRL_START ;;
      '(out, command_cycles) ← wait_for_result client B_output output;
      count_verify client command_cycles ;;
      mret (out, command_cycles)
  | _, _ => fail LMS_MMIO_ERR_INVALID
  end.

(** The chain values are in the task RAM already. *)
Definition lms_mmio_lmots_verify_taskram (client : ptr) (I_ : option bytes) (q lmots_type : Z)
    (coefficients : option bytes) (output : ptr) : DM (bytes * Z) :=
  match I_ with
  | Some I_ =>
      guard_err ((client =? NULL) || (output =? NULL)) LMS_MMIO_ERR_INVALID ;;
      param ← lmots_param_hw lmots_type;
      prepare_command client LMS_MMIO_CAP_LMOTS_VERIFY ;;
      bus_write client LMS_MMIO_REG_ARG_W (ots_p_w param) ;;
      write_coefficients client coefficients param ;;
      bus_write client LMS_MMIO_REG_COMMAND LMS_MMIO_CMD_LMOTS_VERIFY ;;
      bus_write client LMS_MMIO_REG_OUTPUT_LENGTH LMS_MMIO_OUTPUT_LEN ;;
      bus_write client LMS_MMIO_REG_ARG_Q q ;;
      write_bytes client LMS_MMIO_REG_IDENTIFIER B_I I_ LMS_I_LEN ;;
      bus_write client LMS_MMIO_REG_CONTROL LMS_MMIO_CTRL_START ;;
      '(out, command_cycles) ← wait_for_result client B_output output;
      count_verify client command_cycles ;;
      mret (out, command_cycles)
  | None => fail LMS_MMIO_ERR_INVALID
  end.

Definition lms_mmio_lmots_verify_leaf (client : ptr) (I_ : option bytes) (q node_num lmots_type : Z)
    (coefficients inputs : option bytes) (output : ptr) : DM (bytes * Z) :=
  match I_, inputs with
  | Some I_, Some inputs =>
      guard_err ((client =? NULL) || (output =? NULL)) LMS_MMIO_ERR_INVALID ;;
      param ← lmots_param_hw lmots_type;
      let chain_bytes := u32 (ots_p_p param * ots_p_n param) in
      prepare_command client LMS_MMIO_CAP_LMOTS_VERIFY ;;
      bus_write client LMS_MMIO_REG_ARG_W (ots_p_w param) ;;
      write_coefficients client coefficients param ;;
      write_task_bytes client LMS_MMIO_TASK_CHAIN_WORD_BASE B_inputs inputs chain_bytes ;;
      bus_write client LMS_MMIO_REG_COMMAND LMS_MMIO_CMD_LMOTS_VERIFY_LEAF ;;
      bus_write client LMS_MMIO_REG_OUTPUT_LENGTH LMS_MMIO_OUTPUT_LEN ;;
      bus_write client LMS_MMIO_REG_ARG_Q q ;;
      bus_write client LMS_MMIO_REG_ARG_LEAF_NODE node_num ;;
      write_bytes client LMS_MMIO_REG_IDENTIFIER B_I I_ LMS_I_LEN ;;
      bus_write client LMS_MMIO_REG_CONTROL LMS_MMIO_CTRL_START ;;
      '(out, command_cycles) ← wait_for_result client B_output output;
      count_verify client command_cycles ;;
      mret (out, command_cycles)
  | _, _ => fail LMS_MMIO_ERR_INVALID
  end.

Definition lms_mmio_lmots_verify_leaf_taskram (client : ptr) (I_ : option bytes) (q node_num lmots_type : Z)
    (coefficients : option bytes) (output : ptr) : DM (bytes * Z) :=
  match I_ with
  | Some I_ =>
      guard_err ((client =? NULL) || (output =? NULL)) LMS_MMIO_ERR_INVALID ;;
      param ← lmots_param_hw lmots_type;
      prepare_command client LMS_MMIO_CAP_LMOTS_VERIFY ;;
      bus_write client LMS_MMIO_REG_ARG_W (ots_p_w param) ;;
      write_coefficients client coefficients param ;;
      bus_write client LMS_MMIO_REG_COMMAND LMS_MMIO_CMD_LMOTS_VERIFY_LEAF ;;
      bus_write client LMS_MMIO_REG_OUTPUT_LENGTH LMS_MMIO_OUTPUT_LEN ;;
      bus_write client LMS_MMIO_REG_ARG_Q q ;;
      bus_write client LMS_MMIO_REG_ARG_LEAF_NODE node_num ;;
      write_bytes client LMS_MMIO_REG_IDENTIFIER B_I I_ LMS_I_LEN ;;
      bus_write client LMS_MMIO_REG_CONTROL LMS_MMIO_CTRL_START ;;
      '(out, command_cycles) ← wait_for_result client B_output output;
      count_verify client command_cycles ;;
      mret (out, command_cycles)
  | None => fail LMS_MMIO_ERR_INVALID
  end.

(** ** The backends the library calls

    A backend gets no more than the device, so the driver runs on a fresh copy of the
    library's statics: of those it only touches the parameter caches, which are
    transparent, and the chain statistics when it falls back to software, which no
    client that may be registered does. *)

Definition on_statics {A} (m : C A) : backend A :=
  fun d => let '(r, w) := m (initial_world d) in (r, device w).

(** [f(..) == LMS_MMIO_OK ? LMS_OK : LMS_ERR_INVALID] *)
Definition lms_status {A} (m : DM A) : C A :=
  fun w => match m w with
           | (Ok a, w') => (Ok a, w')
           | (Err MMIO_UNDEFINED, w') => (Err UNDEFINED, w')
           | (Err _, w') => (Err LMS_ERR_INVALID, w')
           end.

(** The same for a call that is given no [cycles]. *)
Definition lms_output (m : DM (bytes * Z)) : C bytes :=
  '(out, _) ← lms_status m; mret out.

(** [if (hash_alg != client->hash_desc->hash_alg) return LMS_ERR_INVALID;] *)
Definition check_hash_alg (client : ptr) (hash_alg : lms_hash_alg_t) : C unit :=
  desc ← lms_status (bound_desc client);
  guard_err (negb (bool_decide (hash_alg = desc_hash_alg desc))) LMS_ERR_INVALID.

Definition lmots_mmio_sign : lmots_sign_backend_fn :=
  fun client I_ hash_alg q lmots_type coefficients => on_statics (
    check_hash_alg client hash_alg ;;
    c ← get_client client;
    if negb (coef_ready c =? 0) then
      update_client client (fun c => c {{ coef_ready := 0 }}) ;;
      lms_output (lms_mmio_lmots_sign client (key_handle c) (Some I_) q lmots_type None local_ptr)
    else
      lms_output (lms_mmio_lmots_sign client (key_handle c) (Some I_) q lmots_type (Some coefficients) local_ptr)).

Definition lmots_mmio_verify : lmots_verify_backend_fn :=
  fun client I_ hash_alg q lmots_type coefficients inputs => on_statics (
    check_hash_alg client hash_alg ;;
    c ← get_client client;
    if negb (coef_ready c =? 0) then
      update_client client (fun c => c {{ coef_ready := 0 }}) ;;
      lms_output (lms_mmio_lmots_verify client (Some I_) q lmots_type None (Some inputs) local_ptr)
    else
      lms_output (lms_mmio_lmots_verify client (Some I_) q lmots_type (Some coefficients) (Some inputs) local_ptr)).

Definition lmots_mmio_keygen : lmots_keygen_backend_fn :=
  fun client I_ hash_alg q lmots_type => on_statics (
    check_hash_alg client hash_alg ;;
    c ← get_client client;
    lms_output (lms_mmio_lmots_keygen client (key_handle c) (Some I_) q lmots_type local_ptr)).

Definition lmots_mmio_get_randomizer_c (client : ptr) (I_ : bytes) (q : Z) : C bytes :=
  c ← get_client client;
  if negb (randomizer_c_slot c =? NULL) then
    (fun w => (Ok (bytes_at (randomizer_c_slot c) LMS_N (device w)), w)) : C bytes
  else if negb (trng_fill_c c =? NULL) then
    (fun w => let '((status, out), d) := extern_trng_fill (trng_fill_c c) (trng_context c) (device w) in
              (if status =? 0 then Ok out else Err LMS_ERR_INVALID, w {{ device := d }})) : C bytes
  else
    lms_output (lms_mmio_derive_randomizer client 0 (Some I_) q local_ptr).

Definition lmots_mmio_randomizer : lmots_randomizer_backend_fn :=
  fun client I_ hash_alg q => on_statics (
    check_hash_alg client hash_alg ;;
    lmots_mmio_get_randomizer_c client I_ q).

Definition lmots_mmio_chain : lmots_chain_backend_fn :=
  fun client I_ hash_alg q i start steps value => on_statics (
    check_hash_alg client hash_alg ;;
    lms_output (lms_mmio_chain client (Some I_) q i start steps (Some value))).

Definition lmots_mmio_sign_derive : lmots_derive_chain_backend_fn :=
  fun client I_ hash_alg q i start steps => on_statics (
    check_hash_alg client hash_alg ;;
    lms_output (lms_mmio_derive_chain client 0 (Some I_) q i start steps local_ptr)).

Definition lmots_mmio_sign_randomizer : lmots_randomizer_backend_fn :=
  fun client I_ hash_alg q => on_statics (
    check_hash_alg client hash_alg ;;
    lmots_mmio_get_randomizer_c client I_ q).

(** ** Registering them *)

Definition has_cap (c : lms_mmio_client_t) (cap : Z) : bool := negb ((capabilities c .& cap) =? 0).

Definition set_backend (m : C unit) : DM unit := from_library LMS_MMIO_ERR_INVALID m.

Definition lms_mmio_lmots_keygen_enable (client : ptr) (key : Z) : DM unit :=
  guard_err (client =? NULL) LMS_MMIO_ERR_INVALID ;;
  c ← get_client client;
  guard_err (negb (allow_fallback c =? 0) || negb (key =? 0)) LMS_MMIO_ERR_INVALID ;;
  ensure_probe client ;;
  c ← get_client client;
  guard_err (negb (has_cap c LMS_MMIO_CAP_LMOTS_KEYGEN)) LMS_MMIO_ERR_PROTOCOL ;;
  update_client client (fun c => c {{ key_handle := key }}) ;;
  set_backend (lmots_keygen_backend_set (Some lmots_mmio_keygen) client).

Definition lms_mmio_lmots_sign_enable (client : ptr) (key : Z) : DM unit :=
  guard_err (client =? NULL) LMS_MMIO_ERR_INVALID ;;
  c ← get_client client;
  guard_err (negb (allow_fallback c =? 0) || negb (key =? 0)) LMS_MMIO_ERR_INVALID ;;
  ensure_probe client ;;
  c ← get_client client;
  guard_err (negb ((capabilities c .& (LMS_MMIO_CAP_DERIVE_CHAIN .| LMS_MMIO_CAP_LMOTS_SIGN))
                   =? (LMS_MMIO_CAP_DERIVE_CHAIN .| LMS_MMIO_CAP_LMOTS_SIGN))) LMS_MMIO_ERR_PROTOCOL ;;
  update_client client (fun c => c {{ key_handle := key }}) ;;
  set_backend (lmots_sign_backend_set (Some lmots_mmio_sign) client) ;;
  set_backend (lmots_sign_randomizer_backend_set (Some lmots_mmio_randomizer) client).

Definition lms_mmio_lmots_keygen_enable_insecure (client : ptr) : DM unit :=
  guard_err (client =? NULL) LMS_MMIO_ERR_INVALID ;;
  c ← get_client client;
  guard_err (negb (allow_fallback c =? 0)) LMS_MMIO_ERR_INVALID ;;
  ensure_probe client ;;
  c ← get_client client;
  guard_err (negb (has_cap c LMS_MMIO_CAP_CHAIN)) LMS_MMIO_ERR_PROTOCOL ;;
  set_backend (lmots_keygen_chain_backend_set (Some lmots_mmio_chain) client) ;;
  (if has_cap c LMS_MMIO_CAP_DERIVE_CHAIN
   then set_backend (lmots_keygen_derive_backend_set (Some lmots_mmio_sign_derive) client) else mret tt) ;;
  (if has_cap c LMS_MMIO_CAP_LMOTS_KEYGEN
   then set_backend (lmots_keygen_backend_set (Some lmots_mmio_keygen) client) else mret tt).

Definition lms_mmio_lmots_keygen_disable : C unit :=
  lmots_keygen_chain_backend_set None NULL ;;
  lmots_keygen_derive_backend_set None NULL ;;
  lmots_keygen_backend_set None NULL.

Definition lms_mmio_lmots_verify_enable (client : ptr) : DM unit :=
  guard_err (client =? NULL) LMS_MMIO_ERR_INVALID ;;
  c ← get_client client;
  guard_err (negb (allow_fallback c =? 0)) LMS_MMIO_ERR_INVALID ;;
  ensure_probe client ;;
  c ← get_client client;
  guard_err (negb (has_cap c (LMS_MMIO_CAP_CHAIN .| LMS_MMIO_CAP_LMOTS_VERIFY))) LMS_MMIO_ERR_PROTOCOL ;;
  if has_cap c LMS_MMIO_CAP_LMOTS_VERIFY
  then set_backend (lmots_verify_backend_set (Some lmots_mmio_verify) client)
  else set_backend (lmots_verify_chain_backend_set (Some lmots_mmio_chain) client).

Definition lms_mmio_lmots_verify_disable : C unit :=
  lmots_verify_chain_backend_set None NULL ;;
  lmots_verify_backend_set None NULL.

Definition lms_mmio_lmots_sign_enable_insecure (client : ptr) : DM unit :=
  guard_err (client =? NULL) LMS_MMIO_ERR_INVALID ;;
  c ← get_client client;
  guard_err (negb (allow_fallback c =? 0)) LMS_MMIO_ERR_INVALID ;;
  ensure_probe client ;;
  c ← get_client client;
  guard_err (negb (has_cap c LMS_MMIO_CAP_CHAIN)) LMS_MMIO_ERR_PROTOCOL ;;
  set_backend (lmots_sign_chain_backend_set (Some lmots_mmio_chain) client) ;;
  (if has_cap c LMS_MMIO_CAP_DERIVE_CHAIN
   then set_backend (lmots_sign_derive_backend_set (Some lmots_mmio_sign_derive) client) ;;
        set_backend (lmots_sign_randomizer_backend_set (Some lmots_mmio_sign_randomizer) client)
   else mret tt) ;;
  (if has_cap c LMS_MMIO_CAP_LMOTS_SIGN
   then set_backend (lmots_sign_backend_set (Some lmots_mmio_sign) client) else mret tt).

Definition lms_mmio_lmots_sign_disable : C unit :=
  lmots_sign_chain_backend_set None NULL ;;
  lmots_sign_derive_backend_set None NULL ;;
  lmots_sign_randomizer_backend_set None NULL ;;
  lmots_sign_backend_set None NULL.
End Driver.
