(* ===== verification/Accel.v ===== *)
(** The hash accelerator as its driver sees it: registers, task RAM and the phase of the
    command, what a write does, what a read may return, and what a finished command has
    computed.  It is the interface rtl/ documents, not code of the library: the driver's
    theorems have it as a contract on the bus ([bus_contract]). *)

From S2P Require Import Prelude Types HashApi Params Winternitz Spec MmioRegs Mmio.

Inductive phase_t := Ready | Running | Finished | Faulted.

(** Words by register offset and by address of the task RAM. *)
Record accel := mkAccel {
  reg : Z -> Z;
  ram : Z -> Z;
  phase : phase_t
}.

Definition set (k v : Z) (f : Z -> Z) : Z -> Z := fun x => if x =? k then v else f x.

(** The stream region of the task RAM counts its address on. *)
Definition next_addr (a : accel) : Z -> Z :=
  let addr := reg a LMS_MMIO_REG_TASK_ADDR in
  if LMS_MMIO_TASK_STREAM_BASE <=? addr then set LMS_MMIO_REG_TASK_ADDR (addr + 1) (reg a) else reg a.

(** While a command runs, writes are ignored. *)
Definition accel_write (offset value : Z) (a : accel) : accel :=
  match phase a with
  | Running => a
  | _ =>
      if offset =? LMS_MMIO_REG_CONTROL then
        if value =? LMS_MMIO_CTRL_START then mkAccel (reg a) (ram a) Running
        else if value =? LMS_MMIO_CTRL_CLEAR then mkAccel (reg a) (ram a) Ready
        else a
      else if offset =? LMS_MMIO_REG_TASK_DATA then
        mkAccel (next_addr a) (set (reg a LMS_MMIO_REG_TASK_ADDR) value (ram a)) (phase a)
      else mkAccel (set offset value (reg a)) (ram a) (phase a)
  end.

Definition accel_writes (l : list (Z * Z)) (a : accel) : accel :=
  fold_left (fun a '(offset, value) => accel_write offset value a) l a.

(** The bytes of consecutive words. *)
Definition word_bytes (f : Z -> Z) (base step n : Z) : bytes :=
  concat (map (fun k => store_le32 (f (base + step * k))) (seqZ 0 n)).

Definition reg_bytes (a : accel) (base n : Z) : bytes := word_bytes (reg a) base 4 n.
Definition ram_bytes (a : accel) (base n : Z) : bytes := word_bytes (ram a) base 1 n.

(** Coefficient [i] of width [w] in the packed words at the start of the task RAM. *)
Definition packed_coef (words : Z -> Z) (w i : Z) : Z :=
  (words (i / (32 / w)) .>> (i mod (32 / w) * w)) .& (2 ^ w - 1).

(** ** What a command computes *)

Section Commands.
Context `{Hh : HashApi}.
Variable alg : lms_hash_alg_t.
Variable seed : bytes.

Definition id_of (a : accel) : bytes := reg_bytes a LMS_MMIO_REG_IDENTIFIER 4.
Definition q_of (a : accel) : Z := reg a LMS_MMIO_REG_ARG_Q.
Definition i_of (a : accel) : Z := reg a LMS_MMIO_REG_ARG_I.
Definition start_of (a : accel) : Z := reg a LMS_MMIO_REG_ARG_START.
Definition steps_of (a : accel) : Z := reg a LMS_MMIO_REG_ARG_STEPS.
Definition out_of (a : accel) : bytes := reg_bytes a LMS_MMIO_REG_OUTPUT 8.
Definition coef_of (op : lmots_param_t) (a : accel) : Z -> Z := packed_coef (ram a) (ots_p_w op).
Definition values_of (op : lmots_param_t) (a : accel) : bytes := ram_bytes a LMS_MMIO_TASK_CHAIN_WORD_BASE (ots_p_p op * 8).

(** The command in the registers, with the seed of slot 0. *)
Definition asks (command : Z) (a : accel) : Prop := reg a LMS_MMIO_REG_COMMAND = command.
Definition slot_0 (a : accel) : Prop := reg a LMS_MMIO_REG_ARG_KEY = 0.

(** [op] is a parameter set with the width in the registers (its number of chains follows). *)
Definition task (op : lmots_param_t) (a : accel) : Prop :=
  lmots_params_of (ots_p_type op) = Some op /\ ots_p_w op = reg a LMS_MMIO_REG_ARG_W.

(** [a'] is [a] after its command has finished, on an accelerator for the hash [alg] whose slot
    0 holds [seed].  Commands the backends do not use are left open. *)
Record answers (a a' : accel) : Prop := {
  answer_phase : phase a' = Finished;
  answer_chain : asks LMS_MMIO_CMD_CHAIN a -> chain_segment (i_of a) (start_of a) (steps_of a) ->
    out_of a' = chain_spec alg (id_of a) (q_of a) (i_of a) (start_of a) (steps_of a) (reg_bytes a LMS_MMIO_REG_INPUT 8);
  answer_derive : asks LMS_MMIO_CMD_DERIVE_CHAIN a -> slot_0 a -> chain_segment (i_of a) (start_of a) (steps_of a) ->
    out_of a' = chain_spec alg (id_of a) (q_of a) (i_of a) (start_of a) (steps_of a)
                  (private_value_spec alg (id_of a) seed (q_of a) (i_of a));
  answer_randomizer : asks LMS_MMIO_CMD_DERIVE_RANDOMIZER a -> slot_0 a ->
    out_of a' = randomizer_spec alg (id_of a) seed (q_of a);
  answer_keygen : forall op, asks LMS_MMIO_CMD_LMOTS_KEYGEN a -> slot_0 a -> task op a ->
    out_of a' = ots_pub alg op (id_of a) seed (q_of a);
  answer_sign : forall op, asks LMS_MMIO_CMD_LMOTS_SIGN a -> slot_0 a -> task op a ->
    values_of op a' = ots_sign_values alg op (id_of a) seed (q_of a) (coef_of op a);
  answer_verify : forall op, asks LMS_MMIO_CMD_LMOTS_VERIFY a -> task op a ->
    out_of a' = ots_candidate alg op (id_of a) (q_of a) (coef_of op a) (values_of op a)
}.

(** ** What a read may return

    [version] and [caps] are the identification registers.  How long a command runs and
    whether it fails is open. *)
Variables version caps : Z.

Definition busy (v : Z) : Prop := v .& LMS_MMIO_STATUS_BUSY <> 0.
Definition failed (v : Z) : Prop := v .& LMS_MMIO_STATUS_BUSY = 0 /\ v .& LMS_MMIO_STATUS_ERROR <> 0.
Definition done (v : Z) : Prop :=
  v .& LMS_MMIO_STATUS_BUSY = 0 /\ v .& LMS_MMIO_STATUS_ERROR = 0 /\ v .& LMS_MMIO_STATUS_DONE <> 0.

Definition in_output (offset : Z) : Prop := LMS_MMIO_REG_OUTPUT <= offset < LMS_MMIO_REG_OUTPUT + 32.

Inductive accel_read (a : accel) : Z -> Z -> accel -> Prop :=
| read_version : accel_read a LMS_MMIO_REG_VERSION version a
| read_caps : accel_read a LMS_MMIO_REG_CAPABILITY caps a
| read_ready : phase a = Ready -> accel_read a LMS_MMIO_REG_STATUS 0 a
| read_busy v : phase a = Running -> busy v -> accel_read a LMS_MMIO_REG_STATUS v a
| read_fault v a' : phase a = Running -> failed v -> phase a' = Faulted -> accel_read a LMS_MMIO_REG_STATUS v a'
| read_done v a' : phase a = Running -> done v -> answers a a' -> accel_read a LMS_MMIO_REG_STATUS v a'
| read_finished v : phase a = Finished -> done v -> accel_read a LMS_MMIO_REG_STATUS v a
| read_faulted v : phase a = Faulted -> failed v -> accel_read a LMS_MMIO_REG_STATUS v a
| read_data : accel_read a LMS_MMIO_REG_TASK_DATA (ram a (reg a LMS_MMIO_REG_TASK_ADDR)) (mkAccel (next_addr a) (ram a) (phase a))
| read_output offset : in_output offset -> accel_read a offset (reg a offset) a
| read_other offset v :
    offset <> LMS_MMIO_REG_VERSION -> offset <> LMS_MMIO_REG_CAPABILITY -> offset <> LMS_MMIO_REG_STATUS ->
    offset <> LMS_MMIO_REG_TASK_DATA -> ~ in_output offset -> accel_read a offset v a.
End Commands.

(** ** The contract of the bus

    [acc] is the accelerator behind the bus [b] in a state of the device.  Bus accesses do not
    touch the client structures, and the rest of the device does not touch the accelerator. *)

Record bus_contract `{P : Platform} `{Hh : HashApi} `{Mm : !Mmio} (b : lms_mmio_bus_t) (acc : dev -> accel)
    (alg : lms_hash_alg_t) (seed : bytes) (version caps : Z) : Prop := {
  bus_reads : exists f, read32 b = Some f;
  bus_writes : exists f, write32 b = Some f;
  contract_read : forall offset d,
    let run := match read32 b with
               | Some (Extern f) => extern_read32 f (context b) offset d
               | _ => direct_read32 (context b) offset d
               end in
    accel_read alg seed version caps (acc d) offset (fst run) (acc (snd run)) /\
    forall p, client_at p (snd run) = client_at p d;
  contract_write : forall offset value d,
    let d' := match write32 b with
              | Some (Extern f) => extern_write32 f (context b) offset value d
              | _ => direct_write32 (context b) offset value d
              end in
    acc d' = accel_write offset value (acc d) /\ forall p, client_at p d' = client_at p d;
  contract_client : forall p c d, acc (set_client p c d) = acc d;
  contract_trng : forall f ctx d,
    let '((_, out), d') := extern_trng_fill f ctx d in
    chain_value out /\ acc d' = acc d /\ forall p, client_at p d' = client_at p d;
  contract_bytes : forall p d, chain_value (bytes_at p LMS_N d);
  (** the accelerator computes the hash its identification announces *)
  contract_alg :
    alg = if negb ((caps .& LMS_MMIO_CAP_SHAKE256) =? 0) && (version =? 1) then LMS_HASH_SHAKE256 else LMS_HASH_SHA256
}.

(** * Facts *)

Lemma accel_writes_app l1 l2 a : accel_writes (l1 ++ l2) a = accel_writes l2 (accel_writes l1 a).
Proof. apply fold_left_app. Qed.

(** Writes to registers other than the control and the data port. *)
Definition plain (l : list (Z * Z)) : Prop :=
  Forall (fun ov => ov.1 <> LMS_MMIO_REG_CONTROL /\ ov.1 <> LMS_MMIO_REG_TASK_DATA) l.

Definition regs_after (l : list (Z * Z)) (r : Z -> Z) : Z -> Z := fold_left (fun r '(offset, value) => set offset value r) l r.

Lemma plain_writes l a :
  phase a <> Running -> plain l -> accel_writes l a = mkAccel (regs_after l (reg a)) (ram a) (phase a).
Proof.
  intros Hp Hl. revert a Hp. induction Hl as [| [o v] l [H1 H2] Hl IH]; intros a Hp.
  - destruct a. reflexivity.
  - cbn [accel_writes fold_left regs_after]. cbn [fst] in *.
    replace (accel_write o v a) with (mkAccel (set o v (reg a)) (ram a) (phase a)).
    + apply (IH (mkAccel (set o v (reg a)) (ram a) (phase a))), Hp.
    + unfold accel_write. destruct (Z.eqb_spec o LMS_MMIO_REG_CONTROL); [contradiction |].
      destruct (Z.eqb_spec o LMS_MMIO_REG_TASK_DATA); [contradiction |].
      destruct (phase a); [reflexivity | contradiction | reflexivity..].
Qed.

Lemma regs_after_other l r o : Forall (fun ov => ov.1 <> o) l -> regs_after l r o = r o.
Proof.
  intros Hl. revert r. induction Hl as [| [o' v] l H Hl IH]; intros r; [reflexivity |].
  cbn [regs_after fold_left]. fold (regs_after l). rewrite IH. unfold set. cbn in H.
  destruct (Z.eqb_spec o o'); [congruence | reflexivity].
Qed.

(** The words of [data], written from [base] on. *)
Definition block (base : Z) (data : bytes) (n : nat) : list (Z * Z) :=
  map (fun k => (base + 4 * k, load_le32 data (4 * k))) (seqZ 0 (Z.of_nat n)).

Lemma length_block base data n : length (block base data n) = n.
Proof. unfold block. rewrite length_map, length_seqZ. lia. Qed.

Lemma block_snoc base data n :
  block base data (S n) = block base data n ++ [(base + 4 * Z.of_nat n, load_le32 data (4 * Z.of_nat n))].
Proof.
  unfold block. replace (Z.of_nat (S n)) with (Z.of_nat n + 1) by lia. rewrite seqZ_app, map_app by lia. reflexivity.
Qed.

(** Where a block ends up. *)
Lemma regs_after_block base data n r o :
  regs_after (block base data n) r o
  = if (base <=? o) && (o <? base + 4 * Z.of_nat n) && ((o - base) mod 4 =? 0) then load_le32 data (o - base) else r o.
Proof.
  induction n as [| n IH].
  - cbn [block]. destruct (Z.leb_spec base o), (Z.ltb_spec o (base + 4 * Z.of_nat 0)); try lia; reflexivity.
  - rewrite block_snoc. unfold regs_after. rewrite fold_left_app. fold (regs_after (block base data n) r). cbn [fold_left].
    unfold set at 1. destruct (Z.eqb_spec o (base + 4 * Z.of_nat n)) as [-> | Hne].
    + replace (base + 4 * Z.of_nat n - base) with (4 * Z.of_nat n) by lia. rewrite Z.mul_comm at 5.
      rewrite (Z.mul_comm 4), Z.mod_mul by lia.
      destruct (Z.leb_spec base (base + Z.of_nat n * 4)), (Z.ltb_spec (base + Z.of_nat n * 4) (base + 4 * Z.of_nat (S n))); try lia.
      cbn [andb Z.eqb]. reflexivity.
    + rewrite IH. destruct (Z.leb_spec base o); [| reflexivity]. cbn [andb].
      destruct (Z.ltb_spec o (base + 4 * Z.of_nat n)), (Z.ltb_spec o (base + 4 * Z.of_nat (S n))); try lia; try reflexivity.
      destruct (Z.eqb_spec ((o - base) mod 4) 0); [| reflexivity]. exfalso.
      apply Z.mod_divide in e as [k Hk]; lia.
Qed.

(** A word is its bytes. *)
Lemma load_le32_value data o :
  Forall is_byte data ->
  load_le32 data o = rd data o + 256 * (rd data (o + 1) + 256 * (rd data (o + 2) + 256 * rd data (o + 3))).
Proof.
  intros Hb. pose proof (rd_byte data o Hb) as H0. pose proof (rd_byte data (o + 1) Hb) as H1.
  pose proof (rd_byte data (o + 2) Hb) as H2. unfold load_le32, is_byte in *.
  rewrite (Z.lor_comm (rd data o)), lor_shiftl_add by lia.
  rewrite (Z.lor_comm _ (_ .<< 16)), lor_shiftl_add by lia.
  rewrite (Z.lor_comm _ (_ .<< 24)), lor_shiftl_add by lia. lia.
Qed.

Lemma load_le32_u32 data o : Forall is_byte data -> 0 <= load_le32 data o <= UINT_MAX.
Proof.
  intros Hb. rewrite load_le32_value by exact Hb. pose proof (rd_byte data o Hb). pose proof (rd_byte data (o + 1) Hb).
  pose proof (rd_byte data (o + 2) Hb). pose proof (rd_byte data (o + 3) Hb). unfold is_byte, UINT_MAX in *. lia.
Qed.

Lemma store_load_le32 data o :
  Forall is_byte data -> 0 <= o -> o + 4 <= len data -> store_le32 (load_le32 data o) = slice o 4 data.
Proof.
  intros Hb Ho Hl. pose proof (rd_byte data o Hb) as H0. pose proof (rd_byte data (o + 1) Hb) as H1.
  pose proof (rd_byte data (o + 2) Hb) as H2. pose proof (rd_byte data (o + 3) Hb) as H3. unfold is_byte in *.
  transitivity [rd data o; rd data (o + 1); rd data (o + 2); rd data (o + 3)].
  - unfold store_le32. rewrite load_le32_value, !u8_shiftr, u8_mod by (exact Hb || lia).
    change (2 ^ 8) with 256. change (2 ^ 16) with 65536. change (2 ^ 24) with 16777216.
    repeat (f_equal; [Z.to_euclidean_division_equations; lia |]). f_equal. Z.to_euclidean_division_equations; lia.
  - change (slice o 4 data) with (take 4 (from o data)). rewrite <- map_rd_seqZ by (unfold len in Hl; lia).
    change (Z.of_nat 4) with 4. rewrite !seqZ_cons by lia. cbn [map]. rewrite !Z.add_1_r.
    do 4 f_equal; f_equal; lia.
Qed.

Lemma store_le32_bytes w : Forall is_byte (store_le32 w).
Proof. repeat (apply Forall_cons_2; [apply u8_byte |]). apply Forall_nil_2. Qed.

Lemma words_bytes ws : Forall is_byte (concat (map store_le32 ws)).
Proof. induction ws as [| w ws IH]; [apply Forall_nil_2 |]. cbn [map concat]. apply Forall_byte_app; [apply store_le32_bytes | exact IH]. Qed.

(** Word [k] of an array of words seen as bytes. *)
Lemma load_words ws k :
  (k < length ws)%nat -> 0 <= rd ws (Z.of_nat k) < 2 ^ 32 -> load_le32 (concat (map store_le32 ws)) (4 * Z.of_nat k) = rd ws (Z.of_nat k).
Proof.
  revert k. induction ws as [| w ws IH]; intros k Hk Hr; [cbn in Hk; lia |]. destruct k as [| k].
  - rewrite load_le32_value by apply words_bytes. change (rd (w :: ws) (Z.of_nat 0)) with w in *.
    change (Z.of_nat 0) with 0. change (4 * 0) with 0. cbn [map concat]. unfold store_le32, rd.
    change (Z.to_nat 0) with 0%nat. change (Z.to_nat (0 + 1)) with 1%nat. change (Z.to_nat (0 + 2)) with 2%nat.
    change (Z.to_nat (0 + 3)) with 3%nat. cbn [nth app].
    rewrite !u8_shiftr, u8_mod by lia. change (2 ^ 8) with 256. change (2 ^ 16) with 65536. change (2 ^ 24) with 16777216.
    change (2 ^ 32) with 4294967296 in Hr. Z.to_euclidean_division_equations; lia.
  - assert (Hrd : rd (w :: ws) (Z.of_nat (S k)) = rd ws (Z.of_nat k)) by (unfold rd; rewrite !Nat2Z.id; reflexivity).
    rewrite Hrd in *. rewrite <- (IH k) by (exact Hr || (cbn in Hk; lia)).
    cbn [map concat]. unfold load_le32.
    assert (Hs : forall l, 0 <= l -> rd (store_le32 w ++ concat (map store_le32 ws)) (4 * Z.of_nat (S k) + l)
      = rd (concat (map store_le32 ws)) (4 * Z.of_nat k + l)).
    { intros l Hl. unfold rd. replace (Z.to_nat (4 * Z.of_nat (S k) + l)) with (4 + Z.to_nat (4 * Z.of_nat k + l))%nat by lia. reflexivity. }
    rewrite !Hs by lia. pose proof (Hs 0 ltac:(lia)) as H0. rewrite !Z.add_0_r in H0. rewrite H0. reflexivity.
Qed.

Lemma concat_slices data n i :
  0 <= i -> len data = 4 * (i + Z.of_nat n) ->
  concat (map (fun k => slice (4 * k) 4 data) (seqZ i (Z.of_nat n))) = from (4 * i) data.
Proof.
  revert i. induction n as [| n IH]; intros i Hi Hl.
  - cbn [map concat seqZ]. unfold from. rewrite drop_ge by (unfold len in Hl; lia). reflexivity.
  - rewrite seqZ_cons by lia. cbn [map concat]. replace (Z.pred (Z.of_nat (S n))) with (Z.of_nat n) by lia.
    rewrite IH by lia. unfold slice, from. replace (Z.to_nat (4 * Z.succ i)) with (Z.to_nat (4 * i) + Z.to_nat 4)%nat by lia.
    rewrite <- drop_drop. apply take_drop.
Qed.

(** Words [f] that hold [data] read back as [data]. *)
Lemma word_bytes_data f base step data n :
  Forall is_byte data -> len data = 4 * n -> (forall k, 0 <= k < n -> f (base + step * k) = load_le32 data (4 * k)) ->
  word_bytes f base step n = data.
Proof.
  intros Hb Hl Hf. pose proof (len_nonneg data). unfold word_bytes.
  rewrite (map_ext_in _ (fun k => slice (4 * k) 4 data)).
  2: { intros k Hk. apply list_elem_of_In, elem_of_seqZ in Hk. rewrite Hf by lia. apply store_load_le32; [exact Hb | lia..]. }
  replace n with (Z.of_nat (Z.to_nat n)) by lia. rewrite concat_slices by lia. reflexivity.
Qed.

Lemma reg_bytes_block l r m ph base data n :
  Forall is_byte data -> len data = 4 * n ->
  reg_bytes (mkAccel (regs_after (block base data (Z.to_nat n)) (regs_after l r)) m ph) base n = data.
Proof.
  intros Hb Hl. pose proof (len_nonneg data). apply word_bytes_data; [exact Hb | exact Hl |]. intros k Hk. cbn [reg].
  rewrite regs_after_block. replace (base + 4 * k - base) with (k * 4) by lia. rewrite Z.mod_mul by lia.
  destruct (Z.leb_spec base (base + 4 * k)), (Z.ltb_spec (base + 4 * k) (base + 4 * Z.of_nat (Z.to_nat n))); try lia.
  cbn [andb Z.eqb]. f_equal. lia.
Qed.

(** ** The task RAM *)

(** Words sent to the data port, from the address [LMS_MMIO_REG_TASK_ADDR] on. *)
Definition stream (data : bytes) (n : nat) : list (Z * Z) :=
  map (fun k => (LMS_MMIO_REG_TASK_DATA, load_le32 data (4 * k))) (seqZ 0 (Z.of_nat n)).

Lemma stream_snoc data n : stream data (S n) = stream data n ++ [(LMS_MMIO_REG_TASK_DATA, load_le32 data (4 * Z.of_nat n))].
Proof. unfold stream. replace (Z.of_nat (S n)) with (Z.of_nat n + 1) by lia. rewrite seqZ_app, map_app by lia. reflexivity. Qed.

(** [a'] differs from [a] in the address and in the words [lo, lo + n) of the task RAM, which hold [f]. *)
Record loaded (lo n : Z) (f : Z -> Z) (a a' : accel) : Prop := {
  loaded_phase : phase a' = phase a;
  loaded_reg : forall o, o <> LMS_MMIO_REG_TASK_ADDR -> reg a' o = reg a o;
  loaded_ram : forall k, ram a' k = if (lo <=? k) && (k <? lo + n) then f (k - lo) else ram a k
}.

Lemma write_data a v :
  phase a <> Running ->
  accel_write LMS_MMIO_REG_TASK_DATA v a = mkAccel (next_addr a) (set (reg a LMS_MMIO_REG_TASK_ADDR) v (ram a)) (phase a).
Proof. intros Hp. unfold accel_write. destruct (phase a); try contradiction; reflexivity. Qed.

Lemma write_addr a v :
  phase a <> Running ->
  accel_write LMS_MMIO_REG_TASK_ADDR v a = mkAccel (set LMS_MMIO_REG_TASK_ADDR v (reg a)) (ram a) (phase a).
Proof. intros Hp. unfold accel_write. destruct (phase a); try contradiction; reflexivity. Qed.

Lemma next_addr_other a o : o <> LMS_MMIO_REG_TASK_ADDR -> next_addr a o = reg a o.
Proof.
  intros Ho. unfold next_addr. destruct (_ <=? _); [| reflexivity]. unfold set.
  destruct (Z.eqb_spec o LMS_MMIO_REG_TASK_ADDR); [contradiction | reflexivity].
Qed.

Lemma next_addr_addr a :
  LMS_MMIO_TASK_STREAM_BASE <= reg a LMS_MMIO_REG_TASK_ADDR ->
  next_addr a LMS_MMIO_REG_TASK_ADDR = reg a LMS_MMIO_REG_TASK_ADDR + 1.
Proof. intros Ha. unfold next_addr. destruct (Z.leb_spec LMS_MMIO_TASK_STREAM_BASE (reg a LMS_MMIO_REG_TASK_ADDR)); [reflexivity | lia]. Qed.

(** The stream region counts on. *)
Lemma stream_loaded data n lo a :
  phase a <> Running -> LMS_MMIO_TASK_STREAM_BASE <= lo ->
  let a0 := accel_write LMS_MMIO_REG_TASK_ADDR lo a in
  let a' := accel_writes (stream data n) a0 in
  loaded lo (Z.of_nat n) (fun k => load_le32 data (4 * k)) a a' /\ reg a' LMS_MMIO_REG_TASK_ADDR = lo + Z.of_nat n.
Proof.
  intros Hp Hlo. cbv zeta. rewrite write_addr by exact Hp. set (a0 := mkAccel _ _ _).
  induction n as [| n [[I1 I2 I3] I4]].
  - change (accel_writes (stream data 0) a0) with a0. split; [split; cbn |].
    + reflexivity.
    + intros o Ho. unfold set. destruct (Z.eqb_spec o LMS_MMIO_REG_TASK_ADDR); [contradiction | reflexivity].
    + intros k. destruct (Z.leb_spec lo k), (Z.ltb_spec k (lo + Z.of_nat 0)); try lia; reflexivity.
    + cbn. lia.
  - rewrite stream_snoc, accel_writes_app. set (b := accel_writes (stream data n) a0) in *.
    cbn [accel_writes fold_left]. rewrite write_data by (rewrite I1; exact Hp). split; [split; cbn [phase reg ram] |]; cbn [reg].
    + exact I1.
    + intros o Ho. rewrite next_addr_other by exact Ho. apply I2, Ho.
    + intros k. unfold set. rewrite I4, I3. destruct (Z.eqb_spec k (lo + Z.of_nat n)) as [-> | Hk].
      * destruct (Z.leb_spec lo (lo + Z.of_nat n)), (Z.ltb_spec (lo + Z.of_nat n) (lo + Z.of_nat (S n))); try lia.
        cbn [andb]. f_equal. lia.
      * destruct (Z.leb_spec lo k), (Z.ltb_spec k (lo + Z.of_nat n)), (Z.ltb_spec k (lo + Z.of_nat (S n))); try lia; reflexivity.
    + rewrite next_addr_addr by lia. lia.
Qed.

(** The coefficient region is addressed word by word. *)
Definition addressed (data : bytes) (n : nat) : list (Z * Z) :=
  concat (map (fun k => [(LMS_MMIO_REG_TASK_ADDR, k); (LMS_MMIO_REG_TASK_DATA, load_le32 data (4 * k))]) (seqZ 0 (Z.of_nat n))).

Lemma addressed_snoc data n : addressed data (S n) = addressed data n
  ++ [(LMS_MMIO_REG_TASK_ADDR, Z.of_nat n); (LMS_MMIO_REG_TASK_DATA, load_le32 data (4 * Z.of_nat n))].
Proof.
  unfold addressed. replace (Z.of_nat (S n)) with (Z.of_nat n + 1) by lia. rewrite seqZ_app, map_app, concat_app by lia.
  reflexivity.
Qed.

Lemma addressed_loaded data n a :
  phase a <> Running -> loaded 0 (Z.of_nat n) (fun k => load_le32 data (4 * k)) a (accel_writes (addressed data n) a).
Proof.
  intros Hp. induction n as [| n [I1 I2 I3]].
  - split; [reflexivity..|]. intros k. destruct (Z.leb_spec 0 k), (Z.ltb_spec k (0 + Z.of_nat 0)); try lia; reflexivity.
  - rewrite addressed_snoc, accel_writes_app. set (b := accel_writes (addressed data n) a) in *.
    cbn [accel_writes fold_left]. rewrite write_addr, write_data by (cbn; rewrite I1; exact Hp).
    cbn [phase reg ram]. split; cbn [phase reg ram].
    + exact I1.
    + intros o Ho. rewrite next_addr_other by exact Ho. cbn [reg]. unfold set.
      destruct (Z.eqb_spec o LMS_MMIO_REG_TASK_ADDR); [contradiction | apply I2, Ho].
    + intros k. change (set LMS_MMIO_REG_TASK_ADDR (Z.of_nat n) (reg b) LMS_MMIO_REG_TASK_ADDR) with (Z.of_nat n).
      unfold set. rewrite I3. destruct (Z.eqb_spec k (Z.of_nat n)) as [-> | Hk].
      * destruct (Z.leb_spec 0 (Z.of_nat n)), (Z.ltb_spec (Z.of_nat n) (0 + Z.of_nat (S n))); try lia. cbn [andb]. f_equal. lia.
      * destruct (Z.leb_spec 0 k), (Z.ltb_spec k (0 + Z.of_nat n)), (Z.ltb_spec k (0 + Z.of_nat (S n))); try lia; reflexivity.
Qed.
