(* ===== verification/MmioPack.v ===== *)
(** The packed coefficients of src/lms_mmio.c: [pack_coefficients_words] lays the digits out as
    the accelerator reads them, and [lms_mmio_msg_q_coef] takes them out again. *)

From S2P Require Import Prelude Types Params Winternitz Mmio Accel.

Section Pack.
Variable w : Z.
Hypothesis Hw : w = 1 \/ w = 2 \/ w = 4 \/ w = 8.
Abbreviation per := (32 / w).

Lemma per_w : per * w = 32 /\ 4 <= per <= 32 /\ 1 <= w <= 8.
Proof. destruct Hw as [-> | [-> | [-> | ->]]]; vm_compute; intuition congruence. Qed.

Lemma mask_w : (if w =? 8 then 0xff else u32 (1 .<< w) - 1) = 2 ^ w - 1.
Proof. destruct Hw as [-> | [-> | [-> | ->]]]; reflexivity. Qed.

Lemma land_mask x : x .& (2 ^ w - 1) = x mod 2 ^ w.
Proof. destruct per_w as (_ & _ & Hr). rewrite Z.sub_1_r, <- Z.ones_equiv. apply Z.land_ones. lia. Qed.

(** The position of digit [t]: its word, and the place in the word. *)
Lemma position t : 0 <= t -> t = per * (t / per) + t mod per /\ 0 <= t mod per < per /\ 0 <= t / per.
Proof.
  destruct per_w as (_ & Hp & _). intros Ht. split; [apply Z_div_mod_eq_full |].
  split; [apply Z.mod_pos_bound; lia | apply Z.div_pos; lia].
Qed.

Lemma position_next t : 0 <= t ->
  (t mod per + 1 < per -> (t + 1) / per = t / per /\ (t + 1) mod per = t mod per + 1) /\
  (t mod per + 1 = per -> (t + 1) / per = t / per + 1 /\ (t + 1) mod per = 0).
Proof.
  destruct per_w as (_ & Hp & _). intros Ht. destruct (position t Ht) as (E & Hm & Hd). split; intros Hn.
  - split; symmetry; [apply (Z.div_unique_pos _ _ _ (t mod per + 1)) | apply (Z.mod_unique_pos _ _ (t / per))]; lia.
  - split; symmetry; [apply (Z.div_unique_pos _ _ _ 0) | apply (Z.mod_unique_pos _ _ (t / per + 1))]; lia.
Qed.

(** A digit above the ones a word already has. *)
Lemma word_add old sh c s :
  0 <= s -> s + w <= sh -> 0 <= old ->
  ((old + c * 2 ^ sh) .>> s) .& (2 ^ w - 1) = (old .>> s) .& (2 ^ w - 1).
Proof.
  destruct per_w as (_ & _ & Hr). intros Hs Hsh Ho. rewrite !land_mask, !Z.shiftr_div_pow2 by lia.
  replace sh with (s + (w + (sh - s - w))) by lia. rewrite Z.pow_add_r by lia.
  rewrite (Z.mul_comm (2 ^ s)), Z.mul_assoc, Z.div_add by (apply Z.pow_nonzero; lia).
  rewrite Z.pow_add_r, (Z.mul_comm (2 ^ w)), Z.mul_assoc, Z.mod_add by (try apply Z.pow_nonzero; lia). reflexivity.
Qed.

Lemma word_top old sh c :
  0 <= sh -> 0 <= old < 2 ^ sh -> 0 <= c < 2 ^ w -> ((old + c * 2 ^ sh) .>> sh) .& (2 ^ w - 1) = c.
Proof.
  intros Hs Ho Hcw. rewrite land_mask, Z.shiftr_div_pow2, Z.div_add by (try apply Z.pow_nonzero; lia).
  rewrite (Z.div_small old) by exact Ho. apply Z.mod_small. lia.
Qed.

Variable coefficients : bytes.
Abbreviation c := (fun i => rd coefficients i .& (2 ^ w - 1)).

Lemma c_range i : 0 <= c i < 2 ^ w.
Proof. destruct per_w as (_ & _ & Hr). cbv beta. rewrite land_mask. apply Z.mod_pos_bound, Z.pow_pos_nonneg; lia. Qed.

(** The state of the packing loop before digit [i]. *)
Record packing (i : Z) (st : list Z * Z * Z) : Prop := {
  packing_len : length st.1.1 = 32%nat;
  packing_idx : st.1.2 = i / per;
  packing_shift : st.2 = i mod per * w;
  packing_u32 : forall j, 0 <= rd st.1.1 j < 2 ^ 32;
  packing_top : forall j, i / per <= j -> rd st.1.1 j < 2 ^ (if j =? i / per then i mod per * w else 0);
  packing_digits : forall t, 0 <= t < i -> packed_coef (rd st.1.1) w t = c t
}.

Lemma rd_zeros j n : rd (fill 0 n) j = 0.
Proof. unfold rd, fill. rewrite nth_lookup. destruct (_ !! _) eqn:E; [apply lookup_replicate in E as [-> _] |]; reflexivity. Qed.

Lemma packing_start : packing 0 (fill 0 32, 0, 0).
Proof.
  destruct per_w as (_ & Hp & _). split; cbn [fst snd].
  - reflexivity.
  - symmetry. apply Z.div_small. lia.
  - rewrite Z.mod_0_l by lia. reflexivity.
  - intros j. rewrite rd_zeros. lia.
  - intros j _. rewrite rd_zeros. apply Z.pow_pos_nonneg; [lia |]. rewrite Z.mod_0_l by lia. destruct (_ =? _); lia.
  - intros t Ht. lia.
Qed.

Definition pack_step (i : Z) (st : list Z * Z * Z) : list Z * Z * Z :=
  let '(words, w_idx, w_shift) := st in
  let words := upd w_idx (u32 (rd words w_idx .| ((rd coefficients i .& (2 ^ w - 1)) .<< w_shift))) words in
  let w_shift := w_shift + w in
  if 32 <=? w_shift then (words, w_idx + 1, w_shift - 32) else (words, w_idx, w_shift).

Lemma packing_step i st : 0 <= i < 32 * per -> packing i st -> packing (i + 1) (pack_step i st).
Proof.
  intros Hi [P1 P2 P3 P4 P5 P6]. destruct st as [[words w_idx] w_shift]. cbn [fst snd] in *. subst w_idx w_shift.
  destruct per_w as (Hpw & Hp & Hr). destruct (position i ltac:(lia)) as (E & Hm & Hd).
  destruct (position_next i ltac:(lia)) as [N1 N2]. pose proof (c_range i) as Hci. cbv beta in Hci.
  assert (Hj : i / per < 32) by (apply Z.div_lt_upper_bound; lia).
  set (sh := i mod per * w) in *. assert (Hsh : 0 <= sh /\ sh + w <= 32) by (unfold sh; nia).
  pose proof (P5 (i / per) ltac:(lia)) as Htop. rewrite Z.eqb_refl in Htop. pose proof (P4 (i / per)) as Hpos.
  set (old := rd words (i / per)) in *. set (d := rd coefficients i .& (2 ^ w - 1)) in *.
  assert (Hnew : u32 (old .| (d .<< sh)) = old + d * 2 ^ sh /\ old + d * 2 ^ sh < 2 ^ (sh + w)).
  { assert (Hlt : old + d * 2 ^ sh < 2 ^ (sh + w)).
    { rewrite Z.pow_add_r by lia. pose proof (Z.pow_pos_nonneg 2 sh ltac:(lia) ltac:(lia)). nia. }
    split; [| exact Hlt]. rewrite Z.lor_comm, lor_shiftl_add by lia.
    pose proof (Z.pow_le_mono_r 2 (sh + w) 32 ltac:(lia) ltac:(lia)). pose proof (Z.pow_pos_nonneg 2 sh ltac:(lia) ltac:(lia)).
    rewrite u32_small by nia. lia. }
  destruct Hnew as [Hnew Hlt]. set (words' := upd (i / per) (u32 (old .| (d .<< sh))) words).
  assert (Hrd : forall j, 0 <= j -> rd words' j = if j =? i / per then old + d * 2 ^ sh else rd words j).
  { intros j Hj0. unfold words'. rewrite rd_upd, Hnew by lia. reflexivity. }
  pose proof (Z.pow_pos_nonneg 2 sh ltac:(lia) ltac:(lia)) as Hps.
  pose proof (Z.pow_le_mono_r 2 (sh + w) 32 ltac:(lia) ltac:(lia)) as Hp32.
  assert (Hgen : forall idx shift, idx = (i + 1) / per -> shift = (i + 1) mod per * w -> packing (i + 1) (words', idx, shift)).
  { intros idx shift Hidx Hshift. split; cbn [fst snd].
    - unfold words', upd. rewrite length_insert. exact P1.
    - exact Hidx.
    - exact Hshift.
    - intros j. destruct (Z.leb_spec 0 j); [rewrite Hrd by lia; destruct (j =? i / per); [split; nia | apply P4] |].
      unfold rd. replace (Z.to_nat j) with (Z.to_nat 0) by lia. change (0 <= rd words' 0 < 2 ^ 32). rewrite Hrd by lia.
      destruct (0 =? i / per); [split; nia | apply P4].
    - intros j Hjn. assert (Hij : i / per <= j) by (destruct (Z.eq_dec (i mod per + 1) per); [destruct (N2 ltac:(lia)) | destruct (N1 ltac:(lia))]; lia).
      rewrite Hrd by lia. destruct (Z.eqb_spec j (i / per)) as [-> | Hne].
      + destruct (N1 ltac:(destruct (Z.eq_dec (i mod per + 1) per); [destruct (N2 ltac:(lia)) |]; lia)) as [-> ->].
        rewrite Z.eqb_refl. replace ((i mod per + 1) * w) with (sh + w) by (unfold sh; lia). exact Hlt.
      + pose proof (P5 j Hij) as H. destruct (Z.eqb_spec j (i / per)); [contradiction |].
        eapply Z.lt_le_trans; [exact H |]. apply Z.pow_le_mono_r; [lia |].
        destruct (j =? _); [| lia]. apply Z.mul_nonneg_nonneg; [apply Z.mod_pos_bound; lia | lia].
    - intros t Ht. unfold packed_coef. destruct (position t ltac:(lia)) as (Et & Hmt & Hdt). rewrite Hrd by exact Hdt.
      destruct (Z.eq_dec t i) as [-> | Hne].
      + rewrite Z.eqb_refl. fold sh. apply word_top; lia.
      + rewrite <- P6 by lia. unfold packed_coef. destruct (Z.eqb_spec (t / per) (i / per)) as [Ei | _]; [| reflexivity].
        rewrite Ei. fold old. apply word_add; [nia | unfold sh; nia | lia]. }
  unfold pack_step. fold old d words'. destruct (Z.leb_spec 32 (sh + w)) as [H32 | H32]; apply Hgen.
  - destruct (N2 ltac:(unfold sh in H32; nia)) as [-> _]. reflexivity.
  - destruct (N2 ltac:(unfold sh in H32; nia)) as [_ ->]. unfold sh in *. nia.
  - destruct (N1 ltac:(unfold sh in H32; nia)) as [-> _]. reflexivity.
  - destruct (N1 ltac:(unfold sh in H32; nia)) as [_ ->]. unfold sh. lia.
Qed.

(** The words hold the digits where the accelerator looks for them. *)
Lemma pack_ok p : 0 <= p <= 32 * per ->
  let '(words, n) := pack_coefficients_words coefficients p w in
  length words = 32%nat /\ (forall j, 0 <= rd words j < 2 ^ 32) /\ n = u32 (p + per - 1) / per /\
  forall t, 0 <= t < p -> packed_coef (rd words) w t = c t.
Proof.
  intros Hp. unfold pack_coefficients_words. rewrite mask_w.
  change (fun i '(words, w_idx, w_shift) => _) with pack_step.
  pose proof (for_z_inv pack_step packing (Z.to_nat p) 0 (fill 0 32, 0, 0) packing_start) as H.
  rewrite Z2Nat.id in H by lia. specialize (H (fun s t Hs => packing_step s t ltac:(lia))).
  destruct (for_z _ _ _ _) as [[words idx] shift]. destruct H as [H1 _ _ H2 _ H3]. cbn [fst snd] in *. auto.
Qed.
End Pack.
