(* ===== verification/MmioCorrect.v ===== *)
(** The driver of src/lms_mmio.c on an accelerator that keeps its contract (Accel.v): what the
    transfer functions put into and take out of the registers and the task RAM, the polling
    loop, and for each command the driver issues, the value it returns. *)

From S2P Require Import Prelude Types HashApi Params Winternitz Spec LmOts LmOtsCorrect MmioRegs Mmio Accel MmioPack.

(** * Words and lanes *)

Lemma lanes_full data o length :
  Forall is_byte data -> o + 4 <= length -> pack_lanes data o length = load_le32 data o.
Proof.
  intros Hb Hl. unfold pack_lanes. cbn [for_z]. 
  destruct (Z.ltb_spec (o + 0) length), (Z.ltb_spec (o + (0 + 1)) length), (Z.ltb_spec (o + (0 + 1 + 1)) length),
    (Z.ltb_spec (o + (0 + 1 + 1 + 1)) length); try lia.
  pose proof (rd_byte data o Hb) as B0. pose proof (rd_byte data (o + 1) Hb) as B1.
  pose proof (rd_byte data (o + 2) Hb) as B2. pose proof (rd_byte data (o + 3) Hb) as B3. unfold is_byte in *.
  change (8 * 0) with 0. change (8 * (0 + 1)) with 8. change (8 * (0 + 1 + 1)) with 16. change (8 * (0 + 1 + 1 + 1)) with 24.
  change (0 + 1 + 1 + 1) with 3. change (0 + 1 + 1) with 2. change (0 + 1) with 1.
  rewrite Z.add_0_r, Z.shiftl_0_r, Z.lor_0_l. unfold load_le32.
  rewrite !u32_small; [reflexivity | rewrite ?Z.shiftl_mul_pow2 by lia; lia..].
Qed.

Lemma unlanes_full word o length : o + 4 <= length -> unpack_lanes word o length = store_le32 word.
Proof.
  intros Hl. unfold unpack_lanes. cbn [for_z].
  destruct (Z.ltb_spec (o + 0) length), (Z.ltb_spec (o + (0 + 1)) length), (Z.ltb_spec (o + (0 + 1 + 1)) length),
    (Z.ltb_spec (o + (0 + 1 + 1 + 1)) length); try lia. cbn [app]. rewrite Z.shiftr_0_r. reflexivity.
Qed.

Lemma words_in_full n : 0 <= n -> words_in (4 * n) = Z.to_nat n.
Proof. intros Hn. unfold words_in. f_equal. rewrite Z.mul_comm, Z.div_add_l by lia. change (3 / 4) with 0. lia. Qed.

Lemma shiftr_full n : (4 * n) .>> 2 = n.
Proof. rewrite Z.shiftr_div_pow2 by lia. change (2 ^ 2) with 4. rewrite Z.mul_comm, Z.div_mul by lia. reflexivity. Qed.

(** * What a read of a register says *)

Section Reads.
Context `{Hh : HashApi}.
Variable alg : lms_hash_alg_t.
Variable seed : bytes.
Variables version caps : Z.
Abbreviation reads := (accel_read alg seed version caps).

Ltac off_register := match goal with
  | H : in_output _ |- _ => exfalso; unfold in_output in H; vm_compute in H; intuition congruence
  | H : ?x <> ?x |- _ => exfalso; exact (H eq_refl)
  end.

Lemma read_version_inv a v a' : reads a LMS_MMIO_REG_VERSION v a' -> v = version /\ a' = a.
Proof. intros H. inversion H; subst; auto; off_register. Qed.

Lemma read_caps_inv a v a' : reads a LMS_MMIO_REG_CAPABILITY v a' -> v = caps /\ a' = a.
Proof. intros H. inversion H; subst; auto; off_register. Qed.

Lemma read_data_inv a v a' : reads a LMS_MMIO_REG_TASK_DATA v a' ->
  v = ram a (reg a LMS_MMIO_REG_TASK_ADDR) /\ a' = mkAccel (next_addr a) (ram a) (phase a).
Proof. intros H. inversion H; subst; auto; off_register. Qed.

Lemma read_output_inv a o v a' : in_output o -> reads a o v a' -> v = reg a o /\ a' = a.
Proof.
  intros Ho H. inversion H; subst; auto; try (exfalso; unfold in_output in Ho; vm_compute in Ho; intuition congruence).
  contradiction.
Qed.

Lemma read_status_inv a v a' : reads a LMS_MMIO_REG_STATUS v a' ->
  match phase a with
  | Ready => v = 0 /\ a' = a
  | Running => busy v /\ a' = a \/ failed v /\ phase a' = Faulted \/ done v /\ answers alg seed a a'
  | Finished => done v /\ a' = a
  | Faulted => failed v /\ a' = a
  end.
Proof.
  intros H. inversion H; subst; try off_register;
    repeat match goal with E : phase _ = _ |- _ => rewrite E; clear E end; auto.
Qed.

Lemma read_cycles_inv a v a' : reads a LMS_MMIO_REG_CYCLE_COUNT v a' -> a' = a.
Proof. intros H. inversion H; subst; auto; off_register. Qed.
End Reads.

(** * Triples on the accelerator *)

Section DriverTriples.
Context `{P : Platform} `{Hh : HashApi} `{Mm : !Mmio}.
Variable b : lms_mmio_bus_t.
Variable acc : dev -> accel.
Variable alg : lms_hash_alg_t.
Variable seed : bytes.
Variables version caps : Z.
Hypothesis Hc : bus_contract b acc alg seed version caps.
Variable p : ptr.
(** What the steps in view keep true of the client structure. *)
Variable J : lms_mmio_client_t -> Prop.
Hypothesis HJ : forall c, J c -> bus c = b.

Definition ready (w : world) : Prop := caches_ok w /\ J (client_at p (device w)).

Lemma ready_device w d : ready w -> J (client_at p d) -> ready (w {{ device := d }}).
Proof. intros [[H1 H2] _] Hd. destruct w. split; [split; assumption | exact Hd]. Qed.

(** [drives a m Q]: with the accelerator at [a], [m] returns a value of [Q] and the accelerator's new
    state, or fails, but not with undefined behaviour. *)
Definition drives {A} (a : accel) (m : DM A) (Q : A -> accel -> Prop) : Prop :=
  forall w, ready w -> acc (device w) = a ->
    wp m (fun x w' => Q x (acc (device w')) /\ ready w') (fun e w' => e <> MMIO_UNDEFINED /\ ready w') w.

Lemma drives_ret {A} a (x : A) (Q : A -> accel -> Prop) : Q x a -> drives a (mret x) Q.
Proof. intros HQ w Hw <-. split; assumption. Qed.

Lemma drives_fail {A} a e (Q : A -> accel -> Prop) : e <> MMIO_UNDEFINED -> drives a (fail e) Q.
Proof. intros He w Hw <-. split; assumption. Qed.

Lemma drives_bind {A B} a (m : DM A) (f : A -> DM B) Q R :
  drives a m Q -> (forall x a', Q x a' -> drives a' (f x) R) -> drives a (m ≫= f) R.
Proof.
  intros Hm Hf w Hw Ha. apply wp_bind. eapply wp_conseq; [apply (Hm w Hw Ha) | | auto].
  intros x w' [HQ Hw']. exact (Hf x _ HQ w' Hw' eq_refl).
Qed.

Lemma drives_post {A} a (m : DM A) (Q R : A -> accel -> Prop) :
  drives a m Q -> (forall x a', Q x a' -> R x a') -> drives a m R.
Proof.
  intros Hm HQ w Hw Ha. eapply wp_conseq; [apply (Hm w Hw Ha) | | auto]. intros x w' [H1 H2]. auto.
Qed.

Lemma drives_guard a c e : e <> MMIO_UNDEFINED -> drives a (guard_err c e) (fun _ a' => a' = a /\ c = false).
Proof. intros He. destruct c; [apply drives_fail, He | apply drives_ret; auto]. Qed.

Lemma drives_loop {A} n i (body : Z -> A -> DM A) (Q : Z -> A -> accel -> Prop) x a :
  Q i x a ->
  (forall k x a, i <= k < i + Z.of_nat n -> Q k x a -> drives a (body k x) (Q (k + 1))) ->
  drives a (loopM n i body x) (Q (i + Z.of_nat n)).
Proof.
  revert i x a. induction n as [| n IH]; intros i x a H0 Hb.
  - apply drives_ret. replace (i + Z.of_nat 0) with i by lia. exact H0.
  - cbn [loopM]. eapply drives_bind; [apply Hb; [lia | exact H0] |].
    intros x' a' HQ. replace (i + Z.of_nat (S n)) with (i + 1 + Z.of_nat n) by lia.
    apply IH; [exact HQ |]. intros k y a'' Hk. apply Hb. lia.
Qed.

(** ** The client *)

Lemma drives_client a : drives a (get_client p) (fun c a' => J c /\ a' = a).
Proof. intros w Hw <-. split; [split; [apply Hw | reflexivity] | exact Hw]. Qed.

Lemma drives_update a f : (forall c, J c -> J (f c)) -> drives a (update_client p f) (fun _ a' => a' = a).
Proof.
  intros Hf w Hw <-. split; [apply (contract_client _ _ _ _ _ _ Hc) |].
  apply ready_device; [exact Hw |]. rewrite client_set. apply Hf, Hw.
Qed.

(** ** The bus *)

Lemma drives_read a o : drives a (bus_read p o) (fun v a' => accel_read alg seed version caps a o v a').
Proof.
  intros w Hw <-. unfold bus_read, mbind, M_bind, get_client, wp. rewrite (HJ _ (proj2 Hw)).
  destruct (bus_reads _ _ _ _ _ _ Hc) as [f Ef]. pose proof (contract_read _ _ _ _ _ _ Hc o (device w)) as H.
  rewrite Ef in *. unfold ready in *.
  destruct f; destruct H as [H1 H2]; (split; [exact H1 |]; apply ready_device; [exact Hw |]; rewrite H2; apply Hw).
Qed.

Lemma drives_write a o v : drives a (bus_write p o v) (fun _ a' => a' = accel_write o v a).
Proof.
  intros w Hw <-. unfold bus_write, mbind, M_bind, get_client, wp. rewrite (HJ _ (proj2 Hw)).
  destruct (bus_writes _ _ _ _ _ _ Hc) as [f Ef]. pose proof (contract_write _ _ _ _ _ _ Hc o v (device w)) as H.
  rewrite Ef in *. unfold ready in *.
  destruct f; destruct H as [H1 H2]; (split; [exact H1 |]; apply ready_device; [exact Hw |]; rewrite H2; apply Hw).
Qed.
End DriverTriples.

(** * Transfers *)

Section Transfers.
Context `{P : Platform} `{Hh : HashApi} `{Mm : !Mmio}.
Variable b : lms_mmio_bus_t.
Variable acc : dev -> accel.
Variable alg : lms_hash_alg_t.
Variable seed : bytes.
Variables version caps : Z.
Hypothesis Hc : bus_contract b acc alg seed version caps.
Variable p : ptr.
Variable J : lms_mmio_client_t -> Prop.
Hypothesis HJ : forall c, J c -> bus c = b.
Abbreviation drives := (drives acc p J).
Abbreviation write_ok := (drives_write b acc alg seed version caps Hc p J HJ).
Abbreviation read_ok := (drives_read b acc alg seed version caps Hc p J HJ).

(** A loop of writes appends to the writes made. *)
Lemma drives_writes n (body : Z -> DM unit) (l : Z -> list (Z * Z)) a :
  (forall k a, 0 <= k < Z.of_nat n -> drives a (body k) (fun _ a' => a' = accel_writes (l k) a)) ->
  drives a (loopM n 0 (fun k _ => body k) tt) (fun _ a' => a' = accel_writes (concat (map l (seqZ 0 (Z.of_nat n)))) a).
Proof.
  intros Hb. apply (drives_loop acc p J n 0 _ (fun k _ a' => a' = accel_writes (concat (map l (seqZ 0 k))) a)); [reflexivity |].
  intros k [] a1 Hk ->. eapply drives_post; [apply Hb; lia |]. intros _ a2 ->.
  rewrite (seqZ_app 0 k 1), map_app, concat_app by lia. change (seqZ (0 + k) 1) with [0 + k]. cbn [map concat].
  rewrite app_nil_r, accel_writes_app. reflexivity.
Qed.

Lemma drives_write_one a o v : drives a (bus_write p o v) (fun _ a' => a' = accel_writes [(o, v)] a).
Proof. apply write_ok. Qed.

Lemma concat_singles {A} (f : Z -> A) l : concat (map (fun k => [f k]) l) = map f l.
Proof. induction l as [| x l IH]; [reflexivity |]. cbn. f_equal. exact IH. Qed.

(** Either way of moving them, the words are those of the data. *)
Lemma write_bytes_ok a base bf data n :
  Forall is_byte data -> 0 <= n -> 0 <= base -> base + 4 * n <= UINT_MAX ->
  drives a (write_bytes p base bf data (4 * n)) (fun _ a' => a' = accel_writes (block base data (Z.to_nat n)) a).
Proof.
  intros Hb Hn Hb0 Hmax. unfold UINT_MAX in Hmax.
  assert (Hw : forall f, (forall k, 0 <= k < n -> f k = load_le32 data (4 * k)) ->
    drives a (loopM (words_in (4 * n)) 0 (fun k _ => let offset := 4 * k in bus_write p (u32 (base + u32 offset)) (f k)) tt)
      (fun _ a' => a' = accel_writes (block base data (Z.to_nat n)) a)).
  { intros f Hf. rewrite words_in_full by exact Hn. eapply drives_post.
    - apply (drives_writes _ _ (fun k => [(base + 4 * k, load_le32 data (4 * k))])). intros k a1 Hk. cbv zeta.
      rewrite (u32_small (4 * k)), u32_small, Hf by lia. apply drives_write_one.
    - intros _ a' ->. unfold block. rewrite concat_singles. reflexivity. }
  unfold write_bytes. destruct (word_aligned bf (4 * n)); apply Hw; intros k Hk.
  - rewrite shiftr_full. reflexivity.
  - apply lanes_full; [exact Hb | lia].
Qed.

(** A loop of reads that leave the accelerator alone. *)
Lemma read_bytes_ok a base bf n :
  0 <= n -> 0 <= base -> base + 4 * n <= UINT_MAX -> (forall k, 0 <= k < n -> in_output (base + 4 * k)) ->
  drives a (read_bytes p base bf (4 * n)) (fun out a' => out = reg_bytes a base n /\ a' = a).
Proof.
  intros Hn Hb0 Hmax Hout. unfold UINT_MAX in Hmax.
  assert (Hr : forall g, (forall k w, 0 <= k < n -> g k w = store_le32 w) ->
    drives a (loopM (words_in (4 * n)) 0 (fun k out => let offset := 4 * k in
        word ← bus_read p (u32 (base + u32 offset)); mret (out ++ g k word)) [])
      (fun out a' => out = reg_bytes a base n /\ a' = a)).
  { intros g Hg. rewrite words_in_full by exact Hn. eapply drives_post;
      [apply (drives_loop acc p J (Z.to_nat n) 0 _ (fun k out a' => out = reg_bytes a base k /\ a' = a)) |].
    3: { intros out a' [-> ->]. split; [f_equal; lia | reflexivity]. }
    { split; reflexivity. }
    intros k out a1 Hk [-> ->]. cbv zeta. rewrite (u32_small (4 * k)), u32_small by lia.
    eapply drives_bind; [apply read_ok |]. intros v a2 Hv.
    apply read_output_inv in Hv as [-> ->]; [| apply Hout; lia]. apply drives_ret. split; [| reflexivity].
    rewrite Hg by lia. unfold reg_bytes, word_bytes. rewrite (seqZ_app 0 k 1), map_app, concat_app by lia.
    change (seqZ (0 + k) 1) with [0 + k]. cbn [map concat]. rewrite app_nil_r. reflexivity. }
  unfold read_bytes. destruct (word_aligned bf (4 * n)); [apply (Hr (fun _ => store_le32)); reflexivity |].
  apply (Hr (fun k word => unpack_lanes word (4 * k) (4 * n))). intros k w Hk. apply unlanes_full. lia.
Qed.

Lemma write_stream_ok a lo bf data n :
  Forall is_byte data -> 0 <= n -> LMS_MMIO_TASK_STREAM_BASE <= lo -> phase a <> Running ->
  drives a (write_task_bytes p lo bf data (4 * n)) (fun _ a' => loaded lo n (fun k => load_le32 data (4 * k)) a a').
Proof.
  intros Hb Hn Hlo Hph. unfold write_task_bytes.
  destruct (Z.leb_spec LMS_MMIO_TASK_STREAM_BASE lo); [| lia].
  eapply drives_bind; [apply write_ok |]. intros _ ? ->.
  assert (Hw : forall f, (forall k, 0 <= k < n -> f k = load_le32 data (4 * k)) ->
    drives (accel_write LMS_MMIO_REG_TASK_ADDR lo a)
      (loopM (Z.to_nat n) 0 (fun k _ => bus_write p LMS_MMIO_REG_TASK_DATA (f k)) tt)
      (fun _ a' => loaded lo n (fun k => load_le32 data (4 * k)) a a')).
  { intros f Hf. eapply drives_post.
    - apply (drives_writes _ _ (fun k => [(LMS_MMIO_REG_TASK_DATA, load_le32 data (4 * k))])). intros k a1 Hk.
      rewrite Hf by lia. apply drives_write_one.
    - intros _ a' ->. rewrite concat_singles. change (map _ _) with (stream data (Z.to_nat n)).
      replace n with (Z.of_nat (Z.to_nat n)) at 1 by lia. apply stream_loaded; assumption. }
  destruct (word_aligned bf (4 * n)).
  - rewrite shiftr_full. apply (Hw (fun k => load_le32 data (4 * k))). reflexivity.
  - rewrite words_in_full by exact Hn. apply (Hw (fun k => pack_lanes data (4 * k) (4 * n))). intros k Hk. apply lanes_full; [exact Hb | lia].
Qed.

Lemma write_addressed_ok a bf data n :
  Forall is_byte data -> 0 <= n <= UINT_MAX -> phase a <> Running ->
  drives a (write_task_bytes p 0 bf data (4 * n)) (fun _ a' => loaded 0 n (fun k => load_le32 data (4 * k)) a a').
Proof.
  intros Hb Hn Hph. unfold UINT_MAX in Hn. unfold write_task_bytes. change (LMS_MMIO_TASK_STREAM_BASE <=? 0) with false. cbv iota.
  assert (Hw : forall f g, (forall k, 0 <= k < n -> f k = load_le32 data (4 * k)) -> (forall k, 0 <= k < n -> g k = k) ->
    drives a
      (loopM (Z.to_nat n) 0 (fun k _ => bus_write p LMS_MMIO_REG_TASK_ADDR (g k) ;; bus_write p LMS_MMIO_REG_TASK_DATA (f k)) tt)
      (fun _ a' => loaded 0 n (fun k => load_le32 data (4 * k)) a a')).
  { intros f g Hf Hg. eapply drives_post.
    - apply (drives_writes _ _ (fun k => [(LMS_MMIO_REG_TASK_ADDR, k); (LMS_MMIO_REG_TASK_DATA, load_le32 data (4 * k))])).
      intros k a1 Hk. rewrite Hf, Hg by lia. eapply drives_bind; [apply write_ok |]. intros _ ? ->. apply drives_write_one.
    - intros _ a' ->. change (concat _) with (addressed data (Z.to_nat n)).
      replace n with (Z.of_nat (Z.to_nat n)) at 1 by lia. apply addressed_loaded, Hph. }
  destruct (word_aligned bf (4 * n)).
  - rewrite shiftr_full. apply (Hw (fun k => load_le32 data (4 * k)) (fun k => u32 (0 + u32 k))); [reflexivity |].
    intros k Hk. rewrite (u32_small k), u32_small by lia. lia.
  - rewrite words_in_full by lia. 
    apply (Hw (fun k => pack_lanes data (4 * k) (4 * n)) (fun k => u32 (0 + u32 (4 * k / 4)))).
    + intros k Hk. apply lanes_full; [exact Hb | lia].
    + intros k Hk. rewrite (Z.mul_comm 4), Z.div_mul, (u32_small k), u32_small by lia. lia.
Qed.

(** Words read from the data port, from [lo] on. *)
Lemma read_stream_ok a lo bf n :
  0 <= n -> LMS_MMIO_TASK_STREAM_BASE <= lo -> phase a <> Running ->
  drives a (read_task_bytes p lo bf (4 * n)) (fun out _ => out = ram_bytes a lo n).
Proof.
  intros Hn Hlo Hph. unfold read_task_bytes. eapply drives_bind; [apply write_ok |]. intros _ ? ->.
  rewrite write_addr by exact Hph. set (a0 := mkAccel _ _ _).
  assert (Hr : forall g, (forall k w, 0 <= k < n -> g k w = store_le32 w) ->
    drives a0 (loopM (Z.to_nat n) 0 (fun k out =>
        word ← bus_read p LMS_MMIO_REG_TASK_DATA; mret (out ++ g k word)) [])
      (fun out _ => out = ram_bytes a lo n)).
  { intros g Hg. eapply drives_post.
    - apply (drives_loop acc p J (Z.to_nat n) 0 _ (fun k out a' =>
        out = ram_bytes a lo k /\ reg a' LMS_MMIO_REG_TASK_ADDR = lo + k /\ ram a' = ram a)).
      { split; [reflexivity |]. split; [| reflexivity]. cbn. lia. }
      intros k out a1 Hk (-> & Haddr & Hram). eapply drives_bind; [apply read_ok |]. intros v a2 Hv.
      apply read_data_inv in Hv as [-> ->]. apply drives_ret. cbn [reg ram]. rewrite Haddr, Hram. split; [| split].
      + rewrite Hg by lia. unfold ram_bytes, word_bytes. rewrite (seqZ_app 0 k 1), map_app, concat_app by lia.
        change (seqZ (0 + k) 1) with [0 + k]. cbn [map concat]. rewrite app_nil_r. do 4 f_equal. lia.
      + rewrite next_addr_addr; lia.
      + reflexivity.
    - intros out a' (-> & _ & _). f_equal. lia. }
  destruct (word_aligned bf (4 * n)).
  - rewrite shiftr_full. apply (Hr (fun _ => store_le32)). reflexivity.
  - rewrite words_in_full by exact Hn. apply (Hr (fun k word => unpack_lanes word (4 * k) (4 * n))).
    intros k w Hk. apply unlanes_full. lia.
Qed.
End Transfers.

(** * Commands *)

Section Commands.
Context `{P : Platform} `{Hh : HashApi} `{Mm : !Mmio}.
Variable b : lms_mmio_bus_t.
Variable acc : dev -> accel.
Variable alg : lms_hash_alg_t.
Variable seed : bytes.
Variables version caps : Z.
Hypothesis Hc : bus_contract b acc alg seed version caps.
Variable p : ptr.
Hypothesis Hp : p <> NULL.

(** A client in service: on the bus, bound to the accelerator's hash, not falling back to
    software, and with no coefficients left in the hardware. *)
Record good (c : lms_mmio_client_t) : Prop := {
  good_bus : bus c = b;
  good_probed : probed c <> 0;
  good_desc : exists desc, hash_desc c = Some desc /\ desc_hash_alg desc = alg;
  good_fallback : allow_fallback c = 0;
  good_coef : coef_ready c = 0
}.

Abbreviation drives := (drives acc p good).
Abbreviation write_ok := (drives_write b acc alg seed version caps Hc p good good_bus).
Abbreviation read_ok := (drives_read b acc alg seed version caps Hc p good good_bus).

Lemma update_ok a f : (forall c, good c -> good (f c)) -> drives a (update_client p f) (fun _ a' => a' = a).
Proof. apply (drives_update b acc alg seed version caps Hc). Qed.

Ltac good_update := let c := fresh in intros c [? ? ? ? ?]; split; assumption.

Lemma param_hw_ok a type op :
  lmots_params_of type = Some op -> drives a (lmots_param_hw type) (fun x a' => x = op /\ a' = a).
Proof.
  intros Hop. unfold lmots_param_hw. apply drives_bind with (Q := fun x a' => x = op /\ a' = a).
  - intros w Hw <-. unfold from_library, wp. pose proof (lms_get_lmots_param_run w type (proj1 Hw)) as H. rewrite Hop in H.
    destruct H as (c & E & Hc'). rewrite E. destruct w. split; [split; reflexivity | split; [exact Hc' | apply Hw]].
  - intros ? ? [-> ->]. destruct (lmots_params_of_wf type op Hop) as [Hw _].
    eapply drives_bind; [apply drives_guard; discriminate |]. intros [] ? [-> _]. apply drives_ret. auto.
Qed.

Lemma ensure_probe_ok a : drives a (ensure_probe p) (fun _ a' => a' = a).
Proof.
  eapply drives_bind; [apply drives_client |]. intros c ? [Hg ->].
  destruct (Z.eqb_spec (probed c) 0) as [E |]; [destruct (good_probed c Hg E) |]. apply drives_ret. reflexivity.
Qed.

(** A command starts from a quiet accelerator. *)
Lemma prepare_ok a cap : drives a (prepare_command p cap) (fun _ a' => phase a' = Ready).
Proof.
  unfold prepare_command. eapply drives_bind; [apply ensure_probe_ok |]. intros _ ? ->.
  eapply drives_bind; [apply drives_client |]. intros c ? [_ ->].
  eapply drives_bind; [apply drives_guard; discriminate |]. intros [] ? [-> _].
  eapply drives_bind; [apply update_ok; good_update |]. intros _ ? ->.
  eapply drives_bind; [apply write_ok |]. intros _ ? ->.
  eapply drives_bind; [apply read_ok |]. intros v a1 Hv. apply read_status_inv in Hv.
  eapply drives_post; [apply drives_guard; discriminate |]. intros _ a2 [-> Hz].
  apply negb_false_iff, Z.eqb_eq in Hz. subst v.
  assert (Hph : phase (accel_write LMS_MMIO_REG_CONTROL LMS_MMIO_CTRL_CLEAR a) = match phase a with Running => Running | _ => Ready end)
    by (unfold accel_write; destruct (phase a) eqn:E; try reflexivity; exact E).
  rewrite Hph in Hv. destruct (phase a) eqn:E.
  - destruct Hv as [_ ->]. exact Hph.
  - destruct Hv as [[Hv _] | [[[_ Hv] _] | [(_ & _ & Hv) _]]]; destruct Hv; reflexivity.
  - destruct Hv as [_ ->]. exact Hph.
  - destruct Hv as [_ ->]. exact Hph.
Qed.

(** Polling ends with the answer of the command, if it ends well. *)
Lemma poll_once_ok a bf output :
  phase a = Running ->
  drives a (poll_once p bf output LMS_N) (fun r a' =>
    match r with
    | None => a' = a
    | Some (out, _) => answers alg seed a a' /\ out = if output =? NULL then [] else out_of a'
    end).
Proof.
  intros Hr. unfold poll_once. eapply drives_bind; [apply read_ok |]. intros v a1 Hv. apply read_status_inv in Hv.
  rewrite Hr in Hv. destruct Hv as [[Hb ->] | [[[Hb He] _] | [(Hb & He & Hd) Ha]]].
  - unfold busy in Hb. apply Z.eqb_neq in Hb. rewrite Hb. apply drives_ret. reflexivity.
  - apply Z.eqb_eq in Hb. apply Z.eqb_neq in He. rewrite Hb, He.
    eapply drives_bind; [apply read_ok |]. intros e a2 _.
    eapply drives_bind; [apply update_ok; good_update |]. intros _ ? ->. apply drives_fail. discriminate.
  - apply Z.eqb_eq in Hb, He. apply Z.eqb_neq in Hd. rewrite Hb, He, Hd. cbn [negb].
    apply drives_bind with (Q := fun out a' => out = (if output =? NULL then [] else reg_bytes a1 LMS_MMIO_REG_OUTPUT 8) /\ a' = a1).
    { change (negb (LMS_N =? 0)) with true. rewrite andb_true_r. destruct (output =? NULL); [apply drives_ret; auto |].
      change LMS_N with (4 * 8). apply (read_bytes_ok b acc alg seed version caps Hc p good good_bus); try (unfold UINT_MAX; vm_compute; intuition congruence).
      intros k Hk. unfold in_output, LMS_MMIO_REG_OUTPUT. lia. }
    intros out ? [-> ->]. eapply drives_bind; [apply read_ok |]. intros cycles a2 Hcy. apply read_cycles_inv in Hcy as ->.
    eapply drives_bind; [apply update_ok; good_update |]. intros _ ? ->. apply drives_ret. auto.
Qed.

Lemma wait_ok a bf output :
  phase a = Running ->
  drives a (wait_for_result p bf output) (fun '(out, _) a' =>
    answers alg seed a a' /\ out = if output =? NULL then [] else out_of a').
Proof.
  intros Hr. unfold wait_for_result, wait_for_result_n. eapply drives_bind; [apply drives_client |]. intros c ? [_ ->].
  induction (Z.to_nat (timeout_polls c)) as [| n IH]; [apply drives_fail; discriminate |].
  cbn [poll_loop]. eapply drives_bind; [apply poll_once_ok, Hr |]. intros [[out cycles] |] a1 H.
  - apply drives_ret. exact H.
  - subst a1. exact IH.
Qed.

(** ** The registers of a command *)

Lemma write_more l a o v : drives (accel_writes l a) (bus_write p o v) (fun _ a' => a' = accel_writes (l ++ [(o, v)]) a).
Proof. eapply drives_post; [apply write_ok |]. intros _ a' ->. rewrite accel_writes_app. reflexivity. Qed.

Lemma block_more l a base bf data n :
  Forall is_byte data -> 0 <= n -> 0 <= base -> base + 4 * n <= UINT_MAX ->
  drives (accel_writes l a) (write_bytes p base bf data (4 * n))
    (fun _ a' => a' = accel_writes (l ++ block base data (Z.to_nat n)) a).
Proof.
  intros Hb Hn Hb0 Hm. eapply drives_post.
  - apply (write_bytes_ok b acc alg seed version caps Hc p good good_bus); assumption.
  - intros _ a' ->. rewrite accel_writes_app. reflexivity.
Qed.

Lemma started l a :
  phase a = Ready -> plain l ->
  accel_writes (l ++ [(LMS_MMIO_REG_CONTROL, LMS_MMIO_CTRL_START)]) a = mkAccel (regs_after l (reg a)) (ram a) Running.
Proof.
  intros Ha Hl. rewrite accel_writes_app, (plain_writes l a), Ha by (exact Hl || (rewrite Ha; discriminate)).
  reflexivity.
Qed.

Lemma reg_bytes_regs a base data n :
  Forall is_byte data -> len data = 4 * Z.of_nat n ->
  (forall k, (k < n)%nat -> reg a (base + 4 * Z.of_nat k) = load_le32 data (4 * Z.of_nat k)) ->
  reg_bytes a base (Z.of_nat n) = data.
Proof.
  intros Hb Hl Hk. apply word_bytes_data; [exact Hb | exact Hl |]. intros k Hr.
  specialize (Hk (Z.to_nat k) ltac:(lia)). rewrite Z2Nat.id in Hk by lia. exact Hk.
Qed.

(** [n] consecutive registers, for a concrete [n] and concrete offsets. *)
Ltac each_register := intros k Hk; repeat (destruct k as [| k]; [reflexivity |]); lia.
Lemma plain_nil : plain [].
Proof. apply Forall_nil_2. Qed.

Lemma plain_one l o v : plain l -> o <> LMS_MMIO_REG_CONTROL -> o <> LMS_MMIO_REG_TASK_DATA -> plain (l ++ [(o, v)]).
Proof. intros Hl H1 H2. apply Forall_app. split; [exact Hl | apply Forall_singleton; auto]. Qed.

Lemma plain_block l base data n : plain l -> LMS_MMIO_REG_TASK_DATA < base -> plain (l ++ block base data n).
Proof.
  intros Hl Hb. apply Forall_app. split; [exact Hl |]. apply Forall_map, Forall_forall. intros k Hk.
  apply elem_of_seqZ in Hk. cbn. unfold LMS_MMIO_REG_CONTROL, LMS_MMIO_REG_TASK_DATA in *. lia.
Qed.

Ltac plain_list := repeat first [apply plain_nil | apply plain_one; [| discriminate..] | apply plain_block; [| reflexivity]].

Ltac reg_step := eapply drives_bind; [apply write_more | intros _ ? ->].
Ltac id_step HI := change LMS_I_LEN with (4 * 4); eapply drives_bind;
  [apply block_more; [exact (proj2 HI) | lia | discriminate | discriminate] | intros _ ? ->].

(** The identifier registers hold [I_]. *)
Lemma id_regs a I_ :
  ident I_ -> (forall k, (k < 4)%nat -> reg a (LMS_MMIO_REG_IDENTIFIER + 4 * Z.of_nat k) = load_le32 I_ (4 * Z.of_nat k)) ->
  id_of a = I_.
Proof. intros [Hl Hb] Hk. apply (reg_bytes_regs a _ I_ 4); [exact Hb | exact Hl | exact Hk]. Qed.

Lemma task_of type op : lmots_params_of type = Some op -> lmots_params_of (ots_p_type op) = Some op.
Proof. intros Hop. destruct (lmots_params_of_wf type op Hop) as [_ ->]. exact Hop. Qed.

Lemma keygen_ok a key I_ q type op :
  ident I_ -> lmots_params_of type = Some op ->
  drives a (lms_mmio_lmots_keygen p key (Some I_) q type local_ptr) (fun '(out, _) _ => out = ots_pub alg op I_ seed q).
Proof.
  intros HI Hop. unfold lms_mmio_lmots_keygen.
  eapply drives_bind; [apply drives_guard; discriminate |]. intros [] ? [-> Hg].
  rewrite !orb_false_iff, negb_false_iff, Z.eqb_eq in Hg. destruct Hg as [_ ->].
  eapply drives_bind; [apply (param_hw_ok _ _ op Hop) |]. intros ? ? [-> ->].
  eapply drives_bind; [apply prepare_ok |]. intros [] a1 Hr. change a1 with (accel_writes [] a1).
  do 5 reg_step. id_step HI. reg_step. rewrite started by (exact Hr || plain_list).
  eapply drives_bind; [apply wait_ok; reflexivity |]. intros [out cycles] a2 [Hans Hout].
  eapply drives_bind; [apply update_ok; good_update |]. intros _ ? ->. apply drives_ret.
  rewrite Hout. change (local_ptr =? NULL) with false. cbv iota.
  rewrite (answer_keygen _ _ _ _ Hans op eq_refl eq_refl (conj (task_of type op Hop) eq_refl)).
  rewrite (id_regs _ I_ HI) by each_register. reflexivity.
Qed.

Lemma derive_chain_ok a key I_ q i start steps :
  ident I_ -> chain_segment i start steps ->
  drives a (lms_mmio_derive_chain p key (Some I_) q i start steps local_ptr)
    (fun '(out, _) _ => out = chain_spec alg I_ q i start steps (private_value_spec alg I_ seed q i)).
Proof.
  intros HI Hseg. unfold lms_mmio_derive_chain.
  eapply drives_bind; [apply drives_guard; discriminate |]. intros [] ? [-> Hg].
  rewrite !orb_false_iff, negb_false_iff, Z.eqb_eq in Hg. destruct Hg as (((((_ & ->) & _) & _) & _) & _).
  eapply drives_bind; [apply prepare_ok |]. intros [] a1 Hr. change a1 with (accel_writes [] a1).
  do 7 reg_step. id_step HI. reg_step. rewrite started by (exact Hr || plain_list).
  eapply drives_bind; [apply wait_ok; reflexivity |]. intros [out cycles] a2 [Hans Hout].
  eapply drives_bind; [apply update_ok; good_update |]. intros _ ? ->. apply drives_ret.
  rewrite Hout. change (local_ptr =? NULL) with false. cbv iota.
  rewrite (answer_derive _ _ _ _ Hans eq_refl eq_refl Hseg).
  rewrite (id_regs _ I_ HI) by each_register. reflexivity.
Qed.

Lemma derive_randomizer_ok a key I_ q :
  ident I_ ->
  drives a (lms_mmio_derive_randomizer p key (Some I_) q local_ptr) (fun '(out, _) _ => out = randomizer_spec alg I_ seed q).
Proof.
  intros HI. unfold lms_mmio_derive_randomizer.
  eapply drives_bind; [apply drives_guard; discriminate |]. intros [] ? [-> Hg].
  rewrite !orb_false_iff, negb_false_iff, Z.eqb_eq in Hg. destruct Hg as [_ ->].
  eapply drives_bind; [apply prepare_ok |]. intros [] a1 Hr. change a1 with (accel_writes [] a1).
  do 4 reg_step. id_step HI. reg_step. rewrite started by (exact Hr || plain_list).
  eapply drives_bind; [apply wait_ok; reflexivity |]. intros [out cycles] a2 [Hans Hout].
  eapply drives_bind; [apply update_ok; good_update |]. intros _ ? ->. apply drives_ret.
  rewrite Hout. change (local_ptr =? NULL) with false. cbv iota.
  rewrite (answer_randomizer _ _ _ _ Hans eq_refl eq_refl).
  rewrite (id_regs _ I_ HI) by each_register. reflexivity.
Qed.

(** A client in service does not fall back. *)
Lemma fall_back_ok {A} a status (software : lms_hash_alg_t -> DM A) Q :
  status <> MMIO_UNDEFINED -> drives a (fall_back p status software) Q.
Proof.
  intros Hs. eapply drives_bind; [apply drives_client |]. intros c ? [Hg ->].
  rewrite (good_fallback c Hg). apply drives_fail, Hs.
Qed.

Lemma status_of_ok {A} a (m : DM A) Q :
  drives a m Q ->
  drives a (status_of m) (fun r a' => match r with Ok x => Q x a' | Err e => e <> MMIO_UNDEFINED end).
Proof.
  intros Hm w Hw Ha. specialize (Hm w Hw Ha). unfold status_of, wp in *. destruct (m w) as [[x | e] w']; [exact Hm |].
  destruct Hm as [He Hw']. destruct e; (split; [exact He | exact Hw']). 
Qed.

Lemma chain_ok a I_ q i start steps value :
  ident I_ -> chain_value value -> chain_segment i start steps ->
  drives a (lms_mmio_chain p (Some I_) q i start steps (Some value))
    (fun '(out, _) _ => out = chain_spec alg I_ q i start steps value).
Proof.
  intros HI [Hvl Hvb] Hseg. unfold lms_mmio_chain.
  eapply drives_bind; [apply drives_guard; discriminate |]. intros [] ? [-> _].
  eapply drives_bind; [apply (status_of_ok _ _ (fun '(out, _) _ => out = chain_spec alg I_ q i start steps value)) |].
  - eapply drives_bind; [apply prepare_ok |]. intros [] a1 Hr. change a1 with (accel_writes [] a1).
    do 6 reg_step. id_step HI. change LMS_N with (4 * 8) at 1.
    eapply drives_bind; [apply block_more; [exact Hvb | lia | discriminate | discriminate] | intros _ ? ->].
    reg_step. rewrite started by (exact Hr || plain_list).
    eapply drives_post; [apply wait_ok; reflexivity |]. intros [out cycles] a2 [Hans ->].
    change (local_ptr =? NULL) with false. cbv iota.
    rewrite (answer_chain _ _ _ _ Hans eq_refl Hseg). rewrite (id_regs _ I_ HI) by each_register.
    match goal with |- context [reg_bytes ?b _ 8] => rewrite (reg_bytes_regs b _ value 8 Hvb Hvl) by each_register end.
    reflexivity.
  - intros [[out cycles] | e] a2 H.
    + eapply drives_bind; [apply update_ok; good_update |]. intros _ ? ->. apply drives_ret. exact H.
    + eapply drives_bind; [apply (fall_back_ok _ _ _ (fun _ _ => False)), H |]. intros ? ? [].
Qed.

(** ** Digits and chain values *)

Lemma op_widths op : wf_lmots_param op ->
  (ots_p_w op = 1 \/ ots_p_w op = 2 \/ ots_p_w op = 4 \/ ots_p_w op = 8) /\
  34 <= ots_p_p op <= 32 * (32 / ots_p_w op) /\ ots_p_p op <= 265.
Proof.
  intros Hw. destruct (wf_ots_cases op Hw) as [(-> & -> & _) | [(-> & -> & _) | [(-> & -> & _) | (-> & -> & _)]]];
    vm_compute; intuition congruence.
Qed.

(** The words of the coefficients are in place, and only they and the address have changed. *)
Lemma write_coefficients_ok a cs type op :
  lmots_params_of type = Some op -> digits_ok op cs -> phase a <> Running ->
  drives a (write_coefficients p (Some cs) op) (fun _ a' =>
    phase a' = phase a /\ (forall o, o <> LMS_MMIO_REG_TASK_ADDR -> reg a' o = reg a o) /\
    forall i, 0 <= i < ots_p_p op -> coef_of op a' i = rd cs i).
Proof.
  intros Hop Hd Hph. destruct (lmots_params_of_wf type op Hop) as [Hwf _].
  destruct (op_widths op Hwf) as (Hw & Hp1 & Hp2). destruct (per_w _ Hw) as (_ & Hper & Hwr).
  unfold write_coefficients. pose proof (pack_ok _ Hw cs (ots_p_p op) ltac:(lia)) as Hpack.
  destruct (pack_coefficients_words _ _ _) as [words n]. destruct Hpack as (Hl & Hu & Hn & Hdig).
  rewrite u32_small in Hn by lia.
  assert (Hn32 : 0 <= n < 33) by (subst n; split; [apply Z.div_pos | apply Z.div_lt_upper_bound]; lia).
  rewrite (u32_small (n * 4)), (Z.mul_comm n) by lia.
  eapply drives_post; [apply (write_addressed_ok b acc alg seed version caps Hc p good good_bus); [apply words_bytes | unfold UINT_MAX; lia | exact Hph] |].
  intros _ a' [L1 L2 L3]. split; [exact L1 |]. split; [exact L2 |]. intros i Hi.
  assert (Hk : 0 <= i / (32 / ots_p_w op) < n).
  { split; [apply Z.div_pos; lia |]. subst n. apply Z.div_lt_upper_bound; [lia |].
    pose proof (Z.mul_succ_div_gt (ots_p_p op + 32 / ots_p_w op - 1) (32 / ots_p_w op) ltac:(lia)). lia. }
  transitivity (packed_coef (rd words) (ots_p_w op) i).
  - unfold coef_of, packed_coef. rewrite L3. destruct (Z.leb_spec 0 (i / (32 / ots_p_w op))), (Z.ltb_spec (i / (32 / ots_p_w op)) (0 + n)); try lia.
    cbn [andb]. rewrite Z.sub_0_r. set (k := i / (32 / ots_p_w op)) in *. replace k with (Z.of_nat (Z.to_nat k)) by lia.
    rewrite load_words by (rewrite ?Hl; try lia; apply Hu). reflexivity.
  - rewrite Hdig by exact Hi. specialize (Hd i Hi). unfold max_digit in Hd. rewrite land_mask by exact Hw.
    apply Z.mod_small. lia.
Qed.

Lemma write_arg_w a v :
  phase a = Ready -> accel_write LMS_MMIO_REG_ARG_W v a = mkAccel (set LMS_MMIO_REG_ARG_W v (reg a)) (ram a) Ready.
Proof. intros Ha. unfold accel_write. rewrite Ha. reflexivity. Qed.

Lemma sign_ok a key I_ q type op cs :
  ident I_ -> lmots_params_of type = Some op -> digits_ok op cs ->
  drives a (lms_mmio_lmots_sign p key (Some I_) q type (Some cs) local_ptr)
    (fun '(out, _) _ => out = ots_sign_values alg op I_ seed q (rd cs)).
Proof.
  intros HI Hop Hd. unfold lms_mmio_lmots_sign. destruct (lmots_params_of_wf type op Hop) as [Hwf _].
  pose proof (op_widths op Hwf) as (_ & Hp1 & Hp2).
  eapply drives_bind; [apply drives_guard; discriminate |]. intros [] ? [-> Hg].
  rewrite !orb_false_iff, negb_false_iff, Z.eqb_eq in Hg. destruct Hg as [_ ->].
  eapply drives_bind; [apply (param_hw_ok _ _ op Hop) |]. intros ? ? [-> ->].
  eapply drives_bind; [apply prepare_ok |]. intros [] a1 Hr.
  eapply drives_bind; [apply write_ok |]. intros _ ? ->.
  rewrite write_arg_w by exact Hr.
  eapply drives_bind; [apply (write_coefficients_ok _ cs type op Hop Hd); discriminate |].
  intros [] a2 (L1 & L2 & L3). cbn [phase] in L1. change a2 with (accel_writes [] a2).
  do 4 reg_step. id_step HI. reg_step. rewrite started by (exact L1 || plain_list).
  eapply drives_bind; [apply wait_ok; reflexivity |]. intros [out cycles] a3 [Hans _].
  rewrite (wf_ots_n op Hwf). change LMS_N with 32. rewrite (u32_small (ots_p_p op * 32)) by lia. replace (ots_p_p op * 32) with (4 * (ots_p_p op * 8)) by lia.
  eapply drives_bind.
  { apply (read_stream_ok b acc alg seed version caps Hc p good good_bus); [lia | discriminate |].
    rewrite (answer_phase _ _ _ _ Hans). discriminate. }
  intros values a4 ->. eapply drives_bind; [apply update_ok; good_update |]. intros _ ? ->. apply drives_ret.
  change (ram_bytes a3 _ _) with (values_of op a3).
  rewrite (answer_sign _ _ _ _ Hans op eq_refl eq_refl).
  2: { split; [exact (task_of type op Hop) |]. symmetry. exact (L2 LMS_MMIO_REG_ARG_W ltac:(discriminate)). }
  rewrite (id_regs _ I_ HI) by each_register. apply per_chain_ext.
  intros i Hi. rewrite <- (L3 i Hi). reflexivity.
Qed.

Lemma verify_command_ok a I_ q type op cs y :
  ident I_ -> lmots_params_of type = Some op -> digits_ok op cs -> chain_values op y ->
  drives a (lms_mmio_lmots_verify p (Some I_) q type (Some cs) (Some y) local_ptr)
    (fun '(out, _) _ => out = ots_candidate alg op I_ q (rd cs) y).
Proof.
  intros HI Hop Hd [Hyl Hyb]. unfold lms_mmio_lmots_verify. destruct (lmots_params_of_wf type op Hop) as [Hwf _].
  pose proof (op_widths op Hwf) as (Hw & Hp1 & Hp2). destruct (per_w _ Hw) as (_ & Hper & Hwr).
  eapply drives_bind; [apply drives_guard; discriminate |]. intros [] ? [-> _].
  eapply drives_bind; [apply (param_hw_ok _ _ op Hop) |]. intros ? ? [-> ->].
  eapply drives_bind; [apply prepare_ok |]. intros [] a1 Hr.
  eapply drives_bind; [apply write_ok |]. intros _ ? ->.
  rewrite write_arg_w by exact Hr.
  eapply drives_bind; [apply (write_coefficients_ok _ cs type op Hop Hd); discriminate |].
  intros [] a2 (L1 & L2 & L3). cbn [phase] in L1.
  rewrite (wf_ots_n op Hwf). change LMS_N with 32. rewrite (u32_small (ots_p_p op * 32)) by lia. replace (ots_p_p op * 32) with (4 * (ots_p_p op * 8)) by lia.
  eapply drives_bind.
  { apply (write_stream_ok b acc alg seed version caps Hc p good good_bus); [exact Hyb | lia | discriminate | rewrite L1; discriminate]. }
  intros [] a3 [S1 S2 S3]. rewrite L1 in S1. change a3 with (accel_writes [] a3).
  do 3 reg_step. id_step HI. reg_step. rewrite started by (exact S1 || plain_list).
  eapply drives_bind; [apply wait_ok; reflexivity |]. intros [out cycles] a4 [Hans Hout].
  eapply drives_bind; [apply update_ok; good_update |]. intros _ ? ->. apply drives_ret.
  rewrite Hout. change (local_ptr =? NULL) with false. cbv iota.
  rewrite (answer_verify _ _ _ _ Hans op eq_refl).
  2: { split; [exact (task_of type op Hop) |]. symmetry.
       change (reg a3 LMS_MMIO_REG_ARG_W = ots_p_w op). rewrite S2, L2 by discriminate. reflexivity. }
  rewrite (id_regs _ I_ HI) by each_register. match goal with |- ots_candidate _ _ _ _ _ (values_of _ ?st) = _ => set (A := st) end.
  assert (Hval : values_of op A = y).
  { apply word_bytes_data; [exact Hyb | unfold LMS_N in Hyl; lia |]. intros k Hk. cbn [ram A]. rewrite S3.
    destruct (Z.leb_spec LMS_MMIO_TASK_CHAIN_WORD_BASE (LMS_MMIO_TASK_CHAIN_WORD_BASE + 1 * k)),
      (Z.ltb_spec (LMS_MMIO_TASK_CHAIN_WORD_BASE + 1 * k) (LMS_MMIO_TASK_CHAIN_WORD_BASE + ots_p_p op * 8)); try lia.
    cbn [andb]. f_equal. lia. }
  rewrite Hval. change (q_of A) with q. unfold ots_candidate. f_equal. apply per_chain_ext. intros i Hi.
  assert (Hco : coef_of op A i = rd cs i).
  { rewrite <- L3 by exact Hi. unfold coef_of, packed_coef. cbn [ram A]. rewrite S3.
    assert (Hk : i / (32 / ots_p_w op) < 32) by (apply Z.div_lt_upper_bound; lia).
    destruct (Z.leb_spec LMS_MMIO_TASK_CHAIN_WORD_BASE (i / (32 / ots_p_w op)));
      [unfold LMS_MMIO_TASK_CHAIN_WORD_BASE in *; lia | reflexivity]. }
  rewrite Hco. reflexivity.
Qed.
End Commands.
