(* ===== verification/MmioDemo.v ===== *)
(** A concrete accelerator, for the examples: register file, task RAM and a command unit that
    computes with the reference of Spec.v, behind the memory window the direct bus
    functions address.  It keeps the contract of Accel.v. *)

From S2P Require Import Prelude Types HashApi Params Winternitz Spec Scheme LmOts LmOtsCorrect MmioRegs Mmio Accel MmioCorrect.

Definition demo_alg : lms_hash_alg_t := LMS_HASH_SHAKE256.
Definition demo_hw_seed : bytes := priv_seed demo_priv.
Definition demo_base : ptr := 0x40000000.
Definition demo_caps : Z := 0x10fe.

(** The parameter set of a width. *)
Definition demo_op_of (w : Z) : option lmots_param_t :=
  lmots_params_of (if w =? 1 then LMOTS_SHAKE256_N32_W1 else if w =? 2 then LMOTS_SHAKE256_N32_W2
                   else if w =? 4 then LMOTS_SHAKE256_N32_W4 else LMOTS_SHAKE256_N32_W8).

Section Unit.
#[local] Existing Instance toy_hash_api.

Definition demo_output (a : accel) : bytes :=
  let op := demo_op_of (reg a LMS_MMIO_REG_ARG_W) in
  let I_ := id_of a in
  let q := q_of a in
  let command := reg a LMS_MMIO_REG_COMMAND in
  if command =? LMS_MMIO_CMD_CHAIN then
    chain_spec demo_alg I_ q (i_of a) (start_of a) (steps_of a) (reg_bytes a LMS_MMIO_REG_INPUT 8)
  else if command =? LMS_MMIO_CMD_DERIVE_CHAIN then
    chain_spec demo_alg I_ q (i_of a) (start_of a) (steps_of a) (private_value_spec demo_alg I_ demo_hw_seed q (i_of a))
  else if command =? LMS_MMIO_CMD_DERIVE_RANDOMIZER then randomizer_spec demo_alg I_ demo_hw_seed q
  else match op with
       | None => []
       | Some op =>
           if command =? LMS_MMIO_CMD_LMOTS_KEYGEN then ots_pub demo_alg op I_ demo_hw_seed q
           else if command =? LMS_MMIO_CMD_LMOTS_VERIFY then ots_candidate demo_alg op I_ q (coef_of op a) (values_of op a)
           else []
       end.

(** The chain values of a signing task. *)
Definition demo_values (a : accel) : bytes :=
  match demo_op_of (reg a LMS_MMIO_REG_ARG_W) with
  | Some op => ots_sign_values demo_alg op (id_of a) demo_hw_seed (q_of a) (coef_of op a)
  | None => []
  end.

Definition demo_ram (a : accel) : Z -> Z :=
  if reg a LMS_MMIO_REG_COMMAND =? LMS_MMIO_CMD_LMOTS_SIGN then
    let values := demo_values a in
    fun k => if (LMS_MMIO_TASK_CHAIN_WORD_BASE <=? k) && (k <? LMS_MMIO_TASK_CHAIN_WORD_BASE + len values / 4)
             then load_le32 values (4 * (k - LMS_MMIO_TASK_CHAIN_WORD_BASE)) else ram a k
  else ram a.

Definition demo_exec (a : accel) : accel :=
  mkAccel (regs_after (block LMS_MMIO_REG_OUTPUT (demo_output a) 8) (reg a)) (demo_ram a) Finished.

Definition demo_read (offset : Z) (a : accel) : Z * accel :=
  if offset =? LMS_MMIO_REG_VERSION then (1, a)
  else if offset =? LMS_MMIO_REG_CAPABILITY then (demo_caps, a)
  else if offset =? LMS_MMIO_REG_STATUS then
    match phase a with
    | Ready => (0, a)
    | Running => (LMS_MMIO_STATUS_DONE, demo_exec a)
    | Finished => (LMS_MMIO_STATUS_DONE, a)
    | Faulted => (LMS_MMIO_STATUS_ERROR, a)
    end
  else if offset =? LMS_MMIO_REG_TASK_DATA then
    (ram a (reg a LMS_MMIO_REG_TASK_ADDR), mkAccel (next_addr a) (ram a) (phase a))
  else (reg a offset, a).

(** The device: one client structure and the accelerator. *)
Definition demo_bus : lms_mmio_bus_t := mkBus demo_base (Some Direct) (Some Direct).

#[local] Instance demo_hw : Platform := {|
  SIZE_MAX := UINT_MAX;
  SIZE_MAX_ge := Z.le_refl UINT_MAX;
  dev := lms_mmio_client_t * accel;
  dev_ok d := good demo_bus demo_alg (fst d);
  malloc_dev_ok _ _ H := H;
  malloc n d := (n <=? 16384 * 8, d);
  sizeof_hss_private_key := 66572;
  sizeof_lms_sublevel := 104;
  indet n := fill 0xA5 n;
  indet_len n Hn := len_fill 0xA5 n Hn
|}.

#[local] Instance demo_mmio : Mmio (P := demo_hw) := {|
  client_at _ d := fst d;
  set_client _ c d := (c, snd d);
  client_set _ _ _ := eq_refl;
  extern_read32 _ _ _ d := (0, d);
  extern_write32 _ _ _ _ d := d;
  load32 address d := let '(v, a) := demo_read (address - demo_base) (snd d) in (v, (fst d, a));
  store32 address value d := (fst d, accel_write (address - demo_base) value (snd d));
  extern_trng_fill _ _ d := ((0, fill 0x5C LMS_N), d);
  bytes_at _ n _ := fill 0x3A n;
  aligned4 bf := match bf with B_I | B_value | B_packed => true | _ => false end
|}.
End Unit.

(** * It keeps the contract *)

Section Contract.
#[local] Existing Instance toy_hash_api.
#[local] Existing Instance demo_hw.
#[local] Existing Instance demo_mmio.

Lemma demo_hash_ok x : chain_value (hash_of demo_alg x).
Proof. split; [apply hash_of_len | apply hash_of_bytes]; eexists; reflexivity. Qed.

Lemma demo_chain_ok I_ q i start steps v : chain_value v -> chain_value (chain_spec demo_alg I_ q i start steps v).
Proof. intros Hv. unfold chain_spec. apply (for_z_inv _ (fun _ => chain_value)); [exact Hv | intros; apply demo_hash_ok]. Qed.

Lemma reg_bytes_value a base : chain_value (reg_bytes a base 8).
Proof. split; [reflexivity |]. apply concat_bytes. intros i _. apply store_le32_bytes. Qed.

Lemma out_exec a : chain_value (demo_output a) -> out_of (demo_exec a) = demo_output a.
Proof. intros [Hl Hb]. exact (reg_bytes_block [] (reg a) _ _ LMS_MMIO_REG_OUTPUT (demo_output a) 8 Hb Hl). Qed.

(** The reference depends on a parameter set through its width and its number of chains. *)
Lemma demo_op_found op a : task op a ->
  exists op', demo_op_of (reg a LMS_MMIO_REG_ARG_W) = Some op' /\ ots_p_w op' = ots_p_w op /\ ots_p_p op' = ots_p_p op.
Proof.
  intros [Hop <-]. destruct (lmots_params_of_wf _ op Hop) as [Hwf _].
  destruct (wf_ots_cases op Hwf) as [(-> & -> & _) | [(-> & -> & _) | [(-> & -> & _) | (-> & -> & _)]]];
    (eexists; split; [reflexivity | split; reflexivity]).
Qed.

Lemma demo_values_ok op a : task op a ->
  demo_values a = ots_sign_values demo_alg op (id_of a) demo_hw_seed (q_of a) (coef_of op a) /\
  len (demo_values a) = 4 * (ots_p_p op * 8) /\ Forall is_byte (demo_values a) /\ 0 <= ots_p_p op.
Proof.
  intros Ht. destruct (demo_op_found op a Ht) as (op' & E & Ew & Ep). destruct Ht as [Hop _].
  pose proof (op_widths op (proj1 (lmots_params_of_wf _ op Hop))) as (_ & Hp & _).
  assert (Ev : demo_values a = ots_sign_values demo_alg op (id_of a) demo_hw_seed (q_of a) (coef_of op a)).
  { unfold demo_values. rewrite E. unfold ots_sign_values, per_chain, coef_of. rewrite Ew, Ep. reflexivity. }
  split; [exact Ev |]. rewrite Ev. split; [| split; [| lia]].
  - unfold ots_sign_values, per_chain. rewrite concat_len; [unfold LMS_N; lia | lia |].
    intros j _. apply demo_chain_ok, demo_hash_ok.
  - apply concat_bytes. intros j _. apply demo_chain_ok, demo_hash_ok.
Qed.

Lemma demo_answers a : answers demo_alg demo_hw_seed a (demo_exec a).
Proof.
  split.
  - reflexivity.
  - intros Ha _. unfold asks in Ha. assert (E : demo_output a = chain_spec demo_alg (id_of a) (q_of a) (i_of a) (start_of a) (steps_of a) (reg_bytes a LMS_MMIO_REG_INPUT 8)).
    { unfold demo_output. cbv zeta. rewrite !Ha. reflexivity. }
    rewrite out_exec; rewrite E; [reflexivity | apply demo_chain_ok, reg_bytes_value].
  - intros Ha _ _. unfold asks in Ha. assert (E : demo_output a = chain_spec demo_alg (id_of a) (q_of a) (i_of a) (start_of a) (steps_of a)
      (private_value_spec demo_alg (id_of a) demo_hw_seed (q_of a) (i_of a))).
    { unfold demo_output. cbv zeta. rewrite !Ha. reflexivity. }
    rewrite out_exec; rewrite E; [reflexivity | apply demo_chain_ok, demo_hash_ok].
  - intros Ha _. unfold asks in Ha. assert (E : demo_output a = randomizer_spec demo_alg (id_of a) demo_hw_seed (q_of a)).
    { unfold demo_output. cbv zeta. rewrite !Ha. reflexivity. }
    rewrite out_exec; rewrite E; [reflexivity | apply demo_hash_ok].
  - intros op Ha _ Ht. unfold asks in Ha. destruct (demo_op_found op a Ht) as (op' & Eop & Ew & Ep).
    assert (E : demo_output a = ots_pub demo_alg op (id_of a) demo_hw_seed (q_of a)).
    { unfold demo_output. cbv zeta. rewrite !Ha, Eop. change (ots_pub demo_alg op' (id_of a) demo_hw_seed (q_of a) = ots_pub demo_alg op (id_of a) demo_hw_seed (q_of a)).
      unfold ots_pub, per_chain, max_digit. rewrite Ew, Ep. reflexivity. }
    rewrite out_exec; rewrite E; [reflexivity | apply demo_hash_ok].
  - intros op Ha _ Ht. unfold asks in Ha. destruct (demo_values_ok op a Ht) as (Ev & Hl & Hb & Hp0). rewrite <- Ev.
    apply word_bytes_data; [exact Hb | exact Hl |]. intros k Hk. cbn [ram demo_exec]. unfold demo_ram. rewrite Ha, Hl.
    rewrite (Z.mul_comm 4 (ots_p_p op * 8)), Z.div_mul, Z.mul_1_l by lia. cbn [Z.eqb]. change (_ =? _) with true. cbv iota.
    cbv beta. rewrite (proj2 (Z.leb_le _ _)), (proj2 (Z.ltb_lt _ _)) by lia.
    cbn [andb]. f_equal. lia.
  - intros op Ha Ht. unfold asks in Ha. destruct (demo_op_found op a Ht) as (op' & Eop & Ew & Ep).
    assert (E : demo_output a = ots_candidate demo_alg op (id_of a) (q_of a) (coef_of op a) (values_of op a)).
    { unfold demo_output. cbv zeta. rewrite !Ha, Eop.
      change (ots_candidate demo_alg op' (id_of a) (q_of a) (coef_of op' a) (values_of op' a) = ots_candidate demo_alg op (id_of a) (q_of a) (coef_of op a) (values_of op a)).
      unfold ots_candidate, per_chain, max_digit, coef_of, values_of. rewrite Ew, Ep. reflexivity. }
    rewrite out_exec; rewrite E; [reflexivity | apply demo_hash_ok].
Qed.

Lemma demo_read_ok offset a :
  accel_read demo_alg demo_hw_seed 1 demo_caps a offset (fst (demo_read offset a)) (snd (demo_read offset a)).
Proof.
  unfold demo_read. destruct (Z.eqb_spec offset LMS_MMIO_REG_VERSION) as [-> | N1]; [constructor |].
  destruct (Z.eqb_spec offset LMS_MMIO_REG_CAPABILITY) as [-> | N2]; [constructor |].
  destruct (Z.eqb_spec offset LMS_MMIO_REG_STATUS) as [-> | N3].
  { destruct (phase a) eqn:E; cbn [fst snd].
    - apply read_ready, E.
    - apply read_done; [exact E | split; [reflexivity | split; [reflexivity | discriminate]] | apply demo_answers].
    - apply read_finished; [exact E | split; [reflexivity | split; [reflexivity | discriminate]]].
    - apply read_faulted; [exact E | split; [reflexivity | discriminate]]. }
  destruct (Z.eqb_spec offset LMS_MMIO_REG_TASK_DATA) as [-> | N4]; [constructor |]. cbn [fst snd].
  destruct (decide (LMS_MMIO_REG_OUTPUT <= offset < LMS_MMIO_REG_OUTPUT + 32)) as [H | H].
  - apply read_output, H.
  - apply read_other; assumption.
Qed.

Lemma demo_bus_contract : bus_contract demo_bus snd demo_alg demo_hw_seed 1 demo_caps.
Proof.
  split.
  - eexists. reflexivity.
  - eexists. reflexivity.
  - intros offset d. cbn. unfold direct_read32. cbn. rewrite Z.add_simpl_l. pose proof (demo_read_ok offset (snd d)) as H.
    destruct (demo_read offset (snd d)) as [v a]. split; [exact H | reflexivity].
  - intros offset value d. cbn. rewrite Z.add_simpl_l. split; reflexivity.
  - reflexivity.
  - intros f ctx d. split; [split; [reflexivity | apply fill_bytes; unfold is_byte; lia] | split; reflexivity].
  - intros p d. split; [reflexivity | apply fill_bytes; unfold is_byte; lia].
  - reflexivity.
Qed.
End Contract.
