(* ===== verification/MmioBackends.v ===== *)
(** The backends the driver of src/lms_mmio.c registers: on an accelerator that keeps its
    contract each returns what the library's software would have computed or refuses, and
    registering and removing them, in any order, keeps the library's contract for backends. *)

From S2P Require Import Prelude Types HashApi Params Winternitz Spec LmOts LmOtsCorrect MmioRegs Mmio Accel MmioPack MmioCorrect.

(** * The backends *)

Section Backends.
Context `{P : Platform} `{Hh : HashApi} `{Mm : !Mmio}.
Variable b : lms_mmio_bus_t.
Variable acc : dev -> accel.
Variable alg : lms_hash_alg_t.
Variable seed : bytes.
Variables version caps : Z.
Hypothesis Hc : bus_contract b acc alg seed version caps.
Variable p : ptr.
Hypothesis Hp : p <> NULL.
Abbreviation good := (good b alg).
Abbreviation ready := (ready p good).

(** [m] returns a value of [Q] or refuses as invalid, and the client stays in service. *)
Definition serves {A} (m : C A) (Q : A -> Prop) : Prop :=
  forall w, ready w -> wp m (fun x w' => Q x /\ ready w') (fun e w' => e = LMS_ERR_INVALID /\ ready w') w.

Lemma serves_ret {A} (x : A) (Q : A -> Prop) : Q x -> serves (mret x) Q.
Proof. intros HQ w Hw. split; assumption. Qed.

Lemma serves_bind {A B} (m : C A) (f : A -> C B) Q R :
  serves m Q -> (forall x, Q x -> serves (f x) R) -> serves (m ≫= f) R.
Proof.
  intros Hm Hf w Hw. apply wp_bind. eapply wp_conseq; [apply (Hm w Hw) | | auto].
  intros x w' [HQ Hw']. exact (Hf x HQ w' Hw').
Qed.

Lemma serves_status {A} (m : DM A) Q :
  (forall a, drives acc p good a m (fun x _ => Q x)) -> serves (lms_status m) Q.
Proof.
  intros Hm w Hw. specialize (Hm _ w Hw eq_refl). unfold lms_status, wp in *. destruct (m w) as [[x | e] w']; [exact Hm |].
  destruct Hm as [He Hw']. destruct e; try (split; [reflexivity | exact Hw']). destruct (He eq_refl).
Qed.

Lemma serves_output (m : DM (bytes * Z)) Q :
  (forall a, drives acc p good a m (fun '(out, _) _ => Q out)) -> serves (lms_output m) Q.
Proof.
  intros Hm. unfold lms_output. eapply serves_bind.
  - apply (serves_status _ (fun '(out, _) => Q out)). intros a. eapply drives_post; [apply Hm |]. intros [out cy] a' H. exact H.
  - intros [out cy] H. apply serves_ret, H.
Qed.

Lemma serves_client : serves (get_client p) good.
Proof. intros w Hw. split; [apply Hw | exact Hw]. Qed.

Lemma serves_alg hash_alg : serves (check_hash_alg p hash_alg) (fun _ => hash_alg = alg).
Proof.
  unfold check_hash_alg. eapply serves_bind.
  - apply (serves_status _ (fun desc => desc_hash_alg desc = alg)). intros a. unfold bound_desc.
    eapply drives_bind; [apply drives_client |]. intros c ? [Hg ->]. destruct (good_desc _ _ c Hg) as (desc & -> & Hd).
    apply drives_ret, Hd.
  - intros desc Hd. destruct (bool_decide_reflect (hash_alg = desc_hash_alg desc)) as [E | E]; cbn [negb guard_err].
    + apply serves_ret. congruence.
    + intros w Hw. split; [reflexivity | exact Hw].
Qed.

(** A call of a backend, on the device. *)
Definition backend_ok {A} (o : result lms_status_t A * dev) (Q : A -> Prop) : Prop :=
  match fst o with Ok x => Q x | Err e => e = LMS_ERR_INVALID end /\ good (client_at p (snd o)).

Lemma on_statics_at {A} (m : C A) Q d :
  (ready (initial_world d) -> wp m (fun x w' => Q x /\ ready w') (fun e w' => e = LMS_ERR_INVALID /\ ready w') (initial_world d)) ->
  good (client_at p d) -> backend_ok (on_statics m d) Q.
Proof.
  intros Hm Hd. unfold on_statics, wp, backend_ok in *.
  assert (Hr : ready (initial_world d)) by (split; [split; discriminate | exact Hd]).
  specialize (Hm Hr). destruct (m (initial_world d)) as [[x | e] w']; destruct Hm as [H1 H2]; (split; [exact H1 | exact (proj2 H2)]).
Qed.

Lemma on_statics_ok {A} (m : C A) Q d : serves m Q -> good (client_at p d) -> backend_ok (on_statics m d) Q.
Proof. intros Hm. apply on_statics_at. exact (Hm _). Qed.

Variable I_ : bytes.
Hypothesis HI : ident I_.

Lemma mmio_keygen_ok hash_alg op q d :
  good (client_at p d) -> lmots_params_of (ots_p_type op) = Some op ->
  backend_ok (lmots_mmio_keygen p I_ hash_alg q (ots_p_type op) d) (fun out => out = ots_pub hash_alg op I_ seed q).
Proof.
  intros Hd Hop. apply on_statics_ok; [| exact Hd]. eapply serves_bind; [apply serves_alg |]. intros [] ->.
  eapply serves_bind; [apply serves_client |]. intros c _. apply serves_output. intros a.
  apply (keygen_ok b acc alg seed version caps Hc); [exact HI | exact Hop].
Qed.

Lemma mmio_sign_ok hash_alg op q cs d :
  good (client_at p d) -> lmots_params_of (ots_p_type op) = Some op -> digits_ok op cs ->
  backend_ok (lmots_mmio_sign p I_ hash_alg q (ots_p_type op) cs d)
    (fun out => out = ots_sign_values hash_alg op I_ seed q (rd cs)).
Proof.
  intros Hd Hop Hcs. apply on_statics_ok; [| exact Hd]. eapply serves_bind; [apply serves_alg |]. intros [] ->.
  eapply serves_bind; [apply serves_client |]. intros c Hg. rewrite (good_coef _ _ c Hg). cbn [Z.eqb negb].
  apply serves_output. intros a. apply (sign_ok b acc alg seed version caps Hc); [exact HI | exact Hop | exact Hcs].
Qed.

Lemma mmio_verify_ok I hash_alg op q cs y d :
  good (client_at p d) -> lmots_params_of (ots_p_type op) = Some op ->
  ident I -> digits_ok op cs -> chain_values op y ->
  backend_ok (lmots_mmio_verify p I hash_alg q (ots_p_type op) cs y d)
    (fun out => out = ots_candidate hash_alg op I q (rd cs) y).
Proof.
  intros Hd Hop HI' Hcs Hy. apply on_statics_ok; [| exact Hd]. eapply serves_bind; [apply serves_alg |]. intros [] ->.
  eapply serves_bind; [apply serves_client |]. intros c Hg. rewrite (good_coef _ _ c Hg). cbn [Z.eqb negb].
  apply serves_output. intros a. apply (verify_command_ok b acc alg seed version caps Hc); assumption.
Qed.

Lemma mmio_chain_ok I hash_alg q i start steps v d :
  good (client_at p d) -> ident I -> chain_segment i start steps -> chain_value v ->
  backend_ok (lmots_mmio_chain p I hash_alg q i start steps v d)
    (fun out => out = chain_spec hash_alg I q i start steps v).
Proof.
  intros Hd HI' Hseg Hv. apply on_statics_ok; [| exact Hd]. eapply serves_bind; [apply serves_alg |]. intros [] ->.
  apply serves_output. intros a. apply (chain_ok b acc alg seed version caps Hc); assumption.
Qed.

Lemma mmio_derive_ok hash_alg q i start steps d :
  good (client_at p d) -> chain_segment i start steps ->
  backend_ok (lmots_mmio_sign_derive p I_ hash_alg q i start steps d)
    (fun out => out = chain_spec hash_alg I_ q i start steps (private_value_spec hash_alg I_ seed q i)).
Proof.
  intros Hd Hseg. apply on_statics_ok; [| exact Hd]. eapply serves_bind; [apply serves_alg |]. intros [] ->.
  apply serves_output. intros a. apply (derive_chain_ok b acc alg seed version caps Hc); assumption.
Qed.

(** What the randomizer is, for the source the client has at the call: the slot, else what the
    TRNG filled in, else the value derived on the device, which is that of the software. *)
Definition randomizer_from (q : Z) (d : dev) (out : bytes) : Prop :=
  let c := client_at p d in
  if negb (randomizer_c_slot c =? NULL) then out = bytes_at (randomizer_c_slot c) LMS_N d
  else if negb (trng_fill_c c =? NULL) then fst (extern_trng_fill (trng_fill_c c) (trng_context c) d) = (0, out)
  else out = randomizer_spec alg I_ seed q.

Lemma randomizer_c_ok q w : available alg -> ready w ->
  wp (lmots_mmio_get_randomizer_c p I_ q) (fun out w' => (chain_value out /\ randomizer_from q (device w) out) /\ ready w')
    (fun e w' => e = LMS_ERR_INVALID /\ ready w') w.
Proof.
  intros Ha Hw. unfold lmots_mmio_get_randomizer_c, randomizer_from. apply wp_bind. change (wp (get_client p) ?Q ?R w) with (Q (client_at p (device w)) w).
  cbv beta zeta. set (c := client_at p (device w)).
  destruct (negb (randomizer_c_slot c =? NULL)).
  { split; [split; [apply (contract_bytes _ _ _ _ _ _ Hc) | reflexivity] | exact Hw]. }
  destruct (negb (trng_fill_c c =? NULL)).
  { unfold wp. pose proof (contract_trng _ _ _ _ _ _ Hc (trng_fill_c c) (trng_context c) (device w)) as H.
    destruct (extern_trng_fill _ _ _) as [[status out] d']. destruct H as (H1 & _ & H2).
    assert (Hw' : ready (w {{ device := d' }})) by (apply ready_device; [exact Hw | rewrite H2; apply Hw]).
    destruct (Z.eqb_spec status 0) as [-> |]; (split; [first [split; [exact H1 | reflexivity] | reflexivity] | exact Hw']). }
  revert w Hw c. intros w Hw c. pose proof (serves_output (lms_mmio_derive_randomizer p 0 (Some I_) q local_ptr)
    (fun out => chain_value out /\ out = randomizer_spec alg I_ seed q)) as H. apply H; [| exact Hw].
  intros a. eapply drives_post; [apply (derive_randomizer_ok b acc alg seed version caps Hc); exact HI |].
  intros [out cy] a' ->. split; [split; [apply hash_of_len, Ha | apply hash_of_bytes, Ha] | reflexivity].
Qed.

Lemma check_hash_alg_reads hash_alg w : snd (check_hash_alg p hash_alg w) = w.
Proof.
  unfold check_hash_alg, lms_status, bound_desc, mbind, M_bind, get_client. cbn.
  destruct (hash_desc _); cbn; [| reflexivity]. destruct (negb _); reflexivity.
Qed.

Lemma mmio_randomizer_ok hash_alg q d :
  good (client_at p d) -> available hash_alg ->
  backend_ok (lmots_mmio_randomizer p I_ hash_alg q d) (fun out => chain_value out /\ randomizer_from q d out).
Proof.
  intros Hd Ha. apply on_statics_at; [| exact Hd]. intros Hr. apply wp_bind.
  pose proof (serves_alg hash_alg _ Hr) as H. pose proof (check_hash_alg_reads hash_alg (initial_world d)) as E.
  unfold wp at 1. unfold wp in H. destruct (check_hash_alg p hash_alg (initial_world d)) as [[[] | e] w']; [| exact H].
  cbn [snd] in E. subst w'. destruct H as [-> _]. exact (randomizer_c_ok q _ Ha Hr).
Qed.
End Backends.

(** * Registering and removing them *)

Section Enable.
Context `{P : Platform} `{Hh : HashApi} `{Mm : !Mmio}.
Variable b : lms_mmio_bus_t.
Variable acc : dev -> accel.
Variable alg : lms_hash_alg_t.
Variable seed : bytes.
Variables version caps : Z.
Hypothesis Hc : bus_contract b acc alg seed version caps.
Variable p : ptr.
Hypothesis Hp : p <> NULL.
Abbreviation client w := (client_at p (device w)).

(** A client as [lms_mmio_client_init] leaves it without fall-back, or in service. *)
Record wired (c : lms_mmio_client_t) : Prop := {
  wired_bus : bus c = b;
  wired_fallback : allow_fallback c = 0;
  wired_coef : coef_ready c = 0;
  wired_probed : probed c <> 0 -> good b alg c
}.

(** What changes is the client only. *)
Definition same_statics (w w' : world) : Prop := exists d, w' = w {{ device := d }}.

Lemma same_statics_refl w : same_statics w w.
Proof. exists (device w). destruct w. reflexivity. Qed.

Lemma same_statics_trans w1 w2 w3 : same_statics w1 w2 -> same_statics w2 w3 -> same_statics w1 w3.
Proof. intros [d1 ->] [d2 ->]. exists d2. destruct w1. reflexivity. Qed.

Lemma update_run {E} (f : lms_mmio_client_t -> lms_mmio_client_t) w :
  exists w', (update_client p f : M world E unit) w = (Ok tt, w') /\ same_statics w w' /\ client w' = f (client w).
Proof.
  eexists. split; [reflexivity |]. split; [eexists; reflexivity |]. destruct w. cbn. apply client_set.
Qed.

Lemma read_run o w : bus (client w) = b ->
  exists v w', bus_read p o w = (Ok v, w') /\ same_statics w w' /\ client w' = client w /\
    accel_read alg seed version caps (acc (device w)) o v (acc (device w')).
Proof.
  intros Hb. unfold bus_read, mbind, M_bind, get_client. rewrite Hb.
  destruct (bus_reads _ _ _ _ _ _ Hc) as [f Ef]. pose proof (contract_read _ _ _ _ _ _ Hc o (device w)) as H. rewrite Ef in *.
  destruct f; destruct H as [H1 H2]; (eexists _, _; split; [reflexivity |]; split; [eexists; reflexivity |]; destruct w; cbn in *; auto).
Qed.

Lemma probe_step w : wired (client w) ->
  wp (ensure_probe p) (fun _ w' => same_statics w w' /\ good b alg (client w'))
    (fun e w' => e <> MMIO_UNDEFINED /\ probed (client w) = 0 /\ same_statics w w' /\ wired (client w')) w.
Proof.
  intros [W1 W2 W3 W4]. unfold ensure_probe. unfold mbind at 1, M_bind at 1, get_client, wp.
  destruct (Z.eqb_spec (probed (client w)) 0) as [E0 | E0]; cbn [negb].
  2: { split; [apply same_statics_refl | apply W4, E0]. }
  unfold lms_mmio_probe. destruct (Z.eqb_spec p NULL) as [| _]; [contradiction |].
  rewrite (bind_ok _ _ _ _ _ (eq_refl : guard_err false LMS_MMIO_ERR_INVALID w = (Ok tt, w))).
  rewrite (bind_ok _ _ _ _ _ (eq_refl : get_client p w = (Ok (client w), w))).
  destruct (bus_reads _ _ _ _ _ _ Hc) as [f Ef]. rewrite W1, Ef, bool_decide_false by discriminate.
  rewrite (bind_ok _ _ _ _ _ (eq_refl : guard_err false LMS_MMIO_ERR_INVALID w = (Ok tt, w))).
  destruct (read_run LMS_MMIO_REG_VERSION w W1) as (v1 & w1 & E1 & S1 & C1 & R1). rewrite (bind_ok _ _ _ _ _ E1).
  destruct (read_run LMS_MMIO_REG_CAPABILITY w1 ltac:(congruence)) as (v2 & w2 & E2 & S2 & C2 & R2). rewrite (bind_ok _ _ _ _ _ E2).
  apply read_version_inv in R1 as [-> _]. apply read_caps_inv in R2 as [-> _].
  destruct (update_run (E := lms_mmio_status_t) (fun c => c {{ probed := 0; capabilities := caps; hash_desc := None }}) w2)
    as (w3 & E3 & S3 & C3). rewrite (bind_ok _ _ _ _ _ E3). rewrite C2, C1 in C3.
  assert (S03 : same_statics w w3) by eauto using same_statics_trans.
  assert (Hbound : forall desc, desc_hash_alg desc = alg -> forall w4,
    client w4 = (client w3) {{ hash_desc := Some desc }} -> same_statics w w4 ->
    match (c ← get_client p; match hash_desc c with
           | None => fail LMS_MMIO_ERR_PROTOCOL
           | Some _ => update_client p (fun c => c {{ probed := 1 }})
           end : DM unit) w4 with
    | (Ok _, w') => same_statics w w' /\ good b alg (client w')
    | (Err e, w') => e <> MMIO_UNDEFINED /\ probed (client w) = 0 /\ same_statics w w' /\ wired (client w')
    end).
  { intros desc Hd w4 C4 S4. unfold mbind, M_bind, get_client.
    assert (Eb : hash_desc (client w4) = Some desc) by (rewrite C4; reflexivity). rewrite Eb.
    destruct (update_run (E := lms_mmio_status_t) (fun c => c {{ probed := 1 }}) w4) as (w5 & E5 & S5 & C5).
    rewrite E5. split; [eauto using same_statics_trans |]. rewrite C5, C4, C3.
    split; cbn; [exact W1 | discriminate | eauto | exact W2 | exact W3]. }
  cbn [desc_probe_cap desc_version LMS_MMIO_HASH_DESC_SHAKE256 LMS_MMIO_HASH_DESC_SHA256].
  pose proof (contract_alg _ _ _ _ _ _ Hc) as Halg.
  destruct (negb ((caps .& LMS_MMIO_CAP_SHAKE256) =? 0) && (version =? 1)) eqn:Eshake.
  { destruct (update_run (E := lms_mmio_status_t) (fun c => c {{ hash_desc := Some LMS_MMIO_HASH_DESC_SHAKE256 }}) w3) as (w4 & E4 & S4 & C4).
    rewrite (bind_ok _ _ _ _ _ E4). apply (Hbound LMS_MMIO_HASH_DESC_SHAKE256); eauto using same_statics_trans. }
  destruct (negb ((caps .& LMS_MMIO_CAP_SHA256) =? 0) && (1 <=? version) && (version <=? 7)).
  { destruct (update_run (E := lms_mmio_status_t) (fun c => c {{ hash_desc := Some LMS_MMIO_HASH_DESC_SHA256 }}) w3) as (w4 & E4 & S4 & C4).
    rewrite (bind_ok _ _ _ _ _ E4). apply (Hbound LMS_MMIO_HASH_DESC_SHA256); eauto using same_statics_trans. }
  rewrite (bind_ok _ _ _ _ _ (eq_refl : (mret tt : DM unit) w3 = (Ok tt, w3))).
  rewrite (bind_ok _ _ _ _ _ (eq_refl : get_client p w3 = (Ok (client w3), w3))).
  assert (Eb : hash_desc (client w3) = None) by (rewrite C3; reflexivity). rewrite Eb.
  split; [discriminate |]. split; [exact E0 |]. split; [exact S03 |]. rewrite C3.
  split; cbn; [exact W1 | exact W2 | exact W3 | contradiction].
Qed.

Variable I_ : bytes.
Hypothesis HI : ident I_.
(** The rest of the library takes care of the device as long as the client is in service. *)
Hypothesis Hok : forall d, dev_ok d <-> good b alg (client_at p d).
Abbreviation sound := (backends_sound True I_ seed).

(** What holds between two calls of the driver and of the library. *)
Record in_service (w : world) : Prop := {
  service_caches : caches_ok w;
  service_client : wired (client w);
  service_sound : sound (bk w);
  service_coef : slot_fn (coef_backend (bk w)) = None;
  service_good : good b alg (client w) \/ bk w = no_backends
}.

Lemma sound_of_ok {A} (o : result lms_status_t A * dev) (Q : A -> Prop) : backend_ok b alg p o Q -> sound_outcome o Q.
Proof. intros [H1 H2]. split; [destruct (fst o); [exact H1 | exact I] | apply Hok, H2]. Qed.

Lemma chain_sound : chain_backend_sound lmots_mmio_chain p.
Proof. intros I alg' q i start steps v d _ Hd HI' Hs Hv. apply sound_of_ok. eapply mmio_chain_ok; eauto; apply Hok, Hd. Qed.

Lemma derive_sound : derive_backend_sound I_ seed lmots_mmio_sign_derive p.
Proof. intros alg' q i start steps d _ Hd Hs. apply sound_of_ok. eapply mmio_derive_ok; eauto; apply Hok, Hd. Qed.

Lemma keygen_sound : keygen_backend_sound I_ seed lmots_mmio_keygen p.
Proof. intros alg' op q d _ Hd Hop. apply sound_of_ok. eapply mmio_keygen_ok; eauto; apply Hok, Hd. Qed.

Lemma randomizer_sound : randomizer_backend_sound I_ lmots_mmio_randomizer p.
Proof.
  intros alg' q d Ha Hd.
  assert (H : backend_ok b alg p (lmots_mmio_randomizer p I_ alg' q d)
                (fun out => chain_value out /\ randomizer_from alg seed p I_ q d out))
    by (eapply mmio_randomizer_ok; eauto; apply Hok, Hd).
  destruct (sound_of_ok _ _ H) as [H1 H2]. split; [destruct (fst _); [exact (proj1 H1) | exact I] | exact H2].
Qed.

Lemma sign_sound : sign_backend_sound I_ seed lmots_mmio_sign p.
Proof. intros alg' op q cs d _ Hd Hop Hcs. apply sound_of_ok. eapply mmio_sign_ok; eauto; apply Hok, Hd. Qed.

Lemma verify_sound : verify_backend_sound lmots_mmio_verify p.
Proof. intros I alg' op q cs y d _ Hd Hop HI' Hcs Hy. apply sound_of_ok. eapply mmio_verify_ok; eauto; apply Hok, Hd. Qed.

Lemma slot_sound_set {fn} (o : option fn) c Q : (forall f, o = Some f -> Q f c) -> slot_sound True (slot_set o c) Q.
Proof. intros H f Hf. split; [exact I |]. cbn in *. subst o. exact (H f eq_refl). Qed.

(** [f] keeps a sound set of backends sound. *)
Definition keeps_sound (f : backends -> backends) : Prop :=
  forall B, sound B -> slot_fn (coef_backend B) = None -> sound (f B) /\ slot_fn (coef_backend (f B)) = None.

(** [m], from a client in service or not, ends in order, and in service when it succeeds. *)
Definition enables (G : Prop) (m : DM unit) : Prop :=
  forall w, in_service w -> (G -> good b alg (client w)) ->
    wp m (fun _ w' => in_service w' /\ good b alg (client w')) (fun _ w' => in_service w') w.

Lemma good_wired c : good b alg c -> wired c.
Proof. intros Hg. split; [apply Hg | apply Hg | apply Hg | intros _; exact Hg]. Qed.

Lemma service_device w d : in_service w -> wired (client_at p d) -> (good b alg (client w) -> good b alg (client_at p d)) ->
  in_service (w {{ device := d }}).
Proof. intros [[K1 K1'] K2 K3 K4 K5] Hw Hg. destruct w. split; cbn in *; [split | | | |]; tauto. Qed.

Lemma enables_guard (G : Prop) c e m : enables G m -> enables G (guard_err c e ;; m).
Proof. intros Hm w Hw Hg. destruct c; [exact Hw | exact (Hm w Hw Hg)]. Qed.

Lemma enables_client (G : Prop) f : (forall c, enables G (f c)) -> enables G (get_client p ≫= f).
Proof. intros Hf w Hw Hg. exact (Hf _ w Hw Hg). Qed.

Lemma enables_probe (G : Prop) m : enables True m -> enables G (ensure_probe p ;; m).
Proof.
  intros Hm w Hw _. apply wp_bind. eapply wp_conseq; [apply (probe_step w), Hw | |].
  - intros _ w' [[d ->] Hd]. change (good b alg (client_at p d)) in Hd. apply Hm; [| intros _; exact Hd].
    apply service_device; [exact Hw | auto using good_wired | intros _; exact Hd].
  - intros e w' (_ & E0 & [d ->] & Hd). change (wired (client_at p d)) in Hd. apply service_device; [exact Hw | exact Hd |].
    intros Hg. destruct (good_probed _ _ _ Hg). exact E0.
Qed.

Lemma enables_key m key : enables True m -> enables True (update_client p (fun c => c {{ key_handle := key }}) ;; m).
Proof.
  intros Hm w Hw Hg. apply wp_bind. specialize (Hg I). unfold wp.
  destruct (update_run (E := lms_mmio_status_t) (fun c => c {{ key_handle := key }}) w) as (w' & E & [d ->] & Hd).
  rewrite E. change (client_at p d = (client w) {{ key_handle := key }}) in Hd.
  assert (Hg' : good b alg (client_at p d)) by (rewrite Hd; destruct Hg; split; assumption).
  apply Hm; [| intros _; exact Hg']. apply service_device; [exact Hw | auto using good_wired | auto].
Qed.

Lemma service_set w f : in_service w -> keeps_sound f -> good b alg (client w) \/ f no_backends = no_backends ->
  in_service (w {{ bk := f (bk w) }}).
Proof.
  intros [[K1 K1'] K2 K3 K4 K5] Hf Hd. destruct (Hf _ K3 K4) as [H1 H2]. destruct w; split; cbn in *; try assumption; [split; assumption |].
  destruct Hd as [Hd | Hd]; [auto |]. destruct K5 as [K5 | ->]; auto.
Qed.

Lemma enables_set f : keeps_sound f -> enables True (set_backend (set_backends f)).
Proof. intros Hf w Hw Hg. specialize (Hg I). split; [| destruct w; exact Hg]. apply service_set; auto. Qed.

Lemma enables_then m m' : enables True m -> enables True m' -> enables True (m ;; m').
Proof.
  intros Hm Hm' w Hw Hg. apply wp_bind. eapply wp_conseq; [apply (Hm w Hw Hg) | | auto]. intros _ w' [H1 H2]. apply Hm'; auto.
Qed.

Lemma enables_when (c : bool) m : enables True m -> enables True (if c then m else mret tt).
Proof. intros Hm. destruct c; [exact Hm |]. intros w Hw Hg. split; auto. Qed.

Lemma enables_end (G : Prop) m : enables True m -> G -> enables G m.
Proof. intros Hm HG w Hw Hg. apply Hm; auto. Qed.

(** Registering a sound backend, or none, keeps the set sound. *)
Ltac set_slot := intros [] [[] ? ? ?] ?; cbn in *; split; [| assumption];
  split; [split | ..]; cbn; try assumption; try (intros; congruence);
  apply slot_sound_set; intros ? [= <-].

Lemma set_keygen : keeps_sound (fun B => B {{ keygen_backend := slot_set (Some lmots_mmio_keygen) p }}).
Proof. set_slot. exact keygen_sound. Qed.

Lemma set_sign : keeps_sound (fun B => B {{ sign_backend := slot_set (Some lmots_mmio_sign) p }}).
Proof. set_slot. exact sign_sound. Qed.

Lemma set_randomizer f : f = lmots_mmio_randomizer ->
  keeps_sound (fun B => B {{ sign_randomizer_backend := slot_set (Some f) p }}).
Proof. intros ->. set_slot. exact randomizer_sound. Qed.

Lemma set_verify : keeps_sound (fun B => B {{ verify_backend := slot_set (Some lmots_mmio_verify) p }}).
Proof. set_slot. exact verify_sound. Qed.

Lemma set_verify_chain : keeps_sound (fun B => B {{ verify_chain_backend := slot_set (Some lmots_mmio_chain) p }}).
Proof. set_slot. exact chain_sound. Qed.

Lemma set_keygen_chain : keeps_sound (fun B => B {{ keygen_chain_backend := slot_set (Some lmots_mmio_chain) p }}).
Proof. set_slot. exact chain_sound. Qed.

Lemma set_sign_chain : keeps_sound (fun B => B {{ sign_chain_backend := slot_set (Some lmots_mmio_chain) p }}).
Proof. set_slot. exact chain_sound. Qed.

Lemma set_keygen_derive : keeps_sound (fun B => B {{ keygen_derive_backend := slot_set (Some lmots_mmio_sign_derive) p }}).
Proof. set_slot. exact derive_sound. Qed.

Lemma set_sign_derive : keeps_sound (fun B => B {{ sign_derive_backend := slot_set (Some lmots_mmio_sign_derive) p }}).
Proof. set_slot. exact derive_sound. Qed.

(** The calls that register and remove the backends. *)
Inductive mmio_call :=
| KeygenEnable (key : Z)
| SignEnable (key : Z)
| VerifyEnable
| KeygenEnableInsecure
| SignEnableInsecure
| KeygenDisable
| SignDisable
| VerifyDisable.

Definition run_call (c : mmio_call) (w : world) : world :=
  match c with
  | KeygenEnable key => snd (lms_mmio_lmots_keygen_enable p key w)
  | SignEnable key => snd (lms_mmio_lmots_sign_enable p key w)
  | VerifyEnable => snd (lms_mmio_lmots_verify_enable p w)
  | KeygenEnableInsecure => snd (lms_mmio_lmots_keygen_enable_insecure p w)
  | SignEnableInsecure => snd (lms_mmio_lmots_sign_enable_insecure p w)
  | KeygenDisable => snd (lms_mmio_lmots_keygen_disable w)
  | SignDisable => snd (lms_mmio_lmots_sign_disable w)
  | VerifyDisable => snd (lms_mmio_lmots_verify_disable w)
  end.

Lemma enabled (m : DM unit) w : enables False m -> in_service w -> in_service (snd (m w)).
Proof.
  intros Hm Hw. specialize (Hm w Hw (False_ind _)). unfold wp in Hm. destruct (m w) as [[[] | e] w']; [exact (proj1 Hm) | exact Hm].
Qed.

Abbreviation dropped := (slot_set None NULL).

Ltac drop_slots := intros [] [[] ? ? ?] ?; cbn in *; split; [| assumption];
  split; [split | ..]; cbn; try assumption; try discriminate; intros; congruence.

(** [m] drops backends. *)
Definition drops (m : C unit) : Prop :=
  exists f, (forall w, snd (m w) = w {{ bk := f (bk w) }}) /\ keeps_sound f /\ f no_backends = no_backends.

Ltac drops_by f := exists f; split; [intros [? ? ? [] ?]; reflexivity | split; [drop_slots | reflexivity]].

Lemma keygen_disable_drops : drops lms_mmio_lmots_keygen_disable.
Proof. drops_by (fun B => B {{ keygen_chain_backend := dropped; keygen_derive_backend := dropped; keygen_backend := dropped }}). Qed.

Lemma sign_disable_drops : drops lms_mmio_lmots_sign_disable.
Proof.
  drops_by (fun B => B {{ sign_chain_backend := dropped; sign_derive_backend := dropped;
                          sign_randomizer_backend := dropped; sign_backend := dropped }}).
Qed.

Lemma verify_disable_drops : drops lms_mmio_lmots_verify_disable.
Proof. drops_by (fun B => B {{ verify_chain_backend := dropped; verify_backend := dropped }}). Qed.

Lemma disabled m w : drops m -> in_service w -> in_service (snd (m w)).
Proof. intros (f & E & Hf & E0) Hw. rewrite E. apply service_set; auto. Qed.

Lemma run_call_ok c w : in_service w -> in_service (run_call c w).
Proof.
  intros Hw. destruct c; cbn [run_call]; try (apply enabled; [| exact Hw]).
  - apply enables_guard, enables_client. intros c. apply enables_guard, enables_probe, enables_client. intros c'.
    apply enables_guard, enables_key, enables_set, set_keygen.
  - apply enables_guard, enables_client. intros c. apply enables_guard, enables_probe, enables_client. intros c'.
    apply enables_guard, enables_key, enables_then; apply enables_set; [apply set_sign | apply set_randomizer; reflexivity].
  - apply enables_guard, enables_client. intros c. apply enables_guard, enables_probe, enables_client. intros c'.
    apply enables_guard. destruct (has_cap c' _); apply enables_set; [apply set_verify | apply set_verify_chain].
  - apply enables_guard, enables_client. intros c. apply enables_guard, enables_probe, enables_client. intros c'.
    apply enables_guard, enables_then; [apply enables_set, set_keygen_chain |].
    apply enables_then; apply enables_when, enables_set; [apply set_keygen_derive | apply set_keygen].
  - apply enables_guard, enables_client. intros c. apply enables_guard, enables_probe, enables_client. intros c'.
    apply enables_guard, enables_then; [apply enables_set, set_sign_chain |].
    apply enables_then; apply enables_when; [apply enables_then; apply enables_set; [apply set_sign_derive | apply set_randomizer; reflexivity] |].
    apply enables_set, set_sign.
  - apply disabled; [apply keygen_disable_drops | exact Hw].
  - apply disabled; [apply sign_disable_drops | exact Hw].
  - apply disabled; [apply verify_disable_drops | exact Hw].
Qed.

Definition run_calls (cs : list mmio_call) (w : world) : world := fold_left (fun w c => run_call c w) cs w.

Lemma run_calls_ok cs w : in_service w -> in_service (run_calls cs w).
Proof. revert w. induction cs as [| c cs IH]; intros w Hw; [exact Hw |]. apply IH, run_call_ok, Hw. Qed.

Lemma service_inv w : in_service w -> sound (bk w) /\ (bk w = no_backends \/ inv (bk w) w).
Proof.
  intros [K1 _ K3 _ [K5 | K5]]; (split; [exact K3 |]); [right | left; exact K5].
  split; [split; [exact K1 | apply Hok, K5] | reflexivity].
Qed.
End Enable.
