(* ===== verification/MmioTheorems.v ===== *)
(** What the driver of src/lms_mmio.c gives its callers: the backends it registers compute
    what the library's software does, in any order of registering and removing them; the
    coefficients survive packing; the two ways of moving words agree; and the fall-back to
    software after a failed probe follows a null pointer. *)

From S2P Require Import Prelude Types HashApi Params Winternitz Spec Tree Lms LmOts LmOtsCorrect LmsCorrect Scheme MmioRegs Mmio Accel MmioPack MmioCorrect MmioDemo MmioBackends.

(** * Registering *)

(** C19: after any sequence of the driver's calls that register and remove backends, on an
    accelerator that keeps its contract, the registered backends keep the library's
    contract for the key [(I_, seed)] the accelerator holds, and the library's invariant
    holds as soon as one is registered; key generation of that key then publishes the root
    of the reference tree or fails, and leaves the state ready for further calls. *)
Theorem mmio_enable_sound `{P : Platform} `{Hh : HashApi} `{Mm : !Mmio}
    (b : lms_mmio_bus_t) (acc : dev -> accel) (alg : lms_hash_alg_t) (I_ seed : bytes) (version caps : Z)
    (p : ptr) (cs : list mmio_call) (w : world) :
  bus_contract b acc alg seed version caps -> p <> NULL -> ident I_ ->
  (forall d, dev_ok d <-> good b alg (client_at p d)) ->
  in_service b alg seed p I_ w ->
  let w' := run_calls p cs w in
  in_service b alg seed p I_ w' /\ backends_sound True I_ seed (bk w') /\
  (bk w' = no_backends \/ inv (bk w') w' /\
   forall priv lp op pub, key_ok priv lp op -> priv_I priv = I_ -> priv_seed priv = seed -> pub <> NULL ->
     match lms_public_key_generate (Some priv) pub w' with
     | (Ok pk, w'') => pk = pub_of priv lp op /\ inv (bk w') w''
     | (Err _, w'') => inv (bk w') w''
     end).
Proof.
  intros Hc Hp HI Hok Hw w'.
  assert (Hw' : in_service b alg seed p I_ w') by (eapply run_calls_ok; eauto).
  destruct (service_inv b alg seed p I_ Hok w' Hw') as [Hs Hi]. split; [exact Hw' |]. split; [exact Hs |].
  destruct Hi as [Hi | Hi]; [left; exact Hi | right; split; [exact Hi |]].
  intros priv lp op pub Hk <- <- Hpub.
  pose proof (public_key_generate_ok True (bk w') priv Hs lp op Hk pub Hpub w' Hi) as H.
  destruct (lms_public_key_generate _ _ _) as [[pk | e] w'']; [exact H | exact (proj2 H)].
Qed.

(** A client on the accelerator of MmioDemo.v, as [lms_mmio_client_init] leaves it. *)
Section Demo.
#[local] Existing Instance toy_hash_api.
#[local] Existing Instance demo_hw.
#[local] Existing Instance demo_mmio.

Definition demo_accel : accel := mkAccel (fun _ => 0) (fun _ => 0) Finished.

Definition demo_client_world : world :=
  snd (lms_mmio_client_init 1 (lms_mmio_bus_init_direct (Some demo_bus) demo_base) 8 0 (initial_world (zero_client, demo_accel))).

Lemma demo_dev_ok (d : dev) : dev_ok d <-> good demo_bus demo_alg (client_at 1 d).
Proof. reflexivity. Qed.

Lemma demo_service : in_service demo_bus demo_alg demo_hw_seed 1 (fill 0x61 16) demo_client_world.
Proof.
  split; [split; discriminate | | apply no_backends_sound | reflexivity | right; reflexivity].
  split; [reflexivity..|]. intros H. destruct (H eq_refl).
Qed.

Definition demo_calls : list mmio_call := [KeygenEnable 0; SignEnableInsecure; VerifyEnable; KeygenDisable; SignEnable 0].

Lemma mmio_enable_sound_witness :
  let w' := run_calls 1 demo_calls demo_client_world in
  backends_sound True (fill 0x61 16) demo_hw_seed (bk w') /\
  (if slot_fn (sign_backend (bk w')) is Some _ then true else false) = true.
Proof.
  split; [| vm_compute; reflexivity].
  apply (mmio_enable_sound (P := demo_hw) (Mm := demo_mmio) demo_bus snd demo_alg (fill 0x61 16) demo_hw_seed 1 demo_caps 1 demo_calls demo_client_world
           demo_bus_contract ltac:(discriminate) ltac:(split; [reflexivity | apply fill_bytes; unfold is_byte; lia]) demo_dev_ok demo_service).
Defined.
End Demo.

(** * The registered functions *)

(** C20: on an accelerator that keeps its contract and with a client in service, each backend
    the driver registers returns what the software computes (for the key of the accelerator
    where it needs one) or [LMS_ERR_INVALID], never follows a null pointer, and leaves
    the client in service.  The randomizer is 32 bytes and, in this order, those of the client's slot,
    those its TRNG filled in with status 0, or the value the software derives. *)
Theorem mmio_backends_functional `{P : Platform} `{Hh : HashApi} `{Mm : !Mmio}
    (b : lms_mmio_bus_t) (acc : dev -> accel) (alg hash_alg : lms_hash_alg_t) (I_ I seed : bytes) (version caps : Z)
    (p : ptr) (op : lmots_param_t) (q i start steps : Z) (cs v y : bytes) (d : dev) :
  bus_contract b acc alg seed version caps -> p <> NULL -> good b alg (client_at p d) ->
  ident I_ -> ident I -> available hash_alg -> lmots_params_of (ots_p_type op) = Some op ->
  digits_ok op cs -> chain_values op y -> chain_segment i start steps -> chain_value v ->
  backend_ok b alg p (lmots_mmio_keygen p I_ hash_alg q (ots_p_type op) d)
    (fun out => out = ots_pub hash_alg op I_ seed q) /\
  backend_ok b alg p (lmots_mmio_sign p I_ hash_alg q (ots_p_type op) cs d)
    (fun out => out = ots_sign_values hash_alg op I_ seed q (rd cs)) /\
  backend_ok b alg p (lmots_mmio_sign_derive p I_ hash_alg q i start steps d)
    (fun out => out = chain_spec hash_alg I_ q i start steps (private_value_spec hash_alg I_ seed q i)) /\
  backend_ok b alg p (lmots_mmio_verify p I hash_alg q (ots_p_type op) cs y d)
    (fun out => out = ots_candidate hash_alg op I q (rd cs) y) /\
  backend_ok b alg p (lmots_mmio_chain p I hash_alg q i start steps v d)
    (fun out => out = chain_spec hash_alg I q i start steps v) /\
  backend_ok b alg p (lmots_mmio_randomizer p I_ hash_alg q d)
    (fun out => chain_value out /\ randomizer_from alg seed p I_ q d out).
Proof.
  intros Hc Hp Hd HI_ HI Ha Hop Hcs Hy Hseg Hv. split; [| split; [| split; [| split; [| split]]]].
  1: eapply mmio_keygen_ok; eauto.
  1: eapply mmio_sign_ok; eauto.
  1: eapply mmio_derive_ok; eauto.
  1: eapply mmio_verify_ok; eauto.
  1: eapply mmio_chain_ok; eauto.
  eapply mmio_randomizer_ok; eauto.
Qed.

Section DemoBackends.
#[local] Existing Instance toy_hash_api.
#[local] Existing Instance demo_hw.
#[local] Existing Instance demo_mmio.

Definition demo_device : lms_mmio_client_t * accel := device (run_calls 1 [SignEnable 0] demo_client_world).

Lemma demo_good : good demo_bus demo_alg (client_at 1 demo_device).
Proof. split; [reflexivity | vm_compute; discriminate | eexists; split; vm_compute; reflexivity | reflexivity | reflexivity]. Qed.

Lemma demo_fill c n : is_byte c -> 0 <= n -> len (fill c n) = n /\ Forall is_byte (fill c n).
Proof. intros Hc Hn. split; [apply len_fill, Hn | apply fill_bytes, Hc]. Qed.

Lemma demo_zero_digits : digits_ok demo_op [].
Proof. intros i _. unfold rd, max_digit. destruct (Z.to_nat i); cbn; lia. Qed.

Lemma mmio_backends_functional_witness :
  let call := lmots_mmio_chain 1 (fill 0x11 16) demo_alg 7 4 1 2 (fill 0x22 32) demo_device in
  backend_ok demo_bus demo_alg 1 call (fun out => out = chain_spec demo_alg (fill 0x11 16) 7 4 1 2 (fill 0x22 32)) /\
  (if fst call is Ok _ then true else false) = true.
Proof.
  split; [| vm_compute; reflexivity].
  refine (proj1 (proj2 (proj2 (proj2 (proj2 (mmio_backends_functional (P := demo_hw) (Mm := demo_mmio) demo_bus snd demo_alg demo_alg
    (fill 0x61 16) (fill 0x11 16) demo_hw_seed 1 demo_caps 1 demo_op 7 4 1 2 [] (fill 0x22 32) (fill 0x33 (265 * 32)) demo_device
    demo_bus_contract _ demo_good (demo_fill 0x61 16 _ _) (demo_fill 0x11 16 _ _) (ex_intro _ _ eq_refl) eq_refl
    demo_zero_digits (demo_fill 0x33 (265 * 32) _ _) _ (demo_fill 0x22 32 _ _))))))).
  all: first [discriminate | unfold is_byte; lia | repeat split; discriminate].
Defined.
End DemoBackends.

(** * Coefficients *)

Lemma rd_take n l i : 0 <= i < n -> rd (take (Z.to_nat n) l) i = rd l i.
Proof. intros Hi. unfold rd. rewrite !nth_lookup, lookup_take_lt by lia. reflexivity. Qed.

(** Coefficients written to the accelerator and read back are the same digits: the words
    [pack_coefficients_words] makes unpack, as [lms_mmio_msg_q_coef] unpacks them, to the
    digits that were packed; both count the same number of words, and they
    fit the 32 words of the driver's arrays. *)
Theorem coefficients_roundtrip (type : Z) (op : lmots_param_t) (cs : bytes) :
  lmots_params_of type = Some op -> digits_ok op cs ->
  let '(words, n) := pack_coefficients_words cs (ots_p_p op) (ots_p_w op) in
  unpack_coefficients (take (Z.to_nat n) words) (ots_p_p op) (ots_p_w op) = map (rd cs) (seqZ 0 (ots_p_p op)) /\
  n = Z.min 32 (u32 (ots_p_p op * ots_p_w op + 31) / 32) /\ 0 < n <= 32 /\ len words = 32.
Proof.
  intros Hop Hd. pose proof (op_widths op (proj1 (lmots_params_of_wf type op Hop))) as (Hw & Hp1 & Hp2).
  destruct (per_w _ Hw) as (Hpw & Hper & Hwr). pose proof (pack_ok _ Hw cs (ots_p_p op) ltac:(lia)) as Hpack.
  destruct (pack_coefficients_words _ _ _) as [words n]. destruct Hpack as (Hl & Hu & Hn & Hdig).
  rewrite u32_small in Hn by lia.
  assert (Hn1 : 0 < n <= 32).
  { subst n. split; [apply Z.div_str_pos; lia | apply Z.lt_succ_r, Z.div_lt_upper_bound; lia]. }
  split; [| split; [| split; [exact Hn1 | unfold len; rewrite Hl; reflexivity]]].
  - apply map_ext_in. intros i Hi. apply list_elem_of_In, elem_of_seqZ in Hi.
    rewrite mask_w by exact Hw. cbv zeta. rewrite u32_small by nia. set (per := 32 / ots_p_w op) in *.
    assert (E1 : i * ots_p_w op / 32 = i / per) by (rewrite <- Hpw; apply Z.div_mul_cancel_r; lia).
    assert (E2 : i * ots_p_w op mod 32 = i mod per * ots_p_w op) by (rewrite <- Hpw; apply Z.mul_mod_distr_r; lia).
    assert (Hk : 0 <= i / per < n).
    { split; [apply Z.div_pos; lia |]. subst n. apply Z.div_lt_upper_bound; [lia |].
      pose proof (Z.mul_succ_div_gt (ots_p_p op + per - 1) per ltac:(lia)) as H. rewrite Z.mul_succ_r in H. lia. }
    rewrite E1, E2, rd_take by lia. specialize (Hdig i ltac:(lia)). unfold packed_coef in Hdig. fold per in Hdig.
    rewrite Hdig, land_mask by exact Hw. specialize (Hd i ltac:(lia)). unfold max_digit in Hd.
    rewrite Z.mod_small by lia. apply u8_small. assert (2 ^ ots_p_w op <= 2 ^ 8) by (apply Z.pow_le_mono_r; lia).
    change (2 ^ 8) with 256 in *. unfold is_byte. lia.
  - subst n. rewrite u32_small by nia.
    destruct Hw as [E | [E | [E | E]]]; rewrite E in *; Z.to_euclidean_division_equations; lia.
Qed.

(** The digits of a counter, four bits each. *)
Definition demo_op_w4 : lmots_param_t := mkLmotsParam LMOTS_SHAKE256_N32_W4 LMS_HASH_SHAKE256 32 4 67 4.
Definition demo_digits : bytes := map (fun i => i mod 16) (seqZ 0 67).

Lemma demo_digits_ok : digits_ok demo_op_w4 demo_digits.
Proof.
  intros i Hi. assert (E : rd demo_digits i = i mod 16).
  { unfold rd, demo_digits. rewrite nth_lookup, list_lookup_fmap, lookup_seqZ_lt by (cbn in Hi; lia). cbn. f_equal. lia. }
  rewrite E. pose proof (Z.mod_pos_bound i 16 ltac:(lia)). unfold max_digit. cbn. lia.
Qed.

Lemma coefficients_roundtrip_witness :
  let '(words, n) := pack_coefficients_words demo_digits 67 4 in
  unpack_coefficients (take (Z.to_nat n) words) 67 4 = map (rd demo_digits) (seqZ 0 67) /\
  n = Z.min 32 (u32 (67 * 4 + 31) / 32) /\ 0 < n <= 32 /\ len words = 32.
Proof. exact (coefficients_roundtrip LMOTS_SHAKE256_N32_W4 demo_op_w4 demo_digits eq_refl demo_digits_ok). Defined.

(** * Transfers *)

Lemma loopM_ext {S E A} n i (f g : Z -> A -> M S E A) :
  (forall k a s, i <= k < i + Z.of_nat n -> f k a s = g k a s) -> forall a s, loopM n i f a s = loopM n i g a s.
Proof.
  revert i. induction n as [| n IH]; intros i Hfg a s; [reflexivity |].
  cbn [loopM]. unfold mbind, M_bind. rewrite Hfg by lia. destruct (g i a s) as [[a' | e] s']; [| reflexivity].
  apply IH. intros k a0 s0 Hk. apply Hfg. lia.
Qed.

Lemma bind_ext {S E A B} (m : M S E A) (f g : A -> M S E B) s :
  (forall a s', f a s' = g a s') -> (m ≫= f) s = (m ≫= g) s.
Proof. intros Hfg. unfold mbind, M_bind. destruct (m s) as [[a | e] s']; [apply Hfg | reflexivity]. Qed.

Section Alignment.
Context `{P : Platform} `{Hh : HashApi} `{Mm : !Mmio}.
Variable p : ptr.
Variables base length : Z.
Hypothesis Hlen : 0 <= length.

Lemma aligned_length bf : word_aligned bf length = true -> exists n, 0 <= n /\ length = 4 * n.
Proof.
  unfold word_aligned. rewrite andb_true_iff, Z.eqb_eq. intros [H _]. change 3 with (Z.ones 2) in H.
  rewrite Z.land_ones in H by lia. change (2 ^ 2) with 4 in H. exists (length / 4). split; [apply Z.div_pos; lia |].
  pose proof (Z_div_mod_eq_full length 4). lia.
Qed.

(** The two kinds of words, and of their bytes. *)
Lemma word_lanes data n k :
  Forall is_byte data -> 0 <= k < n -> load_le32 data (4 * k) = pack_lanes data (4 * k) (4 * n).
Proof. intros Hb Hk. symmetry. apply lanes_full; [exact Hb | lia]. Qed.

Lemma write_bytes_lanes bf data w : Forall is_byte data ->
  write_bytes p base bf data length w
  = loopM (words_in length) 0 (fun k _ =>
      let offset := 4 * k in bus_write p (u32 (base + u32 offset)) (pack_lanes data offset length)) tt w.
Proof.
  intros Hb. unfold write_bytes. destruct (word_aligned bf length) eqn:E; [| reflexivity].
  destruct (aligned_length bf E) as (n & Hn & ->). rewrite words_in_full by exact Hn.
  apply loopM_ext. intros k [] s Hk. cbv zeta. rewrite shiftr_full, (word_lanes data n k) by (exact Hb || lia). reflexivity.
Qed.

Lemma read_bytes_lanes bf w :
  read_bytes p base bf length w
  = loopM (words_in length) 0 (fun k out =>
      let offset := 4 * k in
      word ← bus_read p (u32 (base + u32 offset)); mret (out ++ unpack_lanes word offset length)) [] w.
Proof.
  unfold read_bytes. destruct (word_aligned bf length) eqn:E; [| reflexivity].
  destruct (aligned_length bf E) as (n & Hn & ->). rewrite words_in_full by exact Hn.
  apply loopM_ext. intros k out s Hk. apply bind_ext. intros word s'. rewrite unlanes_full by lia. reflexivity.
Qed.

(** The loop of [write_task_bytes] over bytes. *)
Definition write_task_in_lanes (data : bytes) : DM unit :=
  if LMS_MMIO_TASK_STREAM_BASE <=? base then
    bus_write p LMS_MMIO_REG_TASK_ADDR base ;;
    loopM (words_in length) 0 (fun k _ => bus_write p LMS_MMIO_REG_TASK_DATA (pack_lanes data (4 * k) length)) tt
  else
    loopM (words_in length) 0 (fun k _ =>
      bus_write p LMS_MMIO_REG_TASK_ADDR (u32 (base + u32 k)) ;;
      bus_write p LMS_MMIO_REG_TASK_DATA (pack_lanes data (4 * k) length)) tt.

Lemma write_task_lanes bf data w : Forall is_byte data ->
  write_task_bytes p base bf data length w = write_task_in_lanes data w.
Proof.
  intros Hb. unfold write_task_bytes, write_task_in_lanes. destruct (word_aligned bf length) eqn:E.
  - destruct (aligned_length bf E) as (n & Hn & ->). rewrite words_in_full, shiftr_full by exact Hn.
    destruct (_ <=? _); [apply bind_ext; intros _ s |]; apply loopM_ext; intros k [] s' Hk;
      rewrite (word_lanes data n k) by (exact Hb || lia); reflexivity.
  - destruct (_ <=? _); [reflexivity |]. apply loopM_ext. intros k [] s Hk. cbv zeta.
    rewrite (Z.mul_comm 4 k), Z.div_mul by lia. reflexivity.
Qed.

Lemma read_task_lanes bf w :
  read_task_bytes p base bf length w
  = (bus_write p LMS_MMIO_REG_TASK_ADDR base ;;
     loopM (words_in length) 0 (fun k out =>
       word ← bus_read p LMS_MMIO_REG_TASK_DATA; mret (out ++ unpack_lanes word (4 * k) length)) []) w.
Proof.
  unfold read_task_bytes. apply bind_ext. intros _ s. destruct (word_aligned bf length) eqn:E; [| reflexivity].
  destruct (aligned_length bf E) as (n & Hn & ->). rewrite words_in_full, shiftr_full by exact Hn.
  apply loopM_ext. intros k out s' Hk. apply bind_ext. intros word s''. rewrite unlanes_full by lia. reflexivity.
Qed.
End Alignment.

(** The four transfer functions do the same whatever the alignment of the caller's buffer:
    the loop over 32-bit words and the loop over bytes put the same words on the bus, in the same
    order, and take the same bytes off it, for every length. *)
Theorem transfers_ignore_alignment `{P : Platform} `{Hh : HashApi} `{Mm : !Mmio}
    (p : ptr) (base length : Z) (b1 b2 : host_buffer) (data : bytes) (w : world) :
  0 <= length -> Forall is_byte data ->
  write_bytes p base b1 data length w = write_bytes p base b2 data length w /\
  read_bytes p base b1 length w = read_bytes p base b2 length w /\
  write_task_bytes p base b1 data length w = write_task_bytes p base b2 data length w /\
  read_task_bytes p base b1 length w = read_task_bytes p base b2 length w.
Proof.
  intros Hl Hb. split; [rewrite !write_bytes_lanes by assumption; reflexivity |].
  split; [rewrite !read_bytes_lanes by assumption; reflexivity |].
  split; [rewrite !(write_task_lanes p base length Hl _ data w Hb); reflexivity | rewrite !(read_task_lanes p base length Hl); reflexivity].
Qed.

Section DemoTransfers.
#[local] Existing Instance toy_hash_api.
#[local] Existing Instance demo_hw.
#[local] Existing Instance demo_mmio.

Lemma transfers_ignore_alignment_witness :
  aligned4 (Mmio := demo_mmio) B_I = true /\ aligned4 (Mmio := demo_mmio) B_input = false /\
  write_bytes 1 LMS_MMIO_REG_IDENTIFIER B_I (fill 0x61 16) 16 demo_client_world
  = write_bytes 1 LMS_MMIO_REG_IDENTIFIER B_input (fill 0x61 16) 16 demo_client_world.
Proof.
  split; [reflexivity |]. split; [reflexivity |].
  refine (proj1 (transfers_ignore_alignment (Mm := demo_mmio) 1 LMS_MMIO_REG_IDENTIFIER 16 B_I B_input (fill 0x61 16) demo_client_world _
    (fill_bytes 16 0x61 _))); [discriminate | unfold is_byte; lia].
Defined.
End DemoTransfers.

(** * Falling back *)

(** The identifications [lms_mmio_probe] knows. *)
Definition recognised (version caps : Z) : bool :=
  negb ((caps .& LMS_MMIO_CAP_SHAKE256) =? 0) && (version =? 1)
  || negb ((caps .& LMS_MMIO_CAP_SHA256) =? 0) && (1 <=? version) && (version <=? 7).

Section Unrecognised.
Context `{P : Platform} `{Hh : HashApi} `{Mm : !Mmio}.
Variable p : ptr.
Hypothesis Hp : p <> NULL.
Variable f : ptr.
Variables ctx : ptr.
Variables version caps : Z.
Hypothesis Hcaps : recognised version caps = false.
(** What the bus answers at the two identification registers. *)
Hypothesis Hread : forall o d, client_at p (snd (extern_read32 f ctx o d)) = client_at p d.
Hypothesis Hversion : forall d, fst (extern_read32 f ctx LMS_MMIO_REG_VERSION d) = version.
Hypothesis Hcapability : forall d, fst (extern_read32 f ctx LMS_MMIO_REG_CAPABILITY d) = caps.

(** A client that may fall back and has not been probed. *)
Definition unprobed (w : world) : Prop :=
  let c := client_at p (device w) in
  read32 (bus c) = Some (Extern f) /\ context (bus c) = ctx /\ probed c = 0 /\ allow_fallback c <> 0.

Definition unbound (w : world) : Prop :=
  let c := client_at p (device w) in hash_desc c = None /\ allow_fallback c <> 0.

Abbreviation client w := (client_at p (device w)).

Lemma wp_ext_read o w (Q : Z -> world -> Prop) (R : lms_mmio_status_t -> world -> Prop) :
  read32 (bus (client w)) = Some (Extern f) -> context (bus (client w)) = ctx ->
  (forall w', client w' = client w -> Q (fst (extern_read32 f ctx o (device w))) w') -> wp (bus_read p o) Q R w.
Proof.
  intros Hr Hx HQ. unfold bus_read, wp, mbind, M_bind, get_client. rewrite Hr, Hx. apply HQ, Hread.
Qed.

Lemma wp_update (g : lms_mmio_client_t -> lms_mmio_client_t) w (Q : unit -> world -> Prop) (R : lms_mmio_status_t -> world -> Prop) :
  (forall w', client w' = g (client w) -> Q tt w') -> wp (update_client p g) Q R w.
Proof. intros HQ. apply HQ. apply client_set. Qed.

Lemma probe_unrecognised w : unprobed w ->
  wp (ensure_probe p) (fun _ _ => False) (fun e w' => e = LMS_MMIO_ERR_PROTOCOL /\ unbound w') w.
Proof.
  intros (Hr & Hx & H0 & Ha). apply wp_bind. unfold get_client, wp at 1. rewrite H0. cbn [Z.eqb negb].
  unfold lms_mmio_probe. apply wp_bind, wp_guard; [intros E; apply Z.eqb_eq in E; contradiction | intros _].
  apply wp_bind. unfold get_client, wp at 1. apply wp_bind, wp_guard; [intros E; apply bool_decide_eq_true in E; congruence | intros _].
  apply wp_bind, wp_ext_read; [exact Hr | exact Hx |]. intros w1 C1. rewrite Hversion.
  apply wp_bind, wp_ext_read; rewrite ?C1; [exact Hr | exact Hx |]. intros w2 C2. rewrite Hcapability.
  apply wp_bind, wp_update. intros w3 C3. rewrite C2 in C3. apply orb_false_iff in Hcaps as [Hs Hsh].
  apply wp_bind. cbn [desc_probe_cap desc_version LMS_MMIO_HASH_DESC_SHAKE256 LMS_MMIO_HASH_DESC_SHA256].
  rewrite Hs, Hsh. apply wp_ret. apply wp_bind. unfold get_client, wp at 1.
  assert (Hd : hash_desc (client w3) = None) by (rewrite C3; reflexivity). rewrite Hd.
  apply wp_fail. split; [reflexivity |]. split; [exact Hd | rewrite C3; exact Ha].
Qed.

(** What begins with the probe ends with it, and the fall-back has no descriptor to read. *)
Lemma fall_back_undefined {A B B'} (m : DM A) (k : A -> DM B') required (software : lms_hash_alg_t -> DM B) (g : B -> DM B') w :
  unprobed w ->
  fst ((status ← status_of (prepare_command p required ;; m);
        match status with Ok a => k a | Err e => fall_back p e software ≫= g end) w) = Err MMIO_UNDEFINED.
Proof.
  intros Hw. pose proof (probe_unrecognised w Hw) as H. unfold wp in H.
  unfold status_of, prepare_command, mbind, M_bind in *. destruct (ensure_probe p w) as [[[] | e] w']; [destruct H |].
  destruct H as [-> [Hd Ha]]. unfold fall_back, bound_desc, mbind, M_bind, get_client.
  destruct (Z.eqb_spec (allow_fallback (client w')) 0) as [E | _]; [contradiction |]. rewrite Hd. reflexivity.
Qed.
End Unrecognised.

(** C21: a client that may fall back, on a bus whose identification the driver does not know,
    follows the null pointer [client->hash_desc] when it hashes or computes a chain, instead
    of returning what the software computes (or the error of the probe). *)
Theorem fallback_after_failed_probe `{P : Platform} `{Hh : HashApi} `{Mm : !Mmio}
    (p f ctx : ptr) (version caps : Z) (input : cbuf) (I_ value : bytes) (q i start steps : Z) (w : world) :
  p <> NULL -> recognised version caps = false ->
  (forall o d, client_at p (snd (extern_read32 f ctx o d)) = client_at p d) ->
  (forall d, fst (extern_read32 f ctx LMS_MMIO_REG_VERSION d) = version) ->
  (forall d, fst (extern_read32 f ctx LMS_MMIO_REG_CAPABILITY d) = caps) ->
  unprobed p f ctx w -> cbuf_null input = false -> chain_segment i start steps ->
  fst (lms_mmio_hash_once p input local_ptr w) = Err MMIO_UNDEFINED /\
  fst (lms_mmio_hash_once_ram p input local_ptr w) = Err MMIO_UNDEFINED /\
  fst (lms_mmio_chain p (Some I_) q i start steps (Some value) w) = Err MMIO_UNDEFINED.
Proof.
  intros Hp Hcaps Hread Hv Hcap Hw Hin (Hi & Hs & Hn & Hle). pose proof (proj2 (Z.eqb_neq p NULL) Hp) as Ep.
  split; [| split].
  - unfold lms_mmio_hash_once. rewrite Ep, Hin. eapply fall_back_undefined; eauto.
  - unfold lms_mmio_hash_once_ram. rewrite Ep, Hin. eapply fall_back_undefined; eauto.
  - unfold lms_mmio_chain, UINT16_MAX, UINT8_MAX in *. rewrite Ep, u32_small by lia.
    rewrite (proj2 (Z.ltb_ge _ i)), (proj2 (Z.ltb_ge _ start)), (proj2 (Z.ltb_ge _ steps)), (proj2 (Z.ltb_ge _ (start + steps))) by lia.
    eapply fall_back_undefined; eauto.
Qed.

(** A bus with nothing behind it reads all ones. *)
Section DeadBus.
#[local] Existing Instance toy_hash_api.
#[local] Existing Instance demo_hw.

#[local] Instance dead_mmio : Mmio (P := demo_hw) := {|
  client_at _ d := fst d;
  set_client _ c d := (c, snd d);
  client_set _ _ _ := eq_refl;
  extern_read32 _ _ _ d := (0xffffffff, d);
  extern_write32 _ _ _ _ d := d;
  load32 _ d := (0xffffffff, d);
  store32 _ _ d := d;
  extern_trng_fill _ _ d := ((0, fill 0 LMS_N), d);
  bytes_at _ n _ := fill 0 n;
  aligned4 _ := false
|}.

Definition dead_world : world :=
  snd (lms_mmio_client_init 1 (Some (mkBus NULL (Some (Extern 5)) (Some (Extern 6)))) 8 1 (initial_world (zero_client, demo_accel))).

Lemma fallback_after_failed_probe_witness :
  fst (lms_mmio_hash_once 1 demo_msg local_ptr dead_world) = Err MMIO_UNDEFINED /\
  fst (lms_mmio_hash_once_ram 1 demo_msg local_ptr dead_world) = Err MMIO_UNDEFINED /\
  fst (lms_mmio_chain 1 (Some (fill 0x61 16)) 7 4 1 2 (Some (fill 0x22 32)) dead_world) = Err MMIO_UNDEFINED.
Proof.
  refine (fallback_after_failed_probe (Mm := dead_mmio) 1 5 NULL 0xffffffff 0xffffffff demo_msg (fill 0x61 16) (fill 0x22 32) 7 4 1 2
    dead_world _ eq_refl (fun _ _ => eq_refl) (fun _ => eq_refl) (fun _ => eq_refl) _ eq_refl _); [discriminate | |].
  - repeat split. discriminate.
  - repeat split; discriminate.
Defined.
End DeadBus.
