(* ===== verification/SecState.v ===== *)
(** The security state domain of the firmware (fw/lms_sec_state.c): the record of the
    signing state and its tag, the two slots, the commit primitive, key derivation and
    provisioning, recovery at power-on, the signing transaction and the dispatcher of
    the UART commands.

    The module's static variables are the record [sec_t].  The hardware behind
    [lms_mmio_*], the random source and the build flags are the class [SecHw]; a driver
    call is a computation on its state.  A C function that returns a status is a
    computation of [FM]; the state holds the statics, the hardware, and the memory at
    the caller's [response] pointer. *)

From S2P Require Import Prelude Sha256 Types MmioRegs.

(** * Constants *)

Definition SEC_ST_ERROR_LOCKED : Z := 0.
Definition SEC_ST_IDLE : Z := 1.
Definition SEC_ST_RESERVED : Z := 2.
Definition SEC_ST_KEYGEN_PENDING : Z := 3.
Definition SEC_ST_EXHAUSTED : Z := 4.
Definition SEC_ST_BOOTING : Z := 5.

Definition SEC_STATE_REC_LEN : Z := 64.
Definition SEC_STATE_TAG_LEN : Z := 16.

Definition SEC_SUB_COMMIT : Z := 0x01.
Definition SEC_SUB_READ_ACTIVE : Z := 0x02.
Definition SEC_SUB_READ_SLOT : Z := 0x03.
Definition SEC_SUB_INJECT_TAG : Z := 0x04.
Definition SEC_SUB_BOOT : Z := 0x05.
Definition SEC_SUB_FACTORY_INIT : Z := 0x06.
Definition SEC_SUB_GET_STATE : Z := 0x07.
Definition SEC_SUB_NVM_LOAD : Z := 0x08.
Definition SEC_SUB_NVM_READ : Z := 0x09.
Definition SEC_SUB_MC_LOAD : Z := 0x0a.
Definition SEC_SUB_WRAP_LOAD : Z := 0x0b.
Definition SEC_SUB_WRAPPED_READ_LO : Z := 0x0c.
Definition SEC_SUB_WRAPPED_READ_HI : Z := 0x0d.

Definition SEC_OK : Z := 0.
Definition SEC_RSP_BUSY : Z := 1.
Definition SEC_ERR_LOCKED : Z := 2.
Definition SEC_ERR_COMMIT : Z := 3.
Definition SEC_ERR_AUTH : Z := 4.
Definition SEC_ERR_PATH : Z := 5.
Definition SEC_ERR_EXHAUSTED : Z := 6.
Definition SEC_ERR_PARAM : Z := 7.
Definition SEC_ERR_FACTORY_LOCKED : Z := 8.
Definition SEC_ERR_UNSUPPORTED : Z := 9.


Definition SEC_MAGIC_STATE : Z := 0x4c4d5353.
Definition SEC_OFF_MAGIC : Z := 0.
Definition SEC_OFF_STATE : Z := 4.
Definition SEC_OFF_CTR : Z := 6.
Definition SEC_OFF_TXID : Z := 10.
Definition SEC_BODY_LEN : Z := 48.
Definition SEC_OFF_TAG : Z := 48.
Definition SEC_OFF_RESERVED : Z := 14.
Definition SEC_PUF_RESP_LEN : Z := 32.
Definition SEC_HELPER_LEN : Z := 32.

(** The ASCII codes of "LMS-FE", "LMS-KDF", "wrap" and "state". *)
Definition FE_DOMAIN : bytes := [0x4c; 0x4d; 0x53; 0x2d; 0x46; 0x45].
Definition SEC_KDF_DOMAIN : bytes := [0x4c; 0x4d; 0x53; 0x2d; 0x4b; 0x44; 0x46].
Definition SEC_KDF_LABEL_WRAP : bytes := [0x77; 0x72; 0x61; 0x70].
Definition SEC_KDF_LABEL_STATE : bytes := [0x73; 0x74; 0x61; 0x74; 0x65].

(** * The hardware and the build *)

(** [hw] is the state of everything behind the MMIO client, the random source included.
    A driver call returns [Err] with the status when it is not [LMS_MMIO_OK]. *)
Class SecHw := {
  hw : Type;
  client_capabilities : ptr -> hw -> Z;
  lms_mmio_hmac_kstate : ptr -> bytes -> M hw Z bytes;
  lms_mmio_key_slot_load_test : ptr -> Z -> bytes -> M hw Z unit;
  lms_mmio_wrap_seed : ptr -> M hw Z bytes;
  lms_mmio_unwrap_seed : ptr -> bytes -> M hw Z unit;
  lms_mmio_seed_load_test : ptr -> Z -> bytes -> M hw Z unit;
  lms_mmio_seed_load_safe : ptr -> bytes -> M hw Z unit;
  lms_mmio_mc_step : ptr -> M hw Z Z;
  lms_mmio_mc_load : ptr -> Z -> M hw Z unit;
  lms_mmio_state_commit : ptr -> Z -> Z -> Z -> M hw Z (Z * bytes);
  lms_rnd : Z -> hw -> bytes * hw;
  trng_fault : hw -> Z;
  LMS_FW_SEC_TEST_MODE : bool;
  LMS_RND_IMPL_TRNG : bool
}.

(** The C types of the outputs: [uint32_t tx], [uint8_t full[LMS_N]], [uint8_t tag[16]]. *)
Class SecHwTypes (H : SecHw) : Prop := {
  hmac_type : forall c m h out h', lms_mmio_hmac_kstate c m h = (Ok out, h') -> len out = LMS_N /\ Forall is_byte out;
  mc_step_type : forall c h tx h', lms_mmio_mc_step c h = (Ok tx, h') -> 0 <= tx <= UINT_MAX;
  state_commit_type : forall c st ctr aad h tx tag h',
    lms_mmio_state_commit c st ctr aad h = (Ok (tx, tag), h') ->
    0 <= tx <= UINT_MAX /\ len tag = SEC_STATE_TAG_LEN /\ Forall is_byte tag
}.

(** * The state *)

Record sec_t := mkSec {
  sec_client : ptr;
  sec_slots : list bytes;                                     (* [2][SEC_STATE_REC_LEN] *)
  sec_slot_valid : bytes;                                     (* [2] *)
  sec_active_slot : Z;
  sec_state : Z;
  sec_ctr : Z;
  sec_last_tx : Z;
  sec_factory_locked : Z;
  sec_key_loaded : Z;
  sec_keygen_pending : Z;
  sec_helper : bytes;
  sec_boot_valid : bytes;                                     (* [2] *)
  sec_rec_diag : bytes;                                       (* [2] *)
  sec_wrapped_blob : bytes;
  sec_wrapped_valid : Z;
  sec_key_I : bytes;
  sec_key_index : Z
}.

Definition slot_of (s : sec_t) (i : Z) : bytes := nth (Z.to_nat i) (sec_slots s) [].

(** ** Big-endian numbers *)

Definition put_be32 (v : Z) : bytes := [u8 (v .>> 24); u8 (v .>> 16); u8 (v .>> 8); u8 v].
Definition put_be16 (v : Z) : bytes := [u8 (v .>> 8); u8 v].
Definition get_be32 (p : bytes) : Z := (rd p 0 .<< 24) .| (rd p 1 .<< 16) .| (rd p 2 .<< 8) .| rd p 3.
Definition get_be16 (p : bytes) : Z := u16 (u16 (rd p 0 .<< 8) .| rd p 1).

(** ** The record *)

Definition encode_body (state ctr tx_id : Z) : bytes :=
  put_be32 SEC_MAGIC_STATE ++ put_be16 state ++ put_be32 ctr ++ put_be32 tx_id
  ++ fill 0 (SEC_BODY_LEN - SEC_OFF_RESERVED).

Definition build_aad (slot_id : Z) : bytes := [slot_id].

Definition rec_magic (rec : bytes) : Z := get_be32 (from SEC_OFF_MAGIC rec).
Definition rec_tx (rec : bytes) : Z := get_be32 (from SEC_OFF_TXID rec).
Definition rec_st (rec : bytes) : Z := get_be16 (from SEC_OFF_STATE rec).
Definition rec_ctr (rec : bytes) : Z := get_be32 (from SEC_OFF_CTR rec).
Definition rec_tag (rec : bytes) : bytes := slice SEC_OFF_TAG SEC_STATE_TAG_LEN rec.

(** [memcmp(a, b, n) == 0] on buffers of the same size *)
Definition same (a b : bytes) : bool := bool_decide (a = b).

(** [slots_all_zero] *)
Definition slots_all_zero (s : sec_t) : bool :=
  forallb (fun rec => forallb (Z.eqb 0) rec) (sec_slots s).

(** ** The simulated fuzzy extractor and the key derivation *)

Definition sim_puf_read : bytes := map (fun index => u8 (0x60 + index)) (seqZ 0 SEC_PUF_RESP_LEN).

(** The helper data and [K_DEV]. *)
Definition fe_gen (puf_resp : bytes) (ctx : Z) : bytes * bytes :=
  let h := SHA256_Init zero_ctx in
  let h := SHA256_Update h FE_DOMAIN in
  let h := SHA256_Update h puf_resp in
  let h := SHA256_Update h [ctx] in
  (map (fun index => u8 (0xa0 + index)) (seqZ 0 SEC_HELPER_LEN), SHA256_Final h).

Definition fe_rep (puf_resp helper : bytes) (ctx : Z) : bytes := snd (fe_gen puf_resp ctx).

Definition sec_kdf (k_dev I_ label : bytes) : bytes :=
  let h := SHA256_Init zero_ctx in
  let h := SHA256_Update h SEC_KDF_DOMAIN in
  let h := SHA256_Update h [0] in
  let h := SHA256_Update h label in
  let h := SHA256_Update h [0] in
  let h := SHA256_Update h I_ in
  let h := SHA256_Update h [0] in
  let h := SHA256_Update h k_dev in
  SHA256_Final h.

(** * The operations *)

Section Domain.
Context `{H : SecHw}.

(** The memory a call works on; [f_resp] starts at [response] and goes on behind it. *)
Record fmem := mkFmem { f_sec : sec_t; f_hw : hw; f_resp : bytes }.

Definition FM (A : Type) : Type := M fmem Z A.

Definition get_sec : FM sec_t := fun s => (Ok (f_sec s), s).
Definition set_sec (f : sec_t -> sec_t) : FM unit := modify (fun s => s {{ f_sec := f (f_sec s) }}).
Definition set_resp (f : bytes -> bytes) : FM unit := modify (fun s => s {{ f_resp := f (f_resp s) }}).
Definition on_hw {A} (m : M hw Z A) : FM A :=
  fun s => let '(r, h) := m (f_hw s) in (r, s {{ f_hw := h }}).
Definition get_hw {A} (f : hw -> A) : FM A := fun s => (Ok (f (f_hw s)), s).
Definition random (n : Z) : FM bytes := on_hw (fun h => let '(b, h) := lms_rnd n h in (Ok b, h)).

(** [status = f(..); if (status != LMS_MMIO_OK) ..]: the outcome as a value. *)
Definition status_of {A} (m : FM A) : FM bool :=
  r ← attempt m; mret (match r with Ok _ => true | Err _ => false end).

Definition set_valid (i v : Z) : FM unit := set_sec (fun s => s {{ sec_slot_valid := upd i v (sec_slot_valid s) }}).
Definition set_diag (i v : Z) : FM unit := set_sec (fun s => s {{ sec_rec_diag := upd i v (sec_rec_diag s) }}).
Definition set_slot (i : Z) (rec : bytes) : FM unit := set_sec (fun s => s {{ sec_slots := upd i rec (sec_slots s) }}).
Definition set_state (st : Z) : FM unit := set_sec (fun s => s {{ sec_state := st }}).

Definition compute_tag (body : bytes) (slot_id : Z) : FM bytes :=
  s ← get_sec;
  full ← on_hw (lms_mmio_hmac_kstate (sec_client s) (slice 0 SEC_BODY_LEN body ++ build_aad slot_id));
  mret (slice 0 SEC_STATE_TAG_LEN full).

Definition rec_valid (rec : bytes) (slot_id : Z) : FM bool :=
  set_diag slot_id 0 ;;
  if negb (rec_magic rec =? SEC_MAGIC_STATE) then set_diag slot_id 1 ;; mret false
  else
    tag ← attempt (compute_tag rec slot_id);
    match tag with
    | Err _ => set_diag slot_id 3 ;; mret false
    | Ok tag => if negb (same tag (rec_tag rec)) then set_diag slot_id 4 ;; mret false else mret true
    end.

Definition rec_valid_check (rec : bytes) (slot_id : Z) (expected_tag : bytes) : FM bool :=
  set_diag slot_id 0 ;;
  if negb (rec_magic rec =? SEC_MAGIC_STATE) then set_diag slot_id 1 ;; mret false
  else if negb (same (rec_tag rec) expected_tag) then set_diag slot_id 4 ;; mret false
  else mret true.

Definition sec_load_hw_keys_i (k_dev I_ : bytes) : FM unit :=
  s ← get_sec;
  on_hw (lms_mmio_key_slot_load_test (sec_client s) LMS_MMIO_KEY_KWRAP (sec_kdf k_dev I_ SEC_KDF_LABEL_WRAP)) ;;
  on_hw (lms_mmio_key_slot_load_test (sec_client s) LMS_MMIO_KEY_KSTATE (sec_kdf k_dev I_ SEC_KDF_LABEL_STATE)).

(** The keys of [I] from the rebuilt [K_DEV], then the wrapped seed. *)
Definition load_keys (I_ : bytes) : FM unit :=
  s ← get_sec;
  or_return SEC_ERR_AUTH (sec_load_hw_keys_i (fe_rep sim_puf_read (sec_helper s) 0) I_).

Definition keep_wrapped : FM unit :=
  s ← get_sec;
  wrapped ← or_return SEC_ERR_AUTH (on_hw (lms_mmio_wrap_seed (sec_client s)));
  set_sec (fun s => s {{ sec_wrapped_blob := wrapped; sec_wrapped_valid := 1 }}).

(** The bytes left in [I]. *)
Definition sec_keygen_key : FM bytes :=
  (if LMS_FW_SEC_TEST_MODE then mret tt
   else I_ ← random LMS_I_LEN; set_sec (fun s => s {{ sec_key_I := I_ }})) ;;
  s ← get_sec;
  load_keys (sec_key_I s) ;;
  keep_wrapped ;;
  set_sec (fun s => s {{ sec_key_loaded := 1 }}) ;;
  mret (sec_key_I s).

(** The new key's [I] and seed: given by the caller in the test build, drawn from the
    random source in the deployed one. *)
Definition keygen_new_sources (I_new : bytes) : FM unit :=
  if LMS_FW_SEC_TEST_MODE then set_sec (fun s => s {{ sec_key_I := I_new }})
  else
    I_ ← random LMS_I_LEN;
    set_sec (fun s => s {{ sec_key_I := I_ }}) ;;
    new_seed ← random LMS_SEED_LEN;
    fault ← get_hw (fun h => LMS_RND_IMPL_TRNG && negb (trng_fault h =? 0));
    if fault : bool then set_sec (fun s => s {{ sec_key_I := fill 0 LMS_I_LEN }}) ;; fail SEC_ERR_AUTH
    else
      s ← get_sec;
      ok ← status_of (on_hw (lms_mmio_seed_load_safe (sec_client s) new_seed));
      if ok : bool then mret tt
      else set_sec (fun s => s {{ sec_key_I := fill 0 LMS_I_LEN }}) ;; fail SEC_ERR_AUTH.

Definition sec_keygen_new (I_new : bytes) : FM bytes :=
  keygen_new_sources I_new ;;
  s ← get_sec;
  load_keys (sec_key_I s) ;;
  keep_wrapped ;;
  set_sec (fun s => s {{ sec_slots := [fill 0 SEC_STATE_REC_LEN; fill 0 SEC_STATE_REC_LEN];
                         sec_slot_valid := [0; 0]; sec_active_slot := 0; sec_state := SEC_ST_IDLE;
                         sec_ctr := 0; sec_last_tx := 0; sec_key_loaded := 1; sec_factory_locked := 1;
                         sec_keygen_pending := 0; sec_key_index := u32 (sec_key_index s + 1) }}) ;;
  mret (sec_key_I s).

Definition sec_init (client : ptr) : FM unit :=
  set_sec (fun s => s {{ sec_client := client;
                         sec_slots := [fill 0 SEC_STATE_REC_LEN; fill 0 SEC_STATE_REC_LEN];
                         sec_slot_valid := [0; 0]; sec_active_slot := 0; sec_state := SEC_ST_BOOTING;
                         sec_ctr := 0; sec_last_tx := 0; sec_factory_locked := 0; sec_key_loaded := 0;
                         sec_keygen_pending := 0; sec_helper := fill 0 SEC_HELPER_LEN; sec_key_index := 0 }}).

(** ** Commit *)

Definition commit_finish (inactive new_state ctr tx : Z) (tag : bytes) : FM bool :=
  s ← get_sec;
  if tx <=? sec_last_tx s then mret false
  else
    let rec := splice 0 (encode_body new_state ctr tx) (slot_of s inactive) in
    let rec := splice SEC_OFF_TAG (slice 0 SEC_STATE_TAG_LEN tag) rec in
    set_slot inactive rec ;;
    ok ← rec_valid_check rec inactive tag;
    if negb ok then set_valid inactive 0 ;; mret false
    else
      set_valid inactive 1 ;;
      set_sec (fun s => s {{ sec_active_slot := inactive; sec_last_tx := tx; sec_state := new_state;
                             sec_ctr := ctr }}) ;;
      mret true.

(** Whether the record was committed (1 or 0 of the code). *)
Definition state_commit (new_state ctr : Z) : FM bool :=
  s ← get_sec;
  let inactive := u8 (1 - sec_active_slot s) in
  caps ← get_hw (client_capabilities (sec_client s));
  if negb ((caps .& LMS_MMIO_CAP_STATE_COMMIT) =? 0) then
    r ← attempt (on_hw (lms_mmio_state_commit (sec_client s) new_state ctr inactive));
    match r with
    | Err _ => mret false
    | Ok (tx, tag) => commit_finish inactive new_state ctr tx tag
    end
  else
    r ← attempt (on_hw (lms_mmio_mc_step (sec_client s)));
    match r with
    | Err _ => mret false
    | Ok tx =>
        if tx <=? sec_last_tx s then mret false
        else
          tag ← attempt (compute_tag (encode_body new_state ctr tx) inactive);
          match tag with
          | Err _ => set_valid inactive 0 ;; mret false
          | Ok tag => commit_finish inactive new_state ctr tx tag
          end
    end.

(** ** Provisioning *)

(** [seed[index] = (uint8_t)index] *)
Definition factory_seed : bytes := map u8 (seqZ 0 LMS_SEED_LEN).

(** The response: [response[20 + index]] and [response[28 + index]] for [index < 8]. *)
Definition devctx_response (helper wrapped resp : bytes) : bytes :=
  for_z 8 0 (fun index resp =>
    let resp := upd (20 + index) (rd helper index) resp in
    upd (28 + index) (if index <? 4 then rd wrapped index else 0) resp) (upd 4 0x46 resp).

Definition sec_factory_init (I_ : bytes) : FM unit :=
  if negb LMS_FW_SEC_TEST_MODE then
    set_resp (upd 2 SEC_ERR_UNSUPPORTED) ;; fail SEC_ERR_UNSUPPORTED
  else
    s ← get_sec;
    guard_err (negb (sec_factory_locked s =? 0)) SEC_ERR_FACTORY_LOCKED ;;
    let '(helper, k_dev) := fe_gen sim_puf_read 0 in
    set_sec (fun s => s {{ sec_helper := helper; sec_key_I := I_ }}) ;;
    or_return SEC_ERR_AUTH (sec_load_hw_keys_i k_dev I_) ;;
    or_return SEC_ERR_AUTH (on_hw (lms_mmio_seed_load_test (sec_client s) 0 factory_seed)) ;;
    wrapped ← or_return SEC_ERR_AUTH (on_hw (lms_mmio_wrap_seed (sec_client s)));
    set_sec (fun s => s {{ sec_wrapped_blob := wrapped; sec_wrapped_valid := 1; sec_factory_locked := 1;
                           sec_keygen_pending := 0 }}) ;;
    set_resp (devctx_response helper wrapped).

(** ** Power-on recovery *)

(** [sec_state = SEC_ST_ERROR_LOCKED; return sec_state;] *)
Definition lock {A} : FM A := set_state SEC_ST_ERROR_LOCKED ;; fail SEC_ST_ERROR_LOCKED.

(** The seed from the wrapped blob, in the deployed build. *)
Definition boot_unwrap : FM unit :=
  s ← get_sec;
  if LMS_FW_SEC_TEST_MODE || (sec_wrapped_valid s =? 0) then mret tt
  else
    ok ← status_of (on_hw (lms_mmio_unwrap_seed (sec_client s) (sec_wrapped_blob s)));
    set_sec (fun s => s {{ sec_factory_locked := 1 }}) ;;
    if ok : bool then mret tt else lock.

(** The slot to restore: [None] is the code's [chosen = -1]; the outer [None] is the
    inconsistent pair that locks. *)
Definition choose_slot (valid0 valid1 : bool) (slot0 slot1 : bytes) : option (option Z) :=
  if valid0 && valid1 then
    if rec_tx slot0 =? rec_tx slot1 then
      if negb (same (slice 0 SEC_OFF_TAG slot0) (slice 0 SEC_OFF_TAG slot1)) then None else Some (Some 0)
    else Some (Some (if rec_tx slot1 <? rec_tx slot0 then 0 else 1))
  else if valid0 then Some (Some 0)
  else if valid1 then Some (Some 1)
  else Some None.

(** Neither slot is valid. *)
Definition boot_no_record : FM unit :=
  s ← get_sec;
  if negb (sec_factory_locked s =? 0) then
    if slots_all_zero s then set_sec (fun s => s {{ sec_state := SEC_ST_IDLE; sec_ctr := 0 }}) else lock
  else fail (sec_state s).

Definition boot_restore (chosen : Z) (valid0 valid1 : bool) : FM unit :=
  s ← get_sec;
  let rec := slot_of s chosen in
  set_sec (fun s => s {{ sec_active_slot := chosen; sec_slot_valid := [Z.b2z valid0; Z.b2z valid1];
                         sec_last_tx := rec_tx rec }}) ;;
  if rec_st rec =? SEC_ST_RESERVED then
    ok ← state_commit SEC_ST_IDLE (u32 (rec_ctr rec + 1));
    if ok : bool then mret tt else lock
  else if rec_st rec =? SEC_ST_KEYGEN_PENDING then
    set_sec (fun s => s {{ sec_keygen_pending := 1; sec_state := SEC_ST_KEYGEN_PENDING; sec_ctr := rec_ctr rec }})
  else if (rec_st rec =? SEC_ST_IDLE) || (rec_st rec =? SEC_ST_EXHAUSTED) then
    set_sec (fun s => s {{ sec_state := rec_st rec; sec_ctr := rec_ctr rec }})
  else lock.

(** The body; every early [return sec_state] is a failure of it. *)
Definition boot_body (I_ : bytes) : FM unit :=
  set_state SEC_ST_BOOTING ;;
  set_sec (fun s => s {{ sec_key_I := I_ }}) ;;
  s ← get_sec;
  ok ← status_of (sec_load_hw_keys_i (fe_rep sim_puf_read (sec_helper s) 0) I_);
  (if ok : bool then mret tt else lock) ;;
  set_sec (fun s => s {{ sec_key_loaded := 1 }}) ;;
  boot_unwrap ;;
  s ← get_sec;
  valid0 ← rec_valid (slot_of s 0) 0;
  valid1 ← rec_valid (slot_of s 1) 1;
  set_sec (fun s => s {{ sec_boot_valid := [Z.b2z valid0; Z.b2z valid1] }}) ;;
  match choose_slot valid0 valid1 (slot_of s 0) (slot_of s 1) with
  | None => lock
  | Some None => boot_no_record
  | Some (Some chosen) => boot_restore chosen valid0 valid1
  end ;;
  set_sec (fun s =>
    if negb (sec_state s =? SEC_ST_ERROR_LOCKED) && negb (sec_state s =? SEC_ST_BOOTING)
    then s {{ sec_factory_locked := 1 }} else s).

Definition sec_boot (I_ : bytes) : FM Z :=
  _ ← attempt (boot_body I_);
  s ← get_sec;
  mret (sec_state s).

Definition sec_export_active : FM bytes := s ← get_sec; mret (slot_of s (sec_active_slot s)).

(** ** The signing transaction *)

(** The callback signs with leaf [q]; [Ok] is [LMS_OK].  It runs on the hardware and
    cannot reach the statics of this file. *)
Definition do_sign_fn : Type := Z -> ptr -> M hw Z unit.

(** The index written to [q_out]; on failure that is 0. *)
Definition sec_sign (max_ctr : Z) (do_sign : option do_sign_fn) (ctx : ptr) : FM Z :=
  s ← get_sec;
  guard_err (sec_state s =? SEC_ST_ERROR_LOCKED) SEC_ERR_LOCKED ;;
  guard_err (negb (sec_state s =? SEC_ST_IDLE)) SEC_RSP_BUSY ;;
  guard_err (sec_key_loaded s =? 0) SEC_ERR_LOCKED ;;
  if (max_ctr =? 0) || (max_ctr <=? sec_ctr s) then
    set_state SEC_ST_EXHAUSTED ;; fail SEC_ERR_EXHAUSTED
  else
    let q := sec_ctr s in
    reserved ← state_commit SEC_ST_RESERVED q;
    if negb reserved then state_commit SEC_ST_IDLE (u32 (q + 1)) ;; fail SEC_ERR_COMMIT
    else
      signed ← match do_sign with Some f => status_of (on_hw (f q ctx)) | None => mret false end;
      committed ← (if signed : bool then state_commit SEC_ST_IDLE (u32 (q + 1)) else mret false);
      if committed : bool then mret q
      else
        state_commit SEC_ST_IDLE (u32 (q + 1)) ;;
        fail (if (signed : bool) then SEC_ERR_COMMIT else SEC_ERR_PATH).

(** ** The UART commands *)

Definition sec_uart_commit_allowed (s : sec_t) (new_state ctr : Z) : bool :=
  if sec_state s =? SEC_ST_IDLE then
    if (new_state =? SEC_ST_RESERVED) || (new_state =? SEC_ST_KEYGEN_PENDING)
       || (new_state =? SEC_ST_IDLE) || (new_state =? SEC_ST_EXHAUSTED)
    then sec_ctr s <=? ctr else false
  else if sec_state s =? SEC_ST_RESERVED then
    if new_state =? SEC_ST_IDLE then sec_ctr s <? ctr else false
  else if sec_state s =? SEC_ST_KEYGEN_PENDING then
    if new_state =? SEC_ST_IDLE then sec_ctr s <=? ctr else false
  else false.

Definition valid_mask (s : sec_t) : Z := u8 (rd (sec_slot_valid s) 0 .| u8 (rd (sec_slot_valid s) 1 .<< 1)).

(** [response[2] = rc; return rc;] *)
Definition respond (rc : Z) : FM Z := set_resp (upd 2 rc) ;; mret rc.

(** The copy loops: [n] bytes of [src] into [response + 4]. *)
Definition copy_out (n : Z) (src : bytes) : FM Z := set_resp (splice 4 (slice 0 n src)) ;; mret 0.

(** The fields BOOT and GET_STATE report. *)
Definition report_state : FM unit :=
  s ← get_sec;
  set_resp (fun r =>
    upd 23 (sec_active_slot s) (upd 22 (sec_keygen_pending s) (upd 21 (sec_key_loaded s)
      (upd 20 (sec_factory_locked s)
        (splice 12 (put_be32 (sec_last_tx s)) (splice 8 (put_be32 (sec_ctr s)) (splice 4 (put_be32 (sec_state s)) r))))))).

Definition uart_commit (params : bytes) : FM Z :=
  s ← get_sec;
  if sec_state s =? SEC_ST_ERROR_LOCKED then respond SEC_ERR_LOCKED
  else if sec_state s =? SEC_ST_BOOTING then respond SEC_RSP_BUSY
  else
    let new_state := get_be32 params .& 0xffff in
    let ctr := get_be32 (from 4 params) in
    if (ctr <? sec_ctr s) || negb (sec_uart_commit_allowed s (u16 new_state) ctr) then respond SEC_ERR_COMMIT
    else
      ok ← state_commit (u16 new_state) ctr;
      rc ← (if (ok : bool) return FM Z then
              s ← get_sec;
              set_resp (fun r => splice 12 (put_be32 (sec_ctr s)) (splice 8 (put_be32 (sec_state s))
                                   (splice 4 (put_be32 (sec_last_tx s)) r))) ;;
              mret SEC_OK
            else set_resp (upd 2 SEC_ERR_COMMIT) ;; mret SEC_ERR_COMMIT);
      s ← get_sec;
      set_resp (upd 3 (valid_mask s)) ;;
      mret rc.

(** READ_SLOT and NVM_READ *)
Definition uart_read_slot (params : bytes) : FM Z :=
  s ← get_sec;
  let slot := rd params 0 in
  if (1 <? slot) || (rd (sec_slot_valid s) slot =? 0) then respond SEC_ERR_PARAM
  else copy_out 28 (slot_of s slot).

Definition uart_inject_tag : FM Z :=
  if LMS_FW_SEC_TEST_MODE then
    s ← get_sec;
    let rec := slot_of s (sec_active_slot s) in
    set_slot (sec_active_slot s) (upd SEC_OFF_TAG (u8 (rd rec SEC_OFF_TAG ^^ 0xff)) rec) ;;
    mret 0
  else respond SEC_ERR_UNSUPPORTED.

Definition uart_factory_init (params : bytes) : FM Z :=
  r ← attempt (sec_factory_init (slice 0 LMS_I_LEN params));
  respond (match r with Ok _ => SEC_OK | Err rc => u8 rc end).

Definition uart_boot (params : bytes) : FM Z :=
  sec_boot (slice 0 LMS_I_LEN params) ;;
  report_state ;;
  s ← get_sec;
  set_resp (fun r => upd 27 (rd (sec_rec_diag s) 1) (upd 26 (rd (sec_rec_diag s) 0)
                       (upd 25 (rd (sec_boot_valid s) 1) (upd 24 (rd (sec_boot_valid s) 0) r)))) ;;
  mret 0.

Definition uart_nvm_load (params : bytes) : FM Z :=
  let slot := rd params 0 in
  if 1 <? slot then respond SEC_ERR_PARAM
  else
    set_slot slot (slice 1 SEC_STATE_REC_LEN params) ;;
    set_valid slot 1 ;;
    s ← get_sec;
    set_resp (upd 3 (valid_mask s)) ;;
    mret 0.

Definition uart_mc_load (params : bytes) : FM Z :=
  s ← get_sec;
  ok ← status_of (on_hw (lms_mmio_mc_load (sec_client s) (get_be32 params)));
  if ok : bool then mret 0 else respond SEC_ERR_AUTH.

Definition uart_wrap_load (params : bytes) : FM Z :=
  set_sec (fun s => s {{ sec_wrapped_blob := slice 0 LMS_MMIO_WRAPPED_LEN params; sec_wrapped_valid := 1 }}) ;;
  mret 0.

(** WRAPPED_READ_LO and WRAPPED_READ_HI *)
Definition uart_wrapped_read (off n : Z) : FM Z :=
  s ← get_sec;
  if sec_wrapped_valid s =? 0 then respond SEC_ERR_PARAM
  else copy_out n (from off (sec_wrapped_blob s)).

Definition sec_handle_uart_cmd (sub : Z) (params : bytes) : FM Z :=
  s ← get_sec;
  set_resp (fun r => upd 3 (valid_mask s) (upd 2 SEC_OK (upd 0 sub (splice 0 (fill 0 32) r)))) ;;
  if sub =? SEC_SUB_COMMIT then uart_commit params
  else if sub =? SEC_SUB_READ_ACTIVE then copy_out 28 (slot_of s (sec_active_slot s))
  else if sub =? SEC_SUB_READ_SLOT then uart_read_slot params
  else if sub =? SEC_SUB_INJECT_TAG then uart_inject_tag
  else if sub =? SEC_SUB_FACTORY_INIT then uart_factory_init params
  else if sub =? SEC_SUB_BOOT then uart_boot params
  else if sub =? SEC_SUB_GET_STATE then report_state ;; mret 0
  else if sub =? SEC_SUB_NVM_LOAD then uart_nvm_load params
  else if sub =? SEC_SUB_NVM_READ then uart_read_slot params
  else if sub =? SEC_SUB_MC_LOAD then uart_mc_load params
  else if sub =? SEC_SUB_WRAP_LOAD then uart_wrap_load params
  else if sub =? SEC_SUB_WRAPPED_READ_LO then uart_wrapped_read 0 28
  else if sub =? SEC_SUB_WRAPPED_READ_HI then uart_wrapped_read 28 20
  else respond SEC_ERR_UNSUPPORTED.
End Domain.
