(* ===== verification/SecStateCorrect.v ===== *)
(** The security state domain keeps its promise: a lower bound of the counter survives
    every operation, and the record a commit writes is the record recovery reads. *)

From S2P Require Import Prelude Sha256 Types Params MmioRegs SecState.

(** * The record *)

Lemma get_put_be32 v rest : 0 <= v <= UINT_MAX -> get_be32 (put_be32 v ++ rest) = v.
Proof. intros Hv. apply lms_load_store_u32. unfold is_u32, UINT_MAX in *. lia. Qed.

Lemma get_be32_range p : Forall is_byte p -> 0 <= get_be32 p <= UINT_MAX.
Proof.
  intros Hp. pose proof (fun i => rd_byte p i Hp) as Hrd.
  pose proof (lms_load_u32_range [rd p 0; rd p 1; rd p 2; rd p 3] ltac:(repeat constructor; apply Hrd) ltac:(discriminate)) as H.
  change (lms_load_u32 _) with (get_be32 p) in H. unfold is_u32, UINT_MAX in *. lia.
Qed.

Lemma get_put_be16 v rest : 0 <= v < 65536 -> get_be16 (put_be16 v ++ rest) = v.
Proof.
  intros Hv. change (get_be16 (put_be16 v ++ rest)) with (u16 (u16 (u8 (v .>> 8) .<< 8) .| u8 v)).
  rewrite u8_shiftr, u8_mod by lia. change (2 ^ 8) with 256.
  assert (Hd : 0 <= v / 256 < 256) by (split; [apply Z.div_pos | apply Z.div_lt_upper_bound]; lia).
  pose proof (Z.mod_pos_bound v 256 ltac:(lia)) as Hm. pose proof (Z.div_mod v 256 ltac:(lia)) as Hdm.
  rewrite (Z.mod_small (v / 256) 256) by exact Hd.
  rewrite (u16_small ((v / 256) .<< 8)) by (rewrite Z.shiftl_mul_pow2 by lia; change (2 ^ 8) with 256; lia).
  pose proof (lms_load_u32_value 0 0 (v / 256) (v mod 256) []) as Hval. unfold is_byte in Hval.
  specialize (Hval ltac:(lia) ltac:(lia) ltac:(lia) ltac:(lia)).
  change (lms_load_u32 [0; 0; v / 256; v mod 256]) with (0 .| 0 .| ((v / 256) .<< 8) .| v mod 256) in Hval.
  rewrite !Z.lor_0_l in Hval. rewrite Hval, u16_small; lia.
Qed.

Definition new_rec (st ctr tx : Z) (tag : bytes) : bytes := encode_body st ctr tx ++ tag.

Lemma new_rec_magic st ctr tx tag : rec_magic (new_rec st ctr tx tag) = SEC_MAGIC_STATE.
Proof. reflexivity. Qed.

Lemma new_rec_st st ctr tx tag : 0 <= st < 65536 -> rec_st (new_rec st ctr tx tag) = st.
Proof. exact (get_put_be16 st _). Qed.

Lemma new_rec_ctr st ctr tx tag : 0 <= ctr <= UINT_MAX -> rec_ctr (new_rec st ctr tx tag) = ctr.
Proof. exact (get_put_be32 ctr _). Qed.

Lemma new_rec_tx st ctr tx tag : 0 <= tx <= UINT_MAX -> rec_tx (new_rec st ctr tx tag) = tx.
Proof. exact (get_put_be32 tx _). Qed.

Lemma encode_body_bytes st ctr tx : Forall is_byte (encode_body st ctr tx).
Proof.
  unfold encode_body. repeat apply Forall_app_2; try (repeat constructor; apply u8_byte).
  apply Forall_replicate. unfold is_byte. lia.
Qed.

Lemma write_rec slot st ctr tx tag :
  len slot = SEC_STATE_REC_LEN -> len tag = SEC_STATE_TAG_LEN ->
  splice SEC_OFF_TAG (slice 0 SEC_STATE_TAG_LEN tag) (splice 0 (encode_body st ctr tx) slot) = new_rec st ctr tx tag.
Proof.
  intros Hs Ht. rewrite slice_all by (symmetry; exact Ht).
  assert (Hsplit : slot = [] ++ take 48 slot ++ drop 48 slot) by (symmetry; apply take_drop).
  unfold len, SEC_STATE_REC_LEN, SEC_STATE_TAG_LEN in *.
  rewrite Hsplit, splice_exact; [| reflexivity | rewrite length_take; change (length (encode_body st ctr tx)) with 48%nat; lia].
  cbn [app]. rewrite <- (app_nil_r (drop 48 slot)), splice_exact;
    [unfold new_rec; rewrite app_nil_r; reflexivity | reflexivity |].
  rewrite length_drop. lia.
Qed.

Lemma new_rec_tag st ctr tx tag : len tag = SEC_STATE_TAG_LEN -> rec_tag (new_rec st ctr tx tag) = tag.
Proof.
  intros Ht. unfold rec_tag, new_rec. rewrite <- (app_nil_r tag) at 1.
  apply slice_exact; [reflexivity | symmetry; exact Ht].
Qed.

Lemma new_rec_body st ctr tx tag : slice 0 SEC_BODY_LEN (new_rec st ctr tx tag) = encode_body st ctr tx.
Proof. exact (slice_exact 0 _ [] (encode_body st ctr tx) tag eq_refl eq_refl). Qed.

(** * What the operations leave alone *)

Section Ops.
Context `{H : SecHw}.

(** The signing state: the slots, the active one, the state and the counter. *)
Definition core (s : sec_t) : list bytes * Z * Z * Z := (sec_slots s, sec_active_slot s, sec_state s, sec_ctr s).

End Ops.

Abbreviation quiet := (preserves (fun m => core (f_sec m))).

(** The primitives preserve whatever does not look at what they change. *)
Section Primitives.
Context `{H : SecHw} {X : Type} (g : fmem -> X).

Lemma preserves_get_sec : preserves g get_sec.
Proof. intros s. reflexivity. Qed.

Lemma preserves_get_hw {A} (f : hw -> A) : preserves g (get_hw f).
Proof. intros s. reflexivity. Qed.

Lemma preserves_set_sec f : (forall s h r, g (mkFmem (f s) h r) = g (mkFmem s h r)) -> preserves g (set_sec f).
Proof. intros Hf [s h r]. exact (Hf s h r). Qed.

Lemma preserves_set_resp f : (forall s h r, g (mkFmem s h (f r)) = g (mkFmem s h r)) -> preserves g (set_resp f).
Proof. intros Hf [s h r]. exact (Hf s h r). Qed.

Lemma preserves_on_hw {A} (m : M hw Z A) : (forall s h h' r, g (mkFmem s h r) = g (mkFmem s h' r)) -> preserves g (on_hw m).
Proof. intros Hf [s h r]. unfold on_hw. cbn. destruct (m h) as [a h']. exact (Hf s h' h r). Qed.

Lemma preserves_status_of {A} (m : FM A) : preserves g m -> preserves g (status_of m).
Proof. intros Hm. unfold status_of. apply preserves_bind; auto with preserves_db. Qed.
End Primitives.
#[export] Hint Resolve preserves_get_sec preserves_get_hw preserves_status_of : preserves_db.

(** Splits a computation into its calls; what a primitive changes is compared by
    computation. *)
Ltac preserves_step :=
  match goal with
  | |- preserves _ (_ ≫= _) => apply preserves_bind; [| intro]
  | |- preserves _ (set_sec _) => apply preserves_set_sec; intros []; reflexivity
  | |- preserves _ (on_hw _) => apply preserves_on_hw; reflexivity
  | |- preserves _ (set_resp _) => apply preserves_set_resp; solve [reflexivity | auto with preserves_db]
  | |- preserves _ (if ?c then _ else _) => destruct c
  | |- preserves _ (match ?r with Ok _ => _ | Err _ => _ end) => destruct r
  | |- preserves _ (match ?r with Some _ => _ | None => _ end) => destruct r
  | |- preserves _ (let '(_, _) := ?p in _) => destruct p
  | |- preserves _ (attempt _) => apply preserves_attempt
  | |- preserves _ (or_return _ _) => apply preserves_or_return
  | |- preserves _ (status_of _) => apply preserves_status_of
  | |- preserves _ _ => solve [auto with preserves_db]
  end.
Ltac preserves_tac := repeat (intros; preserves_step).

Section QuietOps.
Context `{H : SecHw}.

Lemma quiet_set_diag i v : quiet (set_diag i v).
Proof. apply preserves_set_sec. intros []. reflexivity. Qed.

Lemma quiet_set_valid i v : quiet (set_valid i v).
Proof. apply preserves_set_sec. intros []. reflexivity. Qed.

#[local] Hint Resolve quiet_set_diag quiet_set_valid : preserves_db.

Lemma quiet_compute_tag body slot : quiet (compute_tag body slot).
Proof. unfold compute_tag. preserves_tac. Qed.
#[local] Hint Resolve quiet_compute_tag : preserves_db.

Lemma quiet_rec_valid rec slot : quiet (rec_valid rec slot).
Proof. unfold rec_valid. preserves_tac. Qed.

Lemma quiet_rec_valid_check rec slot tag : quiet (rec_valid_check rec slot tag).
Proof. unfold rec_valid_check. preserves_tac. Qed.

Lemma quiet_load_hw_keys k_dev I_ : quiet (sec_load_hw_keys_i k_dev I_).
Proof. unfold sec_load_hw_keys_i. preserves_tac. Qed.
#[local] Hint Resolve quiet_load_hw_keys : preserves_db.

Lemma quiet_keygen_key : quiet sec_keygen_key.
Proof. unfold sec_keygen_key, load_keys, keep_wrapped, random. preserves_tac. Qed.

Lemma quiet_factory_init I_ : quiet (sec_factory_init I_).
Proof. unfold sec_factory_init. preserves_tac. Qed.

Lemma quiet_respond rc : quiet (respond rc).
Proof. unfold respond. preserves_tac. Qed.

Lemma quiet_copy_out n src : quiet (copy_out n src).
Proof. unfold copy_out. preserves_tac. Qed.

Lemma quiet_report_state : quiet report_state.
Proof. unfold report_state. preserves_tac. Qed.
End QuietOps.
#[export] Hint Resolve quiet_set_diag quiet_set_valid quiet_compute_tag quiet_rec_valid quiet_rec_valid_check
  quiet_load_hw_keys quiet_keygen_key quiet_factory_init quiet_respond quiet_copy_out quiet_report_state : preserves_db.

(** * Commit *)

Section Commit.
Context `{H : SecHw}.
Context (HT : SecHwTypes H).

(** Two slots of bytes, one of them active. *)
Record slots_ok (s : sec_t) : Prop := {
  slots_two : exists a b, sec_slots s = [a; b] /\ len a = SEC_STATE_REC_LEN /\ len b = SEC_STATE_REC_LEN /\
                          Forall is_byte a /\ Forall is_byte b;
  slots_active : sec_active_slot s = 0 \/ sec_active_slot s = 1
}.

Lemma slots_ok_core s s' : core s' = core s -> slots_ok s -> slots_ok s'.
Proof. unfold core. intros [= E1 E2 E3 E4] [H1 H2]. split; rewrite ?E1, ?E2; assumption. Qed.

Definition inactive_slot (s : sec_t) : Z := 1 - sec_active_slot s.

Lemma inactive_u8 s : slots_ok s -> u8 (1 - sec_active_slot s) = inactive_slot s.
Proof. intros [_ [E | E]]; unfold inactive_slot; rewrite E; reflexivity. Qed.

Lemma slot_of_ok s i : slots_ok s -> i = 0 \/ i = 1 -> len (slot_of s i) = SEC_STATE_REC_LEN /\ Forall is_byte (slot_of s i).
Proof. intros [(a & b & E & La & Lb & Ba & Bb) _] [-> | ->]; unfold slot_of; rewrite E; split; assumption. Qed.

(** [s'] is [s] after the record [(st, ctr)] went to the inactive slot. *)
Record committed (s s' : sec_t) (st ctr : Z) : Prop := {
  committed_rec : exists tx tag, sec_last_tx s < tx <= UINT_MAX /\ 0 <= tx /\ len tag = SEC_STATE_TAG_LEN /\ Forall is_byte tag /\
    sec_slots s' = upd (inactive_slot s) (new_rec st ctr tx tag) (sec_slots s) /\ sec_last_tx s' = tx;
  committed_active : sec_active_slot s' = inactive_slot s;
  committed_state : sec_state s' = st;
  committed_ctr : sec_ctr s' = ctr
}.

(** The post of a commit: it took place, or nothing changed. *)
Definition commit_post (s : sec_t) (st ctr : Z) (ok : bool) (s' : fmem) : Prop :=
  if ok then committed s (f_sec s') st ctr else core (f_sec s') = core s.

Lemma commit_finish_ok m st ctr tx tag :
  slots_ok (f_sec m) -> 0 <= tx <= UINT_MAX -> len tag = SEC_STATE_TAG_LEN -> Forall is_byte tag ->
  wp (commit_finish (inactive_slot (f_sec m)) st ctr tx tag) (commit_post (f_sec m) st ctr) (fun _ _ => False) m.
Proof.
  intros Hs Htx Hlen Hbytes. unfold commit_finish. apply wp_bind. cbn -[rec_valid_check upd splice slice encode_body].
  destruct (Z.leb_spec tx (sec_last_tx (f_sec m))) as [Hle | Hgt]; [reflexivity |].
  destruct (slot_of_ok _ (inactive_slot (f_sec m)) Hs) as [Hrl _].
  { destruct Hs as [_ [E | E]]; unfold inactive_slot; rewrite E; auto. }
  rewrite (write_rec _ _ _ _ _ Hrl Hlen). unfold rec_valid_check.
  rewrite new_rec_magic, (new_rec_tag _ _ _ _ Hlen).
  unfold same. rewrite bool_decide_true by reflexivity.
  destruct m as [[c1 c2 c3 c4 c5 c6 c7 c8 c9 c10 c11 c12 c13 c14 c15 c16 c17] h r]. cbn in *.
  split; cbn; try reflexivity. exists tx, tag. repeat split; (assumption || lia).
Qed.

Lemma wp_on_hw {A} (x : M hw Z A) Q R m :
  (forall r h, x (f_hw m) = (r, h) ->
     match r with Ok a => Q a (mkFmem (f_sec m) h (f_resp m)) | Err e => R e (mkFmem (f_sec m) h (f_resp m)) end) ->
  wp (on_hw x) Q R m.
Proof.
  intros Hx. unfold wp, on_hw. destruct m as [s h0 r0]. cbn in *. destruct (x h0) as [[a | e] h] eqn:E; exact (Hx _ _ eq_refl).
Qed.

Lemma compute_tag_ok body slot m :
  wp (compute_tag body slot)
    (fun tag m' => len tag = SEC_STATE_TAG_LEN /\ Forall is_byte tag /\ f_sec m' = f_sec m) (fun _ m' => f_sec m' = f_sec m) m.
Proof.
  unfold compute_tag. apply wp_bind. cbn -[slice]. apply wp_bind, wp_on_hw. intros [full | e] h E; [| reflexivity].
  destruct (hmac_type _ _ _ _ _ E) as [Hl Hb].
  split; [apply len_slice; unfold LMS_N, SEC_STATE_TAG_LEN in *; lia |]. split; [apply Forall_slice, Hb | reflexivity].
Qed.

Lemma state_commit_ok st ctr m :
  slots_ok (f_sec m) -> wp (state_commit st ctr) (commit_post (f_sec m) st ctr) (fun _ _ => False) m.
Proof.
  intros Hs. unfold state_commit. apply wp_bind. change (wp get_sec ?Q ?R m) with (Q (f_sec m) m). cbv beta zeta.
  rewrite (inactive_u8 _ Hs). apply wp_bind.
  change (wp (get_hw ?f) ?Q ?R m) with (Q (f (f_hw m)) m). cbv beta.
  destruct (negb _).
  - apply wp_bind, wp_attempt, wp_on_hw. intros [[tx tag] | e] h E; [| reflexivity].
    destruct (state_commit_type _ _ _ _ _ _ _ _ E) as (Htx & Hl & Hb).
    apply (commit_finish_ok (mkFmem (f_sec m) h (f_resp m))); assumption.
  - apply wp_bind, wp_attempt, wp_on_hw. intros [tx | e] h E; [| reflexivity].
    pose proof (mc_step_type _ _ _ _ E) as Htx. destruct (tx <=? sec_last_tx (f_sec m)); [reflexivity |].
    apply wp_bind, wp_attempt. eapply wp_conseq; [apply compute_tag_ok | |].
    + intros tag m' (Hl & Hb & Em). cbn [f_sec] in Em. rewrite <- Em in *. apply commit_finish_ok; assumption.
    + intros e m' Em. cbn [f_sec] in Em. apply wp_bind.
      change (wp (set_valid ?i ?v) ?Q ?R m') with (Q tt (mkFmem ((f_sec m') {{ sec_slot_valid := upd i v (sec_slot_valid (f_sec m')) }}) (f_hw m') (f_resp m'))).
      cbv beta. red. rewrite <- Em. destruct m' as [[] h' r']. reflexivity.
Qed.
End Commit.

(** * The counter never goes back *)

Section Counter.
Context `{H : SecHw}.
Context (HT : SecHwTypes H).

(** A record from which recovery continues at the index [b] or later. *)
Definition bound (b st ctr : Z) : Prop :=
  (st = SEC_ST_IDLE -> b <= ctr) /\ (st = SEC_ST_RESERVED -> b <= ctr + 1 /\ ctr < UINT_MAX) /\
  (st = SEC_ST_KEYGEN_PENDING -> b <= ctr).

Definition rec_bound (b : Z) (rec : bytes) : Prop :=
  rec_magic rec = SEC_MAGIC_STATE -> bound b (rec_st rec) (rec_ctr rec).

(** No index below [b] will be signed: not from the running state, and not from what
    recovery can find in the slots. *)
Record sec_inv (b : Z) (s : sec_t) : Prop := {
  inv_slots : slots_ok s;
  inv_recs : Forall (rec_bound b) (sec_slots s);
  inv_live : bound b (sec_state s) (sec_ctr s);
  inv_ctr : 0 <= sec_ctr s <= UINT_MAX;
  inv_written : b <= 0 \/ Exists (fun rec => rec_magic rec = SEC_MAGIC_STATE) (sec_slots s)
}.

Lemma sec_inv_core b s s' : core s' = core s -> sec_inv b s -> sec_inv b s'.
Proof.
  intros Hc [H1 H2 H3 H4 H5]. pose proof (slots_ok_core _ _ Hc H1) as Hs. unfold core in Hc. injection Hc as E1 E2 E3 E4.
  split; rewrite ?E1, ?E3, ?E4; assumption.
Qed.

Lemma quiet_inv {A} (m : FM A) b s :
  quiet m -> sec_inv b (f_sec s) -> wp m (fun _ s' => sec_inv b (f_sec s')) (fun _ s' => sec_inv b (f_sec s')) s.
Proof.
  intros Hm Hi. specialize (Hm s). unfold wp. destruct (m s) as [[a | e] s']; exact (sec_inv_core b _ _ Hm Hi).
Qed.

(** Another state and counter on the same slots. *)
Lemma sec_inv_move b s s' :
  sec_inv b s -> sec_slots s' = sec_slots s -> (sec_active_slot s' = 0 \/ sec_active_slot s' = 1) ->
  bound b (sec_state s') (sec_ctr s') -> 0 <= sec_ctr s' <= UINT_MAX -> sec_inv b s'.
Proof.
  intros [[H1 H1'] H2 H3 H4 H5] Es Ha Hb Hc. split; [split | ..]; rewrite ?Es; assumption.
Qed.

Lemma bound_idle b : bound b SEC_ST_BOOTING 0 /\ bound b SEC_ST_ERROR_LOCKED 0.
Proof. split; (split; [| split]); discriminate. Qed.

Lemma bound_dead b st ctr :
  st <> SEC_ST_IDLE -> st <> SEC_ST_RESERVED -> st <> SEC_ST_KEYGEN_PENDING -> bound b st ctr.
Proof. intros H1 H2 H3. split; [| split]; intros E; contradiction. Qed.

Lemma set_state_dead b st s :
  sec_inv b s -> st <> SEC_ST_IDLE -> st <> SEC_ST_RESERVED -> st <> SEC_ST_KEYGEN_PENDING ->
  sec_inv b (s {{ sec_state := st }}).
Proof.
  intros Hi H1 H2 H3. apply (sec_inv_move b s); [exact Hi | reflexivity | apply (inv_slots _ _ Hi) | | apply (inv_ctr _ _ Hi)].
  apply bound_dead; assumption.
Qed.

Lemma new_rec_bytes st ctr tx tag : Forall is_byte tag -> Forall is_byte (new_rec st ctr tx tag).
Proof. intros Ht. apply Forall_app_2; [apply encode_body_bytes | exact Ht]. Qed.

Lemma new_rec_len st ctr tx tag : len tag = SEC_STATE_TAG_LEN -> len (new_rec st ctr tx tag) = SEC_STATE_REC_LEN.
Proof. intros Ht. unfold new_rec. rewrite len_app, Ht. reflexivity. Qed.

Lemma new_rec_bound b st ctr tx tag :
  0 <= st < 65536 -> 0 <= ctr <= UINT_MAX -> bound b st ctr -> rec_bound b (new_rec st ctr tx tag).
Proof. intros Hst Hctr Hb _. rewrite new_rec_st, new_rec_ctr by assumption. exact Hb. Qed.

(** The slots after a commit: the new record and the one that was active. *)
Lemma committed_slots s s' st ctr :
  slots_ok s -> committed s s' st ctr ->
  slots_ok s' /\ exists tx tag old, Permutation (sec_slots s') [new_rec st ctr tx tag; old] /\
    old = slot_of s (sec_active_slot s) /\ old = slot_of s' (inactive_slot s') /\
    new_rec st ctr tx tag = slot_of s' (sec_active_slot s') /\
    sec_last_tx s < tx <= UINT_MAX /\ 0 <= tx /\ sec_last_tx s' = tx /\ len tag = SEC_STATE_TAG_LEN /\ In old (sec_slots s).
Proof.
  intros [(a & b & E & La & Lb & Ba & Bb) Ha] [(tx & tag & Htx & Htx0 & Hl & Hb & Es & El) Eact _ _].
  pose proof (new_rec_len st ctr tx tag Hl) as Hnl. pose proof (new_rec_bytes st ctr tx tag Hb) as Hnb.
  rewrite E in Es. unfold inactive_slot, slot_of in *. destruct Ha as [Ha | Ha]; rewrite Ha in *; cbn in Es, Eact.
  - split; [split; [exists a, (new_rec st ctr tx tag) | right; exact Eact]; repeat split; assumption |].
    exists tx, tag, a. rewrite Es, E, Eact. cbn. repeat split; try assumption; try lia; [apply perm_swap | left; reflexivity].
  - split; [split; [exists (new_rec st ctr tx tag), b | left; exact Eact]; repeat split; assumption |].
    exists tx, tag, b. rewrite Es, E, Eact. cbn. repeat split; try assumption; try lia; [reflexivity | right; left; reflexivity].
Qed.

Lemma new_record_written b st ctr tx tag old l :
  Permutation l [new_rec st ctr tx tag; old] -> b <= 0 \/ Exists (fun rec => rec_magic rec = SEC_MAGIC_STATE) l.
Proof. intros Hp. right. rewrite Hp. apply Exists_cons_hd. reflexivity. Qed.

Lemma commit_inv b s s' st ctr :
  sec_inv b s -> committed s s' st ctr -> 0 <= st < 65536 -> 0 <= ctr <= UINT_MAX -> bound b st ctr -> sec_inv b s'.
Proof.
  intros Hi Hc Hst Hctr Hb. destruct (committed_slots _ _ _ _ (inv_slots _ _ Hi) Hc)
    as (Hs & tx & tag & old & Hp & Eold & _ & _ & _ & _ & _ & _ & Hin).
  split; [exact Hs | | rewrite (committed_state _ _ _ _ Hc), (committed_ctr _ _ _ _ Hc); exact Hb
         | rewrite (committed_ctr _ _ _ _ Hc); exact Hctr | exact (new_record_written _ _ _ _ _ _ _ Hp)].
  rewrite Hp. apply Forall_cons. split; [apply new_rec_bound; assumption |]. apply Forall_cons. split; [| constructor].
  apply (proj1 (Forall_forall _ _) (inv_recs _ _ Hi)). exact (proj2 (list_elem_of_In _ _) Hin).
Qed.

(** Two commits replace both slots: the bound may rise. *)
Lemma two_commits b s s1 s1' s2 st1 c1 st2 c2 :
  slots_ok s -> committed s s1 st1 c1 -> core s1' = core s1 -> committed s1' s2 st2 c2 ->
  0 <= st1 < 65536 -> 0 <= c1 <= UINT_MAX -> 0 <= st2 < 65536 -> 0 <= c2 <= UINT_MAX ->
  bound b st1 c1 -> bound b st2 c2 -> sec_inv b s2.
Proof.
  intros Hs Hc1 Hcore Hc2 Hst1 Hct1 Hst2 Hct2 Hb1 Hb2.
  destruct (committed_slots _ _ _ _ Hs Hc1) as (Hs1 & tx1 & tag1 & old1 & _ & _ & _ & Enew & _).
  destruct (committed_slots _ _ _ _ (slots_ok_core _ _ Hcore Hs1) Hc2) as (Hs2 & tx2 & tag2 & old2 & Hp & Eold & _).
  assert (Hold : old2 = new_rec st1 c1 tx1 tag1).
  { rewrite Eold, Enew. unfold core in Hcore. injection Hcore as E1 E2 _ _. unfold slot_of. rewrite E1, E2. reflexivity. }
  split; [exact Hs2 | | rewrite (committed_state _ _ _ _ Hc2), (committed_ctr _ _ _ _ Hc2); exact Hb2
         | rewrite (committed_ctr _ _ _ _ Hc2); exact Hct2 | exact (new_record_written _ _ _ _ _ _ _ Hp)].
  rewrite Hp, Hold. apply Forall_cons. split; [apply new_rec_bound; assumption |].
  apply Forall_cons. split; [apply new_rec_bound; assumption | constructor].
Qed.

(** A commit whose outcome is ignored. *)
Lemma commit_any b st ctr m R :
  sec_inv b (f_sec m) -> 0 <= st < 65536 -> 0 <= ctr <= UINT_MAX -> bound b st ctr ->
  wp (state_commit st ctr) (fun _ m' => sec_inv b (f_sec m')) R m.
Proof.
  intros Hi Hst Hctr Hb. eapply wp_conseq; [apply (state_commit_ok HT), (inv_slots _ _ Hi) | | intros ? ? []].
  intros [|] m' Hm'; [exact (commit_inv _ _ _ _ _ Hi Hm' Hst Hctr Hb) | exact (sec_inv_core _ _ _ Hm' Hi)].
Qed.

(** What holds when [sec_sign] has returned [q]. *)
Definition released (q : Z) (s : sec_t) : Prop :=
  sec_inv (q + 1) s /\ sec_state s = SEC_ST_IDLE /\ sec_ctr s = q + 1.

Lemma wp_status_hw {A} (x : M hw Z A) (Q : bool -> fmem -> Prop) R m :
  (forall ok h, Q ok (mkFmem (f_sec m) h (f_resp m))) -> wp (status_of (on_hw x)) Q R m.
Proof.
  intros HQ. unfold status_of. apply wp_bind, wp_attempt, wp_on_hw. intros [a | e] h _; apply HQ.
Qed.

Lemma sec_sign_ok b max_ctr do_sign ctx m :
  sec_inv b (f_sec m) -> 0 <= max_ctr <= UINT_MAX ->
  wp (sec_sign max_ctr do_sign ctx) (fun q m' => b <= q /\ released q (f_sec m')) (fun _ m' => sec_inv b (f_sec m')) m.
Proof.
  intros Hi Hmax. unfold sec_sign. apply wp_bind. change (wp get_sec ?Q ?R m) with (Q (f_sec m) m). cbv beta.
  apply wp_bind, wp_guard; [intros _; exact Hi | intros _].
  apply wp_bind, wp_guard; [intros _; exact Hi | intros Hst]. apply negb_false_iff, Z.eqb_eq in Hst.
  apply wp_bind, wp_guard; [intros _; exact Hi | intros _].
  destruct (_ || _) eqn:Hex.
  { apply wp_bind. change (wp (set_state ?st) ?Q ?R m) with (Q tt (mkFmem ((f_sec m) {{ sec_state := st }}) (f_hw m) (f_resp m))).
    apply wp_fail, (set_state_dead b); [exact Hi | discriminate..]. }
  apply orb_false_iff in Hex as [_ Hex]. apply Z.leb_gt in Hex.
  pose proof (inv_ctr _ _ Hi) as Hctr. set (q := sec_ctr (f_sec m)) in *.
  assert (Hbq : b <= q) by exact (proj1 (inv_live _ _ Hi) Hst).
  assert (Hu : u32 (q + 1) = q + 1) by (apply u32_small; unfold UINT_MAX in *; lia). rewrite Hu.
  assert (HbR : forall b', b' <= q + 1 -> bound b' SEC_ST_RESERVED q).
  { intros b' Hb'. split; [discriminate | split; [intros _; lia | discriminate]]. }
  assert (HbI : forall b', b' <= q + 1 -> bound b' SEC_ST_IDLE (q + 1)).
  { intros b' Hb'. split; [intros _; exact Hb' | split; discriminate]. }
  assert (Hburn : forall m1 e, sec_inv b (f_sec m1) ->
    wp (state_commit SEC_ST_IDLE (q + 1) ;; fail e : FM Z) (fun q' m' => b <= q' /\ released q' (f_sec m'))
       (fun _ m' => sec_inv b (f_sec m')) m1).
  { intros m1 e Hi1. apply wp_bind. eapply wp_conseq; [apply (commit_any b) with (R := fun _ _ => False) | | intros ? ? []];
      [exact Hi1 | unfold SEC_ST_IDLE; lia | lia | apply HbI; lia |].
    intros ? m' Hm'. exact Hm'. }
  apply wp_bind. eapply wp_conseq; [apply (state_commit_ok HT), (inv_slots _ _ Hi) | | intros ? ? []].
  intros [|] m1 Hc1; cbn [negb]; [| apply Hburn, (sec_inv_core _ _ _ Hc1 Hi)].
  assert (Hi1 : sec_inv b (f_sec m1)).
  { apply (commit_inv _ _ _ _ _ Hi Hc1); [unfold SEC_ST_RESERVED; lia | lia | apply HbR; lia]. }
  apply wp_bind.
  assert (Hcall : forall (Q : bool -> fmem -> Prop) R, (forall ok m2, f_sec m2 = f_sec m1 -> Q ok m2) ->
    wp (match do_sign with Some f => status_of (on_hw (f q ctx)) | None => mret false end) Q R m1).
  { intros Q R HQ. destruct do_sign as [f |]; [apply wp_status_hw; intros; apply HQ; reflexivity | apply wp_ret, HQ; reflexivity]. }
  apply Hcall. intros signed m2 Em2. assert (Hi2 : sec_inv b (f_sec m2)) by (rewrite Em2; exact Hi1).
  apply wp_bind. destruct signed; [| apply wp_ret, Hburn, Hi2].
  eapply wp_conseq; [apply (state_commit_ok HT), (inv_slots _ _ Hi2) | | intros ? ? []].
  intros [|] m3 Hc3; [| apply Hburn, (sec_inv_core _ _ _ Hc3 Hi2)].
  apply wp_ret. split; [exact Hbq |]. split; [| split; [exact (committed_state _ _ _ _ Hc3) | exact (committed_ctr _ _ _ _ Hc3)]].
  apply (two_commits (q + 1) _ _ _ _ SEC_ST_RESERVED q SEC_ST_IDLE (q + 1) (inv_slots _ _ Hi) Hc1 (f_equal core Em2) Hc3);
    (unfold SEC_ST_RESERVED, SEC_ST_IDLE; lia) || (apply HbR; lia) || (apply HbI; lia).
Qed.

(** ** Recovery *)

Lemma wp_get_sec (Q : sec_t -> fmem -> Prop) R m : Q (f_sec m) m -> wp get_sec Q R m.
Proof. exact (fun HQ => HQ). Qed.

Lemma wp_set_sec f (Q : unit -> fmem -> Prop) R m : Q tt (mkFmem (f (f_sec m)) (f_hw m) (f_resp m)) -> wp (set_sec f) Q R m.
Proof. exact (fun HQ => HQ). Qed.

Lemma wp_lock {A} (Q : A -> fmem -> Prop) R m :
  R SEC_ST_ERROR_LOCKED (mkFmem ((f_sec m) {{ sec_state := SEC_ST_ERROR_LOCKED }}) (f_hw m) (f_resp m)) -> wp lock Q R m.
Proof. exact (fun HR => HR). Qed.

Abbreviation keeps b := (fun m' => sec_inv b (f_sec m')).

Lemma lock_keeps {A} b (Q : A -> fmem -> Prop) m : sec_inv b (f_sec m) -> wp lock Q (fun _ => keeps b) m.
Proof. intros Hi. apply wp_lock, (set_state_dead b); [exact Hi | discriminate..]. Qed.

Lemma rec_valid_ok rec i m :
  wp (rec_valid rec i) (fun v m' => core (f_sec m') = core (f_sec m) /\ (v = true -> rec_magic rec = SEC_MAGIC_STATE))
    (fun _ _ => False) m.
Proof.
  assert (Hq : core (f_sec (snd (rec_valid rec i m))) = core (f_sec m)) by apply quiet_rec_valid.
  unfold wp. revert Hq. unfold rec_valid, set_diag, mbind, M_bind. cbn -[core compute_tag].
  destruct (Z.eqb_spec (rec_magic rec) SEC_MAGIC_STATE) as [Em | _]; cbn -[core compute_tag]; [| intros E; split; [exact E | discriminate]].
  unfold attempt. destruct (compute_tag _ _ _) as [[tag | e] m']; cbn -[core]; [| intros E; split; [exact E | discriminate]].
  destruct (negb _); intros E; (split; [exact E |]); [discriminate | intros _; exact Em].
Qed.

Lemma choose_slot_valid v0 v1 a b c : choose_slot v0 v1 a b = Some (Some c) -> (c = 0 /\ v0 = true) \/ (c = 1 /\ v1 = true).
Proof.
  unfold choose_slot. destruct v0, v1; cbn; intros E.
  - destruct (rec_tx a =? rec_tx b); [destruct (negb _); [discriminate |] | destruct (rec_tx b <? rec_tx a)];
      injection E as <-; auto.
  - injection E as <-. auto.
  - injection E as <-. auto.
  - discriminate.
Qed.

Lemma slot_in s i : slots_ok s -> i = 0 \/ i = 1 -> In (slot_of s i) (sec_slots s).
Proof. intros [(a & b & E & _) _] [-> | ->]; unfold slot_of; rewrite E; cbn; auto. Qed.

Lemma slot_bound b s i : sec_inv b s -> i = 0 \/ i = 1 -> rec_bound b (slot_of s i).
Proof.
  intros Hi Hr. apply (proj1 (Forall_forall _ _) (inv_recs _ _ Hi)). exact (proj2 (list_elem_of_In _ _) (slot_in _ _ (inv_slots _ _ Hi) Hr)).
Qed.

Lemma rec_ctr_range rec : Forall is_byte rec -> 0 <= rec_ctr rec <= UINT_MAX.
Proof. intros Hb. apply get_be32_range, Forall_from, Hb. Qed.

Lemma boot_restore_ok b c v0 v1 m :
  sec_inv b (f_sec m) -> c = 0 \/ c = 1 -> rec_magic (slot_of (f_sec m) c) = SEC_MAGIC_STATE ->
  wp (boot_restore c v0 v1) (fun _ => keeps b) (fun _ => keeps b) m.
Proof.
  intros Hi Hc Hm. unfold boot_restore. apply wp_bind, wp_get_sec. cbv zeta.
  pose proof (slot_bound b _ c Hi Hc Hm) as (HbI & HbR & HbK).
  destruct (slot_of_ok _ c (inv_slots _ _ Hi) Hc) as [_ Hbytes]. pose proof (rec_ctr_range _ Hbytes) as Hrange.
  set (rec := slot_of (f_sec m) c) in *. apply wp_bind, wp_set_sec. set (m1 := mkFmem _ _ _).
  assert (Hi1 : sec_inv b (f_sec m1)).
  { apply (sec_inv_move b (f_sec m)); [exact Hi | reflexivity | exact Hc | apply (inv_live _ _ Hi) | apply (inv_ctr _ _ Hi)]. }
  clearbody m1. destruct (Z.eqb_spec (rec_st rec) SEC_ST_RESERVED) as [Est | _].
  - specialize (HbR Est). assert (Hu : u32 (rec_ctr rec + 1) = rec_ctr rec + 1) by (apply u32_small; unfold UINT_MAX in *; lia).
    rewrite Hu. apply wp_bind. eapply wp_conseq; [apply (commit_any b) with (R := fun _ _ => False) | | intros ? ? []].
    + exact Hi1.
    + unfold SEC_ST_IDLE. lia.
    + lia.
    + split; [intros _; lia | split; discriminate].
    + intros [|] m2 Hi2; [exact Hi2 | apply lock_keeps, Hi2].
  - destruct (Z.eqb_spec (rec_st rec) SEC_ST_KEYGEN_PENDING) as [Est | _].
    + apply wp_set_sec. apply (sec_inv_move b (f_sec m1)); [exact Hi1 | reflexivity | apply (inv_slots _ _ Hi1) | | exact Hrange].
      split; [discriminate | split; [discriminate | intros _; exact (HbK Est)]].
    + destruct (_ || _) eqn:Est; [| apply lock_keeps, Hi1].
      apply wp_set_sec. apply (sec_inv_move b (f_sec m1)); [exact Hi1 | reflexivity | apply (inv_slots _ _ Hi1) | | exact Hrange].
      cbn. split; [exact HbI | split; [exact HbR | exact HbK]].
Qed.

Lemma zero_magic rec : forallb (Z.eqb 0) rec = true -> rec_magic rec <> SEC_MAGIC_STATE.
Proof.
  intros Hz Hm. assert (Hrd : forall i, rd rec i = 0).
  { intros i. unfold rd. rewrite nth_lookup. destruct (rec !! Z.to_nat i) as [x |] eqn:E; [| reflexivity].
    rewrite forallb_forall in Hz. symmetry. apply Z.eqb_eq, Hz. apply list_elem_of_In. exact (list_elem_of_lookup_2 _ _ _ E). }
  unfold rec_magic, get_be32, SEC_OFF_MAGIC, from in Hm. cbn [Z.to_nat drop] in Hm.
  rewrite !Hrd in Hm. discriminate.
Qed.

Lemma boot_no_record_ok b m :
  sec_inv b (f_sec m) -> wp boot_no_record (fun _ => keeps b) (fun _ => keeps b) m.
Proof.
  intros Hi. unfold boot_no_record. apply wp_bind, wp_get_sec. destruct (negb _); [| apply wp_fail, Hi].
  destruct (slots_all_zero (f_sec m)) eqn:Hz; [| apply lock_keeps, Hi].
  apply wp_set_sec. apply (sec_inv_move b (f_sec m)); [exact Hi | reflexivity | apply (inv_slots _ _ Hi) | | cbn; unfold UINT_MAX; lia].
  destruct (inv_written _ _ Hi) as [Hb | He]; [split; [intros _; exact Hb | split; discriminate] |].
  apply Exists_exists in He as (rec & Hin & Hmag). unfold slots_all_zero in Hz. rewrite forallb_forall in Hz.
  destruct (zero_magic rec (Hz rec (proj1 (list_elem_of_In _ _) Hin)) Hmag).
Qed.

Lemma boot_unwrap_ok b m : sec_inv b (f_sec m) -> wp boot_unwrap (fun _ => keeps b) (fun _ => keeps b) m.
Proof.
  intros Hi. unfold boot_unwrap. apply wp_bind, wp_get_sec. destruct (_ || _); [apply wp_ret, Hi |].
  apply wp_bind, wp_status_hw. intros ok h. apply wp_bind, wp_set_sec.
  destruct ok; [apply wp_ret | apply lock_keeps]; (apply (sec_inv_core b (f_sec m)); [reflexivity | exact Hi]).
Qed.

Lemma boot_body_ok b I_ m : sec_inv b (f_sec m) -> wp (boot_body I_) (fun _ => keeps b) (fun _ => keeps b) m.
Proof.
  intros Hi. unfold boot_body. apply wp_bind. unfold set_state. apply wp_set_sec. apply wp_bind, wp_set_sec.
  apply wp_bind, wp_get_sec. set (m0 := mkFmem _ _ _).
  assert (Hi0 : sec_inv b (f_sec m0)) by (apply (sec_inv_core b ((f_sec m) {{ sec_state := SEC_ST_BOOTING }}));
    [reflexivity | apply set_state_dead; [exact Hi | discriminate..]]).
  clearbody m0. apply wp_bind. eapply wp_conseq; [apply (quiet_inv _ b); [preserves_tac | exact Hi0] | | intros ? ? Hx; exact Hx].
  intros ok m1 Hi1. apply wp_bind. eapply wp_conseq with (Q := fun _ => keeps b) (R := fun _ => keeps b);
    [destruct ok; [apply wp_ret, Hi1 | apply lock_keeps, Hi1] | | auto].
  intros ? m2 Hi2. apply wp_bind, wp_set_sec. apply wp_bind.
  eapply wp_conseq; [apply (boot_unwrap_ok b), (sec_inv_core b (f_sec m2)); [reflexivity | exact Hi2] | | auto].
  intros ? m3 Hi3. apply wp_bind, wp_get_sec.
  apply wp_bind. eapply wp_conseq; [apply rec_valid_ok | | intros ? ? []]. intros v0 m4 [E4 Hv0].
  apply wp_bind. eapply wp_conseq; [apply rec_valid_ok | | intros ? ? []]. intros v1 m5 [E5 Hv1].
  apply wp_bind, wp_set_sec. set (m6 := mkFmem _ _ _).
  assert (E6 : core (f_sec m6) = core (f_sec m3)) by (rewrite <- E4, <- E5; reflexivity).
  assert (Hi6 : sec_inv b (f_sec m6)) by exact (sec_inv_core b _ _ E6 Hi3).
  assert (Eslot : forall i, slot_of (f_sec m6) i = slot_of (f_sec m3) i).
  { intros i. exact (f_equal (fun c => nth (Z.to_nat i) (fst (fst (fst c))) []) E6). }
  clearbody m6. apply wp_bind.
  eapply wp_conseq with (Q := fun _ => keeps b) (R := fun _ => keeps b).
  - destruct (choose_slot _ _ _ _) as [[c |] |] eqn:Ech; [| apply boot_no_record_ok, Hi6 | apply lock_keeps, Hi6].
    apply choose_slot_valid in Ech as [[-> Hv] | [-> Hv]]; (apply boot_restore_ok; [exact Hi6 | auto |]); rewrite Eslot; auto.
  - intros ? m7 Hi7. apply wp_set_sec. apply (sec_inv_core b (f_sec m7)); [| exact Hi7]. cbn. destruct (_ && _); reflexivity.
  - auto.
Qed.

Lemma sec_boot_ok b I_ m : sec_inv b (f_sec m) -> wp (sec_boot I_) (fun _ => keeps b) (fun _ _ => False) m.
Proof.
  intros Hi. unfold sec_boot. apply wp_bind, wp_attempt. eapply wp_conseq; [apply (boot_body_ok b), Hi | |];
    intros ? m' Hm'; apply wp_bind, wp_get_sec, wp_ret, Hm'.
Qed.

(** ** The UART commands *)

Lemma from_upd i k v rec : 0 <= k -> 0 <= i -> i + 4 <= k -> forall j, 0 <= j < 4 -> rd (from i (upd k v rec)) j = rd (from i rec) j.
Proof.
  intros Hk Hi Hik j Hj. unfold rd, from, upd. rewrite !nth_lookup, !lookup_drop.
  rewrite list_lookup_insert_ne by lia. reflexivity.
Qed.

Lemma upd_tag_fields rec v : let rec' := upd SEC_OFF_TAG v rec in
  rec_magic rec' = rec_magic rec /\ rec_st rec' = rec_st rec /\ rec_ctr rec' = rec_ctr rec.
Proof.
  cbv zeta. unfold rec_magic, rec_st, rec_ctr, get_be16, get_be32, SEC_OFF_TAG, SEC_OFF_MAGIC, SEC_OFF_STATE, SEC_OFF_CTR.
  rewrite !from_upd by lia. auto.
Qed.

Lemma upd_bytes i v rec : Forall is_byte rec -> is_byte v -> Forall is_byte (upd i v rec).
Proof. intros Hr Hv. apply Forall_insert; assumption. Qed.

Lemma inject_tag_ok b m : sec_inv b (f_sec m) -> wp uart_inject_tag (fun _ => keeps b) (fun _ _ => False) m.
Proof.
  intros Hi. unfold uart_inject_tag.
  destruct LMS_FW_SEC_TEST_MODE; [| apply (sec_inv_core b (f_sec m)); [reflexivity | exact Hi]].
  apply wp_bind, wp_get_sec. cbv zeta. apply wp_bind. unfold set_slot. apply wp_set_sec, wp_ret. cbn -[upd slot_of].
  destruct Hi as [[(x & y & E & Lx & Ly & Bx & By) Ha] H2 H3 H4 H5]. set (s := f_sec m) in *.
  assert (Hu : is_byte (u8 (rd (slot_of s (sec_active_slot s)) SEC_OFF_TAG ^^ 0xff))) by apply u8_byte.
  assert (Hlen : forall i v (l : bytes), len (upd i v l) = len l) by (intros; unfold len, upd; rewrite length_insert; reflexivity).
  assert (Hb : forall rec v, rec_bound b rec -> rec_bound b (upd SEC_OFF_TAG v rec)).
  { intros rec v Hr. destruct (upd_tag_fields rec v) as (E1 & E2 & E3). unfold rec_bound. rewrite E1, E2, E3. exact Hr. }
  rewrite E in H2, H5. apply Forall_cons in H2 as [Hbx H2]. apply Forall_cons in H2 as [Hby _].
  unfold slot_of in *. rewrite E in *. destruct Ha as [Ha | Ha]; rewrite Ha in *; cbn -[upd].
  - split; [split; [exists (upd SEC_OFF_TAG (u8 (rd x SEC_OFF_TAG ^^ 0xff)) x), y | left; exact Ha] | | exact H3 | exact H4 |].
    + repeat split; [rewrite Hlen; exact Lx | exact Ly | apply upd_bytes; assumption | exact By].
    + apply Forall_cons. split; [apply Hb, Hbx | apply Forall_cons; split; [exact Hby | constructor]].
    + destruct H5 as [H5 | H5]; [left; exact H5 | right]. apply Exists_cons in H5 as [H5 | H5]; [apply Exists_cons_hd | apply Exists_cons_tl, H5].
      rewrite (proj1 (upd_tag_fields x _)). exact H5.
  - split; [split; [exists x, (upd SEC_OFF_TAG (u8 (rd y SEC_OFF_TAG ^^ 0xff)) y) | right; exact Ha] | | exact H3 | exact H4 |].
    + repeat split; [exact Lx | rewrite Hlen; exact Ly | exact Bx | apply upd_bytes; assumption].
    + apply Forall_cons. split; [exact Hbx | apply Forall_cons; split; [apply Hb, Hby | constructor]].
    + destruct H5 as [H5 | H5]; [left; exact H5 | right].
      apply Exists_cons in H5 as [H5 | H5]; [apply Exists_cons_hd, H5 | apply Exists_cons_tl].
      apply Exists_cons in H5 as [H5 | H5]; [apply Exists_cons_hd | inversion H5]. rewrite (proj1 (upd_tag_fields y _)). exact H5.
Qed.

Lemma allowed_bound b s st ctr :
  sec_inv b s -> sec_uart_commit_allowed s st ctr = true -> (st = SEC_ST_RESERVED -> ctr < UINT_MAX) -> bound b st ctr.
Proof.
  intros Hi Hall Hres. destruct (inv_live _ _ Hi) as (HI & HR & HK). unfold sec_uart_commit_allowed in Hall.
  destruct (Z.eqb_spec (sec_state s) SEC_ST_IDLE) as [E | _].
  - specialize (HI E). destruct (_ || _); [| discriminate]. apply Z.leb_le in Hall.
    split; [intros _; lia | split; [intros Est; split; [lia | exact (Hres Est)] | intros _; lia]].
  - destruct (Z.eqb_spec (sec_state s) SEC_ST_RESERVED) as [E | _].
    + specialize (HR E). destruct (Z.eqb_spec st SEC_ST_IDLE) as [-> | _]; [| discriminate]. apply Z.ltb_lt in Hall.
      split; [intros _; lia | split; discriminate].
    + destruct (Z.eqb_spec (sec_state s) SEC_ST_KEYGEN_PENDING) as [E | _]; [| discriminate].
      specialize (HK E). destruct (Z.eqb_spec st SEC_ST_IDLE) as [-> | _]; [| discriminate]. apply Z.leb_le in Hall.
      split; [intros _; lia | split; discriminate].
Qed.

(** A COMMIT command that does not reserve the last index a counter can hold. *)
Definition commit_sane (params : bytes) : Prop :=
  u16 (get_be32 params .& 0xffff) = SEC_ST_RESERVED -> get_be32 (from 4 params) < UINT_MAX.

Lemma u16_range x : 0 <= u16 x < 65536.
Proof. rewrite u16_mod. apply Z.mod_pos_bound. lia. Qed.

Lemma quiet_keeps {A} b (m : FM A) s : quiet m -> sec_inv b (f_sec s) -> wp m (fun _ => keeps b) (fun _ => keeps b) s.
Proof. exact (fun Hm => quiet_inv m b s Hm). Qed.

Lemma uart_commit_ok b params m :
  sec_inv b (f_sec m) -> Forall is_byte params -> commit_sane params ->
  wp (uart_commit params) (fun _ => keeps b) (fun _ => keeps b) m.
Proof.
  intros Hi Hp Hsane. unfold uart_commit. apply wp_bind, wp_get_sec.
  destruct (_ =? _); [apply (quiet_keeps b), Hi; preserves_tac |].
  destruct (_ =? _); [apply (quiet_keeps b), Hi; preserves_tac |].
  cbv zeta. set (st := u16 _) in *. destruct (_ || _) eqn:Hg; [apply (quiet_keeps b), Hi; preserves_tac |].
  apply orb_false_iff in Hg as [_ Hg]. apply negb_false_iff in Hg.
  apply wp_bind. eapply wp_conseq; [apply (commit_any b) with (R := fun _ _ => False) | | intros ? ? []].
  - exact Hi.
  - apply u16_range.
  - apply get_be32_range, Forall_from, Hp.
  - exact (allowed_bound b _ st _ Hi Hg Hsane).
  - intros ok m1 Hi1. apply (quiet_keeps b); [| exact Hi1]. preserves_tac.
Qed.

Lemma uart_boot_ok b params m : sec_inv b (f_sec m) -> wp (uart_boot params) (fun _ => keeps b) (fun _ => keeps b) m.
Proof.
  intros Hi. unfold uart_boot. apply wp_bind. eapply wp_conseq; [apply (sec_boot_ok b), Hi | | intros ? ? []].
  intros r m1 Hi1. apply (quiet_keeps b); [preserves_tac | exact Hi1].
Qed.

(** Every command but NVM_LOAD. *)
Lemma uart_ok b sub params m :
  sec_inv b (f_sec m) -> sub <> SEC_SUB_NVM_LOAD -> (sub = SEC_SUB_COMMIT -> Forall is_byte params /\ commit_sane params) ->
  wp (sec_handle_uart_cmd sub params) (fun _ => keeps b) (fun _ => keeps b) m.
Proof.
  intros Hi Hload Hcommit. unfold sec_handle_uart_cmd. apply wp_bind, wp_get_sec. apply wp_bind.
  eapply wp_conseq; [apply (quiet_keeps b), Hi; preserves_tac | | auto]. intros ? m1 Hi1.
  destruct (Z.eqb_spec sub SEC_SUB_COMMIT) as [E | _]; [destruct (Hcommit E); apply uart_commit_ok; assumption |].
  destruct (_ =? _); [apply (quiet_keeps b), Hi1; preserves_tac |].
  destruct (_ =? _); [apply (quiet_keeps b), Hi1; unfold uart_read_slot; preserves_tac |].
  destruct (_ =? _); [eapply wp_conseq; [apply (inject_tag_ok b), Hi1 | auto | intros ? ? []] |].
  destruct (_ =? _); [apply (quiet_keeps b), Hi1; unfold uart_factory_init; preserves_tac |].
  destruct (_ =? _); [apply uart_boot_ok, Hi1 |].
  destruct (_ =? _); [apply (quiet_keeps b), Hi1; preserves_tac |].
  destruct (Z.eqb_spec sub SEC_SUB_NVM_LOAD) as [E | _]; [contradiction |].
  apply (quiet_keeps b), Hi1. unfold uart_read_slot, uart_mc_load, uart_wrap_load, uart_wrapped_read. preserves_tac.
Qed.

(** ** Power loss *)

Definition zero_sec : sec_t :=
  mkSec NULL [fill 0 SEC_STATE_REC_LEN; fill 0 SEC_STATE_REC_LEN] [0; 0] 0 0 0 0 0 0 0 (fill 0 SEC_HELPER_LEN) [0; 0] [0; 0]
    (fill 0 LMS_MMIO_WRAPPED_LEN) 0 (fill 0 LMS_I_LEN) 0.

(** The statics are gone; the module is initialised and the host loads both records
    back, unchanged. *)
Definition power_loss (client : ptr) : FM unit :=
  s ← get_sec;
  set_sec (fun _ => zero_sec) ;;
  sec_init client ;;
  sec_handle_uart_cmd SEC_SUB_NVM_LOAD (0 :: slot_of s 0) ;;
  sec_handle_uart_cmd SEC_SUB_NVM_LOAD (1 :: slot_of s 1) ;;
  mret tt.

Lemma nvm_load_run i rec m :
  i = 0 \/ i = 1 -> len rec = SEC_STATE_REC_LEN ->
  exists m', sec_handle_uart_cmd SEC_SUB_NVM_LOAD (i :: rec) m = (Ok 0, m') /\ f_hw m' = f_hw m /\
    f_sec m' = (f_sec m) {{ sec_slots := upd i rec (sec_slots (f_sec m)); sec_slot_valid := upd i 1 (sec_slot_valid (f_sec m)) }}.
Proof.
  intros Hi Hl. assert (Hs : slice 1 SEC_STATE_REC_LEN (i :: rec) = rec).
  { rewrite <- (app_nil_r rec) at 1. apply (slice_exact 1 _ [i]); [reflexivity | symmetry; exact Hl]. }
  assert (Hg : (1 <? i) = false) by (destruct Hi as [-> | ->]; reflexivity).
  eexists. split.
  - unfold sec_handle_uart_cmd, uart_nvm_load. cbn [Z.eqb Pos.eqb SEC_SUB_NVM_LOAD SEC_SUB_COMMIT].
    change (rd (i :: rec) 0) with i. rewrite Hg, Hs. reflexivity.
  - split; reflexivity.
Qed.

(** The statics after the reload. *)
Definition reloaded (client : ptr) (slots : list bytes) : sec_t :=
  zero_sec {{ sec_client := client; sec_slots := slots; sec_slot_valid := [1; 1]; sec_state := SEC_ST_BOOTING }}.

Lemma power_loss_run client m :
  slots_ok (f_sec m) ->
  exists m', power_loss client m = (Ok tt, m') /\ f_hw m' = f_hw m /\ f_sec m' = reloaded client (sec_slots (f_sec m)).
Proof.
  intros Hs. destruct (slot_of_ok _ 0 Hs ltac:(auto)) as [L0 _]. destruct (slot_of_ok _ 1 Hs ltac:(auto)) as [L1 _].
  cbv beta iota delta [power_loss mbind M_bind get_sec set_sec sec_init modify mret M_ret].
  match goal with |- context [sec_handle_uart_cmd _ (0 :: _) ?x] => set (m1 := x) end.
  destruct (nvm_load_run 0 (slot_of (f_sec m) 0) m1 ltac:(auto) L0) as (m2 & E2 & Hh2 & Hs2). rewrite E2.
  destruct (nvm_load_run 1 (slot_of (f_sec m) 1) m2 ltac:(auto) L1) as (m3 & E3 & Hh3 & Hs3). rewrite E3.
  exists m3. split; [reflexivity |]. split; [rewrite Hh3, Hh2; reflexivity |].
  rewrite Hs3, Hs2. destruct (slots_two _ Hs) as (x & y & E & _). unfold slot_of. rewrite E. reflexivity.
Qed.

Lemma power_loss_ok b client m :
  sec_inv b (f_sec m) -> exists m', power_loss client m = (Ok tt, m') /\ sec_inv b (f_sec m').
Proof.
  intros Hi. destruct (power_loss_run client m (inv_slots _ _ Hi)) as (m' & E & _ & Es). exists m'. split; [exact E |].
  rewrite Es. apply (sec_inv_move b (f_sec m)); [exact Hi | reflexivity | auto | apply bound_dead; discriminate |].
  cbn. unfold UINT_MAX. lia.
Qed.
End Counter.
