(* ===== verification/SecBoot.v ===== *)
(** Recovery restores what was committed (fw/lms_sec_state.c): under the contract of the
    accelerator's tag, the record of the last commit is the one [sec_boot] restores. *)

From S2P Require Import Prelude Sha256 Types Params MmioRegs SecState SecStateCorrect.

(** What the firmware relies on: both commands compute the same tag [T] under the key in
    the K_STATE slot, over the 48 bytes of the record and the number of its slot; only the
    load of K_STATE changes that key; the tag and the loads succeed. *)
Record tag_contract `{H : SecHw} (T : bytes -> bytes -> bytes) (kstate : hw -> bytes) : Prop := {
  contract_hmac : forall c msg h, exists out h', lms_mmio_hmac_kstate c msg h = (Ok out, h') /\
    slice 0 SEC_STATE_TAG_LEN out = T (kstate h) msg /\ kstate h' = kstate h;
  contract_commit : forall c st ctr aad h tx tag h', lms_mmio_state_commit c st ctr aad h = (Ok (tx, tag), h') ->
    tag = T (kstate h) (encode_body st ctr tx ++ [aad]) /\ kstate h' = kstate h;
  contract_mc_step : forall c h tx h', lms_mmio_mc_step c h = (Ok tx, h') -> kstate h' = kstate h;
  contract_load_wrap : forall c k h, exists h', lms_mmio_key_slot_load_test c LMS_MMIO_KEY_KWRAP k h = (Ok tt, h');
  contract_load_state : forall c k h, exists h',
    lms_mmio_key_slot_load_test c LMS_MMIO_KEY_KSTATE k h = (Ok tt, h') /\ kstate h' = k
}.

(** K_STATE of the key with identifier [I]. *)
Definition state_key (I_ : bytes) : bytes :=
  sec_kdf (fe_rep sim_puf_read (fill 0 SEC_HELPER_LEN) 0) I_ SEC_KDF_LABEL_STATE.

(** What recovery makes of a committed record: a reserved index is burned, which is a
    commit of its own; the other states are restored. *)
Definition recovered (st ctr : Z) (s : sec_t) : Prop :=
  if st =? SEC_ST_RESERVED
  then (sec_state s = SEC_ST_IDLE /\ sec_ctr s = u32 (ctr + 1)) \/ sec_state s = SEC_ST_ERROR_LOCKED
  else sec_state s = st /\ sec_ctr s = ctr.

Section Recovery.
Context `{H : SecHw}.
Context (HT : SecHwTypes H).
Variable T : bytes -> bytes -> bytes.
Variable kstate : hw -> bytes.
Hypothesis HC : tag_contract T kstate.

(** ** The tag of a commit *)

(** The record of the commit and its tag. *)
Definition tagged (m m' : fmem) (st ctr : Z) : Prop :=
  exists tx, sec_last_tx (f_sec m) < tx <= UINT_MAX /\ 0 <= tx /\ kstate (f_hw m') = kstate (f_hw m) /\
    let i := inactive_slot (f_sec m) in
    let tag := T (kstate (f_hw m)) (encode_body st ctr tx ++ [i]) in
    len tag = SEC_STATE_TAG_LEN /\ sec_slots (f_sec m') = upd i (new_rec st ctr tx tag) (sec_slots (f_sec m)).

Lemma commit_finish_run m st ctr tx tag :
  slots_ok (f_sec m) -> len tag = SEC_STATE_TAG_LEN ->
  wp (commit_finish (inactive_slot (f_sec m)) st ctr tx tag)
    (fun ok m' => ok = true -> sec_last_tx (f_sec m) < tx /\ f_hw m' = f_hw m /\
       sec_slots (f_sec m') = upd (inactive_slot (f_sec m)) (new_rec st ctr tx tag) (sec_slots (f_sec m))) (fun _ _ => True) m.
Proof.
  intros Hs Hlen. unfold commit_finish. apply wp_bind, wp_get_sec.
  destruct (Z.leb_spec tx (sec_last_tx (f_sec m))) as [Hle | Hgt]; [intros E; discriminate |].
  destruct (slot_of_ok _ (inactive_slot (f_sec m)) Hs) as [Hrl _].
  { destruct Hs as [_ [E | E]]; unfold inactive_slot; rewrite E; auto. }
  rewrite (write_rec _ _ _ _ _ Hrl Hlen). unfold rec_valid_check.
  rewrite new_rec_magic, (new_rec_tag _ _ _ _ Hlen).
  unfold same. rewrite bool_decide_true by reflexivity. cbn. intros _. auto.
Qed.

Lemma state_commit_tagged st ctr m :
  slots_ok (f_sec m) -> wp (state_commit st ctr) (fun ok m' => ok = true -> tagged m m' st ctr) (fun _ _ => True) m.
Proof.
  intros Hs. unfold state_commit. apply wp_bind, wp_get_sec. cbv zeta.
  rewrite (inactive_u8 _ Hs). apply wp_bind. change (wp (get_hw ?f) ?Q ?R m) with (Q (f (f_hw m)) m). cbv beta.
  destruct (negb _); apply wp_bind, wp_attempt, wp_on_hw.
  - intros [[tx tag] | e] h E; [| intros E'; discriminate].
    destruct (state_commit_type _ _ _ _ _ _ _ _ E) as (Htx & Hl & _).
    destruct (contract_commit _ _ HC _ _ _ _ _ _ _ _ E) as [-> Ek].
    eapply wp_conseq; [apply (commit_finish_run (mkFmem (f_sec m) h (f_resp m))); assumption | | auto].
    intros ok m' Hok Hb. destruct (Hok Hb) as (Hgt & Eh & Es). cbn in Hgt, Eh, Es. exists tx.
    rewrite Eh. repeat split; try assumption; lia.
  - intros [tx | e] h E; [| intros E'; discriminate]. pose proof (mc_step_type _ _ _ _ E) as Htx.
    pose proof (contract_mc_step _ _ HC _ _ _ _ E) as Ek.
    destruct (tx <=? sec_last_tx (f_sec m)); [intros E'; discriminate |].
    apply wp_bind, wp_attempt. unfold compute_tag. apply wp_bind, wp_get_sec. apply wp_bind, wp_on_hw.
    cbn [f_hw f_sec f_resp]. intros r h1 E1.
    destruct (contract_hmac _ _ HC (sec_client (f_sec m)) (slice 0 SEC_BODY_LEN (encode_body st ctr tx) ++ build_aad (inactive_slot (f_sec m))) h)
      as (out & h2 & E2 & Etag & Ek2). rewrite E1 in E2. injection E2 as -> ->.
    change (slice 0 SEC_BODY_LEN (encode_body st ctr tx)) with (encode_body st ctr tx) in E1, Etag. rewrite Ek in Etag. rewrite Etag.
    assert (Hl : len (T (kstate (f_hw m)) (encode_body st ctr tx ++ build_aad (inactive_slot (f_sec m)))) = SEC_STATE_TAG_LEN).
    { rewrite <- Etag. destruct (hmac_type _ _ _ _ _ E1) as [Hl _]. apply len_slice; unfold LMS_N, SEC_STATE_TAG_LEN in *; lia. }
    apply wp_ret. eapply wp_conseq; [apply (commit_finish_run (mkFmem (f_sec m) h2 (f_resp m))); assumption | | auto].
    intros ok m' Hok Hb. destruct (Hok Hb) as (Hgt & Eh & Es). cbn in Hgt, Eh, Es. exists tx.
    rewrite Eh, Ek2. repeat split; try assumption; lia.
Qed.

(** ** Which record is restored *)

Lemma rec_valid_run rec i m :
  exists m', rec_valid rec i m
    = (Ok ((rec_magic rec =? SEC_MAGIC_STATE) && same (T (kstate (f_hw m)) (slice 0 SEC_BODY_LEN rec ++ [i])) (rec_tag rec)), m') /\
    kstate (f_hw m') = kstate (f_hw m) /\ exists d, f_sec m' = (f_sec m) {{ sec_rec_diag := d }}.
Proof.
  destruct m as [[c1 c2 c3 c4 c5 c6 c7 c8 c9 c10 c11 c12 c13 c14 c15 c16 c17] h0 r0].
  unfold rec_valid, set_diag, mbind, M_bind. cbn -[compute_tag slice same rec_magic rec_tag upd].
  destruct (rec_magic rec =? SEC_MAGIC_STATE); cbn -[compute_tag slice same rec_tag upd].
  2: { eexists. repeat split. eexists. reflexivity. }
  unfold attempt, compute_tag, mbind, M_bind, get_sec, on_hw. cbn -[slice same rec_tag upd].
  destruct (contract_hmac _ _ HC c1 (slice 0 SEC_BODY_LEN rec ++ [i]) h0) as (out & h & E & Et & Ek).
  unfold build_aad. rewrite E. cbn -[slice same rec_tag upd]. rewrite Et. destruct (same _ _); cbn -[upd];
    (eexists; split; [reflexivity |]; split; [exact Ek | eexists; reflexivity]).
Qed.

Lemma rec_valid_new i st ctr tx :
  forall k, len (T k (encode_body st ctr tx ++ [i])) = SEC_STATE_TAG_LEN ->
  let rec := new_rec st ctr tx (T k (encode_body st ctr tx ++ [i])) in
  (rec_magic rec =? SEC_MAGIC_STATE) && same (T k (slice 0 SEC_BODY_LEN rec ++ [i])) (rec_tag rec) = true.
Proof.
  intros k Hl rec. subst rec. rewrite new_rec_magic, new_rec_body, (new_rec_tag _ _ _ _ Hl). unfold same.
  rewrite bool_decide_true by reflexivity. reflexivity.
Qed.

(** A valid record with the larger transaction number wins. *)
Lemma choose_new (i : Z) (v0 v1 : bool) (a b : bytes) :
  i = 0 \/ i = 1 -> (if i =? 0 then v0 else v1) = true ->
  (if i =? 0 then rec_tx b < rec_tx a else rec_tx a < rec_tx b) -> choose_slot v0 v1 a b = Some (Some i).
Proof.
  unfold choose_slot. intros [-> | ->]; cbn; intros -> Htx.
  - destruct v1; [| reflexivity]. cbn. destruct (Z.eqb_spec (rec_tx a) (rec_tx b)); [lia |].
    destruct (Z.ltb_spec (rec_tx b) (rec_tx a)); [reflexivity | lia].
  - destruct v0; [| reflexivity]. cbn. destruct (Z.eqb_spec (rec_tx a) (rec_tx b)); [lia |].
    destruct (Z.ltb_spec (rec_tx b) (rec_tx a)); [lia | reflexivity].
Qed.

Lemma load_keys_run I_ m :
  sec_helper (f_sec m) = fill 0 SEC_HELPER_LEN ->
  exists h, sec_load_hw_keys_i (fe_rep sim_puf_read (sec_helper (f_sec m)) 0) I_ m = (Ok tt, mkFmem (f_sec m) h (f_resp m)) /\
    kstate h = state_key I_.
Proof.
  intros ->. unfold sec_load_hw_keys_i, mbind, M_bind, get_sec, on_hw. cbn -[sec_kdf fe_rep].
  destruct (contract_load_wrap _ _ HC (sec_client (f_sec m))
    (sec_kdf (fe_rep sim_puf_read (fill 0 SEC_HELPER_LEN) 0) I_ SEC_KDF_LABEL_WRAP) (f_hw m)) as (h1 & E1).
  rewrite E1. cbn -[sec_kdf fe_rep].
  destruct (contract_load_state _ _ HC (sec_client (f_sec m)) (state_key I_) h1) as (h2 & E2 & Ek).
  unfold state_key in *. rewrite E2. exists h2. split; [reflexivity | exact Ek].
Qed.

Definition known_state (st : Z) : Prop :=
  st = SEC_ST_IDLE \/ st = SEC_ST_RESERVED \/ st = SEC_ST_KEYGEN_PENDING \/ st = SEC_ST_EXHAUSTED.

Lemma boot_restore_new i v0 v1 st ctr tx tag m :
  slots_ok (f_sec m) -> i = 0 \/ i = 1 -> slot_of (f_sec m) i = new_rec st ctr tx tag ->
  known_state st -> 0 <= ctr <= UINT_MAX ->
  wp (boot_restore i v0 v1) (fun _ m' => recovered st ctr (f_sec m')) (fun _ m' => recovered st ctr (f_sec m')) m.
Proof.
  intros Hs Hi Erec Hst Hctr. unfold boot_restore. apply wp_bind, wp_get_sec. cbv zeta. rewrite Erec.
  assert (Hst16 : 0 <= st < 65536) by (destruct Hst as [-> | [-> | [-> | ->]]]; split; reflexivity || discriminate).
  rewrite (new_rec_st _ _ _ _ Hst16), (new_rec_ctr _ _ _ _ Hctr). apply wp_bind, wp_set_sec. unfold recovered.
  destruct Hst as [-> | [-> | [-> | ->]]]; cbn [Z.eqb Pos.eqb SEC_ST_IDLE SEC_ST_RESERVED SEC_ST_KEYGEN_PENDING SEC_ST_EXHAUSTED orb].
  - apply wp_set_sec. split; reflexivity.
  - apply wp_bind. eapply wp_conseq; [apply (state_commit_ok HT) | | intros ? ? []].
    { destruct Hs as [H1 _]. split; [exact H1 | exact Hi]. }
    intros [|] m' Hm'; [apply wp_ret; left; split; apply Hm' | apply wp_lock; right; reflexivity].
  - apply wp_set_sec. split; reflexivity.
  - apply wp_set_sec. split; reflexivity.
Qed.

(** The boot, on slots of which slot [i] holds the newest record. *)
Lemma boot_newest I_ client slots i st ctr tx m :
  let tag := T (state_key I_) (encode_body st ctr tx ++ [i]) in
  let s := reloaded client slots in
  f_sec m = s -> slots_ok s -> i = 0 \/ i = 1 -> slot_of s i = new_rec st ctr tx tag -> rec_tx (slot_of s (1 - i)) < tx ->
  len tag = SEC_STATE_TAG_LEN -> 0 <= tx <= UINT_MAX -> known_state st -> 0 <= ctr <= UINT_MAX ->
  wp (boot_body I_) (fun _ m' => recovered st ctr (f_sec m')) (fun _ m' => recovered st ctr (f_sec m')) m.
Proof.
  intros tag s Em Hs Hi Erec Hold Hlen Htx Hst Hctr. unfold boot_body. apply wp_bind. unfold set_state. apply wp_set_sec.
  apply wp_bind, wp_set_sec. apply wp_bind, wp_get_sec. rewrite Em. set (m0 := mkFmem _ _ _).
  destruct (load_keys_run I_ m0 eq_refl) as (h & Eload & Ek).
  apply wp_bind. unfold status_of. apply wp_bind, wp_attempt.
  unfold wp at 1. rewrite Eload. apply wp_ret. apply wp_bind, wp_ret. apply wp_bind, wp_set_sec. apply wp_bind.
  unfold boot_unwrap. apply wp_bind, wp_get_sec. rewrite orb_true_r. apply wp_ret. apply wp_bind, wp_get_sec.
  set (m1 := mkFmem _ _ _). assert (Ek1 : kstate (f_hw m1) = state_key I_) by exact Ek.
  assert (Eslot : forall k, slot_of (f_sec m1) k = slot_of s k) by (intros k; reflexivity).
  assert (Hs1 : slots_ok (f_sec m1)) by (destruct Hs as [Hs _]; split; [exact Hs | left; reflexivity]).
  clearbody m1. rewrite !Eslot.
  destruct (rec_valid_run (slot_of s 0) 0 m1) as (m2 & E2 & Ek2 & d2 & Es2).
  destruct (rec_valid_run (slot_of s 1) 1 m2) as (m3 & E3 & Ek3 & d3 & Es3). rewrite Ek2 in E3. rewrite Ek1 in E2, E3.
  apply wp_bind. unfold wp at 1. rewrite E2. apply wp_bind. unfold wp at 1. rewrite E3. apply wp_bind, wp_set_sec.
  set (v0 := _ && _). set (v1 := _ && _).
  assert (Hv : (if i =? 0 then v0 else v1) = true).
  { destruct Hi as [-> | ->]; unfold v0, v1; cbn [Z.eqb]; rewrite Erec; apply rec_valid_new, Hlen. }
  rewrite (choose_new i v0 v1 (slot_of s 0) (slot_of s 1) Hi Hv).
  2: { destruct Hi as [-> | ->]; cbn [Z.eqb]; rewrite Erec; unfold tag; rewrite new_rec_tx by exact Htx; exact Hold. }
  set (m4 := mkFmem _ _ _).
  assert (Eslot4 : slot_of (f_sec m4) i = new_rec st ctr tx tag).
  { rewrite <- Erec, <- Eslot. unfold m4. cbn. rewrite Es3, Es2. reflexivity. }
  assert (Hs4 : slots_ok (f_sec m4)).
  { apply (slots_ok_core (f_sec m1)); [| exact Hs1]. unfold m4. cbn. rewrite Es3, Es2. reflexivity. }
  clearbody m4. apply wp_bind. eapply wp_conseq; [apply (boot_restore_new i _ _ st ctr tx tag m4 Hs4 Hi Eslot4 Hst Hctr) | | auto].
  intros ? m5 Hrec. apply wp_set_sec. revert Hrec. cbn [f_sec]. destruct (negb _ && negb _); exact (fun Hr => Hr).
Qed.
End Recovery.
