(* ===== verification/SecTheorems.v ===== *)
(** The properties of the security state domain (fw/lms_sec_state.c): over any history,
    power losses included, no index is released twice and a released index is committed
    first; the outcomes of the signing transaction; recovery restores what was
    committed; and three places where the code falls short of its comments. *)

From Stdlib Require Import Sorting.Sorted.
From S2P Require Import Prelude Sha256 Types Params MmioRegs SecState SecStateCorrect SecBoot.

(** * A new key *)

Section KeygenNew.
Context `{H : SecHw}.

(** What the statics say about signing. *)
Definition signing (s : sec_t) : list bytes * Z * Z * Z * (Z * Z * Z * Z) :=
  (core s, (sec_last_tx s, sec_key_index s, sec_factory_locked s, sec_key_loaded s)).

Abbreviation keeps_signing := (preserves (fun m => signing (f_sec m))).
Abbreviation auth_only c := (forall m, wp c (fun _ _ => True) (fun e _ => e = SEC_ERR_AUTH) m).

Lemma load_keys_keep I_ : preserves (fun m => (signing (f_sec m), sec_key_I (f_sec m))) (load_keys I_).
Proof. unfold load_keys, sec_load_hw_keys_i. preserves_tac. Qed.

Lemma auth_or_return {A} (c : FM A) : auth_only (or_return SEC_ERR_AUTH c).
Proof. intros m. apply wp_or_return. unfold wp. destruct (c m) as [[a | e] m']; [exact I | reflexivity]. Qed.

Lemma wp_random n (Q : bytes -> fmem -> Prop) R m : (forall b h, Q b (mkFmem (f_sec m) h (f_resp m))) -> wp (random n) Q R m.
Proof. intros HQ. unfold wp, random, on_hw. destruct (lms_rnd n (f_hw m)) as [b h]. apply HQ. Qed.

Lemma sources_ok I_new m :
  wp (keygen_new_sources I_new)
    (fun _ m' => signing (f_sec m') = signing (f_sec m) /\ (LMS_FW_SEC_TEST_MODE = true -> sec_key_I (f_sec m') = I_new))
    (fun e m' => e = SEC_ERR_AUTH /\ signing (f_sec m') = signing (f_sec m)) m.
Proof.
  unfold keygen_new_sources. destruct LMS_FW_SEC_TEST_MODE; [apply wp_set_sec; split; reflexivity |].
  apply wp_bind, wp_random. intros b h. apply wp_bind, wp_set_sec. apply wp_bind, wp_random. intros b2 h2. apply wp_bind.
  change (wp (get_hw ?f) ?Q ?R ?m) with (Q (f (f_hw m)) m). cbv beta.
  destruct (_ && _); [apply wp_bind, wp_set_sec, wp_fail; split; reflexivity |].
  apply wp_bind, wp_get_sec. apply wp_bind, wp_status_hw. intros [|] h3.
  - apply wp_ret. split; [reflexivity | discriminate].
  - apply wp_bind, wp_set_sec, wp_fail. split; reflexivity.
Qed.

Lemma load_keys_auth I_ : auth_only (load_keys I_).
Proof. intros m. unfold load_keys. apply wp_bind, wp_get_sec, auth_or_return. Qed.

Lemma keep_wrapped_ok m :
  wp keep_wrapped
    (fun _ m' => (signing (f_sec m'), sec_key_I (f_sec m')) = (signing (f_sec m), sec_key_I (f_sec m)) /\ sec_wrapped_valid (f_sec m') = 1)
    (fun e m' => e = SEC_ERR_AUTH /\ signing (f_sec m') = signing (f_sec m)) m.
Proof.
  unfold keep_wrapped. apply wp_bind, wp_get_sec. apply wp_bind, wp_or_return, wp_on_hw. intros [w | e] h _; [| split; reflexivity].
  apply wp_set_sec. split; reflexivity.
Qed.

(** A step that keeps [g] and fails with [SEC_ERR_AUTH] only. *)
Lemma wp_auth {A X} (g : fmem -> X) (c : FM A) (Q : A -> fmem -> Prop) (R : Z -> fmem -> Prop) x m :
  preserves g c -> auth_only c -> g m = x -> (forall m', g m' = x -> R SEC_ERR_AUTH m') -> (forall a m', g m' = x -> Q a m') ->
  wp c Q R m.
Proof.
  intros Hg He Hx HR HQ. specialize (Hg m). specialize (He m). unfold wp in *. destruct (c m) as [[a | e] m']; cbn in *.
  - apply HQ. congruence.
  - subst e. apply HR. congruence.
Qed.
End KeygenNew.

(** A new key starts from nothing, or not at all: when [sec_keygen_new] succeeds, both
    records are erased, the counter and the transaction number are 0, the state is IDLE,
    and the identifier returned (in the test build, the caller's) is the active one;
    when it fails, it is with [SEC_ERR_AUTH], and the records, the state, the counter
    and the flags are those of the old key. *)
Theorem keygen_new_outcomes `{H : SecHw} (I_new : bytes) (m : fmem) :
  match sec_keygen_new I_new m with
  | (Ok I_, m') =>
      let s' := f_sec m' in
      signing s' = ([fill 0 SEC_STATE_REC_LEN; fill 0 SEC_STATE_REC_LEN], 0, SEC_ST_IDLE, 0,
                    (0, u32 (sec_key_index (f_sec m) + 1), 1, 1)) /\
      sec_slot_valid s' = [0; 0] /\ sec_keygen_pending s' = 0 /\ sec_wrapped_valid s' = 1 /\ sec_key_I s' = I_ /\
      (LMS_FW_SEC_TEST_MODE = true -> I_ = I_new)
  | (Err e, m') => e = SEC_ERR_AUTH /\ signing (f_sec m') = signing (f_sec m)
  end.
Proof.
  refine ((fun Hwp : wp (sec_keygen_new I_new) (fun q m' => _) (fun rc m' => _) m => Hwp) _).
  set (sg := signing (f_sec m)).
  assert (HR : forall m' : fmem, signing (f_sec m') = sg -> SEC_ERR_AUTH = SEC_ERR_AUTH /\ signing (f_sec m') = sg) by auto.
  unfold sec_keygen_new. apply wp_bind. eapply wp_conseq; [apply sources_ok | | auto]. intros ? m1 [E1 Htest].
  apply wp_bind, wp_get_sec. apply wp_bind.
  apply (wp_auth (fun m => (signing (f_sec m), sec_key_I (f_sec m))) _ _ _ (sg, sec_key_I (f_sec m1)));
    [apply load_keys_keep | apply load_keys_auth | rewrite E1; reflexivity | intros m' E'; exact (HR m' (f_equal fst E')) |].
  intros ? m2 E2. apply wp_bind. eapply wp_conseq; [apply keep_wrapped_ok | |].
  - intros ? m3 [E3 Hw]. rewrite E2 in E3. apply wp_bind, wp_set_sec, wp_ret. split; [| repeat (split; [reflexivity || exact Hw |])].
    + replace (sec_key_index (f_sec m)) with (sec_key_index (f_sec m3)); [reflexivity |].
      exact (f_equal (fun x => snd (fst (fst (snd (fst x))))) E3).
    + split; [exact (f_equal snd E3) | exact Htest].
  - intros e m3 [He E3]. split; [exact He |]. rewrite E3. exact (f_equal fst E2).
Qed.

(** * Histories *)

(** What the firmware and the host may do with the module, and what may happen to it.  A power
    loss finds the host with the two records as they were last committed. *)
Inductive sec_event `{H : SecHw} :=
| ESign (max_ctr : Z) (do_sign : option do_sign_fn) (ctx : ptr)
| EBoot (I_ : bytes)
| EKeygen
| EKeygenNew (I_new : bytes)
| EUart (sub : Z) (params : bytes)
| EPowerLoss (client : ptr)
| EInterrupted (max_ctr : Z) (do_sign : option do_sign_fn) (ctx client : ptr).

(** What one sees of an event: an index is released, the records are erased for a new key. *)
Inductive sec_mark := Released (q : Z) | NewKey.

(** The released indices, each with the number of the key generation it follows. *)
Fixpoint per_key (k : Z) (marks : list sec_mark) : list (Z * Z) :=
  match marks with
  | [] => []
  | Released q :: marks => (k, q) :: per_key k marks
  | NewKey :: marks => per_key (k + 1) marks
  end.

(** The number of the last key generation. *)
Fixpoint last_key (k : Z) (marks : list sec_mark) : Z :=
  match marks with
  | [] => k
  | Released _ :: marks => last_key k marks
  | NewKey :: marks => last_key (k + 1) marks
  end.

(** Of one key, with a smaller index, or of an earlier key. *)
Definition earlier (a b : Z * Z) : Prop := a.1 < b.1 \/ a.1 = b.1 /\ a.2 < b.2.

Section Histories.
Context `{H : SecHw}.

(** [sec_sign] up to its callback, then the power goes. *)
Definition sign_interrupted (max_ctr : Z) (do_sign : option do_sign_fn) (ctx client : ptr) : FM unit :=
  s ← get_sec;
  (if (sec_state s =? SEC_ST_IDLE) && (sec_ctr s <? max_ctr) then
     state_commit SEC_ST_RESERVED (sec_ctr s) ;;
     match do_sign with Some f => status_of (on_hw (f (sec_ctr s) ctx)) ;; mret tt | None => mret tt end
   else mret tt) ;;
  power_loss client.

Definition run_event (e : sec_event) : FM (list sec_mark) :=
  match e with
  | ESign max_ctr f ctx =>
      r ← attempt (sec_sign max_ctr f ctx); mret (match r with Ok q => [Released q] | Err _ => [] end)
  | EBoot I_ => attempt (sec_boot I_) ;; mret []
  | EKeygen => attempt sec_keygen_key ;; mret []
  | EKeygenNew I_new =>
      r ← attempt (sec_keygen_new I_new); mret (match r with Ok _ => [NewKey] | Err _ => [] end)
  | EUart sub params => attempt (sec_handle_uart_cmd sub params) ;; mret []
  | EPowerLoss client => attempt (power_loss client) ;; mret []
  | EInterrupted max_ctr f ctx client => attempt (sign_interrupted max_ctr f ctx client) ;; mret []
  end.

Fixpoint run_events (es : list sec_event) : FM (list sec_mark) :=
  match es with
  | [] => mret []
  | e :: es' => marks ← run_event e; rest ← run_events es'; mret (marks ++ rest)
  end.

(** The arguments have their C types. *)
Definition event_typed (e : sec_event) : Prop :=
  match e with
  | ESign max_ctr _ _ | EInterrupted max_ctr _ _ _ => 0 <= max_ctr <= UINT_MAX
  | EUart _ params => Forall is_byte params
  | _ => True
  end.

(** The two commands with which a host undoes what was committed: it writes a record of its own
    into a slot, or it reserves the last value of the counter. *)
Definition breaks_discipline (e : sec_event) : bool :=
  match e with
  | EUart sub params =>
      (sub =? SEC_SUB_NVM_LOAD) ||
      ((sub =? SEC_SUB_COMMIT) && (u16 (get_be32 params .& 0xffff) =? SEC_ST_RESERVED)
       && (UINT_MAX <=? get_be32 (from 4 params)))
  | _ => false
  end.

Context (HT : SecHwTypes H).

Abbreviation keeps b := (fun m' => sec_inv b (f_sec m')).

Lemma bound_weaken b b' st ctr : b' <= b -> bound b st ctr -> bound b' st ctr.
Proof.
  intros Hb (H1 & H2 & H3). split; [| split].
  - intros E. specialize (H1 E). lia.
  - intros E. specialize (H2 E). lia.
  - intros E. specialize (H3 E). lia.
Qed.

Lemma sec_inv_weaken b b' s : b' <= b -> sec_inv b s -> sec_inv b' s.
Proof.
  intros Hb [H1 H2 H3 H4 H5]. split; [exact H1 | | exact (bound_weaken _ _ _ _ Hb H3) | exact H4 | destruct H5; [left; lia | auto]].
  eapply Forall_impl; [exact H2 |]. intros rec Hr Hm. exact (bound_weaken _ _ _ _ Hb (Hr Hm)).
Qed.

(** Erased records and a counter of 0. *)
Lemma sec_inv_erased st s :
  core s = ([fill 0 SEC_STATE_REC_LEN; fill 0 SEC_STATE_REC_LEN], 0, st, 0) -> st = SEC_ST_IDLE \/ st = SEC_ST_BOOTING ->
  sec_inv 0 s.
Proof.
  unfold core. intros [= E1 E2 E3 E4] Hst.
  assert (Hz : Forall is_byte (fill 0 SEC_STATE_REC_LEN)) by (apply Forall_replicate; unfold is_byte; lia).
  split; rewrite ?E1, ?E3, ?E4.
  - split; [rewrite E1; exists (fill 0 64), (fill 0 64); repeat split; assumption | rewrite E2; auto].
  - repeat constructor; discriminate.
  - destruct Hst as [-> | ->]; [split; [intros _; lia | split; discriminate] | apply bound_dead; discriminate].
  - unfold UINT_MAX. lia.
  - left. lia.
Qed.

Lemma interrupted_keeps b max_ctr f ctx client m :
  sec_inv b (f_sec m) -> 0 <= max_ctr <= UINT_MAX ->
  wp (sign_interrupted max_ctr f ctx client) (fun _ => keeps b) (fun _ => keeps b) m.
Proof.
  intros Hi Hmax. unfold sign_interrupted. apply wp_bind, wp_get_sec. apply wp_bind.
  eapply wp_conseq with (Q := fun _ => keeps b) (R := fun _ => keeps b); [| | auto].
  - destruct (Z.eqb_spec (sec_state (f_sec m)) SEC_ST_IDLE) as [Est | _]; [| apply wp_ret, Hi].
    destruct (Z.ltb_spec (sec_ctr (f_sec m)) max_ctr) as [Hlt | _]; [| apply wp_ret, Hi]. cbn [andb].
    pose proof (proj1 (inv_live _ _ Hi) Est) as Hb. pose proof (inv_ctr _ _ Hi).
    apply wp_bind. eapply wp_conseq; [apply (commit_any HT b) with (R := fun _ => keeps b) | | auto].
    + exact Hi.
    + unfold SEC_ST_RESERVED. lia.
    + lia.
    + split; [discriminate | split; [intros _; lia | discriminate]].
    + intros ? m1 Hi1. destruct f as [f |]; [| apply wp_ret, Hi1].
      apply wp_bind, wp_status_hw. intros ok h. apply wp_ret. exact Hi1.
  - intros ? m1 Hi1. destruct (power_loss_ok b client m1 Hi1) as (m2 & E & Hi2). unfold wp. rewrite E. exact Hi2.
Qed.

(** An event of the discipline shows nothing, or one index that moves the bound, or a new key. *)
Lemma run_event_ok b e m :
  sec_inv b (f_sec m) -> event_typed e -> breaks_discipline e = false ->
  wp (run_event e)
    (fun marks m' => (marks = [] /\ sec_inv b (f_sec m')) \/
       (exists q, marks = [Released q] /\ b <= q /\ sec_inv (q + 1) (f_sec m')) \/
       (marks = [NewKey] /\ sec_inv 0 (f_sec m')))
    (fun _ _ => False) m.
Proof.
  intros Hi Ht Hd. destruct e as [max_ctr f ctx | I_ | | I_new | sub params | client | max_ctr f ctx client];
    cbn [run_event event_typed breaks_discipline] in *; apply wp_bind, wp_attempt.
  - eapply wp_conseq; [apply (sec_sign_ok HT b); assumption | |].
    + intros q m' [Hb [Hr _]]. apply wp_ret. right. left. exists q. auto.
    + intros e m' Hi'. apply wp_ret. left. auto.
  - eapply wp_conseq; [apply (sec_boot_ok HT b); assumption | | intros ? ? []]. intros q m' Hi'. apply wp_ret. left. auto.
  - eapply wp_conseq; [apply (quiet_keeps b); [apply quiet_keygen_key | exact Hi] | |]; intros ? m' Hi'; apply wp_ret; left; auto.
  - pose proof (keygen_new_outcomes I_new m) as Hk. unfold wp at 1. destruct (sec_keygen_new I_new m) as [[I_ | e] m']; apply wp_ret.
    + right. right. split; [reflexivity |]. destruct Hk as [Hk _].
      apply (sec_inv_erased SEC_ST_IDLE); [exact (f_equal fst Hk) | auto].
    + left. split; [reflexivity |]. destruct Hk as [_ Hk]. apply (sec_inv_core b (f_sec m)); [exact (f_equal fst Hk) | exact Hi].
  - apply orb_false_iff in Hd as [H1 H2]. apply Z.eqb_neq in H1.
    assert (Hc : sub = SEC_SUB_COMMIT -> Forall is_byte params /\ commit_sane params).
    { intros ->. split; [exact Ht |]. unfold commit_sane. intros Est. rewrite Est in H2. apply Z.leb_gt in H2. exact H2. }
    eapply wp_conseq; [apply (uart_ok HT b); assumption | |]; intros ? m' Hi'; apply wp_ret; left; auto.
  - destruct (power_loss_ok b client m Hi) as (m2 & E & Hi2). unfold wp at 1. rewrite E. apply wp_ret. left. auto.
  - eapply wp_conseq; [apply (interrupted_keeps b); assumption | |]; intros ? m' Hi'; apply wp_ret; left; auto.
Qed.

Lemma last_key_ge marks : forall k, k <= last_key k marks.
Proof. induction marks as [| [q |] marks IH]; intros k; cbn; [lia | apply IH | specialize (IH (k + 1)); lia]. Qed.

(** The order of what a run releases behind key [k] and index [b], and what holds behind it. *)
Definition ordered_from (k b : Z) (marks : list sec_mark) (s : sec_t) : Prop :=
  StronglySorted earlier (per_key k marks) /\
  Forall (fun a => k < a.1 \/ a.1 = k /\ b <= a.2) (per_key k marks) /\
  (last_key k marks = k -> sec_inv b s) /\
  Forall (fun a => a.1 = last_key k marks -> sec_inv (a.2 + 1) s) (per_key k marks).

Lemma ordered_none k b s : sec_inv b s -> ordered_from k b [] s.
Proof. intros Hi. split; [constructor | split; [constructor | split; [auto | constructor]]]. Qed.

Lemma ordered_released k b q marks s : b <= q -> ordered_from k (q + 1) marks s -> ordered_from k b (Released q :: marks) s.
Proof.
  intros Hb (Hs & Hf & Hl & Ha). cbn [per_key last_key]. split; [| split; [| split]]; cbn [per_key last_key].
  - constructor; [exact Hs |]. eapply Forall_impl; [exact Hf |]. intros a Hx. cbv beta in *. unfold earlier. cbn. lia.
  - constructor; [cbn; lia |]. eapply Forall_impl; [exact Hf |]. intros a Hx. cbv beta in *. lia.
  - intros E. apply (sec_inv_weaken (q + 1)); [lia | exact (Hl E)].
  - constructor; [intros E; cbn in *; exact (Hl (eq_sym E)) | exact Ha].
Qed.

Lemma ordered_new_key k b marks s : ordered_from (k + 1) 0 marks s -> ordered_from k b (NewKey :: marks) s.
Proof.
  intros (Hs & Hf & Hl & Ha). pose proof (last_key_ge marks (k + 1)) as Hk. split; [| split; [| split]]; cbn [per_key last_key].
  - exact Hs.
  - eapply Forall_impl; [exact Hf |]. intros a Hx. cbv beta in *. lia.
  - lia.
  - exact Ha.
Qed.

Lemma run_events_ok es : forall k b m,
  sec_inv b (f_sec m) -> Forall event_typed es -> existsb breaks_discipline es = false ->
  wp (run_events es) (fun marks m' => ordered_from k b marks (f_sec m')) (fun _ _ => False) m.
Proof.
  induction es as [| e es IH]; intros k b m Hi Ht Hd; cbn [run_events existsb] in *.
  { apply wp_ret, ordered_none, Hi. }
  apply Forall_cons in Ht as [He Ht]. apply orb_false_iff in Hd as [Hde Hd]. apply wp_bind.
  eapply wp_conseq; [apply (run_event_ok b e m Hi He Hde) | | auto].
  intros marks m1 [[-> Hi1] | [(q & -> & Hq & Hi1) | [-> Hi1]]]; apply wp_bind.
  - eapply wp_conseq; [apply (IH k b m1 Hi1 Ht Hd) | | auto]. intros rest m2 Hrest. apply wp_ret. exact Hrest.
  - eapply wp_conseq; [apply (IH k (q + 1) m1 Hi1 Ht Hd) | | auto]. intros rest m2 Hrest. apply wp_ret, ordered_released; assumption.
  - eapply wp_conseq; [apply (IH (k + 1) 0 m1 Hi1 Ht Hd) | | auto]. intros rest m2 Hrest. apply wp_ret, ordered_new_key, Hrest.
Qed.

(** A history runs to its end, whatever it does. *)
Lemma run_events_total es : forall m, exists marks m', run_events es m = (Ok marks, m').
Proof.
  assert (Ha : forall A (c : FM A) (f : result Z A -> list sec_mark) m,
             exists marks m', (r ← attempt c; mret (f r)) m = (Ok marks, m')).
  { intros A c f m. unfold mbind, M_bind, attempt. destruct (c m) as [r m1]. eexists _, _. reflexivity. }
  assert (He : forall e m, exists marks m', run_event e m = (Ok marks, m')) by (intros [] m; apply Ha).
  induction es as [| e es IH]; intros m; cbn [run_events]; [eexists _, _; reflexivity |].
  destruct (He e m) as (marks & m1 & E1). destruct (IH m1) as (rest & m2 & E2). exists (marks ++ rest), m2.
  rewrite (bind_ok _ _ _ _ _ E1), (bind_ok _ _ _ _ _ E2). reflexivity.
Qed.
End Histories.

(** C11: No index of a key is released twice and every release is committed, unless the host
    undoes the commits: from [sec_init] on, over any history of signing requests, recoveries,
    key generations (in place, and of a new key), UART commands, power losses between calls and
    power losses inside a signing transaction, whatever the hardware answers, either the history
    contains one of two commands of the host, NVM_LOAD of a record or COMMIT(RESERVED, 2^32 - 1);
    or the indices [sec_sign] releases between one erasure of the records by [sec_keygen_new] and
    the next are strictly increasing, and at the end, for every index [q] released since the
    last one, the running state and every record in the slots continue at [q + 1] or later.
    The exceptions are real ([replayed_record_reuses_index], [reserved_maximum_reuses_index]),
    and so is the limit to one erasure: a host that loads the wrapped seed of an earlier key
    behind a [sec_keygen_new] has that key sign from 0 again ([retired_key_reuses_index]). *)
Theorem sec_no_reuse `{H : SecHw} (HT : SecHwTypes H) (client : ptr) (es : list sec_event) (m : fmem) :
  Forall event_typed es ->
  exists marks m', (sec_init client ;; run_events es) m = (Ok marks, m') /\
    (existsb breaks_discipline es = true \/
     StronglySorted earlier (per_key 0 marks) /\ NoDup (per_key 0 marks) /\
     Forall (fun a => a.1 = last_key 0 marks -> sec_inv (a.2 + 1) (f_sec m')) (per_key 0 marks)).
Proof.
  intros Ht. assert (Hinit : forall s, exists m1, sec_init client s = (Ok tt, m1) /\ sec_inv 0 (f_sec m1)).
  { intros s. eexists. split; [reflexivity |]. apply (sec_inv_erased SEC_ST_BOOTING); [reflexivity | auto]. }
  destruct (Hinit m) as (m1 & E1 & Hi1). rewrite (bind_ok _ _ _ _ _ E1).
  destruct (run_events_total es m1) as (marks & m2 & E2). rewrite E2. exists marks, m2. split; [reflexivity |].
  destruct (existsb breaks_discipline es) eqn:Hd; [left; reflexivity | right].
  destruct (wp_run _ _ _ _ _ _ E2 (run_events_ok HT es 0 0 m1 Hi1 Ht Hd)) as (Hs & _ & _ & Ha).
  split; [exact Hs |]. split; [| exact Ha].
  clear -Hs. induction Hs as [| a l Hs IH Hq]; constructor; [| exact IH].
  intros Hin. apply (proj1 (Forall_forall _ _) Hq) in Hin. unfold earlier in Hin. lia.
Qed.

(** * Recovery *)

(** C12: A committed record survives a power loss: when [state_commit] has returned 1 and
    the power goes, then [sec_boot] with the same key identifier, on the two records the
    host loads back, restores exactly the committed state and counter, whichever slot
    they went to and whatever the other one holds; a committed reservation is burned
    (or the device locks, if that commit fails).  The accelerator's part is that its two
    tag commands agree and that the tag and the key loads do not fail. *)
Theorem boot_recovers_commit `{H : SecHw} (HT : SecHwTypes H) (T : bytes -> bytes -> bytes) (kstate : hw -> bytes)
    (I_ : bytes) (client : ptr) (st ctr : Z) (m m1 : fmem) :
  tag_contract T kstate -> slots_ok (f_sec m) ->
  rec_tx (slot_of (f_sec m) (sec_active_slot (f_sec m))) <= sec_last_tx (f_sec m) ->
  kstate (f_hw m) = state_key I_ -> known_state st -> 0 <= ctr <= UINT_MAX ->
  state_commit st ctr m = (Ok true, m1) ->
  exists m2, (power_loss client ;; sec_boot I_) m1 = (Ok (sec_state (f_sec m2)), m2) /\ recovered st ctr (f_sec m2).
Proof.
  intros HC Hs Hold Hk Hst Hctr E.
  pose proof (wp_run _ _ _ _ _ _ E (state_commit_tagged HT T kstate HC st ctr m Hs) eq_refl) as (tx & Htx & Htx0 & Hk1 & Hlen & Eslots).
  pose proof (wp_run _ _ _ _ _ _ E (state_commit_ok HT st ctr m Hs)) as Hc. cbn in Hc.
  destruct (committed_slots _ _ _ _ Hs Hc) as (Hs1 & _). rewrite Hk in *. set (i := inactive_slot (f_sec m)) in *.
  assert (Hi : i = 0 \/ i = 1) by (unfold i, inactive_slot; destruct (slots_active _ Hs) as [-> | ->]; auto).
  destruct (power_loss_run client m1 Hs1) as (m2 & E2 & _ & Es2).
  rewrite (bind_ok _ _ _ _ _ E2). unfold sec_boot, attempt, mbind, M_bind.
  assert (Hboot : wp (boot_body I_) (fun _ m' => recovered st ctr (f_sec m')) (fun _ m' => recovered st ctr (f_sec m')) m2).
  { apply (boot_newest HT T kstate HC I_ client (sec_slots (f_sec m1)) i st ctr tx m2 Es2); try assumption; try lia.
    - split; [exact (slots_two _ Hs1) | left; reflexivity].
    - change (slot_of (reloaded client (sec_slots (f_sec m1))) i) with (nth (Z.to_nat i) (sec_slots (f_sec m1)) []).
      rewrite Eslots. destruct (slots_two _ Hs) as (a & b & -> & _). destruct Hi as [-> | ->]; reflexivity.
    - change (slot_of (reloaded client (sec_slots (f_sec m1))) (1 - i)) with (nth (Z.to_nat (1 - i)) (sec_slots (f_sec m1)) []).
      revert Hold. unfold slot_of. rewrite Eslots. destruct (slots_two _ Hs) as (a & b & -> & _).
      unfold i, inactive_slot. destruct (slots_active _ Hs) as [-> | ->]; intros Hold; exact (Z.le_lt_trans _ _ _ Hold (proj1 Htx)). }
  unfold wp in Hboot. destruct (boot_body I_ m2) as [[u | e] m3]; exists m3; split; (reflexivity || exact Hboot).
Qed.

(** * The signing transaction *)

(** What a failed transaction leaves of the index [q]: the signing state is untouched,
    or [q] is reserved, or it is burned. *)
Definition not_released (q : Z) (s s' : sec_t) : Prop :=
  core s' = core s \/ (sec_state s' = SEC_ST_RESERVED /\ sec_ctr s' = q) \/
  (sec_state s' = SEC_ST_IDLE /\ sec_ctr s' = q + 1).

(** The last commit of a failing transaction. *)
Lemma burn_outcome `{H : SecHw} (HT : SecHwTypes H) s q e (m : fmem) (Q R : Z -> fmem -> Prop) :
  slots_ok (f_sec m) -> not_released q s (f_sec m) -> (forall m', not_released q s (f_sec m') -> R e m') ->
  wp (state_commit SEC_ST_IDLE (q + 1) ;; fail e : FM Z) Q R m.
Proof.
  intros Hs Hn HR. apply wp_bind. eapply wp_conseq; [apply (state_commit_ok HT), Hs | | intros ? ? []].
  intros [|] m' Hm'; apply wp_fail, HR; [right; right; split; apply Hm' |].
  unfold not_released in *. cbn in Hm'. pose proof Hm' as Hc. unfold core in Hm'. injection Hm' as _ _ E3 E4.
  rewrite E3, E4, Hc. exact Hn.
Qed.

(** C13: The outcomes of [sec_sign], exactly: each refusal has its state and leaves it
    alone (but for marking an exhausted key); a released index is the counter, the active
    record is then (IDLE, q + 1), the other one is the reservation of [q], in increasing
    transactions; a failure after the reservation began leaves the index untouched,
    reserved or burned, and reports whose failure it was. *)
Theorem sec_sign_outcomes `{H : SecHw} (HT : SecHwTypes H) (max_ctr : Z) (do_sign : option do_sign_fn) (ctx : ptr) (m : fmem) :
  slots_ok (f_sec m) -> 0 <= sec_ctr (f_sec m) -> 0 <= max_ctr <= UINT_MAX ->
  let s := f_sec m in
  match sec_sign max_ctr do_sign ctx m with
  | (Ok q, m') =>
      sec_state s = SEC_ST_IDLE /\ sec_key_loaded s <> 0 /\ q = sec_ctr s /\ q < max_ctr /\ do_sign <> None /\
      sec_state (f_sec m') = SEC_ST_IDLE /\ sec_ctr (f_sec m') = q + 1 /\
      exists tx1 tx2 tag1 tag2, sec_last_tx s < tx1 < tx2 /\
        slot_of (f_sec m') (sec_active_slot (f_sec m')) = new_rec SEC_ST_IDLE (q + 1) tx2 tag2 /\
        slot_of (f_sec m') (inactive_slot (f_sec m')) = new_rec SEC_ST_RESERVED q tx1 tag1
  | (Err rc, m') =>
      (rc = SEC_ERR_LOCKED /\ m' = m /\ (sec_state s = SEC_ST_ERROR_LOCKED \/ (sec_state s = SEC_ST_IDLE /\ sec_key_loaded s = 0))) \/
      (rc = SEC_RSP_BUSY /\ m' = m /\ sec_state s <> SEC_ST_ERROR_LOCKED /\ sec_state s <> SEC_ST_IDLE) \/
      (rc = SEC_ERR_EXHAUSTED /\ f_sec m' = s {{ sec_state := SEC_ST_EXHAUSTED }} /\ max_ctr <= sec_ctr s) \/
      ((rc = SEC_ERR_COMMIT \/ rc = SEC_ERR_PATH) /\ sec_state s = SEC_ST_IDLE /\ not_released (sec_ctr s) s (f_sec m'))
  end.
Proof.
  intros Hs Hpos Hmax s. fold s in Hpos.
  refine ((fun Hwp : wp (sec_sign max_ctr do_sign ctx) (fun q m' => _) (fun rc m' => _) m => Hwp) _).
  unfold sec_sign. apply wp_bind, wp_get_sec. fold s.
  apply wp_bind, wp_guard; [intros E; apply Z.eqb_eq in E; left; auto |]. intros E1; apply Z.eqb_neq in E1.
  apply wp_bind, wp_guard.
  { intros E. apply negb_true_iff, Z.eqb_neq in E. right. left. auto. }
  intros Est. apply negb_false_iff, Z.eqb_eq in Est.
  apply wp_bind, wp_guard; [intros E; apply Z.eqb_eq in E; left; auto |]. intros Ek; apply Z.eqb_neq in Ek.
  destruct (_ || _) eqn:Hex.
  { apply wp_bind. unfold set_state. apply wp_set_sec, wp_fail. right. right. left. split; [reflexivity |]. split; [reflexivity |].
    apply orb_true_iff in Hex as [Hex | Hex]; [apply Z.eqb_eq in Hex | apply Z.leb_le in Hex]; lia. }
  apply orb_false_iff in Hex as [_ Hex]. apply Z.leb_gt in Hex. cbv zeta. set (q := sec_ctr s) in *.
  assert (Hu : u32 (q + 1) = q + 1) by (apply u32_small; unfold UINT_MAX in *; lia). rewrite Hu.
  apply wp_bind. eapply wp_conseq; [apply (state_commit_ok HT), Hs | | intros ? ? []]. intros [|] m1 Hc1; cbn [negb].
  2: { apply (burn_outcome HT s); [exact (slots_ok_core _ _ Hc1 Hs) | left; exact Hc1 |].
       intros m' Hn. right. right. right. auto. }
  destruct (committed_slots _ _ _ _ Hs Hc1) as (Hs1 & tx1 & tag1 & old1 & _ & _ & _ & En1 & Ht1 & _ & El1 & _).
  assert (Hn1 : not_released q s (f_sec m1)) by (right; left; split; apply Hc1).
  assert (Hcall : forall (Q : bool -> fmem -> Prop) R, (forall ok m2, f_sec m2 = f_sec m1 -> (ok = true -> do_sign <> None) -> Q ok m2) ->
    wp (match do_sign with Some f => status_of (on_hw (f q ctx)) | None => mret false end) Q R m1).
  { intros Q R HQ. destruct do_sign as [f |]; [apply wp_status_hw; intros; apply HQ; [reflexivity | discriminate] |
                                              apply wp_ret, HQ; [reflexivity | discriminate]]. }
  apply wp_bind, Hcall. intros signed m2 Em2 Hsome. apply wp_bind.
  destruct signed.
  2: { apply wp_ret, (burn_outcome HT s); rewrite ?Em2; [exact Hs1 | exact Hn1 |]. intros m' Hn. right. right. right. auto. }
  rewrite <- Em2 in Hs1, Hn1. eapply wp_conseq; [apply (state_commit_ok HT), Hs1 | | intros ? ? []]. intros [|] m3 Hc3.
  2: { apply (burn_outcome HT s); [exact (slots_ok_core _ _ Hc3 Hs1) | |].
       - unfold not_released in *. cbn in Hc3. pose proof Hc3 as Hc. unfold core in Hc3. injection Hc3 as _ _ E3 E4. rewrite E3, E4, Hc. exact Hn1.
       - intros m' Hn. right. right. right. auto. }
  destruct (committed_slots _ _ _ _ Hs1 Hc3) as (Hs3 & tx2 & tag2 & old2 & _ & Eo2 & Eo2' & En2 & Ht2 & _).
  apply wp_ret. repeat (split; [first [assumption | reflexivity | exact (Hsome eq_refl) | apply Hc3] |]).
  exists tx1, tx2, tag1, tag2. rewrite Em2, El1 in Ht2. fold s in Ht1. split; [lia |]. split; [symmetry; exact En2 |].
  rewrite <- Eo2', Eo2, En1, Em2. reflexivity.
Qed.

(** * A concrete accelerator

    Its state is the monotonic counter and K_STATE; the tag is SHA-256 of key and
    message.  The flag selects the test build. *)

Definition demo_hw (test : bool) : SecHw := {|
  hw := Z * bytes;
  client_capabilities := fun _ _ => 0;
  lms_mmio_hmac_kstate := fun _ msg h => (Ok (sha256 (snd h ++ msg)), h);
  lms_mmio_key_slot_load_test := fun _ slot k h => (Ok tt, (fst h, if slot =? LMS_MMIO_KEY_KSTATE then k else snd h));
  lms_mmio_wrap_seed := fun _ h => (Ok (fill 0x77 48), h);
  lms_mmio_unwrap_seed := fun _ _ h => (Ok tt, h);
  lms_mmio_seed_load_test := fun _ _ _ h => (Ok tt, h);
  lms_mmio_seed_load_safe := fun _ _ h => (Ok tt, h);
  lms_mmio_mc_step := fun _ h =>
    if u32 (fst h) <? UINT_MAX then (Ok (u32 (fst h) + 1), (u32 (fst h) + 1, snd h)) else (Err (-3), h);
  lms_mmio_mc_load := fun _ v h => (Ok tt, (v, snd h));
  lms_mmio_state_commit := fun _ _ _ _ h => (Err (-1), h);
  lms_rnd := fun n h => (fill 7 n, h);
  trng_fault := fun _ => 0;
  LMS_FW_SEC_TEST_MODE := test;
  LMS_RND_IMPL_TRNG := true
|}.

Lemma demo_hw_types test : SecHwTypes (demo_hw test).
Proof.
  split.
  - intros c msg h out h' [= <- <-]. split; [apply sha256_length | apply sha256_bytes].
  - intros c h tx h'. cbn. pose proof (u32_range (fst h)) as Hr. destruct (Z.ltb_spec (u32 (fst h)) UINT_MAX); [| discriminate]. cbn in Hr.
    intros [= <- <-]. lia.
  - discriminate.
Qed.

Lemma demo_contract test :
  tag_contract (H := demo_hw test) (fun k msg => slice 0 SEC_STATE_TAG_LEN (sha256 (k ++ msg))) (@snd Z bytes).
Proof.
  split.
  - intros c msg h. exists (sha256 (snd h ++ msg)), h. repeat split.
  - discriminate.
  - intros c h tx h'. cbn. destruct (u32 (fst h) <? UINT_MAX); [intros [= <- <-]; reflexivity | discriminate].
  - intros c k h. eexists. reflexivity.
  - intros c k h. eexists. split; reflexivity.
Qed.

Definition demo_mem (test : bool) : fmem (H := demo_hw test) := mkFmem (H := demo_hw test) zero_sec (0, []) (fill 0xee 64).
Definition demo_I : bytes := fill 0x61 16.
Definition demo_sign {test} : do_sign_fn (H := demo_hw test) := fun _ _ h => (Ok tt, h).

(** Two signatures with a power loss between them, then a lost one, a skipped index and
    another signature; and the first signature of a new key. *)
Definition demo_events : list (sec_event (H := demo_hw false)) :=
  [EUart SEC_SUB_WRAP_LOAD (fill 0x77 48); EBoot demo_I; ESign 32 (Some demo_sign) NULL; EPowerLoss 1; EBoot demo_I;
   ESign 32 (Some demo_sign) NULL; EInterrupted 32 (Some demo_sign) NULL 1; EBoot demo_I;
   EUart SEC_SUB_COMMIT (put_be32 SEC_ST_IDLE ++ put_be32 5 ++ put_be32 0); ESign 32 (Some demo_sign) NULL;
   EKeygenNew (fill 0x62 16); ESign 32 (Some demo_sign) NULL].

(** * The response buffer *)

Section Response.
Context `{H : SecHw}.

Abbreviation inb := (preserves (fun m => from 32 (f_resp m))).

Lemma from_upd_low i v r : 0 <= i < 32 -> from 32 (upd i v r) = from 32 r.
Proof. intros Hi. unfold from, upd. apply drop_insert_lt. lia. Qed.

Lemma from_splice_low off src r : 0 <= off -> off + len src <= 32 -> from 32 (splice off src r) = from 32 r.
Proof.
  intros Ho Hl. unfold from, splice, len in *. apply list_eq. intros k. rewrite !lookup_drop.
  destruct (decide (Z.to_nat off + length src <= length r)%nat) as [Hfit | Hfit].
  - rewrite !lookup_app_r; rewrite ?length_take; [rewrite lookup_drop; f_equal; lia | lia..].
  - rewrite !lookup_ge_None_2; [reflexivity | lia |]. rewrite !length_app, !length_take, length_drop. lia.
Qed.

(** An update of the response inside its 32 bytes. *)
#[local] Ltac inb_resp :=
  apply preserves_set_resp; intros; cbn [f_resp]; rewrite ?from_upd_low, ?from_splice_low by (lia || discriminate); reflexivity.

Lemma inb_upd i v : 0 <= i < 32 -> inb (set_resp (upd i v)).
Proof. intros Hi. apply preserves_set_resp. intros s h r. exact (from_upd_low i v r Hi). Qed.

Lemma inb_respond rc : inb (respond rc).
Proof. apply preserves_bind; [apply inb_upd; lia | intros; apply preserves_ret]. Qed.

Lemma inb_copy_out n src : 0 <= n <= 28 -> inb (copy_out n src).
Proof.
  intros Hn. apply preserves_bind; [| intros; apply preserves_ret]. apply preserves_set_resp. intros s h r.
  apply from_splice_low; [lia |]. unfold slice, len. rewrite length_take. lia.
Qed.

Lemma inb_report_state : inb report_state.
Proof.
  unfold report_state. apply preserves_bind; [auto with preserves_db | intros s]. inb_resp.
Qed.
#[local] Hint Resolve inb_upd inb_respond inb_report_state : preserves_db.

Lemma inb_state_commit st ctr : inb (state_commit st ctr).
Proof.
  unfold state_commit, commit_finish, rec_valid_check, compute_tag, set_diag, set_valid, set_slot. preserves_tac.
Qed.
#[local] Hint Resolve inb_state_commit : preserves_db.

Lemma inb_boot I_ : inb (sec_boot I_).
Proof.
  unfold sec_boot, boot_body, boot_unwrap, boot_no_record, boot_restore, lock, rec_valid, compute_tag, sec_load_hw_keys_i, set_state,
    set_diag. preserves_tac.
Qed.
#[local] Hint Resolve inb_boot : preserves_db.

Lemma inb_uart_commit params : inb (uart_commit params).
Proof.
  unfold uart_commit. preserves_tac; inb_resp.
Qed.

Lemma inb_uart_boot params : inb (uart_boot params).
Proof. unfold uart_boot. preserves_tac; inb_resp. Qed.

Lemma inb_read_slot params : inb (uart_read_slot params).
Proof. unfold uart_read_slot. preserves_tac. apply inb_copy_out. lia. Qed.

Lemma inb_inject_tag : inb uart_inject_tag.
Proof. unfold uart_inject_tag, set_slot. preserves_tac. Qed.

Lemma inb_nvm_load params : inb (uart_nvm_load params).
Proof. unfold uart_nvm_load, set_slot, set_valid. preserves_tac; inb_resp. Qed.

Lemma inb_wrapped_read off n : 0 <= n <= 28 -> inb (uart_wrapped_read off n).
Proof. intros Hn. unfold uart_wrapped_read. preserves_tac. apply inb_copy_out, Hn. Qed.
#[local] Hint Resolve inb_uart_commit inb_uart_boot inb_read_slot inb_inject_tag inb_nvm_load : preserves_db.

Lemma inb_uart sub params : sub <> SEC_SUB_FACTORY_INIT -> inb (sec_handle_uart_cmd sub params).
Proof.
  intros Hf. unfold sec_handle_uart_cmd. apply preserves_bind; [auto with preserves_db | intros s].
  apply preserves_bind; [inb_resp | intros _]. destruct (Z.eqb_spec sub SEC_SUB_FACTORY_INIT) as [E | _]; [contradiction |].
  unfold uart_mc_load, uart_wrap_load. preserves_tac; try (apply inb_copy_out; lia); apply inb_wrapped_read; lia.
Qed.

(** The writes of FACTORY_INIT. *)
Lemma devctx_overrun helper wrapped rc r :
  36 <= len r -> slice 32 4 (upd 2 rc (devctx_response helper wrapped r)) = fill 0 4.
Proof.
  intros Hl. unfold len in Hl. do 36 (destruct r as [| ? r]; [cbn in Hl; lia |]). reflexivity.
Qed.

Lemma wp_set_resp f (Q : unit -> fmem -> Prop) R m : Q tt (mkFmem (f_sec m) (f_hw m) (f (f_resp m))) -> wp (set_resp f) Q R m.
Proof. exact (fun HQ => HQ). Qed.

(** A step that may fail with [e] and does not touch the response. *)
Lemma wp_silent {A} e (c : FM A) (Q : A -> fmem -> Prop) (R : Z -> fmem -> Prop) r m :
  preserves f_resp c -> f_resp m = r -> (forall m', f_resp m' = r -> R e m') -> (forall a m', f_resp m' = r -> Q a m') ->
  wp (or_return e c) Q R m.
Proof.
  intros Hc Hr HR HQ. apply wp_or_return. specialize (Hc m). unfold wp. destruct (c m) as [[a | e'] m']; cbn in Hc.
  - apply HQ. congruence.
  - apply HR. congruence.
Qed.

(** FACTORY_INIT writes the device context exactly when it succeeds. *)
Lemma factory_init_resp I_ m :
  wp (sec_factory_init I_) (fun _ m' => exists helper wrapped, f_resp m' = devctx_response helper wrapped (f_resp m))
    (fun rc m' => u8 rc <> SEC_OK /\ from 32 (f_resp m') = from 32 (f_resp m)) m.
Proof.
  unfold sec_factory_init. destruct (negb LMS_FW_SEC_TEST_MODE).
  { apply wp_bind, wp_set_resp, wp_fail. split; [discriminate | apply from_upd_low; lia]. }
  apply wp_bind, wp_get_sec. apply wp_bind, wp_guard; [split; [discriminate | reflexivity] |]. intros _.
  destruct (fe_gen sim_puf_read 0) as [helper k_dev]. apply wp_bind, wp_set_sec.
  assert (Hkeys : preserves f_resp (sec_load_hw_keys_i k_dev I_)) by (unfold sec_load_hw_keys_i; preserves_tac).
  assert (HR : forall m', f_resp m' = f_resp m -> u8 SEC_ERR_AUTH <> SEC_OK /\ from 32 (f_resp m') = from 32 (f_resp m))
    by (intros m' ->; split; [discriminate | reflexivity]).
  apply wp_bind, (wp_silent _ _ _ _ (f_resp m)); [exact Hkeys | reflexivity | exact HR |]. intros ? m1 E1.
  apply wp_bind, (wp_silent _ _ _ _ (f_resp m)); [preserves_tac | exact E1 | exact HR |]. intros ? m2 E2.
  apply wp_bind, (wp_silent _ _ _ _ (f_resp m)); [preserves_tac | exact E2 | exact HR |]. intros wrapped m3 E3.
  apply wp_bind, wp_set_sec, wp_set_resp. exists helper, wrapped. cbn. rewrite <- E3. reflexivity.
Qed.

Lemma factory_cmd_resp params m :
  wp (sec_handle_uart_cmd SEC_SUB_FACTORY_INIT params)
    (fun rc m' => if rc =? SEC_OK then 36 <= len (f_resp m) -> slice 32 4 (f_resp m') = fill 0 4
                  else from 32 (f_resp m') = from 32 (f_resp m)) (fun _ _ => False) m.
Proof.
  unfold sec_handle_uart_cmd. apply wp_bind, wp_get_sec. apply wp_bind. apply wp_set_resp.
  set (r0 := f_resp m). set (r1 := upd 3 _ _).
  assert (Hr1 : (36 <= len r0 -> len r1 = len r0) /\ from 32 r1 = from 32 r0).
  { unfold r1. rewrite !from_upd_low, from_splice_low by (reflexivity || discriminate || lia). split; [| reflexivity].
    intros Hl. unfold upd, len at 1. rewrite !length_insert. apply (len_splice 0 (fill 0 32) r0); [lia | change (len (fill 0 32)) with 32; lia]. }
  clearbody r1. change (SEC_SUB_FACTORY_INIT =? _) with false at 1 2 3 4.
  change (SEC_SUB_FACTORY_INIT =? SEC_SUB_FACTORY_INIT) with true. cbv iota.
  unfold uart_factory_init. apply wp_bind, wp_attempt.
  eapply wp_conseq; [apply factory_init_resp | |]; cbn [f_resp].
  - intros ? m' (helper & wrapped & Er). unfold respond. apply wp_bind. apply wp_set_resp, wp_ret. cbn.
    rewrite Er. intros Hl. apply devctx_overrun. destruct Hr1. lia.
  - intros rc m' [Hrc Er]. unfold respond. apply wp_bind. apply wp_set_resp, wp_ret. cbn.
    apply Z.eqb_neq in Hrc. rewrite Hrc, from_upd_low, Er by lia. apply Hr1.
Qed.
End Response.

(** C34: The handler of the UART commands stays within its 32-byte response, except in one
    command: for every other command and every failure the memory behind the response
    is unchanged, while a successful FACTORY_INIT clears the four bytes behind it. *)
Theorem response_overrun `{H : SecHw} (sub : Z) (params : bytes) (m : fmem) :
  let '(r, m') := sec_handle_uart_cmd sub params m in
  (sub <> SEC_SUB_FACTORY_INIT \/ r <> Ok SEC_OK -> from 32 (f_resp m') = from 32 (f_resp m)) /\
  (sub = SEC_SUB_FACTORY_INIT -> r = Ok SEC_OK -> 36 <= len (f_resp m) -> slice 32 4 (f_resp m') = fill 0 4).
Proof.
  destruct (Z.eqb_spec sub SEC_SUB_FACTORY_INIT) as [-> | Hsub].
  2: { pose proof (inb_uart sub params Hsub m) as Hp. destruct (sec_handle_uart_cmd sub params m) as [r m']. split; [auto | contradiction]. }
  pose proof (factory_cmd_resp params m) as Hwp.
  unfold wp in Hwp. destruct (sec_handle_uart_cmd SEC_SUB_FACTORY_INIT params m) as [[rc | e] m']; [| destruct Hwp].
  destruct (Z.eqb_spec rc SEC_OK) as [-> | Hrc].
  - split; [intros [Hn | Hn]; contradiction Hn; reflexivity | auto].
  - split; [auto |]. intros _ [= ->]. contradiction.
Qed.

Lemma response_overrun_witness :
  let m := demo_mem true in
  let out := sec_handle_uart_cmd (H := demo_hw true) SEC_SUB_FACTORY_INIT demo_I m in
  fst out = Ok SEC_OK /\ slice 32 4 (f_resp m) = fill 0xee 4 /\ slice 32 4 (f_resp (snd out)) = fill 0 4.
Proof.
  pose proof (response_overrun (H := demo_hw true) SEC_SUB_FACTORY_INIT demo_I (demo_mem true)) as Hov.
  assert (Hok : fst (sec_handle_uart_cmd (H := demo_hw true) SEC_SUB_FACTORY_INIT demo_I (demo_mem true)) = Ok SEC_OK)
    by (vm_compute; reflexivity).
  cbv zeta. destruct (sec_handle_uart_cmd (H := demo_hw true) SEC_SUB_FACTORY_INIT demo_I (demo_mem true)) as [r m'].
  split; [exact Hok |]. split; [reflexivity |]. apply Hov; [reflexivity | exact Hok | vm_compute; discriminate].
Defined.

(** ** The properties at work *)

Lemma sec_no_reuse_witness :
  exists marks m', (sec_init (H := demo_hw false) 1 ;; run_events demo_events) (demo_mem false) = (Ok marks, m') /\
    per_key 0 marks = [(0, 0); (0, 1); (0, 5); (1, 0)] /\ StronglySorted earlier (per_key 0 marks) /\
    sec_inv 1 (f_sec m').
Proof.
  destruct (sec_no_reuse (demo_hw_types false) 1 demo_events (demo_mem false)) as (marks & m' & E & H).
  - unfold demo_events. repeat (apply Forall_cons; split); try apply Forall_nil_2; cbn [event_typed]; try exact I;
      try (unfold UINT_MAX; lia); vm_compute; repeat constructor; discriminate.
  - exists marks, m'. split; [exact E |].
    assert (Hrun : fst ((sec_init (H := demo_hw false) 1 ;; run_events demo_events) (demo_mem false))
      = Ok [Released 0; Released 1; Released 5; NewKey; Released 0]) by (vm_compute; reflexivity).
    rewrite E in Hrun. injection Hrun as ->. split; [reflexivity |].
    destruct H as [H | (Hs & _ & Ha)]; [discriminate H |]. split; [exact Hs |].
    exact (Forall_inv (Forall_inv_tail (Forall_inv_tail (Forall_inv_tail Ha))) eq_refl).
Defined.

Lemma zero_slots_ok : slots_ok zero_sec.
Proof.
  split; [exists (fill 0 64), (fill 0 64) | left; reflexivity]. repeat split; apply Forall_replicate; unfold is_byte; lia.
Qed.

(** A committed record, and the device after a power loss. *)
Lemma boot_recovers_commit_witness :
  let m := mkFmem (H := demo_hw true) zero_sec (0, state_key demo_I) [] in
  exists m1 m2, state_commit (H := demo_hw true) SEC_ST_IDLE 7 m = (Ok true, m1) /\
    (power_loss 1 ;; sec_boot demo_I) m1 = (Ok SEC_ST_IDLE, m2) /\ sec_ctr (f_sec m2) = 7.
Proof.
  intros m. destruct (state_commit (H := demo_hw true) SEC_ST_IDLE 7 m) as [r m1] eqn:E.
  assert (Hr : r = Ok true).
  { change r with (fst (r, m1)). rewrite <- E. vm_compute. reflexivity. }
  subst r. exists m1.
  destruct (boot_recovers_commit (demo_hw_types true) _ _ demo_I 1 SEC_ST_IDLE 7 m m1 (demo_contract true)) as (m2 & Eb & Hst & Hc).
  - exact zero_slots_ok.
  - vm_compute. discriminate.
  - reflexivity.
  - left. reflexivity.
  - unfold UINT_MAX. lia.
  - exact E.
  - exists m2. split; [reflexivity |]. split; [rewrite Eb, Hst; reflexivity | exact Hc].
Defined.

Lemma sec_sign_outcomes_witness :
  let m := mkFmem (H := demo_hw true) (zero_sec {{ sec_state := SEC_ST_IDLE; sec_key_loaded := 1; sec_ctr := 4 }}) (0, []) [] in
  exists m', sec_sign (H := demo_hw true) 32 (Some demo_sign) NULL m = (Ok 4, m') /\
    sec_state (f_sec m') = SEC_ST_IDLE /\ sec_ctr (f_sec m') = 5.
Proof.
  intros m. pose proof (sec_sign_outcomes (demo_hw_types true) 32 (Some demo_sign) NULL m) as Hout.
  assert (Hr : fst (sec_sign (H := demo_hw true) 32 (Some demo_sign) NULL m) = Ok 4) by (vm_compute; reflexivity).
  destruct (sec_sign (H := demo_hw true) 32 (Some demo_sign) NULL m) as [r m']. change (r = Ok 4) in Hr. subst r.
  exists m'. split; [reflexivity |].
  assert (Hs : slots_ok (f_sec m)).
  { destruct zero_slots_ok as [Htwo _]. split; [exact Htwo | left; reflexivity]. }
  assert (Hc : 0 <= sec_ctr (f_sec m)) by (change (0 <= 4); lia).
  destruct (Hout Hs Hc ltac:(unfold UINT_MAX; lia)) as (_ & _ & _ & _ & _ & Hst & Hctr & _). split; assumption.
Defined.

(** * Where the code falls short *)

(** Reserving the last value of the counter makes the module sign twice with
    the same index: the UART command COMMIT(RESERVED, 2^32 - 1) is allowed, the burn at
    the next BOOT wraps the counter to 0, and signing starts over.  It is one of the two commands
    that [breaks_discipline] names. *)
Example reserved_maximum_reuses_index :
  fst ((sec_init (H := demo_hw false) 1 ;;
        run_events [EUart SEC_SUB_WRAP_LOAD (fill 0x77 48); EBoot demo_I; ESign 32 (Some demo_sign) NULL;
                    EUart SEC_SUB_COMMIT (put_be32 SEC_ST_RESERVED ++ put_be32 0xffffffff ++ put_be32 0);
                    EBoot demo_I; ESign 32 (Some demo_sign) NULL]) (demo_mem false)) = Ok [Released 0; Released 0].
Proof. vm_compute. reflexivity. Qed.

(** The record of the active slot, as the host keeps it, is loaded back later with an
    erased record in the other slot. *)
Definition replay : FM (H := demo_hw false) (list sec_mark) :=
  sec_init 1 ;;
  first ← run_events [EUart SEC_SUB_WRAP_LOAD (fill 0x77 48); EBoot demo_I; ESign 32 (Some demo_sign) NULL];
  old ← sec_export_active;
  s ← get_sec;
  rest ← run_events [ESign 32 (Some demo_sign) NULL;
                     EUart SEC_SUB_NVM_LOAD ([sec_active_slot s] ++ old);
                     EUart SEC_SUB_NVM_LOAD ([1 - sec_active_slot s] ++ fill 0 SEC_STATE_REC_LEN);
                     EBoot demo_I; ESign 32 (Some demo_sign) NULL];
  mret (first ++ rest).

(** The transaction number does not keep an old record out: BOOT never compares it
    with the hardware counter, so a host that loads back an earlier record and erases the
    other slot gets an index a second time. *)
Example replayed_record_reuses_index : fst (replay (demo_mem false)) = Ok [Released 0; Released 1; Released 1].
Proof. vm_compute. reflexivity. Qed.

(** A key that was retired by [sec_keygen_new] is brought back: its wrapped seed is loaded again
    and the module is booted with its identifier.  The flag tells whether identifier and wrapped
    seed at the end are those of the first signature. *)
Definition retire : FM (H := demo_hw false) (list sec_mark * bool) :=
  sec_init 1 ;;
  first ← run_events [EUart SEC_SUB_WRAP_LOAD (fill 0x70 48); EBoot demo_I; ESign 32 (Some demo_sign) NULL];
  s ← get_sec;
  rest ← run_events [EKeygenNew (fill 0x62 16); EUart SEC_SUB_WRAP_LOAD (sec_wrapped_blob s); EBoot (sec_key_I s);
                     ESign 32 (Some demo_sign) NULL];
  s' ← get_sec;
  mret (first ++ rest, bool_decide (sec_key_I s' = sec_key_I s /\ sec_wrapped_blob s' = sec_wrapped_blob s)).

(** The records were erased for the new key, so the old one signs from 0 again. *)
Example retired_key_reuses_index :
  fst (retire (demo_mem false)) = Ok ([Released 0; NewKey; Released 0], true).
Proof. vm_compute. reflexivity. Qed.
