(* ===== verification/MmioSec.v ===== *)
(** The driver of src/lms_mmio.c as the hardware of fw/lms_sec_state.c: the class [SecHw]
    filled with the driver's functions, and the C types of what they hand over. *)

From S2P Require Import Prelude Types HashApi Params LmOts MmioRegs Mmio Accel MmioCorrect SecState.

(** The values of the driver's status; a followed null pointer has none, and is given one the
    enumeration does not use. *)
Definition mmio_status_code (e : lms_mmio_status_t) : Z :=
  match e with
  | LMS_MMIO_ERR_INVALID => -1
  | LMS_MMIO_ERR_PROTOCOL => -2
  | LMS_MMIO_ERR_HARDWARE => -3
  | LMS_MMIO_ERR_TIMEOUT => -4
  | MMIO_UNDEFINED => -5
  end.

Section SecDriver.
Context `{P : Platform} `{Hh : HashApi} `{Mm : !Mmio}.
(** The random source and the build flags. *)
Variable rnd : Z -> dev -> bytes * dev.
Variable fault : dev -> Z.
Variables test_mode trng : bool.

(** These driver functions leave the library's statics alone. *)
Definition on_driver {A} (m : DM A) : M dev Z A :=
  fun d => let '(r, w) := m (initial_world d) in
           (match r with Ok a => Ok a | Err e => Err (mmio_status_code e) end, device w).

Definition mmio_sec_hw : SecHw := {|
  hw := dev;
  client_capabilities c d := capabilities (client_at c d);
  lms_mmio_hmac_kstate c msg := on_driver (Mmio.lms_mmio_hmac_kstate c (Buf msg) local_ptr);
  lms_mmio_key_slot_load_test c slot key := on_driver (Mmio.lms_mmio_key_slot_load_test c slot (Some key));
  lms_mmio_wrap_seed c := on_driver (Mmio.lms_mmio_wrap_seed c local_ptr);
  lms_mmio_unwrap_seed c wrapped := on_driver (Mmio.lms_mmio_unwrap_seed c (Some wrapped));
  lms_mmio_seed_load_test c key seed := on_driver (Mmio.lms_mmio_seed_load_test c key (Some seed));
  lms_mmio_seed_load_safe c seed := on_driver (Mmio.lms_mmio_seed_load_safe c (Some seed));
  lms_mmio_mc_step c := on_driver (Mmio.lms_mmio_mc_step c);
  lms_mmio_mc_load c value := on_driver (Mmio.lms_mmio_mc_load c value);
  lms_mmio_state_commit c st ctr aad := on_driver (Mmio.lms_mmio_state_commit c st ctr aad local_ptr local_ptr);
  lms_rnd := rnd;
  trng_fault := fault;
  LMS_FW_SEC_TEST_MODE := test_mode;
  LMS_RND_IMPL_TRNG := trng
|}.

(** ** Whatever the bus answers *)

(** Every value [m] returns is in [Q]. *)
Definition yields {A} (m : DM A) (Q : A -> Prop) : Prop := forall w, wp m (fun a _ => Q a) (fun _ _ => True) w.

Lemma yields_any {A} (m : DM A) : yields m (fun _ => True).
Proof. intros w. unfold wp. destruct (m w) as [[a | e] w']; exact I. Qed.

Lemma yields_ret {A} (a : A) (Q : A -> Prop) : Q a -> yields (mret a) Q.
Proof. intros HQ w. exact HQ. Qed.

Lemma yields_fail {A} e (Q : A -> Prop) : yields (fail e) Q.
Proof. intros w. exact I. Qed.

Lemma yields_bind {A B} (m : DM A) (f : A -> DM B) Q R :
  yields m Q -> (forall a, Q a -> yields (f a) R) -> yields (m ≫= f) R.
Proof. intros Hm Hf w. apply wp_bind. eapply wp_conseq; [apply Hm | | auto]. intros a w' HQ. apply Hf, HQ. Qed.

Lemma yields_then {A B} (m : DM A) (f : A -> DM B) R : (forall a, yields (f a) R) -> yields (m ≫= f) R.
Proof. intros Hf. eapply yields_bind; [apply yields_any | auto]. Qed.

Lemma yields_loop {A} n i (body : Z -> A -> DM A) (Q : Z -> A -> Prop) x :
  Q i x -> (forall k x, i <= k < i + Z.of_nat n -> Q k x -> yields (body k x) (Q (k + 1))) ->
  yields (loopM n i body x) (Q (i + Z.of_nat n)).
Proof.
  revert i x. induction n as [| n IH]; intros i x H0 Hb.
  - apply yields_ret. replace (i + Z.of_nat 0) with i by lia. exact H0.
  - cbn [loopM]. eapply yields_bind; [apply Hb; [lia | exact H0] |]. intros x' HQ.
    replace (i + Z.of_nat (S n)) with (i + 1 + Z.of_nat n) by lia. apply IH; [exact HQ |]. intros k y Hk. apply Hb. lia.
Qed.

(** [n] bytes. *)
Definition byte_array (n : Z) (out : bytes) : Prop := len out = n /\ Forall is_byte out.

Lemma read_bytes_yields p base bf n : 0 <= n -> yields (read_bytes p base bf (4 * n)) (byte_array (4 * n)).
Proof.
  intros Hn.
  assert (Hloop : forall g, (forall k w, 0 <= k < n -> g k w = store_le32 w) ->
    yields (loopM (words_in (4 * n)) 0 (fun k out => let offset := 4 * k in
        word ← bus_read p (u32 (base + u32 offset)); mret (out ++ g k word)) []) (byte_array (4 * n))).
  { intros g Hg. rewrite words_in_full by exact Hn.
    replace (4 * n) with (4 * (0 + Z.of_nat (Z.to_nat n))) by lia.
    apply (yields_loop (Z.to_nat n) 0 _ (fun k => byte_array (4 * k))); [split; [reflexivity | apply Forall_nil_2] |].
    intros k out Hk [Hl Hb]. apply yields_then. intros word. apply yields_ret. rewrite Hg by lia. split.
    - rewrite len_app, Hl. change (len (store_le32 word)) with 4. lia.
    - apply Forall_byte_app; [exact Hb | apply store_le32_bytes]. }
  unfold read_bytes. destruct (word_aligned bf (4 * n)); [apply (Hloop (fun _ => store_le32)); reflexivity |].
  apply (Hloop (fun k word => unpack_lanes word (4 * k) (4 * n))). intros k w Hk. apply unlanes_full. lia.
Qed.

Lemma poll_yields p bf output n polls : output <> NULL -> 0 < n ->
  yields (poll_loop polls p bf output (4 * n)) (fun '(out, _) => byte_array (4 * n) out).
Proof.
  intros Ho Hn. induction polls as [| polls IH]; [apply yields_fail |]. cbn [poll_loop].
  apply yields_bind with (Q := fun r => match r with Some (out, _) => byte_array (4 * n) out | None => True end).
  - unfold poll_once. apply yields_then. intros status. destruct (negb _); [apply yields_ret; exact I |].
    destruct (negb _); [apply yields_then; intros e; apply yields_then; intros _; apply yields_fail |].
    destruct (negb _); [| apply yields_ret; exact I].
    destruct (Z.eqb_spec output NULL); [contradiction |]. destruct (Z.eqb_spec (4 * n) 0); [lia |]. cbn [negb andb].
    eapply yields_bind; [apply read_bytes_yields; lia |]. intros out Hout. apply yields_then. intros cycles.
    apply yields_then. intros _. apply yields_ret, Hout.
  - intros [[out cycles] |] Hr; [apply yields_ret, Hr | exact IH].
Qed.

Lemma wait_yields p bf output n : output <> NULL -> 0 < n ->
  yields (wait_for_result_n p bf output (4 * n)) (fun '(out, _) => byte_array (4 * n) out).
Proof. intros Ho Hn. apply yields_then. intros c. apply poll_yields; assumption. Qed.

Lemma hmac_yields p input : yields (Mmio.lms_mmio_hmac_kstate p input local_ptr) (byte_array LMS_N).
Proof.
  unfold Mmio.lms_mmio_hmac_kstate. do 7 (apply yields_then; intros ?).
  eapply yields_bind; [apply (wait_yields p B_output local_ptr 8); [discriminate | lia] |]. intros [out cycles] H. apply yields_ret, H.
Qed.

Lemma mc_step_yields p : yields (Mmio.lms_mmio_mc_step p) (fun tx => 0 <= tx <= UINT_MAX).
Proof.
  unfold Mmio.lms_mmio_mc_step. do 4 (apply yields_then; intros ?).
  eapply yields_bind; [apply (wait_yields p B_output local_ptr 8); [discriminate | lia] |]. intros [out cycles] [_ Hb].
  apply yields_ret, load_le32_u32, Hb.
Qed.

Lemma state_commit_yields p st ctr aad :
  yields (Mmio.lms_mmio_state_commit p st ctr aad local_ptr local_ptr) (fun '(tx, tag) => 0 <= tx <= UINT_MAX /\ byte_array 16 tag).
Proof.
  unfold Mmio.lms_mmio_state_commit. do 7 (apply yields_then; intros ?).
  eapply yields_bind; [apply (wait_yields p B_output local_ptr 5); [discriminate | lia] |]. intros [out cycles] [Hl Hb].
  apply yields_ret. split; [apply load_le32_u32, Hb |]. split; [apply len_slice; lia | apply Forall_slice, Hb].
Qed.

Lemma wrap_yields p : yields (Mmio.lms_mmio_wrap_seed p local_ptr) (byte_array LMS_MMIO_WRAPPED_LEN).
Proof.
  unfold Mmio.lms_mmio_wrap_seed. do 5 (apply yields_then; intros ?). apply (read_bytes_yields p _ B_wrapped 12). lia.
Qed.

Lemma on_driver_yields {A} (m : DM A) Q d a d' : yields m Q -> on_driver m d = (Ok a, d') -> Q a.
Proof.
  intros Hm. specialize (Hm (initial_world d)). unfold on_driver, wp in *.
  destruct (m (initial_world d)) as [[x | e] w]; [intros [= <- <-]; exact Hm | discriminate].
Qed.
End SecDriver.

(** Whatever the bus and the memory behind it answer, the driver hands the firmware's state
    domain values of their C types: 32 bytes of HMAC, a 32-bit counter, a 32-bit counter
    and a 16-byte tag, and a wrapped seed of 48 bytes; so the state domain over the driver
    is an instance of the state domain its theorems are about. *)
Lemma mmio_sec_types `{P : Platform} `{Hh : HashApi} `{Mm : !Mmio}
    (rnd : Z -> dev -> bytes * dev) (fault : dev -> Z) (test_mode trng : bool) :
  let H := mmio_sec_hw rnd fault test_mode trng in
  SecHwTypes H /\
  forall c h out h', SecState.lms_mmio_wrap_seed (SecHw := H) c h = (Ok out, h') ->
    len out = LMS_MMIO_WRAPPED_LEN /\ Forall is_byte out.
Proof.
  split; [split |].
  - intros c msg h out h' E. exact (on_driver_yields _ _ _ _ _ (hmac_yields c (Buf msg)) E).
  - intros c h tx h' E. exact (on_driver_yields _ _ _ _ _ (mc_step_yields c) E).
  - intros c st ctr aad h tx tag h' E. exact (on_driver_yields _ _ _ _ _ (state_commit_yields c st ctr aad) E).
  - intros c h out h' E. exact (on_driver_yields _ _ _ _ _ (wrap_yields c) E).
Qed.
