(* ===== verification/RndDet.v ===== *)
(** Random source A (fw/lms_rnd_det.c): the generator derived from secret material, its
    statics as the record [det_t].  Over any draws it reads the stream of the hashes of
    distinct inputs, one fresh block at a time. *)

From S2P Require Import Prelude Sha256 Params.

Record det_t := mkDet {
  det_counter : Z;
  det_ctx : bytes;              (* [64] *)
  det_ctx_len : Z;
  det_seeded : Z
}.

(** "LMS-RND-DET" *)
Definition det_domain : bytes := [0x4c; 0x4d; 0x53; 0x2d; 0x52; 0x4e; 0x44; 0x2d; 0x44; 0x45; 0x54].

Definition det_be32 (v : Z) : bytes := [u8 (v .>> 24); u8 (v .>> 16); u8 (v .>> 8); u8 v].

Definition lms_rnd_det_seed (ctx : bytes) (length : Z) (st : det_t) : det_t :=
  let length := if 64 <? length then 64 else length in
  mkDet 0 (splice 0 (slice 0 length ctx) (det_ctx st)) length 1.

Section Det.
(** What the uninitialised [SHA256_CTX h] holds. *)
Variable h0 : SHA256_CTX.

Definition det_block (st : det_t) : bytes * det_t :=
  let ctr_be := det_be32 (det_counter st) in
  let len_be := det_be32 (det_ctx_len st) in
  let h := SHA256_Init h0 in
  let h := SHA256_Update h det_domain in
  let h := SHA256_Update h ctr_be in
  let h := SHA256_Update h (slice 0 (det_ctx_len st) (det_ctx st)) in
  let h := SHA256_Update h len_be in
  (SHA256_Final h, st {{ det_counter := u32 (det_counter st + 1) }}).

Definition lms_rnd32 (st : det_t) : Z * det_t :=
  if det_seeded st =? 0 then (0, st)
  else
    let '(block, st) := det_block st in
    ((rd block 0 .<< 24) .| (rd block 1 .<< 16) .| (rd block 2 .<< 8) .| rd block 3, st).

(** [while (len > 0)]; [out] is what has been written. *)
Fixpoint rnd_loop (fuel : nat) (length : Z) (out : bytes) (st : det_t) : bytes * det_t :=
  match fuel with
  | O => (out, st)
  | S fuel =>
      if 0 <? length then
        let size := if length <? 32 then length else 32 in
        let '(block, st) := det_block st in
        rnd_loop fuel (length - size) (out ++ slice 0 size block) st
      else (out, st)
  end.

Definition lms_rnd (length : Z) (st : det_t) : bytes * det_t :=
  if det_seeded st =? 0 then (fill 0 length, st)
  else rnd_loop (Z.to_nat length) length [] st.

(** * What it computes *)

(** Seeded, with its arrays in place. *)
Record det_ok (st : det_t) : Prop := {
  det_ok_seeded : det_seeded st <> 0;
  det_ok_counter : 0 <= det_counter st < 2 ^ 32;
  det_ok_len : 0 <= det_ctx_len st <= 64;
  det_ok_ctx : len (det_ctx st) = 64
}.

(** What block [k] hashes. *)
Definition det_input (st : det_t) (k : Z) : bytes :=
  det_domain ++ det_be32 k ++ slice 0 (det_ctx_len st) (det_ctx st) ++ det_be32 (det_ctx_len st).

Definition det_stream_block (st : det_t) (k : Z) : bytes := sha256_spec (det_input st k).

(** The blocks a draw of [n] bytes takes. *)
Definition blocks_of (n : Z) : Z := (n + 31) / 32.

Definition advance (m : Z) (st : det_t) : det_t := st {{ det_counter := u32 (det_counter st + m) }}.

Hypothesis Hh0 : length (buffer h0) = 64%nat.

Lemma det_block_run st : det_block st = (det_stream_block st (det_counter st), advance 1 st).
Proof.
  unfold det_block, advance. f_equal. apply (SHA256_Final_inv _ (det_input st (det_counter st))).
  pose proof (absorb_all_inv h0 [det_domain; det_be32 (det_counter st); slice 0 (det_ctx_len st) (det_ctx st); det_be32 (det_ctx_len st)] Hh0) as H.
  cbn [concat] in H. rewrite app_nil_r in H. exact H.
Qed.

Lemma be32_mod a b : a mod 2 ^ 32 = b mod 2 ^ 32 -> det_be32 a = det_be32 b.
Proof.
  intros H. unfold det_be32. rewrite !u8_shiftr, !u8_mod by lia.
  change (2 ^ 32) with 4294967296 in H. change (2 ^ 24) with 16777216. change (2 ^ 16) with 65536. change (2 ^ 8) with 256.
  repeat (f_equal; [Z.to_euclidean_division_equations; lia |]). f_equal. Z.to_euclidean_division_equations; lia.
Qed.

Lemma be32_inj a b : det_be32 a = det_be32 b -> a mod 2 ^ 32 = b mod 2 ^ 32.
Proof.
  unfold det_be32. rewrite !u8_shiftr, !u8_mod by lia.
  change (2 ^ 32) with 4294967296. change (2 ^ 24) with 16777216. change (2 ^ 16) with 65536. change (2 ^ 8) with 256.
  intros [= H1 H2 H3 H4]. Z.to_euclidean_division_equations; lia.
Qed.

Lemma stream_block_mod st a b : a mod 2 ^ 32 = b mod 2 ^ 32 -> det_stream_block st a = det_stream_block st b.
Proof. intros H. unfold det_stream_block, det_input. rewrite (be32_mod a b H). reflexivity. Qed.

(** The stream from counter [c] on. *)
Definition det_stream (st : det_t) (c m : Z) : bytes := concat (map (det_stream_block st) (seqZ c m)).

Lemma det_stream_mod st a b m : a mod 2 ^ 32 = b mod 2 ^ 32 -> 0 <= m -> det_stream st a m = det_stream st b m.
Proof.
  intros H Hm. unfold det_stream. f_equal. replace m with (Z.of_nat (Z.to_nat m)) by lia. revert a b H.
  induction (Z.to_nat m) as [| k IH]; intros a b H; [reflexivity |].
  rewrite (seqZ_cons a), (seqZ_cons b) by lia. cbn [map]. f_equal.
  { apply stream_block_mod, H. }
  replace (Z.pred (Z.of_nat (S k))) with (Z.of_nat k) by lia. apply IH.
  rewrite <- !Z.add_1_r, Z.add_mod, H, <- Z.add_mod by lia. reflexivity.
Qed.

Lemma advance_advance a b st : advance b (advance a st) = advance (a + b) st.
Proof.
  unfold advance. destruct st. cbn. f_equal. rewrite !u32_mod, Z.add_mod_idemp_l by lia. f_equal. lia.
Qed.

Lemma advance_counter st m : det_counter (advance m st) mod 2 ^ 32 = (det_counter st + m) mod 2 ^ 32.
Proof. unfold advance. cbn. rewrite u32_mod, Z.mod_mod by lia. reflexivity. Qed.

Lemma advance_0 st : 0 <= det_counter st < 2 ^ 32 -> advance 0 st = st.
Proof. intros H. destruct st. unfold advance. cbn in *. rewrite Z.add_0_r, u32_small by exact H. reflexivity. Qed.

Lemma stream_block_len st k : len (det_stream_block st k) = 32.
Proof. unfold det_stream_block. rewrite <- sha256_eq_spec. apply sha256_length. Qed.

Lemma blocks_of_step n : 0 < n -> blocks_of n = 1 + blocks_of (Z.max 0 (n - 32)).
Proof. intros Hn. unfold blocks_of. Z.to_euclidean_division_equations; lia. Qed.

Lemma blocks_of_nonneg n : 0 <= n -> 0 <= blocks_of n.
Proof. intros Hn. apply Z.div_pos; lia. Qed.

Lemma rnd_loop_run fuel : forall n out st, 0 <= n <= Z.of_nat fuel -> 0 <= det_counter st < 2 ^ 32 ->
  rnd_loop fuel n out st
  = (out ++ slice 0 n (det_stream st (det_counter st) (blocks_of n)), advance (blocks_of n) st).
Proof.
  induction fuel as [| fuel IH]; intros n out st Hn Hc; cbn [rnd_loop].
  - replace n with 0 by lia. change (blocks_of 0) with 0. rewrite (advance_0 st Hc). cbn. rewrite app_nil_r. reflexivity.
  - destruct (Z.ltb_spec 0 n) as [Hpos | Hz].
    2: { replace n with 0 by lia. change (blocks_of 0) with 0. rewrite (advance_0 st Hc). cbn. rewrite app_nil_r. reflexivity. }
    rewrite det_block_run. pose proof (stream_block_len st (det_counter st)) as Hl.
    set (size := if n <? 32 then n else 32). assert (Hs : size = Z.min n 32) by (unfold size; destruct (Z.ltb_spec n 32); lia).
    assert (Hm : Z.max 0 (n - 32) = n - size) by lia.
    rewrite IH by (lia || apply u32_range).
    rewrite (blocks_of_step n Hpos), Hm. rewrite advance_advance. f_equal. rewrite <- app_assoc. f_equal.
    change (det_stream (advance 1 st)) with (det_stream st). 
    assert (Hb : 0 <= blocks_of (n - size)) by (apply blocks_of_nonneg; lia).
    rewrite (det_stream_mod st _ (det_counter st + 1)) by (exact Hb || apply advance_counter).
    unfold det_stream at 2. rewrite seqZ_app, map_app, concat_app by (try apply blocks_of_nonneg; lia).
    change (seqZ (det_counter st) 1) with [0 + det_counter st]. cbn [map concat]. rewrite Z.add_0_l, app_nil_r.
    fold (det_stream st (det_counter st + 1) (blocks_of (n - size))). set (rest := det_stream _ _ _).
    unfold len in Hl. unfold slice. rewrite !drop_0. destruct (Z.ltb_spec n 32) as [Hlt | Hge].
    + replace (n - size) with 0 by lia. rewrite take_0, app_nil_r. replace size with n by lia.
      rewrite take_app_le by lia. reflexivity.
    + rewrite take_app_ge by lia. rewrite (take_ge _ (Z.to_nat size)) by lia. do 2 f_equal. lia.
Qed.

Lemma lms_rnd_run n st : det_ok st -> 0 <= n ->
  lms_rnd n st = (slice 0 n (det_stream st (det_counter st) (blocks_of n)), advance (blocks_of n) st).
Proof.
  intros [H1 H2 H3 H4] Hn. unfold lms_rnd. destruct (Z.eqb_spec (det_seeded st) 0); [contradiction |].
  rewrite rnd_loop_run by (exact H2 || lia). reflexivity.
Qed.

Lemma det_ok_advance m st : det_ok st -> det_ok (advance m st).
Proof. intros [H1 H2 H3 H4]. split; cbn; try assumption. apply u32_range. Qed.

Lemma det_input_inj st a b : det_input st a = det_input st b -> a mod 2 ^ 32 = b mod 2 ^ 32.
Proof.
  intros H. apply app_inv_head in H. apply be32_inj.
  assert (Hl : forall v, length (det_be32 v) = 4%nat) by reflexivity.
  apply (f_equal (take 4)) in H. rewrite !take_app_le in H by (rewrite Hl; lia). rewrite !take_ge in H by (rewrite Hl; lia). exact H.
Qed.

(** Draws of [ns] bytes, one after the other. *)
Fixpoint draws (ns : list Z) (st : det_t) : list bytes * det_t :=
  match ns with
  | [] => ([], st)
  | n :: ns =>
      let '(out, st) := lms_rnd n st in
      let '(outs, st) := draws ns st in (out :: outs, st)
  end.

Fixpoint total_blocks (ns : list Z) : Z :=
  match ns with [] => 0 | n :: ns => blocks_of n + total_blocks ns end.

(** Draw after draw, each from a block of its own. *)
Fixpoint stream_draws (st : det_t) (c : Z) (ns : list Z) : list bytes :=
  match ns with
  | [] => []
  | n :: ns => slice 0 n (det_stream st c (blocks_of n)) :: stream_draws st (c + blocks_of n) ns
  end.

Lemma stream_draws_mod st ns : forall a b, Forall (Z.le 0) ns -> a mod 2 ^ 32 = b mod 2 ^ 32 -> stream_draws st a ns = stream_draws st b ns.
Proof.
  induction ns as [| n ns IH]; intros a b Hns H; [reflexivity |]. apply Forall_cons in Hns as [Hn Hns]. cbn [stream_draws].
  rewrite (det_stream_mod st a b) by (exact H || apply blocks_of_nonneg, Hn). f_equal. apply IH; [exact Hns |].
  rewrite Z.add_mod, H, <- Z.add_mod by lia. reflexivity.
Qed.

Lemma draws_run ns : forall st, det_ok st -> Forall (Z.le 0) ns ->
  draws ns st = (stream_draws st (det_counter st) ns, advance (total_blocks ns) st).
Proof.
  induction ns as [| n ns IH]; intros st Hst Hns; cbn [draws stream_draws total_blocks].
  - rewrite advance_0 by apply Hst. reflexivity.
  - apply Forall_cons in Hns as [Hn Hns]. rewrite lms_rnd_run by assumption.
    rewrite IH by (try apply det_ok_advance; assumption). rewrite advance_advance. do 2 f_equal.
    assert (E : forall c l, stream_draws (advance (blocks_of n) st) c l = stream_draws st c l)
      by (intros c l; revert c; induction l as [| k l IHl]; intros c; [reflexivity |]; cbn [stream_draws]; f_equal; apply IHl).
    rewrite E. apply (stream_draws_mod st ns); [exact Hns | apply advance_counter].
Qed.

Lemma inputs_distinct st c m : m <= 2 ^ 32 -> NoDup (map (det_input st) (seqZ c m)).
Proof.
  intros Hm. apply NoDup_fmap_2_strong; [| apply NoDup_seqZ]. intros i j Hi Hj H. apply elem_of_seqZ in Hi, Hj.
  apply det_input_inj in H. change (2 ^ 32) with 4294967296 in *. Z.to_euclidean_division_equations; lia.
Qed.
End Det.

Lemma seeded_ok ctx n st : len (det_ctx st) = 64 -> 0 <= n <= len ctx -> det_ok (lms_rnd_det_seed ctx n st).
Proof.
  intros Hl Hn. set (n' := if 64 <? n then 64 else n). assert (Hn' : 0 <= n' <= 64 /\ n' <= n) by (unfold n'; destruct (Z.ltb_spec 64 n); lia).
  split; cbn [lms_rnd_det_seed det_seeded det_counter det_ctx_len det_ctx]; fold n'; [discriminate | lia | lia |].
  rewrite len_splice; [exact Hl | lia |]. rewrite len_slice by lia. lia.
Qed.

(** C27: once seeded, the generator gives a caller, over any sequence of draws, the stream of the
    hashes of (domain, counter, context, length of the context), each draw starting on
    a fresh block; and up to 2^32 blocks no input is hashed twice. *)
Theorem det_draws_stream (h0 : SHA256_CTX) (ctx : bytes) (n : Z) (ns : list Z) (st : det_t) :
  length (buffer h0) = 64%nat -> len (det_ctx st) = 64 -> 0 <= n <= len ctx -> Forall (Z.le 0) ns ->
  let st := lms_rnd_det_seed ctx n st in
  draws h0 ns st = (stream_draws st 0 ns, advance (total_blocks ns) st) /\
  (total_blocks ns <= 2 ^ 32 -> NoDup (map (det_input st) (seqZ 0 (total_blocks ns)))).
Proof.
  intros Hh Hc Hn Hns st'. split.
  - apply draws_run; [exact Hh | apply seeded_ok; assumption | exact Hns].
  - apply (inputs_distinct h0 Hh).
Qed.

Lemma det_draws_stream_witness :
  let st := lms_rnd_det_seed [1; 2; 3] 3 (mkDet 7 (fill 0 64) 0 0) in
  draws zero_ctx [5; 0; 40] st = (stream_draws st 0 [5; 0; 40], advance 3 st) /\
  NoDup (map (det_input st) (seqZ 0 3)).
Proof.
  pose proof (det_draws_stream zero_ctx [1; 2; 3] 3 [5; 0; 40] (mkDet 7 (fill 0 64) 0 0) eq_refl eq_refl
    ltac:(split; discriminate) ltac:(repeat constructor; discriminate)) as [H1 H2].
  split; [exact H1 | apply H2; discriminate].
Defined.
