(* ===== verification/RndStub.v ===== *)
(** Random source B (fw/lms_rnd_stub.c): the xorshift32 test sequence.  It never sticks at
    zero, and a draw is the bytes of consecutive words. *)

From S2P Require Import Prelude.

(** The value of [stub_state] at start. *)
Definition stub_seed : Z := 0x9e3779b9.

(** The static after [lms_rnd32()], which returns it. *)
Definition lms_rnd32 (stub_state : Z) : Z :=
  let x := stub_state in
  let x := x ^^ u32 (x .<< 13) in
  let x := x ^^ (x .>> 17) in
  x ^^ u32 (x .<< 5).

(** The bytes written and the static left. *)
Definition lms_rnd (length stub_state : Z) : bytes * Z :=
  for_z (Z.to_nat length) 0 (fun i '(out, stub_state) =>
    let stub_state := if (i .& 3) =? 0 then lms_rnd32 stub_state else stub_state in
    (out ++ [u8 (stub_state .>> ((i .& 3) * 8))], stub_state)) ([], stub_state).

(** Without effect. *)
Definition lms_rnd_det_seed (ctx : bytes) (length : Z) : unit := tt.

(** * The state never becomes zero *)

(** A turn [x ^ (x << k)] or [x ^ (x >> k)] loses nothing: a bit of the result at a place
    where the shifted word has none yet is a bit of [x]. *)
Lemma shift_left_zero x k : 0 <= x < 2 ^ 32 -> 0 < k -> x ^^ u32 (x .<< k) = 0 -> x = 0.
Proof.
  intros Hx Hk H. apply Z.bits_inj'. intros i Hi. rewrite Z.bits_0. revert Hi.
  apply (well_founded_induction (Z.lt_wf 0) (fun i => 0 <= i -> Z.testbit x i = false)). clear i. intros i IH Hi.
  destruct (Z.leb_spec 32 i); [apply (testbit_above 32); (assumption || lia) |].
  apply (f_equal (fun z => Z.testbit z i)) in H. rewrite Z.lxor_spec, Z.bits_0, testbit_u32, Z.shiftl_spec in H by exact Hi.
  rewrite (proj2 (Z.ltb_lt i 32)), andb_true_r in H by lia.
  destruct (Z.ltb_spec i k).
  - rewrite (Z.testbit_neg_r x (i - k)) in H by lia. rewrite xorb_false_r in H. exact H.
  - rewrite (IH (i - k)) in H by lia. rewrite xorb_false_r in H. exact H.
Qed.

Lemma shift_right_zero x k : 0 <= x < 2 ^ 32 -> 0 < k -> x ^^ (x .>> k) = 0 -> x = 0.
Proof.
  intros Hx Hk H. apply Z.bits_inj'. intros i Hi. rewrite Z.bits_0.
  remember (Z.to_nat (32 - i)) as m eqn:Em. revert i Hi Em.
  induction m as [m IH] using lt_wf_ind. intros i Hi ->.
  destruct (Z.leb_spec 32 i); [apply (testbit_above 32); (assumption || lia) |].
  apply (f_equal (fun z => Z.testbit z i)) in H as Hb. rewrite Z.lxor_spec, Z.bits_0, Z.shiftr_spec in Hb by exact Hi.
  rewrite (IH (Z.to_nat (32 - (i + k))) ltac:(lia) (i + k) ltac:(lia) eq_refl), xorb_false_r in Hb. exact Hb.
Qed.

Lemma xor_u32_range a b : 0 <= a < 2 ^ 32 -> 0 <= b < 2 ^ 32 -> 0 <= a ^^ b < 2 ^ 32.
Proof.
  intros Ha Hb. assert (H : u32 (a ^^ b) = a ^^ b); [| rewrite <- H; apply u32_range].
  apply Z.bits_inj'. intros i Hi. rewrite testbit_u32. destruct (Z.ltb_spec i 32); [apply andb_true_r |].
  rewrite Z.lxor_spec, !(testbit_above 32) by lia. reflexivity.
Qed.

Lemma shiftr_range a k : 0 <= a < 2 ^ 32 -> 0 <= k -> 0 <= a .>> k < 2 ^ 32.
Proof.
  intros Ha Hk. rewrite Z.shiftr_div_pow2 by exact Hk. pose proof (Z.pow_pos_nonneg 2 k ltac:(lia) Hk).
  split; [apply Z.div_pos; lia |]. apply Z.div_lt_upper_bound; nia.
Qed.

Lemma rnd32_range x : 0 <= x < 2 ^ 32 -> 0 <= lms_rnd32 x < 2 ^ 32.
Proof.
  intros Hx. unfold lms_rnd32.
  repeat (apply xor_u32_range || apply shiftr_range || apply u32_range || assumption || lia).
Qed.

Lemma rnd32_nonzero x : 0 < x < 2 ^ 32 -> lms_rnd32 x <> 0.
Proof.
  intros Hx H. unfold lms_rnd32 in H.
  assert (H1 : 0 <= x ^^ u32 (x .<< 13) < 2 ^ 32) by (apply xor_u32_range; [lia | apply u32_range]).
  set (y := x ^^ u32 (x .<< 13)) in *.
  assert (H2 : 0 <= y ^^ (y .>> 17) < 2 ^ 32) by (apply xor_u32_range; [exact H1 | apply shiftr_range; lia]).
  apply shift_left_zero in H; [| exact H2 | lia]. apply shift_right_zero in H; [| exact H1 | lia].
  apply shift_left_zero in H; lia.
Qed.

(** The words the source has delivered after [k] calls. *)
Fixpoint stub_word (k : nat) : Z := match k with O => stub_seed | S k => lms_rnd32 (stub_word k) end.

Lemma stub_never_zero k : 0 < stub_word k < 2 ^ 32.
Proof.
  induction k as [| k IH]; [split; reflexivity |]. cbn [stub_word].
  pose proof (rnd32_range (stub_word k) ltac:(lia)). pose proof (rnd32_nonzero (stub_word k) IH). lia.
Qed.

(** * A draw *)

(** The word that holds byte [i] of a draw from the state [x]. *)
Definition word_at (x i : Z) : Z := Nat.iter (Z.to_nat (i / 4) + 1) lms_rnd32 x.

Lemma word_at_step x k : 0 <= k -> k mod 4 = 0 -> word_at x k = lms_rnd32 (Nat.iter (Z.to_nat ((k + 3) / 4)) lms_rnd32 x).
Proof.
  intros Hk Hm. unfold word_at. rewrite Nat.add_1_r.
  replace ((k + 3) / 4) with (k / 4) by (Z.to_euclidean_division_equations; lia). reflexivity.
Qed.

Lemma stub_draw n x : 0 <= n ->
  lms_rnd n x = (map (fun i => u8 (word_at x i .>> (i mod 4 * 8))) (seqZ 0 n), Nat.iter (Z.to_nat ((n + 3) / 4)) lms_rnd32 x).
Proof.
  intros Hn. unfold lms_rnd.
  pose proof (for_z_inv (fun i '(out, st) =>
    let st := if (i .& 3) =? 0 then lms_rnd32 st else st in (out ++ [u8 (st .>> ((i .& 3) * 8))], st))
    (fun k s => s = (map (fun i => u8 (word_at x i .>> (i mod 4 * 8))) (seqZ 0 k), Nat.iter (Z.to_nat ((k + 3) / 4)) lms_rnd32 x))
    (Z.to_nat n) 0 ([], x) eq_refl) as H.
  rewrite Z.add_0_l, Z2Nat.id in H by exact Hn. apply H. intros k ? Hk ->. clear H.
  assert (Eland : k .& 3 = k mod 4) by (apply (Z.land_ones k 2); lia). rewrite !Eland.
  rewrite seqZ_app, map_app by lia. change (seqZ (0 + k) 1) with [0 + (0 + k)]. cbn [map].
  rewrite !Z.add_0_l.
  assert (E : (if k mod 4 =? 0 then lms_rnd32 (Nat.iter (Z.to_nat ((k + 3) / 4)) lms_rnd32 x)
               else Nat.iter (Z.to_nat ((k + 3) / 4)) lms_rnd32 x) = word_at x k).
  { destruct (Z.eqb_spec (k mod 4) 0) as [Hz | Hnz].
    - symmetry. apply word_at_step; [lia | exact Hz].
    - unfold word_at. replace ((k + 3) / 4) with (k / 4 + 1) by (Z.to_euclidean_division_equations; lia).
      rewrite Z2Nat.inj_add by (try apply Z.div_pos; lia). reflexivity. }
  cbv zeta. rewrite E. f_equal. unfold word_at. replace ((k + 1 + 3) / 4) with (k / 4 + 1) by (Z.to_euclidean_division_equations; lia).
  rewrite Z2Nat.inj_add by (try apply Z.div_pos; lia). reflexivity.
Qed.

Example stub_first_word : fst (lms_rnd 5 stub_seed) = [25; 70; 12; 81; 62].
Proof. reflexivity. Qed.
