(* ===== verification/RndTrng.v ===== *)
(** Random source C (fw/lms_rnd_trng.c): the true random generator, raw or conditioned through
    the accelerator's hash, and [fw_trng_fill_c] of fw/lms_soc_smoke.c, which reads the same
    peripheral for a signature's randomizer.

    The statics are the record [trng_t]; loads and stores are those of the class [Mmio].  A
    [while] loop that polls a register takes fuel; running out of it is the error [POLLING]. *)

From S2P Require Import Prelude Types Mmio.

Definition TRNG_BASE : Z := 0x17000000.
Definition TRNG_STAT : Z := TRNG_BASE + 0x0c.
Definition TRNG_RND : Z := TRNG_BASE + 0x10.
Definition TRNG_STAT_HEALTH_FAIL : Z := 1.
Definition TRNG_STAT_WORD_VALID : Z := 1 .<< 8.

Definition LMS_BASE : Z := 0x16000000.
Definition LMS_COMMAND : Z := LMS_BASE + 0x008.
Definition LMS_CONTROL : Z := LMS_BASE + 0x00c.
Definition LMS_STATUS : Z := LMS_BASE + 0x010.
Definition LMS_ERROR : Z := LMS_BASE + 0x014.
Definition LMS_INPUT_LENGTH : Z := LMS_BASE + 0x018.
Definition LMS_OUTPUT_LENGTH : Z := LMS_BASE + 0x01c.
Definition LMS_INPUT : Z := LMS_BASE + 0x100.
Definition LMS_OUTPUT : Z := LMS_BASE + 0x200.
Definition LMS_CMD_HASH_ONCE : Z := 1.
Definition LMS_CTRL_START : Z := 1.
Definition LMS_CTRL_CLEAR : Z := 2.
Definition LMS_STATUS_BUSY : Z := 1.
Definition LMS_STATUS_DONE : Z := 2.

Record trng_t := mkTrng {
  trng_fault : Z;
  cond_buf : bytes;              (* [32] *)
  cond_avail : Z
}.

Inductive polling := POLLING.

Section Trng.
Context `{P : Platform} `{Mm : !Mmio}.
(** The turns a polling loop may take. *)
Variable fuel : nat.
Variable LMS_RND_TRNG_COND : Z.

Record tstate := mkTstate { t_st : trng_t; t_dev : dev }.

Definition T (A : Type) : Type := M tstate polling A.

(** [MMIO32(address)], read and written. *)
Definition mmio_read (address : Z) : T Z :=
  fun s => let '(v, d) := load32 address (t_dev s) in (Ok v, mkTstate (t_st s) d).
Definition mmio_write (address value : Z) : T unit :=
  modify (fun s => mkTstate (t_st s) (store32 address value (t_dev s))).

Definition get_st : T trng_t := fun s => (Ok (t_st s), s).
Definition set_st (f : trng_t -> trng_t) : T unit := modify (fun s => mkTstate (f (t_st s)) (t_dev s)).

Definition unhealthy (stat : Z) : bool := negb ((stat .& TRNG_STAT_HEALTH_FAIL) =? 0).

(** [trng_fault = 1u; return 0u;] *)
Definition raise_fault : T Z := set_st (fun st => st {{ trng_fault := 1 }}) ;; mret 0.

(** The loop of [trng_raw_word] and the read behind it. *)
Fixpoint wait_word (n : nat) (stat : Z) : T Z :=
  if (stat .& TRNG_STAT_WORD_VALID) =? 0 then
    match n with
    | O => fail POLLING
    | S n =>
        stat ← mmio_read TRNG_STAT;
        if unhealthy stat then raise_fault else wait_word n stat
    end
  else mmio_read TRNG_RND.

Definition trng_raw_word : T Z :=
  stat ← mmio_read TRNG_STAT;
  if unhealthy stat then raise_fault else wait_word fuel stat.

(** [while ((MMIO32(LMS_STATUS) & LMS_STATUS_BUSY) != 0u) {}] *)
Fixpoint wait_idle (n : nat) : T unit :=
  match n with
  | O => fail POLLING
  | S n =>
      status ← mmio_read LMS_STATUS;
      if negb ((status .& LMS_STATUS_BUSY) =? 0) then wait_idle n else mret tt
  end.

(** [memset(cond_buf, 0, ..); cond_avail = 0u;] *)
Definition drop_buffer : T unit := set_st (fun st => st {{ cond_buf := fill 0 32; cond_avail := 0 }}).

Definition word_le (word : Z) : bytes := [u8 word; u8 (word .>> 8); u8 (word .>> 16); u8 (word .>> 24)].

Definition trng_cond_refill : T unit :=
  mmio_write LMS_CONTROL LMS_CTRL_CLEAR ;;
  mmio_write LMS_COMMAND LMS_CMD_HASH_ONCE ;;
  mmio_write LMS_INPUT_LENGTH 64 ;;
  mmio_write LMS_OUTPUT_LENGTH 32 ;;
  loopM 16 0 (fun index _ =>
    word ← trng_raw_word;
    mmio_write (LMS_INPUT + index * 4) word) tt ;;
  st ← get_st;
  if negb (trng_fault st =? 0) then drop_buffer
  else
    mmio_write LMS_CONTROL LMS_CTRL_START ;;
    wait_idle fuel ;;
    status ← mmio_read LMS_STATUS;
    (* [||] reads the error register only when the status is DONE *)
    bad ← (if negb (status =? LMS_STATUS_DONE) then mret true
           else error ← mmio_read LMS_ERROR; mret (negb (error =? 0)));
    if bad : bool then set_st (fun st => st {{ trng_fault := 1 }}) ;; drop_buffer
    else
      loopM 8 0 (fun index _ =>
        word ← mmio_read (LMS_OUTPUT + index * 4);
        set_st (fun st => st {{ cond_buf := splice (index * 4) (word_le word) (cond_buf st) }})) tt ;;
      set_st (fun st => st {{ cond_avail := 8 }}).

(** The next word of the buffer. *)
Definition take_word : T Z :=
  st ← get_st;
  let used := 8 - cond_avail st in
  let word := rd (cond_buf st) (used * 4) .| (rd (cond_buf st) (used * 4 + 1) .<< 8)
              .| (rd (cond_buf st) (used * 4 + 2) .<< 16) .| (rd (cond_buf st) (used * 4 + 3) .<< 24) in
  set_st (fun st => st {{ cond_avail := cond_avail st - 1 }}) ;;
  mret word.

Definition lms_rnd32 : T Z :=
  st ← get_st;
  if negb (trng_fault st =? 0) then mret 0
  else if LMS_RND_TRNG_COND =? 1 then trng_raw_word
  else
    (if cond_avail st =? 0 then trng_cond_refill else mret tt) ;;
    st ← get_st;
    if cond_avail st =? 0 then mret 0 else take_word.

(** The bytes written. *)
Definition lms_rnd (length : Z) : T bytes :=
  '(out, _) ← loopM (Z.to_nat length) 0 (fun i '(out, word) =>
    word ← (if (i .& 3) =? 0 then lms_rnd32 else mret (word .>> 8));
    mret (out ++ [u8 word], word)) ([], 0);
  mret out.

(** Without effect. *)
Definition lms_rnd_det_seed (ctx : bytes) (length : Z) : T unit := mret tt.

(** ** The randomizer of a signature (fw/lms_soc_smoke.c)

    The status it returns (0 or 1) and what is written at [out]. *)

Fixpoint fill_wait (n : nat) (stat : Z) : T bool :=
  if (stat .& 0x100) =? 0 then
    match n with
    | O => fail POLLING
    | S n =>
        stat ← mmio_read TRNG_STAT;
        if negb ((stat .& 1) =? 0) then mret false else fill_wait n stat
    end
  else mret true.

(** The words from [index] on; [count] are left. *)
Fixpoint fill_words (count : nat) : T (Z * bytes) :=
  match count with
  | O => mret (0, [])
  | S count =>
      ready ← fill_wait fuel 0;
      if ready : bool then
        word ← mmio_read TRNG_RND;
        '(rc, rest) ← fill_words count;
        mret (rc, word_le word ++ rest)
      else mret (1, [])
  end.

Definition fw_trng_fill_c : T (Z * bytes) :=
  stat ← mmio_read TRNG_STAT;
  if negb ((stat .& 1) =? 0) then mret (1, []) else fill_words (Z.to_nat (LMS_N / 4)).
End Trng.

(** * Polling ends, and the source fails closed *)

Section TrngCorrect.
Context `{P : Platform} `{Mm : !Mmio}.
Variable fuel : nat.
Variable LMS_RND_TRNG_COND : Z.

(** One of the next [n] reads of [address] gives a value of [good]. *)
Fixpoint settles (n : nat) (address : Z) (good : Z -> bool) (d : dev) : Prop :=
  match n with
  | O => False
  | S n => good (fst (load32 address d)) = true \/ settles n address good (snd (load32 address d))
  end.

(** The peripherals answer: within [fuel] reads the generator has a word or reports a fault,
    and the accelerator is idle. *)
Record lively (ok : dev -> Prop) : Prop := {
  lively_load : forall address d, ok d -> ok (snd (load32 address d));
  lively_store : forall address v d, ok d -> ok (store32 address v d);
  lively_trng : forall d, ok d ->
    settles fuel TRNG_STAT (fun v => unhealthy v || negb ((v .& TRNG_STAT_WORD_VALID) =? 0)) d;
  lively_hash : forall d, ok d -> settles fuel LMS_STATUS (fun v => (v .& LMS_STATUS_BUSY) =? 0) d
}.

Variable ok : dev -> Prop.
Hypothesis Hok : lively ok.

Abbreviation never := (fun (_ : polling) (_ : tstate) => False).
Definition faulty (s : tstate) : Prop := trng_fault (t_st s) <> 0.

Lemma mmio_read_run address (Q : Z -> tstate -> Prop) R s :
  Q (fst (load32 address (t_dev s))) (mkTstate (t_st s) (snd (load32 address (t_dev s)))) ->
  wp (mmio_read address) Q R s.
Proof. unfold wp, mmio_read. destruct (load32 address (t_dev s)). exact (fun H => H). Qed.

(** After [trng_raw_word]: the statics are as before, or the fault is raised and the word is 0. *)
Definition raw_post (s : tstate) (w : Z) (s' : tstate) : Prop :=
  ok (t_dev s') /\ (t_st s' = t_st s \/ (t_st s' = (t_st s) {{ trng_fault := 1 }} /\ w = 0)).

Lemma wait_word_run n : forall stat s, ok (t_dev s) ->
  (stat .& TRNG_STAT_WORD_VALID) <> 0
  \/ settles n TRNG_STAT (fun v => unhealthy v || negb ((v .& TRNG_STAT_WORD_VALID) =? 0)) (t_dev s) ->
  wp (wait_word n stat) (raw_post s) never s.
Proof.
  assert (Hread : forall s, ok (t_dev s) -> wp (mmio_read TRNG_RND) (raw_post s) never s).
  { intros s Hs. apply mmio_read_run. split; [apply (lively_load ok Hok), Hs | left; reflexivity]. }
  induction n as [| n IH]; intros stat s Hs Hset; cbn [wait_word];
    destruct (Z.eqb_spec (stat .& TRNG_STAT_WORD_VALID) 0) as [Hz | Hnz]; try (apply Hread, Hs).
  - destruct Hset as [H | H]; [contradiction | destruct H].
  - destruct Hset as [H | Hset]; [contradiction |]. cbn [settles] in Hset.
    apply wp_bind, mmio_read_run. pose proof (lively_load ok Hok TRNG_STAT _ Hs) as Hs'.
    destruct (load32 TRNG_STAT (t_dev s)) as [v d]. cbn [fst snd] in *.
    destruct (unhealthy v) eqn:Eu.
    + split; [exact Hs' | right; split; reflexivity].
    + apply (IH v (mkTstate (t_st s) d) Hs'). cbn [orb] in Hset. destruct Hset as [Hg | Hset]; [left | right; exact Hset].
      intros E. rewrite E in Hg. discriminate.
Qed.

Lemma raw_word_run s : ok (t_dev s) -> wp (trng_raw_word fuel) (raw_post s) never s.
Proof.
  intros Hs. unfold trng_raw_word. apply wp_bind, mmio_read_run.
  pose proof (lively_load ok Hok TRNG_STAT _ Hs) as Hs'. pose proof (lively_trng ok Hok _ Hs') as Hset.
  destruct (load32 TRNG_STAT (t_dev s)) as [v d]. cbn [fst snd] in *. destruct (unhealthy v).
  - split; [exact Hs' | right; split; reflexivity].
  - apply (wait_word_run fuel v (mkTstate (t_st s) d) Hs'). right. exact Hset.
Qed.

Lemma wait_idle_run n : forall s, ok (t_dev s) ->
  settles n LMS_STATUS (fun v => (v .& LMS_STATUS_BUSY) =? 0) (t_dev s) ->
  wp (wait_idle n) (fun _ s' => ok (t_dev s') /\ t_st s' = t_st s) never s.
Proof.
  induction n as [| n IH]; intros s Hs Hset; [destruct Hset |]. cbn [wait_idle settles] in *.
  apply wp_bind, mmio_read_run. pose proof (lively_load ok Hok LMS_STATUS _ Hs) as Hs'.
  destruct (load32 LMS_STATUS (t_dev s)) as [v d]. cbn [fst snd] in *.
  destruct ((v .& LMS_STATUS_BUSY) =? 0); cbn [negb].
  - split; [exact Hs' | reflexivity].
  - destruct Hset as [Hset | Hset]; [discriminate |]. apply (IH (mkTstate (t_st s) d) Hs' Hset).
Qed.

(** A loop that keeps an invariant. *)
Lemma wp_loop_inv {A} (body : Z -> A -> T A) (J : tstate -> Prop) n : forall i a s,
  J s -> (forall k a s, J s -> wp (body k a) (fun _ => J) never s) -> wp (loopM n i body a) (fun _ => J) never s.
Proof.
  induction n as [| n IH]; intros i a s Hs Hb; [exact Hs |]. cbn [loopM]. apply wp_bind.
  apply (wp_conseq (body i a) (fun _ => J) _ never); [apply Hb, Hs | intros a' s' Hs'; apply IH; assumption | auto].
Qed.

(** A refill leaves eight words, or the fault and none. *)
Definition refilled (s : tstate) : Prop :=
  ok (t_dev s) /\ ((trng_fault (t_st s) = 0 /\ cond_avail (t_st s) = 8) \/ (faulty s /\ cond_avail (t_st s) = 0)).

Lemma refill_collect s : ok (t_dev s) ->
  wp (loopM 8 0 (fun index _ =>
        word ← mmio_read (LMS_OUTPUT + index * 4);
        set_st (fun st => st {{ cond_buf := splice (index * 4) (word_le word) (cond_buf st) }})) tt)
    (fun _ s' => ok (t_dev s') /\ trng_fault (t_st s') = trng_fault (t_st s)) never s.
Proof.
  intros Hs. apply wp_loop_inv; [split; [exact Hs | reflexivity] |]. intros k _ s1 [H1 H2].
  apply wp_bind, mmio_read_run. split; [apply (lively_load ok Hok), H1 | exact H2].
Qed.

Lemma write_bind {A} address v (m : unit -> T A) Q s : ok (t_dev s) ->
  (forall s', ok (t_dev s') -> t_st s' = t_st s -> wp (m tt) Q never s') -> wp (mmio_write address v ≫= m) Q never s.
Proof. intros Hs Hm. apply wp_bind, Hm; [apply (lively_store ok Hok), Hs | reflexivity]. Qed.

Lemma refill_run s : ok (t_dev s) -> trng_fault (t_st s) = 0 ->
  wp (trng_cond_refill fuel) (fun _ => refilled) never s.
Proof.
  intros Hs Hf. unfold trng_cond_refill.
  apply write_bind; [exact Hs |]. intros sa Ha _. apply write_bind; [exact Ha |]. intros sb Hb _.
  apply write_bind; [exact Hb |]. intros sc Hc _. apply write_bind; [exact Hc |]. intros sd Hd _.
  apply wp_bind. eapply wp_conseq; [apply (wp_loop_inv _ (fun s => ok (t_dev s))); [exact Hd |] | | auto].
  { intros k _ s1 H1. apply wp_bind. eapply wp_conseq; [apply raw_word_run, H1 | | auto]. intros w s2 [H2 _].
    apply (lively_store ok Hok), H2. }
  intros [] s1 H1. cbn beta in *. apply wp_bind. unfold get_st at 1, wp at 1.
  destruct (Z.eqb_spec (trng_fault (t_st s1)) 0) as [Hz | Hnz]; cbn [negb].
  2: { split; [exact H1 | right; split; [exact Hnz | reflexivity]]. }
  apply write_bind; [exact H1 |]. intros se He Ee. apply wp_bind.
  eapply wp_conseq; [apply wait_idle_run; [exact He | apply (lively_hash ok Hok), He] | | auto].
  intros _ s2 [H2 E2]. cbn beta in *. rewrite Ee in E2. apply wp_bind, mmio_read_run.
  pose proof (lively_load ok Hok LMS_STATUS _ H2) as H3. destruct (load32 LMS_STATUS (t_dev s2)) as [v d]. cbn [fst snd] in *.
  apply wp_bind. apply (wp_conseq _ (fun _ s' => ok (t_dev s') /\ t_st s' = t_st s1) _ never).
  { destruct (negb (v =? LMS_STATUS_DONE)); [split; [exact H3 | exact E2] |].
    apply wp_bind, mmio_read_run. split; [apply (lively_load ok Hok), H3 | exact E2]. }
  2: auto.
  intros bad s4 [H4 E4]. destruct bad.
  - split; [exact H4 | right]. cbn. split; [intros H; discriminate H | reflexivity].
  - apply wp_bind. eapply wp_conseq; [apply refill_collect, H4 | | auto]. intros _ s5 [H5 E5].
    split; [exact H5 | left]. destruct s5 as [[f b a] d']. cbn in *. rewrite E5, E4. auto.
Qed.

(** One word: after a fault it is 0. *)
Lemma rnd32_run s : ok (t_dev s) -> trng_fault (t_st s) = 0 ->
  wp (lms_rnd32 fuel LMS_RND_TRNG_COND) (fun w s' => ok (t_dev s') /\ (faulty s' -> w = 0)) never s.
Proof.
  intros Hs Hf. unfold lms_rnd32. apply wp_bind. unfold get_st at 1, wp at 1. rewrite Hf. cbn [Z.eqb negb].
  destruct (LMS_RND_TRNG_COND =? 1).
  - eapply wp_conseq; [apply raw_word_run, Hs | | auto]. intros w s' [H1 [E | [_ Hw]]]; (split; [exact H1 |]).
    + unfold faulty. rewrite E, Hf. congruence.
    + auto.
  - apply wp_bind. apply (wp_conseq _ (fun _ s' => ok (t_dev s') /\ (cond_avail (t_st s') = 0 \/ trng_fault (t_st s') = 0)) _ never).
    { destruct (cond_avail (t_st s) =? 0).
      - eapply wp_conseq; [apply refill_run; assumption | | auto]. intros _ s' [H [[H1 H2] | [H1 H2]]]; auto.
      - split; [exact Hs | right; exact Hf]. }
    2: auto.
    intros _ s1 [H1 Hs1]. apply wp_bind. unfold get_st at 1, wp at 1.
    destruct (Z.eqb_spec (cond_avail (t_st s1)) 0) as [Hz | Hnz].
    + split; [exact H1 | reflexivity].
    + split; [exact H1 |]. intros H. destruct Hs1; [contradiction |]. destruct (H H0).
Qed.

(** ** A draw *)

(** The first [n] turns of the loop of [lms_rnd]. *)
Definition draw_loop (n : nat) : T (bytes * Z) :=
  loopM n 0 (fun i '(out, word) =>
    word ← (if (i .& 3) =? 0 then lms_rnd32 fuel LMS_RND_TRNG_COND else mret (word .>> 8));
    mret (out ++ [u8 word], word)) ([], 0).

Lemma loopM_snoc {A} (body : Z -> A -> T A) n : forall i a s,
  loopM (S n) i body a s = (a' ← loopM n i body a; body (i + Z.of_nat n) a') s.
Proof.
  induction n as [| n IH]; intros i a s.
  - cbn [loopM]. unfold mbind, M_bind, mret, M_ret. rewrite Z.add_0_r. destruct (body i a s) as [[a' | e] s']; reflexivity.
  - change (loopM (S (S n)) i body a s) with ((a' ← body i a; loopM (S n) (i + 1) body a') s).
    change (loopM (S n) i body a) with (a' ← body i a; loopM n (i + 1) body a').
    unfold mbind at 1 2 3, M_bind at 1 2 3. unfold mbind, M_bind. destruct (body i a s) as [[a' | e] s']; [| reflexivity].
    rewrite IH. replace (i + Z.of_nat (S n)) with (i + 1 + Z.of_nat n) by lia. reflexivity.
Qed.

(** The words a draw of [n] bytes has taken when it ends: all are sound, or the source failed
    at byte [k], and all bytes from there on are 0. *)
Definition failed_at (s : tstate) (n k : nat) (out : bytes) (word : Z) : Prop :=
  (k <= n)%nat /\ word = 0 /\ drop k out = replicate (n - k) 0 /\
  exists w1 s1, draw_loop k s = (Ok (take k out, w1), s1) /\ trng_fault (t_st s1) = 0.

Lemma draw_run s n : ok (t_dev s) -> trng_fault (t_st s) = 0 ->
  exists out word s', draw_loop n s = (Ok (out, word), s') /\ ok (t_dev s') /\ length out = n /\
    (faulty s' -> exists k, failed_at s n k out word).
Proof.
  intros Hs Hf. induction n as [| n (out & word & s1 & E & H1 & Hl & Hfail)].
  { exists [], 0, s. split; [reflexivity |]. repeat split; [exact Hs |]. unfold faulty. congruence. }
  unfold draw_loop in *. rewrite loopM_snoc. unfold mbind at 1, M_bind at 1. rewrite E. cbn beta iota.
  assert (Hnext : forall w s2, ok (t_dev s2) -> (faulty s2 -> w = 0) -> (faulty s1 -> s2 = s1 /\ w = 0) ->
    exists out' word' s', (Ok (E := polling) (out ++ [u8 w], w), s2) = (Ok (out', word'), s') /\ ok (t_dev s') /\ length out' = S n /\
      (faulty s' -> exists k, failed_at s (S n) k out' word')).
  { intros w s2 H2 Hw Hstay. exists (out ++ [u8 w]), w, s2. split; [reflexivity |]. split; [exact H2 |].
    split; [rewrite length_app, Hl; cbn; lia |]. intros Hf2. specialize (Hw Hf2) as ->. change (u8 0) with 0.
    destruct (decide (trng_fault (t_st s1) = 0)) as [Hz | Hnz].
    - exists n. split; [lia |]. split; [reflexivity |]. rewrite drop_app_len, take_app_len by lia.
      split; [replace (S n - n)%nat with 1%nat by lia; reflexivity |]. exists word, s1. auto.
    - destruct (Hfail Hnz) as (k & Hk & _ & Hz & w0 & s0 & E0 & Hs0). exists k. split; [lia |]. split; [reflexivity |].
      rewrite drop_app_le, take_app_le, Hz by lia. replace (S n - k)%nat with (n - k + 1)%nat by lia.
      rewrite replicate_add. split; [reflexivity |]. exists w0, s0. auto. }
  unfold mbind at 1, M_bind at 1. rewrite Z.add_0_l. destruct ((Z.of_nat n .& 3) =? 0).
  - destruct (Z.eqb_spec (trng_fault (t_st s1)) 0) as [Hz | Hnz].
    + pose proof (rnd32_run s1 H1 Hz) as Hw. unfold wp in Hw.
      destruct (lms_rnd32 fuel LMS_RND_TRNG_COND s1) as [[w | e] s2]; [| destruct Hw]. destruct Hw as [H2 Hw].
      apply Hnext; [exact H2 | exact Hw |]. intros H. destruct (H Hz).
    + assert (E0 : lms_rnd32 fuel LMS_RND_TRNG_COND s1 = (Ok 0, s1)).
      { unfold lms_rnd32, mbind at 1, M_bind at 1, get_st at 1. destruct (Z.eqb_spec (trng_fault (t_st s1)) 0); [contradiction | reflexivity]. }
      rewrite E0. apply Hnext; [exact H1 | reflexivity | auto].
  - cbn [mret M_ret]. unfold mret, M_ret. apply Hnext; [exact H1 | |].
    + intros Hf1. destruct (Hfail Hf1) as (k & _ & -> & _). reflexivity.
    + intros Hf1. destruct (Hfail Hf1) as (k & _ & -> & _). auto.
Qed.

(** With the fault up the peripherals are not touched. *)
Lemma draw_faulty s n : faulty s -> draw_loop n s = (Ok (replicate n 0, 0), s).
Proof.
  intros Hf. induction n as [| n IH]; [reflexivity |]. unfold draw_loop in *. rewrite loopM_snoc.
  unfold mbind at 1, M_bind at 1. rewrite IH. cbn beta iota. rewrite Z.add_0_l.
  assert (E0 : lms_rnd32 fuel LMS_RND_TRNG_COND s = (Ok 0, s)).
  { unfold lms_rnd32, mbind at 1, M_bind at 1, get_st at 1. destruct (Z.eqb_spec (trng_fault (t_st s)) 0); [contradiction | reflexivity]. }
  unfold mbind at 1, M_bind at 1. destruct ((Z.of_nat n .& 3) =? 0); [rewrite E0 |];
    (replace (S n) with (n + 1)%nat by lia; rewrite replicate_add; reflexivity).
Qed.

Lemma lms_rnd_loop n s out word s' : draw_loop (Z.to_nat n) s = (Ok (out, word), s') ->
  lms_rnd fuel LMS_RND_TRNG_COND n s = (Ok out, s').
Proof. intros E. unfold lms_rnd. fold (draw_loop (Z.to_nat n)). unfold mbind, M_bind. rewrite E. reflexivity. Qed.

(** ** The randomizer's source ends too: 32 bytes, or the status 1 *)

Lemma fill_wait_run n : forall stat s, ok (t_dev s) ->
  settles n TRNG_STAT (fun v => unhealthy v || negb ((v .& TRNG_STAT_WORD_VALID) =? 0)) (t_dev s) ->
  wp (fill_wait n stat) (fun _ s' => ok (t_dev s') /\ t_st s' = t_st s) never s.
Proof.
  induction n as [| n IH]; intros stat s Hs Hset; [destruct Hset |]. cbn [fill_wait settles] in *.
  destruct ((stat .& 0x100) =? 0); [| split; [exact Hs | reflexivity]].
  apply wp_bind, mmio_read_run. pose proof (lively_load ok Hok TRNG_STAT _ Hs) as Hs'.
  destruct (load32 TRNG_STAT (t_dev s)) as [v d]. cbn [fst snd] in *. unfold unhealthy in Hset.
  change TRNG_STAT_HEALTH_FAIL with 1 in Hset. destruct (negb ((v .& 1) =? 0)); [split; [exact Hs' | reflexivity] |].
  destruct Hset as [Hg | Hset].
  - destruct n as [| n]; cbn [fill_wait]; change (v .& TRNG_STAT_WORD_VALID) with (v .& 0x100) in Hg;
      destruct ((v .& 0x100) =? 0); try discriminate Hg; split; try exact Hs'; reflexivity.
  - apply (IH v (mkTstate (t_st s) d) Hs' Hset).
Qed.

Lemma fill_words_run count : forall s, ok (t_dev s) ->
  wp (fill_words fuel count) (fun '(rc, out) s' => ok (t_dev s') /\ t_st s' = t_st s /\
    (rc = 0 /\ length out = (4 * count)%nat \/ rc = 1)) never s.
Proof.
  induction count as [| count IH]; intros s Hs; [repeat split; auto |]. cbn [fill_words]. apply wp_bind.
  eapply wp_conseq; [apply fill_wait_run; [exact Hs | apply (lively_trng ok Hok), Hs] | | auto].
  intros ready s1 [H1 E1]. destruct ready; [| repeat split; auto].
  apply wp_bind, mmio_read_run. apply wp_bind.
  eapply wp_conseq; [apply IH, (lively_load ok Hok), H1 | | auto].
  intros [rc rest] s2 (H2 & E2 & Hrc). split; [exact H2 |]. split; [exact (eq_trans E2 E1) |].
  destruct Hrc as [[-> Hl] | ->]; [left | right; reflexivity]. split; [reflexivity |]. rewrite length_app, Hl. cbn. lia.
Qed.

Lemma trng_fill_c_run s : ok (t_dev s) ->
  exists rc out s', fw_trng_fill_c fuel s = (Ok (rc, out), s') /\ (rc = 0 /\ len out = LMS_N \/ rc = 1).
Proof.
  intros Hs. assert (H : wp (fw_trng_fill_c fuel) (fun '(rc, out) _ => rc = 0 /\ len out = LMS_N \/ rc = 1) never s).
  { unfold fw_trng_fill_c. apply wp_bind, mmio_read_run. destruct (negb _); [right; reflexivity |].
    eapply wp_conseq; [apply fill_words_run, (lively_load ok Hok), Hs | | auto].
    intros [rc out] s' (_ & _ & [[-> Hl] | ->]); [left | right; reflexivity]. split; [reflexivity |]. unfold len. rewrite Hl. reflexivity. }
  unfold wp in H. destruct (fw_trng_fill_c fuel s) as [[[rc out] | e] s']; [| destruct H]. exists rc, out, s'. auto.
Qed.
End TrngCorrect.

(** C24: the random generator of the firmware fails closed, and always returns: with
    peripherals that answer within [fuel] reads, a draw ends with its [n] bytes; once the
    fault flag is up a draw is all zeros and leaves the peripherals alone; and when the
    flag goes up during a draw, there is a byte [k] before which the draw is the one of
    [k] bytes, delivered with the flag down, and from which on all bytes are 0. *)
Theorem trng_fails_closed `{P : Platform} `{Mm : !Mmio} (fuel : nat) (cond : Z) (ok : dev -> Prop) (n : Z) (s : tstate) :
  lively fuel ok -> ok (t_dev s) -> 0 <= n ->
  exists out s', lms_rnd fuel cond n s = (Ok out, s') /\ len out = n /\ ok (t_dev s') /\
    (faulty s -> out = fill 0 n /\ s' = s) /\
    (~ faulty s -> faulty s' -> exists k s1, 0 <= k <= n /\ from k out = fill 0 (n - k) /\
       lms_rnd fuel cond k s = (Ok (slice 0 k out), s1) /\ ~ faulty s1).
Proof.
  intros Hok Hs Hn. destruct (decide (trng_fault (t_st s) = 0)) as [Hz | Hnz].
  - destruct (draw_run fuel cond ok Hok s (Z.to_nat n) Hs Hz) as (out & word & s' & E & Hs' & Hl & Hfail).
    exists out, s'. split; [apply (lms_rnd_loop fuel cond n s out word s' E) |]. split; [unfold len; lia |]. split; [exact Hs' |].
    split; [intros H; destruct (H Hz) |]. intros _ Hf. destruct (Hfail Hf) as (k & Hk & _ & Hd & w1 & s1 & E1 & Hz1).
    exists (Z.of_nat k), s1. split; [lia |]. unfold from, fill, slice. rewrite Nat2Z.id, drop_0, Hd.
    split; [f_equal; lia |]. split; [| unfold faulty; congruence].
    apply (lms_rnd_loop fuel cond _ s _ w1). rewrite Nat2Z.id. exact E1.
  - exists (fill 0 n), s. split; [apply (lms_rnd_loop fuel cond n s _ 0), draw_faulty, Hnz |].
    split; [apply len_fill, Hn |]. split; [exact Hs |]. split; [auto |]. intros H. destruct (H Hnz).
Qed.

(** A generator whose health test fails after 12 reads, read raw: a draw of 12 bytes keeps
    its first words. *)
#[local] Instance trng_platform : Platform := {|
  SIZE_MAX := UINT_MAX;
  SIZE_MAX_ge := Z.le_refl UINT_MAX;
  dev := lms_mmio_client_t * Z;
  dev_ok _ := True;
  malloc_dev_ok _ _ H := H;
  malloc _ d := (true, d);
  sizeof_hss_private_key := 66572;
  sizeof_lms_sublevel := 104;
  indet n := fill 0xA5 n;
  indet_len n Hn := len_fill 0xA5 n Hn
|}.

#[local] Instance trng_mmio : Mmio := {|
  client_at _ d := fst d;
  set_client _ c d := (c, snd d);
  client_set _ _ _ := eq_refl;
  extern_read32 _ _ _ d := (0, d);
  extern_write32 _ _ _ _ d := d;
  load32 address d :=
    (if address =? TRNG_STAT then (if snd d <? 3 then 0x100 else 1)
     else if address =? LMS_STATUS then 2 else u32 (0x01020304 * snd d), (fst d, snd d + 1));
  store32 _ _ d := d;
  extern_trng_fill _ _ d := ((0, fill 0x5C LMS_N), d);
  bytes_at _ n _ := fill 0x3A n;
  aligned4 _ := true
|}.

Lemma trng_demo_lively : lively 1 (fun _ => True).
Proof.
  split; [auto | auto | |]; intros d _; left.
  - cbn. destruct (snd d <? 3); reflexivity.
  - reflexivity.
Qed.

Definition trng_start : tstate (P := trng_platform) := mkTstate (P := trng_platform) (mkTrng 0 (fill 0 32) 0) (zero_client, 0).

Lemma trng_fails_closed_witness :
  exists s', lms_rnd 1 1 12 trng_start = (Ok [4; 3; 2; 1; 12; 9; 6; 3; 0; 0; 0; 0], s') /\
    faulty s' /\ exists k, 0 <= k <= 12 /\ from k [4; 3; 2; 1; 12; 9; 6; 3; 0; 0; 0; 0] = fill 0 (12 - k).
Proof.
  destruct (trng_fails_closed 1 1 (fun _ => True) 12 trng_start
    trng_demo_lively I ltac:(discriminate)) as (out & s' & E & _ & _ & _ & Hk).
  vm_compute in E. injection E as <- <-. eexists. split; [reflexivity |]. split; [discriminate |].
  destruct (Hk ltac:(intros H; apply H; reflexivity) ltac:(discriminate)) as (k & s1 & H1 & H2 & _). exists k. auto.
Defined.
