(* ===== verification/FwPool.v ===== *)
(** The static pool of the firmware's tree cache (fw/lms_soc_smoke.c, [tree_pool_alloc] and
    its companions; [sw_pool_*] of the software build is the same text over statics of its
    own): blocks in use never overlap, whatever the order of calls; what a free reclaims. *)

From S2P Require Import Prelude Types Params Subtree.

(** [s_tree_arena_used], [s_tree_pool_last_ptr], [s_tree_pool_last_size] *)
Record pool_t := mkPool { arena_used : Z; last_ptr : ptr; last_size : Z }.

Section Pool.
Context `{P : Platform}.
(** The address of [s_tree_arena]. *)
Variable arena : ptr.

Definition sizeof_tree_arena : Z := 3 * sizeof_lms_sublevel + 16384.

Definition pool_alloc (size : Z) (st : pool_t) : ptr * pool_t :=
  let aligned := u32 (to_size (size + 3) .& Z.lnot 3) in
  if sizeof_tree_arena <? u32 (arena_used st + aligned) then (NULL, st)
  else
    let p := arena + arena_used st in
    (p, mkPool (u32 (arena_used st + aligned)) p aligned).

Definition pool_free (p : ptr) (st : pool_t) : pool_t :=
  if negb (p =? NULL) && (p =? last_ptr st)
  then mkPool (u32 (arena_used st - last_size st)) NULL 0
  else st.

Definition pool_reset : pool_t := mkPool 0 NULL 0.

(** * Blocks in use *)

Inductive pool_op := PAlloc (size : Z) | PFree (p : ptr) | PReset.

(** A block by address and size.  A block is in use until its address is freed or the pool is
    reset. *)
Definition pool_step (op : pool_op) '((st, live) : pool_t * list (ptr * Z)) : pool_t * list (ptr * Z) :=
  match op with
  | PAlloc size =>
      let '(p, st) := pool_alloc size st in (st, if p =? NULL then live else (p, size) :: live)
  | PFree p => (pool_free p st, filter (fun b => b.1 <> p) live)
  | PReset => (pool_reset, [])
  end.

Definition pool_run (ops : list pool_op) : pool_t * list (ptr * Z) := fold_left (fun s op => pool_step op s) ops (pool_reset, []).

(** The requests the pool serves correctly: at least one byte, and no more than its 32-bit
    counter can add up ([pool_sizes_unchecked]: it grants the others all the same). *)
Definition op_ok (op : pool_op) : Prop :=
  match op with PAlloc size => 0 < size /\ size + 3 + sizeof_tree_arena < 2 ^ 32 | _ => True end.

Definition disjoint (a b : ptr * Z) : Prop := a.1 + a.2 <= b.1 \/ b.1 + b.2 <= a.1.

Definition inside (top : Z) (b : ptr * Z) : Prop :=
  arena <= b.1 /\ 0 < b.2 /\ b.1 + b.2 <= arena + top /\ (b.1 - arena) mod 4 = 0.

Hypothesis Harena : 0 < arena.
Hypothesis Hsize : 0 <= sizeof_lms_sublevel.
Hypothesis Hfits : sizeof_tree_arena < 2 ^ 32.

(** Newest first, each block below the ones allocated later; only the newest may be the one
    a free reclaims. *)
Record pool_inv (st : pool_t) (live : list (ptr * Z)) : Prop := {
  inv_used : 0 <= arena_used st <= sizeof_tree_arena;
  inv_aligned : arena_used st mod 4 = 0;
  inv_inside : Forall (inside (arena_used st)) live;
  inv_disjoint : forall i j a b, live !! i = Some a -> live !! j = Some b -> i <> j -> disjoint a b;
  inv_last : last_ptr st <> NULL ->
    0 < last_size st /\ last_size st mod 4 = 0 /\ arena <= last_ptr st /\ last_ptr st + last_size st = arena + arena_used st /\
    Forall (fun b => b.1 <> last_ptr st -> b.1 + b.2 <= last_ptr st) live
}.

Lemma align_value size : 0 <= size -> size + 3 < 2 ^ 32 ->
  u32 (to_size (size + 3) .& Z.lnot 3) = (size + 3) / 4 * 4.
Proof.
  intros H1 H2. pose proof SIZE_MAX_ge as Hm. unfold UINT_MAX in Hm. change (2 ^ 32) with 4294967296 in H2.
  unfold to_size. rewrite Z.mod_small by lia.
  assert (E : (size + 3) .& Z.lnot 3 = (size + 3) / 4 * 4).
  { rewrite <- Z.ldiff_land. change 3 with (Z.ones 2) at 2. rewrite Z.ldiff_ones_r by lia.
    rewrite Z.shiftl_mul_pow2, Z.shiftr_div_pow2 by lia. reflexivity. }
  rewrite E, u32_small by (change (2 ^ 32) with 4294967296; Z.to_euclidean_division_equations; lia). reflexivity.
Qed.

Lemma align_up size : 0 < size -> size + 3 + sizeof_tree_arena < 2 ^ 32 ->
  let a := u32 (to_size (size + 3) .& Z.lnot 3) in size <= a < size + 4 /\ a mod 4 = 0.
Proof.
  intros H1 H2. assert (Hs : 0 <= sizeof_tree_arena) by (unfold sizeof_tree_arena; lia).
  cbv zeta. rewrite align_value by lia. split; [Z.to_euclidean_division_equations; lia |]. apply Z.mod_mul. lia.
Qed.

Lemma filter_lookup_inj (Pd : ptr * Z -> Prop) `{!forall b, Decision (Pd b)} (l : list (ptr * Z)) :
  (forall i j a b, l !! i = Some a -> l !! j = Some b -> i <> j -> disjoint a b) ->
  forall i j a b, filter Pd l !! i = Some a -> filter Pd l !! j = Some b -> i <> j -> disjoint a b.
Proof.
  induction l as [| x l IH]; intros Hl i j a b Ha Hb Hne; [discriminate |].
  assert (Hl' : forall i j a b, l !! i = Some a -> l !! j = Some b -> i <> j -> disjoint a b)
    by (intros i' j' a' b' H1 H2 H3; apply (Hl (S i') (S j')); auto).
  assert (Hx : forall c, c ∈ filter Pd l -> disjoint x c /\ disjoint c x).
  { intros c Hc. apply list_elem_of_filter in Hc as [_ Hc]. apply list_elem_of_lookup in Hc as [k Hk].
    split; [apply (Hl 0%nat (S k)) | apply (Hl (S k) 0%nat)]; auto. }
  rewrite filter_cons in Ha, Hb. destruct (decide (Pd x)); [| apply (IH Hl' i j); assumption].
  destruct i as [| i], j as [| j]; cbn in Ha, Hb.
  - contradiction.
  - injection Ha as <-. apply Hx. eapply list_elem_of_lookup_2, Hb.
  - injection Hb as <-. apply Hx. eapply list_elem_of_lookup_2, Ha.
  - apply (IH Hl' i j); auto.
Qed.

Lemma pool_alloc_inv size st live : op_ok (PAlloc size) -> pool_inv st live ->
  let '(p, st') := pool_alloc size st in
  pool_inv st' (if p =? NULL then live else (p, size) :: live) /\
  (p = NULL -> sizeof_tree_arena < arena_used st + size + 3).
Proof.
  intros [H1 H2] [I1 I2 I3 I4 I5]. unfold pool_alloc. pose proof (align_up size H1 H2) as Ha. cbv zeta in Ha.
  set (aligned := u32 _) in *. destruct Ha as [Ha1 Ha2]. rewrite u32_small by (change (2 ^ 32) with 4294967296 in *; lia).
  destruct (Z.ltb_spec sizeof_tree_arena (arena_used st + aligned)) as [Hfull | Hfit].
  { change (NULL =? NULL) with true. cbv iota. split; [split; assumption | lia]. }
  destruct (Z.eqb_spec (arena + arena_used st) NULL) as [E | _]; [unfold NULL in E; lia |].
  split; [| unfold NULL; lia]. split; cbn [arena_used last_ptr last_size].
  - lia.
  - rewrite Z.add_mod, I2, Ha2 by lia. reflexivity.
  - apply Forall_cons. split.
    + split; cbn; [lia |]. split; [exact H1 |]. split; [lia |]. rewrite Z.add_simpl_l. exact I2.
    + eapply Forall_impl; [exact I3 |]. intros b (B1 & B2 & B3 & B4). repeat split; try assumption; lia.
  - assert (Hnew : forall b, b ∈ live -> disjoint (arena + arena_used st, size) b /\ disjoint b (arena + arena_used st, size)).
    { intros b Hb. pose proof (proj1 (Forall_forall _ _) I3 b Hb) as (_ & _ & B3 & _). unfold disjoint. cbn. split; lia. }
    intros i j a b Hi Hj Hne. destruct i as [| i], j as [| j]; cbn in Hi, Hj.
    + contradiction.
    + injection Hi as <-. apply Hnew. eapply list_elem_of_lookup_2, Hj.
    + injection Hj as <-. apply Hnew. eapply list_elem_of_lookup_2, Hi.
    + apply (I4 i j); auto.
  - intros _. split; [lia |]. split; [exact Ha2 |]. split; [lia |]. split; [lia |]. apply Forall_cons. split; [cbn; congruence |].
    eapply Forall_impl; [exact I3 |]. intros b (_ & _ & B3 & _) _. lia.
Qed.

Lemma pool_free_inv p st live : pool_inv st live -> pool_inv (pool_free p st) (filter (fun b => b.1 <> p) live).
Proof.
  intros [I1 I2 I3 I4 I5]. unfold pool_free.
  assert (Hsub : forall Q : ptr * Z -> Prop, Forall Q live -> Forall Q (filter (fun b => b.1 <> p) live)).
  { intros Q HQ. apply Forall_forall. intros b Hb. apply list_elem_of_filter in Hb as [_ Hb].
    exact (proj1 (Forall_forall _ _) HQ b Hb). }
  assert (Hkeep : pool_inv st (filter (fun b => b.1 <> p) live)).
  { split; [exact I1 | exact I2 | apply Hsub, I3 | apply filter_lookup_inj, I4 |].
    intros H. destruct (I5 H) as (J1 & J2 & J3 & J4 & J5). auto 6. }
  destruct (Z.eqb_spec p NULL) as [-> | Hp]; cbn [negb andb].
  { exact Hkeep. }
  destruct (Z.eqb_spec p (last_ptr st)) as [-> | Hne].
  - destruct (I5 Hp) as (J1 & J2 & J3 & J4 & J5). rewrite u32_small by lia.
    split; cbn.
    + lia.
    + rewrite Zminus_mod, I2, J2. reflexivity.
    + apply Forall_forall. intros b Hb. apply list_elem_of_filter in Hb as [Hb1 Hb2].
      pose proof (proj1 (Forall_forall _ _) J5 b Hb2 Hb1). pose proof (proj1 (Forall_forall _ _) I3 b Hb2) as (B1 & B2 & B3 & B4).
      repeat split; try assumption. lia.
    + apply filter_lookup_inj. exact I4.
    + intros H. destruct (H eq_refl).
  - exact Hkeep.
Qed.

Lemma pool_step_inv op st live : op_ok op -> pool_inv st live ->
  pool_inv (fst (pool_step op (st, live))) (snd (pool_step op (st, live))).
Proof.
  intros Hop Hi. destruct op as [size | p |]; cbn [pool_step].
  - pose proof (pool_alloc_inv size st live Hop Hi) as H. destruct (pool_alloc size st) as [p st']. exact (proj1 H).
  - apply pool_free_inv, Hi.
  - split; cbn; [unfold sizeof_tree_arena; lia | reflexivity | apply Forall_nil_2 | discriminate | contradiction].
Qed.

Lemma pool_run_inv ops : Forall op_ok ops -> pool_inv (fst (pool_run ops)) (snd (pool_run ops)).
Proof.
  unfold pool_run. assert (H0 : pool_inv (fst (pool_reset, @nil (ptr * Z))) (snd (pool_reset, @nil (ptr * Z)))).
  { split; cbn; [unfold sizeof_tree_arena; lia | reflexivity | apply Forall_nil_2 | discriminate | contradiction]. }
  revert H0. generalize (pool_reset, @nil (ptr * Z)). induction ops as [| op ops IH]; intros [st live] H0 Hops; [exact H0 |].
  apply Forall_cons in Hops as [Hop Hops]. cbn [fold_left]. apply IH; [| exact Hops]. apply pool_step_inv; assumption.
Qed.
End Pool.

(** C25: the firmware's pool never hands out memory that is in use, as long as every request
    is for at least one byte and for at most 2^32 - 4 bytes less the size of the arena
    ([op_ok]): after any sequence of such allocations, of frees (of any pointers, in any
    order, repeated or not) and of resets, the blocks in use lie in the arena, on words,
    and no two of them overlap; and such a request is refused only when the arena has no
    room for it.  The pool itself checks neither bound ([pool_sizes_unchecked]). *)
Theorem pool_blocks_disjoint `{P : Platform} (arena : ptr) (ops : list pool_op) :
  0 < arena -> 0 <= sizeof_lms_sublevel -> sizeof_tree_arena < 2 ^ 32 -> Forall op_ok ops ->
  let '(st, live) := pool_run arena ops in
  Forall (fun b => arena <= b.1 /\ b.1 + b.2 <= arena + sizeof_tree_arena /\ (b.1 - arena) mod 4 = 0) live /\
  (forall i j a b, live !! i = Some a -> live !! j = Some b -> i <> j -> disjoint a b) /\
  (forall size, op_ok (PAlloc size) -> fst (pool_alloc arena size st) = NULL ->
     sizeof_tree_arena < arena_used st + size + 3).
Proof.
  intros Ha Hs Hf Hops. pose proof (pool_run_inv arena Ha Hs Hf ops Hops) as Hi. destruct (pool_run arena ops) as [st live].
  cbn [fst snd] in Hi. split; [| split].
  - eapply Forall_impl; [exact (inv_inside _ _ _ Hi) |]. intros b (B1 & B2 & B3 & B4). pose proof (inv_used _ _ _ Hi) as Hu.
    split; [exact B1 |]. split; [exact (Z.le_trans _ _ _ B3 (proj1 (Z.add_le_mono_l _ _ arena) (proj2 Hu))) | exact B4].
  - exact (inv_disjoint _ _ _ Hi).
  - intros size Hop Hn. pose proof (pool_alloc_inv arena Ha Hs size st live Hop Hi) as H.
    destruct (pool_alloc arena size st) as [p st']. exact (proj2 H Hn).
Qed.

(** At address 4096: the second block reuses the first, freed, one; the foreign pointer and the
    second free of the same block change nothing. *)
Lemma pool_blocks_disjoint_witness :
  let ops := [PAlloc 100; PFree 4096; PAlloc 30; PAlloc 7; PFree 5; PAlloc 2; PFree 4136; PFree 4136] in
  snd (pool_run (P := test_platform) 4096 ops) = [(4128, 7); (4096, 30)] /\
  Forall (fun b => 4096 <= b.1 /\ b.1 + b.2 <= 4096 + 16696 /\ (b.1 - 4096) mod 4 = 0) [(4128, 7); (4096, 30)].
Proof.
  split; [reflexivity |].
  pose proof (pool_blocks_disjoint (P := test_platform) 4096
    [PAlloc 100; PFree 4096; PAlloc 30; PAlloc 7; PFree 5; PAlloc 2; PFree 4136; PFree 4136] ltac:(reflexivity)
    ltac:(discriminate) ltac:(reflexivity) ltac:(repeat constructor)) as H.
  exact (proj1 H).
Defined.

(** * The requests it should refuse *)

Lemma alloc_fits `{P : Platform} arena size st : 0 <= size -> size + 3 < 2 ^ 32 ->
  0 <= arena_used st -> arena_used st + (size + 3) / 4 * 4 <= sizeof_tree_arena -> sizeof_tree_arena < 2 ^ 32 ->
  pool_alloc arena size st =
    (arena + arena_used st, mkPool (arena_used st + (size + 3) / 4 * 4) (arena + arena_used st) ((size + 3) / 4 * 4)).
Proof.
  intros H0 H1 H2 H3 H4. unfold pool_alloc. rewrite align_value, u32_small by (assumption || Z.to_euclidean_division_equations; lia).
  destruct (Z.ltb_spec sizeof_tree_arena (arena_used st + (size + 3) / 4 * 4)); [lia | reflexivity].
Qed.

(** C26: the two bounds on requests are needed, since the pool checks neither.  With [u] bytes in
    use, a request for [2^32 - u] wraps the test: it is granted, the cursor goes back to the
    start of the arena, and the next request gets the first block again, whatever lives
    there.  And a request for no bytes gets the address of the next block: freeing the one
    reclaims the other, whose address the following request gets a third time. *)
Theorem pool_sizes_unchecked `{P : Platform} (arena : ptr) (st : pool_t) (size : Z) :
  0 < arena -> sizeof_tree_arena < 2 ^ 32 -> 0 < arena_used st -> arena_used st mod 4 = 0 ->
  0 < size -> arena_used st + size + 3 <= sizeof_tree_arena ->
  (let '(p, st1) := pool_alloc arena (2 ^ 32 - arena_used st) st in
   p = arena + arena_used st /\ arena_used st1 = 0 /\ fst (pool_alloc arena size st1) = arena) /\
  (let '(p, st1) := pool_alloc arena 0 st in
   let '(p', st2) := pool_alloc arena size st1 in
   p = arena + arena_used st /\ p' = p /\ arena_used (pool_free p st2) = arena_used st /\
   fst (pool_alloc arena size (pool_free p st2)) = p').
Proof.
  intros Ha Hf H0 H4 Hs Hr. split.
  - unfold pool_alloc at 1. rewrite align_value by (change (2 ^ 32) with 4294967296 in *; Z.to_euclidean_division_equations; lia).
    assert (E : u32 (arena_used st + (2 ^ 32 - arena_used st + 3) / 4 * 4) = 0).
    { replace (arena_used st + (2 ^ 32 - arena_used st + 3) / 4 * 4) with (2 ^ 32); [reflexivity |].
      change (2 ^ 32) with 4294967296. Z.to_euclidean_division_equations; lia. }
    rewrite E, (proj2 (Z.ltb_ge _ _)) by lia. split; [reflexivity |]. split; [reflexivity |].
    rewrite alloc_fits by (cbn [arena_used]; Z.to_euclidean_division_equations; lia). cbn. lia.
  - assert (Hroom : forall u l z, u = arena_used st -> fst (pool_alloc arena size (mkPool u l z)) = arena + u).
    { intros u l z ->. rewrite alloc_fits by (cbn [arena_used]; Z.to_euclidean_division_equations; lia). reflexivity. }
    rewrite (alloc_fits arena 0) by (Z.to_euclidean_division_equations; lia).
    change ((0 + 3) / 4 * 4) with 0. rewrite Z.add_0_r.
    rewrite alloc_fits by (cbn [arena_used]; Z.to_euclidean_division_equations; lia). cbn [arena_used].
    unfold pool_free. cbn [last_ptr last_size arena_used]. rewrite Z.eqb_refl.
    destruct (Z.eqb_spec (arena + arena_used st) NULL) as [E | _]; [unfold NULL in E; lia |]. cbn [negb andb arena_used].
    rewrite Z.add_simpl_r, u32_small by lia. repeat (split; [reflexivity |]). apply Hroom. reflexivity.
Qed.

(** 100 bytes in use at address 4096. *)
Lemma pool_sizes_unchecked_witness :
  let st := mkPool 100 4096 100 in
  fst (pool_alloc (P := test_platform) 4096 (2 ^ 32 - 100) st) = 4196 /\
  fst (pool_alloc (P := test_platform) 4096 8 (snd (pool_alloc (P := test_platform) 4096 (2 ^ 32 - 100) st))) = 4096.
Proof.
  pose proof (proj1 (pool_sizes_unchecked (P := test_platform) 4096 (mkPool 100 4096 100) 8 ltac:(lia) ltac:(reflexivity)
    ltac:(cbn; lia) ltac:(reflexivity) ltac:(lia) ltac:(discriminate))) as H.
  split; [exact (proj1 H) | exact (proj2 (proj2 H))].
Defined.

(** * What a free reclaims

    Blocks [a] and then [b]: freed in the reverse order, as nested users do, only [b] is
    reclaimed, since the pool remembers one last block and has forgotten [a] by then. *)
Lemma nested_free_keeps_outer `{P : Platform} arena sa sb :
  0 < arena -> 0 <= sizeof_lms_sublevel -> op_ok (PAlloc sa) -> op_ok (PAlloc sb) -> sizeof_tree_arena < 2 ^ 32 ->
  fst (pool_alloc arena sa pool_reset) <> NULL ->
  let '(a, st) := pool_alloc arena sa pool_reset in
  let '(b, st') := pool_alloc arena sb st in
  b <> NULL -> pool_free a (pool_free b st') = st {{ last_ptr := NULL; last_size := 0 }} /\ arena_used st >= sa.
Proof.
  intros Ha Hs [A1 A2] [B1 B2] Hf. pose proof (align_up Hs sa A1 A2) as HA. pose proof (align_up Hs sb B1 B2) as HB.
  unfold pool_alloc, pool_reset. cbn [arena_used last_ptr last_size]. cbv zeta in *.
  set (al := u32 (to_size (sa + 3) .& Z.lnot 3)) in *. set (bl := u32 (to_size (sb + 3) .& Z.lnot 3)) in *.
  change (2 ^ 32) with 4294967296 in *. assert (H0 : 0 <= sizeof_tree_arena) by (unfold sizeof_tree_arena; lia).
  rewrite Z.add_0_l, Z.add_0_r. rewrite (u32_small al) by (change (2 ^ 32) with 4294967296; lia).
  destruct (Z.ltb_spec sizeof_tree_arena al) as [| Hal]; [intros Hn; destruct (Hn eq_refl) |]. intros _. cbn [arena_used].
  rewrite (u32_small (al + bl)) by (change (2 ^ 32) with 4294967296; lia).
  destruct (Z.ltb_spec sizeof_tree_arena (al + bl)) as [| Hbl]; [intros Hn; destruct (Hn eq_refl) |]. intros _.
  unfold pool_free at 2. cbn [last_ptr last_size arena_used]. rewrite Z.eqb_refl.
  destruct (Z.eqb_spec (arena + al) NULL) as [E | _]; [unfold NULL in E; lia |]. cbn [negb andb].
  rewrite u32_small by (change (2 ^ 32) with 4294967296; lia). unfold pool_free. cbn [last_ptr].
  destruct (Z.eqb_spec arena NULL) as [E | _]; [unfold NULL in E; lia |]. cbn [negb andb]. split; [| lia].
  cbn. f_equal. lia.
Qed.
