(* ===== verification/FwCrc.v ===== *)
(** The check sums of fw/lms_soc_smoke.c, and what CRC-16 detects: data that differ within two
    adjacent bytes have different check sums.

    A turn of the inner loop is linear over exclusive or and loses nothing, so equal ends go
    back to equal states; the low byte of eight turns shows the byte that was put in. *)

From S2P Require Import Prelude.

Definition crc8_update (crc byte : Z) : Z :=
  for_z 8 0 (fun _ crc =>
    if negb ((crc .& 0x80) =? 0) then u8 ((crc .<< 1) ^^ 0x07) else u8 (crc .<< 1)) (crc ^^ byte).

Definition crc8_block (data : bytes) (length : Z) : Z :=
  for_z (Z.to_nat length) 0 (fun index crc => crc8_update crc (rd data index)) 0.

(** One turn of the loop over the data. *)
Definition crc16_step (crc byte : Z) : Z :=
  for_z 8 0 (fun _ crc =>
    if negb ((crc .& 0x8000) =? 0) then u16 ((crc .<< 1) ^^ 0x1021) else u16 (crc .<< 1)) (crc ^^ u16 (byte .<< 8)).

Definition crc16_ccitt (data : bytes) (length : Z) : Z :=
  for_z (Z.to_nat length) 0 (fun index crc => crc16_step crc (rd data index)) 0xffff.

(** * One turn *)

Definition crc16_bit (crc : Z) : Z :=
  if negb ((crc .& 0x8000) =? 0) then u16 ((crc .<< 1) ^^ 0x1021) else u16 (crc .<< 1).

Definition crc16_byte (x : Z) : Z := for_z 8 0 (fun _ crc => crc16_bit crc) x.

Lemma crc16_bit_range c : 0 <= crc16_bit c < 65536.
Proof. unfold crc16_bit. destruct (negb _); rewrite u16_mod; apply Z.mod_pos_bound; lia. Qed.

Lemma top_bit c : ((c .& 0x8000) =? 0) = negb (Z.testbit c 15).
Proof.
  change 0x8000 with (2 ^ 15). rewrite Z.land_comm. destruct (Z.testbit c 15) eqn:E; cbn [negb].
  - apply Z.eqb_neq. intros H. apply (f_equal (fun z => Z.testbit z 15)) in H.
    rewrite Z.land_spec, E, Z.bits_0 in H. discriminate.
  - apply Z.eqb_eq, Z.bits_inj'. intros i Hi. rewrite Z.land_spec, Z.bits_0, Z.pow2_bits_eqb by lia.
    destruct (Z.eqb_spec 15 i) as [<- |]; [rewrite E |]; reflexivity.
Qed.

Lemma testbit_u16 x i : Z.testbit (u16 x) i = Z.testbit x i && Z.testbit 0xffff i.
Proof. apply Z.land_spec. Qed.

(** The bits of a turn. *)
Lemma crc16_bit_spec c i : 0 <= i ->
  Z.testbit (crc16_bit c) i
  = xorb (Z.testbit c (i - 1)) (Z.testbit c 15 && Z.testbit 0x1021 i) && Z.testbit 0xffff i.
Proof.
  intros Hi. unfold crc16_bit. rewrite top_bit, negb_involutive.
  destruct (Z.testbit c 15); rewrite testbit_u16, ?Z.lxor_spec, Z.shiftl_spec by exact Hi.
  - reflexivity.
  - rewrite xorb_false_r. reflexivity.
Qed.

Lemma crc16_bit_lxor a b : crc16_bit (a ^^ b) = crc16_bit a ^^ crc16_bit b.
Proof.
  apply Z.bits_inj'. intros i Hi. rewrite Z.lxor_spec, !crc16_bit_spec by exact Hi. rewrite !Z.lxor_spec.
  destruct (Z.testbit a (i - 1)), (Z.testbit b (i - 1)), (Z.testbit a 15), (Z.testbit b 15),
    (Z.testbit 0x1021 i), (Z.testbit 0xffff i); reflexivity.
Qed.

Lemma crc16_bit_zero c : 0 <= c < 65536 -> crc16_bit c = 0 -> c = 0.
Proof.
  intros Hc H. assert (H15 : Z.testbit c 15 = false).
  { apply (f_equal (fun z => Z.testbit z 0)) in H. rewrite crc16_bit_spec in H by lia.
    rewrite Z.testbit_neg_r, Z.bits_0 in H by lia. destruct (Z.testbit c 15); [discriminate | reflexivity]. }
  unfold crc16_bit in H. rewrite top_bit, H15 in H. cbn [negb] in H.
  rewrite Z.testbit_false in H15 by lia. rewrite u16_mod, Z.shiftl_mul_pow2 in H by lia.
  change (2 ^ 15) with 32768 in H15. change (2 ^ 1) with 2 in H. Z.to_euclidean_division_equations. lia.
Qed.

(** * Eight turns *)

Lemma turns_lxor n : forall i a b,
  for_z n i (fun _ c => crc16_bit c) (a ^^ b) = for_z n i (fun _ c => crc16_bit c) a ^^ for_z n i (fun _ c => crc16_bit c) b.
Proof. induction n as [| n IH]; intros i a b; [reflexivity |]. cbn [for_z]. rewrite crc16_bit_lxor. apply IH. Qed.

Lemma turns_zero n : forall i c, 0 <= c < 65536 -> for_z n i (fun _ c => crc16_bit c) c = 0 -> c = 0.
Proof.
  induction n as [| n IH]; intros i c Hc H; [exact H |]. cbn [for_z] in H. apply IH in H; [| apply crc16_bit_range].
  apply crc16_bit_zero; assumption.
Qed.

Lemma crc_lxor_range a b : 0 <= a < 65536 -> 0 <= b < 65536 -> 0 <= a ^^ b < 65536.
Proof. exact (lxor_range 16 a b ltac:(lia)). Qed.

Lemma crc16_byte_range x : 0 <= crc16_byte x < 65536.
Proof. apply crc16_bit_range. Qed.

Lemma crc16_byte_inj x y : 0 <= x < 65536 -> 0 <= y < 65536 -> crc16_byte x = crc16_byte y -> x = y.
Proof.
  intros Hx Hy H. apply Z.lxor_eq, (turns_zero 8 0); [apply crc_lxor_range; assumption |].
  unfold crc16_byte in H. rewrite turns_lxor, H. apply Z.lxor_nilpotent.
Qed.

(** The low byte of the turns comes from the high byte alone, and tells it. *)
Definition low_image (h : Z) : Z := crc16_byte (h .<< 8) .& 0xff.

Lemma land_lxor a b c : (a ^^ b) .& c = (a .& c) ^^ (b .& c).
Proof.
  apply Z.bits_inj'. intros i Hi. rewrite Z.lxor_spec, !Z.land_spec, Z.lxor_spec.
  destruct (Z.testbit a i), (Z.testbit b i), (Z.testbit c i); reflexivity.
Qed.

Lemma low_part x : is_byte x -> crc16_byte x .& 0xff = 0.
Proof.
  intros Hx. apply Z.eqb_eq, (forallb_seqZ (fun x => (crc16_byte x .& 0xff) =? 0) 256); [| exact Hx].
  vm_compute. reflexivity.
Qed.

Lemma two_parts x : 0 <= x -> x = ((x .>> 8) .<< 8) ^^ (x .& 0xff).
Proof.
  intros Hx. apply Z.bits_inj'. intros i Hi. rewrite Z.lxor_spec, Z.land_spec, Z.shiftl_spec by exact Hi.
  change 0xff with (Z.ones 8). destruct (Z.ltb_spec i 8) as [H | H].
  - rewrite (Z.testbit_neg_r _ (i - 8)), Z.ones_spec_low by lia. destruct (Z.testbit x i); reflexivity.
  - rewrite Z.shiftr_spec, Z.ones_spec_high by lia. replace (i - 8 + 8) with i by lia. destruct (Z.testbit x i); reflexivity.
Qed.

Lemma crc16_byte_low x : 0 <= x -> crc16_byte x .& 0xff = low_image (x .>> 8).
Proof.
  intros Hx. rewrite (two_parts x) at 1 by exact Hx. unfold crc16_byte at 1. rewrite turns_lxor. fold (crc16_byte (x .& 0xff)).
  rewrite land_lxor, (low_part (x .& 0xff)) by apply u8_byte. rewrite Z.lxor_0_r. reflexivity.
Qed.

Lemma low_image_inj h k : is_byte h -> is_byte k -> low_image h = low_image k -> h = k.
Proof.
  intros Hh Hk H. apply Z.eqb_eq.
  pose proof (forallb_seqZ (fun h => forallb (fun k => implb (low_image h =? low_image k) (h =? k)) (seqZ 0 256)) 256 h
    ltac:(vm_compute; reflexivity) Hh) as Hr.
  pose proof (forallb_seqZ _ _ k Hr Hk) as Hi. cbn beta in Hi. rewrite H, Z.eqb_refl in Hi. exact Hi.
Qed.

(** * Data *)

Lemma crc16_step_eq crc b : crc16_step crc b = crc16_byte (crc ^^ u16 (b .<< 8)).
Proof. reflexivity. Qed.

Lemma shifted_range b : 0 <= u16 (b .<< 8) < 65536.
Proof. rewrite u16_mod. apply Z.mod_pos_bound. lia. Qed.

Lemma crc16_step_range crc b : 0 <= crc16_step crc b < 65536.
Proof. rewrite crc16_step_eq. apply crc16_byte_range. Qed.

Lemma crc16_step_inj b c d : 0 <= c < 65536 -> 0 <= d < 65536 -> crc16_step c b = crc16_step d b -> c = d.
Proof.
  intros Hc Hd H. rewrite !crc16_step_eq in H.
  apply crc16_byte_inj in H; [| apply crc_lxor_range; [assumption | apply shifted_range]..].
  apply (f_equal (fun z => z ^^ u16 (b .<< 8))) in H. rewrite !Z.lxor_assoc, Z.lxor_nilpotent, !Z.lxor_0_r in H. exact H.
Qed.

Lemma high_byte c b : 0 <= c < 65536 -> is_byte b -> (c ^^ u16 (b .<< 8)) .>> 8 = (c .>> 8) ^^ b.
Proof.
  intros Hc Hb. rewrite Z.shiftr_lxor. f_equal. unfold is_byte in Hb.
  rewrite u16_mod, Z.shiftl_mul_pow2, Z.shiftr_div_pow2 by lia. change (2 ^ 8) with 256.
  rewrite Z.mod_small by lia. apply Z.div_mul. lia.
Qed.

Lemma crc16_step_pair c a b a' b' :
  0 <= c < 65536 -> is_byte a -> is_byte b -> is_byte a' -> is_byte b' ->
  crc16_step (crc16_step c a) b = crc16_step (crc16_step c a') b' -> a = a' /\ b = b'.
Proof.
  intros Hc Ha Hb Ha' Hb' H. rewrite (crc16_step_eq _ b), (crc16_step_eq _ b') in H.
  pose proof (crc16_step_range c a) as R. pose proof (crc16_step_range c a') as R'.
  apply crc16_byte_inj in H; [| apply crc_lxor_range; [assumption | apply shifted_range]..].
  assert (Hlow : forall z, is_byte z -> u16 (z .<< 8) .& 0xff = 0).
  { intros z Hz. change (u8 (u16 (z .<< 8)) = 0). unfold is_byte in Hz. rewrite u8_mod, u16_mod, Z.shiftl_mul_pow2 by lia.
    change (2 ^ 8) with 256. rewrite (Z.mod_small (z * 256)) by lia. apply Z.mod_mul. lia. }
  assert (Hl : crc16_step c a .& 0xff = crc16_step c a' .& 0xff).
  { apply (f_equal (fun z => z .& 0xff)) in H. rewrite !land_lxor, (Hlow b Hb), (Hlow b' Hb'), !Z.lxor_0_r in H. exact H. }
  rewrite !crc16_step_eq, !crc16_byte_low in Hl by (apply crc_lxor_range; [assumption | apply shifted_range]).
  rewrite !high_byte in Hl by assumption.
  assert (Hx : forall z, is_byte z -> is_byte ((c .>> 8) ^^ z)).
  { intros z Hz. rewrite <- (high_byte c z) by assumption. pose proof (crc_lxor_range c _ Hc (shifted_range z)).
    rewrite Z.shiftr_div_pow2 by lia. change (2 ^ 8) with 256. unfold is_byte. Z.to_euclidean_division_equations. lia. }
  apply low_image_inj in Hl; [| apply Hx; assumption..].
  apply (f_equal (Z.lxor (c .>> 8))) in Hl. rewrite <- !Z.lxor_assoc, Z.lxor_nilpotent, !Z.lxor_0_l in Hl. subst a'.
  split; [reflexivity |]. apply (f_equal (Z.lxor (crc16_step c a))) in H.
  rewrite <- !Z.lxor_assoc, Z.lxor_nilpotent, !Z.lxor_0_l in H.
  unfold is_byte in *. rewrite !u16_mod, !Z.shiftl_mul_pow2 in H by lia. change (2 ^ 8) with 256 in H. rewrite !Z.mod_small in H by lia. lia.
Qed.

Lemma for_z_fold {A} (f : A -> Z -> A) data : forall i pre a, len pre = i ->
  for_z (length data) i (fun index s => f s (rd (pre ++ data) index)) a = fold_left f data a.
Proof.
  induction data as [| x data IH]; intros i pre a Hi; [reflexivity |]. cbn [length for_z fold_left].
  replace (rd (pre ++ x :: data) i) with x.
  2: { unfold rd. rewrite <- Hi, len_to_nat, app_nth2, Nat.sub_diag by lia. reflexivity. }
  specialize (IH (i + 1) (pre ++ [x]) (f a x) ltac:(rewrite len_app, Hi; reflexivity)).
  rewrite <- app_assoc in IH. exact IH.
Qed.

Lemma crc16_ccitt_eq data : crc16_ccitt data (len data) = fold_left crc16_step data 0xffff.
Proof. unfold crc16_ccitt. rewrite len_to_nat. apply (for_z_fold crc16_step data 0 []). reflexivity. Qed.

#[local] Opaque crc16_step.

Lemma crc16_fold_range data : forall c, 0 <= c < 65536 -> 0 <= fold_left crc16_step data c < 65536.
Proof. induction data as [| x data IH]; intros c Hc; [exact Hc |]. apply IH, crc16_step_range. Qed.

Lemma crc16_fold_inj data : forall c d, 0 <= c < 65536 -> 0 <= d < 65536 ->
  fold_left crc16_step data c = fold_left crc16_step data d -> c = d.
Proof.
  induction data as [| x data IH]; intros c d Hc Hd H; [exact H |]. cbn [fold_left] in H.
  apply IH in H; [| apply crc16_step_range..]. apply (crc16_step_inj x); assumption.
Qed.

(** Data that differ in two adjacent bytes. *)
Lemma crc16_detects pre a b a' b' suf :
  is_byte a -> is_byte b -> is_byte a' -> is_byte b' ->
  crc16_ccitt (pre ++ [a; b] ++ suf) (len (pre ++ [a; b] ++ suf))
  = crc16_ccitt (pre ++ [a'; b'] ++ suf) (len (pre ++ [a'; b'] ++ suf)) -> a = a' /\ b = b'.
Proof.
  intros Ha Hb Ha' Hb' H. rewrite !crc16_ccitt_eq, !fold_left_app in H.
  pose proof (crc16_fold_range pre 0xffff ltac:(lia)) as Hc. set (c := fold_left crc16_step pre 0xffff) in *.
  apply crc16_fold_inj in H; [| apply crc16_step_range..].
  apply (crc16_step_pair c); assumption.
Qed.
