(* ===== verification/FwStatics.v ===== *)
(** The ground of fw/lms_soc_smoke.c: its statics, the build it is compiled for, and the
    monad [F] its functions run in.

    The callbacks the firmware registers with the library get nothing but the device, so the
    statics lie behind the device as a memory of their own ([FwMem]).  A tree context holds
    no function pointer here: the firmware only ever stores one allocator, one leaf source
    and no other source of one-time keys, and [tree_ctx] puts them back.  The contents of the
    contexts are in the arena, which the two contexts share. *)

From S2P Require Import Prelude Types HashApi Params LmOts Subtree FwPool Mmio SecState.

(** * The statics *)

(** [lms_tree_ctx_t] without its function pointers and the memory behind [levels]. *)
Record tree_head := mkTreeHead {
  th_lms_type : Z;
  th_height : Z;
  th_n : Z;
  th_subtree_size : Z;
  th_sublevels : Z;
  th_top_subtree_size : Z;
  th_hash_alg : lms_hash_alg_t;
  th_I : bytes;
  th_levels : ptr;
  th_leaf_fn : bool;           (* set to [hw_keygen_leaf] *)
  th_alloc : bool              (* the allocator's functions are set *)
}.

Record fw_t := mkFw {
  hardware_hits : Z;
  s_msg_in_ram : Z;
  s_uart_msg : bytes;                    (* [VERIFY_MESSAGE_MAX] *)
  s_uart_sig : bytes;                    (* [LMS_MAX_SIGNATURE_LEN] *)
  s_uart_auth_tail : bytes;              (* [4 + LMS_MAX_HEIGHT * LMS_N] *)
  sign_y_in_taskram : Z;
  lmots_out_sig_len : Z;
  sign_y_len : Z;
  s_seed_slot_valid : Z;
  s_seed_slot : bytes;                   (* [LMS_SEED_LEN] *)
  s_c_slot : bytes;                      (* [LMS_N] *)
  s_c_slot_valid : Z;
  nvm_state : bytes;                     (* [NVM_STATE_LEN] *)
  nvm_crc : list Z;                      (* [2] *)
  nvm_valid : bytes;                     (* [2] *)
  s_hw_lmots_enabled : Z;
  s_tree_pool : pool_t;                  (* s_tree_arena_used, s_tree_pool_last_* *)
  s_tree_levels : list lms_sublevel_t;   (* what the arena holds *)
  s_tree_ctx : tree_head;
  s_tree_key_fingerprint : bytes;        (* [LMS_I_LEN + LMS_SEED_LEN + 8] *)
  s_tree_cache_valid : Z;
  s_sec_tree_ctx : tree_head;
  s_sec_tree_fingerprint : bytes;        (* [LMS_I_LEN + 8] *)
  s_sec_tree_valid : Z;
  sec_domain : sec_t                     (* the statics of lms_sec_state.c *)
}.

Definition VERIFY_MESSAGE_MAX : Z := 2048.
Definition LMS_MAX_OTS_SIG_LEN : Z := 4 + LMS_N + LMS_MAX_OTS_P * LMS_N.
Definition NVM_STATE_LEN : Z := 64.
Definition NVM_CHUNK_LEN : Z := 32.
Definition NVM_CRC_LEN : Z := 2.

(** * The build and its memory *)

Class FwBuild := {
  FW_HASH_ALG : lms_hash_alg_t;
  LMS_FW_NO_HW_ACCEL : bool;
  FW_TEST_MODE : bool;                   (* LMS_FW_SEC_TEST_MODE *)
  FW_RND_TRNG : bool;                    (* LMS_RND_IMPL_TRNG *)
  LMS_FW_NO_TREE_CACHE : bool;
  (** addresses of statics *)
  verify_client : ptr;
  s_tree_arena : ptr;
  c_slot_addr : ptr;
  tree_ctx_addr : ptr;
  sec_tree_ctx_addr : ptr;
  fw_trng_fill_c_addr : ptr;
  verify_client_nonnull : verify_client <> NULL;
  tree_ctx_nonnull : tree_ctx_addr <> NULL;
  sec_tree_ctx_nonnull : sec_tree_ctx_addr <> NULL;
  (** turns a polling loop may take *)
  poll_fuel : nat
}.

(** The statics behind the device; the random source that is linked in. *)
Class FwMem `{P : Platform} := {
  fw_at : dev -> fw_t;
  set_fw : fw_t -> dev -> dev;
  fw_set : forall m d, fw_at (set_fw m d) = m;
  fw_rnd : Z -> dev -> bytes * dev;
  fw_rnd_seed : bytes -> dev -> dev;     (* lms_rnd_det_seed *)
  fw_rnd_fault : dev -> Z
}.

(** * The monad *)

(** A polling loop that ran out of fuel; undefined behaviour of the C code. *)
Inductive fw_stop := FW_POLLING | FW_UNDEFINED.

Section Monad.
Context `{P : Platform} `{Hh : HashApi} `{Mm : !Mmio} `{Fm : !FwMem} `{Bd : FwBuild}.

Definition F (A : Type) : Type := M world fw_stop A.

(** The callbacks run in the library's monad: these serve both. *)
Definition get_fw {E} : M world E fw_t := fun w => (Ok (fw_at (device w)), w).
Definition put_fw {E} (f : fw_t -> fw_t) : M world E unit :=
  modify (fun w => w {{ device := set_fw (f (fw_at (device w))) (device w) }}).

(** [MMIO32(address)], read and written. *)
Definition MMIO32 {E} (address : Z) : M world E Z :=
  fun w => let '(v, d) := load32 address (device w) in (Ok v, w {{ device := d }}).
Definition MMIO32_set {E} (address value : Z) : M world E unit :=
  modify (fun w => w {{ device := store32 address value (device w) }}).

(** A call of the library, of the driver, and the outcome as a value. *)
Definition library {A} (m : C A) : F (result lms_status_t A) :=
  fun w => match m w with
           | (Err UNDEFINED, w') => (Err FW_UNDEFINED, w')
           | (r, w') => (Ok r, w')
           end.
Definition driver {A} (m : DM A) : F (result lms_mmio_status_t A) :=
  fun w => match m w with
           | (Err MMIO_UNDEFINED, w') => (Err FW_UNDEFINED, w')
           | (r, w') => (Ok r, w')
           end.

Definition the_client : F lms_mmio_client_t := get_client verify_client.
Definition set_the_client (f : lms_mmio_client_t -> lms_mmio_client_t) : F unit := update_client verify_client f.

Definition is_ok {E A} (r : result E A) : bool := match r with Ok _ => true | Err _ => false end.

(** [hardware_hits++] and [hardware_hits += n] *)
Definition add_hits (n : Z) : F unit := put_fw (fun m => m {{ hardware_hits := u32 (hardware_hits m + n) }}).
End Monad.
