(* ===== verification/FwSerial.v ===== *)
(** The serial side of fw/lms_soc_smoke.c: the UART, the bridge between UART and task RAM,
    and the commands that drive the accelerator's registers, the random
    generator and the flash controller directly. *)

From S2P Require Import Prelude Types HashApi Params LmOts Mmio RndTrng FwCrc FwStatics.

Definition UART_TX : Z := 0x10000000.
Definition UART_TX_READY : Z := 0x10000004.
Definition UART_RX : Z := 0x10000008.
Definition UART_RX_READY : Z := 0x1000000c.
Definition SOC_CYCLE_COUNT : Z := 0x10000010.
Definition GPIO_OUT : Z := 0x10000018.
Definition LMS_CYCLE_COUNT : Z := LMS_BASE + 0x020.
Definition LMS_ARG_Q : Z := LMS_BASE + 0x024.
Definition LMS_ARG_I : Z := LMS_BASE + 0x028.
Definition LMS_ARG_START : Z := LMS_BASE + 0x02c.
Definition LMS_ARG_STEPS : Z := LMS_BASE + 0x030.
Definition LMS_IDENTIFIER : Z := LMS_BASE + 0x040.

Definition LMS_CMD_CHAIN : Z := 2.
Definition LMS_CMD_DERIVE_CHAIN : Z := 4.
Definition LMS_CMD_DERIVE_RANDOMIZER : Z := 5.
Definition LMS_CMD_D_INTR_CHAIN : Z := 0x18.
Definition LMS_TASK_ADDR : Z := LMS_BASE + 0x038.
Definition LMS_TASK_DATA : Z := LMS_BASE + 0x03c.
Definition LMS_ARG_LEAF_NODE : Z := LMS_BASE + 0x050.

Definition TRNG_VERSION : Z := TRNG_BASE + 0x00.
Definition TRNG_CAP : Z := TRNG_BASE + 0x04.
Definition TRNG_CTRL : Z := TRNG_BASE + 0x08.
Definition TRNG_APT : Z := TRNG_BASE + 0x14.

Definition FLASH_BASE : Z := 0x19000000.
Definition FLASH_CTRL : Z := FLASH_BASE + 0x04.
Definition FLASH_STATUS : Z := FLASH_BASE + 0x08.
Definition FLASH_RESP0 : Z := FLASH_BASE + 0x0c.
Definition FLASH_OP : Z := FLASH_BASE + 0x20.
Definition FLASH_ADDR : Z := FLASH_BASE + 0x24.
Definition FLASH_BYTE : Z := FLASH_BASE + 0x28.

Definition BRIDGE_BASE : Z := 0x18000000.
Definition BRIDGE_CTRL : Z := BRIDGE_BASE + 0x00.
Definition BRIDGE_ADDR : Z := BRIDGE_BASE + 0x04.
Definition BRIDGE_LEN : Z := BRIDGE_BASE + 0x08.
Definition BRIDGE_START : Z := 1.
Definition BRIDGE_CLEAR : Z := 2.
Definition BRIDGE_DIR_RX : Z := 0.
Definition BRIDGE_DIR_TX : Z := 2.
Definition BRIDGE_BUSY : Z := 1.
Definition BRIDGE_ERROR : Z := 4.
Definition BRIDGE_Y_ADDR : Z := 32.

Section Serial.
Context `{P : Platform} `{Hh : HashApi} `{Mm : !Mmio} `{Fm : !FwMem} `{Bd : FwBuild}.

(** * The UART *)

(** [while (MMIO32(address) == 0u) {}] and the like: polls until the value is [good]; [stop] when
    it never is. *)
Fixpoint poll_until {E} (stop : E) (n : nat) (address : Z) (good : Z -> bool) : M world E unit :=
  match n with
  | O => fail stop
  | S n =>
      v ← MMIO32 address;
      if good v then mret tt else poll_until stop n address good
  end.

Definition uart_getc : F Z :=
  poll_until FW_POLLING poll_fuel UART_RX_READY (fun v => negb (v =? 0)) ;;
  v ← MMIO32 UART_RX;
  mret (u8 v).

Definition uart_putc (value : Z) : F unit :=
  poll_until FW_POLLING poll_fuel UART_TX_READY (fun v => negb (v =? 0)) ;;
  MMIO32_set UART_TX value.

Definition uart_put_u32 (value : Z) : F unit :=
  uart_putc (u8 value) ;;
  uart_putc (u8 (value .>> 8)) ;;
  uart_putc (u8 (value .>> 16)) ;;
  uart_putc (u8 (value .>> 24)).

Definition uart_get_u32 : F Z :=
  b0 ← uart_getc;
  b1 ← uart_getc;
  b2 ← uart_getc;
  b3 ← uart_getc;
  mret (b0 .| (b1 .<< 8) .| (b2 .<< 16) .| (b3 .<< 24)).

(** C leaves the order of the two calls open; the model takes the one the protocol needs. *)
Definition uart_get_u16 : F Z :=
  high ← uart_getc;
  low ← uart_getc;
  mret ((high .<< 8) .| low).

(** The bytes stored at [output]. *)
Definition uart_read_bytes (length : Z) : F bytes :=
  loopM (Z.to_nat length) 0 (fun _ out => b ← uart_getc; mret (out ++ [b])) [].

Definition uart_discard (length : Z) : F unit :=
  loopM (Z.to_nat length) 0 (fun _ _ => uart_getc ;; mret tt) tt.

(** [for (index = 0; index < n; index++) uart_putc(b[index]);] *)
Definition uart_put_bytes (n : Z) (b : bytes) : F unit :=
  loopM (Z.to_nat n) 0 (fun index _ => uart_putc (rd b index)) tt.

Definition uart_read_window (base length : Z) : F unit :=
  loopM (Z.to_nat length) 0 (fun offset word =>
    b ← uart_getc;
    let word := word .| u32 (b .<< (8 * (offset .& 3))) in
    if ((offset .& 3) =? 3) || (offset + 1 =? length) then
      MMIO32_set (base + (offset .& Z.lnot 3)) word ;; mret 0
    else mret word) 0 ;;
  mret tt.

(** [true] for 0, the success. *)
Definition bridge_run (dir addr length : Z) : F bool :=
  MMIO32_set BRIDGE_ADDR addr ;;
  MMIO32_set BRIDGE_LEN length ;;
  MMIO32 BRIDGE_CTRL ;;
  MMIO32_set BRIDGE_CTRL (BRIDGE_START .| dir) ;;
  poll_until FW_POLLING poll_fuel BRIDGE_CTRL (fun v => (v .& BRIDGE_BUSY) =? 0) ;;
  v ← MMIO32 BRIDGE_CTRL;
  MMIO32_set BRIDGE_CTRL BRIDGE_CLEAR ;;
  mret ((v .& BRIDGE_ERROR) =? 0).

(** * Task RAM *)

Definition task_write_words {E} (word_base : Z) (b : bytes) (length : Z) : M world E unit :=
  MMIO32_set LMS_TASK_ADDR word_base ;;
  MMIO32 LMS_STATUS ;;
  loopM (words_in length) 0 (fun k _ => MMIO32_set LMS_TASK_DATA (load_le32 b (4 * k))) tt.

(** The bytes stored. *)
Definition task_read_words {E} (word_base length : Z) : M world E bytes :=
  loopM (words_in length) 0 (fun k out =>
    MMIO32_set LMS_TASK_ADDR (u32 (word_base + k)) ;;
    MMIO32 LMS_STATUS ;;
    word ← MMIO32 LMS_TASK_DATA;
    mret (out ++ unpack_lanes word (4 * k) length)) [].

(** * Commands on the accelerator's registers

    Each returns the status to report and [*cycles]. *)

(** [while ((MMIO32(LMS_STATUS) & LMS_STATUS_BUSY) != 0u) {}] *)
Definition wait_not_busy {E} (stop : E) : M world E unit :=
  poll_until stop poll_fuel LMS_STATUS (fun v => (v .& LMS_STATUS_BUSY) =? 0).

(** The common end of the commands. *)
Definition run_command : F (Z * Z) :=
  MMIO32_set LMS_CONTROL LMS_CTRL_START ;;
  wait_not_busy FW_POLLING ;;
  cycles ← MMIO32 LMS_CYCLE_COUNT;
  add_hits 1 ;;
  status ← MMIO32 LMS_STATUS;
  mret (status, cycles).

Definition hash_once_from_uart (input_length : Z) : F (Z * Z) :=
  if 128 <? input_length then uart_discard input_length ;; mret (0, 0)
  else
    MMIO32_set LMS_CONTROL LMS_CTRL_CLEAR ;;
    MMIO32_set LMS_COMMAND LMS_CMD_HASH_ONCE ;;
    MMIO32_set LMS_INPUT_LENGTH input_length ;;
    MMIO32_set LMS_OUTPUT_LENGTH 32 ;;
    uart_read_window LMS_INPUT input_length ;;
    run_command.

(** The hash of 32 zero bytes that marks the start of a software run for a probe. *)
Definition trigger_hash : F unit :=
  MMIO32_set LMS_CONTROL LMS_CTRL_CLEAR ;;
  MMIO32_set LMS_COMMAND LMS_CMD_HASH_ONCE ;;
  MMIO32_set LMS_INPUT_LENGTH 32 ;;
  MMIO32_set LMS_OUTPUT_LENGTH 32 ;;
  loopM 8 0 (fun zi _ => MMIO32_set (LMS_INPUT + 4 * zi) 0) tt ;;
  MMIO32_set LMS_CONTROL LMS_CTRL_START ;;
  wait_not_busy FW_POLLING.

(** [(void)lms_hash_parts(prefix, .., s_seed_slot, .., digest)]: a failure leaves [digest]. *)
Definition seed_hash (prefix digest : bytes) : F bytes :=
  m ← get_fw;
  r ← library (lms_hash_parts prefix (s_seed_slot m) [] [] FW_HASH_ALG);
  mret (match r with Ok d => d | Err _ => digest end).

(** [memcpy(s_uart_msg, digest, LMS_N)] *)
Definition keep_digest (digest : bytes) : F unit := put_fw (fun m => m {{ s_uart_msg := splice 0 digest (s_uart_msg m) }}).

Definition derive_randomizer_from_uart : F (Z * Z) :=
  if LMS_FW_NO_HW_ACCEL then
    I_ ← uart_read_bytes 16;
    q ← uart_get_u32;
    m ← get_fw;
    if s_seed_slot_valid m =? 0 then mret (0, 0)          (* [*cycles] is the caller's 0 *)
    else
      trigger_hash ;;
      digest ← seed_hash (I_ ++ lms_store_u32 q ++ [0x85; 0x85]) (indet LMS_N);
      keep_digest digest ;;
      mret (LMS_STATUS_DONE, 0)
  else
    MMIO32_set LMS_CONTROL LMS_CTRL_CLEAR ;;
    MMIO32_set LMS_COMMAND LMS_CMD_DERIVE_RANDOMIZER ;;
    MMIO32_set LMS_OUTPUT_LENGTH 32 ;;
    uart_read_window LMS_IDENTIFIER 16 ;;
    q ← uart_get_u32;
    MMIO32_set LMS_ARG_Q q ;;
    run_command.

Definition derive_xq_from_uart : F (Z * Z) :=
  if LMS_FW_NO_HW_ACCEL then
    I_ ← uart_read_bytes 16;
    q ← uart_get_u32;
    i ← uart_get_u16;
    m ← get_fw;
    if s_seed_slot_valid m =? 0 then mret (0, 0)
    else
      trigger_hash ;;
      seed_hash (I_ ++ lms_store_u32 q ++ [u8 (i .>> 8); i .& 0xff; 0xff]) (indet LMS_N) ;;
      mret (LMS_STATUS_DONE, 0)
  else
    MMIO32_set LMS_CONTROL LMS_CTRL_CLEAR ;;
    MMIO32_set LMS_COMMAND LMS_CMD_DERIVE_CHAIN ;;
    MMIO32_set LMS_OUTPUT_LENGTH 32 ;;
    uart_read_window LMS_IDENTIFIER 16 ;;
    q ← uart_get_u32;
    i ← uart_get_u16;
    MMIO32_set LMS_ARG_Q q ;;
    MMIO32_set LMS_ARG_I i ;;
    MMIO32_set LMS_ARG_START 0 ;;
    MMIO32_set LMS_ARG_STEPS 0 ;;
    run_command.

Definition prf_chain_from_uart : F (Z * Z) :=
  I_ ← uart_read_bytes 16;
  q ← uart_get_u32;
  n ← uart_get_u32;
  let n := if (n =? 0) || (16 <? n) then 4 else n in
  m ← get_fw;
  if s_seed_slot_valid m =? 0 then mret (0, 0)
  else
    trigger_hash ;;
    digest ← loopM (Z.to_nat n) 0 (fun k digest =>
      seed_hash (I_ ++ lms_store_u32 (u32 (q + k)) ++ [0x85; 0x85]) digest) (indet LMS_N);
    keep_digest digest ;;
    mret (LMS_STATUS_DONE, 0).

Definition chain_from_uart : F (Z * Z) :=
  MMIO32_set LMS_CONTROL LMS_CTRL_CLEAR ;;
  MMIO32_set LMS_COMMAND LMS_CMD_CHAIN ;;
  MMIO32_set LMS_OUTPUT_LENGTH 32 ;;
  uart_read_window LMS_IDENTIFIER 16 ;;
  q ← uart_get_u32;
  i0 ← uart_getc;
  i1 ← uart_getc;
  start ← uart_getc;
  steps ← uart_getc;
  uart_read_window LMS_INPUT 32 ;;
  MMIO32_set LMS_ARG_Q q ;;
  MMIO32_set LMS_ARG_I (i0 .| (i1 .<< 8)) ;;
  MMIO32_set LMS_ARG_START start ;;
  MMIO32_set LMS_ARG_STEPS steps ;;
  run_command.

(** * Random generator and flash: the response frame *)

(** What [trng_read_from_uart] writes at [out_words], and the frame. *)
Definition trng_read_from_uart (response : bytes) (with_ack : bool) : F (bytes * bytes) :=
  count ← uart_getc;
  seq ← (if with_ack then uart_getc else mret 0);
  stat ← MMIO32 TRNG_STAT;
  if negb ((stat .& 1) =? 0) then mret ([], upd 2 1 response)
  else
    let response := upd 2 0 response in
    let count := if 16 <? count then 16 else count in
    words ← loopM (Z.to_nat count) 0 (fun _ out => word ← MMIO32 TRNG_RND; mret (out ++ store_le32 word)) [];
    mret (words, upd 24 seq (splice 20 (store_le32 count) response)).

Definition trng_status_from_uart (response : bytes) : F bytes :=
  stat ← MMIO32 TRNG_STAT;
  ctrl ← MMIO32 TRNG_CTRL;
  apt ← MMIO32 TRNG_APT;
  version ← MMIO32 TRNG_VERSION;
  cap ← MMIO32 TRNG_CAP;
  mret (splice 16 ([u8 version; u8 (version .>> 8); u8 cap; u8 (cap .>> 8)]
                   ++ store_le32 stat ++ store_le32 ctrl ++ store_le32 apt) (upd 2 0 response)).

(** [do { stat = MMIO32(FLASH_STATUS); spin++; } while ((stat & 2u) == 0u && spin < 2000000u);] *)
Fixpoint flash_spin (n : nat) (stat : Z) : F Z :=
  match n with
  | O => mret stat
  | S n =>
      stat ← MMIO32 FLASH_STATUS;
      if (stat .& 2) =? 0 then flash_spin n stat else mret stat
  end.

(** The start, the loop and the status byte. *)
Definition flash_run (response : bytes) : F (Z * bytes) :=
  MMIO32_set FLASH_CTRL 1 ;;
  stat ← flash_spin (Z.to_nat 2000000) 0;
  mret (stat, upd 2 (if negb ((stat .& 2) =? 0) then 0 else 1) response).

Definition flash_probe_from_uart (response : bytes) : F bytes :=
  '(stat, response) ← flash_run response;
  response ← loopM 5 0 (fun cand response =>
    word ← MMIO32 (FLASH_RESP0 + 4 * cand);
    mret (splice (16 + cand * 3) [u8 word; u8 (word .>> 8); u8 (word .>> 16)] response)) response;
  mret (upd 31 (u8 stat) response).

Definition flash_prog_from_uart (response : bytes) : F bytes :=
  a2 ← uart_getc;
  a1 ← uart_getc;
  a0 ← uart_getc;
  data ← uart_getc;
  let addr := (a2 .<< 16) .| (a1 .<< 8) .| a0 in
  MMIO32_set FLASH_OP 1 ;;
  MMIO32_set FLASH_ADDR addr ;;
  MMIO32_set FLASH_BYTE data ;;
  '(stat, response) ← flash_run response;
  loopM (Z.to_nat 400000) 0 (fun _ _ => MMIO32 FLASH_STATUS ;; mret tt) tt ;;
  mret (upd 31 (u8 stat) (splice 16 [u8 (addr .>> 16); u8 (addr .>> 8); u8 addr; data] response)).

Definition flash_cmd_from_uart (response : bytes) : F bytes :=
  byte ← uart_getc;
  MMIO32_set FLASH_OP 2 ;;
  MMIO32_set FLASH_BYTE byte ;;
  '(stat, response) ← flash_run response;
  mret (upd 31 (u8 stat) (upd 16 byte response)).
End Serial.
