(* ===== verification/FwLine.v ===== *)
(** A UART that delivers what the host sends, as a contract of the device ([uart_line]), and
    runs of the firmware's receivers on it.

    [line_run prog bs m a bs' m']: with the bytes [bs] still to come and the statics [m], [prog]
    returns [a] and leaves [bs'] and [m']. *)

From S2P Require Import Prelude Types HashApi Params LmOts Mmio RndTrng FwCrc FwStatics FwSerial.

Section Line.
Context `{P : Platform} `{Hh : HashApi} `{Mm : !Mmio} `{Fm : !FwMem} `{Bd : FwBuild}.

(** [recv d]: the bytes the host has sent or is going to send.  The next one is there within
    [patience d] polls. *)
Record uart_line (recv : dev -> bytes) (patience : dev -> nat) : Prop := {
  line_bytes : forall d, Forall is_byte (recv d);
  line_patience : forall d, (patience d < poll_fuel)%nat;
  line_poll : forall d, recv d <> [] ->
    let '(v, d') := load32 UART_RX_READY d in
    recv d' = recv d /\ fw_at d' = fw_at d /\
    if v =? 0 then (patience d' < patience d)%nat
    else forall b bs, recv d = b :: bs ->
      let '(x, d2) := load32 UART_RX d' in u8 x = b /\ recv d2 = bs /\ fw_at d2 = fw_at d;
  line_fw : forall m d, recv (set_fw m d) = recv d
}.

Variable recv : dev -> bytes.
Variable patience : dev -> nat.
Hypothesis HL : uart_line recv patience.

Definition line_at (bs : bytes) (m : fw_t) (w : world) : Prop := recv (device w) = bs /\ fw_at (device w) = m.

Definition line_run {A} (prog : F A) (bs : bytes) (m : fw_t) (a : A) (bs' : bytes) (m' : fw_t) : Prop :=
  forall w, line_at bs m w -> exists w', prog w = (Ok a, w') /\ line_at bs' m' w'.

Lemma run_ret {A} (a : A) bs m : line_run (mret a) bs m a bs m.
Proof. intros w H. exists w. split; [reflexivity | exact H]. Qed.

Lemma run_bind {A B} (prog : F A) (f : A -> F B) bs m a bs1 m1 b bs2 m2 :
  line_run prog bs m a bs1 m1 -> line_run (f a) bs1 m1 b bs2 m2 -> line_run (prog ≫= f) bs m b bs2 m2.
Proof.
  intros H1 H2 w Hw. destruct (H1 w Hw) as (w1 & E1 & Hw1). destruct (H2 w1 Hw1) as (w2 & E2 & Hw2).
  exists w2. split; [unfold mbind, M_bind; rewrite E1; exact E2 | exact Hw2].
Qed.

Lemma run_get bs m : line_run get_fw bs m m bs m.
Proof. intros w [H1 H2]. exists w. split; [unfold get_fw; rewrite H2; reflexivity | split; assumption]. Qed.

Lemma run_put f bs m : line_run (put_fw f) bs m tt bs (f m).
Proof.
  intros w [H1 H2]. eexists. split; [reflexivity |]. split; cbn [device].
  - destruct w. cbn in *. rewrite (line_fw _ _ HL). exact H1.
  - destruct w. cbn in *. rewrite fw_set, H2. reflexivity.
Qed.

Lemma run_getc b bs m : line_run uart_getc (b :: bs) m b bs m.
Proof.
  unfold uart_getc.
  assert (Hp : forall n w, line_at (b :: bs) m w -> (patience (device w) < n)%nat ->
    exists w', (poll_until FW_POLLING n UART_RX_READY (fun v => negb (v =? 0)) ;; v ← MMIO32 UART_RX; mret (u8 v)) w = (Ok b, w')
      /\ line_at bs m w').
  { induction n as [| n IH]; intros w [H1 H2] Hn; [lia |]. cbn [poll_until].
    pose proof (line_poll _ _ HL (device w) ltac:(rewrite H1; discriminate)) as Hp.
    unfold mbind, M_bind, MMIO32 at 1. destruct (load32 UART_RX_READY (device w)) as [v d']. destruct Hp as (P1 & P2 & P3).
    destruct (Z.eqb_spec v 0) as [-> | Hv]; cbn [negb].
    - apply (IH (w {{ device := d' }})); destruct w; cbn in *; [split; cbn; congruence | lia].
    - specialize (P3 b bs H1). cbn. unfold MMIO32. destruct w; cbn in *.
      destruct (load32 UART_RX d') as [x d2]. destruct P3 as (P3 & P4 & P5). rewrite <- P3.
      eexists. split; [reflexivity |]. split; cbn; congruence. }
  intros w Hw. apply Hp; [exact Hw | apply (line_patience _ _ HL)].
Qed.

Lemma run_read_bytes xs : forall bs m, line_run (uart_read_bytes (len xs)) (xs ++ bs) m xs bs m.
Proof.
  unfold uart_read_bytes. rewrite len_to_nat. intros bs m.
  assert (H : forall xs i acc, line_run (loopM (length xs) i (fun _ out => b ← uart_getc; mret (out ++ [b])) acc)
    (xs ++ bs) m (acc ++ xs) bs m).
  { clear xs. induction xs as [| x xs IH]; intros i acc; cbn [length loopM app].
    - rewrite app_nil_r. apply run_ret.
    - eapply run_bind; [eapply run_bind; [apply run_getc | apply run_ret] |].
      specialize (IH (i + 1) (acc ++ [x])). rewrite <- app_assoc in IH. exact IH. }
  apply H.
Qed.

Lemma run_discard xs : forall bs m, line_run (uart_discard (len xs)) (xs ++ bs) m tt bs m.
Proof.
  unfold uart_discard. rewrite len_to_nat. intros bs m. generalize 0. induction xs as [| x xs IH]; intros i; cbn [length loopM app].
  - apply run_ret.
  - eapply run_bind; [eapply run_bind; [apply run_getc | apply run_ret] | apply IH].
Qed.
End Line.
