(* ===== verification/FwDemo.v ===== *)
(** A concrete board, for the examples: the client structure, the demo accelerator of
    MmioDemo.v in the window at [LMS_BASE], the statics of the firmware, a serial line on which
    each byte takes one more poll to arrive or to leave, and the bridge's transmit side. *)

From S2P Require Import Prelude Types HashApi Params LmOts LmOtsCorrect Subtree FwPool MmioRegs Mmio Accel MmioCorrect MmioDemo SecState SecStateCorrect RndTrng FwCrc FwStatics FwSerial FwLine.

(** The statics before [main]. *)
Definition zero_tree_head : tree_head := mkTreeHead 0 0 0 0 0 0 LMS_HASH_SHAKE256 (fill 0 LMS_I_LEN) NULL false false.

Definition boot_statics : fw_t :=
  mkFw 0 0 (fill 0 VERIFY_MESSAGE_MAX) (fill 0 LMS_MAX_SIGNATURE_LEN) (fill 0 (4 + LMS_MAX_HEIGHT * LMS_N)) 0 0 0 0
    (fill 0 LMS_SEED_LEN) (fill 0 LMS_N) 0 (fill 0 NVM_STATE_LEN) [0; 0] [0; 0] 1 pool_reset [] zero_tree_head
    (fill 0 (LMS_I_LEN + LMS_SEED_LEN + 8)) 0 zero_tree_head (fill 0 (LMS_I_LEN + 8)) 0 zero_sec.

(** [line_ready]: the next byte of [line_in] has arrived. *)
Record board := mkBoard {
  board_client : lms_mmio_client_t;
  board_accel : accel;
  board_fw : fw_t;
  line_ready : bool;
  line_in : list Z;
  tx_ready : bool;
  line_out : bytes;
  bridge_addr : Z;
  bridge_len : Z
}.

(** The receiver, the accelerator, the transmitter and the bridge change alone. *)
Definition set_line (ready : bool) (bs : list Z) (d : board) : board :=
  mkBoard (board_client d) (board_accel d) (board_fw d) ready bs (tx_ready d) (line_out d) (bridge_addr d) (bridge_len d).
Definition set_accel (a : accel) (d : board) : board :=
  mkBoard (board_client d) a (board_fw d) (line_ready d) (line_in d) (tx_ready d) (line_out d) (bridge_addr d) (bridge_len d).
Definition transmit (ready : bool) (bs : bytes) (d : board) : board :=
  mkBoard (board_client d) (board_accel d) (board_fw d) (line_ready d) (line_in d) ready (line_out d ++ bs) (bridge_addr d) (bridge_len d).
Definition set_bridge (addr n : Z) (d : board) : board :=
  mkBoard (board_client d) (board_accel d) (board_fw d) (line_ready d) (line_in d) (tx_ready d) (line_out d) addr n.

(** [n] bytes of task RAM. *)
Definition board_task_ram (a : accel) (addr n : Z) : bytes := slice 0 n (ram_bytes a addr ((n + 3) / 4)).

Definition board_bus : lms_mmio_bus_t := mkBus LMS_BASE (Some Direct) (Some Direct).

#[local] Instance board_hw : Platform := {|
  SIZE_MAX := UINT_MAX;
  SIZE_MAX_ge := Z.le_refl UINT_MAX;
  dev := board;
  dev_ok d := good board_bus demo_alg (board_client d);
  malloc_dev_ok _ _ H := H;
  malloc n d := (n <=? 16384 * 8, d);
  sizeof_hss_private_key := 66572;
  sizeof_lms_sublevel := 104;
  indet n := fill 0xA5 n;
  indet_len n Hn := len_fill 0xA5 n Hn
|}.

Definition in_accel (address : Z) : bool := (LMS_BASE <=? address) && (address <? LMS_BASE + 0x1000).

Definition board_load (address : Z) (d : board) : Z * board :=
  if address =? UART_RX_READY then
    if line_ready d then (1, d) else (0, set_line (negb (bool_decide (line_in d = []))) (line_in d) d)
  else if address =? UART_RX then (u8 (hd 0 (line_in d)), set_line false (tl (line_in d)) d)
  else if address =? UART_TX_READY then
    if tx_ready d then (1, d) else (0, transmit true [] d)
  else if address =? BRIDGE_CTRL then (0, d)
  else if in_accel address then
    let '(v, a) := demo_read (address - LMS_BASE) (board_accel d) in (v, set_accel a d)
  else (1, d).

(** The accelerator with the state commit: a step of the monotonic counter, which lies behind the
    registers, and a tag of zeros. *)
Definition board_mc : Z := 0xffc.
Definition commit_done (a : accel) : accel :=
  let tx := reg a board_mc + 1 in
  mkAccel (regs_after (block LMS_MMIO_REG_OUTPUT (store_le32 tx ++ fill 0 28) 8) (set board_mc tx (reg a))) (ram a) Finished.

Definition board_write (offset value : Z) (a : accel) : accel :=
  if (offset =? LMS_MMIO_REG_CONTROL) && (value =? LMS_MMIO_CTRL_START) && (reg a LMS_MMIO_REG_COMMAND =? LMS_MMIO_CMD_STATE_COMMIT)
  then commit_done a else accel_write offset value a.

Definition board_store (address value : Z) (d : board) : board :=
  if address =? UART_TX then transmit false [u8 value] d
  else if address =? BRIDGE_ADDR then set_bridge value (bridge_len d) d
  else if address =? BRIDGE_LEN then set_bridge (bridge_addr d) value d
  else if (address =? BRIDGE_CTRL) && (value =? (BRIDGE_START .| BRIDGE_DIR_TX))
  then transmit (tx_ready d) (board_task_ram (board_accel d) (bridge_addr d) (bridge_len d)) d
  else if in_accel address then set_accel (board_write (address - LMS_BASE) value (board_accel d)) d
  else d.

#[local] Instance board_mmio : Mmio (P := board_hw) := {|
  client_at _ d := board_client d;
  set_client _ c d := mkBoard c (board_accel d) (board_fw d) (line_ready d) (line_in d) (tx_ready d) (line_out d) (bridge_addr d) (bridge_len d);
  client_set _ _ _ := eq_refl;
  extern_read32 _ _ _ d := (0, d);
  extern_write32 _ _ _ _ d := d;
  load32 := board_load;
  store32 := board_store;
  extern_trng_fill _ _ d := ((0, fill 0x5C LMS_N), d);
  bytes_at _ n _ := fill 0x3A n;
  aligned4 bf := match bf with B_I | B_value | B_packed => true | _ => false end
|}.

#[local] Instance board_mem : FwMem (P := board_hw) := {|
  fw_at d := board_fw d;
  set_fw m d := mkBoard (board_client d) (board_accel d) m (line_ready d) (line_in d) (tx_ready d) (line_out d) (bridge_addr d) (bridge_len d);
  fw_set _ _ := eq_refl;
  fw_rnd n d := (fill 0x77 n, d);
  fw_rnd_seed _ d := d;
  fw_rnd_fault _ := 0
|}.

#[local] Instance board_build : FwBuild := {|
  FW_HASH_ALG := LMS_HASH_SHAKE256;
  LMS_FW_NO_HW_ACCEL := false;
  FW_TEST_MODE := true;
  FW_RND_TRNG := false;
  LMS_FW_NO_TREE_CACHE := false;
  verify_client := 1;
  s_tree_arena := 0x2000;
  c_slot_addr := 0x1100;
  tree_ctx_addr := 0x1200;
  sec_tree_ctx_addr := 0x1300;
  fw_trng_fill_c_addr := 0x1400;
  verify_client_nonnull := ltac:(discriminate);
  tree_ctx_nonnull := ltac:(discriminate);
  sec_tree_ctx_nonnull := ltac:(discriminate);
  poll_fuel := 4
|}.

(** The bytes the host still has to send, and the polls the next one takes. *)
Definition board_recv (d : board) : bytes := map u8 (line_in d).
Definition board_patience (d : board) : nat := if line_ready d then 0 else 1.

Lemma board_line :
  uart_line (P := board_hw) (Mm := board_mmio) (Fm := board_mem) (Bd := board_build) board_recv board_patience.
Proof.
  split.
  - intros d. apply Forall_map, Forall_forall. intros x _. apply u8_byte.
  - intros d. cbn. unfold board_patience. destruct (line_ready d); lia.
  - intros d Hne. cbn [load32 board_mmio fw_at board_mem]. unfold board_load. rewrite Z.eqb_refl.
    unfold board_recv, board_patience in *. destruct (line_ready d) eqn:E.
    + split; [reflexivity | split; [reflexivity |]]. intros b bs Hb. cbn.
      destruct (line_in d) as [| x l]; [discriminate |]. cbn in *. injection Hb as <- <-.
      split; [apply u8_small, u8_byte | split; reflexivity].
    + cbn. split; [reflexivity | split; [reflexivity |]]. destruct (line_in d); [contradiction | cbn; lia].
  - reflexivity.
Qed.
