(* ===== verification/FwNvm.v ===== *)
(** NVM_SYNC of fw/lms_soc_smoke.c: the host refills the mirror of the state record in two
    halves under a check sum and reads it back in three segments.

    With a UART that delivers what the host sends ([uart_line]), the mirror returns the 64
    bytes that were pushed, and a half that was corrupted within two adjacent bytes is
    refused.  The same line serves the other receivers of the firmware. *)

From S2P Require Import Prelude Types HashApi Params LmOts Subtree FwPool Mmio SecState RndTrng FwCrc FwStatics FwSerial FwLine FwDemo.

Definition NVM_SYNC_SUB_PUSH_LO : Z := 0x01.
Definition NVM_SYNC_SUB_PUSH_HI : Z := 0x02.
Definition NVM_SYNC_SUB_READ : Z := 0x03.
Definition NVM_SYNC_SUB_READ_HI : Z := 0x04.
Definition NVM_SYNC_SUB_READ_MID : Z := 0x05.

Section Nvm.
Context `{P : Platform} `{Hh : HashApi} `{Mm : !Mmio} `{Fm : !FwMem} `{Bd : FwBuild}.

Definition nvm_mask (m : fw_t) : Z := u8 (rd (nvm_valid m) 0 .| u8 (rd (nvm_valid m) 1 .<< 1)).

(** The branches of the two PUSH and of the three READ commands. *)
Definition nvm_push (half : Z) (response : bytes) : F bytes :=
  chunk ← uart_read_bytes NVM_CHUNK_LEN;
  c0 ← uart_getc;
  c1 ← uart_getc;
  let got_crc := u16 (c0 .| (c1 .<< 8)) in
  if negb (crc16_ccitt chunk NVM_CHUNK_LEN =? got_crc) then mret (upd 2 2 response)
  else
    put_fw (fun m => m {{ nvm_state := splice (half * NVM_CHUNK_LEN) chunk (nvm_state m);
                          nvm_crc := upd half got_crc (nvm_crc m);
                          nvm_valid := upd half 1 (nvm_valid m) }}) ;;
    mret response.

Definition nvm_read (base : Z) (response : bytes) : F bytes :=
  m ← get_fw;
  if (rd (nvm_valid m) 0 =? 0) || (rd (nvm_valid m) 1 =? 0) then mret (upd 2 1 response)
  else mret (splice 4 (slice base 28 (nvm_state m)) response).

Definition nvm_sync_from_uart (response : bytes) : F bytes :=
  op ← uart_getc;
  m ← get_fw;
  let response := upd 3 (nvm_mask m) (upd 2 0 (upd 1 0 (upd 0 op response))) in
  response ← (
    if (op =? NVM_SYNC_SUB_PUSH_LO) || (op =? NVM_SYNC_SUB_PUSH_HI) then
      nvm_push (if op =? NVM_SYNC_SUB_PUSH_HI then 1 else 0) response
    else if op =? NVM_SYNC_SUB_READ then nvm_read 0 response
    else if op =? NVM_SYNC_SUB_READ_HI then nvm_read 36 response
    else if op =? NVM_SYNC_SUB_READ_MID then nvm_read 28 response
    else uart_discard (NVM_CHUNK_LEN + NVM_CRC_LEN) ;; mret (upd 2 3 response));
  m ← get_fw;
  mret (upd 3 (nvm_mask m) response).
End Nvm.

(** * The mirror *)

Section Mirror.
Context `{P : Platform} `{Hh : HashApi} `{Mm : !Mmio} `{Fm : !FwMem} `{Bd : FwBuild}.
Variable recv : dev -> bytes.
Variable patience : dev -> nat.
Hypothesis HL : uart_line recv patience.

Abbreviation runs := (line_run recv).

(** The head of an answer. *)
Definition nvm_head (op status : Z) (m : fw_t) (response : bytes) : bytes :=
  upd 3 (nvm_mask m) (upd 2 status (upd 1 0 (upd 0 op response))).

(** The statics after half [half] was accepted. *)
Definition with_half (half : Z) (chunk : bytes) (crc : Z) (m : fw_t) : fw_t :=
  m {{ nvm_state := splice (half * NVM_CHUNK_LEN) chunk (nvm_state m);
       nvm_crc := upd half crc (nvm_crc m); nvm_valid := upd half 1 (nvm_valid m) }}.

(** A check sum as it is sent. *)
Definition le16 (v : Z) : bytes := [u8 v; u8 (v .>> 8)].

Lemma le16_value v : 0 <= v < 65536 -> u16 (u8 v .| (u8 (v .>> 8) .<< 8)) = v.
Proof.
  intros Hv. pose proof (u8_byte v) as H0. unfold is_byte in H0.
  rewrite Z.lor_comm, lor_shiftl_add by (change (2 ^ 8) with 256; lia).
  rewrite u8_shiftr, (u8_mod v) by lia. change (2 ^ 8) with 256. rewrite u16_small; Z.to_euclidean_division_equations; lia.
Qed.

Lemma run_push half chunk v bs m response :
  len chunk = NVM_CHUNK_LEN -> 0 <= v < 65536 ->
  runs (nvm_push half response) (chunk ++ le16 v ++ bs) m
    (if crc16_ccitt chunk NVM_CHUNK_LEN =? v then response else upd 2 2 response) bs
    (if crc16_ccitt chunk NVM_CHUNK_LEN =? v then with_half half chunk v m else m).
Proof.
  intros Hl Hv. unfold nvm_push. eapply run_bind; [rewrite <- Hl; apply (run_read_bytes recv patience HL) |].
  eapply run_bind; [apply (run_getc recv patience HL) |]. eapply run_bind; [apply (run_getc recv patience HL) |].
  rewrite le16_value by exact Hv. destruct (crc16_ccitt chunk NVM_CHUNK_LEN =? v); cbn [negb].
  - eapply run_bind; [apply (run_put recv patience HL) | apply run_ret].
  - apply run_ret.
Qed.

Lemma run_nvm_read base bs m response :
  rd (nvm_valid m) 0 <> 0 -> rd (nvm_valid m) 1 <> 0 ->
  runs (nvm_read base response) bs m (splice 4 (slice base 28 (nvm_state m)) response) bs m.
Proof.
  intros H0 H1. unfold nvm_read. eapply run_bind; [apply run_get |].
  destruct (Z.eqb_spec (rd (nvm_valid m) 0) 0); [contradiction |].
  destruct (Z.eqb_spec (rd (nvm_valid m) 1) 0); [contradiction |]. apply run_ret.
Qed.

(** A request: the head and the tail around the branch. *)
Lemma run_request op bs m response r bs' m' :
  runs (let response := nvm_head op 0 m response in
        if (op =? NVM_SYNC_SUB_PUSH_LO) || (op =? NVM_SYNC_SUB_PUSH_HI) then
          nvm_push (if op =? NVM_SYNC_SUB_PUSH_HI then 1 else 0) response
        else if op =? NVM_SYNC_SUB_READ then nvm_read 0 response
        else if op =? NVM_SYNC_SUB_READ_HI then nvm_read 36 response
        else if op =? NVM_SYNC_SUB_READ_MID then nvm_read 28 response
        else uart_discard (NVM_CHUNK_LEN + NVM_CRC_LEN) ;; mret (upd 2 3 response)) bs m r bs' m' ->
  runs (nvm_sync_from_uart response) (op :: bs) m (upd 3 (nvm_mask m') r) bs' m'.
Proof.
  intros H. unfold nvm_sync_from_uart. eapply run_bind; [apply (run_getc recv patience HL) |].
  eapply run_bind; [apply run_get |]. eapply run_bind; [exact H |]. eapply run_bind; [apply run_get | apply run_ret].
Qed.
End Mirror.

(** A request that carries a half. *)
Definition push_request (op : Z) (chunk : bytes) (crc : Z) : bytes := op :: chunk ++ le16 crc.

Lemma push_request_app op c v bs : push_request op c v ++ bs = op :: c ++ le16 v ++ bs.
Proof. unfold push_request. cbn [app]. rewrite <- app_assoc. reflexivity. Qed.

(** The answer to a request, in the frame the dispatcher zeroes. *)
Definition nvm_turn `{P : Platform} `{Mm : !Mmio} `{Fm : !FwMem} `{Bd : FwBuild} : F bytes := nvm_sync_from_uart (fill 0 48).

Definition reply_status (r : bytes) : Z := rd r 2.
Definition reply_data (r : bytes) : bytes := slice 4 28 r.

Lemma splice_halves lo hi st : len lo = 32 -> len hi = 32 -> len st = 64 -> splice 32 hi (splice 0 lo st) = lo ++ hi.
Proof.
  unfold len. intros Hl Hh Hs. unfold splice. rewrite take_0. cbn [app Z.to_nat].
  change (Z.to_nat 32) with 32%nat. change (Z.to_nat 0) with 0%nat. rewrite Nat.add_0_l, Nat.sub_0_r.
  rewrite (take_ge lo) by lia. rewrite take_app_le, (take_ge lo) by lia. f_equal. rewrite !length_app, length_drop.
  rewrite (take_ge hi) by lia. rewrite drop_ge by (rewrite length_app, length_drop; lia). apply app_nil_r.
Qed.

(** The three parts of an answer. *)
Lemma reply_parts x d h : len d = 28 -> len h = 48 ->
  reply_data (upd 3 x (splice 4 d h)) = d /\ reply_status (upd 3 x (splice 4 d h)) = rd h 2.
Proof.
  intros Hd Hh. assert (Hd' : length d = 28%nat) by (unfold len in Hd; lia). assert (Hh' : length h = 48%nat) by (unfold len in Hh; lia).
  clear Hd Hh. unfold reply_data, reply_status, slice, splice, upd, rd.
  change (Z.to_nat 3) with 3%nat. change (Z.to_nat 4) with 4%nat. change (Z.to_nat 28) with 28%nat. change (Z.to_nat 2) with 2%nat.
  do 4 (destruct h as [| ? h]; [discriminate |]). cbn [length] in Hh'. cbn [take app length].
  rewrite (take_ge d) by lia. cbn. split; [| reflexivity].
  rewrite take_0, drop_0. cbn [app]. rewrite take_app_le, take_ge by lia. reflexivity.
Qed.

(** C32: the mirror of the state record: the host pushes two halves under their check sums and
    reads the 64 bytes back, in three overlapping segments; a half that arrives altered within
    two adjacent bytes is refused with status 2 and changes nothing. *)
Theorem nvm_mirror `{P : Platform} `{Hh : HashApi} `{Mm : !Mmio} `{Fm : !FwMem} `{Bd : FwBuild}
    (recv : dev -> bytes) (patience : dev -> nat) (m : fw_t) :
  uart_line recv patience -> len (nvm_state m) = 64 -> length (nvm_crc m) = 2%nat -> length (nvm_valid m) = 2%nat ->
  (forall (lo hi rest : bytes), len lo = 32 -> len hi = 32 ->
   exists r1 r2 r3 r4 r5 m',
     line_run recv
       (r1 ← nvm_turn; r2 ← nvm_turn; r3 ← nvm_turn; r4 ← nvm_turn; r5 ← nvm_turn; mret [r1; r2; r3; r4; r5])
       (push_request NVM_SYNC_SUB_PUSH_LO lo (crc16_ccitt lo 32) ++ push_request NVM_SYNC_SUB_PUSH_HI hi (crc16_ccitt hi 32)
        ++ NVM_SYNC_SUB_READ :: NVM_SYNC_SUB_READ_MID :: NVM_SYNC_SUB_READ_HI :: rest) m
       [r1; r2; r3; r4; r5] rest m' /\
     Forall (fun r => reply_status r = 0) [r1; r2; r3; r4; r5] /\ nvm_state m' = lo ++ hi /\
     reply_data r3 = slice 0 28 (lo ++ hi) /\ reply_data r4 = slice 28 28 (lo ++ hi) /\ reply_data r5 = slice 36 28 (lo ++ hi)) /\
  (forall op pre a b a' b' suf rest,
     op = NVM_SYNC_SUB_PUSH_LO \/ op = NVM_SYNC_SUB_PUSH_HI -> len (pre ++ [a; b] ++ suf) = 32 ->
     Forall is_byte [a; b; a'; b'] -> (a, b) <> (a', b') ->
     exists r, line_run recv nvm_turn (push_request op (pre ++ [a; b] ++ suf) (crc16_ccitt (pre ++ [a'; b'] ++ suf) 32) ++ rest) m r rest m /\
       reply_status r = 2).
Proof.
  intros HL Hst Hcrc Hval. split.
  - intros lo hi rest Hlo Hhi.
    set (ml := with_half 0 lo (crc16_ccitt lo 32) m). set (mh := with_half 1 hi (crc16_ccitt hi 32) ml).
    assert (Hmh : nvm_state mh = lo ++ hi) by (apply splice_halves; assumption).
    assert (Hv : rd (nvm_valid mh) 0 <> 0 /\ rd (nvm_valid mh) 1 <> 0).
    { subst mh ml. destruct m. cbn in *. destruct nvm_valid as [| v0 [| v1 [|]]]; try discriminate. cbn. split; discriminate. }
    assert (Hc : forall c, len c = 32 -> 0 <= crc16_ccitt c 32 < 65536).
    { intros c Hc. rewrite <- Hc, crc16_ccitt_eq. apply crc16_fold_range. lia. }
    assert (Hpush : forall op half c bs m0, op = NVM_SYNC_SUB_PUSH_LO /\ half = 0 \/ op = NVM_SYNC_SUB_PUSH_HI /\ half = 1 ->
      len c = 32 -> line_run recv nvm_turn (push_request op c (crc16_ccitt c 32) ++ bs) m0
        (upd 3 (nvm_mask (with_half half c (crc16_ccitt c 32) m0)) (nvm_head op 0 m0 (fill 0 48))) bs
        (with_half half c (crc16_ccitt c 32) m0)).
    { intros op half c bs m0 Hop Hlc. rewrite push_request_app. apply (run_request recv patience HL).
      pose proof (run_push recv patience HL half c (crc16_ccitt c 32) bs m0 (nvm_head op 0 m0 (fill 0 48)) Hlc (Hc c Hlc)) as Hp.
      unfold NVM_CHUNK_LEN in Hp. rewrite Z.eqb_refl in Hp.
      destruct Hop as [[-> ->] | [-> ->]]; exact Hp. }
    assert (Hread : forall op base bs, (op = NVM_SYNC_SUB_READ /\ base = 0) \/ (op = NVM_SYNC_SUB_READ_HI /\ base = 36)
        \/ (op = NVM_SYNC_SUB_READ_MID /\ base = 28) ->
      line_run recv nvm_turn (op :: bs) mh
        (upd 3 (nvm_mask mh) (splice 4 (slice base 28 (nvm_state mh)) (nvm_head op 0 mh (fill 0 48)))) bs mh).
    { intros op base bs Hop. apply (run_request recv patience HL).
      pose proof (run_nvm_read recv base bs mh (nvm_head op 0 mh (fill 0 48)) (proj1 Hv) (proj2 Hv)) as Hr.
      destruct Hop as [[-> ->] | [[-> ->] | [-> ->]]]; exact Hr. }
    eexists _, _, _, _, _, mh. split.
    { do 5 (eapply run_bind; [first [eapply Hpush; [auto | assumption] | eapply Hread; auto] |]). apply run_ret. }
    assert (Hseg : forall base, 0 <= base <= 36 -> len (slice base 28 (nvm_state mh)) = 28)
      by (intros base Hb; apply len_slice; [lia | lia | rewrite Hmh, len_app; lia]).
    assert (Hhd : forall op m0, len (nvm_head op 0 m0 (fill 0 48)) = 48) by reflexivity.
    pose proof (fun op base x Hb => reply_parts x _ _ (Hseg base Hb) (Hhd op mh)) as Hr. rewrite Hmh in Hr |- *.
    split; [| split; [reflexivity | split; [| split]]; apply Hr; lia].
    repeat apply Forall_cons_2; try apply Forall_nil_2; try reflexivity; (etrans; [apply Hr; lia | reflexivity]).
  - intros op pre a b a' b' suf rest Hop Hl Hby Hne. exists (upd 3 (nvm_mask m) (upd 2 2 (nvm_head op 0 m (fill 0 48)))). split.
    + unfold nvm_turn. rewrite push_request_app. apply (run_request recv patience HL).
      assert (Hl' : len (pre ++ [a'; b'] ++ suf) = 32) by (rewrite <- Hl, !len_app; reflexivity).
      pose proof (crc16_ccitt_eq (pre ++ [a'; b'] ++ suf)) as Ec. rewrite Hl' in Ec.
      pose proof (fun half => run_push recv patience HL half (pre ++ [a; b] ++ suf) (crc16_ccitt (pre ++ [a'; b'] ++ suf) 32) rest m
        (nvm_head op 0 m (fill 0 48)) Hl ltac:(rewrite Ec; apply crc16_fold_range; lia)) as Hp.
      assert (Hc : (crc16_ccitt (pre ++ [a; b] ++ suf) NVM_CHUNK_LEN =? crc16_ccitt (pre ++ [a'; b'] ++ suf) 32) = false).
      { apply Z.eqb_neq. unfold NVM_CHUNK_LEN. intros E. apply Hne.
        repeat (apply Forall_cons in Hby as [? Hby]).
        destruct (crc16_detects pre a b a' b' suf) as [-> ->]; try assumption; [| reflexivity].
        change (32 : Z) with 32 in E. rewrite Hl, Hl'. exact E. }
      rewrite Hc in Hp. destruct Hop as [-> | ->]; [exact (Hp 0) | exact (Hp 1)].
    + reflexivity.
Qed.

Section Witness.
#[local] Existing Instance toy_hash_api.
#[local] Existing Instance board_hw.
#[local] Existing Instance board_mmio.
#[local] Existing Instance board_mem.
#[local] Existing Instance board_build.

Lemma nvm_mirror_witness :
  uart_line board_recv board_patience /\
  (exists r1 r2 r3 r4 r5 m',
     line_run board_recv
       (r1 ← nvm_turn; r2 ← nvm_turn; r3 ← nvm_turn; r4 ← nvm_turn; r5 ← nvm_turn; mret [r1; r2; r3; r4; r5])
       (push_request NVM_SYNC_SUB_PUSH_LO (fill 0x11 32) (crc16_ccitt (fill 0x11 32) 32)
        ++ push_request NVM_SYNC_SUB_PUSH_HI (fill 0x22 32) (crc16_ccitt (fill 0x22 32) 32)
        ++ NVM_SYNC_SUB_READ :: NVM_SYNC_SUB_READ_MID :: NVM_SYNC_SUB_READ_HI :: [7]) boot_statics
       [r1; r2; r3; r4; r5] [7] m' /\
     Forall (fun r => reply_status r = 0) [r1; r2; r3; r4; r5] /\ nvm_state m' = fill 0x11 32 ++ fill 0x22 32 /\
     reply_data r3 = slice 0 28 (fill 0x11 32 ++ fill 0x22 32) /\ reply_data r4 = slice 28 28 (fill 0x11 32 ++ fill 0x22 32) /\
     reply_data r5 = slice 36 28 (fill 0x11 32 ++ fill 0x22 32)).
Proof.
  split; [exact board_line |].
  exact (proj1 (nvm_mirror (P := board_hw) (Mm := board_mmio) (Fm := board_mem) (Bd := board_build)
    board_recv board_patience boot_statics board_line eq_refl eq_refl eq_refl) (fill 0x11 32) (fill 0x22 32) [7] eq_refl eq_refl).
Defined.
End Witness.
