(* ===== verification/FwBackends.v ===== *)
(** The callbacks fw/lms_soc_smoke.c registers with the library: leaves, inner nodes, message
    hashes, coefficients, signing, verification and the authentication path on the
    accelerator; and the switch that registers them.

    A callback gets the device, on which it runs with fresh statics of the library, as the
    callbacks of the driver do ([on_statics]).  What one does not write through its output
    pointers is an uninitialised local of its caller. *)

From S2P Require Import Prelude Types HashApi Params LmOts Tree Subtree FwPool MmioRegs Mmio SecState RndTrng FwCrc FwStatics FwSerial.

Section Helpers.
Context `{P : Platform} `{Hh : HashApi} `{Mm : !Mmio} `{Fm : !FwMem} `{Bd : FwBuild}.

Definition lmots_sig_len_type (lmots_type : Z) : C Z :=
  r ← attempt (lms_get_lmots_param lmots_type);
  mret (match r with Ok param => u32 (4 + ots_p_n param + u32 (ots_p_p param * ots_p_n param)) | Err _ => 0 end).

Definition lmots_y_len_type (lmots_type : Z) : C Z :=
  r ← attempt (lms_get_lmots_param lmots_type);
  mret (match r with Ok param => u32 (ots_p_p param * ots_p_n param) | Err _ => 0 end).

Definition mqc_msg_base (y_len : Z) : Z :=
  let base := u32 (32 + y_len / 4) in
  if 2152 <=? base then 568 else base.

Definition lmots_sig_len_priv (priv : lms_private_key_t) : C Z := lmots_sig_len_type (priv_lmots_type priv).

Definition lmots_hw_supported (lmots_type : Z) : C bool :=
  r ← attempt (lms_get_lmots_param lmots_type);
  mret (match r with
        | Ok param => (ots_p_w param =? 1) || (ots_p_w param =? 2) || (ots_p_w param =? 4) || (ots_p_w param =? 8)
        | Err _ => false
        end).

(** [f(..) == LMS_MMIO_OK] as a test. *)
Definition mmio_try {A} (m : DM A) : C (option A) :=
  fun w => match m w with
           | (Ok a, w') => (Ok (Some a), w')
           | (Err MMIO_UNDEFINED, w') => (Err UNDEFINED, w')
           | (Err _, w') => (Ok None, w')
           end.

(** * Leaves and nodes *)

Definition hw_keygen_leaf : lms_subtree_leaf_fn :=
  fun client priv q =>
    lparam ← or_return LMS_ERR_INVALID (lms_get_lms_param (priv_lms_type priv));
    let node_num := u32 (u32 (1 .<< lms_p_height lparam) + q) in
    lms_output (lms_mmio_lmots_keygen_leaf client 0 (Some (priv_I priv)) q node_num (priv_lmots_type priv) local_ptr).

Definition hw_intr_backend : lms_intr_backend_fn :=
  fun client I_ _ node_num left right => on_statics (
    let msg := I_ ++ lms_store_u32 node_num ++ lms_store_u16 D_INTR ++ left ++ right in
    lms_output (lms_mmio_hash_once client (Buf msg) local_ptr)).

(** * Messages *)

(** [I || q || D_MESG || C] *)
Definition message_prefix (I_ : bytes) (q : Z) (c : bytes) : bytes :=
  I_ ++ lms_store_u32 q ++ lms_store_u16 D_MESG ++ c.

Definition hw_message_hash_backend : lmots_message_hash_backend_fn :=
  fun client I_ _ q c message => on_statics (
    let buf := message_prefix I_ q c ++ cbuf_data message in
    once ← (if cbuf_len message <=? 74 then mmio_try (lms_mmio_hash_once client (Buf buf) local_ptr) else mret None);
    match once with
    | Some (digest, _) => mret digest
    | None =>
        ram ← (if cbuf_len message <=? 1994 then mmio_try (lms_mmio_hash_once_ram client (Buf buf) local_ptr) else mret None);
        match ram with
        | Some (digest, _) => mret digest
        | None => or_return LMS_ERR_INVALID (lms_hash_parts (message_prefix I_ q c) (cbuf_data message) [] [] FW_HASH_ALG)
        end
    end).

(** The coefficients stay in the accelerator.  After a failure the message comes back from task
    RAM into [s_uart_msg], where the caller's message lies ([with_uart_msg]). *)
Definition hw_coef_backend : lmots_coef_backend_fn :=
  fun client I_ _ q c message lmots_type => on_statics (
    update_client client (fun cl => cl {{ coef_ready := 0 }}) ;;
    m ← get_fw;
    let in_ram := negb (s_msg_in_ram m =? 0) && (74 <? cbuf_len message) in
    let msg := if in_ram then NullBuf (cbuf_len message) else message in
    r ← mmio_try (lms_mmio_msg_q_coef client (Some I_) q (Some c) msg lmots_type NULL NULL);
    match r with
    | Some _ =>
        put_fw (fun m => m {{ s_msg_in_ram := 0 }}) ;;
        update_client client (fun cl => cl {{ coef_ready := 1 }}) ;;
        mret (indet (LMS_N + 2), indet LMS_MAX_OTS_P)
    | None =>
        guard_err (cbuf_null message && negb (cbuf_len message =? 0)) UNDEFINED ;;
        (if cbuf_null msg then
           b ← task_read_words 582 (cbuf_len message);
           put_fw (fun m => m {{ s_uart_msg := splice 0 b (s_uart_msg m) }})
         else mret tt) ;;
        put_fw (fun m => m {{ s_msg_in_ram := 0 }}) ;;
        fail LMS_ERR_INVALID
    end).

(** * Signing and verification *)

(** [if (client->coef_ready) { client->coef_ready = 0; .. NULL .. } else .. coefficients ..] *)
Definition take_coefficients (client : ptr) (coefficients : bytes) : C (option bytes) :=
  c ← get_client client;
  if negb (coef_ready c =? 0) then
    update_client client (fun c => c {{ coef_ready := 0 }}) ;; mret None
  else mret (Some coefficients).

Definition hw_verify_leaf : lmots_verify_leaf_backend_fn :=
  fun client I_ hash_alg q lmots_type coefficients inputs node_num => on_statics (
    check_hash_alg client hash_alg ;;
    coefs ← take_coefficients client coefficients;
    lms_output (lms_mmio_lmots_verify_leaf client (Some I_) q node_num lmots_type coefs (Some inputs) local_ptr)).

Definition hw_verify_leaf_taskram : lmots_verify_leaf_backend_fn :=
  fun client I_ hash_alg q lmots_type coefficients _ node_num => on_statics (
    check_hash_alg client hash_alg ;;
    coefs ← take_coefficients client coefficients;
    lms_output (lms_mmio_lmots_verify_leaf_taskram client (Some I_) q node_num lmots_type coefs local_ptr)).

Definition hw_sign : lmots_sign_backend_fn :=
  fun client I_ hash_alg q lmots_type coefficients => on_statics (
    check_hash_alg client hash_alg ;;
    c ← get_client client;
    coefs ← take_coefficients client coefficients;
    lms_output (lms_mmio_lmots_sign client (key_handle c) (Some I_) q lmots_type coefs local_ptr)).

(** The chain values stay in task RAM: nothing is written. *)
Definition hw_sign_taskram : lmots_sign_backend_fn :=
  fun client I_ hash_alg q lmots_type coefficients => on_statics (
    check_hash_alg client hash_alg ;;
    c ← get_client client;
    coefs ← take_coefficients client coefficients;
    lms_status (lms_mmio_lmots_sign_taskram client (key_handle c) (Some I_) q lmots_type coefs) ;;
    mret []).

Definition hw_dintr_authpath : lms_verify_authpath_backend_fn :=
  fun client I_ _ node_num leaf path height => on_statics (
    task_write_words 32 leaf LMS_N ;;
    task_write_words 40 path (u32 (height * LMS_N)) ;;
    loopM 4 0 (fun k _ => MMIO32_set (LMS_IDENTIFIER + 4 * k) (load_le32 I_ (4 * k))) tt ;;
    MMIO32_set LMS_ARG_LEAF_NODE node_num ;;
    MMIO32_set LMS_ARG_STEPS height ;;
    MMIO32_set LMS_COMMAND LMS_CMD_D_INTR_CHAIN ;;
    MMIO32_set LMS_OUTPUT_LENGTH LMS_N ;;
    MMIO32 LMS_STATUS ;;
    MMIO32_set LMS_CONTROL LMS_CTRL_START ;;
    wait_not_busy OUT_OF_FUEL ;;
    status ← MMIO32 LMS_STATUS;
    (* [||] reads the error register only when the status is DONE *)
    bad ← (if (status .& LMS_STATUS_DONE) =? 0 then mret true
           else error ← MMIO32 LMS_ERROR; mret (negb (error =? 0)));
    if bad : bool then
      error ← MMIO32 LMS_ERROR;
      update_client client (fun c => c {{ last_hw_error := u8 error }}) ;;
      fail LMS_ERR_INVALID
    else
      cycles ← MMIO32 LMS_CYCLE_COUNT;
      update_client client (fun c =>
        c {{ hardware_hash_once_count := u64 (hardware_hash_once_count c + 1);
             hardware_hash_once_cycles := u64 (hardware_hash_once_cycles c + cycles) }}) ;;
      loopM 8 0 (fun k out => w ← MMIO32 (LMS_OUTPUT + 4 * k); mret (out ++ store_le32 w)) []).

(** * Registration *)

Definition set_hw_lmots (enable : bool) : F unit :=
  m ← get_fw;
  if negb enable then
    library (
      lms_mmio_lmots_keygen_disable ;;
      lms_mmio_lmots_sign_disable ;;
      lms_mmio_lmots_verify_disable ;;
      lmots_verify_leaf_backend_set None NULL ;;
      lmots_coef_backend_set None NULL) ;;
    put_fw (fun m => m {{ s_hw_lmots_enabled := 0 }})
  else if s_hw_lmots_enabled m =? 1 then mret tt
  else
    keygen ← driver (lms_mmio_lmots_keygen_enable_insecure verify_client);
    verify ← (if is_ok keygen then driver (lms_mmio_lmots_verify_enable verify_client) else mret keygen);
    sign ← (if is_ok verify then driver (lms_mmio_lmots_sign_enable_insecure verify_client) else mret verify);
    if is_ok sign then
      library (
        lmots_verify_leaf_backend_set (Some hw_verify_leaf) verify_client ;;
        lmots_coef_backend_set (Some hw_coef_backend) verify_client) ;;
      put_fw (fun m => m {{ s_hw_lmots_enabled := 1 }})
    else mret tt.

(** * The seed slot *)

Definition fw_seed_load (seed : bytes) : F bool :=
  m ← get_fw;
  if negb (s_seed_slot_valid m =? 0) && bool_decide (s_seed_slot m = seed) then mret true
  else
    r ← driver (Mmio.lms_mmio_seed_load_test verify_client 0 (Some seed));
    if is_ok r then
      put_fw (fun m => m {{ s_seed_slot := seed; s_seed_slot_valid := 1 }}) ;; mret true
    else mret false.
End Helpers.
