(* ===== verification/FwTree.v ===== *)
(** The cached trees of fw/lms_soc_smoke.c: the one of the test commands, the one of the secure
    domain, and the one of the pure-software build, each bound to a key by a fingerprint and
    built in a static pool.

    The contents of a context lie in the arena: the two contexts of the hardware build share
    one, and the model keeps its contents once ([s_tree_levels]), so that a context whose
    memory was handed out again reads what the other one put there. *)

From S2P Require Import Prelude Types HashApi Params LmOts Tree Subtree FwPool MmioRegs Mmio SecState RndTrng FwStatics FwSerial FwBackends.

Definition TREE_MEMORY_TARGET : Z := 12288.

Section FwTree.
Context `{P : Platform} `{Hh : HashApi} `{Mm : !Mmio} `{Fm : !FwMem} `{Bd : FwBuild}.

(** * The pool as the allocator of a context *)

Definition tree_pool_alloc : lms_tree_alloc_fn :=
  fun _ size d =>
    let '(p, pool) := pool_alloc s_tree_arena size (s_tree_pool (fw_at d)) in
    (p, set_fw ((fw_at d) {{ s_tree_pool := pool }}) d).

Definition tree_pool_free : lms_tree_free_fn :=
  fun _ p d => set_fw ((fw_at d) {{ s_tree_pool := pool_free p (s_tree_pool (fw_at d)) }}) d.

Definition tree_pool_reset : F unit := put_fw (fun m => m {{ s_tree_pool := pool_reset }}).

(** * A context in the statics *)

(** The context, with what the arena holds. *)
Definition tree_ctx (h : tree_head) (levels : list lms_sublevel_t) : lms_tree_ctx_t :=
  mkTree (th_lms_type h) (th_height h) (th_n h) (th_subtree_size h) (th_sublevels h) (th_top_subtree_size h)
    (th_hash_alg h) (th_I h) (th_levels h) levels None NULL
    (if th_leaf_fn h then Some hw_keygen_leaf else None) (if th_leaf_fn h then verify_client else NULL)
    (if th_alloc h then Some tree_pool_alloc else None) (if th_alloc h then Some tree_pool_free else None) NULL.

Definition is_some {A} (o : option A) : bool := match o with Some _ => true | None => false end.

Definition tree_head_of (c : lms_tree_ctx_t) : tree_head :=
  mkTreeHead (tc_lms_type c) (tc_height c) (tc_n c) (tc_subtree_size c) (tc_sublevels c) (tc_top_subtree_size c)
    (tc_hash_alg c) (tc_I c) (tc_levels c) (is_some (tc_leaf_fn c)) (is_some (tc_alloc c)).

(** Which of the two contexts. *)
Inductive which_tree := TestTree | SecTree.

Definition head_at (t : which_tree) (m : fw_t) : tree_head :=
  match t with TestTree => s_tree_ctx m | SecTree => s_sec_tree_ctx m end.
Definition put_head (t : which_tree) (h : tree_head) (m : fw_t) : fw_t :=
  match t with TestTree => m {{ s_tree_ctx := h }} | SecTree => m {{ s_sec_tree_ctx := h }} end.
Definition head_addr (t : which_tree) : ptr :=
  match t with TestTree => tree_ctx_addr | SecTree => sec_tree_ctx_addr end.

(** A call with [&s_tree_ctx] or [&s_sec_tree_ctx].  The array of the levels is written where the
    context has it: a call that ends without an array leaves the memory of the arena to what it
    did before. *)
Definition on_tree {A} (t : which_tree) (m : TM A) : F (result lms_status_t A) :=
  fun w =>
    let fw := fw_at (device w) in
    let '(r, s) := m (mkTmem w (tree_ctx (head_at t fw) (s_tree_levels fw)) []) in
    let levels := tc_level (t_ctx s) in
    let update m := put_head t (tree_head_of (t_ctx s))
                      (m {{ s_tree_levels := if bool_decide (levels = []) then s_tree_levels m else levels }}) in
    (match r with Err UNDEFINED => Err FW_UNDEFINED | _ => Ok r end,
     (t_world s) {{ device := set_fw (update (fw_at (device (t_world s)))) (device (t_world s)) }}).

(** * The cache of the test commands *)

Definition tree_fingerprint (priv : lms_private_key_t) : bytes :=
  priv_I priv ++ priv_seed priv ++ lms_store_u32 (priv_lms_type priv) ++ lms_store_u32 (priv_lmots_type priv).

Definition tree_cache_invalidate : F unit :=
  library (lms_auth_path_backend_set None NULL) ;;
  on_tree TestTree (lms_tree_ctx_free tree_ctx_addr) ;;
  put_fw (fun m => m {{ s_tree_cache_valid := 0 }}).

Definition tree_cache_hit (priv : lms_private_key_t) : F bool :=
  m ← get_fw;
  mret (negb (s_tree_cache_valid m =? 0) && bool_decide (s_tree_key_fingerprint m = tree_fingerprint priv)).

(** [lms_tree_configure(..)] and the tests of what it chose. *)
Definition tree_configure (priv : lms_private_key_t) : F (option lms_tree_config_t) :=
  r ← library (lms_tree_configure (priv_lms_type priv) TREE_MEMORY_TARGET local_ptr);
  mret (match r with
        | Ok cfg =>
            if negb (cfg_subtree_size cfg =? 5)
               || (sizeof_tree_arena <? u64 (cfg_est_memory cfg + u64 (cfg_sublevels cfg * sizeof_lms_sublevel)))
            then None else Some cfg
        | Err _ => None
        end).

(** [lms_subtree_auth_path_backend] as registered, with [&s_tree_ctx].  A callback gets the device
    only; [B] is the table of backends at the time of the call. *)
Definition tree_path_backend (B : backends) : lms_auth_path_backend_fn :=
  fun context priv q d =>
    let '(r, w) := on_tree TestTree (lms_subtree_auth_path_backend context (Some priv) q local_ptr)
                     (mkWorld None None (mkStats 0 0) B d) in
    (match r with Ok r => r | Err _ => Err UNDEFINED end, device w).

Definition set_path_backend : F unit :=
  fun w => (Ok tt, snd (lms_auth_path_backend_set (Some (tree_path_backend (bk w))) tree_ctx_addr w)).

(** Before a call of the library that may ask for a path: the registered backend sees the table as
    it is then. *)
Definition bind_path_backend : F unit :=
  fun w =>
    let slot := auth_path_backend (bk w) in
    if is_some (slot_fn slot) && (slot_context slot =? tree_ctx_addr) then set_path_backend w else (Ok tt, w).

(** [lmots_hw_supported], which never fails. *)
Definition hw_supported (lmots_type : Z) : F bool :=
  r ← library (lmots_hw_supported lmots_type);
  mret (match r with Ok b => b | Err _ => false end).

Definition tree_cache_ensure (priv : lms_private_key_t) : F bool :=
  hit ← tree_cache_hit priv;
  if hit : bool then mret true
  else
    tree_cache_invalidate ;;
    cfg ← tree_configure priv;
    match cfg with
    | None => mret false
    | Some cfg =>
        tree_pool_reset ;;
        r ← on_tree TestTree (lms_tree_ctx_init tree_ctx_addr (Some cfg) (Some (priv_I priv)) None NULL
              (Some tree_pool_alloc) (Some tree_pool_free) NULL);
        if negb (is_ok r) then mret false
        else
          hw ← hw_supported (priv_lmots_type priv);
          (if hw : bool then
             on_tree TestTree (lms_subtree_set_leaf_fn tree_ctx_addr (Some hw_keygen_leaf) verify_client) ;; mret tt
           else mret tt) ;;
          library (lms_intr_backend_set (Some hw_intr_backend) verify_client) ;;
          r ← on_tree TestTree (lms_tree_sign_init tree_ctx_addr (Some priv));
          if negb (is_ok r) then tree_cache_invalidate ;; mret false
          else
            put_fw (fun m => m {{ s_tree_key_fingerprint := tree_fingerprint priv; s_tree_cache_valid := 1 }}) ;;
            set_path_backend ;;
            mret true
    end.

(** [s_tree_ctx.levels[sublevels - 1].active.nodes + LMS_N], the root a key generation reads. *)
Definition tree_top_root (t : which_tree) : F bytes :=
  m ← get_fw;
  let c := tree_ctx (head_at t m) (s_tree_levels m) in
  mret (slice (1 * LMS_N) LMS_N (b_data (st_nodes (sub_of c (SubActive (tc_sublevels c - 1)))))).

(** * The cache of the secure domain *)

Definition sec_tree_fingerprint (priv : lms_private_key_t) : bytes :=
  priv_I priv ++ lms_store_u32 (priv_lms_type priv) ++ lms_store_u32 (priv_lmots_type priv).

Definition sec_tree_cache_invalidate : F unit :=
  on_tree SecTree (lms_tree_ctx_free sec_tree_ctx_addr) ;;
  put_fw (fun m => m {{ s_sec_tree_valid := 0 }}).

Definition sec_tree_cache_ensure (priv : lms_private_key_t) : F bool :=
  m ← get_fw;
  if negb (s_sec_tree_valid m =? 0) && bool_decide (s_sec_tree_fingerprint m = sec_tree_fingerprint priv) then mret true
  else
    sec_tree_cache_invalidate ;;
    cfg ← tree_configure priv;
    match cfg with
    | None => mret false
    | Some cfg =>
        tree_pool_reset ;;
        r ← on_tree SecTree (lms_tree_ctx_init sec_tree_ctx_addr (Some cfg) (Some (priv_I priv)) None NULL
              (Some tree_pool_alloc) (Some tree_pool_free) NULL);
        if negb (is_ok r) then mret false
        else
          hw ← hw_supported (priv_lmots_type priv);
          if negb hw then sec_tree_cache_invalidate ;; mret false
          else
            on_tree SecTree (lms_subtree_set_leaf_fn sec_tree_ctx_addr (Some hw_keygen_leaf) verify_client) ;;
            library (lms_intr_backend_set (Some hw_intr_backend) verify_client) ;;
            r ← on_tree SecTree (lms_tree_sign_init sec_tree_ctx_addr (Some priv));
            if negb (is_ok r) then sec_tree_cache_invalidate ;; mret false
            else
              put_fw (fun m => m {{ s_sec_tree_fingerprint := sec_tree_fingerprint priv; s_sec_tree_valid := 1 }}) ;;
              mret true
    end.

(** * The cache of the software build

    Its statics [s_sw_*] stand where the hardware build has those of the test commands. *)

Definition sw_tree_cache_ensure (priv : lms_private_key_t) : F bool :=
  hit ← tree_cache_hit priv;
  if hit : bool then mret true
  else
    library (lms_auth_path_backend_set None NULL) ;;
    on_tree TestTree (lms_tree_ctx_free tree_ctx_addr) ;;
    put_fw (fun m => m {{ s_tree_cache_valid := 0 }}) ;;
    cfg ← tree_configure priv;
    match cfg with
    | None => mret false
    | Some cfg =>
        tree_pool_reset ;;
        r ← on_tree TestTree (lms_tree_ctx_init tree_ctx_addr (Some cfg) (Some (priv_I priv)) None NULL
              (Some tree_pool_alloc) (Some tree_pool_free) NULL);
        if negb (is_ok r) then mret false
        else
          r ← on_tree TestTree (lms_tree_sign_init tree_ctx_addr (Some priv));
          if negb (is_ok r) then
            on_tree TestTree (lms_tree_ctx_free tree_ctx_addr) ;;
            put_fw (fun m => m {{ s_tree_cache_valid := 0 }}) ;;
            mret false
          else
            put_fw (fun m => m {{ s_tree_key_fingerprint := tree_fingerprint priv; s_tree_cache_valid := 1 }}) ;;
            set_path_backend ;;
            mret true
    end.
End FwTree.
