(* ===== verification/FwHandlers.v ===== *)
(** The test commands of fw/lms_soc_smoke.c: signature verification, signing and key generation
    of LMS and of LM-OTS over the serial line, and the loads of a seed and of a randomizer.

    A handler returns what it writes through its output pointers ([work_t]); the dispatcher
    has zeroed them.  Signatures are written to [s_uart_sig], the buffer every caller
    passes.  Cycle counts of the profiling build are left out. *)

From S2P Require Import Prelude Types HashApi Params LmOts Tree Lms Subtree FwPool MmioRegs Mmio SecState RndTrng FwCrc FwStatics FwSerial FwBackends FwTree.

Record work_t := mkWork {
  w_status : Z;
  w_error : Z;                           (* c_load_from_uart only *)
  w_value : Z;                           (* response_value *)
  w_signature_length : Z;
  w_public : bytes;                      (* the public key, public_key_length bytes *)
  w_cycles : Z;
  w_total : Z;
  w_steady : Z;
  w_parse : Z;
  w_sign : Z
}.

Definition no_work : work_t := mkWork 0 0 0 0 [] 0 0 0 0 0.

Section Handlers.
Context `{P : Platform} `{Hh : HashApi} `{Mm : !Mmio} `{Fm : !FwMem} `{Bd : FwBuild}.

(** [return ok ? LMS_STATUS_DONE : 0u] *)
Definition done_if (ok : bool) : Z := if ok then LMS_STATUS_DONE else 0.

Definition soc_cycles : F Z := MMIO32 SOC_CYCLE_COUNT.
Definition clear_hw_error : F unit := set_the_client (fun c => c {{ last_hw_error := 0 }}).

(** [(uint32_t)(client.f - f_before) + ..] *)
Definition counted (fields : list (lms_mmio_client_t -> Z)) (before after : lms_mmio_client_t) : Z :=
  fold_left (fun s f => u32 (s + u32 (u64 (f after - f before)))) fields 0.

(** [hardware_hits += ..] over the counters; the cycles. *)
Definition count_work (counts cycles : list (lms_mmio_client_t -> Z)) (before : lms_mmio_client_t) : F Z :=
  c ← the_client;
  add_hits (counted counts before c) ;;
  mret (counted cycles before c).

(** A value of the library that cannot fail. *)
Definition library_value (m : C Z) : F Z := r ← library m; mret (match r with Ok v => v | Err _ => 0 end).

Definition store_message (message_length : Z) : F unit :=
  b ← uart_read_bytes message_length;
  put_fw (fun m => m {{ s_uart_msg := splice 0 b (s_uart_msg m) }}).

(** The message of VERIFY and SIGN: a long one goes to task RAM. *)
Definition receive_message (message_length : Z) : F unit :=
  put_fw (fun m => m {{ s_msg_in_ram := 0 }}) ;;
  if negb LMS_FW_NO_HW_ACCEL && (74 <? message_length) then
    ok ← bridge_run BRIDGE_DIR_RX 582 ((message_length + 3) .& Z.lnot 3);
    if ok : bool then put_fw (fun m => m {{ s_msg_in_ram := 1 }}) else store_message message_length
  else store_message message_length.

(** [task_read_words(582u, s_uart_msg, message_length); s_msg_in_ram = 0;] *)
Definition fetch_message (message_length : Z) : F unit :=
  b ← task_read_words 582 message_length;
  put_fw (fun m => m {{ s_uart_msg := splice 0 b (s_uart_msg m); s_msg_in_ram := 0 }}).

(** A call that is passed [s_uart_msg].  The buffer changes at most once while it runs, in the
    coefficient callback and before the message is looked at (the accelerator has it then): the
    message the call works on is the one the buffer holds when it returns. *)
Definition with_uart_msg {A} (call : bytes -> F A) : F A := fun w =>
  let msg := s_uart_msg (fw_at (device w)) in
  let '(r, w') := call msg w in
  let msg' := s_uart_msg (fw_at (device w')) in
  if bool_decide (msg' = msg) then (r, w') else call msg' w.

(** A call that signs into [s_uart_sig], with [written = 0] before: the outcome, the key and
    [written]. *)
Definition on_sig {A} (priv : lms_private_key_t) (m : SM A) : F (bool * lms_private_key_t * Z) := fun w =>
  let '(r, s) := m (mkSmem w (s_uart_sig (fw_at (device w))) priv (Some 0)) in
  let w' := wld s in
  (match r with
   | Err UNDEFINED => Err FW_UNDEFINED
   | _ => Ok (is_ok r, key s, match sig_written s with Some n => n | None => 0 end)
   end,
   w' {{ device := set_fw ((fw_at (device w')) {{ s_uart_sig := sig s }}) (device w') }}).

Definition sig_store (base : Z) (b : bytes) : F unit := put_fw (fun m => m {{ s_uart_sig := splice base b (s_uart_sig m) }}).

(** * VERIFY *)

(** The chain values: to task RAM through the bridge ([Some true]) or to [s_uart_sig]; [None] when
    the bridge fails. *)
Definition receive_values (in_ram : bool) (header : bytes) (y_len : Z) : F (option bool) :=
  if in_ram then
    ok ← bridge_run BRIDGE_DIR_RX BRIDGE_Y_ADDR y_len;
    mret (if ok : bool then Some true else None)
  else
    sig_store 0 header ;;
    y ← uart_read_bytes y_len;
    sig_store (len header) y ;;
    mret (Some false).

Definition verify_values (message_length : Z) (header : bytes) (ots_type y_len : Z) : F (option bool) :=
  if LMS_FW_NO_HW_ACCEL then receive_values false header y_len
  else
    hw ← hw_supported ots_type;
    set_hw_lmots hw ;;
    m ← get_fw;
    (if negb (s_msg_in_ram m =? 0) && negb hw then fetch_message message_length else mret tt) ;;
    receive_values
      (if bool_decide (FW_HASH_ALG = LMS_HASH_SHAKE256)
       then 32 + y_len / 4 <=? (if message_length <=? 74 then mqc_msg_base y_len else 568)
       else (message_length <=? 74) && (32 + y_len / 4 <=? mqc_msg_base y_len))
      header y_len.

Definition verify_counts : list (lms_mmio_client_t -> Z) := [hardware_verify_count; hardware_hash_once_count].
Definition verify_cycles : list (lms_mmio_client_t -> Z) := [hardware_verify_cycles; hardware_hash_once_cycles].

(** Everything is received: parse and verify. *)
Definition verify_received (public_key_bytes : bytes) (message_length signature_length ots_type : Z) (y_in_taskram : bool)
    : F work_t :=
  total_start ← soc_cycles;
  before ← the_client;
  clear_hw_error ;;
  hw ← hw_supported ots_type;
  let hw := negb LMS_FW_NO_HW_ACCEL && hw in
  (if hw && y_in_taskram then library (lmots_verify_leaf_backend_set (Some hw_verify_leaf_taskram) verify_client) ;; mret tt
   else mret tt) ;;
  r ← library (lms_public_key_parse local_ptr (Buf public_key_bytes));
  ok ← match r with
       | Ok public_key =>
           with_uart_msg (fun msg =>
             m ← get_fw;
             r ← library (lms_verify (Some public_key) (Buf (slice 0 message_length msg))
                            (Buf (slice 0 signature_length (s_uart_sig m))));
             mret (is_ok r))
       | Err _ => mret false
       end;
  (if hw then library (lmots_verify_leaf_backend_set (Some hw_verify_leaf) verify_client) ;; mret tt else mret tt) ;;
  cycles ← count_work verify_counts verify_cycles before;
  total_end ← soc_cycles;
  mret (no_work {{ w_status := done_if ok; w_cycles := cycles; w_total := u32 (total_end - total_start) }}).

Definition verify_from_uart : F work_t :=
  public_key_bytes ← uart_read_bytes LMS_PUBLIC_KEY_LEN;
  message_length ← uart_get_u16;
  if VERIFY_MESSAGE_MAX <? message_length then
    uart_discard (message_length + LMS_MAX_SIGNATURE_LEN) ;; clear_hw_error ;; mret no_work
  else
    receive_message message_length ;;
    header ← uart_read_bytes 40;
    let ots_type := lms_load_u32 (from 4 header) in
    y_len ← library_value (lmots_y_len_type ots_type);
    if y_len =? 0 then uart_discard (LMS_MAX_SIGNATURE_LEN - 40) ;; clear_hw_error ;; mret no_work
    else
      placed ← verify_values message_length header ots_type y_len;
      match placed with
      | None => mret no_work
      | Some y_in_taskram =>
          tail ← uart_read_bytes 4;
          put_fw (fun m => m {{ s_uart_auth_tail := splice 0 tail (s_uart_auth_tail m) }}) ;;
          signature_length ← library_value (lms_signature_len (lms_load_u32 tail) ots_type);
          if (signature_length <? u32 (40 + y_len + 4 + LMS_N)) || (LMS_MAX_SIGNATURE_LEN <? signature_length) then
            uart_discard LMS_MAX_SIGNATURE_LEN ;; clear_hw_error ;; mret no_work
          else
            let path_len := signature_length - (40 + y_len + 4) in
            path ← uart_read_bytes path_len;
            put_fw (fun m => m {{ s_uart_auth_tail := splice 4 path (s_uart_auth_tail m) }}) ;;
            (if y_in_taskram : bool then sig_store 0 header else mret tt) ;;
            m ← get_fw;
            sig_store (40 + y_len) (slice 0 (4 + path_len) (s_uart_auth_tail m)) ;;
            verify_received public_key_bytes message_length signature_length ots_type y_in_taskram
      end.

(** * SIGN *)

Definition tree_cache_of_build (priv : lms_private_key_t) : F bool :=
  if LMS_FW_NO_HW_ACCEL then sw_tree_cache_ensure priv else tree_cache_ensure priv.

(** The switch, the message and the tree before the signature. *)
Definition sign_prepare (priv : lms_private_key_t) (message_length : Z) : F unit :=
  if LMS_FW_NO_HW_ACCEL then
    if LMS_FW_NO_TREE_CACHE then mret tt else sw_tree_cache_ensure priv ;; mret tt
  else
    hw ← hw_supported (priv_lmots_type priv);
    set_hw_lmots hw ;;
    m ← get_fw;
    hit ← tree_cache_hit priv;
    (if negb (s_msg_in_ram m =? 0) && (negb hw || negb hit) then fetch_message message_length else mret tt) ;;
    tree_cache_ensure priv ;;
    fw_seed_load (priv_seed priv) ;;
    mret tt.

Definition sign_counts : list (lms_mmio_client_t -> Z) :=
  [hardware_chain_count; hardware_derive_count; hardware_sign_count; hardware_keygen_count; hardware_hash_once_count].
Definition sign_cycle_counters : list (lms_mmio_client_t -> Z) :=
  [hardware_chain_cycles; hardware_derive_cycles; hardware_sign_cycles; hardware_keygen_cycles; hardware_hash_once_cycles].

(** From the expected length to the steady cycle count: the counters before, success, [written],
    the key's new index and the steady cycles. *)
Definition sign_received (priv : lms_private_key_t) (message_length : Z) : F (lms_mmio_client_t * bool * Z * Z * Z) :=
  expected_sig_len ← library_value (lms_signature_len (priv_lms_type priv) (priv_lmots_type priv));
  steady_start ← soc_cycles;
  before ← the_client;
  put_fw (fun m => m {{ sign_y_in_taskram := 0 }}) ;;
  hw ← hw_supported (priv_lmots_type priv);
  (if LMS_FW_NO_HW_ACCEL then trigger_hash
   else if hw : bool then library (lmots_sign_backend_set (Some hw_sign_taskram) verify_client) ;; mret tt
   else mret tt) ;;
  bind_path_backend ;;
  '(ok, priv', written) ← with_uart_msg (fun msg =>
    on_sig priv (lms_sign local_ptr (Buf (slice 0 message_length msg)) local_ptr 0 LMS_MAX_SIGNATURE_LEN local_ptr));
  let ok := ok && (written =? expected_sig_len) in
  (if LMS_FW_NO_HW_ACCEL then mret tt
   else
     library (lmots_sign_backend_set (Some hw_sign) verify_client) ;;
     if ok && hw then
       y_len ← library_value (lmots_y_len_type (priv_lmots_type priv));
       put_fw (fun m => m {{ sign_y_in_taskram := 1; sign_y_len := y_len }})
     else mret tt) ;;
  steady_end ← soc_cycles;
  mret (before, ok, written, priv_q priv', u32 (steady_end - steady_start)).

(** The private key as received: the software build takes its seed from the slot. *)
Definition slot_seed (private_key_bytes : bytes) : F bytes :=
  m ← get_fw;
  mret (if LMS_FW_NO_HW_ACCEL && negb (s_seed_slot_valid m =? 0) then splice 24 (s_seed_slot m) private_key_bytes
        else private_key_bytes).

Definition sign_from_uart : F work_t :=
  private_key_bytes ← uart_read_bytes LMS_PRIVATE_KEY_LEN;
  message_length ← uart_get_u16;
  if VERIFY_MESSAGE_MAX <? message_length then uart_discard message_length ;; clear_hw_error ;; mret no_work
  else
    receive_message message_length ;;
    private_key_bytes ← slot_seed private_key_bytes;
    total_start ← soc_cycles;
    clear_hw_error ;;
    parse_start ← soc_cycles;
    r ← library (lms_private_key_parse local_ptr (Buf private_key_bytes));
    parse_end ← soc_cycles;
    '(before, ok, written, next_q, steady) ← match r with
      | Ok priv => sign_prepare priv message_length ;; sign_received priv message_length
      | Err _ => before ← the_client; mret (before, false, 0, 0, 0)
      end;
    cycles ← count_work sign_counts sign_cycle_counters before;
    total_end ← soc_cycles;
    mret (no_work {{ w_status := done_if ok; w_value := next_q; w_signature_length := written; w_cycles := cycles;
                     w_total := u32 (total_end - total_start); w_steady := steady;
                     w_parse := u32 (parse_end - parse_start) }}).

(** * KEYGEN *)

Definition keygen_counts : list (lms_mmio_client_t -> Z) :=
  [hardware_chain_count; hardware_derive_count; hardware_keygen_count; hardware_hash_once_count].
Definition keygen_cycle_counters : list (lms_mmio_client_t -> Z) :=
  [hardware_chain_cycles; hardware_derive_cycles; hardware_keygen_cycles; hardware_hash_once_cycles].

(** The root from the cached tree, or from the library. *)
Definition keygen_public (priv : lms_private_key_t) : F (option lms_public_key_t) :=
  (if LMS_FW_NO_HW_ACCEL then mret tt
   else
     hw ← hw_supported (priv_lmots_type priv);
     set_hw_lmots hw ;;
     fw_seed_load (priv_seed priv) ;;
     mret tt) ;;
  cached ← (if LMS_FW_NO_HW_ACCEL && LMS_FW_NO_TREE_CACHE then mret false else tree_cache_of_build priv);
  if cached : bool then
    root ← tree_top_root TestTree;
    mret (Some (mkPub (priv_lms_type priv) (priv_lmots_type priv) (priv_I priv) root))
  else
    r ← library (lms_public_key_generate (Some priv) local_ptr);
    mret (match r with Ok pub => Some pub | Err _ => None end).

(** The serialized key; [None] when there is none. *)
Definition serialized (pub : option lms_public_key_t) : option bytes :=
  match pub with
  | Some _ => match lms_public_key_serialize pub local_ptr LMS_PUBLIC_KEY_LEN with Ok b => Some b | Err _ => None end
  | None => None
  end.

Definition keygen_from_uart : F work_t :=
  private_key_bytes ← uart_read_bytes LMS_PRIVATE_KEY_LEN;
  private_key_bytes ← slot_seed private_key_bytes;
  total_start ← soc_cycles;
  before ← the_client;
  clear_hw_error ;;
  r ← library (lms_private_key_parse local_ptr (Buf private_key_bytes));
  pub ← match r with Ok priv => keygen_public priv | Err _ => mret None end;
  cycles ← count_work keygen_counts keygen_cycle_counters before;
  total_end ← soc_cycles;
  let out := serialized pub in
  mret (no_work {{ w_status := done_if (is_some out); w_public := match out with Some b => b | None => [] end;
                   w_cycles := cycles; w_total := u32 (total_end - total_start) }}).

(** * LM-OTS *)

Definition lmots_keygen_from_uart : F work_t :=
  private_key_bytes ← uart_read_bytes LMS_PRIVATE_KEY_LEN;
  total_start ← soc_cycles;
  before ← the_client;
  clear_hw_error ;;
  r ← library (lms_private_key_parse local_ptr (Buf private_key_bytes));
  public ← match r with
    | Ok priv =>
        (if LMS_FW_NO_HW_ACCEL then mret tt
         else
           hw ← hw_supported (priv_lmots_type priv);
           set_hw_lmots hw ;;
           fw_seed_load (priv_seed priv) ;;
           mret tt) ;;
        r ← library (lmots_public_from_private priv (priv_q priv));
        mret (match r with Ok b => Some b | Err _ => None end)
    | Err _ => mret None
    end;
  cycles ← count_work [hardware_chain_count; hardware_derive_count; hardware_keygen_count]
             [hardware_chain_cycles; hardware_derive_cycles; hardware_keygen_cycles] before;
  total_end ← soc_cycles;
  mret (no_work {{ w_status := done_if (is_some public); w_public := match public with Some b => b | None => [] end;
                   w_cycles := cycles; w_total := u32 (total_end - total_start) }}).

(** [verify_client.coef_ready ? NULL : coefficients] *)
Definition unless_ready (coefficients : bytes) : F (option bytes) :=
  c ← the_client;
  mret (if negb (coef_ready c =? 0) then None else Some coefficients).

(** The signature by software, whole in [s_uart_sig]. *)
Definition lmots_sign_software (priv : lms_private_key_t) (message_length : Z) : F bool :=
  sig_len ← library_value (lmots_sig_len_priv priv);
  put_fw (fun m => m {{ lmots_out_sig_len := sig_len }}) ;;
  '(ok, _, _) ← with_uart_msg (fun msg =>
    on_sig priv (lmots_sign priv (priv_q priv) (Buf (slice 0 message_length msg)) local_ptr 0 sig_len));
  mret ok.

(** The signature by the accelerator: type and randomizer in [s_uart_sig], the rest in task RAM. *)
Definition lmots_sign_accelerated (priv : lms_private_key_t) (message_length : Z) : F bool :=
  r ← with_uart_msg (fun msg => library (lmots_sign_prepare priv (priv_q priv) (Buf (slice 0 message_length msg))));
  ok ← match r with
    | Ok (c, coefficients) =>
        sig_store 0 (lms_store_u32 (priv_lmots_type priv)) ;;
        sig_store 4 c ;;
        coefs ← unless_ready coefficients;
        r ← driver (lms_mmio_lmots_sign_taskram verify_client 0 (Some (priv_I priv)) (priv_q priv) (priv_lmots_type priv) coefs);
        set_the_client (fun c => c {{ coef_ready := 0 }}) ;;
        put_fw (fun m => m {{ sign_y_in_taskram := if is_ok r then 1 else 0 }}) ;;
        (if is_ok r then
           y_len ← library_value (lmots_y_len_type (priv_lmots_type priv));
           put_fw (fun m => m {{ sign_y_len := y_len }})
         else mret tt) ;;
        mret (is_ok r)
    | Err _ => mret false
    end;
  sig_len ← library_value (lmots_sig_len_priv priv);
  put_fw (fun m => m {{ lmots_out_sig_len := sig_len }}) ;;
  mret ok.

Definition lmots_sign_from_uart : F work_t :=
  private_key_bytes ← uart_read_bytes LMS_PRIVATE_KEY_LEN;
  message_length ← uart_get_u16;
  if VERIFY_MESSAGE_MAX <? message_length then
    uart_discard message_length ;;
    put_fw (fun m => m {{ sign_y_in_taskram := 0; lmots_out_sig_len := 0 }}) ;;
    mret no_work
  else
    store_message message_length ;;
    total_start ← soc_cycles;
    before ← the_client;
    clear_hw_error ;;
    parse_start ← soc_cycles;
    r ← library (lms_private_key_parse local_ptr (Buf private_key_bytes));
    parse_end ← soc_cycles;
    '(ok, sign, steady) ← match r with
      | Ok priv =>
          hw ← hw_supported (priv_lmots_type priv);
          (if LMS_FW_NO_HW_ACCEL then mret tt
           else set_hw_lmots hw ;; fw_seed_load (priv_seed priv) ;; mret tt) ;;
          steady_start ← soc_cycles;
          sign_start ← soc_cycles;
          put_fw (fun m => m {{ sign_y_in_taskram := 0 }}) ;;
          ok ← (if hw && negb LMS_FW_NO_HW_ACCEL then lmots_sign_accelerated priv message_length
                else lmots_sign_software priv message_length);
          sign_end ← soc_cycles;
          steady_end ← soc_cycles;
          mret (ok, u32 (sign_end - sign_start), u32 (steady_end - steady_start))
      | Err _ =>
          put_fw (fun m => m {{ sign_y_in_taskram := 0; lmots_out_sig_len := 0 }}) ;;
          mret (false, 0, 0)
      end;
    cycles ← count_work [hardware_chain_count; hardware_derive_count; hardware_sign_count]
               [hardware_chain_cycles; hardware_derive_cycles; hardware_sign_cycles] before;
    total_end ← soc_cycles;
    mret (no_work {{ w_status := done_if ok; w_cycles := cycles; w_total := u32 (total_end - total_start);
                     w_steady := steady; w_parse := u32 (parse_end - parse_start); w_sign := sign }}).

(** The public key a signature gives, by the accelerator: [None] ends the command at once, [Some]
    holds the candidate, if any, and the cycles. *)
Definition lmots_candidate_accelerated (I_ : bytes) (q signature_type message_length : Z) (c : bytes) (y_len : Z)
    (y_in_taskram : bool) : F (option (option bytes * Z)) :=
  before ← the_client;
  r ← with_uart_msg (fun msg =>
    library (lmots_public_from_signature_prepare I_ FW_HASH_ALG q signature_type (Buf (slice 0 message_length msg)) c));
  match r with
  | Err _ => mret None
  | Ok coefficients =>
      (if y_in_taskram then mret tt
       else m ← get_fw; task_write_words 32 (from 36 (s_uart_sig m)) y_len) ;;
      coefs ← unless_ready coefficients;
      r ← driver (lms_mmio_lmots_verify_taskram verify_client (Some I_) q signature_type coefs local_ptr);
      set_the_client (fun c => c {{ coef_ready := 0 }}) ;;
      after ← the_client;
      mret (Some (match r with Ok (out, _) => Some out | Err _ => None end,
                  u32 (u64 (hardware_verify_cycles after - hardware_verify_cycles before))))
  end.

Definition lmots_candidate_software (I_ : bytes) (q signature_type message_length sig_len : Z) : F (option (option bytes * Z)) :=
  r ← with_uart_msg (fun msg =>
    m ← get_fw;
    library (lmots_public_from_signature I_ FW_HASH_ALG q signature_type (Buf (slice 0 message_length msg))
               (Buf (slice 0 sig_len (s_uart_sig m)))));
  mret (Some (match r with Ok out => Some out | Err _ => None end, 0)).

(** C leaves the order of the four reads of the type open; the model takes the one the protocol
    needs. *)
Definition lmots_verify_from_uart : F work_t :=
  I_ ← uart_read_bytes LMS_I_LEN;
  q ← uart_get_u32;
  expected_public ← uart_read_bytes LMS_N;
  message_length ← uart_get_u16;
  if VERIFY_MESSAGE_MAX <? message_length then uart_discard (message_length + LMS_MAX_OTS_SIG_LEN) ;; mret no_work
  else
    store_message message_length ;;
    type_bytes ← uart_read_bytes 4;
    let signature_type := lms_load_u32 type_bytes in
    c ← uart_read_bytes LMS_N;
    y_len ← library_value (lmots_y_len_type signature_type);
    if y_len =? 0 then uart_discard (LMS_MAX_OTS_SIG_LEN - 36) ;; mret no_work
    else
      supported ← hw_supported signature_type;
      let hw := negb LMS_FW_NO_HW_ACCEL && supported in
      (if LMS_FW_NO_HW_ACCEL then mret tt else set_hw_lmots supported) ;;
      placed ← receive_values
        (hw && (32 + y_len / 4 <=? (if message_length <=? 74 then mqc_msg_base y_len else 568)))
        (lms_store_u32 signature_type ++ c) y_len;
      match placed with
      | None => mret no_work
      | Some y_in_taskram =>
          total_start ← soc_cycles;
          before ← the_client;
          clear_hw_error ;;
          candidate ← (if hw then lmots_candidate_accelerated I_ q signature_type message_length c y_len y_in_taskram
                       else lmots_candidate_software I_ q signature_type message_length (36 + y_len));
          match candidate with
          | None => mret no_work
          | Some (recovered, cycles) =>
              count_work [hardware_verify_count] [] before ;;
              total_end ← soc_cycles;
              mret (no_work {{ w_status := done_if (bool_decide (recovered = Some expected_public));
                               w_cycles := cycles; w_total := u32 (total_end - total_start) }})
          end
      end.

(** * Loads *)

Definition seed_load_from_uart : F work_t :=
  seed ← uart_read_bytes LMS_SEED_LEN;
  total_start ← soc_cycles;
  clear_hw_error ;;
  ok ← (if LMS_FW_NO_HW_ACCEL then mret true
        else r ← driver (Mmio.lms_mmio_seed_load_test verify_client 0 (Some seed)); mret (is_ok r));
  (if ok : bool then put_fw (fun m => m {{ s_seed_slot := seed; s_seed_slot_valid := 1 }}) else mret tt) ;;
  cycles ← (if LMS_FW_NO_HW_ACCEL then mret 0 else MMIO32 LMS_CYCLE_COUNT);
  total_end ← soc_cycles;
  mret (no_work {{ w_status := done_if ok; w_cycles := cycles; w_total := u32 (total_end - total_start) }}).

Definition c_load_from_uart : F work_t :=
  c ← uart_read_bytes LMS_N;
  if FW_TEST_MODE then
    put_fw (fun m => m {{ s_c_slot := c; s_c_slot_valid := 1 }}) ;;
    set_the_client (fun cl => cl {{ randomizer_c_slot := c_slot_addr }}) ;;
    mret (no_work {{ w_status := LMS_STATUS_DONE }})
  else mret (no_work {{ w_error := 0x0a }}).
End Handlers.
