(* ===== verification/FwServe.v ===== *)
(** The secure commands of fw/lms_soc_smoke.c, the dispatcher and the start of the firmware.

    The secure domain (SecState.v) runs on the firmware's own hardware: the driver, the random
    source that is linked in, and the statics behind the device, which its signing callback
    reaches. *)

From S2P Require Import Prelude Types HashApi Params LmOts Tree Lms Subtree FwPool MmioRegs Mmio MmioSec SecState RndTrng FwCrc FwStatics FwSerial FwNvm FwBackends FwTree FwHandlers.

Definition UART_REQUEST_HASH : Z := 0x48.
Definition UART_REQUEST_CHAIN : Z := 0x43.
Definition UART_REQUEST_VERIFY : Z := 0x56.
Definition UART_REQUEST_SIGN_TEST : Z := 0x53.
Definition UART_REQUEST_KEYGEN_TEST : Z := 0x4b.
Definition UART_REQUEST_LMOTS_KEYGEN_TEST : Z := 0x60.
Definition UART_REQUEST_LMOTS_SIGN_TEST : Z := 0x61.
Definition UART_REQUEST_LMOTS_VERIFY_TEST : Z := 0x62.
Definition UART_REQUEST_SEED_LOAD_TEST : Z := 0x63.
Definition UART_REQUEST_C_LOAD : Z := 0x6C.
Definition UART_REQUEST_SEC_LMS_SIGN : Z := 0x66.
Definition UART_REQUEST_SEC_LMS_KEYGEN : Z := 0x67.
Definition UART_REQUEST_SEC_LMS_KEYGEN_NEW : Z := 0x68.
Definition UART_RESPONSE : Z := 0x52.
Definition UART_REQUEST_NVM_SYNC : Z := 0x52.
Definition UART_REQUEST_SEC_STATE : Z := 0x55.
Definition UART_REQUEST_SEC_SIGN : Z := 0x54.
Definition UART_REQUEST_TRNG_READ : Z := 0x58.
Definition UART_REQUEST_TRNG_STATUS : Z := 0x59.
Definition UART_REQUEST_TRNG_READ_ACK : Z := 0x5A.
Definition UART_REQUEST_FLASH_PROBE : Z := 0x5B.
Definition UART_REQUEST_FLASH_PROG : Z := 0x5C.
Definition UART_REQUEST_FLASH_CMD : Z := 0x5D.
Definition UART_REQUEST_DERIVE_RANDOMIZER : Z := 0x6D.
Definition UART_REQUEST_PRF_CHAIN : Z := 0x6E.
Definition UART_REQUEST_DERIVE_XQ : Z := 0x6F.

(** [sec_sign_ctx_t]; [sc_base] is the offset of [ctx->signature] in [s_uart_sig]. *)
Record sec_sign_ctx_t := mkSignCtx {
  sc_private_key : lms_private_key_t;
  sc_message : bytes;
  sc_base : Z;
  sc_sign_rc : Z
}.

(** The numbers of [lms_status_t]. *)
Definition lms_status_value (e : lms_status_t) : Z :=
  match e with
  | LMS_OK => 0
  | LMS_ERR_INVALID => -1
  | LMS_ERR_BUFFER_TOO_SMALL => -2
  | LMS_ERR_EXHAUSTED => -3
  | LMS_ERR_VERIFY => -4
  | OUT_OF_FUEL => -5
  | UNDEFINED => -6
  end.

Section Secure.
Context `{P : Platform} `{Hh : HashApi} `{Mm : !Mmio} `{Fm : !FwMem} `{Bd : FwBuild}.

(** * The hardware of the secure domain *)

(** The world, the context of a signing call, and whether something undefined happened. *)
Record sec_world := mkSecWorld { sw_world : world; sw_ctx : sec_sign_ctx_t; sw_undefined : bool }.

(** A driver function there. *)
Definition sec_driver {A} (m : DM A) : M sec_world Z A := fun h =>
  let '(r, w) := m (sw_world h) in
  (match r with Ok a => Ok a | Err e => Err (mmio_status_code e) end,
   h {{ sw_world := w;
        sw_undefined := sw_undefined h || match r with Err MMIO_UNDEFINED => true | _ => false end }}).

#[export] Instance fw_sec_hw : SecHw := {|
  hw := sec_world;
  client_capabilities c h := capabilities (client_at c (device (sw_world h)));
  lms_mmio_hmac_kstate c msg := sec_driver (Mmio.lms_mmio_hmac_kstate c (Buf msg) local_ptr);
  lms_mmio_key_slot_load_test c slot key := sec_driver (Mmio.lms_mmio_key_slot_load_test c slot (Some key));
  lms_mmio_wrap_seed c := sec_driver (Mmio.lms_mmio_wrap_seed c local_ptr);
  lms_mmio_unwrap_seed c wrapped := sec_driver (Mmio.lms_mmio_unwrap_seed c (Some wrapped));
  lms_mmio_seed_load_test c key seed := sec_driver (Mmio.lms_mmio_seed_load_test c key (Some seed));
  lms_mmio_seed_load_safe c seed := sec_driver (Mmio.lms_mmio_seed_load_safe c (Some seed));
  lms_mmio_mc_step c := sec_driver (Mmio.lms_mmio_mc_step c);
  lms_mmio_mc_load c value := sec_driver (Mmio.lms_mmio_mc_load c value);
  lms_mmio_state_commit c st ctr aad := sec_driver (Mmio.lms_mmio_state_commit c st ctr aad local_ptr local_ptr);
  SecState.lms_rnd n h := let '(b, d) := fw_rnd n (device (sw_world h)) in (b, h {{ sw_world := (sw_world h) {{ device := d }} }});
  SecState.trng_fault h := fw_rnd_fault (device (sw_world h));
  SecState.LMS_FW_SEC_TEST_MODE := FW_TEST_MODE;
  LMS_RND_IMPL_TRNG := FW_RND_TRNG
|}.

(** A call of the secure domain with the memory at [response] and the context of a signing call:
    its outcome, what it left at [response] and in the context. *)
Definition secure {A} (response : bytes) (ctx : sec_sign_ctx_t) (m : FM A) : F (result Z A * bytes * sec_sign_ctx_t) := fun w =>
  let '(r, s) := m (mkFmem (sec_domain (fw_at (device w))) (mkSecWorld w ctx false) response) in
  let h := f_hw s in
  let w' := sw_world h in
  (if sw_undefined h then Err FW_UNDEFINED else Ok (r, f_resp s, sw_ctx h),
   w' {{ device := set_fw ((fw_at (device w')) {{ sec_domain := f_sec s }}) (device w') }}).

(** A call that signs nothing and writes no response. *)
Definition no_ctx : sec_sign_ctx_t := mkSignCtx (mkPriv 0 0 [] [] 0) [] 0 0.
Definition secure_call {A} (m : FM A) : F (result Z A) :=
  '(r, _, _) ← secure [] no_ctx m;
  mret r.

Definition sec_key_ready : F Z := m ← get_fw; mret (sec_key_loaded (sec_domain m)).

(** [sec_export_active(nvm_state); nvm_valid[0] = 1u; nvm_valid[1] = 1u;] *)
Definition export_state : F unit :=
  r ← secure_call sec_export_active;
  put_fw (fun m => m {{ nvm_state := match r with Ok b => b | Err _ => nvm_state m end; nvm_valid := [1; 1] }}).

(** * SEC_STATE *)

Definition sec_state_plen (sub : Z) : Z :=
  if sub =? SEC_SUB_COMMIT then 12
  else if sub =? SEC_SUB_READ_SLOT then 1
  else if sub =? SEC_SUB_NVM_READ then 1
  else if sub =? SEC_SUB_NVM_LOAD then 65
  else if sub =? SEC_SUB_MC_LOAD then 4
  else if sub =? SEC_SUB_WRAP_LOAD then 48
  else if sub =? SEC_SUB_BOOT then 16
  else if sub =? SEC_SUB_FACTORY_INIT then 16
  else 0.

(** [indet 36]: [resp32] and the four bytes behind it that FACTORY_INIT reaches. *)
Definition sec_state_from_uart (response : bytes) : F bytes :=
  sub ← uart_getc;
  params ← uart_read_bytes (sec_state_plen sub);
  '(_, resp, _) ← secure (indet 36) no_ctx (sec_handle_uart_cmd sub (splice 0 params (indet 65)));
  let resp32 := slice 0 32 resp in
  (if ((sub =? SEC_SUB_COMMIT) && (rd resp32 2 =? 0)) || (sub =? SEC_SUB_BOOT) then export_state else mret tt) ;;
  mret (splice 0 resp32 response).

(** * SEC_SIGN *)

Definition sec_sign_do : do_sign_fn := fun q _ h =>
  let ctx := sw_ctx h in
  let priv := (sc_private_key ctx) {{ priv_q := q }} in
  let '(sig_len, w) := lmots_sig_len_priv priv (sw_world h) in
  let sig_len := match sig_len with Ok n => n | Err _ => 0 end in
  let '(r, s) := lmots_sign priv q (Buf (sc_message ctx)) local_ptr (sc_base ctx) sig_len
                   (mkSmem w (s_uart_sig (fw_at (device w))) priv None) in
  let w' := wld s in
  let rc := match r with Ok _ => 0 | Err e => lms_status_value e end in
  (if rc =? 0 then Ok tt else Err rc,
   mkSecWorld (w' {{ device := set_fw ((fw_at (device w')) {{ s_uart_sig := sig s }}) (device w') }})
     (ctx {{ sc_private_key := priv; sc_sign_rc := rc }})
     (sw_undefined h || match r with Err UNDEFINED => true | _ => false end)).

(** [I], [lms_type] and [lmots_type] of a request; the other fields as they were. *)
Definition receive_types (I_ : bytes) (rest : lms_private_key_t) : F lms_private_key_t :=
  lms_type ← uart_get_u32;
  lmots_type ← uart_get_u32;
  mret (mkPriv lms_type lmots_type I_ (priv_seed rest) (priv_q rest)).

(** An uninitialised key, and one of zeros. *)
Definition indet_key : lms_private_key_t :=
  mkPriv 0 0 (indet LMS_I_LEN) (indet LMS_SEED_LEN) (load_le32 (indet 4) 0).
Definition zero_key : lms_private_key_t := mkPriv 0 0 (fill 0 LMS_I_LEN) (fill 0 LMS_SEED_LEN) 0.

(** [2^h], or 32 for an unknown type. *)
Definition max_ctr_of (lms_type : Z) : F Z :=
  r ← library (lms_get_lms_param lms_type);
  mret (match r with Ok lparam => u32 (1 .<< lms_p_height lparam) | Err _ => 32 end).

(** [lms_mmio_lmots_sign_disable(); (void)lms_mmio_lmots_sign_enable_insecure(&verify_client);] *)
Definition leave_sign : F unit :=
  library lms_mmio_lmots_sign_disable ;;
  driver (lms_mmio_lmots_sign_enable_insecure verify_client) ;;
  mret tt.

(** [rc], [ctx.sign_rc] and [q_out]; what the code leaves uninitialised is [indet]. *)
Definition sec_sign_run (max_ctr : Z) (ctx : sec_sign_ctx_t) : F (Z * Z * Z) :=
  enabled ← driver (lms_mmio_lmots_sign_enable verify_client 0);
  if is_ok enabled then
    '(r, _, ctx) ← secure [] ctx (sec_sign max_ctr (Some sec_sign_do) local_ptr);
    mret (match r with Ok q => (SEC_OK, sc_sign_rc ctx, q) | Err e => (e, sc_sign_rc ctx, 0) end)
  else mret (SEC_ERR_AUTH, sc_sign_rc ctx, load_le32 (indet 4) 0).

(** The frame and the work: the total is in the frame too. *)
Definition sec_sign_from_uart (response : bytes) : F (bytes * work_t) :=
  I_ ← uart_read_bytes LMS_I_LEN;
  priv ← receive_types I_ indet_key;
  message_length ← uart_get_u16;
  if VERIFY_MESSAGE_MAX <? message_length then
    uart_discard message_length ;; mret (upd 2 (u8 SEC_ERR_PATH) response, no_work)
  else
    message ← uart_read_bytes message_length;
    total_start ← soc_cycles;
    before ← the_client;
    clear_hw_error ;;
    max_ctr ← max_ctr_of (priv_lms_type priv);
    '(rc, sign_rc, q_out) ← sec_sign_run max_ctr (mkSignCtx priv message 0 (load_le32 (indet 4) 0));
    leave_sign ;;
    cycles ← count_work [hardware_derive_count; hardware_sign_count] [hardware_derive_cycles; hardware_sign_cycles] before;
    total_end ← soc_cycles;
    let total := u32 (total_end - total_start) in
    sig_len ← library_value (lmots_sig_len_priv priv);
    ready ← sec_key_ready;
    (if negb (ready =? 0) then export_state else mret tt) ;;
    mret (splice 20 (put_be32 q_out) (splice 4 (store_le32 total) (upd 3 (u8 (sign_rc .& 0xff)) (upd 2 (u8 rc) response))),
          no_work {{ w_signature_length := if rc =? SEC_OK then sig_len else 0; w_cycles := cycles; w_total := total }}).

(** * SEC_LMS_SIGN and the key generations *)

(** [Some (written, q)] on success; [*steady_total_cycles], which is the raw start count when the
    signing fails. *)
Definition sec_lms_sign_impl (priv : lms_private_key_t) (message : bytes) : F (option (Z * Z) * Z) :=
  lparam ← library (lms_get_lms_param (priv_lms_type priv));
  oparam ← (if is_ok lparam then library (lms_get_lmots_param (priv_lmots_type priv)) else mret (Err LMS_ERR_INVALID));
  match lparam, oparam with
  | Ok lparam, Ok oparam =>
      needed ← library_value (lms_signature_len (priv_lms_type priv) (priv_lmots_type priv));
      if LMS_MAX_SIGNATURE_LEN <? needed then mret (None, 0)
      else
        ensured ← sec_tree_cache_ensure priv;
        if negb ensured then mret (None, 0)
        else
          steady_start ← soc_cycles;
          enabled ← driver (lms_mmio_lmots_sign_enable verify_client 0);
          if negb (is_ok enabled) then mret (None, steady_start)
          else
            library (lmots_sign_backend_set (Some hw_sign_taskram) verify_client) ;;
            y_len ← library_value (lmots_y_len_type (priv_lmots_type priv));
            put_fw (fun m => m {{ sign_y_in_taskram := 1; sign_y_len := y_len }}) ;;
            '(r, _, _) ← secure [] (mkSignCtx priv message 4 0)
                           (sec_sign (u32 (1 .<< lms_p_height lparam)) (Some sec_sign_do) local_ptr);
            leave_sign ;;
            match r with
            | Err _ => mret (None, steady_start)
            | Ok qo =>
                let sig_len := 4 + ots_p_n oparam + ots_p_p oparam * ots_p_n oparam in
                sig_store 0 (lms_store_u32 qo) ;;
                sig_store (4 + sig_len) (lms_store_u32 (priv_lms_type priv)) ;;
                r ← on_tree SecTree (lms_subtree_auth_path_backend sec_tree_ctx_addr (Some priv) qo local_ptr);
                match r with
                | Err _ => mret (None, steady_start)
                | Ok path =>
                    sig_store (4 + sig_len + 4) path ;;
                    steady_end ← soc_cycles;
                    mret (Some (needed, qo), u32 (steady_end - steady_start))
                end
            end
  | _, _ => mret (None, 0)
  end.

Definition sec_lms_sign_from_uart : F work_t :=
  I_ ← uart_read_bytes LMS_I_LEN;
  priv ← receive_types I_ zero_key;
  message_length ← uart_get_u16;
  if VERIFY_MESSAGE_MAX <? message_length then uart_discard message_length ;; mret no_work
  else
    store_message message_length ;;
    total_start ← soc_cycles;
    clear_hw_error ;;
    before ← the_client;
    '(out, steady) ← with_uart_msg (fun msg => sec_lms_sign_impl priv (slice 0 message_length msg));
    cycles ← count_work [hardware_derive_count; hardware_sign_count] [hardware_derive_cycles; hardware_sign_cycles] before;
    total_end ← soc_cycles;
    mret (no_work {{ w_status := done_if (is_some out); w_value := match out with Some (_, q) => q | None => 0 end;
                     w_signature_length := match out with Some (n, _) => n | None => 0 end;
                     w_cycles := cycles; w_total := u32 (total_end - total_start); w_steady := steady }}).

Definition sec_lms_keygen_impl (priv : lms_private_key_t) : F (option bytes) :=
  ensured ← sec_tree_cache_ensure priv;
  if negb ensured then mret None
  else
    root ← tree_top_root SecTree;
    mret (serialized (Some (mkPub (priv_lms_type priv) (priv_lmots_type priv) (priv_I priv) root))).

(** Both key generations after the request; [make] writes the key's identifier. *)
Definition sec_keygen_received (priv : lms_private_key_t) (make : FM bytes) : F work_t :=
  total_start ← soc_cycles;
  clear_hw_error ;;
  before ← the_client;
  r ← secure_call make;
  out ← match r with
        | Ok I_ => sec_lms_keygen_impl (priv {{ priv_I := I_ }})
        | Err _ => mret None
        end;
  cycles ← count_work [hardware_keygen_count; hardware_hash_once_count] [hardware_keygen_cycles; hardware_hash_once_cycles] before;
  total_end ← soc_cycles;
  mret (no_work {{ w_status := done_if (is_some out); w_public := match out with Some b => b | None => [] end;
                   w_cycles := cycles; w_total := u32 (total_end - total_start) }}).

Definition sec_lms_keygen_from_uart : F work_t :=
  priv ← receive_types (priv_I zero_key) zero_key;
  sec_keygen_received priv sec_keygen_key.

Definition sec_lms_keygen_new_from_uart : F work_t :=
  I_ ← uart_read_bytes LMS_I_LEN;
  priv ← receive_types I_ zero_key;
  sec_keygen_received priv (sec_keygen_new I_).
End Secure.
