(* ===== verification/FwMain.v ===== *)
(** The dispatcher and the start of fw/lms_soc_smoke.c.  The service loop runs forever; [serve_request]
    is one turn of it and [serve_uart] a number of turns. *)

From S2P Require Import Prelude Types HashApi Params LmOts Tree Lms Subtree FwPool MmioRegs Mmio SecState RndTrng FwCrc FwStatics FwSerial FwNvm FwBackends FwTree FwHandlers FwServe.

(** What a turn answers: [return_digest], the response frame of the commands that have one, the
    random words of TRNG_READ, and the work. *)
Record answer_t := mkAnswer {
  an_status : Z;
  an_error : Z;
  an_digest : bool;
  an_frame : bytes;
  an_words : bytes;
  an_work : work_t
}.

Section Serve.
Context `{P : Platform} `{Hh : HashApi} `{Mm : !Mmio} `{Fm : !FwMem} `{Bd : FwBuild}.

(** * The requests *)

(** A command on the registers; its digest is read back if [digest]. *)
Definition register_command (digest : bool) (m : F (Z * Z)) : F (option answer_t) :=
  '(status, cycles) ← m;
  error ← MMIO32 LMS_ERROR;
  mret (Some (mkAnswer status error digest [] [] (no_work {{ w_cycles := cycles }}))).

(** A command of the library and the driver. *)
Definition client_command (m : F work_t) : F (option answer_t) :=
  work ← m;
  c ← the_client;
  mret (Some (mkAnswer (w_status work) (last_hw_error c) false [] [] work)).

(** A command that fills the response frame: with the status in the frame, or always done. *)
Definition frame_status (frame : bytes) (words : bytes) (work : work_t) : option answer_t :=
  Some (mkAnswer (if rd frame 2 =? 0 then LMS_STATUS_DONE else 0) (rd frame 2) false frame words work).
Definition frame_done (frame : bytes) : option answer_t := Some (mkAnswer LMS_STATUS_DONE 0 false frame [] no_work).

Definition empty_frame : bytes := fill 0 48.

(** Only with the hardware's key slots, only with a key. *)
Definition with_wrap (m : F (option answer_t)) : F (option answer_t) :=
  c ← the_client;
  if (capabilities c .& LMS_MMIO_CAP_WRAP) =? 0 then mret None else m.

Definition with_key (m : F (option answer_t)) : F (option answer_t) :=
  if LMS_FW_NO_HW_ACCEL then mret None
  else with_wrap (ready ← sec_key_ready; if ready =? 0 then mret None else m).

Definition hash_command : F (option answer_t) :=
  input_length ← uart_getc;
  '(status, cycles) ← hash_once_from_uart input_length;
  error ← (if 128 <? input_length then mret 3 else MMIO32 LMS_ERROR);
  mret (Some (mkAnswer status error true [] [] (no_work {{ w_cycles := cycles }}))).

(** A signature that is not released leaves no chain values to send. *)
Definition sec_lms_sign_command : F (option answer_t) :=
  work ← sec_lms_sign_from_uart;
  c ← the_client;
  (if negb (w_status work =? LMS_STATUS_DONE) || negb (last_hw_error c =? 0)
   then put_fw (fun m => m {{ sign_y_in_taskram := 0 }}) else mret tt) ;;
  mret (Some (mkAnswer (w_status work) (last_hw_error c) false [] [] work)).

(** [None] where the loop goes on without an answer. *)
Definition dispatch (request : Z) : F (option answer_t) :=
  if request =? UART_REQUEST_HASH then hash_command
  else if request =? UART_REQUEST_DERIVE_RANDOMIZER then register_command true derive_randomizer_from_uart
  else if request =? UART_REQUEST_PRF_CHAIN then register_command true prf_chain_from_uart
  else if request =? UART_REQUEST_DERIVE_XQ then register_command false derive_xq_from_uart
  else if request =? UART_REQUEST_CHAIN then register_command true chain_from_uart
  else if request =? UART_REQUEST_VERIFY then client_command verify_from_uart
  else if request =? UART_REQUEST_SIGN_TEST then client_command sign_from_uart
  else if request =? UART_REQUEST_KEYGEN_TEST then client_command keygen_from_uart
  else if request =? UART_REQUEST_LMOTS_KEYGEN_TEST then client_command lmots_keygen_from_uart
  else if request =? UART_REQUEST_LMOTS_SIGN_TEST then client_command lmots_sign_from_uart
  else if request =? UART_REQUEST_LMOTS_VERIFY_TEST then client_command lmots_verify_from_uart
  else if request =? UART_REQUEST_SEED_LOAD_TEST then client_command seed_load_from_uart
  else if request =? UART_REQUEST_C_LOAD then
    work ← c_load_from_uart;
    mret (Some (mkAnswer (w_status work) (w_error work) false [] [] work))
  else if request =? UART_REQUEST_SEC_SIGN then
    with_wrap ('(frame, work) ← sec_sign_from_uart empty_frame; mret (frame_status frame [] work))
  else if request =? UART_REQUEST_SEC_LMS_SIGN then with_key sec_lms_sign_command
  else if request =? UART_REQUEST_SEC_LMS_KEYGEN then with_key (client_command sec_lms_keygen_from_uart)
  else if request =? UART_REQUEST_SEC_LMS_KEYGEN_NEW then with_key (client_command sec_lms_keygen_new_from_uart)
  else if request =? UART_REQUEST_NVM_SYNC then
    with_wrap (frame ← nvm_sync_from_uart empty_frame; mret (frame_done frame))
  else if request =? UART_REQUEST_SEC_STATE then
    with_wrap (frame ← sec_state_from_uart empty_frame; mret (frame_done frame))
  else if request =? UART_REQUEST_TRNG_READ then
    '(words, frame) ← trng_read_from_uart empty_frame false; mret (frame_status frame words no_work)
  else if request =? UART_REQUEST_TRNG_READ_ACK then
    '(words, frame) ← trng_read_from_uart empty_frame true; mret (frame_status frame words no_work)
  else if request =? UART_REQUEST_TRNG_STATUS then
    frame ← trng_status_from_uart empty_frame; mret (frame_done frame)
  else if request =? UART_REQUEST_FLASH_PROBE then
    frame ← flash_probe_from_uart empty_frame; mret (frame_status frame [] no_work)
  else if request =? UART_REQUEST_FLASH_PROG then
    frame ← flash_prog_from_uart empty_frame; mret (frame_status frame [] no_work)
  else if request =? UART_REQUEST_FLASH_CMD then
    frame ← flash_cmd_from_uart empty_frame; mret (frame_status frame [] no_work)
  else mret None.

(** * The response *)

Definition released (a : answer_t) : bool := (an_status a =? LMS_STATUS_DONE) && (an_error a =? 0).

(** The requests whose frame carries the response. *)
Definition framed (request : Z) : bool :=
  existsb (Z.eqb request)
    [UART_REQUEST_NVM_SYNC; UART_REQUEST_SEC_STATE; UART_REQUEST_SEC_SIGN; UART_REQUEST_TRNG_READ;
     UART_REQUEST_TRNG_READ_ACK; UART_REQUEST_TRNG_STATUS; UART_REQUEST_FLASH_PROBE; UART_REQUEST_FLASH_PROG;
     UART_REQUEST_FLASH_CMD].

(** Word [index / 4] of the payload: from the frame or from what was measured. *)
Definition reported_word (request : Z) (a : answer_t) (index : Z) : Z :=
  let w := an_work a in
  if framed request then load_le32 (an_frame a) index
  else if index =? 0 then w_value w
  else if index =? 4 then w_total w
  else if index =? 8 then
    if (request =? UART_REQUEST_SIGN_TEST) || (request =? UART_REQUEST_SEC_LMS_SIGN) then w_steady w
    else if request =? UART_REQUEST_LMOTS_SIGN_TEST then w_parse w else 0
  else if index =? 12 then
    if request =? UART_REQUEST_SIGN_TEST then w_parse w
    else if request =? UART_REQUEST_LMOTS_SIGN_TEST then w_sign w else 0
  else if index =? 16 then
    if request =? UART_REQUEST_LMOTS_SIGN_TEST then w_steady w else 0
  else 0.

(** A digest is read back from the accelerator, or from where the software left it. *)
Definition payload_word (request : Z) (a : answer_t) (index : Z) : F Z :=
  if an_digest a && (an_error a =? 0) then
    if LMS_FW_NO_HW_ACCEL && ((request =? UART_REQUEST_DERIVE_RANDOMIZER) || (request =? UART_REQUEST_PRF_CHAIN))
    then m ← get_fw; mret (load_le32 (s_uart_msg m) index)
    else MMIO32 (LMS_OUTPUT + index)
  else mret (reported_word request a index).

(** [for (index = first; index < last; index++) uart_putc(s_uart_sig[index]);] *)
Definition put_signature (first last : Z) : F unit :=
  m ← get_fw;
  loopM (Z.to_nat (last - first)) first (fun index _ => uart_putc (rd (s_uart_sig m) index)) tt.

(** An LMS signature: the chain values from task RAM where they are there. *)
Definition send_lms_signature (length : Z) : F unit :=
  m ← get_fw;
  (if negb (sign_y_in_taskram m =? 0) then
     put_signature 0 (Z.min 40 length) ;;
     bridge_run BRIDGE_DIR_TX BRIDGE_Y_ADDR (sign_y_len m) ;;
     put_signature (40 + sign_y_len m) length
   else put_signature 0 length) ;;
  put_fw (fun m => m {{ sign_y_in_taskram := 0 }}).

Definition send_lmots_signature : F unit :=
  m ← get_fw;
  if LMS_FW_NO_HW_ACCEL then put_signature 0 (lmots_out_sig_len m)
  else
    (if negb (sign_y_in_taskram m =? 0) then
       put_signature 0 (u32 (lmots_out_sig_len m - sign_y_len m)) ;;
       bridge_run BRIDGE_DIR_TX BRIDGE_Y_ADDR (sign_y_len m) ;;
       mret tt
     else put_signature 0 (lmots_out_sig_len m)) ;;
    put_fw (fun m => m {{ sign_y_in_taskram := 0 }}).

Definition send_body (request : Z) (a : answer_t) : F unit :=
  let w := an_work a in
  if negb (released a) then mret tt
  else if request =? UART_REQUEST_SEC_SIGN then put_signature 0 (w_signature_length w)
  else if request =? UART_REQUEST_TRNG_READ then uart_put_bytes (len (an_words a)) (an_words a)
  else if request =? UART_REQUEST_TRNG_READ_ACK then
    uart_put_bytes (len (an_words a)) (an_words a) ;;
    uart_putc (crc8_block (an_words a) (len (an_words a)))
  else if request =? UART_REQUEST_SIGN_TEST then
    if LMS_FW_NO_HW_ACCEL then put_signature 0 (w_signature_length w) else send_lms_signature (w_signature_length w)
  else if request =? UART_REQUEST_SEC_LMS_SIGN then send_lms_signature (w_signature_length w)
  else if (request =? UART_REQUEST_SEC_LMS_KEYGEN) || (request =? UART_REQUEST_SEC_LMS_KEYGEN_NEW)
          || (request =? UART_REQUEST_KEYGEN_TEST) || (request =? UART_REQUEST_LMOTS_KEYGEN_TEST)
  then uart_put_bytes (len (w_public w)) (w_public w)
  else if request =? UART_REQUEST_LMOTS_SIGN_TEST then send_lmots_signature
  else mret tt.

Definition respond_to (request : Z) (a : answer_t) : F unit :=
  uart_putc UART_RESPONSE ;;
  uart_putc (if released a then 0 else 1) ;;
  uart_putc (u8 (an_error a)) ;;
  uart_putc 0 ;;
  uart_put_u32 (w_cycles (an_work a)) ;;
  m ← get_fw;
  uart_put_u32 (hardware_hits m) ;;
  uart_put_u32 0 ;;
  loopM 8 0 (fun k _ => word ← payload_word request a (4 * k); uart_put_u32 word) tt ;;
  send_body request a.

(** The two requests that dump a window of registers. *)
Definition dump_window (base n : Z) : F unit :=
  loopM (Z.to_nat n) 0 (fun index _ =>
    w ← MMIO32 (base + (index .& Z.lnot 3));
    uart_putc (u8 (w .>> ((index .& 3) * 8)))) tt.

Definition serve_request : F unit :=
  request ← uart_getc;
  if request =? 0x7f then dump_window LMS_INPUT 128
  else if request =? 0x7e then dump_window LMS_OUTPUT 48
  else
    answer ← dispatch request;
    match answer with
    | Some a => respond_to request a
    | None => mret tt
    end.

Definition serve_uart (turns : nat) : F unit := loopM turns 0 (fun _ _ => serve_request) tt.

(** * The start *)

(** [fail(code)] writes the code and stops. *)
Definition halt (code : Z) : F (option Z) := MMIO32_set GPIO_OUT code ;; mret (Some code).

(** [for (poll = 0; poll < n; poll++) if (idle) break;]: is the unit idle in time? *)
Fixpoint poll_idle (n : nat) : F bool :=
  match n with
  | O => mret false
  | S n =>
      status ← MMIO32 LMS_STATUS;
      if (status .& LMS_STATUS_BUSY) =? 0 then mret true else poll_idle n
  end.

Definition expected : list Z :=
  [0xbf1678ba; 0xeacf018f; 0xde404141; 0x2322ae5d; 0xa36103b0; 0x9c7a1796; 0x61ff10b4; 0xad1500f2].

Definition built_for_sha256 : bool := bool_decide (FW_HASH_ALG = LMS_HASH_SHA256).
Definition expected_cycles : Z := if built_for_sha256 then 68 else 12.

(** The hash of "abc" on the accelerator: the code to stop with. *)
Definition self_test : F (option Z) :=
  MMIO32_set LMS_COMMAND LMS_CMD_HASH_ONCE ;;
  MMIO32_set LMS_INPUT_LENGTH 3 ;;
  MMIO32_set LMS_OUTPUT_LENGTH 32 ;;
  MMIO32_set LMS_INPUT 0x00636261 ;;
  MMIO32_set LMS_CONTROL LMS_CTRL_START ;;
  idle ← poll_idle 1024;
  if negb idle then mret (Some 0xe1)
  else
    status ← MMIO32 LMS_STATUS;
    (* [||] reads the error register only when the status is DONE *)
    bad ← (if negb (status =? LMS_STATUS_DONE) then mret true
           else error ← MMIO32 LMS_ERROR; mret (negb (error =? 0)));
    if bad : bool then mret (Some 0xe2)
    else
      cycles ← MMIO32 LMS_CYCLE_COUNT;
      if negb (cycles =? expected_cycles) then mret (Some 0xe3)
      else if built_for_sha256 then
        loopM 8 0 (fun index failed =>
          match failed with
          | Some code => mret (Some code)
          | None =>
              word ← MMIO32 (LMS_OUTPUT + index * 4);
              mret (if word =? nth (Z.to_nat index) expected 0 then None else Some (0xe4 + index))
          end) None
      else mret None.

(** The client and the backends of the hardware build: success. *)
Definition start_client : F bool :=
  let verify_bus := lms_mmio_bus_init_direct (Some (bus zero_client)) LMS_BASE in
  r ← driver (
    lms_mmio_client_init verify_client verify_bus 100000 0 ;;
    lms_mmio_lmots_keygen_enable_insecure verify_client ;;
    lms_mmio_lmots_verify_enable verify_client ;;
    lms_mmio_lmots_sign_enable_insecure verify_client);
  mret (is_ok r).

Definition register_backends : F unit :=
  set_the_client (fun c => c {{ randomizer_c_slot := NULL; trng_fill_c := NULL; trng_context := NULL }}) ;;
  (if FW_TEST_MODE then mret tt else set_the_client (fun c => c {{ trng_fill_c := fw_trng_fill_c_addr }})) ;;
  library (
    lms_intr_backend_set (Some hw_intr_backend) verify_client ;;
    lmots_verify_leaf_backend_set (Some hw_verify_leaf) verify_client ;;
    lms_verify_authpath_backend_set (Some hw_dintr_authpath) verify_client ;;
    lmots_message_hash_backend_set (Some hw_message_hash_backend) verify_client ;;
    lmots_coef_backend_set (Some hw_coef_backend) verify_client) ;;
  mret tt.

(** The build with the accelerator: client, backends, the prototype's seed. *)
Definition start_hardware : F (option Z) :=
  started ← start_client;
  if negb started then mret (Some 0xec)
  else
    register_backends ;;
    if FW_TEST_MODE then
      loaded ← fw_seed_load (map u8 (seqZ 0 LMS_SEED_LEN));
      mret (if loaded : bool then None else Some 0xed)
    else mret None.

(** What follows the start of the hardware up to the service loop. *)
Definition start_domain : F unit :=
  (if FW_RND_TRNG then mret tt
   else modify (fun w => w {{ device := fw_rnd_seed (map (fun index => u8 (0x70 + index)) (seqZ 0 16)) (device w) }})) ;;
  c ← the_client;
  (if (capabilities c .& LMS_MMIO_CAP_WRAP) =? 0 then mret tt
   else secure_call (sec_init verify_client) ;; mret tt) ;;
  MMIO32_set GPIO_OUT 0xa5.

(** [Some code]: stopped by [fail]; [None]: the service loop is entered. *)
Definition main : F (option Z) :=
  failed ← self_test;
  match failed with
  | Some code => halt code
  | None =>
      put_fw (fun m => m {{ hardware_hits := 1; nvm_state := fill 0 NVM_STATE_LEN; nvm_crc := [0; 0]; nvm_valid := [0; 0] }}) ;;
      failed ← (if LMS_FW_NO_HW_ACCEL then mret None else start_hardware);
      match failed with
      | Some code => halt code
      | None => start_domain ;; mret None
      end
  end.
End Serve.
