(* ===== verification/FwWire.v ===== *)
(** The response of a command on the serial line.

    The transmitter and the bridge are a contract of the device ([uart_out]): bytes written to the
    transmitter appear on the line in order, reads send nothing, the bridge sends bytes of
    task RAM.  [sends prog m out a m']: with the statics [m], [prog] returns [a] and leaves [m'],
    and exactly [out] has gone out. *)

From S2P Require Import Prelude Types HashApi Params LmOts LmOtsCorrect Mmio MmioRegs Accel MmioDemo SecState RndTrng FwCrc FwStatics FwSerial FwDemo FwHandlers FwServe FwMain.

Section Wire.
Context `{P : Platform} `{Hh : HashApi} `{Mm : !Mmio} `{Fm : !FwMem} `{Bd : FwBuild}.

(** What the accelerator holds when the response goes out: bytes of task RAM, and the output window. *)
Record accel_view := mkView {
  task_ram : Z -> Z -> bytes;            (* from word [addr] on, [n] bytes *)
  output : Z -> Z                        (* the word at an offset *)
}.

(** The registers read while a response goes out. *)
Definition quiet (a : Z) : Prop := a = UART_TX_READY \/ exists k, 0 <= k < 8 /\ a = LMS_OUTPUT + 4 * k.

(** [sent d]: what has gone out.  The transmitter is free again within [busy d] polls. *)
Record uart_out (sent : dev -> bytes) (busy : dev -> nat) (view : dev -> accel_view) : Prop := {
  out_patience : forall d, (busy d < poll_fuel)%nat;
  out_ready : forall d, let '(v, d') := load32 UART_TX_READY d in v = 0 -> (busy d' < busy d)%nat;
  out_byte : forall v d, let d' := store32 UART_TX v d in
    sent d' = sent d ++ [u8 v] /\ fw_at d' = fw_at d /\ view d' = view d;
  out_read : forall a d, quiet a -> let d' := snd (load32 a d) in
    sent d' = sent d /\ fw_at d' = fw_at d /\ view d' = view d;
  out_word : forall k d, 0 <= k < 8 -> fst (load32 (LMS_OUTPUT + 4 * k) d) = output (view d) (4 * k);
  out_set_fw : forall m d, sent (set_fw m d) = sent d /\ view (set_fw m d) = view d;
  out_bridge : forall addr n w, exists r w', bridge_run BRIDGE_DIR_TX addr n w = (Ok r, w') /\
    sent (device w') = sent (device w) ++ task_ram (view (device w)) addr n /\ fw_at (device w') = fw_at (device w) /\
    view (device w') = view (device w)
}.

Variable sent : dev -> bytes.
Variable busy : dev -> nat.
Variable view : dev -> accel_view.
Hypothesis HO : uart_out sent busy view.

(** What the accelerator holds does not change during the run. *)
Variable held : accel_view.

Definition at_statics (m : fw_t) (w : world) : Prop := fw_at (device w) = m /\ view (device w) = held.

Definition sends {A} (prog : F A) (m : fw_t) (out : bytes) (a : A) (m' : fw_t) : Prop :=
  forall w, at_statics m w ->
  exists w', prog w = (Ok a, w') /\ sent (device w') = sent (device w) ++ out /\ at_statics m' w'.

Lemma sends_ret {A} (a : A) m : sends (mret a) m [] a m.
Proof. intros w Hw. exists w. rewrite app_nil_r. auto. Qed.

Lemma sends_bind {A B} (prog : F A) (f : A -> F B) m out1 a m1 out2 b m2 :
  sends prog m out1 a m1 -> sends (f a) m1 out2 b m2 -> sends (prog ≫= f) m (out1 ++ out2) b m2.
Proof.
  intros H1 H2 w Hw. destruct (H1 w Hw) as (w1 & E1 & S1 & V1). destruct (H2 w1 V1) as (w2 & E2 & S2 & V2).
  exists w2. split; [unfold mbind, M_bind; rewrite E1; exact E2 |]. split; [rewrite S2, S1, app_assoc; reflexivity | exact V2].
Qed.

(** A step that sends nothing, in front. *)
Lemma sends_quiet {A B} (prog : F A) (f : A -> F B) m a out b m2 :
  sends prog m [] a m -> sends (f a) m out b m2 -> sends (prog ≫= f) m out b m2.
Proof. intros H1 H2. exact (sends_bind _ _ _ _ _ _ _ _ _ H1 H2). Qed.

Lemma sends_get m : sends get_fw m [] m m.
Proof. intros w [Hm Hv]. exists w. rewrite app_nil_r. unfold get_fw. rewrite Hm. repeat split; assumption. Qed.

Lemma sends_put f m : sends (put_fw f) m [] tt (f m).
Proof.
  intros w [Hm Hv]. eexists. split; [reflexivity |]. destruct w. cbn in *. rewrite app_nil_r.
  destruct (out_set_fw _ _ _ HO (f (fw_at device)) device) as [E1 E2].
  split; [exact E1 |]. split; cbn; [rewrite fw_set, Hm; reflexivity | rewrite E2; exact Hv].
Qed.

Lemma read_at address m w : quiet address -> at_statics m w ->
  exists w', MMIO32 (E := fw_stop) address w = (Ok (fst (load32 address (device w))), w') /\
    device w' = snd (load32 address (device w)) /\ sent (device w') = sent (device w) /\ at_statics m w'.
Proof.
  intros Hq [Hm Hv]. unfold MMIO32. pose proof (out_read _ _ _ HO address (device w) Hq) as H.
  destruct (load32 address (device w)) as [v d]. cbn in H. destruct H as (H1 & H2 & H3). destruct w. cbn in *.
  eexists. split; [reflexivity |]. split; [reflexivity |]. split; [exact H1 |]. split; cbn; congruence.
Qed.

Lemma sends_output k m : 0 <= k < 8 -> sends (MMIO32 (LMS_OUTPUT + 4 * k)) m [] (output held (4 * k)) m.
Proof.
  intros Hk w Hw. destruct (read_at (LMS_OUTPUT + 4 * k) m w) as (w' & E & _ & S & V); [right; eauto | exact Hw |].
  exists w'. rewrite (out_word _ _ _ HO _ _ Hk), (proj2 Hw) in E. rewrite app_nil_r. auto.
Qed.

(** The transmitter gets free. *)
Lemma wait_free n : forall m w, at_statics m w -> (busy (device w) < n)%nat ->
  exists w', poll_until FW_POLLING n UART_TX_READY (fun v => negb (v =? 0)) w = (Ok tt, w') /\
    sent (device w') = sent (device w) /\ at_statics m w'.
Proof.
  induction n as [| n IH]; intros m w Hw Hn; [lia |]. cbn [poll_until].
  destruct (read_at UART_TX_READY m w ltac:(left; reflexivity) Hw) as (w1 & E1 & D1 & S1 & V1).
  pose proof (out_ready _ _ _ HO (device w)) as Hr. unfold mbind, M_bind. rewrite E1.
  destruct (load32 UART_TX_READY (device w)) as [x d]. cbn [fst snd] in *.
  destruct (Z.eqb_spec x 0) as [-> | Hx]; cbn [negb].
  - destruct (IH m w1 V1) as (w2 & E2 & S2 & V2); [rewrite D1; specialize (Hr eq_refl); lia |].
    exists w2. rewrite E2, S2. auto.
  - eexists. split; [reflexivity | auto].
Qed.

Lemma sends_putc v m : sends (uart_putc v) m [u8 v] tt m.
Proof.
  intros w Hw. unfold uart_putc. destruct (wait_free poll_fuel m w Hw (out_patience _ _ _ HO _)) as (w1 & E1 & S1 & V1).
  unfold mbind, M_bind. rewrite E1. eexists. split; [reflexivity |]. destruct V1 as [M1 V1]. destruct w1. cbn in *.
  destruct (out_byte _ _ _ HO v device) as (E2 & E3 & E4). rewrite E2, S1. split; [reflexivity |]. split; cbn; congruence.
Qed.

Lemma sends_put_u32 v m : sends (uart_put_u32 v) m (store_le32 v) tt m.
Proof.
  unfold uart_put_u32.
  assert (E : store_le32 v = [u8 (u8 v)] ++ [u8 (u8 (v .>> 8))] ++ [u8 (u8 (v .>> 16))] ++ [u8 (u8 (v .>> 24))]).
  { rewrite !(u8_small (u8 _)) by apply u8_byte. reflexivity. }
  rewrite E. repeat (eapply sends_bind; [apply sends_putc |]). apply sends_putc.
Qed.

(** Bytes out of a buffer. *)
Lemma sends_range b m n : forall first, sends (loopM n first (fun index _ => uart_putc (rd b index)) tt) m
  (map (fun i => u8 (rd b i)) (seqZ first (Z.of_nat n))) tt m.
Proof.
  induction n as [| n IH]; intros first; [apply sends_ret |]. rewrite seqZ_cons by lia. cbn [loopM map].
  change (?x :: ?l) with ([x] ++ l). replace (Z.pred (Z.of_nat (S n))) with (Z.of_nat n) by lia.
  eapply sends_bind; [apply sends_putc | apply (IH (first + 1))].
Qed.

Lemma range_slice b first last : Forall is_byte b -> 0 <= first -> last <= len b ->
  map (fun i => u8 (rd b i)) (seqZ first (Z.of_nat (Z.to_nat (last - first)))) = slice first (last - first) b.
Proof.
  intros Hb H1 H2. rewrite (map_ext _ (rd b)) by (intros i; apply u8_small, rd_byte, Hb).
  destruct (decide (first <= last)) as [H3 | H3].
  - unfold len in *. rewrite map_rd_seqZ by lia. reflexivity.
  - replace (Z.to_nat (last - first)) with 0%nat by lia. unfold slice. replace (Z.to_nat (last - first)) with 0%nat by lia. reflexivity.
Qed.

Lemma sends_put_bytes b m : Forall is_byte b -> sends (uart_put_bytes (len b) b) m b tt m.
Proof.
  intros Hb. unfold uart_put_bytes. pose proof (sends_range b m (Z.to_nat (len b)) 0) as H.
  pose proof (range_slice b 0 (len b) Hb ltac:(lia) ltac:(lia)) as E. rewrite Z.sub_0_r in E.
  rewrite E, slice_all in H by reflexivity. exact H.
Qed.

Lemma sends_signature m first last : Forall is_byte (s_uart_sig m) -> 0 <= first -> last <= len (s_uart_sig m) ->
  sends (put_signature first last) m (slice first (last - first) (s_uart_sig m)) tt m.
Proof.
  intros Hb H1 H2. unfold put_signature. eapply sends_quiet; [apply sends_get |].
  rewrite <- range_slice by assumption. apply sends_range.
Qed.

(** The status of the bridge is dropped. *)
Lemma sends_bridge {B} addr n (f : F B) m out b m' :
  sends f m out b m' -> sends (bridge_run BRIDGE_DIR_TX addr n ;; f) m (task_ram held addr n ++ out) b m'.
Proof.
  intros H w [Hm Hv]. destruct (out_bridge _ _ _ HO addr n w) as (r & w1 & E1 & S1 & M1 & V1).
  destruct (H w1) as (w2 & E2 & S2 & V2); [split; congruence |].
  exists w2. split; [unfold mbind, M_bind; rewrite E1; exact E2 |]. rewrite S2, S1, Hv, app_assoc. auto.
Qed.

(** * The payload *)

Definition payload_value (request : Z) (a : answer_t) (m : fw_t) (index : Z) : Z :=
  if an_digest a && (an_error a =? 0) then
    if LMS_FW_NO_HW_ACCEL && ((request =? UART_REQUEST_DERIVE_RANDOMIZER) || (request =? UART_REQUEST_PRF_CHAIN))
    then load_le32 (s_uart_msg m) index
    else output held index
  else reported_word request a index.

Definition payload (request : Z) (a : answer_t) (m : fw_t) : bytes :=
  concat (map (fun k => store_le32 (payload_value request a m (4 * k))) (seqZ 0 8)).

Lemma sends_payload_word request a m k : 0 <= k < 8 ->
  sends (payload_word request a (4 * k)) m [] (payload_value request a m (4 * k)) m.
Proof.
  intros Hk. unfold payload_word, payload_value. destruct (_ && _); [| apply sends_ret].
  destruct (_ && _); [eapply sends_quiet; [apply sends_get | apply sends_ret] | apply sends_output, Hk].
Qed.

Lemma sends_payload request a m :
  sends (loopM 8 0 (fun k _ => word ← payload_word request a (4 * k); uart_put_u32 word) tt) m (payload request a m) tt m.
Proof.
  unfold payload.
  assert (H : forall n first, 0 <= first -> first + Z.of_nat n <= 8 ->
    sends (loopM n first (fun k _ => word ← payload_word request a (4 * k); uart_put_u32 word) tt) m
      (concat (map (fun k => store_le32 (payload_value request a m (4 * k))) (seqZ first (Z.of_nat n)))) tt m).
  { induction n as [| n IH]; intros first H1 H2; [apply sends_ret |]. rewrite seqZ_cons by lia. cbn [loopM map concat].
    replace (Z.pred (Z.of_nat (S n))) with (Z.of_nat n) by lia. eapply sends_bind; [| apply (IH (first + 1)); lia].
    eapply sends_quiet; [apply sends_payload_word; lia | apply sends_put_u32]. }
  apply (H 8%nat 0); lia.
Qed.

(** * The body *)

(** The statics once the chain values are sent. *)
Definition sent_off (m : fw_t) : fw_t := m {{ sign_y_in_taskram := 0 }}.

(** An LMS signature of [n] bytes. *)
Definition lms_body (n : Z) (m : fw_t) : bytes :=
  let sig := s_uart_sig m in
  if sign_y_in_taskram m =? 0 then slice 0 n sig
  else slice 0 (Z.min 40 n) sig ++ task_ram held BRIDGE_Y_ADDR (sign_y_len m)
       ++ slice (40 + sign_y_len m) (n - (40 + sign_y_len m)) sig.

Definition lmots_body (m : fw_t) : bytes :=
  let sig := s_uart_sig m in
  if sign_y_in_taskram m =? 0 then slice 0 (lmots_out_sig_len m) sig
  else slice 0 (lmots_out_sig_len m - sign_y_len m) sig ++ task_ram held BRIDGE_Y_ADDR (sign_y_len m).

(** What follows the frame of a released answer, and the statics after it. *)
Definition body (request : Z) (a : answer_t) (m : fw_t) : bytes * fw_t :=
  let w := an_work a in
  let signature := slice 0 (w_signature_length w) (s_uart_sig m) in
  if request =? UART_REQUEST_SEC_SIGN then (signature, m)
  else if request =? UART_REQUEST_TRNG_READ then (an_words a, m)
  else if request =? UART_REQUEST_TRNG_READ_ACK then (an_words a ++ [u8 (crc8_block (an_words a) (len (an_words a)))], m)
  else if request =? UART_REQUEST_SIGN_TEST then
    if LMS_FW_NO_HW_ACCEL then (signature, m) else (lms_body (w_signature_length w) m, sent_off m)
  else if request =? UART_REQUEST_SEC_LMS_SIGN then (lms_body (w_signature_length w) m, sent_off m)
  else if (request =? UART_REQUEST_SEC_LMS_KEYGEN) || (request =? UART_REQUEST_SEC_LMS_KEYGEN_NEW)
          || (request =? UART_REQUEST_KEYGEN_TEST) || (request =? UART_REQUEST_LMOTS_KEYGEN_TEST)
  then (w_public w, m)
  else if request =? UART_REQUEST_LMOTS_SIGN_TEST then
    if LMS_FW_NO_HW_ACCEL then (slice 0 (lmots_out_sig_len m) (s_uart_sig m), m) else (lmots_body m, sent_off m)
  else ([], m).

(** The buffers hold bytes and the lengths lie within them.  [lmots_out_sig_len] matters to
    LMOTS_SIGN only, which sets it together with [sign_y_len]; the other signing commands leave
    it as it was. *)
Record sendable (request : Z) (a : answer_t) (m : fw_t) : Prop := {
  send_sig : Forall is_byte (s_uart_sig m);
  send_words : Forall is_byte (an_words a);
  send_public : Forall is_byte (w_public (an_work a));
  send_len : 0 <= w_signature_length (an_work a) <= len (s_uart_sig m);
  send_y : 0 <= sign_y_len m <= UINT_MAX - 40;
  send_ots : request = UART_REQUEST_LMOTS_SIGN_TEST ->
    0 <= lmots_out_sig_len m <= UINT_MAX /\ lmots_out_sig_len m <= len (s_uart_sig m) /\
    (sign_y_in_taskram m <> 0 -> sign_y_len m <= lmots_out_sig_len m)
}.

Lemma sends_prefix n m : Forall is_byte (s_uart_sig m) -> 0 <= n <= len (s_uart_sig m) ->
  sends (put_signature 0 n) m (slice 0 n (s_uart_sig m)) tt m.
Proof. intros Hb Hn. rewrite <- (Z.sub_0_r n) at 2. apply sends_signature; [exact Hb | lia | lia]. Qed.

(** A step that sends nothing, behind. *)
Lemma sends_then_put (prog : F unit) f m out m1 :
  sends prog m out tt m1 -> sends (prog ;; put_fw f) m out tt (f m1).
Proof. intros H. rewrite <- (app_nil_r out). eapply sends_bind; [exact H | apply sends_put]. Qed.

Lemma sends_lms_signature n m : Forall is_byte (s_uart_sig m) -> 0 <= n <= len (s_uart_sig m) -> 0 <= sign_y_len m ->
  sends (send_lms_signature n) m (lms_body n m) tt (sent_off m).
Proof.
  intros Hb Hn Hy. unfold send_lms_signature, lms_body. eapply sends_quiet; [apply sends_get |].
  eapply sends_then_put.
  destruct (_ =? 0); cbn [negb]; [apply sends_prefix; [exact Hb | lia] |].
  eapply sends_bind; [apply sends_prefix; [exact Hb | lia] |].
  apply sends_bridge. apply sends_signature; [exact Hb | lia | lia].
Qed.

Lemma sends_lmots_signature a m : sendable UART_REQUEST_LMOTS_SIGN_TEST a m -> LMS_FW_NO_HW_ACCEL = false ->
  sends send_lmots_signature m (lmots_body m) tt (sent_off m).
Proof.
  intros [Hb _ _ _ Hy Ho] Hno. destruct (Ho eq_refl) as (Hu & Hl & Hd). unfold send_lmots_signature, lmots_body. rewrite Hno.
  eapply sends_quiet; [apply sends_get |].
  eapply sends_then_put.
  destruct (Z.eqb_spec (sign_y_in_taskram m) 0) as [_ | Hin]; cbn [negb]; [apply sends_prefix; [exact Hb | lia] |].
  specialize (Hd Hin). rewrite u32_small by (unfold UINT_MAX in Hu; lia).
  eapply sends_bind; [apply sends_prefix; [exact Hb | lia] |].
  rewrite <- (app_nil_r (task_ram _ _ _)). apply sends_bridge, sends_ret.
Qed.

Lemma sends_body request a m : sendable request a m -> released a = true ->
  sends (send_body request a) m (fst (body request a m)) tt (snd (body request a m)).
Proof.
  intros Hs Hr. pose proof Hs as [Hb Hw Hp Hl Hy Ho]. unfold send_body, body. rewrite Hr. cbn [negb].
  pose proof (sends_prefix _ m Hb Hl) as Hsig. pose proof (sends_put_bytes _ m Hw) as Hwords.
  destruct (request =? UART_REQUEST_SEC_SIGN); [exact Hsig |].
  destruct (request =? UART_REQUEST_TRNG_READ); [exact Hwords |].
  destruct (request =? UART_REQUEST_TRNG_READ_ACK).
  { eapply sends_bind; [exact Hwords |]. apply sends_putc. }
  destruct (request =? UART_REQUEST_SIGN_TEST).
  { destruct LMS_FW_NO_HW_ACCEL; [exact Hsig | apply sends_lms_signature; [exact Hb | exact Hl | apply Hy]]. }
  destruct (request =? UART_REQUEST_SEC_LMS_SIGN); [apply sends_lms_signature; [exact Hb | exact Hl | apply Hy] |].
  destruct (_ || _); [apply sends_put_bytes, Hp |].
  destruct (Z.eqb_spec request UART_REQUEST_LMOTS_SIGN_TEST) as [-> | _]; [| apply sends_ret].
  destruct LMS_FW_NO_HW_ACCEL eqn:Hno; [| eapply sends_lmots_signature; eassumption].
  unfold send_lmots_signature. rewrite Hno. eapply sends_quiet; [apply sends_get |].
  apply sends_prefix; [exact Hb |]. destruct (Ho eq_refl) as (Hu & Hlen & _). split; [apply Hu | exact Hlen].
Qed.

(** C29: an answer of the dispatcher whose lengths lie within the buffers ([sendable]; the
    command LMOTS_SIGN alone is held to [lmots_out_sig_len]) is one response on the line: the
    marker, the refusal flag, the error, the cycle and hit counters, and 32 bytes of payload,
    whatever the command.  What a command computed follows it, with the chain values taken from
    task RAM where the accelerator left them, exactly when the status is DONE and the error 0; a
    refused command sends 48 bytes and nothing of the signature buffer, the random words or the
    public key. *)
Theorem response_frame (request : Z) (a : answer_t) (m : fw_t) (Hs : sendable request a m) :
  sends (respond_to request a) m
    ([UART_RESPONSE; if released a then 0 else 1; u8 (an_error a); 0]
     ++ store_le32 (w_cycles (an_work a)) ++ store_le32 (hardware_hits m) ++ store_le32 0
     ++ payload request a m
     ++ (if released a then fst (body request a m) else []))
    tt (if released a then snd (body request a m) else m).
Proof.
  unfold respond_to.
  assert (E : forall l, [UART_RESPONSE; if released a then 0 else 1; u8 (an_error a); 0] ++ l =
    [u8 UART_RESPONSE] ++ [u8 (if released a then 0 else 1)] ++ [u8 (u8 (an_error a))] ++ [u8 0] ++ l).
  { intros l. rewrite (u8_small (u8 _)) by apply u8_byte. destruct (released a); reflexivity. }
  rewrite E. do 4 (eapply sends_bind; [apply sends_putc |]).
  eapply sends_bind; [apply sends_put_u32 |]. eapply sends_quiet; [apply sends_get |].
  do 2 (eapply sends_bind; [apply sends_put_u32 |]). eapply sends_bind; [apply sends_payload |].
  destruct (released a) eqn:Hr; [apply sends_body; assumption |].
  unfold send_body. rewrite Hr. apply sends_ret.
Qed.
End Wire.

(** * On the board *)

Section OnBoard.
#[local] Existing Instance toy_hash_api.
#[local] Existing Instance board_hw.
#[local] Existing Instance board_mmio.
#[local] Existing Instance board_mem.
#[local] Existing Instance board_build.

Definition board_busy (d : board) : nat := if tx_ready d then 0 else 1.
Definition board_view (d : board) : accel_view :=
  mkView (board_task_ram (board_accel d)) (fun index => reg (board_accel d) (LMS_MMIO_REG_OUTPUT + index)).

Lemma board_output k d : 0 <= k < 8 ->
  board_load (LMS_OUTPUT + 4 * k) d = (reg (board_accel d) (LMS_MMIO_REG_OUTPUT + 4 * k), d).
Proof.
  intros Hk. assert (H : k = 0 \/ k = 1 \/ k = 2 \/ k = 3 \/ k = 4 \/ k = 5 \/ k = 6 \/ k = 7) by lia.
  repeat destruct H as [-> | H]; subst; destruct d; reflexivity.
Qed.

Lemma board_out : uart_out line_out board_busy board_view.
Proof.
  split.
  - intros d. unfold board_busy. cbn. destruct (tx_ready d); lia.
  - intros d. unfold board_busy. cbn. destruct d as [c a m r l [] out ba bl]; cbn; lia.
  - intros v d. destruct d. repeat split.
  - intros address d [-> | (k & Hk & ->)]; cbn [load32 board_mmio].
    + destruct d as [c a m r l [] out ba bl]; cbn; rewrite ?app_nil_r; auto.
    + rewrite board_output by exact Hk. repeat split.
  - intros k d Hk. cbn [load32 board_mmio]. rewrite board_output by exact Hk. reflexivity.
  - intros m d. destruct d. repeat split.
  - intros addr n w. destruct w as [c1 c2 cs b d]. destruct d. exists true. eexists. split; [reflexivity |]. repeat split.
Qed.

(** A SIGN command on the line: a private key of index 2 and a message of three bytes, to a
    client that has probed an accelerator with every capability. *)
Definition line_client : lms_mmio_client_t :=
  zero_client {{ bus := board_bus; timeout_polls := 10; probed := 1; capabilities := 0xffff;
                 hash_desc := Some LMS_MMIO_HASH_DESC_SHAKE256 }}.
Definition sign_line : bytes :=
  put_be32 LMS_SHAKE256_N32_H5 ++ put_be32 LMOTS_SHAKE256_N32_W8 ++ fill 0x61 16 ++ fill 0x33 32 ++ put_be32 2
  ++ [0; 3] ++ [1; 2; 3].
Definition sign_world : world :=
  initial_world (mkBoard line_client (mkAccel (fun _ => 0) (fun _ => 0) Ready) boot_statics false sign_line true [] 0 0).

(** What the example needs of a run, as a test. *)
Definition all_bytes (b : bytes) : bool := forallb (fun x => (0 <=? x) && (x <? 256)) b.

Lemma all_bytes_ok b : all_bytes b = true -> Forall is_byte b.
Proof.
  intros H. apply Forall_forall. intros x Hx. unfold all_bytes in H. rewrite forallb_forall in H.
  apply list_elem_of_In in Hx. specialize (H x Hx). apply andb_true_iff in H as [H1 H2]. unfold is_byte. lia.
Qed.

Definition signed_well (a : answer_t) (m : fw_t) : bool :=
  released a && all_bytes (s_uart_sig m) && bool_decide (an_words a = []) && bool_decide (w_public (an_work a) = [])
  && bool_decide (w_signature_length (an_work a) = 1292 /\ len (s_uart_sig m) = LMS_MAX_SIGNATURE_LEN
                  /\ sign_y_len m = 1088 /\ lmots_out_sig_len m = 0 /\ sign_y_in_taskram m = 1).

Lemma signed_answer (run : result fw_stop (option answer_t) * world) :
  match run with (Ok (Some a), w) => signed_well a (fw_at (device w)) | _ => false end = true ->
  exists a w, run = (Ok (Some a), w) /\ signed_well a (fw_at (device w)) = true.
Proof. destruct run as [[[a |] | e] w]; try discriminate. intros E. exists a, w. auto. Qed.

Lemma sign_line_run : exists a w, dispatch UART_REQUEST_SIGN_TEST sign_world = (Ok (Some a), w) /\
  signed_well a (fw_at (device w)) = true.
Proof. apply signed_answer. vm_compute. reflexivity. Qed.

(** Its answer is sendable though [lmots_out_sig_len] is 0. *)
Lemma signed_sendable a m : signed_well a m = true ->
  sendable UART_REQUEST_SIGN_TEST a m /\ released a = true /\ w_signature_length (an_work a) = 1292 /\
  sign_y_in_taskram m = 1 /\ sign_y_len m = 1088 /\ lmots_out_sig_len m = 0.
Proof.
  unfold signed_well. rewrite !andb_true_iff, !bool_decide_eq_true.
  intros ((((Hr & Hb) & Hw) & Hp) & Hn & Hl & Hy & Ho & Hin). split; [| auto 6]. split.
  - apply all_bytes_ok, Hb.
  - rewrite Hw. constructor.
  - rewrite Hp. constructor.
  - rewrite Hn, Hl. vm_compute. split; discriminate.
  - rewrite Hy. vm_compute. split; discriminate.
  - discriminate.
Qed.

Lemma response_frame_witness : exists a w,
  dispatch UART_REQUEST_SIGN_TEST sign_world = (Ok (Some a), w) /\ lmots_out_sig_len (fw_at (device w)) = 0 /\
  forall held, let m := fw_at (device w) in
    sends line_out board_view held (respond_to UART_REQUEST_SIGN_TEST a) m
      ([UART_RESPONSE; 0; u8 (an_error a); 0]
       ++ store_le32 (w_cycles (an_work a)) ++ store_le32 (hardware_hits m) ++ store_le32 0
       ++ payload held UART_REQUEST_SIGN_TEST a m
       ++ slice 0 40 (s_uart_sig m) ++ task_ram held BRIDGE_Y_ADDR 1088 ++ slice 1128 164 (s_uart_sig m)) tt (sent_off m).
Proof.
  destruct sign_line_run as (a & w & E & Hw). exists a, w. split; [exact E |].
  destruct (signed_sendable _ _ Hw) as (Hs & Hr & Hn & Hin & Hy & Ho). split; [exact Ho |]. intros held m.
  pose proof (response_frame line_out board_busy board_view board_out held UART_REQUEST_SIGN_TEST a m Hs) as H.
  rewrite Hr in H. unfold body in H. cbn [Z.eqb UART_REQUEST_SIGN_TEST UART_REQUEST_SEC_SIGN UART_REQUEST_TRNG_READ
    UART_REQUEST_TRNG_READ_ACK LMS_FW_NO_HW_ACCEL board_build] in H.
  unfold lms_body in H. subst m. rewrite Hin, Hy, Hn in H. exact H.
Defined.
End OnBoard.
