(* ===== verification/FwSecure.v ===== *)
(** What the command SEC_SIGN (0x54) answers: an index leaves the firmware only behind its commit.

    The statics of the state domain lie with those of the firmware; the hypothesis is that the
    accelerator, the serial line and the client structure leave that memory alone
    ([statics_apart]).  What the signing callback does to the device is open: the domain is
    written back when the transaction ends.

    SEC_LMS_SIGN (0x66) signs in the same domain and is not covered: a run at the end shows that
    it commits its index but leaves the mirror as it was. *)

From S2P Require Import Prelude Types HashApi Params LmOts LmOtsCorrect MmioRegs Mmio Accel MmioDemo MmioSec SecState SecStateCorrect SecTheorems RndTrng FwCrc FwStatics FwSerial FwDemo FwBackends FwHandlers FwServe FwMain.

Section Apart.
Context `{P : Platform} `{Hh : HashApi} `{Mm : !Mmio} `{Fm : !FwMem} `{Bd : FwBuild}.

(** The device does not reach the statics. *)
Record statics_apart : Prop := {
  apart_load : forall a d, fw_at (snd (load32 a d)) = fw_at d;
  apart_store : forall a v d, fw_at (store32 a v d) = fw_at d;
  apart_client : forall p c d, fw_at (set_client p c d) = fw_at d;
  apart_read : forall f c o d, fw_at (snd (extern_read32 f c o d)) = fw_at d;
  apart_write : forall f c o v d, fw_at (extern_write32 f c o v d) = fw_at d
}.

Hypothesis HA : statics_apart.

(** The statics of the state domain. *)
Definition domain (w : world) : sec_t := sec_domain (fw_at (device w)).

Abbreviation keeps := (preserves domain).

(** ** The primitives *)

Lemma keeps_loopM {E A} n : forall i (body : Z -> A -> M world E A) x, (forall k y, keeps (body k y)) -> keeps (loopM n i body x).
Proof.
  induction n as [| n IH]; intros i body x Hb; cbn [loopM]; [apply preserves_ret |].
  apply preserves_bind; [apply Hb | intros y; apply IH, Hb].
Qed.

Lemma keeps_get {E} : keeps (get_fw (E := E)).
Proof. intros w. reflexivity. Qed.

Lemma keeps_put {E} f : (forall m, sec_domain (f m) = sec_domain m) -> keeps (put_fw (E := E) f).
Proof. intros Hf w. destruct w. unfold domain. cbn. rewrite fw_set. apply Hf. Qed.

Lemma keeps_load {E} a : keeps (MMIO32 (E := E) a).
Proof.
  intros w. unfold MMIO32, domain. pose proof (apart_load HA a (device w)) as H. destruct (load32 a (device w)) as [v d].
  destruct w. cbn in *. congruence.
Qed.

Lemma keeps_store {E} a v : keeps (MMIO32_set (E := E) a v).
Proof. intros w. destruct w. unfold domain. cbn. rewrite (apart_store HA). reflexivity. Qed.

Lemma keeps_client {E} p : keeps (get_client (E := E) p).
Proof. intros w. reflexivity. Qed.

Lemma keeps_update {E} p f : keeps (update_client (E := E) p f).
Proof. intros w. destruct w. unfold domain. cbn. rewrite (apart_client HA). reflexivity. Qed.

Lemma keeps_device {A} (f : dev -> A * dev) : (forall d, fw_at (snd (f d)) = fw_at d) -> keeps (on_device f).
Proof. intros Hf w. destruct w. unfold domain. cbn. rewrite Hf. reflexivity. Qed.

Lemma keeps_library {A} (m : C A) : keeps m -> keeps (library m).
Proof. intros Hm w. specialize (Hm w). unfold library. destruct (m w) as [[a | []] w']; exact Hm. Qed.

Lemma keeps_driver {A} (m : DM A) : keeps m -> keeps (driver m).
Proof. intros Hm w. specialize (Hm w). unfold driver. destruct (m w) as [[a | []] w']; exact Hm. Qed.

Lemma keeps_from_library {A} e (m : C A) : keeps m -> keeps (from_library e m).
Proof. intros Hm w. specialize (Hm w). unfold from_library. destruct (m w) as [[a | x] w']; exact Hm. Qed.

Lemma keeps_backends f : keeps (set_backends f).
Proof. intros w. reflexivity. Qed.

Lemma keeps_param type : keeps (lms_get_lms_param type).
Proof. intros w. unfold lms_get_lms_param. repeat case_match; reflexivity. Qed.

Lemma keeps_ots_param type : keeps (lms_get_lmots_param type).
Proof.
  intros w. unfold lms_get_lmots_param. repeat case_match; reflexivity.
Qed.

#[local] Hint Resolve keeps_get keeps_load keeps_store keeps_client keeps_update keeps_backends keeps_param keeps_ots_param : preserves_db.

Ltac keeps_step :=
  match goal with
  | |- preserves _ (_ ≫= _) => apply preserves_bind; [| intro]
  | |- preserves _ (put_fw _) => apply keeps_put; reflexivity
  | |- preserves _ (loopM _ _ _ _) => apply keeps_loopM
  | |- preserves _ (library _) => apply keeps_library
  | |- preserves _ (driver _) => apply keeps_driver
  | |- preserves _ (from_library _ _) => apply keeps_from_library
  | |- preserves _ (attempt _) => apply preserves_attempt
  | |- preserves _ (if ?c then _ else _) => destruct c
  | |- preserves _ (match ?r with Ok _ => _ | Err _ => _ end) => destruct r
  | |- preserves _ (match ?r with Some _ => _ | None => _ end) => destruct r
  | |- preserves _ (let '(_, _) := ?p in _) => destruct p
  | |- preserves _ _ => solve [auto with preserves_db]
  end.
Ltac keeps_tac := repeat (intros; keeps_step).

(** ** The functions of the request *)

Lemma keeps_bus_read p o : keeps (bus_read p o).
Proof.
  unfold bus_read. apply preserves_bind; [apply keeps_client | intros c]. destruct (read32 (bus c)) as [[] |]; [| | apply preserves_fail];
    apply keeps_device; intros d; [apply (apart_load HA) | apply (apart_read HA)].
Qed.

Lemma keeps_poll {E} (stop : E) n a good : keeps (poll_until stop n a good).
Proof. induction n as [| n IH]; cbn [poll_until]; keeps_tac. Qed.

Lemma keeps_getc : keeps uart_getc.
Proof. unfold uart_getc. apply preserves_bind; [apply keeps_poll |]. keeps_tac. Qed.
#[local] Hint Resolve keeps_bus_read keeps_poll keeps_getc : preserves_db.

Lemma keeps_read_bytes n : keeps (uart_read_bytes n).
Proof. unfold uart_read_bytes. keeps_tac. Qed.
Lemma keeps_discard n : keeps (uart_discard n).
Proof. unfold uart_discard. keeps_tac. Qed.
Lemma keeps_get_u32 : keeps uart_get_u32.
Proof. unfold uart_get_u32. keeps_tac. Qed.
Lemma keeps_get_u16 : keeps uart_get_u16.
Proof. unfold uart_get_u16. keeps_tac. Qed.
Lemma keeps_probe p : keeps (lms_mmio_probe p).
Proof. unfold lms_mmio_probe. keeps_tac. Qed.
Lemma keeps_ensure p : keeps (ensure_probe p).
Proof. unfold ensure_probe. apply preserves_bind; [apply keeps_client | intros c]. destruct (negb _); [apply preserves_ret | apply keeps_probe]. Qed.
#[local] Hint Resolve keeps_read_bytes keeps_discard keeps_get_u32 keeps_get_u16 keeps_ensure : preserves_db.

Lemma keeps_enable p k : keeps (lms_mmio_lmots_sign_enable p k).
Proof. unfold lms_mmio_lmots_sign_enable, set_backend, lmots_sign_backend_set, lmots_sign_randomizer_backend_set. keeps_tac. Qed.

Lemma keeps_leave : keeps leave_sign.
Proof.
  unfold leave_sign, lms_mmio_lmots_sign_disable, lms_mmio_lmots_sign_enable_insecure, set_backend,
    lmots_sign_chain_backend_set, lmots_sign_derive_backend_set, lmots_sign_randomizer_backend_set, lmots_sign_backend_set.
  keeps_tac.
Qed.

Lemma keeps_types I_ rest : keeps (receive_types I_ rest).
Proof. unfold receive_types. keeps_tac. Qed.

Lemma keeps_count_work a b c : keeps (count_work a b c).
Proof. unfold count_work, the_client, add_hits. keeps_tac. Qed.

Lemma keeps_sig_len priv : keeps (library_value (lmots_sig_len_priv priv)).
Proof. unfold library_value, lmots_sig_len_priv, lmots_sig_len_type. keeps_tac. Qed.
#[local] Hint Resolve keeps_enable keeps_leave keeps_types keeps_count_work keeps_sig_len : preserves_db.

(** ** The transaction *)

Lemma wp_keeps {A} (m : F A) (Q : A -> world -> Prop) w :
  keeps m -> (forall a w', domain w' = domain w -> Q a w') -> wp m Q (fun _ _ => True) w.
Proof. intros Hm HQ. specialize (Hm w). unfold wp. destruct (m w) as [[a | e] w']; [apply HQ, Hm | exact I]. Qed.

(** A step that leaves the domain alone, in front. *)
Lemma wp_quiet {A B} (m : F A) (f : A -> F B) (Q : B -> world -> Prop) w :
  keeps m -> (forall a w', domain w' = domain w -> wp (f a) Q (fun _ _ => True) w') -> wp (m ≫= f) Q (fun _ _ => True) w.
Proof. intros Hm Hf. apply wp_bind, wp_keeps; assumption. Qed.

Lemma sec_driver_yields {A} (m : DM A) Q h a h' : yields m Q -> sec_driver m h = (Ok a, h') -> Q a.
Proof.
  intros Hm. specialize (Hm (sw_world h)). unfold sec_driver, wp in *.
  destruct (m (sw_world h)) as [[x | e] w]; [intros [= <- <-]; exact Hm | discriminate].
Qed.

(** The values the driver hands the domain have their C types, whatever the bus answers. *)
Lemma fw_sec_types : SecHwTypes fw_sec_hw.
Proof.
  split.
  - intros c msg h out h' E. exact (sec_driver_yields _ _ _ _ _ (hmac_yields c (Buf msg)) E).
  - intros c h tx h' E. exact (sec_driver_yields _ _ _ _ _ (mc_step_yields c) E).
  - intros c st ctr aad h tx tag h' E. exact (sec_driver_yields _ _ _ _ _ (state_commit_yields c st ctr aad) E).
Qed.

(** The index of [s] was released, [s'] is behind its commit. *)
Definition released_from (s s' : sec_t) : Prop :=
  sec_state s = SEC_ST_IDLE /\ sec_key_loaded s <> 0 /\
  sec_state s' = SEC_ST_IDLE /\ sec_ctr s' = sec_ctr s + 1 /\
  exists tx1 tx2 tag1 tag2, sec_last_tx s < tx1 < tx2 /\
    slot_of s' (sec_active_slot s') = new_rec SEC_ST_IDLE (sec_ctr s + 1) tx2 tag2 /\
    slot_of s' (inactive_slot s') = new_rec SEC_ST_RESERVED (sec_ctr s) tx1 tag1.

(** Nothing was released: refused, exhausted, reserved or burned. *)
Definition withheld (s s' : sec_t) : Prop :=
  s' = s {{ sec_state := SEC_ST_EXHAUSTED }} \/ not_released (sec_ctr s) s s'.

Lemma secure_domain {A} resp ctx (m : FM A) w :
  let run := m (mkFmem (domain w) (mkSecWorld w ctx false) resp) in
  domain (snd (secure resp ctx m w)) = f_sec (snd run) /\
  forall r b c, fst (secure resp ctx m w) = Ok (r, b, c) -> r = fst run.
Proof.
  unfold secure, domain. cbn zeta. destruct (m _) as [r s]. cbn [fst snd]. destruct (f_hw s) as [w' c u]. destruct w'.
  cbn. rewrite fw_set. split; [reflexivity |]. destruct u; [discriminate |]. intros r' b c' [= <- _ _]. reflexivity.
Qed.

(** The transaction does not unload the key. *)
Lemma commit_keeps_loaded st ctr : preserves (fun m : fmem => sec_key_loaded (f_sec m)) (state_commit st ctr).
Proof.
  unfold state_commit, commit_finish, rec_valid_check, rec_valid, compute_tag, set_valid, set_diag, set_slot. preserves_tac.
Qed.
#[local] Hint Resolve commit_keeps_loaded : preserves_db.

Lemma sign_keeps_loaded max_ctr f p : preserves (fun m : fmem => sec_key_loaded (f_sec m)) (sec_sign max_ctr f p).
Proof. unfold sec_sign, set_state. destruct f; preserves_tac. Qed.

(** The outcome of the transaction on the statics of the firmware. *)
Lemma secure_sign max_ctr ctx w : slots_ok (domain w) -> 0 <= sec_ctr (domain w) -> 0 <= max_ctr <= UINT_MAX ->
  wp (secure [] ctx (sec_sign max_ctr (Some sec_sign_do) local_ptr))
    (fun '(r, _, _) w' =>
       sec_key_loaded (domain w') = sec_key_loaded (domain w) /\
       match r with
       | Ok q => q = sec_ctr (domain w) /\ released_from (domain w) (domain w')
       | Err rc => 1 <= rc <= 6 /\ withheld (domain w) (domain w')
       end) (fun _ _ => True) w.
Proof.
  intros Hs Hc Hmax. set (prog := sec_sign max_ctr (Some sec_sign_do) local_ptr). unfold wp.
  destruct (secure_domain [] ctx prog w) as [Hd Hr].
  pose proof (sec_sign_outcomes fw_sec_types max_ctr (Some sec_sign_do) local_ptr (mkFmem (domain w) (mkSecWorld w ctx false) []) Hs Hc Hmax) as Hout.
  pose proof (sign_keeps_loaded max_ctr (Some sec_sign_do) local_ptr (mkFmem (domain w) (mkSecWorld w ctx false) [])) as Hl.
  fold prog in Hout, Hl. destruct (secure [] ctx prog w) as [[[[r b] c] |] w']; [| exact I]. cbn [fst snd] in Hd, Hr.
  rewrite (Hr _ _ _ eq_refl), Hd. destruct (prog _) as [[q | rc] m']; cbn [fst snd f_sec] in *; (split; [exact Hl |]).
  - destruct Hout as (E1 & E2 & -> & _ & _ & E3 & E4 & E5). split; [reflexivity |]. unfold released_from. auto.
  - destruct Hout as [(-> & -> & _) | [(-> & -> & _) | [(-> & E & _) | ([-> | ->] & _ & E)]]];
      (split; [vm_compute; split; discriminate |]).
    + right. left. reflexivity.
    + right. left. reflexivity.
    + left. exact E.
    + right. exact E.
    + right. exact E.
Qed.

Lemma max_ctr_wp type (Q : Z -> world -> Prop) w :
  (forall n w', domain w' = domain w -> 0 <= n <= UINT_MAX -> Q n w') -> wp (max_ctr_of type) Q (fun _ _ => True) w.
Proof.
  intros HQ. unfold max_ctr_of. apply wp_quiet; [keeps_tac |]. intros r w' Hw. apply HQ; [exact Hw |].
  destruct r as [p | e]; [| unfold UINT_MAX; lia]. pose proof (u32_range (1 .<< lms_p_height p)). unfold UINT_MAX. lia.
Qed.

(** [rc], the domain and the index of [sec_sign_run]. *)
Definition run_outcome (s : sec_t) (rc q : Z) (s' : sec_t) : Prop :=
  (rc = SEC_OK /\ q = sec_ctr s /\ released_from s s' /\ sec_key_loaded s' = sec_key_loaded s) \/
  (1 <= rc <= 6 /\ withheld s s').

Lemma sign_run_wp max_ctr ctx w : slots_ok (domain w) -> 0 <= sec_ctr (domain w) -> 0 <= max_ctr <= UINT_MAX ->
  wp (sec_sign_run max_ctr ctx) (fun '(rc, _, q) w' => run_outcome (domain w) rc q (domain w')) (fun _ _ => True) w.
Proof.
  intros Hs Hc Hmax. unfold sec_sign_run. apply wp_quiet; [keeps_tac |]. intros enabled w1 H1. destruct (is_ok enabled).
  - apply wp_bind. rewrite <- H1 in Hs, Hc. eapply wp_conseq; [apply (secure_sign _ _ _ Hs Hc Hmax) | | auto].
    intros [[r b] c] w2 [Hl Hr]. rewrite H1 in *. destruct r as [q | rc]; apply wp_ret.
    + destruct Hr as [-> Hr]. left. auto.
    + right. exact Hr.
  - apply wp_ret. rewrite H1. right. split; [vm_compute; split; discriminate |]. right. left. reflexivity.
Qed.
Lemma wp_key_ready (Q : Z -> world -> Prop) R w : Q (sec_key_loaded (domain w)) w -> wp sec_key_ready Q R w.
Proof. exact (fun HQ => HQ). Qed.

Lemma wp_put f (Q : unit -> world -> Prop) R w :
  (forall w', fw_at (device w') = f (fw_at (device w)) -> Q tt w') -> wp (put_fw f : F unit) Q R w.
Proof. intros HQ. apply HQ. destruct w. apply fw_set. Qed.

(** The mirror takes the active record. *)
Lemma export_wp w :
  wp export_state (fun _ w' => domain w' = domain w /\
    nvm_state (fw_at (device w')) = slot_of (domain w) (sec_active_slot (domain w)) /\ nvm_valid (fw_at (device w')) = [1; 1])
    (fun _ _ => True) w.
Proof.
  unfold export_state, secure_call. apply wp_bind, wp_bind. unfold wp at 1. destruct (secure_domain [] no_ctx sec_export_active w) as [Hd Hr].
  destruct (secure [] no_ctx sec_export_active w) as [[[[r b] c] |] w1]; [| exact I]. cbn [fst snd] in Hd, Hr.
  apply wp_ret, wp_put. intros w2 E. rewrite (Hr _ _ _ eq_refl) in E. cbn in Hd, E.
  unfold domain in *. rewrite E. destruct (fw_at (device w1)). cbn in *. rewrite Hd. auto.
Qed.

(** What the host sees of an outcome of the transaction. *)
Definition sign_report (s : sec_t) (frame : bytes) (work : work_t) (w' : world) : Prop :=
  if rd frame 2 =? 0 then
    released_from s (domain w') /\ slice 20 4 frame = put_be32 (sec_ctr s) /\
    nvm_state (fw_at (device w')) = slot_of (domain w') (sec_active_slot (domain w')) /\ nvm_valid (fw_at (device w')) = [1; 1]
  else withheld s (domain w') /\ w_signature_length work = 0.

Lemma sign_from_uart_wp w : slots_ok (domain w) -> 0 <= sec_ctr (domain w) ->
  wp (sec_sign_from_uart empty_frame) (fun '(frame, work) w' => sign_report (domain w) frame work w') (fun _ _ => True) w.
Proof.
  intros Hs Hc. unfold sec_sign_from_uart.
  apply wp_quiet; [keeps_tac | intros I_ w1 H1]. apply wp_quiet; [keeps_tac | intros priv w2 H2].
  apply wp_quiet; [keeps_tac | intros n w3 H3]. rewrite H2, H1 in H3. clear w1 w2 H1 H2. destruct (_ <? n).
  { apply wp_quiet; [keeps_tac | intros ? w4 H4]. apply wp_ret. split; [| reflexivity].
    rewrite H4, H3. right. left. reflexivity. }
  apply wp_quiet; [keeps_tac | intros message w4 H4]. apply wp_quiet; [unfold soc_cycles; keeps_tac | intros t0 w5 H5].
  apply wp_quiet; [unfold the_client; keeps_tac | intros before w6 H6].
  apply wp_quiet; [unfold clear_hw_error, set_the_client; keeps_tac | intros ? w7 H7].
  apply wp_bind, max_ctr_wp. intros max_ctr w8 H8 Hmax. rewrite H7, H6, H5, H4, H3 in H8. clear w3 w4 w5 w6 w7 H3 H4 H5 H6 H7.
  rewrite <- H8 in Hs, Hc |- *. clear w H8. apply wp_bind.
  eapply wp_conseq; [apply (sign_run_wp _ _ _ Hs Hc Hmax) | | auto]. intros [[rc sign_rc] q] w1 Hrun.
  apply wp_quiet; [keeps_tac | intros ? w2 H2]. apply wp_quiet; [keeps_tac | intros cycles w3 H3].
  apply wp_quiet; [unfold soc_cycles; keeps_tac | intros t1 w4 H4]. apply wp_quiet; [keeps_tac | intros sig_len w5 H5].
  rewrite H4, H3, H2 in H5. clear w2 w3 w4 H2 H3 H4. apply wp_bind, wp_key_ready.
  rewrite <- H5 in Hrun. clear w1 H5. destruct Hrun as [(-> & -> & Hrel & Hl) | [Hrc Hw]].
  - rewrite (proj2 (Z.eqb_neq (sec_key_loaded (domain w5)) 0)) by (rewrite Hl; apply Hrel). cbn [negb]. apply wp_bind.
    eapply wp_conseq; [apply export_wp | | auto]. intros _ w2 (H2 & Hm & Hv). apply wp_ret. unfold sign_report.
    change (rd _ 2) with 0. cbn [Z.eqb]. rewrite H2. auto.
  - assert (Hfin : forall w2, domain w2 = domain w5 -> sign_report (domain w8)
      (splice 20 (put_be32 q) (splice 4 (store_le32 (u32 (t1 - t0))) (upd 3 (u8 (sign_rc .& 0xff)) (upd 2 (u8 rc) empty_frame))))
      (no_work {{ w_signature_length := if rc =? SEC_OK then sig_len else 0; w_cycles := cycles; w_total := u32 (t1 - t0) }}) w2).
    { intros w2 H2. unfold sign_report. change (rd _ 2) with (u8 rc). rewrite u8_small by (unfold is_byte; lia).
      rewrite (proj2 (Z.eqb_neq rc 0)) by lia. rewrite H2. split; [exact Hw |]. cbn.
      rewrite (proj2 (Z.eqb_neq rc SEC_OK)) by (unfold SEC_OK; lia). reflexivity. }
    apply wp_bind. destruct (negb _).
    + eapply wp_conseq; [apply export_wp | | auto]. intros _ w2 (H2 & _). apply wp_ret, Hfin, H2.
    + apply wp_ret, wp_ret, Hfin. reflexivity.
Qed.

(** C14: the command SEC_SIGN (0x54) over the serial line, from the request to the answer, whatever the accelerator and
    the signing callback do: an answer that is released, with the index in its bytes 20
    to 23, comes from an idle domain with a key, and by then the counter stands behind that index
    in a committed record, over the record of its reservation, and the mirror the host reads
    holds this record; an answer that is not released carries no signature, and its index
    is untouched, reserved or burned. *)
Theorem sec_sign_release (w : world) (Hs : slots_ok (domain w)) (Hc : 0 <= sec_ctr (domain w)) :
  wp (dispatch UART_REQUEST_SEC_SIGN) (fun answer w' =>
    let s := domain w in let s' := domain w' in let m' := fw_at (device w') in
    match answer with
    | None => s' = s
    | Some a =>
        if released a then
          released_from s s' /\ slice 20 4 (an_frame a) = put_be32 (sec_ctr s) /\
          nvm_state m' = slot_of s' (sec_active_slot s') /\ nvm_valid m' = [1; 1]
        else withheld s s' /\ w_signature_length (an_work a) = 0
    end) (fun _ _ => True) w.
Proof.
  change (dispatch UART_REQUEST_SEC_SIGN) with
    (with_wrap ('(frame, work) ← sec_sign_from_uart empty_frame; mret (frame_status frame [] work))).
  unfold with_wrap. apply wp_quiet; [unfold the_client; keeps_tac | intros c w1 H1]. destruct (_ =? 0); [apply wp_ret; exact H1 |].
  rewrite <- H1 in Hs, Hc |- *. apply wp_bind. eapply wp_conseq; [apply (sign_from_uart_wp _ Hs Hc) | | auto].
  intros [frame work] w2 H. apply wp_ret. unfold sign_report in H. unfold released. cbn [frame_status an_status an_error an_frame an_work].
  destruct (rd frame 2 =? 0) eqn:E; exact H.
Qed.
End Apart.

(** * On the board *)

Section OnBoard.
#[local] Existing Instance toy_hash_api.
#[local] Existing Instance board_hw.
#[local] Existing Instance board_mmio.
#[local] Existing Instance board_mem.
#[local] Existing Instance board_build.

Lemma board_load_fw a d : board_fw (snd (board_load a d)) = board_fw d.
Proof.
  unfold board_load. repeat (case_match; try reflexivity).
Qed.

Lemma board_store_fw a v d : board_fw (board_store a v d) = board_fw d.
Proof. unfold board_store. repeat (case_match; try reflexivity). Qed.

Lemma board_apart : statics_apart.
Proof. split; [apply board_load_fw | apply board_store_fw | reflexivity | reflexivity | reflexivity]. Qed.

(** A client that has probed an accelerator with every capability, a key with counter 4, and a
    request with a message of three bytes on the line. *)
Definition secure_client : lms_mmio_client_t :=
  zero_client {{ bus := board_bus; timeout_polls := 10; probed := 1; capabilities := 0xffff;
                 hash_desc := Some LMS_MMIO_HASH_DESC_SHAKE256 }}.
Definition keyed_domain : sec_t := zero_sec {{ sec_client := 1; sec_state := SEC_ST_IDLE; sec_key_loaded := 1; sec_ctr := 4 }}.
Definition sign_request : bytes :=
  fill 0x61 16 ++ store_le32 LMS_SHAKE256_N32_H5 ++ store_le32 LMOTS_SHAKE256_N32_W8 ++ [0; 3] ++ [1; 2; 3].
Definition secure_board : board :=
  mkBoard secure_client (mkAccel (fun _ => 0) (fun _ => 0) Ready) (boot_statics {{ sec_domain := keyed_domain }})
    false sign_request true [] 0 0.

Definition secure_world : world := initial_world secure_board.

Lemma released_answer (run : result fw_stop (option answer_t) * world) :
  match run with (Ok (Some a), _) => released a | _ => false end = true ->
  exists a w', run = (Ok (Some a), w') /\ released a = true.
Proof. destruct run as [[[a |] | e] w']; try discriminate. intros E. exists a, w'. auto. Qed.

Lemma secure_run : exists a w', dispatch UART_REQUEST_SEC_SIGN secure_world = (Ok (Some a), w') /\ released a = true.
Proof. apply released_answer. vm_compute. reflexivity. Qed.

Lemma secure_world_ok : slots_ok (domain secure_world) /\ 0 <= sec_ctr (domain secure_world).
Proof.
  change (domain secure_world) with keyed_domain. destruct zero_slots_ok as [Htwo _].
  split; [split; [exact Htwo | left; reflexivity] | vm_compute; discriminate].
Qed.

Lemma sec_sign_release_witness :
  exists a w', dispatch UART_REQUEST_SEC_SIGN secure_world = (Ok (Some a), w') /\ released a = true /\
    released_from (domain secure_world) (domain w') /\ slice 20 4 (an_frame a) = put_be32 (sec_ctr (domain secure_world)) /\
    nvm_valid (fw_at (device w')) = [1; 1].
Proof.
  destruct secure_run as (a & w' & E & Hr). exists a, w'. split; [exact E |]. split; [exact Hr |].
  pose proof (wp_run _ _ _ _ _ _ E (sec_sign_release board_apart secure_world (proj1 secure_world_ok) (proj2 secure_world_ok))) as H.
  cbv beta iota zeta in H. rewrite Hr in H. destruct H as (H1 & H2 & _ & H4). split; [exact H1 | split; [exact H2 | exact H4]].
Defined.

(** SEC_LMS_SIGN on the same board, where the mirror is not refreshed: the answer is released with
    index 4 and a signature, the record in the active slot counts to 5, and the mirror the host reads
    neither holds it nor is marked valid. *)
Example lms_sign_skips_mirror :
  let '(r, w') := dispatch UART_REQUEST_SEC_LMS_SIGN secure_world in
  let s' := domain w' in let m' := fw_at (device w') in
  (if r is Ok (Some a) then released a && (w_value (an_work a) =? 4) && (0 <? w_signature_length (an_work a)) else false) = true /\
  sec_ctr s' = 5 /\ rec_ctr (slot_of s' (sec_active_slot s')) = 5 /\
  nvm_state m' = nvm_state (fw_at (device secure_world)) /\ nvm_valid m' = [0; 0].
Proof. vm_compute. auto. Qed.
End OnBoard.
