(* ===== verification/SocRuntime.v ===== *)
(** The C library of the firmware (fw/lms_soc_runtime.c): blocks of memory and strings.

    Memory is a function from addresses to bytes.  A pointer is its address and, except in
    [strncpy], whose pointers are kept at 32 bits, does not leave the address space;
    [size_t] has 32 bits.  A loop that counts [n] down is structural on [n]; a loop that
    stops at a NUL takes fuel, and returns [None] when it runs out. *)

From S2P Require Import Prelude Types Params.

Definition memory : Type := Z -> Z.
Definition put (a v : Z) (m : memory) : memory := fun x => if x =? a then v else m x.

(** A little-endian word of the fast paths. *)
Definition word_at (m : memory) (a : Z) : Z := m a .| (m (a + 1) .<< 8) .| (m (a + 2) .<< 16) .| (m (a + 3) .<< 24).
Definition put_word (a v : Z) (m : memory) : memory :=
  put (a + 3) (u8 (v .>> 24)) (put (a + 2) (u8 (v .>> 16)) (put (a + 1) (u8 (v .>> 8)) (put a (u8 v) m))).

(** * Blocks *)

Definition aligned (p length : Z) : bool := ((p .& 3) =? 0) && ((length .& 3) =? 0).

Fixpoint copy_words (n : nat) (out in_ : Z) (m : memory) : memory :=
  match n with
  | O => m
  | S n => copy_words n (out + 4) (in_ + 4) (put_word out (word_at m in_) m)
  end.

Fixpoint copy_bytes (n : nat) (out in_ : Z) (m : memory) : memory :=
  match n with
  | O => m
  | S n => copy_bytes n (out + 1) (in_ + 1) (put out (m in_) m)
  end.

Definition memcpy (destination source length : Z) (m : memory) : memory :=
  if aligned (destination .| source) length
  then copy_words (Z.to_nat (length .>> 2)) destination source m
  else copy_bytes (Z.to_nat length) destination source m.

Fixpoint set_words (n : nat) (out pattern : Z) (m : memory) : memory :=
  match n with
  | O => m
  | S n => set_words n (out + 4) pattern (put_word out pattern m)
  end.

Fixpoint set_bytes (n : nat) (out value : Z) (m : memory) : memory :=
  match n with
  | O => m
  | S n => set_bytes n (out + 1) value (put out (u8 value) m)
  end.

Definition memset (destination value length : Z) (m : memory) : memory :=
  if aligned destination length then
    let pattern := u8 value in
    let pattern := pattern .| u32 (pattern .<< 8) in
    let pattern := pattern .| u32 (pattern .<< 16) in
    set_words (Z.to_nat (length .>> 2)) destination pattern m
  else set_bytes (Z.to_nat length) destination value m.

(** The search for the first difference, which the caller knows to be there. *)
Fixpoint locate (fuel : nat) (a b : Z) (m : memory) : option Z :=
  match fuel with
  | O => None
  | S fuel => if m a =? m b then locate fuel (a + 1) (b + 1) m else Some (m a - m b)
  end.

Fixpoint compare_words (n : nat) (a b : Z) (m : memory) : option Z :=
  match n with
  | O => Some 0
  | S n => if word_at m a =? word_at m b then compare_words n (a + 4) (b + 4) m else locate 4 a b m
  end.

Fixpoint compare_bytes (n : nat) (a b : Z) (m : memory) : Z :=
  match n with
  | O => 0
  | S n => if m a =? m b then compare_bytes n (a + 1) (b + 1) m else m a - m b
  end.

Definition memcmp (left right length : Z) (m : memory) : option Z :=
  if aligned (left .| right) length then compare_words (Z.to_nat (length .>> 2)) left right m
  else Some (compare_bytes (Z.to_nat length) left right m).

(** The firmware has no heap. *)
Definition malloc (size : Z) : Z := 0.

(** From the end: [out] and [in_] point behind the bytes still to copy. *)
Fixpoint copy_back (n : nat) (out in_ : Z) (m : memory) : memory :=
  match n with
  | O => m
  | S n => copy_back n (out - 1) (in_ - 1) (put (out - 1) (m (in_ - 1)) m)
  end.

Definition memmove (destination source length : Z) (m : memory) : memory :=
  if destination <? source then copy_bytes (Z.to_nat length) destination source m
  else if source <? destination then copy_back (Z.to_nat length) (destination + length) (source + length) m
  else m.

Fixpoint memchr_loop (n : nat) (p ch : Z) (m : memory) : Z :=
  match n with
  | O => 0
  | S n => if m p =? ch then p else memchr_loop n (p + 1) ch m
  end.
Definition memchr (s c n : Z) (m : memory) : Z := memchr_loop (Z.to_nat n) s (u8 c) m.

(** * Strings *)

Fixpoint find_nul (fuel : nat) (p : Z) (m : memory) : option Z :=
  match fuel with
  | O => None
  | S fuel => if m p =? 0 then Some p else find_nul fuel (p + 1) m
  end.
Definition strlen (fuel : nat) (s : Z) (m : memory) : option Z :=
  match find_nul fuel s m with Some p => Some (p - s) | None => None end.

Fixpoint strcmp (fuel : nat) (a b : Z) (m : memory) : option Z :=
  match fuel with
  | O => None
  | S fuel =>
      if negb (m a =? 0) && (m a =? m b) then strcmp fuel (a + 1) (b + 1) m else Some (m a - m b)
  end.

(** The loop leaves [n], [a] and [b]; the test [n-- > 0u] has wrapped [n] when it failed. *)
Fixpoint strncmp_loop (n : nat) (a b : Z) (m : memory) : Z * Z * Z :=
  match n with
  | O => (UINT_MAX, a, b)
  | S n =>
      if negb (m a =? 0) && (m a =? m b) then strncmp_loop n (a + 1) (b + 1) m else (Z.of_nat n, a, b)
  end.
Definition strncmp (a b n : Z) (m : memory) : Z :=
  let '(n, a, b) := strncmp_loop (Z.to_nat n) a b m in
  if n =? UINT_MAX then 0 else m a - m b.

Fixpoint strchr_loop (fuel : nat) (s ch : Z) (m : memory) : option Z :=
  match fuel with
  | O => None
  | S fuel =>
      if m s =? 0 then Some (if ch =? 0 then s else 0)
      else if m s =? ch then Some s else strchr_loop fuel (s + 1) ch m
  end.
Definition strchr (fuel : nat) (s c : Z) (m : memory) : option Z := strchr_loop fuel s (u8 c) m.

Fixpoint strrchr_loop (fuel : nat) (s last ch : Z) (m : memory) : option Z :=
  match fuel with
  | O => None
  | S fuel =>
      if m s =? 0 then Some (if ch =? 0 then s else last)
      else strrchr_loop fuel (s + 1) (if m s =? ch then s else last) ch m
  end.
Definition strrchr (fuel : nat) (s c : Z) (m : memory) : option Z := strrchr_loop fuel s 0 (u8 c) m.

Fixpoint strstr_loop (fuel : nat) (haystack needle nlen : Z) (m : memory) : option Z :=
  match fuel with
  | O => None
  | S fuel =>
      if m haystack =? 0 then Some 0
      else if (m haystack =? m needle) && (strncmp haystack needle nlen m =? 0) then Some haystack
      else strstr_loop fuel (haystack + 1) needle nlen m
  end.
Definition strstr (fuel : nat) (haystack needle : Z) (m : memory) : option Z :=
  match strlen fuel needle m with
  | None => None
  | Some nlen => if nlen =? 0 then Some haystack else strstr_loop fuel haystack needle nlen m
  end.

Fixpoint strcpy (fuel : nat) (out source : Z) (m : memory) : option memory :=
  match fuel with
  | O => None
  | S fuel =>
      let m' := put out (m source) m in
      if m source =? 0 then Some m' else strcpy fuel (out + 1) (source + 1) m'
  end.

(** The pointers of [strncpy] run around the address space when [n] has wrapped, so they
    are kept at their 32 bits.  The first loop leaves [n], [out] and the memory; the second
    one writes [n] zeros. *)
Fixpoint strncpy_loop (n : nat) (out source : Z) (m : memory) : Z * Z * memory :=
  match n with
  | O => (UINT_MAX, out, m)
  | S n =>
      let m' := put out (m source) m in
      if m source =? 0 then (Z.of_nat n, u32 (out + 1), m') else strncpy_loop n (u32 (out + 1)) (u32 (source + 1)) m'
  end.
Fixpoint strncpy_pad (n : nat) (out : Z) (m : memory) : memory :=
  match n with
  | O => m
  | S n => strncpy_pad n (u32 (out + 1)) (put out 0 m)
  end.
Definition strncpy (destination source n : Z) (m : memory) : memory :=
  let '(n, out, m) := strncpy_loop (Z.to_nat n) destination source m in
  strncpy_pad (Z.to_nat n) out m.

(** * Words and bytes *)

Definition bytes_of_memory (m : memory) : Prop := forall x, is_byte (m x).

Lemma put_byte a v m : is_byte v -> bytes_of_memory m -> bytes_of_memory (put a v m).
Proof. intros Hv Hm x. unfold put. destruct (x =? a); auto. Qed.

Lemma word_value m a : bytes_of_memory m ->
  word_at m a = m a + 256 * (m (a + 1) + 256 * (m (a + 2) + 256 * m (a + 3))).
Proof.
  intros Hm. pose proof (Hm a) as H0. pose proof (Hm (a + 1)) as H1. pose proof (Hm (a + 2)) as H2.
  unfold word_at, is_byte in *.
  rewrite (Z.lor_comm (m a)), lor_shiftl_add by lia.
  rewrite (Z.lor_comm _ (_ .<< 16)), lor_shiftl_add by lia.
  rewrite (Z.lor_comm _ (_ .<< 24)), lor_shiftl_add by lia. lia.
Qed.

(** The bytes a word store writes. *)
Definition lane (v k : Z) : Z := u8 (v .>> (8 * k)).

Lemma put_word_at a v m x :
  put_word a v m x = if (a <=? x) && (x <? a + 4) then lane v (x - a) else m x.
Proof.
  unfold put_word, put, lane. destruct (Z.leb_spec a x), (Z.ltb_spec x (a + 4)); cbn [andb].
  - assert (H4 : x = a \/ x = a + 1 \/ x = a + 2 \/ x = a + 3) by lia.
    destruct H4 as [-> | [-> | [-> | ->]]];
      repeat match goal with |- context [?p =? ?q] => destruct (Z.eqb_spec p q); try lia end;
      match goal with |- _ = u8 (_ .>> (8 * ?k)) => first
        [ replace (8 * k) with 0 by lia; rewrite Z.shiftr_0_r; reflexivity
        | replace (8 * k) with 8 by lia; reflexivity
        | replace (8 * k) with 16 by lia; reflexivity
        | replace (8 * k) with 24 by lia; reflexivity ] end.
  - repeat match goal with |- context [?p =? ?q] => destruct (Z.eqb_spec p q); [lia |] end. reflexivity.
  - repeat match goal with |- context [?p =? ?q] => destruct (Z.eqb_spec p q); [lia |] end. reflexivity.
  - repeat match goal with |- context [?p =? ?q] => destruct (Z.eqb_spec p q); [lia |] end. reflexivity.
Qed.

Lemma lane_word m a k : bytes_of_memory m -> 0 <= k < 4 -> lane (word_at m a) k = m (a + k).
Proof.
  intros Hm Hk. pose proof (Hm a) as H0. pose proof (Hm (a + 1)) as H1. pose proof (Hm (a + 2)) as H2. pose proof (Hm (a + 3)) as H3.
  unfold lane, is_byte in *. rewrite word_value by exact Hm. rewrite u8_mod, Z.shiftr_div_pow2 by lia.
  assert (H4 : k = 0 \/ k = 1 \/ k = 2 \/ k = 3) by lia.
  destruct H4 as [-> | [-> | [-> | ->]]]; rewrite ?Z.add_0_r;
    [change (2 ^ (8 * 0)) with 1 | change (2 ^ (8 * 1)) with 256 | change (2 ^ (8 * 2)) with 65536 | change (2 ^ (8 * 3)) with 16777216];
    Z.to_euclidean_division_equations; lia.
Qed.

Lemma put_word_bytes a v m : bytes_of_memory m -> bytes_of_memory (put_word a v m).
Proof. intros Hm. unfold put_word. repeat apply put_byte; auto using u8_byte. Qed.

Lemma word_inj m a b : bytes_of_memory m ->
  word_at m a = word_at m b -> forall k, 0 <= k < 4 -> m (a + k) = m (b + k).
Proof. intros Hm E k Hk. rewrite <- !lane_word, E by assumption. reflexivity. Qed.

(** An aligned length counts words. *)
Lemma aligned_words p length : aligned p length = true -> 0 <= length -> length = 4 * Z.of_nat (Z.to_nat (length .>> 2)).
Proof.
  unfold aligned. intros H Hl. apply andb_true_iff in H as [_ H]. apply Z.eqb_eq in H.
  change 3 with (Z.ones 2) in H. rewrite Z.land_ones in H by lia. rewrite Z.shiftr_div_pow2 by lia.
  change (2 ^ 2) with 4 in *. rewrite Z2Nat.id by (apply Z.div_pos; lia). Z.to_euclidean_division_equations; lia.
Qed.

(** * Blocks are moved *)

(** [m'] is [m] with the [n] bytes from [src] on at [dst]. *)
Definition moved (dst src n : Z) (m m' : memory) : Prop :=
  forall x, m' x = if (dst <=? x) && (x <? dst + n) then m (src + (x - dst)) else m x.

(** Copying forward, in pieces of [w] bytes that are read before they are written. *)
Lemma moved_step w n dst src m m1 m2 : 0 <= w -> 0 <= n -> dst <= src \/ src + w + n <= dst ->
  moved dst src w m m1 -> moved (dst + w) (src + w) n m1 m2 -> moved dst src (w + n) m m2.
Proof.
  intros Hw Hn Hd H1 H2 x. rewrite H2.
  destruct (Z.leb_spec (dst + w) x), (Z.ltb_spec x (dst + w + n)), (Z.leb_spec dst x), (Z.ltb_spec x (dst + (w + n)));
    cbn [andb]; try lia; rewrite H1;
    repeat match goal with |- context [(?a <=? ?b) && (?c <? ?d)] => destruct (Z.leb_spec a b), (Z.ltb_spec c d); cbn [andb]; try lia end;
    try reflexivity; f_equal; lia.
Qed.

Lemma put_moved dst src m : moved dst src 1 m (put dst (m src) m).
Proof.
  intros x. unfold put. destruct (Z.eqb_spec x dst) as [-> | Hne].
  - rewrite Z.leb_refl, (proj2 (Z.ltb_lt _ _)) by lia. cbn [andb]. f_equal. lia.
  - destruct (Z.leb_spec dst x), (Z.ltb_spec x (dst + 1)); cbn [andb]; try reflexivity; lia.
Qed.

Lemma put_other a v m x : x <> a -> put a v m x = m x.
Proof. intros H. unfold put. rewrite (proj2 (Z.eqb_neq _ _) H). reflexivity. Qed.

Lemma copy_bytes_moved n : forall dst src m, dst <= src \/ src + Z.of_nat n <= dst ->
  moved dst src (Z.of_nat n) m (copy_bytes n dst src m).
Proof.
  induction n as [| n IH]; intros dst src m Hd.
  - intros x. destruct (Z.leb_spec dst x), (Z.ltb_spec x (dst + Z.of_nat 0)); cbn [andb copy_bytes]; try reflexivity; lia.
  - cbn [copy_bytes]. replace (Z.of_nat (S n)) with (1 + Z.of_nat n) by lia.
    apply moved_step with (m1 := put dst (m src) m); [lia | lia | lia | apply put_moved | apply IH; lia].
Qed.

Lemma copy_words_moved n : forall dst src m, bytes_of_memory m -> dst <= src \/ src + 4 * Z.of_nat n <= dst ->
  moved dst src (4 * Z.of_nat n) m (copy_words n dst src m).
Proof.
  induction n as [| n IH]; intros dst src m Hm Hd.
  - intros x. destruct (Z.leb_spec dst x), (Z.ltb_spec x (dst + 4 * Z.of_nat 0)); cbn [andb copy_words]; try reflexivity; lia.
  - cbn [copy_words]. replace (4 * Z.of_nat (S n)) with (4 + 4 * Z.of_nat n) by lia.
    apply moved_step with (m1 := put_word dst (word_at m src) m); [lia | lia | lia | | apply IH; [apply put_word_bytes, Hm | lia]].
    intros x. rewrite put_word_at. destruct (Z.leb_spec dst x), (Z.ltb_spec x (dst + 4)); cbn [andb]; try reflexivity.
    apply lane_word; [exact Hm | lia].
Qed.

Lemma memcpy_moved dst src n m : bytes_of_memory m -> 0 <= n -> dst <= src \/ src + n <= dst ->
  moved dst src n m (memcpy dst src n m).
Proof.
  intros Hm Hn Hd. unfold memcpy. destruct (aligned _ n) eqn:Ha.
  - rewrite (aligned_words _ _ Ha Hn) at 1. apply copy_words_moved; [exact Hm |]. rewrite <- (aligned_words _ _ Ha Hn). exact Hd.
  - rewrite <- (Z2Nat.id n Hn) at 1. apply copy_bytes_moved. rewrite Z2Nat.id by exact Hn. exact Hd.
Qed.

Lemma copy_back_moved n : forall dst src m, src <= dst ->
  moved (dst - Z.of_nat n) (src - Z.of_nat n) (Z.of_nat n) m (copy_back n dst src m).
Proof.
  induction n as [| n IH]; intros dst src m Hd x.
  - destruct (Z.leb_spec (dst - Z.of_nat 0) x), (Z.ltb_spec x (dst - Z.of_nat 0 + Z.of_nat 0)); cbn [andb copy_back]; try reflexivity; lia.
  - cbn [copy_back]. rewrite (IH (dst - 1) (src - 1) _ ltac:(lia) x). unfold put.
    repeat match goal with |- context [?a <=? ?b] => destruct (Z.leb_spec a b) end;
    repeat match goal with |- context [?a <? ?b] => destruct (Z.ltb_spec a b) end; cbn [andb]; try lia;
    repeat match goal with |- context [?a =? ?b] => destruct (Z.eqb_spec a b) end; try lia; try reflexivity; f_equal; lia.
Qed.

Lemma memmove_moved dst src n m : 0 <= n -> moved dst src n m (memmove dst src n m).
Proof.
  intros Hn. unfold memmove. destruct (Z.ltb_spec dst src); [| destruct (Z.ltb_spec src dst)].
  - rewrite <- (Z2Nat.id n Hn) at 1. apply copy_bytes_moved. lia.
  - pose proof (copy_back_moved (Z.to_nat n) (dst + n) (src + n) m ltac:(lia)) as H1. rewrite Z2Nat.id in H1 by exact Hn.
    rewrite !Z.add_simpl_r in H1. exact H1.
  - intros x. destruct ((dst <=? x) && (x <? dst + n)); [| reflexivity]. f_equal. lia.
Qed.

(** [memset]: the block holds the byte, the rest of memory is as it was. *)
Definition filled (dst n v : Z) (m m' : memory) : Prop :=
  forall x, m' x = if (dst <=? x) && (x <? dst + n) then v else m x.

Lemma filled_step w n dst v m m1 m2 : 0 <= w -> 0 <= n ->
  filled dst w v m m1 -> filled (dst + w) n v m1 m2 -> filled dst (w + n) v m m2.
Proof.
  intros Hw Hn H1 H2 x. rewrite H2, H1.
  destruct (Z.leb_spec (dst + w) x), (Z.ltb_spec x (dst + w + n)), (Z.leb_spec dst x), (Z.ltb_spec x (dst + w)),
    (Z.ltb_spec x (dst + (w + n))); cbn [andb]; try reflexivity; lia.
Qed.

Lemma filled_none dst v m n : n = 0 -> filled dst n v m m.
Proof. intros -> x. destruct (Z.leb_spec dst x), (Z.ltb_spec x (dst + 0)); cbn [andb]; try reflexivity; lia. Qed.

Lemma set_bytes_filled n : forall dst v m, filled dst (Z.of_nat n) (u8 v) m (set_bytes n dst v m).
Proof.
  induction n as [| n IH]; intros dst v m; [apply filled_none; reflexivity |].
  cbn [set_bytes]. replace (Z.of_nat (S n)) with (1 + Z.of_nat n) by lia.
  eapply filled_step; [lia | lia | | apply IH].
  intros x. unfold put. destruct (Z.eqb_spec x dst), (Z.leb_spec dst x), (Z.ltb_spec x (dst + 1)); cbn [andb]; try reflexivity; lia.
Qed.

(** The pattern holds the byte in each of its lanes. *)
Definition pattern_of (value : Z) : Z :=
  let p := u8 value .| u32 (u8 value .<< 8) in p .| u32 (p .<< 16).

Lemma pattern_lanes value k : 0 <= k < 4 -> lane (pattern_of value) k = u8 value.
Proof.
  intros Hk.
  assert (H : forallb (fun b => forallb (fun j => lane (pattern_of b) j =? b) (seqZ 0 4)) (seqZ 0 256) = true)
    by (vm_compute; reflexivity).
  pose proof (u8_byte value) as Hb. unfold is_byte in Hb.
  pose proof (forallb_seqZ _ 256 (u8 value) H Hb) as H1.
  pose proof (forallb_seqZ _ 4 k H1 Hk) as H2. apply Z.eqb_eq in H2.
  replace (pattern_of value) with (pattern_of (u8 value)); [exact H2 |].
  unfold pattern_of. replace (u8 (u8 value)) with (u8 value); [reflexivity |].
  rewrite !u8_mod. symmetry. apply Z.mod_mod. lia.
Qed.

Lemma set_words_filled n : forall dst value m,
  filled dst (4 * Z.of_nat n) (u8 value) m (set_words n dst (pattern_of value) m).
Proof.
  induction n as [| n IH]; intros dst v m; [apply filled_none; reflexivity |].
  cbn [set_words]. replace (4 * Z.of_nat (S n)) with (4 + 4 * Z.of_nat n) by lia.
  eapply filled_step; [lia | lia | | apply IH].
  intros x. rewrite put_word_at. destruct (Z.leb_spec dst x), (Z.ltb_spec x (dst + 4)); cbn [andb]; try reflexivity.
  apply pattern_lanes. lia.
Qed.

Lemma memset_filled dst value n m : 0 <= n -> filled dst n (u8 value) m (memset dst value n m).
Proof.
  intros Hn. unfold memset. destruct (aligned dst n) eqn:Ha.
  - rewrite (aligned_words _ _ Ha Hn) at 1. apply set_words_filled.
  - rewrite <- (Z2Nat.id n Hn) at 1. apply set_bytes_filled.
Qed.

(** * The first difference *)

(** [r] is the difference of the first bytes that differ, or 0. *)
Definition first_difference (a b n : Z) (m : memory) (r : Z) : Prop :=
  (r = 0 /\ forall k, 0 <= k < n -> m (a + k) = m (b + k)) \/
  exists k, 0 <= k < n /\ m (a + k) <> m (b + k) /\ r = m (a + k) - m (b + k) /\
    forall j, 0 <= j < k -> m (a + j) = m (b + j).

Lemma first_difference_step w n a b m r : 0 <= w ->
  (forall k, 0 <= k < w -> m (a + k) = m (b + k)) ->
  first_difference (a + w) (b + w) n m r -> first_difference a b (w + n) m r.
Proof.
  intros Hw He H.
  assert (Hs : forall k, w <= k -> a + k = a + w + (k - w) /\ b + k = b + w + (k - w)) by lia.
  destruct H as [[-> H] | (k & Hk & Hd & -> & H)]; [left; split; [reflexivity |] | right; exists (w + k)].
  - intros k Hk. destruct (Z.lt_ge_cases k w); [apply He; lia |].
    destruct (Hs k) as [-> ->]; [lia | apply H; lia].
  - destruct (Hs (w + k)) as [-> ->]; [lia |]. replace (w + k - w) with k by lia.
    split; [lia |]. split; [exact Hd |]. split; [reflexivity |]. intros j Hj.
    destruct (Z.lt_ge_cases j w); [apply He; lia |]. destruct (Hs j) as [-> ->]; [lia | apply H; lia].
Qed.

Lemma first_difference_here a b n m : 0 < n -> m a <> m b -> first_difference a b n m (m a - m b).
Proof. intros Hn Hd. right. exists 0. rewrite !Z.add_0_r. repeat split; try assumption; lia. Qed.

Lemma first_difference_end a b m : first_difference a b 0 m 0.
Proof. left. split; [reflexivity | lia]. Qed.

Lemma one_byte (a b : Z) (m : memory) : m a = m b -> forall k, 0 <= k < 1 -> m (a + k) = m (b + k).
Proof. intros E k Hk. replace k with 0 by lia. rewrite !Z.add_0_r. exact E. Qed.
Lemma compare_bytes_first n : forall a b m, first_difference a b (Z.of_nat n) m (compare_bytes n a b m).
Proof.
  induction n as [| n IH]; intros a b m; cbn [compare_bytes]; [apply first_difference_end |].
  destruct (Z.eqb_spec (m a) (m b)).
  - replace (Z.of_nat (S n)) with (1 + Z.of_nat n) by lia. apply first_difference_step; [lia | apply one_byte; assumption | apply IH].
  - apply first_difference_here; [lia | assumption].
Qed.

(** Bytes that differ somewhere in the next [n] are found, and the search stays there. *)
Lemma locate_first n : forall a b m, ~ (forall k, 0 <= k < Z.of_nat n -> m (a + k) = m (b + k)) ->
  exists r, locate n a b m = Some r /\ first_difference a b (Z.of_nat n) m r.
Proof.
  induction n as [| n IH]; intros a b m Hd; [contradict Hd; lia |]. cbn [locate].
  replace (Z.of_nat (S n)) with (1 + Z.of_nat n) in * by lia.
  destruct (Z.eqb_spec (m a) (m b)) as [E | E].
  - destruct (IH (a + 1) (b + 1) m) as (r & Hr & Hf).
    + intros H. apply Hd. intros k Hk. destruct (Z.eq_dec k 0) as [-> | Hk0]; [rewrite !Z.add_0_r; exact E |].
      specialize (H (k - 1) ltac:(lia)). replace (a + 1 + (k - 1)) with (a + k) in H by lia.
      replace (b + 1 + (k - 1)) with (b + k) in H by lia. exact H.
    + exists r. split; [exact Hr |]. apply first_difference_step; [lia | apply one_byte; assumption | exact Hf].
  - eexists. split; [reflexivity |]. apply first_difference_here; [lia | exact E].
Qed.

Lemma word_ext m a b : (forall k, 0 <= k < 4 -> m (a + k) = m (b + k)) -> word_at m a = word_at m b.
Proof.
  intros H. unfold word_at. rewrite <- (Z.add_0_r a), <- (Z.add_0_r b), !H by lia. rewrite !Z.add_0_r, !H by lia. reflexivity.
Qed.

Lemma first_difference_longer a b n n' m r : n <= n' -> r <> 0 -> first_difference a b n m r -> first_difference a b n' m r.
Proof. intros Hn Hr [[-> _] | (k & Hk & H)]; [congruence | right; exists k; split; [lia | exact H]]. Qed.

Lemma first_difference_zero a b n m : first_difference a b n m 0 -> forall k, 0 <= k < n -> m (a + k) = m (b + k).
Proof. intros [[_ H] | (k & _ & Hd & E & _)]; [exact H | lia]. Qed.

Lemma compare_words_first n : forall a b m, bytes_of_memory m ->
  exists r, compare_words n a b m = Some r /\ first_difference a b (4 * Z.of_nat n) m r.
Proof.
  induction n as [| n IH]; intros a b m Hm; cbn [compare_words]; [exists 0; split; [reflexivity | apply first_difference_end] |].
  replace (4 * Z.of_nat (S n)) with (4 + 4 * Z.of_nat n) by lia.
  destruct (Z.eqb_spec (word_at m a) (word_at m b)) as [E | E].
  - destruct (IH (a + 4) (b + 4) m Hm) as (r & Hr & Hf). exists r. split; [exact Hr |].
    apply first_difference_step; [lia | apply word_inj; assumption | exact Hf].
  - assert (Hd : ~ (forall k, 0 <= k < Z.of_nat 4 -> m (a + k) = m (b + k))) by (intros H; apply E, word_ext, H).
    destruct (locate_first 4 a b m Hd) as (r & Hr & Hf). exists r. split; [exact Hr |].
    apply first_difference_longer with (n := Z.of_nat 4); [lia | | exact Hf].
    intros ->. apply Hd. apply first_difference_zero, Hf.
Qed.

(** * Strings *)

(** A string of [l] characters. *)
Definition str_at (m : memory) (s l : Z) : Prop := 0 <= l /\ (forall k, 0 <= k < l -> m (s + k) <> 0) /\ m (s + l) = 0.

Lemma str_at_nil m s l : str_at m s l -> m s = 0 -> l = 0.
Proof.
  intros (Hl & Hc & _) H0. destruct (Z.eq_dec l 0); [assumption |]. exfalso. apply (Hc 0); [lia |].
  rewrite Z.add_0_r. exact H0.
Qed.

Lemma str_at_cons m s l : str_at m s l -> m s <> 0 -> 0 < l /\ str_at m (s + 1) (l - 1).
Proof.
  intros (Hl & Hc & He) H0.
  assert (H : 0 < l) by (destruct (Z.eq_dec l 0) as [-> | ]; [rewrite Z.add_0_r in He; contradiction | lia]).
  split; [exact H |]. split; [lia |]. split.
  - intros k Hk. replace (s + 1 + k) with (s + (k + 1)) by lia. apply Hc. lia.
  - replace (s + 1 + (l - 1)) with (s + l) by lia. exact He.
Qed.

Lemma find_nul_found fuel : forall s l m, str_at m s l -> l < Z.of_nat fuel -> find_nul fuel s m = Some (s + l).
Proof.
  induction fuel as [| fuel IH]; intros s l m Hs Hf; [destruct Hs; lia |]. cbn [find_nul].
  destruct (Z.eqb_spec (m s) 0) as [E | E].
  - rewrite (str_at_nil _ _ _ Hs E), Z.add_0_r. reflexivity.
  - destruct (str_at_cons _ _ _ Hs E) as [Hl Hs']. rewrite (IH _ _ _ Hs') by lia. f_equal. lia.
Qed.

Lemma strlen_length fuel s l m : str_at m s l -> l < Z.of_nat fuel -> strlen fuel s m = Some l.
Proof. intros Hs Hf. unfold strlen. rewrite (find_nul_found _ _ _ _ Hs Hf). f_equal. lia. Qed.

(** Two strings compare as equal when they are. *)
Lemma strcmp_equal fuel : forall a b l m, str_at m a l -> (forall k, 0 <= k <= l -> m (a + k) = m (b + k)) ->
  l < Z.of_nat fuel -> strcmp fuel a b m = Some 0.
Proof.
  induction fuel as [| fuel IH]; intros a b l m Hs He Hf; [destruct Hs; lia |]. cbn [strcmp].
  assert (E0 : m a = m b) by (specialize (He 0); rewrite !Z.add_0_r in He; apply He; destruct Hs; lia).
  rewrite E0, Z.eqb_refl. destruct (Z.eqb_spec (m b) 0) as [E | E]; cbn [negb andb]; [f_equal; lia |].
  destruct (str_at_cons _ _ _ Hs ltac:(congruence)) as [Hl Hs']. apply (IH _ _ _ _ Hs'); [| lia].
  intros k Hk. rewrite <- !Z.add_assoc. apply He. lia.
Qed.

(** The first [n] characters agree. *)
Definition agree (m : memory) (a b n : Z) : Prop := forall k, 0 <= k < n -> m (a + k) = m (b + k).

Lemma agree_step m a b n : 0 <= n -> m a = m b -> (agree m a b (1 + n) <-> agree m (a + 1) (b + 1) n).
Proof.
  intros Hn E. split; intros H k Hk.
  - rewrite <- !Z.add_assoc. apply H. lia.
  - destruct (Z.eq_dec k 0) as [-> | Hk0]; [rewrite !Z.add_0_r; exact E |].
    specialize (H (k - 1) ltac:(lia)). rewrite <- !Z.add_assoc in H. replace (1 + (k - 1)) with k in H by lia. exact H.
Qed.

Lemma strncmp_step n a b m : Z.of_nat n < UINT_MAX ->
  strncmp a b (Z.of_nat (S n)) m =
    if negb (m a =? 0) && (m a =? m b) then strncmp (a + 1) (b + 1) (Z.of_nat n) m else m a - m b.
Proof.
  intros Hn. unfold strncmp. rewrite !Nat2Z.id. cbn [strncmp_loop].
  destruct (_ && _); [reflexivity |]. rewrite (proj2 (Z.eqb_neq _ _)) by lia. reflexivity.
Qed.

(** [b] has no NUL among its first [n] characters, as the needle of [strstr]. *)
Lemma strncmp_agree n : forall a b m, Z.of_nat n <= UINT_MAX -> (forall k, 0 <= k < Z.of_nat n -> m (b + k) <> 0) ->
  (strncmp a b (Z.of_nat n) m = 0 <-> agree m a b (Z.of_nat n)).
Proof.
  induction n as [| n IH]; intros a b m Hn Hb; [split; [intros _ k Hk; lia | reflexivity] |].
  rewrite strncmp_step by lia. replace (Z.of_nat (S n)) with (1 + Z.of_nat n) by lia.
  pose proof (Hb 0 ltac:(lia)) as Hb0. rewrite Z.add_0_r in Hb0.
  destruct (Z.eqb_spec (m a) (m b)) as [E | E].
  - rewrite (proj2 (Z.eqb_neq _ 0)) by congruence. cbn [negb andb]. rewrite agree_step by (assumption || lia).
    apply IH; [lia |]. intros k Hk. rewrite <- Z.add_assoc. apply Hb. lia.
  - rewrite andb_false_r. split; [lia |]. intros H. contradict E.
    specialize (H 0 ltac:(lia)). rewrite !Z.add_0_r in H. exact H.
Qed.

Lemma strstr_loop_first fuel : forall h hl needle nl m,
  str_at m h hl -> str_at m needle nl -> 0 < nl <= UINT_MAX -> hl < Z.of_nat fuel ->
  exists r, strstr_loop fuel h needle nl m = Some r /\
    ((r = 0 /\ forall i, 0 <= i <= hl -> ~ agree m (h + i) needle nl) \/
     exists i, 0 <= i <= hl /\ r = h + i /\ agree m (h + i) needle nl /\ forall j, 0 <= j < i -> ~ agree m (h + j) needle nl).
Proof.
  induction fuel as [| fuel IH]; intros h hl needle nl m Hh Hnd Hnl Hf; [destruct Hh; lia |]. cbn [strstr_loop].
  assert (Hn0 : m needle <> 0) by (destruct Hnd as (_ & Hc & _); specialize (Hc 0); rewrite Z.add_0_r in Hc; apply Hc; lia).
  assert (Hhead : forall p, agree m p needle nl -> m p = m needle)
    by (intros p H; specialize (H 0); rewrite !Z.add_0_r in H; apply H; lia).
  destruct (Z.eqb_spec (m h) 0) as [E | E].
  - exists 0. split; [reflexivity |]. left. split; [reflexivity |]. intros i Hi H.
    rewrite (str_at_nil _ _ _ Hh E) in Hi. replace (h + i) with h in H by lia. apply Hhead in H. congruence.
  - assert (Hcmp : (m h =? m needle) && (strncmp h needle nl m =? 0) = true <-> agree m h needle nl).
    { rewrite andb_true_iff, !Z.eqb_eq. rewrite <- (Z2Nat.id nl) by lia. rewrite strncmp_agree.
      - rewrite Z2Nat.id by lia. split; [tauto | intros H; split; [apply Hhead, H | exact H]].
      - lia.
      - rewrite Z2Nat.id by lia. apply Hnd. }
    destruct (_ && _).
    + exists h. split; [reflexivity |]. right. exists 0. rewrite Z.add_0_r.
      split; [destruct Hh; lia |]. split; [reflexivity |]. split; [apply Hcmp; reflexivity | lia].
    + assert (Hno : ~ agree m h needle nl) by (intros H; apply Hcmp in H; discriminate).
      destruct (str_at_cons _ _ _ Hh E) as [Hl Hh'].
      destruct (IH (h + 1) (hl - 1) needle nl m Hh' Hnd Hnl ltac:(lia)) as (r & Hr & Hcase). exists r. split; [exact Hr |].
      assert (Hlift : forall i, 0 <= i -> (0 < i -> ~ agree m (h + 1 + (i - 1)) needle nl) -> ~ agree m (h + i) needle nl).
      { intros i Hi H. destruct (Z.eq_dec i 0) as [-> | Hi0]; [rewrite Z.add_0_r; exact Hno |].
        replace (h + i) with (h + 1 + (i - 1)) by lia. apply H. lia. }
      destruct Hcase as [[-> H] | (i & Hi & -> & H & Hb)]; [left | right].
      * split; [reflexivity |]. intros i Hi. apply Hlift; [lia |]. intros H0. apply H. lia.
      * exists (i + 1). replace (h + (i + 1)) with (h + 1 + i) by lia. split; [lia |]. split; [reflexivity |]. split; [exact H |].
        intros j Hj. apply Hlift; [lia |]. intros H0. apply Hb. lia.
Qed.

Lemma str_at_put a v m s l : str_at m s l -> a < s \/ s + l < a -> str_at (put a v m) s l.
Proof.
  intros (Hl & Hc & He) Ha. split; [exact Hl |].
  split; [intros k Hk; rewrite put_other by lia; apply Hc, Hk | rewrite put_other by lia; exact He].
Qed.

(** [strcpy] moves the string with its NUL. *)
Lemma strcpy_moved fuel : forall dst src l m, str_at m src l -> dst <= src \/ src + l < dst -> l < Z.of_nat fuel ->
  exists m', strcpy fuel dst src m = Some m' /\ moved dst src (l + 1) m m'.
Proof.
  induction fuel as [| fuel IH]; intros dst src l m Hs Hd Hf; [destruct Hs; lia |]. cbn [strcpy].
  destruct (Z.eqb_spec (m src) 0) as [E | E].
  - eexists. split; [reflexivity |]. rewrite (str_at_nil _ _ _ Hs E). apply put_moved.
  - destruct (str_at_cons _ _ _ Hs E) as [Hl Hs'].
    destruct (IH (dst + 1) (src + 1) (l - 1) (put dst (m src) m)) as (m' & Hr & Hm); [apply str_at_put; [exact Hs' | lia] | lia | lia |].
    exists m'. split; [exact Hr |]. replace (l + 1) with (1 + l) by lia.
    apply moved_step with (m1 := put dst (m src) m); [lia | lia | lia | apply put_moved |].
    replace l with (l - 1 + 1) at 1 by lia. exact Hm.
Qed.

(** The first loop of [strncpy], with a NUL among the characters it may take and without one.
    Both blocks end within the address space; the pointers may stand at its end, which is 0. *)
Definition block (p n : Z) : Prop := 0 <= p /\ p + n <= 2 ^ 32.

Lemma block_here p n : block p (Z.of_nat (S n)) -> u32 p = p.
Proof. intros [H0 H1]. apply u32_small. lia. Qed.

Lemma block_next p n : block p (Z.of_nat (S n)) -> block (p + 1) (Z.of_nat n).
Proof. unfold block. lia. Qed.

Lemma u32_next p : u32 (u32 p + 1) = u32 (p + 1).
Proof. rewrite !u32_mod. apply Zplus_mod_idemp_l. Qed.

Lemma strncpy_loop_nul n : forall dst src l m, block dst (Z.of_nat n) -> block src (Z.of_nat n) ->
  str_at m src l -> dst <= src \/ src + l < dst -> l < Z.of_nat n ->
  exists m', strncpy_loop n (u32 dst) (u32 src) m = (Z.of_nat n - l - 1, u32 (dst + l + 1), m') /\
             moved dst src (l + 1) m m'.
Proof.
  induction n as [| n IH]; intros dst src l m Bd Bs Hs Hd Hf; [destruct Hs; lia |]. cbn [strncpy_loop].
  rewrite !u32_next, (block_here _ _ Bd), (block_here _ _ Bs).
  destruct (Z.eqb_spec (m src) 0) as [E | E].
  - eexists. rewrite (str_at_nil _ _ _ Hs E). split; [f_equal; f_equal; [lia | f_equal; lia] | apply put_moved].
  - destruct (str_at_cons _ _ _ Hs E) as [Hl Hs'].
    destruct (IH (dst + 1) (src + 1) (l - 1) (put dst (m src) m)) as (m' & Hr & Hm);
      [apply block_next, Bd | apply block_next, Bs | apply str_at_put; [exact Hs' | lia] | lia | lia |].
    exists m'. split; [rewrite Hr; f_equal; f_equal; [lia | f_equal; lia] |]. replace (l + 1) with (1 + l) by lia.
    apply moved_step with (m1 := put dst (m src) m); [lia | lia | lia | apply put_moved |].
    replace l with (l - 1 + 1) at 1 by lia. exact Hm.
Qed.

Lemma strncpy_loop_cut n : forall dst src m, block dst (Z.of_nat n) -> block src (Z.of_nat n) ->
  (forall k, 0 <= k < Z.of_nat n -> m (src + k) <> 0) -> dst <= src \/ src + Z.of_nat n <= dst ->
  exists m', strncpy_loop n (u32 dst) (u32 src) m = (UINT_MAX, u32 (dst + Z.of_nat n), m') /\
             moved dst src (Z.of_nat n) m m'.
Proof.
  induction n as [| n IH]; intros dst src m Bd Bs Hc Hd; cbn [strncpy_loop].
  - exists m. rewrite Z.add_0_r. split; [reflexivity |]. intros x.
    destruct (Z.leb_spec dst x), (Z.ltb_spec x (dst + Z.of_nat 0)); cbn [andb]; try reflexivity; lia.
  - pose proof (Hc 0 ltac:(lia)) as H0. rewrite Z.add_0_r in H0.
    rewrite !u32_next, (block_here _ _ Bd), (block_here _ _ Bs), (proj2 (Z.eqb_neq _ _) H0).
    destruct (IH (dst + 1) (src + 1) (put dst (m src) m)) as (m' & Hr & Hm);
      [apply block_next, Bd | apply block_next, Bs | | lia |].
    { intros k Hk. rewrite put_other by lia. rewrite <- Z.add_assoc. apply Hc. lia. }
    exists m'. split; [rewrite Hr; f_equal; f_equal; f_equal; lia |]. replace (Z.of_nat (S n)) with (1 + Z.of_nat n) by lia.
    apply moved_step with (m1 := put dst (m src) m); [lia | lia | lia | apply put_moved | exact Hm].
Qed.

(** The second loop zeroes the [n] addresses from [out] on, around the end of the address space. *)
Lemma strncpy_pad_zeroes n : forall out m x, Z.of_nat n <= 2 ^ 32 -> 0 <= x < 2 ^ 32 ->
  strncpy_pad n (u32 out) m x = if u32 (x - out) <? Z.of_nat n then 0 else m x.
Proof.
  induction n as [| n IH]; intros out m x Hn Hx; cbn [strncpy_pad].
  - destruct (Z.ltb_spec (u32 (x - out)) (Z.of_nat 0)); [| reflexivity]. rewrite u32_mod in *. 
    Z.to_euclidean_division_equations; lia.
  - rewrite u32_next, (IH (out + 1)) by lia. unfold put. rewrite !u32_mod.
    destruct (Z.ltb_spec ((x - (out + 1)) mod 2 ^ 32) (Z.of_nat n)), (Z.ltb_spec ((x - out) mod 2 ^ 32) (Z.of_nat (S n))),
      (Z.eqb_spec x (out mod 2 ^ 32)); try reflexivity; Z.to_euclidean_division_equations; lia.
Qed.

(** The two ways out of the first loop. *)
Lemma strncpy_fits dst src l n m x : dst <= src \/ src + n <= dst -> block dst n -> block src n ->
  str_at m src l -> l < n -> 0 <= x < 2 ^ 32 ->
  strncpy dst src n m x = if (dst + l <=? x) && (x <? dst + n) then 0
                          else if (dst <=? x) && (x <? dst + l) then m (src + (x - dst)) else m x.
Proof.
  intros Hd Bd Bs Hs Hl Hx. pose proof Hs as (Hl0 & _ & He). unfold strncpy, block in *.
  destruct (strncpy_loop_nul (Z.to_nat n) dst src l m) as (m' & Hr & Hm);
    [unfold block; rewrite Z2Nat.id; lia | unfold block; rewrite Z2Nat.id; lia | exact Hs | lia | lia |].
  rewrite (u32_small dst), (u32_small src) in Hr by lia. rewrite Hr.
  rewrite Z2Nat.id by lia. rewrite strncpy_pad_zeroes, Z2Nat.id, Hm, u32_mod by lia.
  destruct (Z.ltb_spec ((x - (dst + l + 1)) mod 2 ^ 32) (n - l - 1)), (Z.leb_spec dst x),
    (Z.ltb_spec x (dst + (l + 1))), (Z.leb_spec (dst + l) x), (Z.ltb_spec x (dst + n)), (Z.ltb_spec x (dst + l));
    cbn [andb]; try reflexivity; try (Z.to_euclidean_division_equations; lia).
  replace (src + (x - dst)) with (src + l) by lia. exact He.
Qed.

Lemma strncpy_sweeps dst src n m x : dst <= src \/ src + n <= dst -> 0 <= n -> block dst n -> block src n ->
  (forall k, 0 <= k < n -> m (src + k) <> 0) -> dst < 2 ^ 32 -> src < 2 ^ 32 -> 0 <= x < 2 ^ 32 ->
  strncpy dst src n m x = if x =? u32 (dst + n - 1) then if n =? 0 then m x else m (src + n - 1) else 0.
Proof.
  intros Hd Hn Bd Bs Hc Ha Hb Hx. unfold strncpy, block in *.
  destruct (strncpy_loop_cut (Z.to_nat n) dst src m) as (m' & Hr & Hm);
    [unfold block; rewrite Z2Nat.id; lia | unfold block; rewrite Z2Nat.id; lia | rewrite Z2Nat.id; assumption | lia |].
  rewrite (u32_small dst), (u32_small src) in Hr by lia. rewrite Hr.
  rewrite Z2Nat.id in * by exact Hn. rewrite strncpy_pad_zeroes, Z2Nat.id, Hm, !u32_mod by (unfold UINT_MAX; lia).
  unfold UINT_MAX.
  destruct (Z.ltb_spec ((x - (dst + n)) mod 2 ^ 32) 4294967295), (Z.eqb_spec x ((dst + n - 1) mod 2 ^ 32));
    try reflexivity; try (Z.to_euclidean_division_equations; lia).
  destruct (Z.eqb_spec n 0), (Z.leb_spec dst x), (Z.ltb_spec x (dst + n)); cbn [andb]; try reflexivity;
    try (f_equal; Z.to_euclidean_division_equations; lia); exfalso; Z.to_euclidean_division_equations; lia.
Qed.

(** * What the library promises *)

(** Whatever the alignment selects, words or bytes, a block is the block C asks for and the rest of
    memory is untouched: [memset] fills it with the byte of its argument, [memcpy] moves it
    when the source does not begin before an overlapping destination, [memmove] in every case. *)
Theorem blocks_are_moved (dst src n value : Z) (m : memory) (Hm : bytes_of_memory m) (Hn : 0 <= n) :
  filled dst n (u8 value) m (memset dst value n m) /\
  (dst <= src \/ src + n <= dst -> moved dst src n m (memcpy dst src n m)) /\
  moved dst src n m (memmove dst src n m).
Proof.
  split; [apply memset_filled, Hn |]. split; [apply memcpy_moved; assumption | apply memmove_moved, Hn].
Qed.

(** C33: [memcmp] returns on every input, on the word path and on the byte path, the
    difference of the first two bytes that differ, or 0 when the blocks are equal. *)
Theorem memcmp_first_difference (a b n : Z) (m : memory) (Hm : bytes_of_memory m) (Hn : 0 <= n) :
  exists r, memcmp a b n m = Some r /\ first_difference a b n m r.
Proof.
  unfold memcmp. destruct (aligned _ n) eqn:Ha.
  - destruct (compare_words_first (Z.to_nat (n .>> 2)) a b m Hm) as (r & Hr & H). exists r. split; [exact Hr |].
    rewrite (aligned_words _ _ Ha Hn). exact H.
  - eexists. split; [reflexivity |]. rewrite <- (Z2Nat.id n Hn) at 1. apply compare_bytes_first.
Qed.

Theorem strstr_first_occurrence (fuel : nat) (h hl needle nl : Z) (m : memory)
  (Hh : str_at m h hl) (Hnd : str_at m needle nl) (Hb : nl <= UINT_MAX) (Hf : hl < Z.of_nat fuel) (Hf' : nl < Z.of_nat fuel) :
  exists r, strstr fuel h needle m = Some r /\
    ((r = 0 /\ forall i, 0 <= i <= hl -> ~ agree m (h + i) needle nl) \/
     exists i, 0 <= i <= hl /\ r = h + i /\ agree m (h + i) needle nl /\ forall j, 0 <= j < i -> ~ agree m (h + j) needle nl).
Proof.
  unfold strstr. rewrite (strlen_length _ _ _ _ Hnd Hf'). destruct (Z.eqb_spec nl 0) as [-> | H0].
  - exists h. split; [reflexivity |]. right. exists 0. rewrite Z.add_0_r.
    split; [destruct Hh; lia |]. split; [reflexivity |]. split; [intros k Hk; lia | lia].
  - apply strstr_loop_first; try assumption. destruct Hnd. lia.
Qed.

(** C40: For blocks that lie in the 32-bit address space, [strncpy] copies a string that ends
    within its first [n] characters and pads it with zeros to [n], as in C.  For a source
    with no NUL there, and for [n = 0], the test [n-- > 0u] has wrapped [n] to the largest
    [size_t], and the padding loop runs around the whole address space: every byte of
    memory becomes zero, the destination included, except the one byte in front of the
    place where it began, the last byte copied. *)
Theorem strncpy_pads_or_overruns (dst src l n : Z) (m : memory) (Hd : dst <= src \/ src + n <= dst)
  (Hn : 0 <= n) (Bd : block dst n) (Bs : block src n) :
  (str_at m src l -> l < n -> forall x, 0 <= x < 2 ^ 32 ->
     strncpy dst src n m x = if (dst + l <=? x) && (x <? dst + n) then 0
                             else if (dst <=? x) && (x <? dst + l) then m (src + (x - dst)) else m x) /\
  ((forall k, 0 <= k < n -> m (src + k) <> 0) -> dst < 2 ^ 32 -> src < 2 ^ 32 ->
     (forall x, 0 <= x < 2 ^ 32 -> x <> u32 (dst + n - 1) -> strncpy dst src n m x = 0) /\
     strncpy dst src n m (u32 (dst + n - 1)) = if n =? 0 then m (u32 (dst - 1)) else m (src + n - 1)).
Proof.
  split; [intros Hs Hl x Hx; apply strncpy_fits; assumption |]. intros Hc Ha Hb. split; [intros x Hx Hne |].
  - rewrite strncpy_sweeps by assumption. rewrite (proj2 (Z.eqb_neq _ _) Hne). reflexivity.
  - rewrite strncpy_sweeps by (assumption || apply u32_range). rewrite Z.eqb_refl.
    destruct (Z.eqb_spec n 0) as [-> | _]; [rewrite Z.add_0_r |]; reflexivity.
Qed.

(** * On a small memory *)

Definition small : memory := fun x => nth (Z.to_nat x) [0; 1; 2; 3; 97; 98; 97; 0; 97; 98; 98; 0] 0.

Lemma small_bytes : bytes_of_memory small.
Proof.
  intros x. unfold small. generalize (Z.to_nat x). intros n.
  do 12 (destruct n as [| n]; [unfold is_byte; cbn; lia |]). destruct n; unfold is_byte; cbn; lia.
Qed.

Lemma small_string : str_at small 4 3.
Proof.
  split; [lia |]. split; [| reflexivity]. intros k Hk.
  assert (H : k = 0 \/ k = 1 \/ k = 2) by lia. destruct H as [-> | [-> | ->]]; vm_compute; discriminate.
Qed.

Lemma blocks_are_moved_witness :
  filled 0 8 255 small (memset 0 (-1) 8 small) /\ moved 0 4 8 small (memcpy 0 4 8 small) /\
  moved 2 0 7 small (memmove 2 0 7 small).
Proof.
  split; [exact (proj1 (blocks_are_moved 0 4 8 (-1) small small_bytes ltac:(lia))) |].
  split; [exact (proj1 (proj2 (blocks_are_moved 0 4 8 0 small small_bytes ltac:(lia))) ltac:(lia)) |].
  exact (proj2 (proj2 (blocks_are_moved 2 0 7 0 small small_bytes ltac:(lia)))).
Defined.

Lemma memcmp_first_difference_witness :
  memcmp 4 8 4 small = Some (-1) /\ exists r, memcmp 4 8 4 small = Some r /\ first_difference 4 8 4 small r.
Proof. split; [vm_compute; reflexivity | exact (memcmp_first_difference 4 8 4 small small_bytes ltac:(lia))]. Defined.

Lemma strncpy_pads_or_overruns_witness :
  (strncpy 20 4 6 small 22 = 97 /\ strncpy 20 4 6 small 25 = 0) /\
  strncpy 20 4 2 small 20 = 0 /\ strncpy 20 4 2 small 4 = 0 /\ strncpy 20 4 2 small 21 = 98.
Proof.
  assert (H1 : 20 <= 4 \/ 4 + 6 <= 20) by lia. assert (H2 : 20 <= 4 \/ 4 + 2 <= 20) by lia.
  assert (B : forall p n, 0 <= p < 100 -> n < 100 -> block p n) by (unfold block; lia).
  assert (Hc : forall k, 0 <= k < 2 -> small (4 + k) <> 0) by (intros k Hk; apply small_string; lia).
  split.
  - pose proof (proj1 (strncpy_pads_or_overruns 20 4 3 6 small H1 ltac:(lia) ltac:(apply B; lia) ltac:(apply B; lia))
      small_string ltac:(lia)) as Hp.
    split; [exact (Hp 22 ltac:(lia)) | exact (Hp 25 ltac:(lia))].
  - destruct (proj2 (strncpy_pads_or_overruns 20 4 3 2 small H2 ltac:(lia) ltac:(apply B; lia) ltac:(apply B; lia))
      Hc ltac:(lia) ltac:(lia)) as [Hz Hlast].
    split; [apply Hz; [lia | discriminate] |]. split; [apply Hz; [lia | discriminate] |]. exact Hlast.
Defined.

Example strstr_small : strstr 10 5 6 small = Some 6 /\ strstr 10 8 4 small = Some 0.
Proof. vm_compute. split; reflexivity. Qed.
